(* ===== verification/_CoqProject ===== *)
-Q . S2P

Prelude.v
Programs.v
StateMachine.v
OpsGraphs.v
GoStrings.v
Net.v
Handles.v
VolStack.v
UpgradeRules.v
UpgradePlan.v
UpgradeGraph.v
UpgradeRun.v
UpgradeMigration.v
Admission.v
Rank.v
Placement.v
TwoNode.v
Switchover.v
DeviceOps.v
DeviceRestart.v
DeviceLock.v
Kube.v
Discovery.v
DiscoveryNet.v
Documents.v
DiscoveryGroups.v
DiscoveryPlan.v
Stripes.v
DiscoveryTemplate.v
DocumentChecks.v
DraftChecks.v
Expansion.v
ExpansionRuns.v
BlockContent.v
BlockDevices.v
HostCalls.v
Lvm.v
Layers.v
Plans.v
StackSafety.v
StackVerbs.v
