(* ===== verification/Prelude.v ===== *)
(** * A verification of the simplyblock operator's core

    ** The program

    The repository holds a Kubernetes operator for simplyblock storage clusters
    ([src/operator]), the CSI driver that attaches their volumes to workloads
    ([src/csi-driver]) and the library both are written with
    ([src/atlas-lib]).  What decides whether they are correct is not in the calls
    they make but between them: which step an operation is in and which it may
    enter next, what is written down before a side effect, what is still held
    when something fails half way, and how a volume is named where nothing but
    its name travels.  That is what is modelled here.

    A long-running operation (a node's restart or removal, a cluster's rolling
    restart, a volume's move, a restore, the migration between the two API
    versions) is a state machine whose position is kept in a resource's status.
    A pass of a controller rebuilds the machine from the status, looks at the
    world, makes at most one transition and writes the new position back; the
    next pass may be in another process.  Admission refuses the operations that
    name what cannot be acted on and the DELETE of a record that is the only
    thing watching over work that cannot be stopped.  On a node, a volume is a
    stack of layers, whose record outlives the process that built it.

    ** Files

    - [Prelude]: the vocabulary below.
    - [StateMachine] ([atlas-lib/statemachine/*.go]): [Context] is what the
      machine uses of Go's contexts; [Machine], [TransitionTo], [Extend],
      [Restore] and the other methods are those of [statemachine.go]; [hook] is
      an entry hook, a program over the machine's own methods and the world, so
      that re-entrancy is in the model; [MultiNew] and [configFor] are
      [multiconfig.go], [CanAbort] and [UnabortableMultiStates] [abort.go],
      [ToKube] and [FromKube] [kubernetes.go], [WithClaim] [claim.go].
      [reachable] is the step relation of a machine driven by its owner.
    - [OpsGraphs]: a Module per package of [operator/internal/controllers] with
      its steps, deadlines, graphs and tables ([graphs.go] of each), and how a
      pass enters a step, which the packages do in three ways ([enterStep],
      [enterInPlace], [enterAhead]; the first step is [enterInitialStep]), picks
      the next one and reports it.  [kinds] and [entities] gather them.
    - [GoStrings]: Go's strings and the functions of [strings] and [strconv]
      that are called on them, runes decoded where Go decodes them.
    - [Handles] ([atlas-lib/lvol], [atlas-lib/nqn]): volume handles, group and
      group-snapshot handles, subsystem and host names.
    - [VolStack] ([atlas-lib/volstack/record.go], [runner.go], [layer.go]): the
      record of a stack, its directory, and the verbs [Up], [Down], [Heal],
      [Grow], [ObserveStack], [DestroyStack].  A layer is a record of the
      functions the Go interface names, over any state of the host.
    - [UpgradeRules] ([operator/internal/upgrade/rule.go], [order.go]): the class
      [Rule], the registry, and [topoSort].
    - [UpgradePlan] ([object.go], [finding.go], [plan.go], [phase.go],
      [position.go]), [UpgradeGraph] ([graph.go]), [UpgradeRun] ([catalog.go],
      [subject.go], [step.go], [runner.go]) and [UpgradeMigration] ([record.go],
      [phase.go], [migration.go]): what a run reports, the objects it is about,
      the runner, and the migration's walk and record.
    - [Admission] ([operator/internal/webhook]): the validators of the operation
      kinds.
    - [Rank] ([operator/internal/placement/rank.go]): the pure choice of a
      member pool, its filters and comparisons, in the widths the code computes
      in: 64 bits for what is compared with a threshold, exact where it uses big
      integers.
    - [Placement] ([operator/internal/placement/service.go]): the service the
      provisioner asks.  Its memory (the ledgers and the groups) is explicit
      state, what the API and the control plane answer is a record of answers,
      and a call may find the ledger changed by the calls it interleaves with.
      [register_step] is its specification: one write-once register per claim whose
      member its calls read as it stands.
    - [TwoNode] ([operator/internal/controllers/twonode]): the passes of the
      arbitration controller and of the remediation controller, as programs over
      the stored objects in which every API call may fail or conflict, and which
      record what they send to the control plane.  Nobody else writes the objects
      while a pass runs.
    - [Switchover] ([atlas-lib/switchover], the synchronous verbs of the
      control-plane client in [atlas-lib/controlplane], [vrgfollow]): a move between sites as a program of
      calls, movers of any number interleaved call by call against one server,
      and the controller that follows a VolumeReplicationGroup.

    - [Programs]: programs over a type of calls, with the weakest precondition of
      a program under a rule for each call; [Switchover] and the device operations
      are written with it.
    - [DeviceOps] ([operator/internal/controllers/node/storagedeviceops_*.go],
      [stepclaim]): the reconciler of operations on one device, whole, as a
      program over the reads and conditional writes of the API server and the
      verbs of the control plane.  [World] keeps every version of an operation and
      of a device; [step] runs any number of passes against it call by call,
      under a [Regime] that says whether reads lag, passes of one operation
      overlap and names are used again; a write may land without an answer and a
      pass may stop anywhere in every regime.  [DeviceRestart] and [DeviceLock]
      hold what is proved of it.

    - [Net]: the addresses and prefixes of [net] and [net/netip], as far as they are
      parsed, compared and printed.
    - [Discovery] ([operator/internal/discovery]: [rules.go], [iscsi.go],
      [simplyblock.go], [placement.go], the pipeline of [plan.go]; the reports of
      [operator/internal/nodeprobe]): which devices and workers a discovery run
      takes, and the choice among a worker's devices.  [DiscoveryNet]
      ([netstack.go], [mgmtiface.go], [dataiface.go], [netattach.go], [netalign.go],
      [kubenode.go], [noderole.go]): the workers and the networks they share.
      [DiscoveryGroups] ([grouping.go], [rolesets.go], [sizesplit.go]): the groups and
      node sets of the draft.  [DiscoveryPlan] ([plan.go], [failuredomain.go],
      [kernel.go]): [Plan_of] is the whole pipeline, from the reports of a fleet to
      the draft and the account of it.
    - [Kube] ([atlas-lib/kube]): derived identifiers and workload names, the keys that
      moved to another prefix, pins, and what storage classes and volumes say.
    - [Stripes] ([operator/internal/erasurecoding]) and [Documents] (the API types of
      [operator/api/v1alpha2] a deployment reads and writes).
      [DiscoveryTemplate] ([discovery/template.go], [hostos.go], [draftFor]) is the
      cluster a run proposes; [DocumentChecks]
      ([operator/internal/controllers/deployment/validation.go] and its neighbours, the
      guard [webhook/clusterdeploymentconfig_validator.go]) what a document is checked
      against, before and at its approval; [DraftChecks] proves the one against the
      other.
    - [Expansion] ([clusterdeploymentconfig_controller.go], [expansion.go],
      [supercluster.go]): the pass of the reconciler that builds what a document says, as a
      program over its calls; [ExpansionRuns] runs it against a server to the end.
    - [BlockContent] ([atlas-lib/blockdev/content.go], [signatures.go], [excision.go],
      [device.go]): what the bytes of a device say it holds: every detector, what is
      cut out of a reading first, the choice among what is recognised, the rule for a
      blank device, and the prober that reads the regions it asks for.
      [BlockDevices] ([scan.go], [usage.go], [stablelinks.go], [candidate.go],
      [atlas-lib/internal/sysfs], and the devices of a [nodeprobe] report): the scan of
      a host's block devices, who uses each, its persistent names, and which of them
      are candidates for storage.

    - [HostCalls] ([atlas-lib/nvme], [lvol/resolver.go], [nvmeof/connector.go],
      [volstack/plans/plans.go]): what a layer of a volume's stack may call on its host, one
      constructor per call, and what it reads of an NVMe device.  A method is a program
      over these calls ([op]) that may fail.
    - [Lvm] ([atlas-lib/lvm], [atlas-lib/devmapper]): the manager of LVM and the mapper, each
      method as the commands it runs and what it makes of their output.  [Layers]
      ([atlas-lib/volstack/layers], with [DetachDevice] of [nvmeof/detach.go] and the
      question of [nvme/multinamespace.go]): every layer, with what it remembers between its
      methods.  [Plans] ([atlas-lib/volstack/plans], and of the CSI driver
      [internal/csi/node/plan.go] and the shape in [stage.go]): the catalog of shapes and the
      choice among them; [install] puts a layer on a host, any state with any way of
      answering the calls, and so makes it one of [VolStack]'s layers.  [StackSafety] says
      which evidence each call needs ([permitted], [allowed]) and proves it of every method
      of every layer; [StackVerbs] proves it of the runner's verbs.

    They build on each other as the code does: the graphs and the migration on
    the machine, the DELETE guards on the graphs, the CREATE guards on the
    handles, the runner on the rules, the walk on the runner, the filesystem layer on the
    content reading, and the plans on the layers and on the stack's runner.

    ** What the theorems show

    - The machine: a transition is reported done only along a declared edge, with
      its hook's deadline ([transition_done]); one that is not done changes
      nothing ([transition_failure_untouched]); no sequence of calls, re-entrant
      ones included, leaves the declared states ([reachable_declared]); a
      position stored and restored is the same one ([snapshot_roundtrip]);
      deadlines only move outward ([extend_only_outward]); of the passes that
      read one version at most one fires the step's side effect
      ([claim_fires_once], [claim_lease_holds]).
    - The operations: the step a pass enters is bounded, and what is stored before it by
      the two kinds that store it ahead is not ([every_step_bounded],
      [a_step_written_ahead_never_times_out], [first_step_bounded]), an abort and a DELETE agree ([abort_and_delete_agree],
      [delete_refused_past_no_return]), operations end ([walks_end]) and no step
      is a trap ([no_step_is_a_trap]).
    - The stack: what is written is ahead of what is done
      ([up_is_written_ahead]), the record is never torn
      ([write_survives_power_loss]), and what each verb may and must do
      ([down_releases_what_is_held], [destroy_top_down], [live_verbs_are_safe],
      [failed_bring_up_holds_nothing]).
    - The layers, on any host: no verb over any plan of the catalog makes a call without the
      evidence it needs ([verbs_ask_first]), and each verb keeps to the effects it may have,
      the nodes of a group being cleared only after an unmapping of it that failed
      ([verbs_keep_to_their_effects]); where readings are of the bytes of the host's devices,
      a filesystem is made only on a device that is blank then
      ([only_a_blank_device_is_formatted]); a staging formats and mounts exactly as its
      decision table says ([staging_follows_its_decision]); and what a volume was staged as
      is what it is restaged and taken down as ([staged_shape_is_kept]).
    - The identities: parsing and printing are inverse ([handle_roundtrip],
      [subsystem_roundtrip], [group_and_volume_disjoint]) and metadata cannot
      redirect a volume ([annotation_only_normalizes]).
    - The upgrade: rules run in an order their requirements allow
      ([stage_steps_ordered]), a dry run is the plan ([dry_run_announces_the_plan]),
      a finished stage stays finished ([applied_stage_is_settled]), the graph is
      what was read last ([graph_reflects_last_read],
      [walk_visits_each_object_once]), the migration ends and resumes where it
      stopped ([migration_walk]), and its record comes back
      ([record_roundtrip]).
    - Admission: what is admitted is what the operation needs
      ([admitted_restore], [admitted_volume_operation]), and a refusal reveals
      nothing ([refusal_reveals_nothing]).
    - Placement: for every history of calls, lost answers and restarts, a claim whose
      calls read its record as it stands is placed as a write-once register would place it
      ([placement_refines_register]), and one that is read from before is placed anew
      ([stale_claim_is_placed_again]); on figures within the stated bounds a member is
      chosen only if the volume fits what it has left, what was placed since its reading
      included ([ranked_placement_fits]), and no member considered is better
      ([rank_is_least]); a consistency group stays in one member
      ([group_is_never_split]).
    - Two-node clusters, where nobody else writes during a pass (what happens otherwise is
      [concurrent_taint_is_lost]): a pass of the arbitration reports a host clean, or
      releases it, only when it read nothing on it that may still write, and
      changes only what it is there to change ([arbitration_pass_is_safe]); taints
      are those the record names ([taints_follow_the_record]); without a record
      nothing is changed ([unreadable_record_changes_nothing]); a node is taken
      out of service only when the control plane confirms its fence
      ([out_of_service_only_when_fenced]).
    - Switchover: a move issues its verbs in the order that keeps one writer
      ([move_follows_protocol]), however many movers interleave, those of a store
      run one after the other ([moves_of_a_store_are_serial]), and a group is
      moved only where it is primary ([follow_moves_the_primary_group]).

    - Device operations: whatever lags, overlaps or stops, a device is restarted at
      most once for an operation ([restart_issued_once]), and a verb is issued only where the
      API server last told the pass that the operation holds the device's lock; without
      lagging reads, overlapping passes of one operation and names used again, the lock is the
      operation's then ([verbs_under_the_lock]) and every version of an operation follows the
      one before it along its graph ([operations_follow_their_graph], and with lagging reads
      [a_finished_operation_begins_again]).

    - Discovery: every worker a probe reported is in the plan or refused, once
      ([plan_accounts_for_every_worker]), and every device is its worker's or
      accounted for ([plan_accounts_for_every_device]); what is proposed may be used
      ([drafted_devices_are_usable]); the draft holds each worker of the plan once
      ([draft_holds_every_worker]), in a group that is true of it
      ([groups_describe_workers]), in members within the limit that spread the
      failure domains ([deal_balanced]), on networks it shares with the others
      ([fleet_shares_networks]); the order of the reports does not show
      ([plan_order_independent]); the walks down a stack of interfaces end
      ([physicalUnder_reaches], [effective_speed_enough]).

    - Deployment: what a run drafts for a new cluster is what its own approval admits, and
      what it drafts for one that is there passes the checks that are the draft's own
      ([drafts_pass_their_checks]), an approval is admitted exactly where the document
      can be deployed ([approval_is_checked]), and the controller and the webhook judge
      it alike, but for one case ([verdicts_agree], [one_set_growth_is_judged_twice]); the
      indices of failure domains only grow ([failure_domains_are_kept],
      [new_domains_take_the_lowest]).  A pass changes no object but for a document that is
      approved, valid and unfinished, or, for one that is expanded, the role of its cluster
      ([builds_only_what_was_approved]); it creates no member whose drawn name is not on
      record ([members_are_on_record]; a pass that reads a version before the record draws
      again, [a_stale_pass_renames_the_members]), asks for one node for each slot no listed
      node fills ([slots_are_filled_once]), for the nodes of one member after it read those of
      the member before online ([members_are_built_in_turn]), and asks a cluster to activate
      when its nodes, and those of the other site, are there
      ([activation_waits_for_its_nodes]).
    - Block devices: a prober sees what is on the device, however it reads it
      ([probe_sees_the_device]), and only when every byte it asked for came
      ([reading_took_every_byte]); a reading that says blank is evidence that no
      signature is there ([blank_reading_is_evidence]); a device in use is never read
      ([device_in_use_is_never_read]), and one that reaches a draft as usable was free
      by every account the host gave ([drafted_device_was_free]).
    - Names: a derived identifier is within its limit, and legal but for an object name of a
      part that leaves a dot next to a separator ([derived_is_legal]), one
      that is cut or always digested carries a digest of what it is made of
      ([digest_separates]), and keys are read in every spelling and written in one
      ([one_spelling_is_written], [applied_pin_is_settled], [ceilings_are_read_alike],
      [hostname_fits]).

    A theorem of a component is proved against what the others promise: the
    runner's against the contract of a step ([convergent]), the stack's against
    the contract of a layer ([Lawful]), the walk's against the laws of a record
    store ([StoreLaws]), which the ConfigMap store is then shown to keep
    ([config_map_store_laws]).  A Module at the end of each file ([Demo],
    [Cases], [Spelled], [Host], [Read], [Migrations], [Requests], [Fleet], [Runs]), or its last lemmas, run
    the definitions on concrete inputs.

    ** Conventions and bounds

    An error is [Err] of a type that names its cause where the code's callers
    tell causes apart, and its text otherwise.  Instants and durations are
    nanoseconds in [Z]; where the code multiplies or counts in a fixed width the
    result is wrapped to it ([wrap64], [wrap32]).  Map iteration is
    [map_to_list]; where the order could show, a theorem says it does not
    ([unabortable_multi_union], [parse_size_any_order]).  Sorting with a comparison is a
    stable sort by the keys it compares ([sort_by]), which differ where names do.  Three
    kinds of loop recurse on fuel: the walks of [DiscoveryNet], with one more than there
    are interfaces ([physicalUnder_reaches]), [kahn], with as many rounds as there are rules, each of which places one ([topoSort_spec]), and
    [walk], with one round per phase ([migration_walk] says it is enough).  The
    heights that bound the walks through a graph are computed from the graph.

    Outside of the source, and so arguments of the definitions that use them:
    the UUID parser, the API server's client and access reviews, the encodings of
    times and attestations, quoting, the naming of kinds by the scheme, and
    lower-casing beyond ASCII, the digest of SHA-256 and the check of a DNS label.  What is relied on of them is a named hypothesis
    ([canonical_spelling], [client_laws], [encoding_laws], [digests]), with an instance among
    the concrete inputs.  The file system is modelled down to what a loss of power
    may take: names that were not synced, and bytes that were not.

    ** Not modelled

    - The passes of the other operation kinds: their steps, deadlines and graphs are here;
      what is left is mostly calls to the API server and the backend, and the device
      operation is the one of them modelled whole, with what lags and stops.
    - The fleet guard and the field checks declared as CEL markers: policies the API server
      evaluates.  The remaining validators follow the pattern of the modelled ones.
    - The shipped upgrade steps, checks and discoverers: instances of the interfaces the
      runner is proved against, each a read or a rewrite of objects.  The conversions between
      API versions copy field by field.
    - Automatic placement by load: a floating-point score; floating-point arithmetic is not
      modelled, there or in storage-class parameters.
    - The CSI driver beyond the choice of a plan, the informers, and the links: handlers and
      long-lived streams around the modelled parts.
    - Concurrency inside one host: a verb of the stack runs alone on its volume, as the
      driver's lock per volume has it; other processes of the host show in the answers to
      its calls, which are arbitrary.
    - Generated code, protobuf stubs, HTTP and host I/O, rendering and terminal output, mock
      servers and tests.

    ** This file

    Shared vocabulary: Go's [error] results as a sum with a bind notation in its
    own scope ([go_scope]), instants and durations, [slices.Sort] on strings, the
    association lists a model uses where order or duplicates matter, the generic
    list and map lemmas, and the hint database [sb] with the tactics that close
    the routine goals. *)

From stdpp Require Export base option list list_numbers sorting strings gmap sets.
From Stdlib Require Export ZArith Lia.

#[export] Set Default Proof Using "Type".

(** ** Results *)

(** A Go function returning [(A, error)]: a value, or an error of type [E]. *)
Inductive res (E A : Type) : Type :=
| Ok (a : A)
| Err (e : E).
Arguments Ok {E A} a.
Arguments Err {E A} e.

Declare Scope go_scope.
Delimit Scope go_scope with go.

(** [x <- c ;; k] is Go's [x, err := c; if err != nil return err; k]. *)
Notation "x <-- c ;; k" :=
  (match c with Ok x => k | Err e => Err e end)
  (at level 60, c at next level, right associativity) : go_scope.
#[export] Set Warnings "-notation-overridden".
Open Scope go_scope.

Definition is_Ok {E A} (r : res E A) : bool :=
  match r with Ok _ => true | Err _ => false end.

(** [err == nil] for a function that returns only an error. *)
Abbreviation error_of E := (option E).

(** ** Time *)

(** [time.Time] as nanoseconds since Go's zero time, so the zero value is 0;
    [time.Duration] as nanoseconds. *)
Abbreviation Time := Z (only parsing).
Abbreviation Duration := Z (only parsing).

Definition zero_time : Time := 0%Z.
Definition IsZero (t : Time) : bool := Z.eqb t zero_time.
Definition Second : Duration := 1000000000%Z.
Definition Minute : Duration := (60 * Second)%Z.
Definition Hour : Duration := (60 * Minute)%Z.

(** An instant as a status keeps it, at the precision of a second. *)
Definition floor_second (t : Time) : Time := (t - t mod Second)%Z.

(** ** Signed machine integers *)

Definition int64_min : Z := (- 2 ^ 63)%Z.
Definition int64_max : Z := (2 ^ 63 - 1)%Z.

(** Two's-complement wrap-around at 64 bits, Go's [int64] arithmetic. *)
Definition wrap64 (z : Z) : Z := ((z + 2 ^ 63) mod 2 ^ 64 - 2 ^ 63)%Z.

Definition int32_max : Z := (2 ^ 31 - 1)%Z.
Definition wrap32 (z : Z) : Z := ((z + 2 ^ 31) mod 2 ^ 32 - 2 ^ 31)%Z.

Lemma wrap64_id z : (int64_min <= z <= int64_max)%Z -> wrap64 z = z.
Proof.
  unfold wrap64, int64_min, int64_max. intros H.
  rewrite Z.mod_small; lia.
Qed.

Lemma wrap64_range z : (int64_min <= wrap64 z <= int64_max)%Z.
Proof.
  unfold wrap64, int64_min, int64_max.
  pose proof (Z.mod_pos_bound (z + 2 ^ 63) (2 ^ 64) ltac:(lia)). lia.
Qed.

(** ** Optional minimum: the earlier of two instants that may be absent *)

Definition omin (a b : option Z) : option Z :=
  match a, b with
  | Some x, Some y => Some (Z.min x y)
  | Some x, None => Some x
  | None, b => b
  end.

Definition reached (a : option Z) (now : Z) : bool :=
  match a with Some t => Z.leb t now | None => false end.

Lemma omin_None_l b : omin None b = b.
Proof. by destruct b. Qed.
Lemma omin_None_r a : omin a None = a.
Proof. by destruct a. Qed.
Lemma omin_comm a b : omin a b = omin b a.
Proof. destruct a, b; simpl; try done. by rewrite Z.min_comm. Qed.
Lemma omin_assoc a b c : omin a (omin b c) = omin (omin a b) c.
Proof. destruct a, b, c; simpl; try done. by rewrite Z.min_assoc. Qed.

Lemma reached_omin a b now :
  reached (omin a b) now = reached a now || reached b now.
Proof.
  destruct a as [x|], b as [y|]; simpl; try done.
  - destruct (Z.leb_spec (x `min` y) now), (Z.leb_spec x now), (Z.leb_spec y now);
      simpl; try done; lia.
  - by rewrite orb_false_r.
Qed.

Lemma reached_mono a t t' : (t <= t')%Z -> reached a t = true -> reached a t' = true.
Proof.
  destruct a; simpl; [|done]. rewrite !Z.leb_le. lia.
Qed.

(** ** Sorting strings *)

(** [slices.Sort] and [sort.Strings]: byte-wise lexicographic order. *)
Definition sort_strings (l : list string) : list string := merge_sort String.le l.

Lemma sort_strings_perm l : sort_strings l ≡ₚ l.
Proof. apply merge_sort_Permutation. Qed.

Lemma sort_strings_elem x l : x ∈ sort_strings l <-> x ∈ l.
Proof. by rewrite sort_strings_perm. Qed.

Lemma sort_strings_sorted l : StronglySorted String.le (sort_strings l).
Proof. apply (StronglySorted_merge_sort _). Qed.

(** The order the elements arrived in, which for a Go map is unspecified, is
    not observable after sorting. *)
Lemma sort_strings_unique l k : l ≡ₚ k -> sort_strings l = sort_strings k.
Proof.
  intros H. apply (StronglySorted_unique String.le);
    [apply sort_strings_sorted..|]. by rewrite !sort_strings_perm.
Qed.

(** ** Lists *)

(** *** Sorting by a key

    [slices.SortFunc] by numbers in turn, as [cmp.Or] combines them, and then by a
    string. *)

Fixpoint lex_le (a b : list Z) : bool :=
  match a, b with
  | [], _ => true
  | _ :: _, [] => false
  | x :: a, y :: b => (x <? y)%Z || ((x =? y)%Z && lex_le a b)
  end.

Definition key_le (a b : list Z * string) : Prop :=
  (lex_le a.1 b.1 = true /\ a.1 <> b.1) \/ (a.1 = b.1 /\ String.le a.2 b.2).

#[export] Instance key_le_dec : RelDecision key_le.
Proof. intros a b. unfold key_le. apply _. Defined.

Lemma lex_le_refl a : lex_le a a = true.
Proof. induction a as [|x a IH]; simpl; [done|]. by rewrite Z.ltb_irrefl, Z.eqb_refl. Qed.

Lemma lex_le_trans a b c : lex_le a b = true -> lex_le b c = true -> lex_le a c = true.
Proof.
  revert b c. induction a as [|x a IH]; intros [|y b] [|z c]; simpl; try done.
  rewrite !orb_true_iff, !andb_true_iff, !Z.ltb_lt, !Z.eqb_eq.
  intros [?|[-> ?]] [?|[-> ?]]; [left; lia|left; lia|left; lia|right; split; [done|by eapply IH]].
Qed.

Lemma lex_le_antisymm a b : lex_le a b = true -> lex_le b a = true -> a = b.
Proof.
  revert b. induction a as [|x a IH]; intros [|y b]; simpl; try done.
  rewrite !orb_true_iff, !andb_true_iff, !Z.ltb_lt, !Z.eqb_eq.
  intros [?|[-> ?]] [?|[? ?]]; try lia. f_equal. by apply IH.
Qed.

Lemma lex_le_total a b : lex_le a b = true \/ lex_le b a = true.
Proof.
  revert b. induction a as [|x a IH]; intros [|y b]; simpl; try (by (left + right)).
  rewrite !orb_true_iff, !andb_true_iff, !Z.ltb_lt, !Z.eqb_eq.
  destruct (Z.lt_total x y) as [?|[->|?]]; [tauto| |tauto]. destruct (IH b); tauto.
Qed.

#[export] Instance key_le_trans : Transitive key_le.
Proof.
  intros a b c [[L1 N1]|[E1 S1]] [[L2 N2]|[E2 S2]].
  - left. split; [by eapply lex_le_trans|]. intros E. apply N1.
    apply lex_le_antisymm; [done|]. by rewrite E.
  - left. by rewrite <- E2.
  - left. by rewrite E1.
  - right. split; [congruence|by etrans].
Qed.

#[export] Instance key_le_total : Total key_le.
Proof.
  intros a b. destruct (decide (a.1 = b.1)) as [E|N].
  - destruct (total String.le a.2 b.2); [left|right]; right; by split.
  - destruct (lex_le_total a.1 b.1); [left|right]; left; split; congruence.
Qed.

#[export] Instance key_le_antisymm : AntiSymm (=) key_le.
Proof.
  intros [a s] [b t] [[L1 N1]|[E1 S1]] [[L2 N2]|[E2 S2]]; simpl in *; try done.
  - destruct N1. by apply lex_le_antisymm.
  - subst. f_equal. by apply (anti_symm String.le).
Qed.

Section SortBy.

Context {A : Type} (key : A -> list Z * string).

Definition by_key (a b : A) : Prop := key_le (key a) (key b).

#[export] Instance by_key_dec : RelDecision by_key.
Proof. intros a b. unfold by_key. apply _. Defined.

Definition sort_by (l : list A) : list A := merge_sort by_key l.

#[export] Instance by_key_trans : Transitive by_key.
Proof. intros a b c. apply key_le_trans. Qed.
#[export] Instance by_key_total : Total by_key.
Proof. intros a b. apply key_le_total. Qed.

Lemma sort_by_perm l : sort_by l ≡ₚ l.
Proof. apply merge_sort_Permutation. Qed.

Lemma sort_by_elem x l : x ∈ sort_by l <-> x ∈ l.
Proof. by rewrite sort_by_perm. Qed.

Lemma sort_by_sorted l : StronglySorted by_key (sort_by l).
Proof. apply StronglySorted_merge_sort; apply _. Qed.

(** Where no two elements have the same key, the order they came in does not matter. *)
Lemma sort_by_unique l k :
  (forall x y, x ∈ l -> y ∈ l -> key x = key y -> x = y) -> l ≡ₚ k -> sort_by l = sort_by k.
Proof.
  intros Hinj Hp. assert (Hs : sort_by l ≡ₚ sort_by k) by by rewrite !sort_by_perm.
  assert (Hl := sort_by_sorted l). assert (Hk := sort_by_sorted k).
  assert (Hin : forall x y, x ∈ sort_by l -> y ∈ sort_by l -> key x = key y -> x = y)
    by (intros x y; rewrite !sort_by_elem; apply Hinj).
  revert Hs Hl Hk Hin. generalize (sort_by l) (sort_by k). clear.
  intros l. induction l as [|x l IH]; intros k Hp Hl Hk Hin.
  { by apply Permutation_nil_l in Hp as ->. }
  destruct k as [|y k]; [by apply Permutation_nil_r in Hp|].
  apply StronglySorted_inv in Hl as [Hl Hx], Hk as [Hk Hy]. rewrite Forall_forall in Hx, Hy.
  assert (x = y) as ->.
  { assert (Hyl : y ∈ x :: l) by (rewrite Hp; by left).
    assert (Hxk : x ∈ y :: k) by (rewrite <- Hp; by left).
    apply Hin; [by left|done|]. apply elem_of_cons in Hyl as [->|Hyl]; [done|].
    apply elem_of_cons in Hxk as [->|Hxk]; [done|].
    apply (anti_symm key_le); [by apply Hx|by apply Hy]. }
  f_equal. apply IH; try done; [by apply (inj (cons y)) in Hp|].
  intros a b Ha Hb. apply Hin; by right.
Qed.

End SortBy.

(** [slices.Contains]. *)
Definition contains {A} `{EqDecision A} (l : list A) (x : A) : bool :=
  bool_decide (x ∈ l).

Lemma contains_true {A} `{EqDecision A} (l : list A) x :
  contains l x = true <-> x ∈ l.
Proof. apply bool_decide_eq_true. Qed.

Lemma contains_false {A} `{EqDecision A} (l : list A) x :
  contains l x = false <-> x ∉ l.
Proof. apply bool_decide_eq_false. Qed.

(** The first element a predicate accepts. *)
Fixpoint find_first {A} (p : A -> bool) (l : list A) : option A :=
  match l with
  | [] => None
  | x :: l => if p x then Some x else find_first p l
  end.

Lemma find_first_Some {A} (p : A -> bool) l x :
  find_first p l = Some x -> x ∈ l /\ p x = true.
Proof.
  induction l as [|y l IH]; simpl; [done|].
  destruct (p y) eqn:E.
  - intros [= ->]. split; [left | done].
  - intros H. destruct (IH H). split; [by right | done].
Qed.

Lemma find_first_None {A} (p : A -> bool) l :
  find_first p l = None <-> forall x, x ∈ l -> p x = false.
Proof.
  induction l as [|y l IH]; simpl.
  - split; [intros _ x Hx; by apply not_elem_of_nil in Hx | done].
  - destruct (p y) eqn:E; split; intros H.
    + done.
    + rewrite (H y) in E; [done | left].
    + intros x [->|Hx]%elem_of_cons; [done | by apply IH].
    + apply IH. intros x Hx. apply H. by right.
Qed.

Lemma fmap_rev {A B} (f : A -> B) l : f <$> rev l = rev (f <$> l).
Proof. induction l as [|x l IH]; [done|]. simpl. by rewrite fmap_app, IH. Qed.

(** A loop that stops at the first error and collects what it got before. *)
Definition traverse {E A B} (f : A -> res E B) : list A -> res E (list B) :=
  fix go (l : list A) : res E (list B) :=
    match l with
    | [] => Ok []
    | x :: l => y <-- f x ;; (ys <-- go l ;; Ok (y :: ys))
    end.

Lemma traverse_Ok {E A B} (f : A -> res E B) l ys :
  traverse f l = Ok ys <-> Forall2 (fun x y => f x = Ok y) l ys.
Proof.
  revert ys. induction l as [|x l IH]; intros ys; simpl.
  - split; [by intros [= <-] | by inversion 1].
  - destruct (f x) as [y|] eqn:Ex.
    2: { split; [done|]. inversion 1; congruence. }
    destruct (traverse f l) as [ys'|] eqn:El.
    + split.
      * intros [= <-]. constructor; [done|]. by apply IH.
      * inversion 1 as [|? y' ? ys'' Hy Hl]; simplify_eq. apply IH in Hl. congruence.
    + split; [done|]. inversion 1 as [|? y' ? ys'' Hy Hl]; simplify_eq.
      apply IH in Hl. congruence.
Qed.

(** [List.filter] of the Standard Library, which the models use, is stdpp's. *)
Lemma filter_bool {A} (p : A -> bool) l : List.filter p l = filter (fun x => p x = true) l.
Proof.
  induction l as [|x l IH]; [done|]. rewrite filter_cons. simpl.
  destruct (p x) eqn:E; [rewrite decide_True by done | rewrite decide_False by done];
    by rewrite IH.
Qed.

Lemma filter_ext_in {A} (P Q : A -> Prop) `{!forall x, Decision (P x)} `{!forall x, Decision (Q x)}
    (l : list A) :
  (forall x, x ∈ l -> P x <-> Q x) -> filter P l = filter Q l.
Proof.
  induction l as [|x l IH]; intros HP; [done|]. rewrite !filter_cons.
  rewrite IH by (intros y Hy; apply HP; by right).
  destruct (HP x ltac:(left)). case_decide; case_decide; tauto.
Qed.

Lemma filter_none {A} (P : A -> Prop) `{!forall x, Decision (P x)} (l : list A) :
  (forall x, x ∈ l -> ~ P x) -> filter P l = [].
Proof.
  induction l as [|x l IH]; intros HP; [done|]. rewrite filter_cons_False by (apply HP; left).
  apply IH. intros y Hy. apply HP. by right.
Qed.

Lemma length_filter_insert {A} (P : A -> Prop) `{!forall x, Decision (P x)} (l : list A) i x y :
  l !! i = Some x ->
  length (filter P (<[i := y]> l)) + (if decide (P x) then 1 else 0) =
  length (filter P l) + (if decide (P y) then 1 else 0).
Proof.
  revert i. induction l as [|z l IH]; intros [|i]; [done..| |].
  - intros [= ->]. simpl. rewrite !filter_cons. repeat case_decide; simpl; lia.
  - intros Hi. specialize (IH i Hi). simpl. rewrite !filter_cons.
    repeat case_decide; simpl in *; lia.
Qed.

Lemma bind_cons_one {A B} `{EqDecision B} (g : B -> list A) x k0 keys :
  NoDup keys -> k0 ∈ keys ->
  (keys ≫= fun k => if decide (Some k0 = Some k) then x :: g k else g k) ≡ₚ x :: (keys ≫= g).
Proof.
  induction keys as [|k keys IH]; intros Hnd Hin; [by apply not_elem_of_nil in Hin|].
  apply NoDup_cons in Hnd as [Hk Hnd]. rewrite !bind_cons.
  destruct (decide (Some k0 = Some k)) as [[= ->]|Hne].
  - simpl. constructor. apply Permutation_app; [done|]. apply reflexive_eq.
    apply Forall_bind_ext, Forall_forall. intros k' Hk'.
    rewrite decide_False; [done|]. by intros [= ->].
  - apply elem_of_cons in Hin as [->|Hin]; [done|]. rewrite IH by done.
    by rewrite Permutation_middle.
Qed.

(** Grouping by a key neither loses nor repeats an element that has one. *)
Lemma partition_by {A B} `{EqDecision B} (f : A -> option B) keys l :
  NoDup keys -> (forall x k, x ∈ l -> f x = Some k -> k ∈ keys) ->
  (keys ≫= fun k => filter (fun x => f x = Some k) l) ≡ₚ filter (fun x => f x <> None) l.
Proof.
  intros Hnd. induction l as [|x l IH]; intros Hin.
  - clear. induction keys; [done|]. by rewrite bind_cons.
  - assert (IH' := IH ltac:(intros; eapply Hin; [by right|done])). rewrite filter_cons.
    destruct (f x) as [k0|] eqn:E.
    + rewrite decide_True by done. rewrite <- IH'.
      rewrite <- (bind_cons_one _ x k0) by (done || by eapply Hin; [left|]).
      apply reflexive_eq, Forall_bind_ext, Forall_forall. intros k _.
      rewrite filter_cons, E. by case_decide.
    + rewrite decide_False by naive_solver. rewrite <- IH'.
      apply reflexive_eq, Forall_bind_ext, Forall_forall. intros k _.
      by rewrite filter_cons, E.
Qed.

(** Taking apart what a call returned, knowing its last component. *)
Lemma pair_eq {A B} (p : A * B) b : p.2 = b -> p = (p.1, b).
Proof. intros <-. by destruct p. Qed.

Lemma triple_eq {A B C} (p : A * B * C) c : p.2 = c -> p = (p.1.1, p.1.2, c).
Proof. intros <-. by destruct p as [[??]?]. Qed.

(** *** Grouping by a key

    A map from a key to the elements that have it, filled in a loop, with its keys in the
    order they were first met. *)

Section GroupBy.

Context {A K : Type} `{!EqDecision K} (f : A -> K).

Fixpoint into_group (x : A) (gs : list (K * list A)) : list (K * list A) :=
  match gs with
  | [] => [(f x, [x])]
  | (k, xs) :: gs => if decide (f x = k) then (k, (xs ++ [x])%list) :: gs else (k, xs) :: into_group x gs
  end.

Definition group_by (l : list A) : list (K * list A) := foldl (fun gs x => into_group x gs) [] l.

(** The groups of what was met so far. *)
Definition grouped (gs : list (K * list A)) (l : list A) : Prop :=
  NoDup gs.*1 /\ (forall k xs, (k, xs) ∈ gs -> xs = filter (fun x => f x = k) l /\ xs <> []) /\
  forall x, x ∈ l -> f x ∈ gs.*1.

Lemma into_group_keys x gs k : k ∈ (into_group x gs).*1 <-> k = f x \/ k ∈ gs.*1.
Proof.
  induction gs as [|[k' xs] gs IH]; simpl.
  - rewrite list_elem_of_singleton. set_solver.
  - destruct (decide (f x = k')) as [<-|]; csimpl; rewrite !elem_of_cons; [naive_solver|].
    rewrite IH. naive_solver.
Qed.

Lemma into_group_in x gs k xs : NoDup gs.*1 -> (k, xs) ∈ into_group x gs ->
  (k <> f x /\ (k, xs) ∈ gs) \/
  (k = f x /\ exists ys, xs = (ys ++ [x])%list /\ ((k, ys) ∈ gs \/ (k ∉ gs.*1 /\ ys = []))).
Proof.
  induction gs as [|[k' ys] gs IH]; csimpl; intros Hnd.
  - intros Hin%list_elem_of_singleton. simplify_eq. right. split; [done|]. exists []. split; [done|]. right. split; [|done]. apply not_elem_of_nil.
  - apply NoDup_cons in Hnd as [Hk Hnd]. destruct (decide (f x = k')) as [E|N].
    + rewrite elem_of_cons. intros [Heq|Hin].
      * simplify_eq. right. split; [done|]. exists ys. split; [done|]. left. by left.
      * left. split; [|by right]. intros ->. apply Hk. rewrite <- E. by apply (list_elem_of_fmap_2 fst) in Hin.
    + rewrite elem_of_cons. intros [Heq|Hin].
      * simplify_eq. left. split; [by apply not_eq_sym|by left].
      * destruct (IH Hnd Hin) as [[? ?]|(-> & zs & -> & [?|[? ->]])].
        -- left. split; [done|by right].
        -- right. split; [done|]. exists zs. split; [done|]. left. by right.
        -- right. split; [done|]. exists []. split; [done|]. right. split; [|done].
           rewrite not_elem_of_cons. by split.
Qed.

Lemma into_group_NoDup x gs : NoDup gs.*1 -> NoDup (into_group x gs).*1.
Proof.
  induction gs as [|[k ys] gs IH]; csimpl; intros Hnd; [apply NoDup_singleton|].
  apply NoDup_cons in Hnd as [Hk Hnd]. destruct (decide (f x = k)) as [E|N]; csimpl; apply NoDup_cons.
  - by split.
  - split; [|by apply IH]. rewrite into_group_keys. intros [->|]; done.
Qed.

Lemma into_group_grouped x gs l : grouped gs l -> grouped (into_group x gs) (l ++ [x]).
Proof.
  intros (Hnd & Hin & Hcov). split; [by apply into_group_NoDup|]. split.
  - intros k xs Hk. rewrite filter_app.
    apply (into_group_in _ _ _ _ Hnd) in Hk as [[N Hk]|(-> & ys & -> & Hk)].
    + destruct (Hin _ _ Hk) as [-> Hne]. split; [|done]. rewrite (filter_cons_False _ x) by congruence.
      by rewrite filter_nil, app_nil_r.
    + split; [|by destruct ys]. rewrite filter_cons_True, filter_nil by done. f_equal.
      destruct Hk as [Hk|[Hk ->]]; [by apply Hin|]. symmetry. apply filter_none.
      intros y Hy E. apply Hk. rewrite <- E. by apply Hcov.
  - intros y. rewrite elem_of_app, list_elem_of_singleton, into_group_keys.
    intros [Hy| ->]; [right; by apply Hcov|by left].
Qed.

Lemma group_by_grouped l : grouped (group_by l) l.
Proof.
  unfold group_by. induction l as [|x l IH] using rev_ind.
  - split; [apply NoDup_nil_2|]. split.
    + by intros k xs Hin%not_elem_of_nil.
    + by intros x Hin%not_elem_of_nil.
  - rewrite foldl_app. by apply into_group_grouped.
Qed.

Lemma group_by_keys l : NoDup (group_by l).*1.
Proof. apply group_by_grouped. Qed.

Lemma group_by_elem l k xs : (k, xs) ∈ group_by l -> xs = filter (fun x => f x = k) l /\ xs <> [].
Proof. apply group_by_grouped. Qed.

Lemma group_by_key x l : x ∈ l -> f x ∈ (group_by l).*1.
Proof. apply group_by_grouped. Qed.

(** Every element is in one group. *)
Lemma group_by_perm l : concat (group_by l).*2 ≡ₚ l.
Proof.
  unfold group_by. induction l as [|x l IH] using rev_ind; [done|]. rewrite foldl_app. simpl.
  rewrite <- IH at 2. generalize (foldl (fun gs x => into_group x gs) [] l) as gs. clear.
  intros gs. induction gs as [|[k xs] gs IH]; simpl; [done|].
  destruct (decide (f x = k)); simpl; [|by rewrite IH, app_assoc].
  rewrite <- !app_assoc. f_equiv. apply Permutation_app_comm.
Qed.

End GroupBy.

(** A loop whose turns commute gives the same in any order. *)
Lemma foldl_perm {A B} (f : B -> A -> B) l k acc :
  (forall a b acc, a ∈ l -> b ∈ l -> f (f acc a) b = f (f acc b) a) -> l ≡ₚ k ->
  foldl f acc l = foldl f acc k.
Proof.
  intros Hf Hp. revert acc Hf.
  induction Hp as [|x l k Hp IH|x y l|l k m Hlk IH1 Hkm IH2]; intros acc Hf; simpl.
  - done.
  - apply IH. intros a b c Ha Hb. apply Hf; by right.
  - rewrite (Hf y x); [done|by left|right; by left].
  - rewrite IH1 by done. apply IH2. intros a b c. rewrite <- Hlk. apply Hf.
Qed.

(** What a predicate takes and what it leaves. *)
Lemma filter_split {A} (p : A -> bool) l :
  List.filter p l ++ List.filter (fun x => negb (p x)) l ≡ₚ l.
Proof.
  induction l as [|x l IH]; simpl; [done|].
  destruct (p x); simpl; [by rewrite IH|]. by rewrite <- Permutation_middle, IH.
Qed.

Lemma filter_elem {A} (p : A -> bool) x l : x ∈ List.filter p l <-> x ∈ l /\ p x = true.
Proof. rewrite filter_bool, list_elem_of_filter. tauto. Qed.

Lemma concat_map_perm {A B} (f : A -> list B) l k : l ≡ₚ k -> concat (map f l) ≡ₚ concat (map f k).
Proof. rewrite <- !flat_map_concat_map. apply Permutation_flat_map. Qed.

Lemma filter_all {A} (P : A -> Prop) `{!forall x, Decision (P x)} (l : list A) :
  (forall x, x ∈ l -> P x) -> filter P l = l.
Proof.
  induction l as [|x l IH]; intros HP; [done|]. rewrite filter_cons_True by (apply HP; left).
  f_equal. apply IH. intros y Hy. apply HP. by right.
Qed.

Lemma concat_elem {A} (x : A) ls : x ∈ concat ls <-> exists l, x ∈ l /\ l ∈ ls.
Proof.
  induction ls as [|l ls IH]; simpl.
  - split; [by intros ?%not_elem_of_nil|]. by intros (? & _ & ?%not_elem_of_nil).
  - rewrite elem_of_app, IH. setoid_rewrite elem_of_cons. naive_solver.
Qed.

Lemma map_elem {A B} (f : A -> B) y l : y ∈ map f l <-> exists x, y = f x /\ x ∈ l.
Proof. apply (list_elem_of_fmap f). Qed.

Lemma map_elem_1 {A B} (f : A -> B) x l : x ∈ l -> f x ∈ map f l.
Proof. intros Hx. apply map_elem. by exists x. Qed.

Lemma map_NoDup_inj {A B} (f : A -> B) l x y :
  NoDup (map f l) -> x ∈ l -> y ∈ l -> f x = f y -> x = y.
Proof.
  induction l as [|z l IH]; simpl; [by intros _ ?%not_elem_of_nil|].
  intros [Hz Hl]%NoDup_cons [->|Hx]%elem_of_cons [->|Hy]%elem_of_cons Hf; auto;
    destruct Hz; [rewrite Hf|rewrite <- Hf]; by apply map_elem_1.
Qed.

Lemma omap_nil {A B} (f : A -> option B) l : omap f l = [] <-> forall x, x ∈ l -> f x = None.
Proof.
  induction l as [|x l IH]; [split; [intros _ x Hx; by apply not_elem_of_nil in Hx|done]|].
  simpl. destruct (f x) eqn:E; simpl.
  - split; [done|]. intros Hn. rewrite (Hn x) in E; [done|by left].
  - rewrite IH. split; intros Hn y; [intros [->|Hy]%elem_of_cons; auto|intros Hy; apply Hn; by right].
Qed.

Lemma filter_bool_nil {A} (p : A -> bool) l : List.filter p l = [] <-> forall x, x ∈ l -> p x = false.
Proof.
  induction l as [|x l IH]; simpl; [split; [by intros _ ? ?%not_elem_of_nil|done]|].
  destruct (p x) eqn:E.
  - split; [done|]. intros Hn. rewrite (Hn x) in E; [done|by left].
  - rewrite IH. split; intros Hn y; [intros [->|Hy]%elem_of_cons; auto|intros Hy; apply Hn; by right].
Qed.

Lemma flat_map_elem {A B} (f : A -> list B) y l : y ∈ flat_map f l <-> exists x, y ∈ f x /\ x ∈ l.
Proof.
  rewrite flat_map_concat_map, concat_elem. setoid_rewrite map_elem. naive_solver.
Qed.

Lemma sorted_weaken {A} (R S : relation A) l :
  (forall a b, R a b -> S a b) -> StronglySorted R l -> StronglySorted S l.
Proof.
  intros HRS. induction 1 as [|x l _ IH Hx]; constructor; [done|]. eapply Forall_impl; [exact Hx|]. apply HRS.
Qed.

(** A list sorted by a key falls into what is below a key, what has it and what is above. *)
Lemma sorted_block {A K} (le : K -> K -> Prop) `{!AntiSymm (=) le} `{!EqDecision K} (f : A -> K) k l :
  StronglySorted (fun a b => le (f a) (f b)) l ->
  exists below above, l = (below ++ filter (fun x => f x = k) l ++ above)%list /\
    (forall x, x ∈ below -> f x <> k) /\ (forall x, x ∈ above -> f x <> k).
Proof.
  induction l as [|x l IH]; intros Hs.
  { exists [], []. split; [done|]. split; by intros ? ?%not_elem_of_nil. }
  apply StronglySorted_inv in Hs as [Hs Hx]. rewrite Forall_forall in Hx.
  destruct (IH Hs) as (below & above & Hl & Hb & Ha). rewrite filter_cons.
  destruct (decide (f x = k)) as [E|N].
  - destruct below as [|y below].
    + exists [], above. split; [by rewrite Hl at 1|]. split; [by intros ? ?%not_elem_of_nil|done].
    + destruct (filter (fun x => f x = k) l) as [|z zs] eqn:Ef.
      * exists [], l. split; [done|]. split; [by intros ? ?%not_elem_of_nil|].
        intros z Hz Ez. assert (z ∈ filter (fun x => f x = k) l) as Hin by (by apply list_elem_of_filter).
        rewrite Ef in Hin. by apply not_elem_of_nil in Hin.
      * exfalso. apply (Hb y); [by left|]. assert (Ez : f z = k).
        { assert (z ∈ filter (fun x => f x = k) l) as Hin by (rewrite Ef; by left).
          by apply list_elem_of_filter in Hin as [? _]. }
        apply (anti_symm le).
        -- rewrite <- Ez. rewrite Hl in Hs.
           apply (StronglySorted_app_1_elem_of (fun a b => le (f a) (f b)) (y :: below) ((z :: zs) ++ above)%list y z); [done|by left|].
           apply elem_of_app. left. by left.
        -- rewrite <- E. apply Hx. rewrite Hl. by left.
  - exists (x :: below), above. split; [by rewrite Hl at 1|]. split; [|done].
    intros y [->|Hy]%elem_of_cons; [done|by apply Hb].
Qed.

(** ** Strings and sets *)

Lemma string_length_app a b :
  String.length (String.append a b) = (String.length a + String.length b)%nat.
Proof. induction a as [|c a IH]; [done|]. simpl. by rewrite IH. Qed.

Lemma string_append_assoc a b c :
  String.append (String.append a b) c = String.append a (String.append b c).
Proof. induction a as [|x a IH]; [done|]. exact (f_equal (String.String x) IH). Qed.

Lemma size_map_inj `{Countable A} `{Countable B} (f : A -> B) (X : gset A) :
  Inj (=) (=) f -> size (set_map f X : gset B) = size X.
Proof.
  intros Hf. unfold set_map. rewrite size_list_to_set.
  - by rewrite length_fmap.
  - apply NoDup_fmap; [done|]. apply NoDup_elements.
Qed.

Lemma size_cprod `{Countable A} `{Countable B} (X : gset A) (Y : gset B) :
  size (cprod X Y : gset (A * B)) = (size X * size Y)%nat.
Proof.
  induction X as [|x X Hx IH] using set_ind_L.
  - rewrite size_empty. assert ((cprod (∅ : gset A) Y : gset (A * B)) = ∅) as ->.
    + apply set_eq. intros [a b]. rewrite elem_of_gset_cprod. set_solver.
    + by rewrite size_empty.
  - assert ((cprod ({[x]} ∪ X) Y : gset (A * B)) = set_map (pair x) Y ∪ cprod X Y) as ->.
    { apply set_eq. intros [a b].
      rewrite elem_of_union, !elem_of_gset_cprod, elem_of_map. simpl. set_solver. }
    rewrite size_union; [rewrite IH, size_map_inj|].
    + rewrite size_union, size_singleton by set_solver. lia.
    + by intros ? ? [= ->].
    + intros [a b]. rewrite elem_of_map, elem_of_gset_cprod. simpl. set_solver.
Qed.

(** ** Automation *)

Create HintDb sb.
Create Rewrite HintDb sb.
#[export] Hint Resolve sort_strings_sorted wrap64_range : sb.
#[export] Hint Rewrite @contains_true @contains_false sort_strings_elem
  omin_None_l omin_None_r : sb.

(** Split every [match] and [if] of the goal, discharging impossible cases. *)
Ltac cases_goal :=
  repeat (case_match; simplify_eq/=; try done).

(** The same over the hypotheses and the goal. *)
Ltac break :=
  repeat match goal with
  | H : context [match ?x with _ => _ end] |- _ =>
      let E := fresh "E" in destruct x eqn:E; simplify_eq/=
  end.

(** Evaluate a closed equation. *)
Ltac eval_eq := repeat split; vm_compute; reflexivity.
