(* ===== verification/Programs.v ===== *)
(** Programs over calls.

    A handler that talks to the API server and to the control plane is a program:
    a tree of calls and of what is done with each answer.  How a call is answered
    is not part of it, so the same program can be run against one server, run
    interleaved with others, or judged for every answer it may get.  [act] are the
    parts of a handler, which may fail and work on an object; [does] are a
    program's runs, [run] its run against a server that answers by a function, and
    [wp] its judgement by a rule for each call. *)

From S2P Require Import Prelude.

(** ** Programs *)

Section Programs.

(** The calls, by the type of their answer. *)
Context {C : Type -> Type}.

Inductive prog (R : Type) : Type :=
| Ret (r : R)
| Vis {X : Type} (c : C X) (k : X -> prog R).

Arguments Ret {R} r.
Arguments Vis {R X} c k.

Fixpoint bind {A B} (p : prog A) (k : A -> prog B) : prog B :=
  match p with
  | Ret r => k r
  | Vis c k' => Vis c (fun x => bind (k' x) k)
  end.

Definition perform {X} (c : C X) : prog X := Vis c Ret.

(** *** Runs *)

(** A call and its answer. *)
Inductive event : Type :=
| Ev {X : Type} (c : C X) (x : X).

(** The runs of a program: what it called, what it was answered, what it returned. *)
Fixpoint does {R} (p : prog R) (tr : list event) (r : R) : Prop :=
  match p with
  | Ret r' => tr = [] /\ r = r'
  | Vis c k =>
      match tr with
      | [] => False
      | e :: tr => exists x, e = Ev c x /\ does (k x) tr r
      end
  end.

(** A program against a server. *)
Fixpoint run {S R} (serve : forall X, C X -> S -> S * X) (p : prog R) (s : S) : S * R :=
  match p with
  | Ret r => (s, r)
  | Vis c k => let '(s, x) := serve _ c s in run serve (k x) s
  end.

Lemma does_bind {A B} (p : prog A) (k : A -> prog B) tr r :
  does (bind p k) tr r ->
  exists tr1 tr2 a, tr = (tr1 ++ tr2)%list /\ does p tr1 a /\ does (k a) tr2 r.
Proof.
  revert tr. induction p as [a|X c k' IH]; intros tr; simpl; [by exists [], tr, a|].
  destruct tr as [|e tr]; [done|]. intros (x & -> & Hd).
  destruct (IH x tr Hd) as (tr1 & tr2 & a & -> & H1 & H2).
  exists (Ev c x :: tr1), tr2, a. split; [done|]. split; [by exists x|done].
Qed.

Lemma run_bind {S A B} serve (p : prog A) (k : A -> prog B) (s : S) :
  run serve (bind p k) s = let '(s, a) := run serve p s in run serve (k a) s.
Proof.
  revert s. induction p as [a|X c k' IH]; intros s; simpl; [done|].
  destruct (serve X c s) as [s' x]. apply IH.
Qed.

(** The same, with what was called and answered. *)
Fixpoint traced {S R} (serve : forall X, C X -> S -> S * X) (p : prog R) (s : S) : S * (list event * R) :=
  match p with
  | Ret r => (s, ([], r))
  | Vis c k =>
      let '(s, x) := serve _ c s in
      let '(s, (tr, r)) := traced serve (k x) s in
      (s, (Ev c x :: tr, r))
  end.

Lemma traced_does {S R} serve (p : prog R) (s : S) :
  does p (traced serve p s).2.1 (traced serve p s).2.2.
Proof.
  revert s. induction p as [r|X c k IH]; intros s; simpl; [done|].
  destruct (serve X c s) as [s' x]. specialize (IH x s').
  destruct (traced serve (k x) s') as [s'' [tr r]]. by exists x.
Qed.

(** *** Judgements *)

(** A rule for the calls: what has to hold before a call for [Q] to hold of its
    answer, over what the caller knows. *)
Class Rule (K : Type) := {
  rule : forall X, C X -> (X -> K -> Prop) -> K -> Prop;
  rule_mono X (c : C X) (P Q : X -> K -> Prop) s :
    (forall x s, P x s -> Q x s) -> rule X c P s -> rule X c Q s;
}.

Context `{Rule K}.

Fixpoint wp {R} (p : prog R) (Q : R -> K -> Prop) (s : K) : Prop :=
  match p with
  | Ret r => Q r s
  | Vis c k => rule _ c (fun x => wp (k x) Q) s
  end.

Lemma wp_mono {R} (p : prog R) (P Q : R -> K -> Prop) s :
  (forall r s, P r s -> Q r s) -> wp p P s -> wp p Q s.
Proof.
  intros HPQ. revert s. induction p as [r|X c k IH]; intros s; simpl; [apply HPQ|].
  apply rule_mono. intros x s'. apply IH.
Qed.

Lemma wp_bind {A B} (p : prog A) (k : A -> prog B) (Q : B -> K -> Prop) s :
  wp p (fun a => wp (k a) Q) s -> wp (bind p k) Q s.
Proof.
  revert s. induction p as [r|X c k' IH]; intros s; simpl; [done|].
  apply rule_mono. intros x s'. apply IH.
Qed.

End Programs.

Arguments prog C R : clear implicits.
Arguments event C : clear implicits.
Arguments Rule C K : clear implicits.
Arguments Ret {C R} r.
Arguments Vis {C R X} c k.
Arguments Ev {C X} c x.

Notation "'do' x <- c ; k" := (Vis c (fun x => k))
  (at level 60, x name, c at next level, right associativity).

(** ** Handlers *)

(** A part of a handler: it may fail, and it works on an object of its own, which
    Go passes by pointer, in whatever state the error left it. *)
Definition act (C : Type -> Type) (S E A : Type) : Type := S -> prog C (S * res E A).

#[global] Instance act_ret {C S E} : MRet (act C S E) := fun A x s => Ret (s, Ok x).
#[global] Instance act_bind {C S E} : MBind (act C S E) := fun A B k m s =>
  bind (m s) (fun '(s, r) => match r with Ok x => k x s | Err e => Ret (s, Err e) end).

Abbreviation ret := mret.

Definition raise {C S E A} (e : E) : act C S E A := fun s => Ret (s, Err e).

(** A call, whose answer is looked at where it is made. *)
Definition tell {C S E A} (c : C A) : act C S E A := fun s => Vis c (fun x => Ret (s, Ok x)).

(** An error that is handled where it happens. *)
Definition attempt {C S E E' A} (m : act C S E A) : act C S E' (res E A) := fun s =>
  bind (m s) (fun '(s, r) => Ret (s, Ok r)).

(** The object the handler works on. *)
Definition held {C S E} : act C S E S := fun s => Ret (s, Ok s).
Definition hold {C S E} (s : S) : act C S E unit := fun _ => Ret (s, Ok ()).

Section Handlers.

Context {C : Type -> Type} {S E K : Type} `{!Rule C K}.

Lemma wp_act {A B} (m : act C S E A) (k : A -> act C S E B) s Q x :
  wp (m s) (fun '(s, r) x => match r with Ok a => wp (k a s) Q x | Err e => Q (s, Err e) x end) x ->
  wp ((m ≫= k) s) Q x.
Proof.
  intros H. apply wp_bind. revert H. apply wp_mono. by intros [s' [a|e]].
Qed.

Lemma wp_attempt {E' A} (m : act C S E A) s (Q : S * res E' (res E A) -> K -> Prop) x :
  wp (m s) (fun '(s, r) => Q (s, Ok r)) x -> wp (attempt m s) Q x.
Proof.
  intros H. apply wp_bind. revert H. apply wp_mono. by intros [s' r].
Qed.

Lemma wp_held {A} (f : S -> act C S E A) s Q x :
  wp (f s s) Q x -> wp ((held ≫= f) s) Q x.
Proof. done. Qed.

Lemma run_act {St A B} serve (m : act C S E A) (k : A -> act C S E B) s (st : St) :
  run serve ((m ≫= k) s) st =
  match run serve (m s) st with
  | (st, (s, Ok a)) => run serve (k a s) st
  | (st, (s, Err e)) => (st, (s, Err e))
  end.
Proof.
  unfold mbind, act_bind. rewrite run_bind. by destruct (run serve (m s) st) as [st' [s' [a|e]]].
Qed.

End Handlers.

(** ** Watching a run *)

Section Watched.

(** Which calls are allowed for what is known, what an answer teaches, and which answers
    are possible at all. *)
Context {C : Type -> Type} {K : Type}.
Context (allow : forall X, C X -> K -> Prop) (learn : forall X, C X -> X -> K -> K)
  (possible : forall X, C X -> X -> Prop).

Definition watched_rule X (c : C X) (Q : X -> K -> Prop) (s : K) : Prop :=
  allow X c s /\ forall x, possible X c x -> Q x (learn X c x s).

Program Definition watched : Rule C K := {| rule := watched_rule |}.
Next Obligation. intros X c P Q s HPQ [Ha Hp]. split; [done|]. intros x Hx. by apply HPQ, Hp. Qed.

Definition possibly (e : event C) : Prop := let 'Ev c x := e in possible _ c x.

(** Every call of a run was allowed when it was made, and what is known after it. *)
Fixpoint heeded (tr : list (event C)) (s : K) : Prop :=
  match tr with
  | [] => True
  | Ev c x :: tr => allow _ c s /\ heeded tr (learn _ c x s)
  end.
Fixpoint learned (tr : list (event C)) (s : K) : K :=
  match tr with
  | [] => s
  | Ev c x :: tr => learned tr (learn _ c x s)
  end.

Lemma watched_sound {R} (p : prog C R) (Q : R -> K -> Prop) s tr r :
  @wp C K watched R p Q s -> does p tr r -> Forall possibly tr -> heeded tr s /\ Q r (learned tr s).
Proof.
  revert s tr. induction p as [r'|X c k IH]; intros s tr Hw Hd Hp.
  - destruct Hd as [-> ->]. done.
  - destruct tr as [|e tr]; [done|]. destruct Hd as (x & -> & Hd). destruct Hw as [Ha Hw].
    apply Forall_cons in Hp as [Hx Hp]. destruct (IH x _ tr (Hw x Hx) Hd Hp) as [H1 H2]. by split.
Qed.

Lemma heeded_app tr1 tr2 s : heeded (tr1 ++ tr2) s <-> heeded tr1 s /\ heeded tr2 (learned tr1 s).
Proof. revert s. induction tr1 as [|[X c x] tr1 IH]; intros s; simpl; [tauto|]. rewrite IH. tauto. Qed.

(** Where nothing is forbidden any more, every program is judged fine. *)
Lemma watched_free {R} (p : prog C R) (P : K -> Prop) s :
  (forall X (c : C X) s, P s -> allow X c s) ->
  (forall X (c : C X) x s, P s -> P (learn X c x s)) ->
  P s -> @wp C K watched R p (fun _ s => P s) s.
Proof.
  intros Ha Hl. revert s. induction p as [r|X c k IH]; intros s Hs; simpl; [done|].
  split; [by apply Ha|]. intros x _. apply IH. by apply Hl.
Qed.

End Watched.

(** Runs of a handler's parts in order. *)
Lemma does_act {C S E A B} (m : act C S E A) (k : A -> act C S E B) s tr s' r :
  does ((m ≫= k) s) tr (s', r) ->
  (exists e, r = Err e /\ does (m s) tr (s', Err e)) \/
  exists tr1 tr2 s1 a, tr = (tr1 ++ tr2)%list /\ does (m s) tr1 (s1, Ok a) /\ does (k a s1) tr2 (s', r).
Proof.
  intros Hd. apply does_bind in Hd as (tr1 & tr2 & [s1 [a|e]] & -> & H1 & H2).
  - right. by exists tr1, tr2, s1, a.
  - destruct H2 as [-> E']. simplify_eq. left. exists e. by rewrite app_nil_r.
Qed.

Lemma does_held {C S E A} (k : S -> act C S E A) s tr r :
  does ((held ≫= k) s) tr r -> does (k s s) tr r.
Proof. done. Qed.

Lemma does_tell {C S E X A} (c : C X) (k : X -> act C S E A) s tr r :
  does ((tell c ≫= k) s) tr r -> exists x tr', tr = Ev c x :: tr' /\ does (k x s) tr' r.
Proof. destruct tr as [|e tr]; [done|]. intros (x & -> & Hd). by exists x, tr. Qed.

Lemma does_ret {C S E A} (a : A) (s : S) tr s' (r : res E A) :
  does ((mret a : act C S E A) s) tr (s', r) -> tr = [] /\ s' = s /\ r = Ok a.
Proof. by intros [-> [= -> ->]]. Qed.

Lemma does_raise {C S E A} (e : E) (s : S) tr s' (r : res E A) :
  does ((raise e : act C S E A) s) tr (s', r) -> tr = [] /\ s' = s /\ r = Err e.
Proof. by intros [-> [= -> ->]]. Qed.

(** *** Parts that leave the handler's object alone *)

Definition keeps {C S E A} (m : act C S E A) : Prop := forall s tr s' r, does (m s) tr (s', r) -> s' = s.

Section Keeps.

Context {C : Type -> Type} {S E : Type}.

Lemma same_ret {A} (a : A) : keeps (mret a : act C S E A).
Proof. by intros s tr s' r (_ & -> & _)%does_ret. Qed.

Lemma same_raise {A} (e : E) : keeps (raise e : act C S E A).
Proof. by intros s tr s' r (_ & -> & _)%does_raise. Qed.

Lemma same_bind {A B} (m : act C S E A) (k : A -> act C S E B) :
  keeps m -> (forall a, keeps (k a)) -> keeps (m ≫= k).
Proof.
  intros Hm Hk s tr s' r [(e & -> & Hd)|(tr1 & tr2 & s1 & a & -> & H1 & H2)]%does_act; [by eapply Hm|].
  apply Hm in H1 as ->. by eapply Hk.
Qed.

Lemma same_held {A} (k : S -> act C S E A) : (forall s, keeps (k s)) -> keeps (held ≫= k).
Proof. intros Hk s tr s' r Hd%does_held. by eapply Hk. Qed.

Lemma same_tell {A} (c : C A) : keeps (tell c : act C S E A).
Proof.
  intros s [|e tr] s' r; [done|]. intros (x & -> & Hd). destruct Hd as [_ Hr]. by injection Hr as -> ->.
Qed.

End Keeps.

(** Runs through one part after another. *)
Ltac keeps :=
  repeat lazymatch goal with
  | |- keeps (held ≫= _) => apply same_held; intros ?
  | |- keeps (_ ≫= _) => apply same_bind; [|intros ?]
  | |- keeps (match ?x with _ => _ end) => destruct x
  | |- keeps (raise _) => apply same_raise
  | |- keeps (tell _) => apply same_tell
  | |- keeps _ => first [assumption | apply same_ret]
  end.
