(* ===== verification/StateMachine.v ===== *)
(** The state machine library of atlas-lib/statemachine.

    [Context] is the part of Go's [context] package the machine uses: a
    deadline, a cancellation, and the error a context reports at an instant.
    [Machine] is the running machine with the graph it was built from; the
    entry hooks are programs over the machine's own public operations and an
    outside world, so re-entrancy is part of the model rather than assumed
    away.  [reachable] is the step relation of a machine being driven by its
    owner.  [MultiConfig], the abort queries, the Kubernetes snapshot and the
    claim protocol follow the files of the same names. *)

From S2P Require Import Prelude.

(** ** Go's contexts *)

Inductive ctx_err := Canceled | DeadlineExceeded.

#[export] Instance ctx_err_eq_dec : EqDecision ctx_err.
Proof. solve_decision. Defined.

(** A context as its reader sees it: the earliest deadline on its chain and the
    earliest instant one of its cancel functions was called. *)
Record Context := mkContext {
  ctx_deadline : option Time;
  ctx_canceled : option Time;
}.

(** [ctx.Err()] at an instant.  Whichever of the two came first decides, and a
    deadline is never cancelled by a later call. *)
Definition ctx_Err (c : Context) (now : Time) : option ctx_err :=
  match ctx_deadline c, ctx_canceled c with
  | Some d, Some k =>
      if Z.leb d now && Z.leb d k then Some DeadlineExceeded
      else if Z.leb k now then Some Canceled else None
  | Some d, None => if Z.leb d now then Some DeadlineExceeded else None
  | None, Some k => if Z.leb k now then Some Canceled else None
  | None, None => None
  end.

(** [context.WithCancel] and [context.WithDeadline]: a child has the earlier of
    its own and its parent's deadline, and ends with its parent. *)
Definition ctx_derive (parent : Context) (deadline canceled : option Time) : Context :=
  mkContext (omin (ctx_deadline parent) deadline)
            (omin (ctx_canceled parent) canceled).

Definition Background : Context := mkContext None None.

(** Calling a context's cancel function at [now]. *)
Definition cancel_at (canceled : option Time) (now : Time) : option Time :=
  omin canceled (Some now).

(** ** Graphs *)

Section Machine.

(** The state type, Go's [S comparable]; the outside world a hook acts on, with
    the wall clock in it. *)
Context {S : Type} `{Countable S} {W : Type} (clock : W -> Time).

(** A persisted position, whose zero deadline means the state has none. *)
Record Snapshot := mkSnapshot {
  snap_State : S;
  snap_Deadline : Time;
}.

(** The machine's public operations, as a hook may call them on the machine
    that is entering it. *)
Inductive mop :=
| OpTransitionTo (to : S)
| OpExtend (by_ : Duration)
| OpClearTimeout
| OpReset
| OpRestore (snap : Snapshot)
| OpClose
| OpCurrentState.

(** The errors of the package, with the data their messages carry. *)
Inductive merr :=
| ErrClosed (cause : ctx_err)
| ErrReentrantTransition (entering refused : S)
| ErrUnknownInitial (initial : S)
| ErrUnknownEdge (from to : S)
| ErrUnknownCurrent (current : S)
| ErrUnknownRestored (state : S)
| IllegalTransitionError (from to : S)
| ErrEntering (to from : S) (cause : string)
| ErrUnknownAction (action : string)
| ErrInAction (action : string) (cause : merr).

(** What an operation called from a hook hands back to it. *)
Inductive mret :=
| RetUnit
| RetBool (b : bool)
| RetErr (e : option merr)
| RetState (s : S).

(** A [TransitionFunc] in the middle of running: it returns a duration or an
    error, panics, changes the outside world, or calls the machine. *)
Inductive hook : Type :=
| HookReturn (timeout : Duration)
| HookFail (cause : string)
| HookPanic
| HookEffect (f : W -> W) (k : W -> hook)
| HookCall (op : mop) (k : mret -> hook).

(** [TransitionFunc]: the caller's context and both ends of the edge. *)
Definition TransitionFunc : Type := Context -> S -> S -> hook.

Record StateDef := mkStateDef {
  To : list S;
  Abortable : bool;
  OnEnter : option TransitionFunc;
}.

Record Config := mkConfig {
  Initial : S;
  States : gmap S StateDef;
}.

(** The edges [validate] rejects, in map order, which Go leaves unspecified. *)
Definition dangling_edges (config : Config) : list (S * S) :=
  '(state, def) ← map_to_list (States config);
  to ← filter (fun to => States config !! to = None) (To def);
  [(state, to)].

(** [Config.validate]. *)
Definition validate (config : Config) : error_of merr :=
  match States config !! Initial config with
  | None => Some (ErrUnknownInitial (Initial config))
  | Some _ =>
      match dangling_edges config with
      | [] => None
      | (state, to) :: _ => Some (ErrUnknownEdge state to)
      end
  end.

(** ** The machine *)

(** [Machine].  The two contexts Go keeps are their own parts of a chain: the
    base is derived from the context given to [New], the state's from the base.
    [m_retired] are the state contexts already handed out and replaced, which Go
    leaves to whoever still holds them. *)
Record Machine := mkMachine {
  m_parent : Context;
  m_base_canceled : option Time;
  m_states : gmap S StateDef;
  m_initial : S;
  m_current : S;
  m_entering : option S;
  m_state_deadline : option Time;
  m_state_canceled : option Time;
  m_retired : list Context;
}.

Definition base (m : Machine) : Context :=
  ctx_derive (m_parent m) None (m_base_canceled m).

Definition stateCtx (m : Machine) : Context :=
  ctx_derive (base m) (m_state_deadline m) (m_state_canceled m).

(** Replacing the state's context: the old one is cancelled first. *)
Definition rearm (m : Machine) (deadline : option Time) (now : Time) : Machine :=
  mkMachine (m_parent m) (m_base_canceled m) (m_states m) (m_initial m)
    (m_current m) (m_entering m) deadline None
    (ctx_derive (base m) (m_state_deadline m) (cancel_at (m_state_canceled m) now)
       :: m_retired m).

(** [arm]: a positive timeout bounds the state, any other one does not. *)
Definition arm (m : Machine) (timeout : Duration) (now : Time) : Machine :=
  rearm m (if Z.ltb 0 timeout then Some (now + timeout)%Z else None) now.

(** [armAt]: an absolute deadline, the zero time meaning none. *)
Definition armAt (m : Machine) (deadline : Time) (now : Time) : Machine :=
  rearm m (if IsZero deadline then None else Some deadline) now.

Definition set_current (m : Machine) (s : S) : Machine :=
  mkMachine (m_parent m) (m_base_canceled m) (m_states m) (m_initial m)
    s (m_entering m) (m_state_deadline m) (m_state_canceled m) (m_retired m).

Definition set_entering (m : Machine) (e : option S) : Machine :=
  mkMachine (m_parent m) (m_base_canceled m) (m_states m) (m_initial m)
    (m_current m) e (m_state_deadline m) (m_state_canceled m) (m_retired m).

(** [New]: a validated graph, in its initial state, with no deadline. *)
Definition New (ctx : Context) (config : Config) : res merr Machine :=
  match validate config with
  | Some err => Err err
  | None =>
      Ok (mkMachine ctx None (States config) (Initial config) (Initial config)
            None None None [])
  end.

Definition CurrentState (m : Machine) : S := m_current m.

(** [Deadline], mirroring [context.Context.Deadline]. *)
Definition Deadline (m : Machine) : option Time := ctx_deadline (stateCtx m).

Definition TimeoutReached (m : Machine) (now : Time) : bool :=
  bool_decide (ctx_Err (base m) now = None) &&
  bool_decide (ctx_Err (stateCtx m) now = Some DeadlineExceeded).

Definition ClearTimeout (m : Machine) (now : Time) : Machine := arm m 0 now.

(** [Extend]: only ever outward, and only for a state that has a deadline. *)
Definition Extend (m : Machine) (by_ : Duration) (now : Time) : Machine * bool :=
  match m_entering m, ctx_Err (base m) now with
  | None, None =>
      match Deadline m with
      | None => (m, false)
      | Some current =>
          if Z.ltb current (now + by_) then (arm m by_ now, true) else (m, false)
      end
  | _, _ => (m, false)
  end.

Definition Reset (m : Machine) (now : Time) : Machine :=
  arm (set_current m (m_initial m)) 0 now.

Definition Close (m : Machine) (now : Time) : Machine :=
  mkMachine (m_parent m) (cancel_at (m_base_canceled m) now) (m_states m)
    (m_initial m) (m_current m) (m_entering m) (m_state_deadline m)
    (cancel_at (m_state_canceled m) now) (m_retired m).

(** The machine's durable state. *)
Definition TakeSnapshot (m : Machine) : Snapshot :=
  mkSnapshot (m_current m)
    (match Deadline m with Some d => d | None => zero_time end).

Definition Restore (m : Machine) (snap : Snapshot) (now : Time)
    : Machine * error_of merr :=
  match m_entering m with
  | Some e => (m, Some (ErrReentrantTransition e (snap_State snap)))
  | None =>
      match m_states m !! snap_State snap with
      | None => (m, Some (ErrUnknownRestored (snap_State snap)))
      | Some _ =>
          (armAt (set_current m (snap_State snap)) (snap_Deadline snap) now, None)
      end
  end.

(** The two guards [TransitionTo] evaluates before it looks at the graph. *)
Definition transition_guard (m : Machine) (to : S) (now : Time) : error_of merr :=
  match ctx_Err (base m) now with
  | Some cause => Some (ErrClosed cause)
  | None =>
      match m_entering m with
      | Some e => Some (ErrReentrantTransition e to)
      | None => None
      end
  end.

(** An operation called by the hook of the very transition in flight.  The
    transition itself can only be refused there ([hook_call_refused]), so what
    it returns when no guard fires is never observed. *)
Definition call (m : Machine) (op : mop) (now : Time) : Machine * mret :=
  match op with
  | OpTransitionTo to => (m, RetErr (transition_guard m to now))
  | OpExtend d => let '(m', moved) := Extend m d now in (m', RetBool moved)
  | OpClearTimeout => (ClearTimeout m now, RetUnit)
  | OpReset => (Reset m now, RetUnit)
  | OpRestore snap => let '(m', err) := Restore m snap now in (m', RetErr err)
  | OpClose => (Close m now, RetUnit)
  | OpCurrentState => (m, RetState (m_current m))
  end.

Inductive hook_result :=
| HookOk (timeout : Duration)
| HookErr (cause : string)
| HookPanicked.

Fixpoint run_hook (m : Machine) (w : W) (h : hook) : Machine * W * hook_result :=
  match h with
  | HookReturn timeout => (m, w, HookOk timeout)
  | HookFail cause => (m, w, HookErr cause)
  | HookPanic => (m, w, HookPanicked)
  | HookEffect f k => run_hook m (f w) (k (f w))
  | HookCall op k => let '(m', r) := call m op (clock w) in run_hook m' w (k r)
  end.

(** [enter]: the hook runs with the re-entrancy guard raised, and the guard is
    lowered however the hook ended. *)
Definition enter (m : Machine) (w : W) (ctx : Context) (from to : S)
    : Machine * W * hook_result :=
  match m_states m !! to ≫= OnEnter with
  | None => (m, w, HookOk 0)
  | Some onEnter =>
      let '(m', w', r) := run_hook (set_entering m (Some to)) w (onEnter ctx from to) in
      (set_entering m' None, w', r)
  end.

Inductive transition_result :=
| TransitionDone
| TransitionErr (err : merr)
| TransitionPanic.

Definition TransitionTo (m : Machine) (w : W) (ctx : Context) (to : S)
    : Machine * W * transition_result :=
  match transition_guard m to (clock w) with
  | Some err => (m, w, TransitionErr err)
  | None =>
      let from := m_current m in
      match m_states m !! from with
      | None => (m, w, TransitionErr (ErrUnknownCurrent from))
      | Some def =>
          if contains (To def) to then
            match enter m w ctx from to with
            | (m', w', HookOk timeout) =>
                (arm (set_current m' to) timeout (clock w'), w', TransitionDone)
            | (m', w', HookErr cause) =>
                (m', w', TransitionErr (ErrEntering to from cause))
            | (m', w', HookPanicked) => (m', w', TransitionPanic)
            end
          else (m, w, TransitionErr (IllegalTransitionError from to))
      end
  end.

(** [restoreOrStart]: the zero state restores nothing unless the graph declares
    it. *)
Definition restoreOrStart (zero : S) (m : Machine) (snap : Snapshot) (now : Time)
    : Machine * error_of merr :=
  match m_states m !! snap_State snap with
  | None => if decide (snap_State snap = zero) then (m, None) else Restore m snap now
  | Some _ => Restore m snap now
  end.

Definition NewFromSnapshot (zero : S) (ctx : Context) (config : Config)
    (snap : Snapshot) (now : Time) : res merr Machine :=
  m <-- New ctx config;;
  match restoreOrStart zero m snap now with
  | (m', None) => Ok m'
  | (_, Some err) => Err err
  end.

(** How long is left, absent for an unbounded state and for one that expired. *)
Definition RequeueAfter (m : Machine) (now : Time) : option Duration :=
  match Deadline m with
  | None => None
  | Some d => if Z.leb (d - now) 0 then None else Some (d - now)%Z
  end.

Definition exits (m : Machine) : list S :=
  match m_states m !! m_current m with Some def => To def | None => [] end.

Definition CanTransitionTo (m : Machine) (to : S) : bool := contains (exits m) to.
Definition AllowedTransitions (m : Machine) : list S := exits m.
Definition IsTerminal (m : Machine) : bool := Nat.eqb (length (exits m)) 0.

(** [CanAbort]: the graph's own answer for the state the machine is in. *)
Definition CanAbort (m : Machine) : bool :=
  match m_states m !! m_current m with
  | Some def => Abortable def
  | None => false
  end.

(** ** One graph per action *)

(** [MultiConfig], keyed by [Action], a concrete string type. *)
Definition MultiConfig : Type := gmap string Config.

(** The declared actions in the order [configFor] checks them. *)
Definition actions (mc : gmap string Config) : list string :=
  sort_strings (map_to_list mc).*1.

Fixpoint first_invalid (mc : gmap string Config) (declared : list string)
    : error_of merr :=
  match declared with
  | [] => None
  | a :: rest =>
      match mc !! a ≫= validate with
      | Some err => Some (ErrInAction a err)
      | None => first_invalid mc rest
      end
  end.

(** [configFor]: every declared graph is validated before the action is looked
    up. *)
Definition configFor (mc : gmap string Config) (action : string) : res merr Config :=
  match first_invalid mc (actions mc) with
  | Some err => Err err
  | None =>
      match mc !! action with
      | None => Err (ErrUnknownAction action)
      | Some config => Ok config
      end
  end.

(** [MultiConfig.New] and [MultiConfig.FromSnapshot]. *)
Definition MultiNew (mc : gmap string Config) (ctx : Context) (action : string)
    : res merr Machine :=
  config <-- configFor mc action;; New ctx config.

Definition MultiFromSnapshot (zero : S) (mc : gmap string Config) (ctx : Context)
    (action : string) (snap : Snapshot) (now : Time) : res merr Machine :=
  config <-- configFor mc action;; NewFromSnapshot zero ctx config snap now.

(** ** A machine being driven *)

(** One thing the owner of a machine, or the world, can do to it. *)
Inductive step : Machine * W -> Machine * W -> Prop :=
| step_transition m w ctx to m' w' r :
    TransitionTo m w ctx to = (m', w', r) -> step (m, w) (m', w')
| step_restore m w snap m' e :
    Restore m snap (clock w) = (m', e) -> step (m, w) (m', w)
| step_extend m w d m' b :
    Extend m d (clock w) = (m', b) -> step (m, w) (m', w)
| step_clear m w : step (m, w) (ClearTimeout m (clock w), w)
| step_reset m w : step (m, w) (Reset m (clock w), w)
| step_close m w : step (m, w) (Close m (clock w), w)
| step_world m w w' : step (m, w) (m, w').

(** The states a machine built from a configuration can be in. *)
Definition reachable (ctx : Context) (config : Config) (m : Machine) (w : W) : Prop :=
  exists m0 w0, New ctx config = Ok m0 /\ rtc step (m0, w0) (m, w).

End Machine.

Arguments Snapshot S : clear implicits.
Arguments mop S : clear implicits.
Arguments merr S : clear implicits.
Arguments mret S : clear implicits.
Arguments hook S W : clear implicits.
Arguments StateDef S W : clear implicits.
Arguments Config S {_ _} W.
Arguments Machine S {_ _} W.
Arguments TransitionFunc S W : clear implicits.

(** ** The string forms: abort queries, snapshots of custom resources, claims *)

Section Strings.

Context {W : Type}.

Abbreviation states := (gmap string (StateDef string W)).

(** [unabortable]: the states that declare no abort, sorted. *)
Definition unabortable (ss : states) : list string :=
  sort_strings (filter (fun kv => Abortable kv.2 = false) (map_to_list ss)).*1.

Definition UnabortableStates (config : Config string W) : list string :=
  unabortable (States config).

(** One entry met on the walk over every action's states: an entry already
    reported as unabortable is kept. *)
Definition union_entry (union : states) (kv : string * StateDef string W) : states :=
  match union !! kv.1 with
  | Some previous => if Abortable previous then <[kv.1:=kv.2]> union else union
  | None => <[kv.1:=kv.2]> union
  end.

(** The entries of every declared graph, in map order. *)
Definition all_entries (graphs : gmap string (Config string W))
    : list (string * StateDef string W) :=
  '(_, config) ← map_to_list graphs; map_to_list (States config).

(** [UnabortableMultiStates], and its walk over the entries in a given order. *)
Definition unabortable_union (entries : list (string * StateDef string W)) : list string :=
  unabortable (foldl union_entry ∅ entries).

Definition UnabortableMultiStates (graphs : gmap string (Config string W)) : list string :=
  unabortable_union (all_entries graphs).

(** [stateNames]: the declared states, sorted. *)
Definition stateNames (ss : states) : list string :=
  sort_strings (map_to_list ss).*1.

Definition DeclaredStates (config : Config string W) : list string :=
  stateNames (States config).

Definition DeclaredMultiStates (graphs : gmap string (Config string W)) : list string :=
  stateNames (foldl (fun seen kv => <[kv.1:=kv.2]> seen) ∅ (all_entries graphs)).

End Strings.

Record KubeClaim := mkClaim {
  claim_State : string;
  claim_Attempt : Z;
  claim_LeaseUntil : Time;
}.

Record KubeSnapshot := mkKube {
  kube_State : string;
  kube_Deadline : option Time;
  kube_Claim : option KubeClaim;
}.

Definition ToKube (snap : Snapshot string) : KubeSnapshot :=
  mkKube (snap_State snap)
    (if IsZero (snap_Deadline snap) then None else Some (snap_Deadline snap)) None.

Definition FromKube (kube : KubeSnapshot) : Snapshot string :=
  mkSnapshot (kube_State kube)
    (match kube_Deadline kube with Some d => d | None => zero_time end).

Definition KubeDeadline (kube : KubeSnapshot) : Time * bool :=
  match kube_Deadline kube with
  | None => (zero_time, false)
  | Some d => (d, true)
  end.

(** What a conditional write answers: it landed, the resource had moved on, or
    it failed otherwise. *)
Inductive write_result :=
| WriteOk
| WriteConflict
| WriteErr (cause : string).

(** Whether the claim a snapshot carries still holds its state, and the attempt
    the next claim of that state is. *)
Definition claim_held (stored : KubeSnapshot) (now : Time) : bool :=
  match kube_Claim stored with
  | Some held =>
      String.eqb (claim_State held) (kube_State stored) &&
      Z.ltb now (claim_LeaseUntil held)
  | None => false
  end.

Definition claim_attempt (stored : KubeSnapshot) : Z :=
  match kube_Claim stored with
  | Some held =>
      if String.eqb (claim_State held) (kube_State stored)
      then wrap32 (claim_Attempt held + 1) else 1%Z
  | None => 1%Z
  end.

Definition claimed_snapshot (stored : KubeSnapshot) (lease : Duration) (now : Time)
    : KubeSnapshot :=
  mkKube (kube_State stored) (kube_Deadline stored)
    (Some (mkClaim (kube_State stored) (claim_attempt stored) (now + lease)%Z)).

(** [WithClaim]: the write first, the side effect only if the write landed. *)
Definition WithClaim {V : Type} (now : V -> Time) (stored : KubeSnapshot)
    (lease : Duration) (write : V -> KubeSnapshot -> V * write_result)
    (fire : V -> V * error_of string) (v : V) : V * bool * error_of string :=
  if claim_held stored (now v) then (v, false, None)
  else
    match write v (claimed_snapshot stored lease (now v)) with
    | (v', WriteConflict) => (v', false, None)
    | (v', WriteErr cause) => (v', false, Some cause)
    | (v', WriteOk) => let '(v'', err) := fire v' in (v'', true, err)
    end.

Lemma ctx_Err_None c now :
  ctx_Err c now = None <->
  reached (ctx_deadline c) now = false /\ reached (ctx_canceled c) now = false.
Proof.
  unfold ctx_Err, reached. destruct (ctx_deadline c) as [d|], (ctx_canceled c) as [k|];
    try (destruct (Z.leb_spec d now)); try (destruct (Z.leb_spec k now));
    try (destruct (Z.leb_spec d k)); simpl; split; try done; try (intros [? ?]; done); try (exfalso; lia); auto.
Qed.

Lemma ctx_Err_mono c t t' :
  (t <= t')%Z -> ctx_Err c t <> None -> ctx_Err c t' <> None.
Proof.
  intros Ht H H'. apply H. apply ctx_Err_None. apply ctx_Err_None in H' as [Hd Hk].
  split; apply not_true_iff_false; intros Hr;
    apply (reached_mono _ _ t') in Hr; congruence.
Qed.

(** A context that ended keeps its reason. *)
Lemma ctx_Err_stable c t t' e :
  (t <= t')%Z -> ctx_Err c t = Some e -> ctx_Err c t' = Some e.
Proof.
  unfold ctx_Err. intros Ht H.
  destruct (ctx_deadline c) as [d|], (ctx_canceled c) as [k|];
    repeat match goal with
    | H : context [Z.leb ?a ?b] |- _ => destruct (Z.leb_spec a b)
    | |- context [Z.leb ?a ?b] => destruct (Z.leb_spec a b)
    end; simpl in *; simplify_eq; try done; lia.
Qed.

(** Cancelling a context ends it no later than that instant. *)
Lemma ctx_canceled_Err parent d c now t :
  (now <= t)%Z -> ctx_Err (ctx_derive parent d (cancel_at c now)) t <> None.
Proof.
  intros Ht H. apply ctx_Err_None in H as [_ H]. unfold cancel_at in H. simpl in H.
  rewrite !reached_omin in H. simpl in H. rewrite !orb_false_iff in H.
  destruct H as [_ [_ H]]. apply Z.leb_gt in H. lia.
Qed.

(** ** Graphs and their validation *)

Section MachineFacts.

Context {S : Type} `{Countable S} {W : Type} (clock : W -> Time).

Implicit Types (m : Machine S W) (w : W) (config : Config S W).

(** Every edge of a graph leads to a declared state. *)
Definition closed (ss : gmap S (StateDef S W)) : Prop :=
  forall s def to, ss !! s = Some def -> to ∈ To def -> is_Some (ss !! to).

Lemma dangling_edges_spec config s to :
  (s, to) ∈ dangling_edges config <->
  exists def, States config !! s = Some def /\ to ∈ To def /\ States config !! to = None.
Proof.
  unfold dangling_edges. rewrite list_elem_of_bind. split.
  - intros ([s' def] & Hin & Hm). rewrite list_elem_of_bind in Hin.
    destruct Hin as (to' & Hto & Hf). apply list_elem_of_singleton in Hto. simplify_eq.
    rewrite list_elem_of_filter in Hf. rewrite elem_of_map_to_list in Hm. naive_solver.
  - intros (def & Hs & Hin & Hnone). exists (s, def).
    rewrite elem_of_map_to_list. split; [|done].
    rewrite list_elem_of_bind. exists to. rewrite list_elem_of_filter.
    split; [by apply list_elem_of_singleton | done].
Qed.

Lemma validate_None config :
  validate config = None <->
  is_Some (States config !! Initial config) /\ closed (States config).
Proof.
  unfold validate, closed. destruct (States config !! Initial config) as [d|] eqn:E.
  2: { split; [done | intros [[? ?] _]; done]. }
  destruct (dangling_edges config) as [|[s to] l] eqn:Ed.
  - split; [|done]. intros _. split; [by eexists|]. intros s def to Hs Hto.
    destruct (States config !! to) eqn:Et; [by eexists|].
    assert (Hin : (s, to) ∈ dangling_edges config).
    { apply dangling_edges_spec. eauto. }
    rewrite Ed in Hin. by apply not_elem_of_nil in Hin.
  - split; [done|]. intros [_ Hc].
    assert (Hin : (s, to) ∈ dangling_edges config) by (rewrite Ed; left).
    apply dangling_edges_spec in Hin as (def & Hs & Hto & Hn).
    destruct (Hc _ _ _ Hs Hto) as [? ?]. congruence.
Qed.

Lemma New_Ok ctx config m :
  New ctx config = Ok m <->
  validate config = None /\
  m = mkMachine ctx None (States config) (Initial config) (Initial config)
        None None None [].
Proof. unfold New. destruct (validate config); naive_solver. Qed.

(** ** What hooks can do to the machine that runs them *)

(** The parts of a machine no operation on it ever changes. *)
Definition same_graph (m m' : Machine S W) : Prop :=
  m_parent m' = m_parent m /\ m_states m' = m_states m /\ m_initial m' = m_initial m.

(** What a running hook leaves alone: the graph, the guard, and the state but
    for a reset. *)
Definition hook_frame (m m' : Machine S W) : Prop :=
  same_graph m m' /\ m_entering m' = m_entering m /\
  (m_current m' = m_current m \/ m_current m' = m_initial m).

Lemma hook_frame_refl m : hook_frame m m.
Proof. repeat split; by left. Qed.

Lemma hook_frame_trans m1 m2 m3 :
  hook_frame m1 m2 -> hook_frame m2 m3 -> hook_frame m1 m3.
Proof. unfold hook_frame, same_graph. intuition congruence. Qed.

Lemma arm_frame m d now : same_graph m (arm m d now) /\
  m_entering (arm m d now) = m_entering m /\ m_current (arm m d now) = m_current m.
Proof. done. Qed.

Lemma Extend_frame m d now m' b :
  Extend m d now = (m', b) -> same_graph m m' /\
  m_entering m' = m_entering m /\ m_current m' = m_current m.
Proof. unfold Extend. intros E. break; done. Qed.

Lemma Restore_entering m snap now e :
  m_entering m = Some e ->
  Restore m snap now = (m, Some (ErrReentrantTransition e (snap_State snap))).
Proof. unfold Restore. by intros ->. Qed.

Lemma call_frame m op now m' r e :
  m_entering m = Some e -> call m op now = (m', r) -> hook_frame m m'.
Proof.
  intros He. unfold call, hook_frame. destruct op as [to|d| | |snap| |]; intros E.
  - simplify_eq. repeat split; by left.
  - destruct (Extend m d now) as [m1 b] eqn:Ex. simplify_eq.
    destruct (Extend_frame _ _ _ _ _ Ex) as (? & ? & ?). tauto.
  - simplify_eq. repeat split; by left.
  - simplify_eq. repeat split; by right.
  - rewrite (Restore_entering _ _ _ e He) in E. simplify_eq. repeat split; by left.
  - simplify_eq. repeat split; by left.
  - simplify_eq. repeat split; by left.
Qed.

Lemma run_hook_frame m w h m' w' r e :
  m_entering m = Some e -> run_hook clock m w h = (m', w', r) -> hook_frame m m'.
Proof.
  revert m w m' w' r. induction h as [d|c| |f k IH|op k IH];
    intros m w m' w' r He E; simpl in E; simplify_eq; try apply hook_frame_refl.
  - by eapply IH.
  - destruct (call m op (clock w)) as [m1 r1] eqn:Ec.
    assert (Hf : hook_frame m m1) by (by eapply call_frame).
    eapply hook_frame_trans; [done|]. eapply IH; [|done].
    destruct Hf as (_ & -> & _). done.
Qed.

(** A transition asked for by the hook of a transition in flight is refused,
    whatever the graph says. *)
Lemma hook_call_refused m to now e :
  m_entering m = Some e -> transition_guard m to now <> None.
Proof. unfold transition_guard. intros ->. by destruct (ctx_Err (base m) now). Qed.

(** Hooks that call neither [Reset], [ClearTimeout] nor [Close]. *)
Inductive quiet : hook S W -> Prop :=
| quiet_return d : quiet (HookReturn d)
| quiet_fail c : quiet (HookFail c)
| quiet_panic : quiet HookPanic
| quiet_effect f k : (forall w, quiet (k w)) -> quiet (HookEffect f k)
| quiet_call op k :
    match op with OpReset | OpClearTimeout | OpClose => False | _ => True end ->
    (forall r, quiet (k r)) -> quiet (HookCall op k).

Lemma run_hook_quiet m w h m' w' r e :
  quiet h -> m_entering m = Some e -> run_hook clock m w h = (m', w', r) -> m' = m.
Proof.
  intros Hq. revert m w m' w' r. induction Hq as [d|c| |f k _ IH|op k Hop _ IH];
    intros m w m' w' r He E; simpl in E; simplify_eq; try done.
  - by eapply IH.
  - assert (Hc : call m op (clock w) = (m, snd (call m op (clock w)))).
    { unfold call. destruct op as [to|d| | |snap| |]; try done.
      - unfold Extend. by rewrite He.
      - by rewrite (Restore_entering _ _ _ e He). }
    rewrite Hc in E. by eapply IH.
Qed.

Lemma enter_frame m w ctx from to m' w' r :
  m_entering m = None -> enter clock m w ctx from to = (m', w', r) ->
  same_graph m m' /\ m_entering m' = None /\
  (m_current m' = m_current m \/ m_current m' = m_initial m).
Proof.
  unfold enter. intros He E. destruct (m_states m !! to ≫= OnEnter) as [f|].
  2: { simplify_eq. repeat split; [done | by left]. }
  destruct (run_hook clock _ w (f ctx from to)) as [[m1 w1] r1] eqn:Er. simplify_eq.
  eapply run_hook_frame in Er; [|done]. destruct Er as ((Hp & Hs & Hi) & _ & Hc).
  repeat split; try done.
Qed.

(** The context a machine replaces has ended, for whoever still holds it. *)
Lemma rearm_retires m d now c t :
  c ∈ m_retired (rearm m d now) -> (now <= t)%Z ->
  c ∈ m_retired m \/ ctx_Err c t <> None.
Proof.
  simpl. intros [->|Hin]%elem_of_cons Ht; [right | by left].
  by apply ctx_canceled_Err with (now := now).
Qed.

(** ** Transitions *)

(** A transition reported done, taken apart. *)
Lemma transition_done_inv m w ctx to m' w' :
  TransitionTo clock m w ctx to = (m', w', TransitionDone) ->
  transition_guard m to (clock w) = None /\ to ∈ exits m /\
  exists m1 timeout, enter clock m w ctx (m_current m) to = (m1, w', HookOk timeout) /\
    m' = arm (set_current m1 to) timeout (clock w').
Proof.
  unfold TransitionTo, exits. intros E.
  destruct (transition_guard m to (clock w)) eqn:Eg; [by simplify_eq|].
  destruct (m_states m !! m_current m) as [def|] eqn:Es; [|by simplify_eq].
  destruct (contains (To def) to) eqn:Ec; [|by simplify_eq].
  destruct (enter clock m w ctx (m_current m) to) as [[m1 w1] [timeout|c|]] eqn:En;
    simplify_eq.
  apply contains_true in Ec. split; [done|]. split; [done|]. by exists m1, timeout.
Qed.

Lemma transition_guard_None m to now :
  transition_guard m to now = None <-> ctx_Err (base m) now = None /\ m_entering m = None.
Proof.
  unfold transition_guard. destruct (ctx_Err (base m) now), (m_entering m); naive_solver.
Qed.

(** C27. A transition that is reported done was allowed: the machine was open,
    nothing was being entered, the edge is declared, and the target's entry
    hook returned.  The machine is then in the target state whatever the hook
    did to it, no hook is running, its graph is the one it was built from, and
    its deadline is the one the hook returned, counted from when the hook ended
    and bounded by the machine's own context.  The context of the state it left
    has ended for everyone who still holds it. *)
Theorem transition_done m w ctx to m' w' :
  TransitionTo clock m w ctx to = (m', w', TransitionDone) ->
  ctx_Err (base m) (clock w) = None /\ m_entering m = None /\
  to ∈ exits m /\
  CurrentState m' = to /\ m_entering m' = None /\ m_states m' = m_states m /\
  (exists m1 timeout, enter clock m w ctx (m_current m) to = (m1, w', HookOk timeout) /\
    Deadline m' = omin (ctx_deadline (m_parent m))
      (if Z.ltb 0 timeout then Some (clock w' + timeout)%Z else None)) /\
  (exists c, c ∈ m_retired m' /\ forall t, (clock w' <= t)%Z -> ctx_Err c t <> None).
Proof.
  intros ([Hb He]%transition_guard_None & Hto & m1 & timeout & En & ->)%transition_done_inv.
  destruct (enter_frame _ _ _ _ _ _ _ _ He En) as ((Hp & Hs & Hi) & He1 & _).
  repeat split; try done.
  - exists m1, timeout. split; [done|]. unfold Deadline, stateCtx, base, arm; simpl.
    by rewrite omin_None_r, Hp.
  - eexists. split; [left|]. intros t Ht. by apply ctx_canceled_Err with (now := clock w').
Qed.

(** What a hook could have done to a machine whose transition then failed: a
    quiet hook nothing at all. *)
Definition entry_quiet m (to : S) : Prop :=
  forall f ctx from, m_states m !! to ≫= OnEnter = Some f -> quiet (f ctx from to).

(** C36. A transition that is not done leaves the machine exactly as it was,
    deadline included: a closed machine, a re-entrant call, an undeclared edge,
    a hook that fails and a hook that panics.  The hook may do anything to the
    world, and may try to transition, extend or restore the machine it is
    entering; the only thing ruled out is that it explicitly resets, unbounds
    or closes that machine itself. *)
Theorem transition_failure_untouched m w ctx to m' w' r :
  entry_quiet m to -> TransitionTo clock m w ctx to = (m', w', r) ->
  r <> TransitionDone -> m' = m.
Proof.
  unfold TransitionTo, transition_guard, entry_quiet. intros Hq E Hr.
  destruct (ctx_Err (base m) (clock w)) eqn:Eb; [by simplify_eq|].
  destruct (m_entering m) eqn:Ee; [by simplify_eq|].
  destruct (m_states m !! m_current m) as [def|] eqn:Es; [|by simplify_eq].
  destruct (contains (To def) to) eqn:Ec; [|by simplify_eq].
  unfold enter in E. destruct (m_states m !! to ≫= OnEnter) as [f|] eqn:Eo; [|by simplify_eq].
  destruct (run_hook clock _ w (f ctx (m_current m) to)) as [[m1 w1] r1] eqn:Er.
  apply (run_hook_quiet _ _ _ _ _ _ to (Hq _ _ _ Eo)) in Er; [|done]. subst m1.
  destruct r1; simplify_eq; destruct m; simpl in *; by subst.
Qed.

(** An edge the graph does not declare is refused with both of its ends,
    no hook runs, and nothing changes: neither the machine nor the world.  A
    machine in a terminal state therefore never moves again. *)
Theorem transition_illegal m w ctx to :
  ctx_Err (base m) (clock w) = None -> m_entering m = None ->
  is_Some (m_states m !! m_current m) -> CanTransitionTo m to = false ->
  TransitionTo clock m w ctx to =
    (m, w, TransitionErr (IllegalTransitionError (m_current m) to)).
Proof.
  unfold TransitionTo, transition_guard, CanTransitionTo, exits.
  intros -> -> [def ->] ->. done.
Qed.

(** The state of a machine between two calls of its owner: no hook is running,
    and the current and initial states are ones the graph declares. *)
Definition machine_ok config m : Prop :=
  m_states m = States config /\ m_initial m = Initial config /\
  m_entering m = None /\ is_Some (States config !! m_current m).

Lemma New_machine_ok ctx config m : New ctx config = Ok m -> machine_ok config m.
Proof. rewrite New_Ok. intros [[? _]%validate_None ->]. done. Qed.

Lemma transition_machine_ok config m w ctx to m' w' r :
  validate config = None -> machine_ok config m ->
  TransitionTo clock m w ctx to = (m', w', r) -> machine_ok config m'.
Proof.
  intros [Hin Hcl]%validate_None (Hs & Hi & He & Hc) E.
  unfold TransitionTo, transition_guard in E. rewrite He in E.
  destruct (ctx_Err (base m) (clock w)); [by simplify_eq|].
  destruct (m_states m !! m_current m) as [def|] eqn:Es; [|by simplify_eq].
  destruct (contains (To def) to) eqn:Ec; [|by simplify_eq].
  destruct (enter clock m w ctx (m_current m) to) as [[m1 w1] r1] eqn:En.
  destruct (enter_frame _ _ _ _ _ _ _ _ He En) as ((Hp1 & Hs1 & Hi1) & He1 & Hc1).
  assert (Hm1 : machine_ok config m1).
  { unfold machine_ok. rewrite Hs1, Hi1, He1. destruct Hc1 as [-> | ->]; [done|].
    by rewrite Hi. }
  apply contains_true in Ec. destruct r1; simplify_eq; try done.
  destruct Hm1 as (Hs' & Hi' & He' & _). repeat split; try done.
  simpl. rewrite Hs in Es. by eapply Hcl.
Qed.

Lemma step_machine_ok config m w m' w' :
  validate config = None -> machine_ok config m -> step clock (m, w) (m', w') ->
  machine_ok config m'.
Proof.
  intros Hv Hm. inversion 1; simplify_eq; destruct Hm as (Hs & Hi & He & Hc).
  - eapply transition_machine_ok; [done| |done]. done.
  - match goal with H : Restore _ _ _ = _ |- _ => unfold Restore in H; rewrite He in H end.
    destruct (m_states m !! snap_State snap) eqn:E; simplify_eq; [|done].
    repeat split; try done. simpl. rewrite <- Hs. by eexists.
  - match goal with H : Extend _ _ _ = _ |- _ => apply Extend_frame in H end.
    destruct H2 as ((? & ? & ?) & ? & ?). unfold machine_ok. repeat split; congruence.
  - done.
  - repeat split; try done. simpl. rewrite Hi. by apply validate_None in Hv as [? _].
  - done.
  - done.
Qed.

(** ** Deadlines *)

Lemma arm_deadline m d now :
  Deadline (arm m d now) =
  omin (ctx_deadline (m_parent m)) (if Z.ltb 0 d then Some (now + d)%Z else None).
Proof. unfold Deadline, stateCtx, base, arm; simpl. by rewrite omin_None_r. Qed.

Lemma armAt_deadline m d now :
  Deadline (armAt m d now) =
  omin (ctx_deadline (m_parent m)) (if IsZero d then None else Some d).
Proof. unfold Deadline, stateCtx, base, armAt; simpl. by rewrite omin_None_r. Qed.

Lemma Deadline_parent_le m d p :
  Deadline m = Some d -> ctx_deadline (m_parent m) = Some p -> (d <= p)%Z.
Proof.
  unfold Deadline, stateCtx, base. simpl. intros Hd Hp. rewrite Hp in Hd. simpl in Hd.
  destruct (m_state_deadline m); simplify_eq/=; lia.
Qed.

(** [Extend] never brings a deadline in: if it reports that it moved the
    deadline, the machine was open and entering nothing, the state had a
    deadline that a positive budget from now goes past, and the new deadline is
    no earlier, strictly later when the machine's own context sets no bound.
    If it reports that it did not, the machine is untouched, and an unbounded
    state stays unbounded. *)
Theorem extend_only_outward m d now m' b :
  (0 < d)%Z -> Extend m d now = (m', b) ->
  (b = false -> m' = m) /\
  (Deadline m = None -> m' = m) /\
  (b = true -> exists old new,
     m_entering m = None /\ ctx_Err (base m) now = None /\
     Deadline m = Some old /\ Deadline m' = Some new /\ (old < now + d)%Z /\
     (old <= new)%Z /\ CurrentState m' = CurrentState m /\
     (ctx_deadline (m_parent m) = None -> new = (now + d)%Z)).
Proof.
  unfold Extend. intros Hd E.
  destruct (m_entering m) eqn:Ee; [by simplify_eq|].
  destruct (ctx_Err (base m) now) eqn:Eb; [by simplify_eq|].
  destruct (Deadline m) as [old|] eqn:Eo; [|by simplify_eq].
  destruct (Z.ltb_spec old (now + d)); simplify_eq; [|done].
  split; [done|]. split; [done|]. intros _.
  exists old. rewrite arm_deadline. rewrite (proj2 (Z.ltb_lt 0 d)) by done.
  destruct (ctx_deadline (m_parent m)) as [p|] eqn:Ep; simpl.
  - exists (p `min` (now + d))%Z. pose proof (Deadline_parent_le _ _ _ Eo Ep).
    repeat split; try done; lia.
  - exists (now + d)%Z. repeat split; try done; lia.
Qed.

(** ** Persisting a position *)

Lemma reachable_machine_ok ctx config m w :
  reachable clock ctx config m w -> validate config = None /\ machine_ok config m.
Proof.
  intros (m0 & w0 & Hn & Hr). pose proof (New_machine_ok _ _ _ Hn) as Hok.
  apply New_Ok in Hn as [Hv _]. split; [done|].
  remember (m0, w0) as p0 eqn:E0. remember (m, w) as p eqn:E.
  revert m0 w0 E0 Hok. induction Hr as [p|p1 [m1 w1] p2 Hs _ IH]; intros m0 w0 -> Hok.
  - by simplify_eq.
  - eapply IH; [done|done|]. by eapply step_machine_ok.
Qed.

(** C40. Whatever its owner does with it and whatever its hooks do, a machine
    built from a configuration is, between two calls, in a state that
    configuration declares, with the graph and initial state it was given and
    no transition in flight. *)
Theorem reachable_declared ctx config m w :
  reachable clock ctx config m w ->
  validate config = None /\ m_states m = States config /\ m_initial m = Initial config /\
  m_entering m = None /\ is_Some (States config !! CurrentState m).
Proof. intros [? (? & ? & ? & ?)]%reachable_machine_ok. done. Qed.

(** The round trip of a controller that keeps its machine in a resource:
    a machine taken apart with [Snapshot] and rebuilt from it over the same
    graph, in another process and under another context, is in the same state
    with the same deadline, and no hook ran.  The two contexts set no deadline
    of their own, which is how a controller builds its machines. *)
Theorem snapshot_roundtrip zero ctx ctx' config m w now :
  reachable clock ctx config m w ->
  ctx_deadline (m_parent m) = None -> ctx_deadline ctx' = None ->
  Deadline m <> Some zero_time ->
  exists m', NewFromSnapshot zero ctx' config (TakeSnapshot m) now = Ok m' /\
    CurrentState m' = CurrentState m /\ Deadline m' = Deadline m /\
    machine_ok config m'.
Proof.
  intros [Hv (Hs & Hi & He & [def Hc])]%reachable_machine_ok Hp Hp' Hz.
  unfold NewFromSnapshot, New, restoreOrStart, Restore. rewrite Hv. simpl.
  rewrite Hc. eexists. split; [done|]. split; [done|]. split.
  - rewrite armAt_deadline. simpl. rewrite Hp'. simpl.
    destruct (Deadline m) as [d|] eqn:Ed; [|done].
    unfold IsZero. destruct (Z.eqb_spec d zero_time); [congruence | done].
  - by repeat split.
Qed.

(** A position restored from a resource whose deadline passed while
    nobody was watching reports its timeout on the first look, as long as the
    machine itself is open, and asks for no requeue; one whose deadline is
    still ahead reports neither a timeout nor a wait past that instant. *)
Theorem restored_timeout config m snap m' now now' :
  machine_ok config m -> is_Some (States config !! snap_State snap) ->
  IsZero (snap_Deadline snap) = false -> ctx_deadline (m_parent m) = None ->
  Restore m snap now = (m', None) -> ctx_Err (base m) now' = None ->
  TimeoutReached m' now' = Z.leb (snap_Deadline snap) now' /\
  RequeueAfter m' now' =
    (if Z.leb (snap_Deadline snap) now' then None
     else Some (snap_Deadline snap - now')%Z).
Proof.
  intros (Hs & Hi & He & _) [def Hd] Hz Hp. unfold Restore. rewrite He, Hs, Hd.
  intros [= <-] Hb. unfold RequeueAfter. rewrite armAt_deadline. simpl.
  rewrite Hp, Hz. simpl. unfold TimeoutReached, stateCtx.
  assert (Hb' : forall d, base (armAt (set_current m (snap_State snap)) d now) = base m)
    by done.
  rewrite Hb'. rewrite Hb. rewrite bool_decide_eq_true_2 by done. simpl.
  apply ctx_Err_None in Hb as [_ Hk]. simpl in Hk.
  unfold armAt, rearm; simpl. rewrite Hz. unfold ctx_Err, base; simpl. rewrite Hp. simpl.
  rewrite omin_None_r.
  destruct (omin (ctx_canceled (m_parent m)) (m_base_canceled m)) as [k|]; simpl in *;
    destruct (Z.leb_spec (snap_Deadline snap) now'); simpl.
  - apply Z.leb_gt in Hk. rewrite (proj2 (Z.leb_le _ k)) by lia.
    rewrite (proj2 (Z.leb_le (snap_Deadline snap - now') 0)) by lia. done.
  - rewrite Hk. rewrite (proj2 (Z.leb_gt (snap_Deadline snap - now') 0)) by lia. done.
  - rewrite (proj2 (Z.leb_le (snap_Deadline snap - now') 0)) by lia. done.
  - rewrite (proj2 (Z.leb_gt (snap_Deadline snap - now') 0)) by lia. done.
Qed.

(** ** One graph per action *)

Lemma actions_elem mc a :
  a ∈ actions mc <-> is_Some (mc !! a : option (Config S W)).
Proof.
  unfold actions. rewrite sort_strings_elem. rewrite list_elem_of_fmap. split.
  - intros ([a' c] & -> & Hin). apply elem_of_map_to_list in Hin. by eexists.
  - intros [c Hc]. exists (a, c). split; [done|]. by apply elem_of_map_to_list.
Qed.

Lemma first_invalid_None mc declared :
  first_invalid mc declared = None <->
  forall a (c : Config S W), a ∈ declared -> mc !! a = Some c -> validate c = None.
Proof.
  induction declared as [|a l IH]; simpl.
  - split; [intros _ a c Hin; by apply not_elem_of_nil in Hin | done].
  - destruct (mc !! a ≫= validate) as [e|] eqn:E.
    + split; [done|]. intros Hall. destruct (mc !! a) as [c|] eqn:Ea; [|done].
      simpl in E. rewrite (Hall a c) in E; [done|left|done].
    + rewrite IH. split.
      * intros Hl b c [->|Hin]%elem_of_cons Hb; [|by eapply Hl]. by rewrite Hb in E.
      * intros Hall b c Hin. apply Hall. by right.
Qed.

Lemma configFor_valid (mc : gmap string (Config S W)) a :
  (forall b c, mc !! b = Some c -> validate c = None) ->
  configFor mc a =
    match mc !! a with Some c => Ok c | None => Err (ErrUnknownAction a) end.
Proof.
  intros Hv. unfold configFor.
  rewrite (proj2 (first_invalid_None mc (actions mc))); [done|].
  intros b c _. apply Hv.
Qed.

(** Building a machine for one action proves every declared graph sound,
    and a fault in the program is never masked by bad input: the graph of the
    action is handed out exactly when every action's graph is valid and the
    action is declared, an unknown action is reported exactly when every graph
    is valid, and every other failure names an action whose own graph is the
    malformed one. *)
Theorem configFor_spec (mc : gmap string (Config S W)) a :
  (forall c, configFor mc a = Ok c <->
     (forall b d, mc !! b = Some d -> validate d = None) /\ mc !! a = Some c) /\
  (forall x, configFor mc a = Err (ErrUnknownAction x) <->
     (forall b d, mc !! b = Some d -> validate d = None) /\ mc !! a = None /\ x = a) /\
  (forall e, configFor mc a = Err e -> e <> ErrUnknownAction a ->
     exists b d cause, mc !! b = Some d /\ validate d = Some cause /\ e = ErrInAction b cause).
Proof.
  assert (Hall : first_invalid mc (actions mc) = None <->
    forall b d, mc !! b = Some d -> validate d = None).
  { rewrite first_invalid_None. split; intros Hx b d Hb; [|intros Hb'; by eapply Hx].
    eapply Hx; [|done]. apply actions_elem. by eexists. }
  unfold configFor. destruct (first_invalid mc (actions mc)) as [e|] eqn:Ef.
  - assert (Hex : exists b d cause,
      mc !! b = Some d /\ validate d = Some cause /\ e = ErrInAction b cause).
    { clear Hall. induction (actions mc) as [|b l IH]; simpl in Ef; [done|].
      destruct (mc !! b ≫= validate) as [cause|] eqn:Ev; [|by apply IH].
      destruct (mc !! b) as [d|] eqn:Eb; [|done]. simplify_eq/=. by eauto 6. }
    destruct Hex as (b & d & cause & Hb & Hv & ->).
    split; [|split]; [intros c | intros x | intros e He _]; try (split; [done|]).
    + intros [Hx _]. apply Hall in Hx. done.
    + intros [Hx _]. apply Hall in Hx. done.
    + simplify_eq. eauto 6.
  - destruct (mc !! a) eqn:Ea; naive_solver.
Qed.

End MachineFacts.

(** ** The abort queries *)

Section StringFacts.

Context {W : Type}.

Implicit Types (graphs : gmap string (Config string W))
  (entries : list (string * StateDef string W)).

Lemma elem_of_unabortable (ss : gmap string (StateDef string W)) s :
  s ∈ unabortable ss <-> exists def, ss !! s = Some def /\ Abortable def = false.
Proof.
  unfold unabortable. rewrite sort_strings_elem, list_elem_of_fmap. split.
  - intros ([s' def] & -> & Hin). apply list_elem_of_filter in Hin as [Ha Hin].
    apply elem_of_map_to_list in Hin. by eauto.
  - intros (def & Hs & Ha). exists (s, def). split; [done|].
    apply list_elem_of_filter. by rewrite elem_of_map_to_list.
Qed.

Lemma NoDup_unabortable (ss : gmap string (StateDef string W)) : NoDup (unabortable ss).
Proof.
  unfold unabortable. rewrite sort_strings_perm.
  apply (NoDup_fmap_fst _); [|apply NoDup_filter, NoDup_map_to_list].
  intros x y1 y2 [_ H1]%list_elem_of_filter [_ H2]%list_elem_of_filter.
  apply elem_of_map_to_list in H1, H2. congruence.
Qed.

(** What the walk over the entries leaves for a state: it is present when some
    entry names it, and unabortable when some entry says so. *)
Lemma union_walk entries (acc : gmap string (StateDef string W)) s :
  (exists def, foldl union_entry acc entries !! s = Some def /\ Abortable def = false) <->
  (exists def, acc !! s = Some def /\ Abortable def = false) \/
  (exists def, (s, def) ∈ entries /\ Abortable def = false).
Proof.
  revert acc. induction entries as [|[k d] l IH]; intros acc; simpl.
  - split; [by left|]. intros [?|(def & Hin & _)]; [done|]. by apply not_elem_of_nil in Hin.
  - rewrite IH. unfold union_entry; simpl. split.
    + intros [(def & Hs & Ha)|(def & Hin & Ha)].
      * destruct (acc !! k) as [prev|] eqn:Ek; [destruct (Abortable prev) eqn:Ep|];
          try (apply lookup_insert_Some in Hs as [[<- <-]|[Hn Hs]]); eauto;
          right; exists d; (split; [left | done]).
      * right. exists def. split; [by right | done].
    + intros [(def & Hs & Ha)|(def & Hin & Ha)].
      * destruct (decide (k = s)) as [->|Hn].
        { rewrite Hs, Ha. eauto. }
        left. exists def. split; [|done].
        destruct (acc !! k) as [prev|]; [destruct (Abortable prev)|];
          rewrite ?lookup_insert_ne by done; done.
      * apply elem_of_cons in Hin as [[= <- <-]|Hin]; [|by eauto].
        left. destruct (acc !! s) as [prev|] eqn:Es; [destruct (Abortable prev) eqn:Ep|].
        -- exists def. by rewrite lookup_insert_eq.
        -- exists prev. by rewrite Es.
        -- exists def. by rewrite lookup_insert_eq.
Qed.

Lemma elem_of_unabortable_union entries s :
  s ∈ unabortable_union entries <->
  exists def, (s, def) ∈ entries /\ Abortable def = false.
Proof.
  unfold unabortable_union. rewrite elem_of_unabortable, union_walk. split; [|by right].
  intros [(def & Hs & _)|?]; [|done]. by rewrite lookup_empty in Hs.
Qed.

Lemma elem_of_all_entries graphs s def :
  (s, def) ∈ all_entries graphs <->
  exists a config, graphs !! a = Some config /\ States config !! s = Some def.
Proof.
  unfold all_entries. rewrite list_elem_of_bind. split.
  - intros ([a config] & Hin & Hc). apply elem_of_map_to_list in Hin, Hc. eauto.
  - intros (a & config & Ha & Hs). exists (a, config). by rewrite !elem_of_map_to_list.
Qed.

(** [UnabortableMultiStates] is the union over the declared graphs, and
    errs on the side of refusing: a state is reported exactly when some action
    declares it and cannot be aborted in it, whatever another action sharing
    the state says.  The answer does not depend on the order in which the maps
    were walked, is sorted, and names no state twice. *)
Theorem unabortable_multi_union graphs :
  (forall s, s ∈ UnabortableMultiStates graphs <->
     exists a config def, graphs !! a = Some config /\
       States config !! s = Some def /\ Abortable def = false) /\
  (forall entries, entries ≡ₚ all_entries graphs ->
     unabortable_union entries = UnabortableMultiStates graphs) /\
  StronglySorted String.le (UnabortableMultiStates graphs) /\
  NoDup (UnabortableMultiStates graphs).
Proof.
  split_and!.
  - intros s. unfold UnabortableMultiStates. rewrite elem_of_unabortable_union.
    setoid_rewrite elem_of_all_entries. naive_solver.
  - intros entries Hp. apply (StronglySorted_unique String.le);
      [apply sort_strings_sorted..|].
    apply NoDup_Permutation; [apply NoDup_unabortable..|]. intros s.
    unfold UnabortableMultiStates. rewrite !elem_of_unabortable_union.
    by setoid_rewrite Hp.
  - apply sort_strings_sorted.
  - apply NoDup_unabortable.
Qed.

(** The state and deadline a resource stores come back as they were
    taken, an absent deadline being a zero one, and the stored form never holds
    a zero timestamp. *)
Theorem kube_roundtrip (snap : Snapshot string) :
  FromKube (ToKube snap) = snap /\
  (forall kube, ToKube (FromKube kube) = kube <->
     kube_Claim kube = None /\ kube_Deadline kube <> Some zero_time) /\
  KubeDeadline (ToKube snap) = (snap_Deadline snap, negb (IsZero (snap_Deadline snap))).
Proof.
  destruct snap as [s d]. unfold FromKube, ToKube, KubeDeadline, IsZero; simpl.
  split_and!.
  - destruct (Z.eqb_spec d zero_time) as [->|]; done.
  - intros [ks [kd|] kc]; simpl; [|naive_solver].
    destruct (Z.eqb_spec kd zero_time); naive_solver.
  - destruct (Z.eqb_spec d zero_time) as [->|]; done.
Qed.

End StringFacts.

(** ** The claim protocol *)

(** A custom resource in an API server that writes conditionally: the snapshot
    it holds, its resource version, the wall clock, and the number of times the
    side effect was fired. *)
Record Store := mkStore {
  st_snap : KubeSnapshot;
  st_version : nat;
  st_now : Time;
  st_fired : nat;
}.

(** A [ClaimWriter] writing against the version its pass read. *)
Definition write_at (version : nat) (s : Store) (claimed : KubeSnapshot)
    : Store * write_result :=
  if Nat.eqb (st_version s) version
  then (mkStore claimed (S version) (st_now s) (st_fired s), WriteOk)
  else (s, WriteConflict).

Definition fire_once (s : Store) : Store * error_of string :=
  (mkStore (st_snap s) (st_version s) (st_now s) (S (st_fired s)), None).

(** A pass that read the resource earlier and acts on that copy now. *)
Definition pass (copy : KubeSnapshot) (version : nat) (lease : Duration) (s : Store)
    : Store * bool * error_of string :=
  WithClaim st_now copy lease (write_at version) fire_once s.

(** What can happen to the resource: a pass over a copy read at some version,
    another writer's update, time passing. *)
Inductive event :=
| EvPass (copy : KubeSnapshot) (version : nat) (lease : Duration)
| EvWrite (snap : KubeSnapshot)
| EvTick (d : nat).

Definition happen (s : Store) (e : event) : Store :=
  match e with
  | EvPass copy version lease => (pass copy version lease s).1.1
  | EvWrite snap => mkStore snap (S (st_version s)) (st_now s) (st_fired s)
  | EvTick d => mkStore (st_snap s) (st_version s) (st_now s + Z.of_nat d)%Z (st_fired s)
  end.

Lemma pass_version copy version lease s :
  (st_version s <= st_version (pass copy version lease s).1.1) /\
  ((pass copy version lease s).1.2 = true ->
     st_version s = version /\ st_version (pass copy version lease s).1.1 = S version /\
     st_fired (pass copy version lease s).1.1 = S (st_fired s)) /\
  ((pass copy version lease s).1.2 = false -> (pass copy version lease s).1.1 = s).
Proof.
  unfold pass, WithClaim, write_at.
  destruct (claim_held copy (st_now s)); [simpl; split; [lia|done]|].
  destruct (Nat.eqb_spec (st_version s) version) as [->|]; simpl; split; try done; lia.
Qed.

Lemma happen_version s e : st_version s <= st_version (happen s e).
Proof.
  destruct e as [copy v lease|snap|d]; simpl; [|lia..].
  apply pass_version.
Qed.

Lemma happen_version_list s es : st_version s <= st_version (foldl happen s es).
Proof.
  revert s. induction es as [|e es IH]; intros s; simpl; [lia|].
  pose proof (happen_version s e). pose proof (IH (happen s e)). lia.
Qed.

(** C32. At most one of the passes that read the resource at one version fires
    its side effect, in every interleaving: once a pass over a copy read at
    that version has fired, a pass over any copy of the same version never
    fires again, whatever leases, claims, other writers and clock ticks come in
    between.  It is skipped without an error. *)
Theorem claim_fires_once copy1 copy2 version lease1 lease2 s es :
  (pass copy1 version lease1 s).1.2 = true ->
  pass copy2 version lease2 (foldl happen (pass copy1 version lease1 s).1.1 es) =
    (foldl happen (pass copy1 version lease1 s).1.1 es, false, None).
Proof.
  intros Hp. destruct (pass_version copy1 version lease1 s) as (_ & Hv & _).
  destruct (Hv Hp) as (_ & Hs & _). clear Hv.
  pose proof (happen_version_list (pass copy1 version lease1 s).1.1 es) as Hle.
  rewrite Hs in Hle. unfold pass at 1, WithClaim, write_at.
  destruct (claim_held copy2 _); [done|].
  destruct (Nat.eqb_spec (st_version (foldl happen (pass copy1 version lease1 s).1.1 es))
    version); [lia | done].
Qed.

(** A claim that landed holds its state for the whole lease: a pass that
    reads the resource fresh, finds it in the state that was claimed, and runs
    before the lease is over fires nothing; one that runs when the lease is
    over may fire, as the next attempt of the same state. *)
Theorem claim_lease_holds copy version lease s :
  (pass copy version lease s).1.2 = true ->
  let s' := (pass copy version lease s).1.1 in
  kube_State (st_snap s') = kube_State copy /\
  kube_Deadline (st_snap s') = kube_Deadline copy /\
  (forall t, claim_held (st_snap s') t = Z.ltb t (st_now s + lease)) /\
  claim_attempt (st_snap s') = wrap32 (claim_attempt copy + 1) /\
  (forall d lease', (Z.of_nat d < lease)%Z ->
     (pass (st_snap s') (st_version s') lease' (happen s' (EvTick d))).1.2 = false).
Proof.
  unfold pass at 1 2, WithClaim, write_at.
  destruct (claim_held copy (st_now s)); [done|].
  destruct (Nat.eqb_spec (st_version s) version) as [Hv|]; [|done]. intros _. simpl.
  split_and!; try done.
  - intros t. unfold claim_held, claimed_snapshot; simpl. by rewrite String.eqb_refl.
  - unfold claimed_snapshot, claim_attempt at 1; simpl. by rewrite String.eqb_refl.
  - intros d lease' Hd. unfold pass, WithClaim, claim_held, claimed_snapshot; simpl.
    rewrite String.eqb_refl. rewrite (proj2 (Z.ltb_lt _ _)) by lia. done.
Qed.

(** ** A worked graph, at which the hypotheses above hold *)

Module Demo.

Open Scope string_scope.

(** The world is the wall clock. *)
Definition clock (w : Z) : Time := w.

(** Entering Running takes five ticks and asks for a transition from inside the
    hook, which is refused; entering Failed fails. *)
Definition running_hook : TransitionFunc string Z := fun _ _ _ =>
  HookEffect (fun w => w + 5)%Z (fun _ =>
    HookCall (OpTransitionTo "Done") (fun _ => HookReturn 600)).

Definition failing_hook : TransitionFunc string Z := fun _ _ _ =>
  HookEffect (fun w => w + 1)%Z (fun _ => HookFail "no backend").

Definition graph : gmap string (StateDef string Z) :=
  {[ "Pending" := mkStateDef ["Running"; "Failed"] true None;
     "Running" := mkStateDef ["Done"; "Failed"] false (Some running_hook);
     "Failed" := mkStateDef [] false (Some failing_hook);
     "Done" := mkStateDef [] false None ]}.

Definition config : Config string Z := mkConfig "Pending" graph.

Definition machine : Machine string Z :=
  mkMachine Background None graph "Pending" "Pending" None None None [].

Definition entering : Machine string Z * Z * transition_result :=
  TransitionTo clock machine 10%Z Background "Running".
Definition running : Machine string Z := entering.1.1.

Lemma transition_done_witness :
  CurrentState running = "Running" /\ m_entering running = None.
Proof.
  pose proof (transition_done clock machine 10%Z Background "Running" running entering.1.2
    (triple_eq entering TransitionDone ltac:(eval_eq))) as (_ & _ & _ & Hc & He & _).
  by split.
Defined.

Lemma transition_failure_untouched_witness :
  (TransitionTo clock machine 10%Z Background "Failed").1.1 = machine.
Proof.
  set (p := TransitionTo clock machine 10%Z Background "Failed").
  apply (transition_failure_untouched clock machine 10%Z Background "Failed" p.1.1 p.1.2 p.2).
  - intros f ctx from Hf. vm_compute in Hf. injection Hf as <-.
    apply quiet_effect. intros. apply quiet_fail.
  - exact (triple_eq p p.2 eq_refl).
  - vm_compute. discriminate.
Defined.

Lemma transition_illegal_witness :
  TransitionTo clock machine 10%Z Background "Done" =
    (machine, 10%Z, TransitionErr (IllegalTransitionError "Pending" "Done")).
Proof.
  apply (transition_illegal clock machine 10%Z Background "Done");
    [eval_eq | reflexivity | by eexists | eval_eq].
Defined.

Lemma demo_New : New Background config = Ok machine.
Proof. reflexivity. Defined.

Lemma demo_reachable : reachable clock Background config running entering.1.2.
Proof.
  exists machine, 10%Z. split; [apply demo_New|]. apply rtc_once.
  apply step_transition with (ctx := Background) (to := "Running") (r := entering.2).
  exact (triple_eq entering entering.2 eq_refl).
Qed.

Lemma reachable_declared_witness : is_Some (graph !! CurrentState running).
Proof.
  apply (reachable_declared clock Background config running entering.1.2 demo_reachable).
Defined.

Lemma extend_only_outward_witness :
  Deadline (Extend running 1000 20).1 = Some 1020%Z.
Proof.
  destruct (extend_only_outward running 1000 20 (Extend running 1000 20).1 true
    eq_refl (pair_eq (Extend running 1000 20) true ltac:(eval_eq))) as (_ & _ & H).
  destruct (H eq_refl) as (old & new & _ & _ & _ & -> & _ & _ & _ & Hn).
  rewrite Hn; [reflexivity | eval_eq].
Defined.

Lemma snapshot_roundtrip_witness :
  exists m', NewFromSnapshot "" Background config (TakeSnapshot running) 700 = Ok m' /\
    CurrentState m' = "Running" /\ Deadline m' = Some 615%Z.
Proof.
  destruct (snapshot_roundtrip clock "" Background Background config running entering.1.2
    700 demo_reachable ltac:(eval_eq) eq_refl ltac:(vm_compute; discriminate))
    as (m' & Hn & Hc & Hd & _).
  exists m'. split; [exact Hn|]. rewrite Hc, Hd. eval_eq.
Defined.

(** Restored after the deadline of 615 passed. *)
Lemma restored_timeout_witness :
  TimeoutReached (Restore machine (mkSnapshot "Running" 615%Z) 700).1 700 = true.
Proof.
  assert (Hm : machine_ok config machine) by (repeat split; by eexists).
  destruct (restored_timeout config machine (mkSnapshot "Running" 615%Z)
    (Restore machine (mkSnapshot "Running" 615%Z) 700).1 700 700 Hm
    ltac:(by eexists) eq_refl eq_refl
    (pair_eq (Restore machine (mkSnapshot "Running" 615%Z) 700) None ltac:(eval_eq))
    ltac:(eval_eq)) as [H _].
  rewrite H. reflexivity.
Defined.

Definition stored : KubeSnapshot := mkKube "Promoting" (Some 500%Z) None.
Definition store : Store := mkStore stored 3 100%Z 0.

Lemma claim_fires_once_witness :
  (pass stored 3 60 store).1.2 = true /\
  pass stored 3 60 (pass stored 3 60 store).1.1 =
    ((pass stored 3 60 store).1.1, false, None).
Proof.
  split; [eval_eq|].
  exact (claim_fires_once stored stored 3 60 60 store [] ltac:(eval_eq)).
Defined.

Lemma claim_lease_holds_witness :
  claim_held (st_snap (pass stored 3 60 store).1.1) 159 = true.
Proof.
  destruct (claim_lease_holds stored 3 60 store ltac:(eval_eq)) as (_ & _ & H & _).
  rewrite H. reflexivity.
Defined.

(** A state without a deadline of its own, in a machine whose own context
    has one, answers [true] to an extension that moves nothing: its deadline is
    the context's before and after, and the state it leaves has acquired a
    bound its graph never gave it. *)
Theorem extend_reports_unmoved :
  let bounded := mkMachine (mkContext (Some 100%Z) None) None graph
    "Pending" "Pending" None None None [] in
  New (mkContext (Some 100%Z) None) config = Ok bounded /\
  m_state_deadline bounded = None /\
  (Extend bounded 1000 0).2 = true /\
  Deadline (Extend bounded 1000 0).1 = Deadline bounded /\
  m_state_deadline (Extend bounded 1000 0).1 = Some 1000%Z.
Proof. eval_eq. Qed.

End Demo.
