(* ===== verification/OpsGraphs.v ===== *)
(** The state graphs of the operator's operations and of its entities.

    A Module per controller package of [operator/internal/controllers] (and two
    of [operator/internal/controller]): its steps, its step budgets, its graph
    literals, the tables that go with them, and the operations the reconciler
    performs on the machine it builds from them.  The theorems are about all the
    operation kinds at once ([kinds]): every graph builds a machine, every step is
    entered with its budget (two of the kinds write it without its deadline first), an
    abort and a DELETE get the same answer, nothing becomes abortable again, and every
    walk ends. *)

From S2P Require Import Prelude StateMachine.

#[local] Open Scope string_scope.

(** A graph literal: Go's map literal has distinct keys. *)
Definition mkGraph {W} (initial : string) (states : list (string * StateDef string W))
    : Config string W :=
  mkConfig initial (list_to_map states).

(** The entry hook every state carries: it sets the step's budget and performs
    nothing. *)
Definition deadline {W} (d : Duration) : option (TransitionFunc string W) :=
  Some (fun _ _ _ => HookReturn d).

(** [recordStep]: the status is given the step and its deadline, and loses the claim on the
    step before. *)
Definition recordStep (next : string) (deadline : option Time) : KubeSnapshot :=
  mkKube next deadline None.

(** The deadline of the machine's snapshot, as it is handed to the write. *)
Definition snapshotDeadline {W} (machine : Machine string W) : option Time :=
  kube_Deadline (ToKube (TakeSnapshot machine)).

(** How a node's, a cluster's and a control plane's operation enters a step: the transition, and
    one write of the step with its deadline after it; a refused transition writes nothing. *)
Definition enterStep {W} (clock : W -> Time) (machine : Machine string W) (w : W)
    (ctx : Context) (next : string) : Machine string W * W * option KubeSnapshot :=
  match TransitionTo clock machine w ctx next with
  | (machine', w', TransitionDone) =>
      (machine', w', Some (recordStep next (snapshotDeadline machine')))
  | (machine', w', _) => (machine', w', None)
  end.

(** How a device's operation and a discovery run do ([enter]): the step and the deadline are
    written over the stored ones, and the claim stays. *)
Definition enterInPlace {W} (clock : W -> Time) (machine : Machine string W) (w : W)
    (ctx : Context) (next : string) (stored : KubeSnapshot)
    : Machine string W * W * option KubeSnapshot :=
  match TransitionTo clock machine w ctx next with
  | (machine', w', TransitionDone) =>
      (machine', w', Some (mkKube next (snapshotDeadline machine') (kube_Claim stored)))
  | (machine', w', _) => (machine', w', None)
  end.

(** How a volume's operation and a restore do, at the end of [advance]: the step is written
    without a deadline first, and with the one its transition armed afterwards.  The writes are
    in their order; a pass may end between them. *)
Definition enterAhead {W} (clock : W -> Time) (machine : Machine string W) (w : W)
    (ctx : Context) (next : string) : Machine string W * W * list KubeSnapshot :=
  match TransitionTo clock machine w ctx next with
  | (machine', w', TransitionDone) =>
      (machine', w', [recordStep next None; recordStep next (snapshotDeadline machine')])
  | (machine', w', _) => (machine', w', [recordStep next None])
  end.

(** [nextStep] of the graphs that are lines: the first edge is the only edge. *)
Definition recordedSuccessor {W} (machine : Machine string W) : res string string :=
  match AllowedTransitions machine with
  | next :: _ => Ok next
  | [] => Err (CurrentState machine)
  end.

(** The time spent in a step, from the deadline left on it and the budget it was
    given; a negative one is not reported. *)
Definition step_elapsed (budget : option Duration) (stored : KubeSnapshot) (now : Time)
    : option Duration :=
  let '(deadline, bounded) := KubeDeadline stored in
  if negb bounded then None
  else
    match budget with
    | None => None
    | Some budget =>
        let elapsed := (now - (deadline - budget))%Z in
        if (elapsed <? 0)%Z then None else Some elapsed
    end.

(** ** The storage node's operations and its provisioning path
    ([controllers/node/graphs.go]) *)

Module Node.

Definition stepRequesting : string := "Requesting".
Definition stepDeparting : string := "Departing".
Definition stepAwaiting : string := "Awaiting".
Definition stepValidating : string := "Validating".
Definition stepMigratingDevices : string := "MigratingDevices".
Definition stepMigratingVolumes : string := "MigratingVolumes".
Definition stepVerifying : string := "Verifying".
Definition stepRemoving : string := "Removing".
Definition stepAwaitingRemoval : string := "AwaitingRemoval".
Definition stepPreparing : string := "Preparing".
Definition stepRelocating : string := "Relocating".
Definition stepAwaitingNode : string := "AwaitingNode".
Definition stepPromoting : string := "Promoting".
Definition stepHolding : string := "Holding".
Definition stepShuttingDown : string := "ShuttingDown".
Definition stepReleasing : string := "Releasing".
Definition stepAwaitingHost : string := "AwaitingHost".
Definition stepRestarting : string := "Restarting".
Definition stepCleanup : string := "Cleanup".
Definition stepCheckingHost : string := "CheckingHost".
Definition stepCheckingConfig : string := "CheckingConfig".
Definition stepCheckingNetwork : string := "CheckingNetwork".
Definition stepAwaitingSlot : string := "AwaitingSlot".
Definition stepPosting : string := "Posting".
Definition stepResolving : string := "Resolving".
Definition stepAdopting : string := "Adopting".
Definition stepAwaitingWorker : string := "AwaitingWorker".
Definition requestingDeadline : Duration := (2 * Minute)%Z.
Definition awaitingDeadline : Duration := (30 * Minute)%Z.
Definition departingDeadline : Duration := (5 * Minute)%Z.
Definition validatingDeadline : Duration := (24 * Hour)%Z.
Definition migratingDeadline : Duration := (12 * Hour)%Z.
Definition verifyingDeadline : Duration := (30 * Minute)%Z.
Definition removingDeadline : Duration := (2 * Hour)%Z.
Definition awaitingRemovalDeadline : Duration := (7 * Hour)%Z.
Definition shuttingDownDeadline : Duration := (15 * Minute)%Z.
Definition migratingDevicesDeadline : Duration := (7 * Hour)%Z.
Definition preparingDeadline : Duration := (15 * Minute)%Z.
Definition relocatingDeadline : Duration := (15 * Minute)%Z.
Definition nodeRestartDeadline : Duration := (45 * Minute)%Z.
Definition promotingDeadline : Duration := (30 * Minute)%Z.
Definition holdingDeadline : Duration := (6 * Hour)%Z.
Definition releasingDeadline : Duration := (15 * Minute)%Z.
Definition awaitingHostDeadline : Duration := (4 * Hour)%Z.
Definition cleanupDeadline : Duration := (5 * Minute)%Z.
Definition checkingHostDeadline : Duration := (30 * Minute)%Z.
Definition checkingConfigDeadline : Duration := (24 * Hour)%Z.
Definition checkingNetworkDeadline : Duration := (24 * Hour)%Z.
Definition awaitingSlotDeadline : Duration := (4 * Hour)%Z.
Definition postingDeadline : Duration := (10 * Minute)%Z.
Definition resolvingDeadline : Duration := (45 * Minute)%Z.
Definition adoptingDeadline : Duration := (10 * Minute)%Z.
Definition awaitingWorkerDeadline : Duration := (Hour)%Z.

Section Graphs.

Context {W : Type}.

Definition requestAndWait : Config string W :=
  mkGraph stepRequesting [
    (stepRequesting, mkStateDef [stepAwaiting] true (deadline requestingDeadline));
    (stepAwaiting, mkStateDef [] false (deadline awaitingDeadline))].

Definition restart : Config string W :=
  mkGraph stepRequesting [
    (stepRequesting, mkStateDef [stepDeparting] true (deadline requestingDeadline));
    (stepDeparting, mkStateDef [stepAwaiting] false (deadline departingDeadline));
    (stepAwaiting, mkStateDef [] false (deadline awaitingDeadline))].

Definition graphs : gmap string (Config string W) := list_to_map [
  ("Shutdown", requestAndWait);
  ("Restart", restart);
  ("Suspend", requestAndWait);
  ("Resume", requestAndWait);
  ("Remove", mkGraph stepValidating [
      (stepValidating, mkStateDef [stepShuttingDown] true (deadline validatingDeadline));
      (stepShuttingDown, mkStateDef [stepMigratingDevices] false (deadline shuttingDownDeadline));
      (stepMigratingDevices, mkStateDef [stepMigratingVolumes] false (deadline migratingDevicesDeadline));
      (stepMigratingVolumes, mkStateDef [stepVerifying] false (deadline migratingDeadline));
      (stepVerifying, mkStateDef [stepRemoving] false (deadline verifyingDeadline));
      (stepRemoving, mkStateDef [stepAwaitingRemoval] false (deadline removingDeadline));
      (stepAwaitingRemoval, mkStateDef [] false (deadline awaitingRemovalDeadline))]);
  ("Migrate", mkGraph stepPreparing [
      (stepPreparing, mkStateDef [stepRelocating] true (deadline preparingDeadline));
      (stepRelocating, mkStateDef [stepAwaitingNode] false (deadline relocatingDeadline));
      (stepAwaitingNode, mkStateDef [stepPromoting] false (deadline nodeRestartDeadline));
      (stepPromoting, mkStateDef [] false (deadline promotingDeadline))]);
  ("HostMaintenance", mkGraph stepHolding [
      (stepHolding, mkStateDef [stepShuttingDown] true (deadline holdingDeadline));
      (stepShuttingDown, mkStateDef [stepReleasing] false (deadline shuttingDownDeadline));
      (stepReleasing, mkStateDef [stepAwaitingHost] false (deadline releasingDeadline));
      (stepAwaitingHost, mkStateDef [stepRestarting] false (deadline awaitingHostDeadline));
      (stepRestarting, mkStateDef [stepCleanup] false (deadline nodeRestartDeadline));
      (stepCleanup, mkStateDef [] false (deadline cleanupDeadline))])].

Definition provisioningGraph : Config string W :=
  mkGraph stepCheckingHost [
    (stepCheckingHost, mkStateDef [stepCheckingConfig; stepAdopting] false (deadline checkingHostDeadline));
    (stepCheckingConfig, mkStateDef [stepCheckingNetwork; stepAwaitingSlot; stepAdopting] false (deadline checkingConfigDeadline));
    (stepCheckingNetwork, mkStateDef [stepAwaitingSlot; stepAdopting] false (deadline checkingNetworkDeadline));
    (stepAwaitingSlot, mkStateDef [stepPosting; stepResolving; stepAdopting] false (deadline awaitingSlotDeadline));
    (stepPosting, mkStateDef [stepResolving; stepAwaitingWorker] false (deadline postingDeadline));
    (stepResolving, mkStateDef [stepPosting; stepAwaitingWorker] false (deadline resolvingDeadline));
    (stepAwaitingWorker, mkStateDef [stepCheckingHost] false (deadline awaitingWorkerDeadline));
    (stepAdopting, mkStateDef [] false (deadline adoptingDeadline))].

End Graphs.

Definition initialDeadlines : gmap string Duration := list_to_map [
  ("Shutdown", requestingDeadline);
  ("Restart", requestingDeadline);
  ("Suspend", requestingDeadline);
  ("Resume", requestingDeadline);
  ("Remove", validatingDeadline);
  ("Migrate", preparingDeadline);
  ("HostMaintenance", holdingDeadline)].

Definition stepBudgets : gmap string Duration := list_to_map [
  (stepRequesting, requestingDeadline);
  (stepDeparting, departingDeadline);
  (stepAwaiting, awaitingDeadline);
  (stepValidating, validatingDeadline);
  (stepMigratingDevices, migratingDevicesDeadline);
  (stepMigratingVolumes, migratingDeadline);
  (stepVerifying, verifyingDeadline);
  (stepRemoving, removingDeadline);
  (stepAwaitingRemoval, awaitingRemovalDeadline);
  (stepPreparing, preparingDeadline);
  (stepRelocating, relocatingDeadline);
  (stepAwaitingNode, nodeRestartDeadline);
  (stepPromoting, promotingDeadline);
  (stepHolding, holdingDeadline);
  (stepShuttingDown, shuttingDownDeadline);
  (stepReleasing, releasingDeadline);
  (stepAwaitingHost, awaitingHostDeadline);
  (stepRestarting, nodeRestartDeadline);
  (stepCleanup, cleanupDeadline)].

Definition UnabortableSteps : list string := UnabortableMultiStates (graphs (W := unit)).

(** The step [enterInitialStep] records with the budget of the action. *)
Definition enterInitialStep {W} (action : string) (machine : Machine string W)
    (now : Time) : KubeSnapshot :=
  let budget :=
    match initialDeadlines !! action with
    | Some budget => budget
    | None => requestingDeadline
    end in
  mkKube (CurrentState machine) (Some (now + budget)%Z) None.

(** How long [observeStep] says the step took, when it says anything. *)
Definition observeStep (stored : KubeSnapshot) (current : string) (now : Time)
    : option Duration :=
  step_elapsed (stepBudgets !! current) stored now.

End Node.

(** ** The storage device's operations
    ([controllers/node/storagedeviceops_graphs.go]) *)

Module Device.

Definition stepDeviceRequesting : string := "Requesting".
Definition stepDeviceAwaiting : string := "Awaiting".
Definition stepDeviceRemoving : string := "Removing".
Definition stepDeviceFailing : string := "Failing".
Definition actionDeviceRestart : string := "Restart".
Definition actionDeviceFail : string := "Fail".
Definition actionDeviceCheckHealth : string := "CheckHealth".
Definition requestingDeviceDeadline : Duration := (2 * Minute)%Z.
Definition awaitingDeviceDeadline : Duration := (15 * Minute)%Z.
Definition removingDeviceDeadline : Duration := (10 * Minute)%Z.
Definition awaitingFailureDeadline : Duration := (5 * Minute)%Z.

Section Graphs.

Context {W : Type}.

Definition storageDeviceOpsGraphs : gmap string (Config string W) := list_to_map [
  (actionDeviceRestart, mkGraph stepDeviceRequesting [
      (stepDeviceRequesting, mkStateDef [stepDeviceAwaiting] true (deadline requestingDeviceDeadline));
      (stepDeviceAwaiting, mkStateDef [] false (deadline awaitingDeviceDeadline))]);
  (actionDeviceFail, mkGraph stepDeviceRemoving [
      (stepDeviceRemoving, mkStateDef [stepDeviceFailing] true (deadline removingDeviceDeadline));
      (stepDeviceFailing, mkStateDef [stepDeviceAwaiting] false (deadline requestingDeviceDeadline));
      (stepDeviceAwaiting, mkStateDef [] false (deadline awaitingFailureDeadline))]);
  (actionDeviceCheckHealth, mkGraph stepDeviceRequesting [
      (stepDeviceRequesting, mkStateDef [] true (deadline requestingDeviceDeadline))])].

End Graphs.

Definition initialDeviceDeadlines : gmap string Duration := list_to_map [
  (actionDeviceRestart, requestingDeviceDeadline);
  (actionDeviceFail, removingDeviceDeadline);
  (actionDeviceCheckHealth, requestingDeviceDeadline)].

Definition UnabortableDeviceSteps : list string := UnabortableMultiStates (storageDeviceOpsGraphs (W := unit)).

(** [begin]: the step and the deadline are written over whatever the status
    carried. *)
Definition begin (action initial : string) (stored : KubeSnapshot) (now : Time)
    : KubeSnapshot :=
  let budget :=
    match initialDeviceDeadlines !! action with
    | Some budget => budget
    | None => requestingDeviceDeadline
    end in
  mkKube initial (Some (now + budget)%Z) (kube_Claim stored).

End Device.

(** ** The control plane's installation and operations
    ([controllers/controlplane/graphs.go]) *)

Module ControlPlane.

Definition stepApplyingFoundationDB : string := "ApplyingFoundationDB".
Definition stepAwaitingFoundationDB : string := "AwaitingFoundationDB".
Definition stepBuildingIndices : string := "BuildingIndices".
Definition stepApplyingDatastore : string := "ApplyingDatastore".
Definition stepApplyingAPI : string := "ApplyingAPI".
Definition stepAwaitingAPI : string := "AwaitingAPI".
Definition stepDraining : string := "Draining".
Definition stepRestarting : string := "Restarting".
Definition stepAwaiting : string := "Awaiting".
Definition stepPreflight : string := "Preflight".
Definition stepApplying : string := "Applying".
Definition stepVerifying : string := "Verifying".
Definition stepRequesting : string := "Requesting".
Definition applyingFoundationDBDeadline : Duration := (10 * Minute)%Z.
Definition awaitingFoundationDBDeadline : Duration := (45 * Minute)%Z.
Definition buildingIndicesDeadline : Duration := (15 * Minute)%Z.
Definition applyingDatastoreDeadline : Duration := (10 * Minute)%Z.
Definition applyingAPIDeadline : Duration := (10 * Minute)%Z.
Definition awaitingAPIDeadline : Duration := (20 * Minute)%Z.
Definition drainingDeadline : Duration := (2 * Hour)%Z.
Definition restartingDeadline : Duration := (5 * Minute)%Z.
Definition awaitingOpsDeadline : Duration := (30 * Minute)%Z.
Definition preflightDeadline : Duration := (10 * Minute)%Z.
Definition applyingDeadline : Duration := (5 * Minute)%Z.
Definition verifyingDeadline : Duration := (30 * Minute)%Z.
Definition requestingDeadline : Duration := (5 * Minute)%Z.

Section Graphs.

Context {W : Type}.

Definition installGraph : Config string W :=
  mkGraph stepApplyingDatastore [
    (stepApplyingDatastore, mkStateDef [stepApplyingFoundationDB] false (deadline applyingDatastoreDeadline));
    (stepApplyingFoundationDB, mkStateDef [stepAwaitingFoundationDB] false (deadline applyingFoundationDBDeadline));
    (stepAwaitingFoundationDB, mkStateDef [stepBuildingIndices] false (deadline awaitingFoundationDBDeadline));
    (stepBuildingIndices, mkStateDef [stepApplyingAPI] false (deadline buildingIndicesDeadline));
    (stepApplyingAPI, mkStateDef [stepAwaitingAPI] false (deadline applyingAPIDeadline));
    (stepAwaitingAPI, mkStateDef [] false (deadline awaitingAPIDeadline))].

Definition opsGraphs : gmap string (Config string W) := list_to_map [
  ("Restart", mkGraph stepDraining [
      (stepDraining, mkStateDef [stepRestarting] true (deadline drainingDeadline));
      (stepRestarting, mkStateDef [stepAwaiting] false (deadline restartingDeadline));
      (stepAwaiting, mkStateDef [] false (deadline awaitingOpsDeadline))]);
  ("Upgrade", mkGraph stepPreflight [
      (stepPreflight, mkStateDef [stepDraining] true (deadline preflightDeadline));
      (stepDraining, mkStateDef [stepApplying] true (deadline drainingDeadline));
      (stepApplying, mkStateDef [stepAwaiting] false (deadline applyingDeadline));
      (stepAwaiting, mkStateDef [stepVerifying] false (deadline awaitingOpsDeadline));
      (stepVerifying, mkStateDef [] false (deadline verifyingDeadline))]);
  ("Backup", mkGraph stepRequesting [
      (stepRequesting, mkStateDef [stepAwaiting] true (deadline requestingDeadline));
      (stepAwaiting, mkStateDef [] false (deadline awaitingOpsDeadline))])].

End Graphs.

Definition installStepBudgets : gmap string Duration := list_to_map [
  (stepApplyingFoundationDB, applyingFoundationDBDeadline);
  (stepAwaitingFoundationDB, awaitingFoundationDBDeadline);
  (stepBuildingIndices, buildingIndicesDeadline);
  (stepApplyingDatastore, applyingDatastoreDeadline);
  (stepApplyingAPI, applyingAPIDeadline);
  (stepAwaitingAPI, awaitingAPIDeadline)].

Definition opsInitialDeadlines : gmap string Duration := list_to_map [
  ("Restart", drainingDeadline);
  ("Upgrade", preflightDeadline);
  ("Backup", requestingDeadline)].

Definition UnabortableSteps : list string := UnabortableMultiStates (opsGraphs (W := unit)).

Definition enterInitialStep {W} (action : string) (machine : Machine string W)
    (now : Time) : KubeSnapshot :=
  let budget :=
    match opsInitialDeadlines !! action with
    | Some budget => budget
    | None => requestingDeadline
    end in
  mkKube (CurrentState machine) (Some (now + budget)%Z) None.

Definition enterStepAt (step : string) (now : Time) : KubeSnapshot :=
  let budget :=
    match installStepBudgets !! step with
    | Some budget => budget
    | None => applyingFoundationDBDeadline
    end in
  mkKube step (Some (now + budget)%Z) None.

End ControlPlane.

(** ** The persistent volume's operations ([controllers/volume/graphs.go]) *)

Module Volume.

Definition stepValidating : string := "Validating".
Definition stepMigrating : string := "Migrating".
Definition stepVerifying : string := "Verifying".
Definition actionMigrate : string := "Migrate".
Definition actionRelocate : string := "Relocate".
Definition validatingDeadline : Duration := (15 * Minute)%Z.
Definition copyBaseDeadline : Duration := (30 * Minute)%Z.
Definition copyPerMemberDeadline : Duration := (10 * Minute)%Z.
Definition verifyingDeadline : Duration := (10 * Minute)%Z.
Definition replicatingBaseDeadline : Duration := (2 * Hour)%Z.
Definition replicatingPerMemberDeadline : Duration := (30 * Minute)%Z.
Definition committingDeadline : Duration := (15 * Minute)%Z.
Definition awaitingCutoverDeadline : Duration := (30 * Minute)%Z.
Definition attachingDeadline : Duration := (10 * Minute)%Z.
Definition proceedingDeadline : Duration := (10 * Minute)%Z.

Definition stepReplicating : string := "Replicating".
Definition stepCommitting : string := "Committing".
Definition stepAwaitingCutover : string := "AwaitingCutover".
Definition stepAttachingPaths : string := "AttachingPaths".
Definition stepProceeding : string := "Proceeding".

(** [members] is an [int32]; the product and the sum are taken at 64 bits. *)
Definition replicatingDeadline (members : Z) : Duration :=
  let members := if (members <? 1)%Z then 1%Z else members in
  wrap64 (replicatingBaseDeadline + wrap64 (members * replicatingPerMemberDeadline)).

(** [members] is an [int32]; the product and the sum are taken at 64 bits. *)
Definition copyDeadline (members : Z) : Duration :=
  let members := if (members <? 1)%Z then 1%Z else members in
  wrap64 (copyBaseDeadline + wrap64 (members * copyPerMemberDeadline)).

Section Graphs.

Context {W : Type}.

Definition graphs (members : Z) : gmap string (Config string W) := list_to_map [
  (actionMigrate, mkGraph stepValidating [
      (stepValidating, mkStateDef [stepMigrating] true (deadline validatingDeadline));
      (stepMigrating, mkStateDef [stepVerifying] true (deadline (copyDeadline members)));
      (stepVerifying, mkStateDef [] false (deadline verifyingDeadline))]);
  (actionRelocate, mkGraph stepValidating [
      (stepValidating, mkStateDef [stepReplicating] true (deadline validatingDeadline));
      (stepReplicating, mkStateDef [stepCommitting] true (deadline (replicatingDeadline members)));
      (stepCommitting, mkStateDef [stepAwaitingCutover] false (deadline committingDeadline));
      (stepAwaitingCutover, mkStateDef [stepAttachingPaths] false (deadline awaitingCutoverDeadline));
      (stepAttachingPaths, mkStateDef [stepProceeding] false (deadline attachingDeadline));
      (stepProceeding, mkStateDef [stepAwaitingCutover; stepVerifying] false (deadline proceedingDeadline));
      (stepVerifying, mkStateDef [] false (deadline verifyingDeadline))])].

End Graphs.

Definition initialDeadline : Duration := validatingDeadline.

Definition stepBudgets : gmap string Duration := list_to_map [
  (stepValidating, validatingDeadline);
  (stepVerifying, verifyingDeadline)].

Definition UnabortableSteps : list string := UnabortableMultiStates (graphs (W := unit) 0).

Definition enterInitialStep {W} (machine : Machine string W) (now : Time)
    : KubeSnapshot :=
  mkKube (CurrentState machine) (Some (now + initialDeadline)%Z) None.

(** [stepStarted]: when the current step began, read back from its deadline.
    [members] is [memberCount]. *)
Definition stepStarted (stored : KubeSnapshot) (members : Z) (current : string)
    : Time * bool :=
  let '(deadline, bounded) := KubeDeadline stored in
  if negb bounded then (zero_time, false)
  else
    let budget :=
      match stepBudgets !! current with
      | Some budget => budget
      | None => copyDeadline members
      end in
    ((deadline - budget)%Z, true).

Definition firstSuccessor {W} (machine : Machine string W) : string :=
  match AllowedTransitions machine with
  | next :: _ => next
  | [] => CurrentState machine
  end.

(** [cuttingOver]: the index of the first volume not cut over, or -1.  A volume
    of the operation's status is its [CutOver] flag. *)
Fixpoint cuttingOver (volumes : list bool) (i : Z) : Z :=
  match volumes with
  | [] => -1
  | CutOver :: volumes => if negb CutOver then i else cuttingOver volumes (i + 1)
  end.

Definition relocateSuccessor {W} (volumes : list bool) (machine : Machine string W)
    : string :=
  if String.eqb (CurrentState machine) stepProceeding
  then if (0 <=? cuttingOver volumes 0)%Z then stepAwaitingCutover else stepVerifying
  else firstSuccessor machine.

End Volume.

(** ** The storage cluster's operations and its creation
    ([controllers/cluster/graphs.go], [storagecluster_controller.go]) *)

Module Cluster.

Definition stepRequesting : string := "Requesting".
Definition stepAwaiting : string := "Awaiting".
Definition stepShuttingDown : string := "ShuttingDown".
Definition stepStarting : string := "Starting".
Definition stepCheckingPeers : string := "CheckingPeers".
Definition stepShuttingDownNode : string := "ShuttingDownNode".
Definition stepRefreshingPod : string := "RefreshingPod".
Definition stepAwaitingPod : string := "AwaitingPod".
Definition stepRestartingNode : string := "RestartingNode".
Definition stepRebalancing : string := "Rebalancing".
Definition requestingDeadline : Duration := (2 * Minute)%Z.
Definition awaitingDeadline : Duration := (30 * Minute)%Z.
Definition checkingPeersDeadline : Duration := (2 * Hour)%Z.
Definition nodeShutdownDeadline : Duration := (30 * Minute)%Z.
Definition podRefreshDeadline : Duration := (10 * Minute)%Z.
Definition nodeRestartDeadline : Duration := (45 * Minute)%Z.
Definition rebalancingDeadline : Duration := (4 * Hour)%Z.
Definition activationRetryBudget : Duration := (30 * Minute)%Z.
Definition creationStepDeadline : Duration := (10 * Minute)%Z.

Section Graphs.

Context {W : Type}.

Definition requestAndWait : Config string W :=
  mkGraph stepRequesting [
    (stepRequesting, mkStateDef [stepAwaiting] true (deadline requestingDeadline));
    (stepAwaiting, mkStateDef [] false (deadline awaitingDeadline))].

Definition graphs : gmap string (Config string W) := list_to_map [
  ("Activate", requestAndWait);
  ("Expand", requestAndWait);
  ("Shutdown", requestAndWait);
  ("Start", requestAndWait);
  ("CancelTask", requestAndWait);
  ("Restart", mkGraph stepShuttingDown [
      (stepShuttingDown, mkStateDef [stepStarting] false (deadline awaitingDeadline));
      (stepStarting, mkStateDef [] false (deadline awaitingDeadline))]);
  ("RollingRestart", mkGraph stepCheckingPeers [
      (stepCheckingPeers, mkStateDef [stepShuttingDownNode] true (deadline checkingPeersDeadline));
      (stepShuttingDownNode, mkStateDef [stepRefreshingPod; stepRestartingNode] false (deadline nodeShutdownDeadline));
      (stepRefreshingPod, mkStateDef [stepAwaitingPod] false (deadline podRefreshDeadline));
      (stepAwaitingPod, mkStateDef [stepRestartingNode] false (deadline podRefreshDeadline));
      (stepRestartingNode, mkStateDef [stepRebalancing] false (deadline nodeRestartDeadline));
      (stepRebalancing, mkStateDef [] true (deadline rebalancingDeadline))])].

Definition creationGraph : Config string W :=
  mkGraph "Claiming" [
    ("Claiming", mkStateDef ["CheckingControlPlane"] false None);
    ("CheckingControlPlane", mkStateDef ["ResolvingConfig"; "Adopting"] false (deadline creationStepDeadline));
    ("ResolvingConfig", mkStateDef ["Creating"] false (deadline creationStepDeadline));
    ("Creating", mkStateDef ["Persisting"; "Adopting"] false (deadline creationStepDeadline));
    ("Adopting", mkStateDef ["Persisting"] false (deadline creationStepDeadline));
    ("Persisting", mkStateDef [] false (deadline creationStepDeadline))].

End Graphs.

Definition initialDeadlines : gmap string Duration := list_to_map [
  ("Activate", requestingDeadline);
  ("Expand", requestingDeadline);
  ("Shutdown", requestingDeadline);
  ("Start", requestingDeadline);
  ("CancelTask", requestingDeadline);
  ("Restart", awaitingDeadline);
  ("RollingRestart", checkingPeersDeadline)].

Definition UnabortableSteps : list string := UnabortableMultiStates (graphs (W := unit)).

Definition stepBudgets : gmap string Duration := list_to_map [
  (stepRequesting, requestingDeadline);
  (stepAwaiting, awaitingDeadline);
  (stepShuttingDown, awaitingDeadline);
  (stepStarting, awaitingDeadline);
  (stepCheckingPeers, checkingPeersDeadline);
  (stepShuttingDownNode, nodeShutdownDeadline);
  (stepRefreshingPod, podRefreshDeadline);
  (stepAwaitingPod, podRefreshDeadline);
  (stepRestartingNode, nodeRestartDeadline);
  (stepRebalancing, rebalancingDeadline)].

Definition enterInitialStep {W} (action : string) (machine : Machine string W)
    (now : Time) : KubeSnapshot :=
  let budget :=
    match initialDeadlines !! action with
    | Some budget => budget
    | None => requestingDeadline
    end in
  mkKube (CurrentState machine) (Some (now + budget)%Z) None.

(** [refreshes] is [refreshesPod]: the operation asks for the node's API pod to
    be refreshed as part of the walk. *)
Definition nextStep {W} (refreshes : bool) (machine : Machine string W)
    : res string string :=
  let current := CurrentState machine in
  if String.eqb current stepShuttingDownNode
  then Ok (if refreshes then stepRefreshingPod else stepRestartingNode)
  else
    match AllowedTransitions machine with
    | next :: _ => Ok next
    | [] => Err current
    end.

Definition observeStep (stored : KubeSnapshot) (current : string) (now : Time)
    : option Duration :=
  step_elapsed (stepBudgets !! current) stored now.

End Cluster.

(** ** Discovery runs and the expansion of a deployment document
    ([controllers/deployment/operatorops_graphs.go], [expansion.go]) *)

Module Deployment.

Definition stepInspecting : string := "Inspecting".
Definition stepProbing : string := "Probing".
Definition stepWriting : string := "Writing".
Definition actionDiscover : string := "Discover".
Definition inspectingDeadline : Duration := (5 * Minute)%Z.
Definition writingDeadline : Duration := (5 * Minute)%Z.
Definition probingDeadline : Duration := (15 * Minute)%Z.
Definition stepValidating : string := "Validating".
Definition stepCreatingCluster : string := "CreatingCluster".
Definition stepAwaitingCluster : string := "AwaitingCluster".
Definition stepCreatingNodes : string := "CreatingNodes".
Definition stepActivating : string := "Activating".
Definition validatingDeadline : Duration := (5 * Minute)%Z.
Definition creatingClusterDeadline : Duration := (5 * Minute)%Z.
Definition awaitingClusterDeadline : Duration := (30 * Minute)%Z.
Definition creatingNodesDeadline : Duration := (10 * Minute)%Z.
Definition activatingDeadline : Duration := (60 * Minute)%Z.

Definition nodesDeadline (members : Z) : Duration :=
  if (1 <? members)%Z
  then wrap64 (creatingNodesDeadline + wrap64 ((members - 1) * activatingDeadline))
  else creatingNodesDeadline.

Section Graphs.

Context {W : Type}.

Definition operatorOpsGraphs : gmap string (Config string W) := list_to_map [
  (actionDiscover, mkGraph stepInspecting [
      (stepInspecting, mkStateDef [stepProbing] true (deadline inspectingDeadline));
      (stepProbing, mkStateDef [stepWriting] true (deadline probingDeadline));
      (stepWriting, mkStateDef [] true (deadline writingDeadline))])].

Definition expansionGraph (members : Z) : Config string W :=
  mkGraph stepValidating [
    (stepValidating, mkStateDef [stepCreatingCluster] false (deadline validatingDeadline));
    (stepCreatingCluster, mkStateDef [stepAwaitingCluster] false (deadline creatingClusterDeadline));
    (stepAwaitingCluster, mkStateDef [stepCreatingNodes] false (deadline awaitingClusterDeadline));
    (stepCreatingNodes, mkStateDef [stepActivating] false (deadline (nodesDeadline members)));
    (stepActivating, mkStateDef [] false (deadline activatingDeadline))].

(** The graphs are lines, so the first edge is the only edge. *)
Definition nextDiscoveryStep (machine : Machine string W) : string * bool :=
  match AllowedTransitions machine with
  | next :: _ => (next, true)
  | [] => (CurrentState machine, false)
  end.

Definition nextStep (machine : Machine string W) : res string string :=
  match AllowedTransitions machine with
  | next :: _ => Ok next
  | [] => Err (CurrentState machine)
  end.

End Graphs.

Definition initialDiscoveryDeadline : Duration := inspectingDeadline.

Definition begin (initial : string) (stored : KubeSnapshot) (now : Time)
    : KubeSnapshot :=
  mkKube initial (Some (now + initialDiscoveryDeadline)%Z) (kube_Claim stored).

End Deployment.

(** ** Restoring a backup ([controllers/backup/restore.go]) *)

Module Backup.

Definition stepValidating : string := "Validating".
Definition stepRestoring : string := "Restoring".
Definition stepAwaitingVolume : string := "AwaitingVolume".
Definition stepAwaitingVolumes : string := "AwaitingVolumes".
Definition stepBinding : string := "Binding".
Definition actionRestore : string := "Restore".
Definition validatingDeadline : Duration := (2 * Minute)%Z.
Definition restoringDeadline : Duration := (10 * Minute)%Z.
Definition awaitingVolumeDeadline : Duration := (24 * Hour)%Z.
Definition bindingDeadline : Duration := (15 * Minute)%Z.

Section Graphs.

Context {W : Type}.

Definition restoreGraph : gmap string (Config string W) := list_to_map [
  (actionRestore, mkGraph stepValidating [
      (stepValidating, mkStateDef [stepRestoring] true (deadline validatingDeadline));
      (stepRestoring, mkStateDef [stepAwaitingVolume; stepAwaitingVolumes] true (deadline restoringDeadline));
      (stepAwaitingVolume, mkStateDef [stepBinding] false (deadline awaitingVolumeDeadline));
      (stepAwaitingVolumes, mkStateDef [stepBinding] false (deadline awaitingVolumeDeadline));
      (stepBinding, mkStateDef [] false (deadline bindingDeadline))])].

End Graphs.

Definition initialDeadline : Duration := validatingDeadline.

Definition unabortableSteps : list string := UnabortableMultiStates (restoreGraph (W := unit)).

Definition enterInitialStep {W} (machine : Machine string W) (now : Time)
    : KubeSnapshot :=
  mkKube (CurrentState machine) (Some (now + initialDeadline)%Z) None.

End Backup.

(** ** Restoring a group snapshot
    ([controllers/consistencygroup/volumegroupsnapshotops_controller.go]) *)

Module GroupSnapshot.

Definition stepValidating : string := "Validating".
Definition stepCreatingClaims : string := "CreatingClaims".
Definition stepWaitingForBind : string := "WaitingForBind".

Section Graphs.

Context {W : Type}.

Definition stepGraphs : gmap string (Config string W) := list_to_map [
  ("Restore", mkGraph stepValidating [
      (stepValidating, mkStateDef [stepCreatingClaims] false None);
      (stepCreatingClaims, mkStateDef [stepWaitingForBind] false None);
      (stepWaitingForBind, mkStateDef [] false None)])].

End Graphs.

End GroupSnapshot.

(** ** The failover drill and the NFS export
    ([controller/testfailover_controller.go], [controller/nfsexport_controller.go]) *)

Module Drill.

Definition testFailoverStepTimeout : Duration := (15 * Minute)%Z.

Section Graphs.

Context {W : Type}.

Definition testFailoverGraph : Config string W :=
  mkGraph "ResolvingSource" [
    ("ResolvingSource", mkStateDef ["ResolvingPoint"] false (deadline testFailoverStepTimeout));
    ("ResolvingPoint", mkStateDef ["Shipping"; "Cloning"] false (deadline testFailoverStepTimeout));
    ("Shipping", mkStateDef ["Cloning"] false (deadline testFailoverStepTimeout));
    ("Cloning", mkStateDef ["Placing"] false (deadline testFailoverStepTimeout));
    ("Placing", mkStateDef [] false (deadline testFailoverStepTimeout))].

End Graphs.

End Drill.

Module NFSExport.

Definition phasePending : string := "Pending".
Definition phaseAssembling : string := "Assembling".
Definition phaseReady : string := "Ready".
Definition phaseDegraded : string := "Degraded".
Definition nfsExportNoHostRequeue : Duration := (30 * Second)%Z.
Definition nfsExportNoSessionRequeue : Duration := (10 * Second)%Z.
Definition nfsExportAssembleDeadline : Duration := (5 * Minute)%Z.
Definition nfsExportFreshCopyRequeue : Duration := (Second)%Z.

Section Graphs.

Context {W : Type}.

Definition exportPhases : Config string W :=
  mkGraph phasePending [
    (phasePending, mkStateDef [phaseAssembling; phaseDegraded] false None);
    (phaseAssembling, mkStateDef [phaseReady; phaseDegraded] false (deadline nfsExportAssembleDeadline));
    (phaseReady, mkStateDef [phaseDegraded] false None);
    (phaseDegraded, mkStateDef [] false None)].

End Graphs.

End NFSExport.

(** ** The operation kinds, and what is asked of their graphs *)

(** A kind of operation, as its controller uses it: its graphs, the status its
    first pass writes, how a pass enters the next step (the step as each of its writes
    of the status has it, in order) and whether it writes the step ahead of its
    deadline, and the steps its DELETE guard refuses to delete from. *)
Record Kind (W : Type) := mkKind {
  k_graphs : gmap string (Config string W);
  k_begin : string -> Machine string W -> Time -> KubeSnapshot;
  k_enter : (W -> Time) -> Machine string W -> W -> Context -> string -> KubeSnapshot ->
    Machine string W * W * list KubeSnapshot;
  k_ahead : bool;
  k_unabortable : list string;
}.
Arguments mkKind {W}.
Arguments k_graphs {W}.
Arguments k_begin {W}.
Arguments k_enter {W}.
Arguments k_ahead {W}.
Arguments k_unabortable {W}.

Definition unset : KubeSnapshot := mkKube "" None None.

(** The writes of a pass that makes at most one. *)
Definition one_write {W} (entered : Machine string W * W * option KubeSnapshot)
    : Machine string W * W * list KubeSnapshot :=
  let '(machine, w, kube) := entered in (machine, w, option_list kube).

Definition afterwards {W} (clock : W -> Time) (machine : Machine string W) (w : W)
    (ctx : Context) (next : string) (stored : KubeSnapshot)
    : Machine string W * W * list KubeSnapshot :=
  one_write (enterStep clock machine w ctx next).

Definition in_place {W} (clock : W -> Time) (machine : Machine string W) (w : W)
    (ctx : Context) (next : string) (stored : KubeSnapshot)
    : Machine string W * W * list KubeSnapshot :=
  one_write (enterInPlace clock machine w ctx next stored).

Definition ahead {W} (clock : W -> Time) (machine : Machine string W) (w : W)
    (ctx : Context) (next : string) (stored : KubeSnapshot)
    : Machine string W * W * list KubeSnapshot :=
  enterAhead clock machine w ctx next.

(** The kinds whose steps are bounded, for a volume whose subsystem holds
    [members] volumes. *)
Definition kinds {W} (members : Z) : list (Kind W) := [
  mkKind Node.graphs Node.enterInitialStep afterwards false Node.UnabortableSteps;
  mkKind Device.storageDeviceOpsGraphs
    (fun action m => Device.begin action (CurrentState m) unset) in_place false
    Device.UnabortableDeviceSteps;
  mkKind ControlPlane.opsGraphs ControlPlane.enterInitialStep afterwards false
    ControlPlane.UnabortableSteps;
  mkKind (Volume.graphs members) (fun _ => Volume.enterInitialStep) ahead true
    Volume.UnabortableSteps;
  mkKind Cluster.graphs Cluster.enterInitialStep afterwards false Cluster.UnabortableSteps;
  mkKind Deployment.operatorOpsGraphs (fun _ m => Deployment.begin (CurrentState m) unset)
    in_place false [];
  mkKind Backup.restoreGraph (fun _ => Backup.enterInitialStep) ahead true
    Backup.unabortableSteps].

(** The entities' own graphs, which have no action to choose one by, and the
    restore of a group snapshot, whose steps set no deadline and cannot be
    aborted. *)
Definition entities {W} (members : Z) : list (Config string W) :=
  Node.provisioningGraph :: ControlPlane.installGraph :: Cluster.creationGraph ::
  Deployment.expansionGraph members :: Drill.testFailoverGraph :: NFSExport.exportPhases ::
  (map_to_list GroupSnapshot.stepGraphs).*2.

(** A member count whose deadlines fit an [int64] of nanoseconds: the largest,
    [Volume.replicatingDeadline], wraps around past five million volumes in one
    subsystem. *)
Definition countable (members : Z) : Prop := (- 2 ^ 31 <= members <= 5000000)%Z.

Section Queries.

Context {W : Type}.

Implicit Types (c : Config string W) (s t : string).

(** The declared edges of a graph. *)
Definition edge c s t : Prop :=
  exists def, States c !! s = Some def /\ t ∈ To def.

Definition edges c : list (string * string) :=
  '(s, def) ← map_to_list (States c); t ← To def; [(s, t)].

Definition successors c s : list string :=
  match States c !! s with Some def => To def | None => [] end.

Definition abortable_in c s : bool :=
  match States c !! s with Some def => Abortable def | None => false end.

Definition declared c : list string := (map_to_list (States c)).*1.

(** The longest walk out of a state, cut off at the fuel. *)
Fixpoint height (fuel : nat) c s : nat :=
  match fuel with
  | O => O
  | S fuel => foldr (fun t h => S (height fuel c t) `max` h) O (successors c s)
  end.

(** The states a walk of at most [fuel] edges leads to. *)
Fixpoint walks (fuel : nat) c s : list string :=
  s :: match fuel with
       | O => []
       | S fuel => t ← successors c s; walks fuel c t
       end.

Definition acyclic c : bool :=
  let fuel := pred (size (States c)) in
  forallb (fun '(s, t) => Nat.ltb (height fuel c t) (height fuel c s)) (edges c).

Definition no_dead_end c : bool :=
  let fuel := size (States c) in
  forallb (fun s => contains (walks fuel c (Initial c)) s &&
      existsb (fun t => Nat.eqb (length (successors c t)) 0 && contains (declared c) t)
        (walks fuel c s))
    (declared c).

Definition no_return c : bool :=
  forallb (fun '(s, t) => abortable_in c s || negb (abortable_in c t)) (edges c).

Definition is_valid c : bool :=
  match validate c with None => true | Some _ => false end.

(** Every state is entered with a positive budget. *)
Definition bounded c : Prop :=
  map_Forall (fun _ def => exists d, OnEnter def = deadline d /\ (0 < d)%Z) (States c).

Lemma elem_of_edges c s t : (s, t) ∈ edges c <-> edge c s t.
Proof.
  unfold edges, edge. rewrite list_elem_of_bind. split.
  - intros ([s' def] & Hin & Hm). rewrite list_elem_of_bind in Hin.
    destruct Hin as (t' & Hin & Ht). apply list_elem_of_singleton in Hin. simplify_eq.
    rewrite elem_of_map_to_list in Hm. eauto.
  - intros (def & Hs & Ht). exists (s, def). rewrite elem_of_map_to_list. split; [|done].
    rewrite list_elem_of_bind. exists t. split; [by apply list_elem_of_singleton | done].
Qed.

Lemma elem_of_declared c s : s ∈ declared c <-> is_Some (States c !! s).
Proof.
  unfold declared. rewrite list_elem_of_fmap. split.
  - intros ([s' def] & -> & Hin). apply elem_of_map_to_list in Hin. by eexists.
  - intros [def Hs]. exists (s, def). by rewrite elem_of_map_to_list.
Qed.

Lemma edge_successors c s t : edge c s t <-> t ∈ successors c s.
Proof.
  unfold edge, successors. destruct (States c !! s) as [def|]; split.
  - intros (? & [= <-] & ?). done.
  - eauto.
  - intros (? & [=] & _).
  - intros H. by apply not_elem_of_nil in H.
Qed.

Lemma edges_forallb c (p : string * string -> bool) s t :
  forallb p (edges c) = true -> edge c s t -> p (s, t) = true.
Proof.
  intros H He%elem_of_edges. rewrite forallb_forall in H. apply H.
  by apply list_elem_of_In.
Qed.

Lemma height_bound fuel c s : height fuel c s <= fuel.
Proof.
  revert s. induction fuel as [|fuel IH]; intros s; simpl; [done|].
  induction (successors c s) as [|t l IHl]; simpl; [lia|]. specialize (IH t). lia.
Qed.

Lemma acyclic_nsteps c n s t :
  acyclic c = true -> nsteps (edge c) n s t ->
  n + height (pred (size (States c))) c t <= height (pred (size (States c))) c s.
Proof.
  intros Ha. induction 1 as [s|n s u t He _ IH]; [lia|].
  eapply edges_forallb in He; [|exact Ha]. apply Nat.ltb_lt in He. lia.
Qed.

Lemma walks_sound fuel c s t : t ∈ walks fuel c s -> rtc (edge c) s t.
Proof.
  revert s. induction fuel as [|fuel IH]; intros s; simpl.
  - intros ->%list_elem_of_singleton. done.
  - intros [->|Hin]%elem_of_cons; [done|]. rewrite list_elem_of_bind in Hin.
    destruct Hin as (u & Hu & Hs). eapply rtc_l; [by apply edge_successors|]. by apply IH.
Qed.

Lemma validate_is_valid c : is_valid c = true -> validate c = None.
Proof. unfold is_valid. by destruct (validate c). Qed.

Lemma no_return_edge c s t :
  no_return c = true -> edge c s t -> abortable_in c s = false -> abortable_in c t = false.
Proof.
  intros Hn He Hs. eapply edges_forallb in He; [|exact Hn]. simpl in He. rewrite Hs in He.
  by apply negb_true_iff in He.
Qed.

Lemma CanAbort_abortable_in c (m : Machine string W) :
  m_states m = States c -> CanAbort m = abortable_in c (CurrentState m).
Proof. unfold CanAbort, abortable_in, CurrentState. by intros ->. Qed.

Lemma exits_edge c (m : Machine string W) t :
  m_states m = States c -> t ∈ exits m <-> edge c (CurrentState m) t.
Proof.
  intros Hm. rewrite edge_successors. unfold exits, successors, CurrentState.
  rewrite Hm. by destruct (States c !! m_current m).
Qed.

End Queries.

(** ** The checks, evaluated on every graph *)

Lemma list_to_map_Forall {A} (P : string -> A -> Prop) (l : list (string * A)) :
  Forall (fun kv => P kv.1 kv.2) l -> map_Forall P (list_to_map l : gmap string A).
Proof.
  intros H k x Hk. apply elem_of_list_to_map_2 in Hk. rewrite Forall_forall in H.
  by apply (H (k, x)).
Qed.

Definition every_config {W} (p : string -> Config string W -> bool)
    (mc : gmap string (Config string W)) : bool :=
  forallb (fun '(a, c) => p a c) (map_to_list mc).

Lemma every_config_spec {W} p (mc : gmap string (Config string W)) a c :
  every_config p mc = true -> mc !! a = Some c -> p a c = true.
Proof.
  intros H Ha%elem_of_map_to_list%list_elem_of_In.
  unfold every_config in H. rewrite forallb_forall in H. exact (H _ Ha).
Qed.

(** What is asked of a kind's graphs, and of its DELETE guard's table. *)
Definition kind_ok {W} (k : Kind W) : bool :=
  every_config (fun _ c => is_valid c && no_dead_end c) (k_graphs k) &&
  every_config (fun _ c =>
      forallb (fun s => eqb (abortable_in c s) (negb (contains (k_unabortable k) s)))
        (declared c)) (k_graphs k).

Lemma kinds_ok {W} members : forallb kind_ok (kinds (W := W) members) = true.
Proof. vm_compute. reflexivity. Qed.

(** The one graph an abort becomes possible again in, and the one with a
    cycle. *)
Definition walks_on (a : string) : bool := String.eqb a "RollingRestart".
Definition cycles (a : string) : bool := String.eqb a "Relocate".

Lemma kinds_no_return {W} members :
  forallb (fun k => every_config (fun a c => walks_on a || no_return c) (k_graphs k))
    (kinds (W := W) members) = true.
Proof. vm_compute. reflexivity. Qed.

Lemma kinds_acyclic {W} members :
  forallb (fun k => every_config (fun a c => cycles a || acyclic c) (k_graphs k))
    (kinds (W := W) members) = true.
Proof. vm_compute. reflexivity. Qed.

Lemma entities_ok {W} members :
  forallb (fun c => is_valid c && no_dead_end c) (entities (W := W) members) = true.
Proof. vm_compute. reflexivity. Qed.

(** ** Budgets *)

(** The budget a graph enters a state with. *)
Definition enters_with {W} (c : Config string W) (s : string) (d : Duration) : Prop :=
  exists def, States c !! s = Some def /\ OnEnter def = deadline d.

(** The graph of every action enters every state with the table's budget. *)
Definition tabled {W} (budgets : gmap string Duration) (c : Config string W) : Prop :=
  map_Forall (fun s def => exists d, OnEnter def = deadline d /\ budgets !! s = Some d)
    (States c).

Ltac each_state :=
  lazymatch goal with
  | |- Forall _ [] => apply Forall_nil_2
  | |- Forall _ (_ :: _) => apply Forall_cons_2; [cbv beta|]; each_state
  | |- map_Forall _ _ => apply list_to_map_Forall; each_state
  | |- _ => idtac
  end.

(** A pass may enter a step: the machine is open, nothing is being entered, and the graph has
    the edge. *)
Definition may_enter {W} (clock : W -> Time) (c : Config string W) (m : Machine string W) w next : Prop :=
  ctx_Err (base m) (clock w) = None /\ m_entering m = None /\ edge c (CurrentState m) next.

Lemma decide_may_enter {W} (clock : W -> Time) (c : Config string W) m w next :
  may_enter clock c m w next \/ ~ may_enter clock c m w next.
Proof.
  unfold may_enter. destruct (ctx_Err (base m) (clock w)); [by right; intros []|].
  destruct (m_entering m); [by right; intros (_ & [=] & _)|].
  destruct (decide (next ∈ successors c (CurrentState m))) as [H|H];
    rewrite <- (edge_successors c) in H; [by left|by right; intros (_ & _ & ?)].
Qed.

(** One pass over a machine of a graph: a transition is made exactly where it may be, and arms
    the step's budget from now. *)
Lemma transition_enters {W} (clock : W -> Time) c (m : Machine string W) w ctx next d :
  m_states m = States c -> ctx_deadline (m_parent m) = None -> (0 <= clock w)%Z ->
  enters_with c next d -> (0 < d)%Z -> may_enter clock c m w next ->
  exists m', TransitionTo clock m w ctx next = (m', w, TransitionDone) /\
    CurrentState m' = next /\ m_states m' = States c /\
    snapshotDeadline m' = Some (clock w + d)%Z.
Proof.
  intros Hm Hp Hw (def & Hs & Hd) Hpos (Hb & He & Hto).
  unfold TransitionTo. rewrite (proj2 (transition_guard_None m next (clock w))) by done.
  pose proof Hto as (def0 & H0 & Hin). rewrite Hm. unfold CurrentState in H0. rewrite H0.
  apply contains_true in Hin. rewrite Hin.
  unfold enter. rewrite Hm, Hs. simpl. rewrite Hd. simpl. eexists. split; [done|].
  split; [done|]. split; [done|]. unfold snapshotDeadline, ToKube. simpl.
  rewrite arm_deadline. simpl. rewrite Hp. simpl. rewrite (proj2 (Z.ltb_lt 0 d)) by done. simpl.
  unfold IsZero, zero_time. by rewrite (proj2 (Z.eqb_neq _ 0)) by lia.
Qed.

Lemma transition_refused {W} (clock : W -> Time) c (m : Machine string W) w ctx next :
  m_states m = States c -> ~ may_enter clock c m w next ->
  exists r, TransitionTo clock m w ctx next = (m, w, r) /\ r <> TransitionDone.
Proof.
  intros Hm Hno. unfold TransitionTo.
  destruct (transition_guard m next (clock w)) eqn:Eg; [by eexists|].
  apply transition_guard_None in Eg as [Hb He].
  destruct (m_states m !! m_current m) as [def|] eqn:Es; [|by eexists].
  destruct (contains (To def) next) eqn:Ec; [|by eexists].
  destruct Hno. do 2 (split; [done|]). exists def. rewrite <- Hm. split; [done|]. by apply contains_true.
Qed.

Lemma enterStep_enters {W} (clock : W -> Time) c (m : Machine string W) w ctx next m' w' kube d :
  m_states m = States c -> ctx_deadline (m_parent m) = None -> (0 <= clock w)%Z ->
  enters_with c next d -> (0 < d)%Z ->
  enterStep clock m w ctx next = (m', w', Some kube) ->
  kube = mkKube next (Some (clock w + d)%Z) None.
Proof.
  intros Hm Hp Hw Hd Hpos E. unfold enterStep in E.
  destruct (TransitionTo clock m w ctx next) as [[m1 w1] []] eqn:Et; simplify_eq.
  pose proof (transition_done_inv _ _ _ _ _ _ _ Et) as ([Hb He]%transition_guard_None & Hto & _).
  destruct (transition_enters clock c m w ctx next d) as (m2 & Et' & _ & _ & HD); try done.
  { split; [done|]. split; [done|]. by apply (exits_edge c) in Hto. }
  rewrite Et' in Et. simplify_eq. unfold recordStep. by rewrite HD.
Qed.

Lemma memberDeadline_exact base per members :
  (0 <= base <= 2 * Hour)%Z -> (0 <= per <= 30 * Minute)%Z -> countable members ->
  wrap64 (base + wrap64 (Z.max 1 members * per)) = (base + Z.max 1 members * per)%Z.
Proof.
  unfold countable, Hour, Minute, Second. intros Hb Hp Hm.
  set (n := Z.max 1 members). assert (Hn : (1 <= n <= 5000000)%Z) by lia.
  assert (0 <= n * per <= 5000000 * (30 * (60 * 1000000000)))%Z by nia.
  rewrite (wrap64_id (n * per)), wrap64_id; unfold int64_min, int64_max; lia.
Qed.

Lemma at_least_one members :
  (if (members <? 1)%Z then 1%Z else members) = Z.max 1 members.
Proof. destruct (Z.ltb_spec members 1); lia. Qed.

Lemma copyDeadline_eq members : countable members ->
  Volume.copyDeadline members = (30 * Minute + Z.max 1 members * (10 * Minute))%Z.
Proof.
  intros H. unfold Volume.copyDeadline. rewrite at_least_one.
  apply memberDeadline_exact; [..|done]; done.
Qed.

Lemma replicatingDeadline_eq members : countable members ->
  Volume.replicatingDeadline members = (2 * Hour + Z.max 1 members * (30 * Minute))%Z.
Proof.
  intros H. unfold Volume.replicatingDeadline. rewrite at_least_one.
  apply memberDeadline_exact; [..|done]; done.
Qed.

#[local] Hint Extern 0 (_ < _)%Z => reflexivity : sb.

Lemma copyDeadline_pos members : countable members -> (0 < Volume.copyDeadline members)%Z.
Proof. intros H. rewrite copyDeadline_eq by done. unfold Minute, Second. lia. Qed.

Lemma replicatingDeadline_pos members :
  countable members -> (0 < Volume.replicatingDeadline members)%Z.
Proof. intros H. rewrite replicatingDeadline_eq by done. unfold Hour, Minute, Second. lia. Qed.

#[local] Hint Resolve copyDeadline_pos replicatingDeadline_pos : sb.

Lemma kinds_bounded {W} members : countable members ->
  Forall (fun k => map_Forall (fun _ c => bounded c) (k_graphs k)) (kinds (W := W) members).
Proof.
  intros Hm. unfold bounded.
  unfold kinds. rewrite !Forall_cons, Forall_nil. split_and!; try done;
    each_state; (eexists; split; [reflexivity | auto with sb]).
Qed.

Lemma kinds_begin {W} members :
  Forall (fun k => map_Forall (fun a c => exists d, (0 < d)%Z /\
      enters_with c (Initial c) d /\
      forall m now, k_begin k a m now = mkKube (CurrentState m) (Some (now + d)%Z) None)
    (k_graphs k)) (kinds (W := W) members).
Proof.
  unfold kinds. rewrite !Forall_cons, Forall_nil. split_and!; try done; each_state;
    (eexists; split; [|split; [eexists; split; [reflexivity|reflexivity]|reflexivity]];
     reflexivity).
Qed.

Lemma graphs_tabled {W} :
  map_Forall (fun _ c => tabled Node.stepBudgets c) (Node.graphs (W := W)) /\
  map_Forall (fun _ c => tabled Cluster.stepBudgets c) (Cluster.graphs (W := W)) /\
  tabled ControlPlane.installStepBudgets (ControlPlane.installGraph (W := W)).
Proof.
  unfold tabled. split; [|split]; each_state; (eexists; split; reflexivity).
Qed.

Lemma kind_config {W} members (k : Kind W) a c :
  k ∈ kinds members -> k_graphs k !! a = Some c ->
  validate c = None /\ no_dead_end c = true /\
  (forall s, is_Some (States c !! s) ->
     abortable_in c s = negb (contains (k_unabortable k) s)).
Proof.
  intros Hk Hc. pose proof (kinds_ok (W := W) members) as Hok.
  rewrite forallb_forall in Hok. apply list_elem_of_In in Hk.
  specialize (Hok k Hk). unfold kind_ok in Hok. apply andb_true_iff in Hok as [Hv Hu].
  pose proof (every_config_spec _ _ _ _ Hv Hc) as [H1 H2]%andb_true_iff. split; [by apply validate_is_valid|]. split; [done|].
  intros s Hs%elem_of_declared%list_elem_of_In.
  pose proof (every_config_spec _ _ _ _ Hu Hc) as Hs'. rewrite forallb_forall in Hs'.
  apply eqb_prop. by apply Hs'.
Qed.

(** The budget of a step an edge leads to. *)
Lemma step_budget {W} members (k : Kind W) a c (m : Machine string W) next :
  countable members -> k ∈ kinds members -> k_graphs k !! a = Some c ->
  edge c (CurrentState m) next -> exists d, enters_with c next d /\ (0 < d)%Z.
Proof.
  intros Hcount Hk Ha (def0 & H0 & Hin).
  pose proof (kinds_bounded (W := W) members Hcount) as H. rewrite Forall_forall in H.
  destruct (proj1 (validate_None c)) as [_ Hcl]; [by apply (kind_config _ _ _ _ Hk Ha)|].
  destruct (Hcl _ _ _ H0 Hin) as [def Hdef]. destruct (H k Hk a c Ha next def Hdef) as (d & Hd & Hpos).
  exists d. split; [|done]. by exists def.
Qed.

Lemma no_dead_end_spec {W} (c : Config string W) s :
  no_dead_end c = true -> is_Some (States c !! s) ->
  rtc (edge c) (Initial c) s /\
  exists t, rtc (edge c) s t /\ is_Some (States c !! t) /\ successors c t = [].
Proof.
  intros H Hs%elem_of_declared%list_elem_of_In. unfold no_dead_end in H.
  rewrite forallb_forall in H. apply H, andb_true_iff in Hs as [H1 H2].
  apply contains_true, walks_sound in H1. split; [done|].
  apply existsb_exists in H2 as (t & Hin & [H3 H4]%andb_true_iff).
  apply list_elem_of_In, walks_sound in Hin. apply contains_true, elem_of_declared in H4.
  apply Nat.eqb_eq, nil_length_inv in H3. eauto.
Qed.

(** ** What holds of every kind *)

(** Every kind's graphs are sound as declared: a machine can be built for an
    action exactly when the kind declares it, it starts in the declared initial
    step with the deadline of the context it was built under and no other, and
    an action the kind does not declare is reported as that and as nothing
    else. *)
Theorem kinds_build {W} members (k : Kind W) ctx a :
  k ∈ kinds members ->
  match k_graphs k !! a with
  | Some c => exists m, MultiNew (k_graphs k) ctx a = Ok m /\
      CurrentState m = Initial c /\ m_states m = States c /\ Deadline m = ctx_deadline ctx
  | None => MultiNew (k_graphs k) ctx a = Err (ErrUnknownAction a)
  end.
Proof.
  intros Hk. unfold MultiNew. rewrite configFor_valid.
  2: { intros b c Hb. by apply (kind_config _ _ _ _ Hk) in Hb as [? _]. }
  destruct (k_graphs k !! a) as [c|] eqn:Ha; [|done].
  apply (kind_config _ _ _ _ Hk) in Ha as [Hv _]. eexists.
  split; [by apply New_Ok|]. split; [done|]. split; [done|].
  unfold Deadline, stateCtx, base; simpl. by rewrite !omin_None_r.
Qed.

(** The first step can time out too: a machine is born already in its
    initial step, so that step's entry hook never runs, and the deadline the
    first pass writes by hand is exactly the one the hook would have set, a
    positive budget from now. *)
Theorem first_step_bounded {W} members (k : Kind W) a c ctx m now :
  k ∈ kinds members -> k_graphs k !! a = Some c -> MultiNew (k_graphs k) ctx a = Ok m ->
  exists d, (0 < d)%Z /\ enters_with c (Initial c) d /\
    k_begin k a m now = mkKube (Initial c) (Some (now + d)%Z) None.
Proof.
  intros Hk Ha. unfold MultiNew. rewrite configFor_valid, Ha.
  2: { intros b c' Hb. by apply (kind_config _ _ _ _ Hk) in Hb as [? _]. }
  intros [_ ->]%New_Ok. pose proof (kinds_begin (W := W) members) as H.
  rewrite Forall_forall in H. destruct (H k Hk a c Ha) as (d & Hd & He & Hb).
  exists d. by rewrite Hb.
Qed.

(** C30. Entering a step of the seven kinds of [kinds], kind by kind as its controller does it.
    Where the machine is open, enters nothing and has the edge, the pass's last write of the
    status is the new step with the step's own positive budget counted from now; elsewhere the
    machine is left as it was and no such write is made.  For five of the kinds that is the only
    write, so that none of their steps is ever stored without a deadline.  A volume's operation
    and a restore write the step without a deadline ahead of it, and do so even where the
    transition is refused then.  It concerns a pass that gets to this point; what the writes
    become on the server is not part of it. *)
Theorem every_step_bounded {W} (clock : W -> Time) members (k : Kind W) a c
    (m : Machine string W) w ctx next stored m' w' writes :
  countable members -> k ∈ kinds members -> k_graphs k !! a = Some c ->
  m_states m = States c -> ctx_deadline (m_parent m) = None -> (0 <= clock w)%Z ->
  k_enter k clock m w ctx next stored = (m', w', writes) ->
  (may_enter clock c m w next /\ CurrentState m' = next /\ m_states m' = States c /\
   exists d claim, (0 < d)%Z /\ enters_with c next d /\ claim ∈ [None; kube_Claim stored] /\
     writes = ((if k_ahead k then [recordStep next None] else []) ++
       [mkKube next (Some (clock w + d)%Z) claim])%list) \/
  (~ may_enter clock c m w next /\ m' = m /\
   writes = if k_ahead k then [recordStep next None] else []).
Proof.
  intros Hcount Hk Ha Hm Hp Hw.
  assert (Hs : (k_enter k = afterwards \/ k_enter k = in_place) /\ k_ahead k = false \/
    k_enter k = ahead /\ k_ahead k = true).
  { unfold kinds in Hk. repeat (apply elem_of_cons in Hk as [->|Hk]; [by auto|]).
    by apply not_elem_of_nil in Hk. }
  destruct (decide_may_enter clock c m w next) as [Hmay|Hno].
  - destruct (step_budget members k a c m next) as (d & He & Hpos); [done..|apply Hmay|].
    destruct (transition_enters clock c m w ctx next d) as (m2 & Et & Hc & Hst & HD); try done.
    destruct Hs as [[[->| ->] ->]|[-> ->]];
      unfold afterwards, in_place, ahead, enterStep, enterInPlace, enterAhead, one_write;
      rewrite Et, HD; intros [= <- <- <-]; left; do 3 (split; [done|]); eexists d, _; do 2 (split; [done|]);
      (split; [|done]); rewrite !elem_of_cons; auto.
  - destruct (transition_refused clock c m w ctx next Hm Hno) as (r & Et & Hr).
    destruct Hs as [[[->| ->] ->]|[-> ->]];
      unfold afterwards, in_place, ahead, enterStep, enterInPlace, enterAhead, one_write;
      rewrite Et; destruct r; (done || by intros [= <- <- <-]; right).
Qed.

Lemma unbounded_never_times_out {W} (m : Machine string W) now :
  Deadline m = None -> TimeoutReached m now = false /\ RequeueAfter m now = None.
Proof.
  intros Hd. unfold TimeoutReached, RequeueAfter. rewrite Hd. split; [|done].
  apply andb_false_intro2, bool_decide_eq_false. unfold ctx_Err. unfold Deadline in Hd. rewrite Hd.
  by destruct (ctx_canceled _) as [k|]; [destruct (k <=? now)%Z|].
Qed.

(** What the first of the two writes leaves where the pass ends after it: the step is restored
    without a deadline, and whatever it waits for, it never times out, although the comment on
    [recordStep] says that the two travel together for that reason. *)
Lemma a_step_written_ahead_never_times_out {W} members (k : Kind W) a ctx next now m now' :
  k ∈ kinds members -> k_ahead k = true -> ctx_deadline ctx = None ->
  MultiFromSnapshot "" (k_graphs k) ctx a (FromKube (recordStep next None)) now = Ok m ->
  next <> "" ->
  CurrentState m = next /\ TimeoutReached m now' = false /\ RequeueAfter m now' = None.
Proof.
  intros Hk _ Hp Hm Hne. unfold MultiFromSnapshot in Hm.
  destruct (configFor (k_graphs k) a) as [c|e]; [|done]. simpl in Hm.
  unfold NewFromSnapshot, New, restoreOrStart, Restore in Hm.
  destruct (validate c); [done|]. simpl in Hm. destruct (States c !! next); simpl in Hm;
    [|by rewrite decide_False in Hm].
  simplify_eq. split; [done|]. apply unbounded_never_times_out. rewrite armAt_deadline. simpl.
  by rewrite Hp.
Qed.

(** An abort and a DELETE get the same answer: in every declared step of
    every action, the machine honors an abort exactly when the kind's DELETE
    guard, which has the step and no machine, does not list the step. *)
Theorem abort_and_delete_agree {W} members (k : Kind W) a c (m : Machine string W) :
  k ∈ kinds members -> k_graphs k !! a = Some c -> m_states m = States c ->
  is_Some (States c !! CurrentState m) ->
  CanAbort m = negb (contains (k_unabortable k) (CurrentState m)).
Proof.
  intros Hk Ha Hm Hs. rewrite (CanAbort_abortable_in c) by done.
  by apply (kind_config _ _ _ _ Hk Ha).
Qed.

(** The point of no return is one: once an operation can no longer be
    aborted, no transition makes it abortable again, for every action of every
    kind but a rolling restart, whose one exception is the wait for the cluster
    to settle after the node is back. *)
Theorem no_way_back {W} members (clock : W -> Time) (k : Kind W) a c
    (m : Machine string W) w ctx to m' w' :
  k ∈ kinds members -> k_graphs k !! a = Some c -> m_states m = States c ->
  TransitionTo clock m w ctx to = (m', w', TransitionDone) ->
  CanAbort m = false ->
  m_states m' = States c /\
  (CanAbort m' = false \/ a = "RollingRestart" /\ to = Cluster.stepRebalancing).
Proof.
  intros Hk Ha Hm (Hg%transition_guard_None & Hto & m1 & timeout & En & ->)%transition_done_inv Hab.
  destruct Hg as [_ He]. destruct (enter_frame _ _ _ _ _ _ _ _ _ He En) as ((_ & Hs & _) & _).
  assert (Hm' : m_states (arm (set_current m1 to) timeout (clock w')) = States c)
    by (simpl; congruence).
  split; [done|]. rewrite (CanAbort_abortable_in c) in Hab |- * by done.
  rewrite exits_edge in Hto by done.
  destruct (walks_on a) eqn:Hw.
  2: { left. eapply no_return_edge; [|done..].
       pose proof (kinds_no_return (W := W) members) as H. rewrite forallb_forall in H.
       apply list_elem_of_In in Hk. specialize (H k Hk).
       apply (every_config_spec _ _ _ _ H) in Ha. by rewrite Hw in Ha. }
  apply String.eqb_eq in Hw as ->. change (CurrentState _) with to.
  assert (Hr : forallb (fun k : Kind W => every_config (fun a c => negb (walks_on a) ||
      forallb (fun '(s, t) => abortable_in c s || negb (abortable_in c t) ||
         String.eqb t Cluster.stepRebalancing) (edges c)) (k_graphs k)) (kinds members) = true)
    by (vm_compute; reflexivity).
  rewrite forallb_forall in Hr. apply list_elem_of_In in Hk.
  pose proof (every_config_spec _ _ _ _ (Hr k Hk) Ha) as Hc. simpl in Hc.
  eapply edges_forallb in Hc; [|exact Hto]. simpl in Hc. rewrite Hab in Hc.
  apply orb_true_iff in Hc as [Hc|Hc]; [left; by apply negb_true_iff | right].
  by apply String.eqb_eq in Hc.
Qed.

(** Operations end: no walk through the steps of an action is as long as
    the number of its steps, so none visits a step twice, except a relocation's,
    whose volumes are cut over one at a time. *)
Theorem walks_end {W} members (k : Kind W) a c n s t :
  k ∈ kinds members -> k_graphs k !! a = Some c -> a <> "Relocate" ->
  is_Some (States c !! s) -> nsteps (edge c) n s t -> n < size (States c).
Proof.
  intros Hk Ha Hne [def Hs] Hn. pose proof (kinds_acyclic (W := W) members) as H.
  rewrite forallb_forall in H. apply list_elem_of_In in Hk. specialize (H k Hk).
  apply (every_config_spec _ _ _ _ H) in Ha. unfold cycles in Ha.
  rewrite (proj2 (String.eqb_neq a "Relocate") Hne) in Ha.
  eapply acyclic_nsteps in Hn; [|exact Ha].
  pose proof (height_bound (pred (size (States c))) c s).
  assert (size (States c) <> 0). { intros He%map_size_empty_inv. by rewrite He in Hs. }
  lia.
Qed.

(** C39. No step is a trap and none is out of reach: in the graph of every
    action and of every entity, each declared step is reached from the initial
    one, and from each a step with no successor is reached. *)
Theorem no_step_is_a_trap {W} members (c : Config string W) s :
  c ∈ entities members \/
    (exists (k : Kind W) a, k ∈ kinds members /\ k_graphs k !! a = Some c) ->
  is_Some (States c !! s) ->
  rtc (edge c) (Initial c) s /\
  exists t, rtc (edge c) s t /\ is_Some (States c !! t) /\ successors c t = [].
Proof.
  intros [Hc|(k & a & Hk & Ha)]; apply no_dead_end_spec.
  - pose proof (entities_ok (W := W) members) as H. rewrite forallb_forall in H.
    apply list_elem_of_In in Hc. by apply H, andb_true_iff in Hc as [_ ?].
  - by apply (kind_config _ _ _ _ Hk Ha).
Qed.

(** ** The choices and the measurements of single kinds *)

(** A rolling restart's walk never asks for a step the graph refuses: the
    step chosen is a declared successor, the pod is refreshed exactly when asked,
    and there is no next step only when the node is done. *)
Theorem rolling_restart_walk {W} a c refreshes (m : Machine string W) :
  Cluster.graphs !! a = Some c -> m_states m = States c ->
  is_Some (States c !! CurrentState m) ->
  match Cluster.nextStep refreshes m with
  | Ok next => CanTransitionTo m next = true /\
      (next = Cluster.stepRefreshingPod -> refreshes = true)
  | Err current => current = CurrentState m /\ IsTerminal m = true
  end.
Proof.
  intros Ha Hm Hs%elem_of_declared%list_elem_of_In.
  assert (H : forallb (fun refreshes : bool => every_config (fun _ c => forallb (fun s =>
      match (if String.eqb s Cluster.stepShuttingDownNode
             then [if refreshes then Cluster.stepRefreshingPod else Cluster.stepRestartingNode]
             else successors c s) with
      | next :: _ => contains (successors c s) next &&
          (refreshes || negb (String.eqb next Cluster.stepRefreshingPod))
      | [] => Nat.eqb (length (successors c s)) 0
      end) (declared c)) (Cluster.graphs (W := W))) [true; false] = true)
    by (vm_compute; reflexivity).
  rewrite forallb_forall in H. assert (Hr : In refreshes [true; false])
    by (destruct refreshes; simpl; auto).
  pose proof (every_config_spec _ _ _ _ (H _ Hr) Ha) as Hc. simpl in Hc.
  rewrite forallb_forall in Hc. specialize (Hc _ Hs).
  unfold Cluster.nextStep, AllowedTransitions, CanTransitionTo, IsTerminal.
  replace (exits m) with (successors c (CurrentState m)).
  2: { unfold exits, successors, CurrentState. by rewrite Hm. }
  destruct (String.eqb (CurrentState m) Cluster.stepShuttingDownNode).
  - apply andb_true_iff in Hc as [Hc Hn]. split; [done|].
    intros Hx. apply orb_true_iff in Hn as [Hn|Hn]; [done|].
    by apply negb_true_iff, String.eqb_neq in Hn.
  - destruct (successors c (CurrentState m)) as [|next l]; [done|].
    apply andb_true_iff in Hc as [Hc Hn]. split; [done|].
    intros ->. apply orb_true_iff in Hn as [Hn|Hn]; [done|].
    by apply negb_true_iff, String.eqb_neq in Hn.
Qed.

Lemma cuttingOver_spec volumes i :
  (0 <= i)%Z ->
  (Volume.cuttingOver volumes i = -1 /\ Forall (fun b => b = true) volumes \/
   exists n, volumes !! n = Some false /\ Forall (fun b => b = true) (take n volumes) /\
     Volume.cuttingOver volumes i = (i + Z.of_nat n)%Z)%Z.
Proof.
  revert i. induction volumes as [|[] volumes IH]; intros i Hi; simpl.
  - by left.
  - destruct (IH (i + 1)%Z ltac:(lia)) as [[-> H]|(n & Hn & Hl & ->)].
    + left. split; [done|]. by constructor.
    + right. exists (S n). simpl. split; [done|]. split; [by constructor|lia].
  - right. exists 0. simpl. split; [done|]. split; [by constructor|lia].
Qed.

(** A relocation goes on until every volume is cut over: whichever step it
    is in, the successor it chooses is one the graph allows, and after a release
    it is the next volume's cutover while some volume is not cut over and the
    verification once all of them are. *)
Theorem relocation_cuts_every_volume {W} members volumes c (m : Machine string W) :
  Volume.graphs members !! Volume.actionRelocate = Some c -> m_states m = States c ->
  is_Some (States c !! CurrentState m) -> IsTerminal m = false ->
  CanTransitionTo m (Volume.relocateSuccessor volumes m) = true /\
  (CurrentState m = Volume.stepProceeding ->
     (Volume.relocateSuccessor volumes m = Volume.stepVerifying <->
      Forall (fun cutOver => cutOver = true) volumes)).
Proof.
  intros Ha Hm Hs Ht. unfold Volume.relocateSuccessor, CanTransitionTo.
  assert (Hx : exits m = successors c (CurrentState m)).
  { unfold exits, successors, CurrentState. by rewrite Hm. }
  rewrite Hx. destruct (String.eqb_spec (CurrentState m) Volume.stepProceeding) as [->|Hne].
  - assert (Hsucc : successors c Volume.stepProceeding =
      [Volume.stepAwaitingCutover; Volume.stepVerifying]).
    { assert (E : (Volume.graphs (W := W) members !! Volume.actionRelocate
        ≫= fun c : Config string W => Some (successors c Volume.stepProceeding)) =
        Some [Volume.stepAwaitingCutover; Volume.stepVerifying]) by (vm_compute; reflexivity).
      rewrite Ha in E. by injection E. }
    rewrite Hsucc. destruct (cuttingOver_spec volumes 0 ltac:(done)) as [[-> H]|(n & Hn & _ & ->)].
    + split; [reflexivity|done].
    + rewrite (proj2 (Z.leb_le 0 (0 + Z.of_nat n))) by lia. split; [reflexivity|].
      intros _. split; [discriminate|]. rewrite Forall_lookup. intros H.
      by specialize (H _ _ Hn).
  - split; [|by intros ?]. unfold Volume.firstSuccessor, AllowedTransitions.
    unfold IsTerminal in Ht. rewrite Hx in Ht |- *.
    destruct (successors c (CurrentState m)) as [|next l]; [done|].
    apply contains_true. left.
Qed.

(** The bounds that grow with a subsystem stay bounds: for any number of
    volumes up to five million, the copy's and the initial sync's deadlines are
    the base plus one share per volume, at least one, with nothing lost to the
    64 bits, never below the bound of one volume, and never smaller for more
    volumes. *)
Theorem member_deadlines members more :
  countable members -> countable more -> (members <= more)%Z ->
  Volume.copyDeadline members =
    (Volume.copyBaseDeadline + Z.max 1 members * Volume.copyPerMemberDeadline)%Z /\
  Volume.replicatingDeadline members = (Volume.replicatingBaseDeadline +
    Z.max 1 members * Volume.replicatingPerMemberDeadline)%Z /\
  (Volume.copyDeadline 1 <= Volume.copyDeadline members <= Volume.copyDeadline more)%Z /\
  (Volume.replicatingDeadline 1 <= Volume.replicatingDeadline members
    <= Volume.replicatingDeadline more)%Z.
Proof.
  intros Hm Hn Hle. assert (H1 : countable 1) by (unfold countable; lia).
  unfold Volume.copyBaseDeadline, Volume.copyPerMemberDeadline,
    Volume.replicatingBaseDeadline, Volume.replicatingPerMemberDeadline.
  rewrite !copyDeadline_eq, !replicatingDeadline_eq by done.
  unfold Hour, Minute, Second. lia.
Qed.

Lemma step_elapsed_exact budget t d next now claim :
  budget = Some d -> (t <= now)%Z ->
  step_elapsed budget (mkKube next (Some (t + d)%Z) claim) now = Some (now - t)%Z.
Proof.
  intros -> Ht. unfold step_elapsed, KubeDeadline; simpl.
  replace (now - (t + d - d))%Z with (now - t)%Z by lia.
  by rewrite (proj2 (Z.ltb_ge (now - t) 0)) by lia.
Qed.

(** The time a step took is measured from its entry and from nothing else:
    what the node's and the cluster's operations report for a step, from the
    deadline left in the status, is the time since the pass that entered it,
    for every step of every action. *)
Theorem step_time_measured {W} (clock : W -> Time) a c (m : Machine string W) w ctx next
    m' w' kube now :
  m_states m = States c -> ctx_deadline (m_parent m) = None -> (0 <= clock w)%Z ->
  validate c = None ->
  enterStep clock m w ctx next = (m', w', Some kube) -> (clock w <= now)%Z ->
  (Node.graphs !! a = Some c -> Node.observeStep kube next now = Some (now - clock w)%Z) /\
  (Cluster.graphs !! a = Some c ->
     Cluster.observeStep kube next now = Some (now - clock w)%Z).
Proof.
  intros Hm Hp Hw Hv E Hnow.
  assert (Hkey : forall (budgets : gmap string Duration) d, enters_with c next d -> budgets !! next = Some d ->
    (0 < d)%Z -> step_elapsed (budgets !! next) kube now = Some (now - clock w)%Z).
  { intros budgets d He Hb Hpos.
    rewrite (enterStep_enters clock c m w ctx next m' w' kube d) by done. by apply step_elapsed_exact. }
  assert (Hto : edge c (CurrentState m) next).
  { unfold enterStep in E. destruct (TransitionTo _ _ _ _ _) as [[m1 w1] []] eqn:Et; simplify_eq.
    apply transition_done_inv in Et as (_ & Hto & _). by rewrite exits_edge in Hto. }
  destruct (proj1 (validate_None c) Hv) as [_ Hcl].
  destruct Hto as (def0 & H0 & Hin). destruct (Hcl _ _ _ H0 Hin) as [def Hdef].
  destruct (graphs_tabled (W := W)) as (Hn & Hc & _).
  pose proof (kinds_bounded (W := W) 1 ltac:(unfold countable; lia)) as Hb.
  unfold kinds in Hb. rewrite !Forall_cons in Hb. destruct Hb as (Hbn & _ & _ & _ & Hbc & _).
  split; intros Ha.
  - destruct (Hn a c Ha next def Hdef) as (d & Hd & Ht).
    destruct (Hbn a c Ha next def Hdef) as (d' & Hd' & Hpos).
    rewrite Hd in Hd'. injection Hd' as Hdd.
    apply (f_equal (fun f => f Background next next)) in Hdd. simplify_eq.
    eapply Hkey; [|done|done]. by exists def.
  - destruct (Hc a c Ha next def Hdef) as (d & Hd & Ht).
    destruct (Hbc a c Ha next def Hdef) as (d' & Hd' & Hpos).
    rewrite Hd in Hd'. injection Hd' as Hdd.
    apply (f_equal (fun f => f Background next next)) in Hdd. simplify_eq.
    eapply Hkey; [|done|done]. by exists def.
Qed.

(** A relocation's initial sync is misread: the volume kind's table of
    budgets holds neither it nor the copy, and what is missing from the table is
    read as a copy, so the start of a [Replicating] step entered at [clock w] is
    taken to lie ninety minutes and twenty more per volume after it, and a sync
    that ends sooner is measured as having taken a negative time. *)
Theorem relocate_start_misread {W} (clock : W -> Time) members c (m : Machine string W) w ctx
    m' w' written kube :
  countable members -> Volume.graphs members !! Volume.actionRelocate = Some c ->
  m_states m = States c -> ctx_deadline (m_parent m) = None -> (0 <= clock w)%Z ->
  enterAhead clock m w ctx Volume.stepReplicating = (m', w', [written; kube]) ->
  Volume.stepStarted kube members Volume.stepReplicating =
    ((clock w + 90 * Minute + Z.max 1 members * (20 * Minute))%Z, true).
Proof.
  intros Hc Ha Hm Hp Hw E.
  assert (enterStep clock m w ctx Volume.stepReplicating = (m', w', Some kube)) as E1.
  { unfold enterAhead in E. unfold enterStep. by destruct (TransitionTo _ _ _ _ _) as [[? ?] []]; simplify_eq. }
  rewrite (enterStep_enters clock c m w ctx Volume.stepReplicating m' w' kube
    (Volume.replicatingDeadline members)); try done.
  - unfold Volume.stepStarted. simpl. rewrite replicatingDeadline_eq by done.
    change (match Volume.stepBudgets !! Volume.stepReplicating with
      Some b => b | None => Volume.copyDeadline members end) with (Volume.copyDeadline members).
    rewrite copyDeadline_eq by done. f_equal. unfold Hour. lia.
  - exists (mkStateDef [Volume.stepCommitting] true
      (deadline (Volume.replicatingDeadline members))).
    split; [|done].
    assert (E' : (Volume.graphs (W := W) members !! Volume.actionRelocate
        ≫= fun c : Config string W => States c !! Volume.stepReplicating) =
        Some (mkStateDef [Volume.stepCommitting] true
          (deadline (Volume.replicatingDeadline members)))) by reflexivity.
    by rewrite Ha in E'.
  - by apply replicatingDeadline_pos.
Qed.

(** ** Witnesses *)

Module Cases.

Definition clock (w : Z) : Time := w.
Definition node_kind : Kind Z :=
  mkKind Node.graphs Node.enterInitialStep afterwards false Node.UnabortableSteps.
Definition volume_kind : Kind Z :=
  mkKind (Volume.graphs 3) (fun _ => Volume.enterInitialStep) ahead true Volume.UnabortableSteps.
Definition removal : Config string Z := default (mkGraph "" []) (Node.graphs !! "Remove").
Definition rolling : Config string Z :=
  default (mkGraph "" []) (Cluster.graphs !! "RollingRestart").
Definition relocation : Config string Z :=
  default (mkGraph "" []) (Volume.graphs 3 !! "Relocate").

(** A machine of a graph, restored into a step. *)
Definition in_step (c : Config string Z) (s : string) : Machine string Z :=
  mkMachine Background None (States c) (Initial c) s None None None [].

Definition pass (c : Config string Z) (s next : string) :=
  enterStep clock (in_step c s) 1000%Z Background next.

Lemma node_is_kind : node_kind ∈ kinds (W := Z) 3.
Proof. left. Qed.

Lemma kinds_build_witness :
  exists m, MultiNew (k_graphs node_kind) Background "Remove" = Ok m /\
    CurrentState m = Initial removal /\ m_states m = States removal /\
    Deadline m = ctx_deadline Background.
Proof. exact (kinds_build 3 node_kind Background "Remove" node_is_kind). Defined.

Lemma first_step_bounded_witness :
  exists d, (0 < d)%Z /\ enters_with removal (Initial removal) d /\
    k_begin node_kind "Remove" (in_step removal "Validating") 1000%Z =
      mkKube (Initial removal) (Some (1000 + d)%Z) None.
Proof.
  apply (first_step_bounded 3 node_kind "Remove" removal Background
    (in_step removal "Validating") 1000%Z node_is_kind); reflexivity.
Defined.

Definition replicating : Machine string Z * Z * list KubeSnapshot :=
  k_enter volume_kind clock (in_step relocation "Validating") 1000%Z Background
    Volume.stepReplicating unset.

Lemma volume_is_kind : volume_kind ∈ kinds (W := Z) 3.
Proof. right. right. right. left. Qed.

Lemma every_step_bounded_witness :
  exists d claim, (0 < d)%Z /\ enters_with relocation Volume.stepReplicating d /\
    claim ∈ [None; kube_Claim unset] /\
    replicating.2 = [recordStep Volume.stepReplicating None;
      mkKube Volume.stepReplicating (Some (1000 + d)%Z) claim].
Proof.
  destruct (every_step_bounded clock 3 volume_kind "Relocate" relocation
    (in_step relocation "Validating") 1000%Z Background Volume.stepReplicating unset
    replicating.1.1 replicating.1.2 replicating.2) as [(_ & _ & _ & H)|(_ & _ & H)].
  - unfold countable. lia.
  - exact volume_is_kind.
  - reflexivity.
  - reflexivity.
  - reflexivity.
  - done.
  - apply triple_eq. reflexivity.
  - exact H.
  - exfalso. vm_compute in H. discriminate.
Defined.

Lemma abort_and_delete_agree_witness :
  CanAbort (in_step removal "Verifying") =
    negb (contains (k_unabortable node_kind) (CurrentState (in_step removal "Verifying"))).
Proof.
  apply (abort_and_delete_agree 3 node_kind "Remove" removal
    (in_step removal "Verifying") node_is_kind); [reflexivity|reflexivity|].
  eexists. reflexivity.
Defined.

Definition committed := TransitionTo clock (in_step removal "ShuttingDown") 1000%Z Background
  "MigratingDevices".

Lemma no_way_back_witness :
  m_states committed.1.1 = States removal /\
  (CanAbort committed.1.1 = false \/
   "Remove" = "RollingRestart" /\ "MigratingDevices" = Cluster.stepRebalancing).
Proof.
  apply (no_way_back 3 clock node_kind "Remove" removal (in_step removal "ShuttingDown")
    1000%Z Background "MigratingDevices" committed.1.1 committed.1.2 node_is_kind).
  - reflexivity.
  - reflexivity.
  - apply triple_eq. vm_compute. reflexivity.
  - reflexivity.
Defined.

Lemma walks_end_witness : 1 < size (States removal).
Proof.
  apply (walks_end 3 node_kind "Remove" removal 1 "Validating" "ShuttingDown" node_is_kind).
  - reflexivity.
  - discriminate.
  - eexists. reflexivity.
  - apply nsteps_once. eexists. split; [reflexivity|]. left.
Defined.

Lemma no_step_is_a_trap_witness :
  let c : Config string Z := Node.provisioningGraph in
  rtc (edge c) (Initial c) "AwaitingWorker" /\
  exists t, rtc (edge c) "AwaitingWorker" t /\ is_Some (States c !! t) /\ successors c t = [].
Proof.
  apply (no_step_is_a_trap 3 Node.provisioningGraph "AwaitingWorker").
  - left. left.
  - eexists. reflexivity.
Defined.

Lemma rolling_restart_walk_witness :
  CanTransitionTo (in_step rolling "ShuttingDownNode") "RestartingNode" = true /\
  ("RestartingNode" = Cluster.stepRefreshingPod -> false = true).
Proof.
  apply (rolling_restart_walk "RollingRestart" rolling false
    (in_step rolling "ShuttingDownNode")); [reflexivity|reflexivity|].
  eexists. reflexivity.
Defined.

Lemma relocation_cuts_every_volume_witness :
  CanTransitionTo (in_step relocation "Proceeding")
    (Volume.relocateSuccessor [true; false] (in_step relocation "Proceeding")) = true /\
  (CurrentState (in_step relocation "Proceeding") = Volume.stepProceeding ->
     (Volume.relocateSuccessor [true; false] (in_step relocation "Proceeding") =
        Volume.stepVerifying <-> Forall (fun cutOver => cutOver = true) [true; false])).
Proof.
  apply (relocation_cuts_every_volume 3 [true; false] relocation
    (in_step relocation "Proceeding")); [reflexivity|reflexivity| |reflexivity].
  eexists. reflexivity.
Defined.

Lemma member_deadlines_witness :
  Volume.copyDeadline 3 = (Volume.copyBaseDeadline + Z.max 1 3 * Volume.copyPerMemberDeadline)%Z /\
  Volume.replicatingDeadline 3 = (Volume.replicatingBaseDeadline +
    Z.max 1 3 * Volume.replicatingPerMemberDeadline)%Z /\
  (Volume.copyDeadline 1 <= Volume.copyDeadline 3 <= Volume.copyDeadline 7)%Z /\
  (Volume.replicatingDeadline 1 <= Volume.replicatingDeadline 3
    <= Volume.replicatingDeadline 7)%Z.
Proof. apply (member_deadlines 3 7); unfold countable; lia. Defined.

Lemma step_time_measured_witness :
  (Node.graphs !! "Remove" = Some removal ->
     Node.observeStep (mkKube "ShuttingDown" (Some (1000 + 15 * Minute)%Z) None)
       Node.stepShuttingDown 5000%Z = Some (5000 - 1000)%Z) /\
  (Cluster.graphs !! "Remove" = Some removal ->
     Cluster.observeStep (mkKube "ShuttingDown" (Some (1000 + 15 * Minute)%Z) None)
       Node.stepShuttingDown 5000%Z = Some (5000 - 1000)%Z).
Proof.
  apply (step_time_measured clock "Remove" removal (in_step removal "Validating") 1000%Z
    Background Node.stepShuttingDown (pass removal "Validating" Node.stepShuttingDown).1.1
    (pass removal "Validating" Node.stepShuttingDown).1.2).
  - reflexivity.
  - reflexivity.
  - done.
  - vm_compute. reflexivity.
  - apply triple_eq. vm_compute. reflexivity.
  - done.
Defined.

Lemma relocate_start_misread_witness :
  Volume.stepStarted (mkKube "Replicating" (Some (1000 + 210 * Minute)%Z) None) 3
    Volume.stepReplicating =
  ((1000 + 90 * Minute + Z.max 1 3 * (20 * Minute))%Z, true).
Proof.
  apply (relocate_start_misread clock 3 relocation (in_step relocation "Validating") 1000%Z
    Background replicating.1.1 replicating.1.2 (recordStep Volume.stepReplicating None)).
  - unfold countable. lia.
  - reflexivity.
  - reflexivity.
  - reflexivity.
  - done.
  - apply triple_eq. vm_compute. reflexivity.
Defined.

End Cases.
