(* ===== verification/GoStrings.v ===== *)
(** Go's strings: byte sequences that hold UTF-8, and the functions of
    [strings] and [strconv] the program calls on them.

    A Go string is a [string], a list of bytes.  Where Go decodes runes (the
    range loop inside [strings.Map], [strings.TrimSpace]), so does the model, an
    invalid byte counting as one replacement rune of width one. *)

From Stdlib Require Import Ascii String DecimalString DecimalN DecimalZ DecimalPos.
From S2P Require Import Prelude.

#[local] Open Scope Z_scope.

Abbreviation bytes := (list ascii) (only parsing).

Abbreviation to_bytes := String.list_ascii_of_string.
Abbreviation of_bytes := String.string_of_list_ascii.

(** The byte at its value. *)
Definition code (a : ascii) : Z := Z.of_N (N_of_ascii a).

Definition in_range (lo hi z : Z) : bool := (lo <=? z) && (z <=? hi).

(** ** UTF-8 *)

Definition RuneError : Z := 65533.

Definition cont (a : ascii) : bool := in_range 128 191 (code a).

Definition low6 (a : ascii) : Z := Z.land (code a) 63.

(** Whether a second byte may follow the first: [utf8]'s acceptance ranges. *)
Definition accept (b0 b1 : ascii) : bool :=
  let c := code b0 in
  let r := code b1 in
  if c =? 224 then in_range 160 191 r
  else if c =? 237 then in_range 128 159 r
  else if c =? 240 then in_range 144 191 r
  else if c =? 244 then in_range 128 143 r
  else in_range 128 191 r.

(** The runes of a string, each with the bytes it was decoded from. *)
Fixpoint chunks (l : list ascii) : list (Z * list ascii) :=
  match l with
  | [] => []
  | b0 :: l0 =>
      let c := code b0 in
      if c <? 128 then (c, [b0]) :: chunks l0
      else
        match l0 with
        | b1 :: l1 =>
            if in_range 194 223 c && accept b0 b1
            then (Z.lor (Z.shiftl (Z.land c 31) 6) (low6 b1), [b0; b1]) :: chunks l1
            else
              match l1 with
              | b2 :: l2 =>
                  if in_range 224 239 c && accept b0 b1 && cont b2
                  then (Z.lor (Z.shiftl (Z.land c 15) 12)
                          (Z.lor (Z.shiftl (low6 b1) 6) (low6 b2)), [b0; b1; b2]) :: chunks l2
                  else
                    match l2 with
                    | b3 :: l3 =>
                        if in_range 240 244 c && accept b0 b1 && cont b2 && cont b3
                        then (Z.lor (Z.shiftl (Z.land c 7) 18)
                                (Z.lor (Z.shiftl (low6 b1) 12)
                                   (Z.lor (Z.shiftl (low6 b2) 6) (low6 b3))),
                              [b0; b1; b2; b3]) :: chunks l3
                        else (RuneError, [b0]) :: chunks l0
                    | [] => (RuneError, [b0]) :: chunks l0
                    end
              | [] => (RuneError, [b0]) :: chunks l0
              end
        | [] => [(RuneError, [b0])]
        end
  end.

Definition runes (s : string) : list Z := (chunks (to_bytes s)).*1.

(** ** [strings] *)

(** [unicode.IsSpace]. *)
Definition IsSpace (r : Z) : bool :=
  in_range 9 13 r || (r =? 32) || (r =? 133) || (r =? 160) || (r =? 5760) ||
  in_range 8192 8202 r || (r =? 8232) || (r =? 8233) || (r =? 8239) || (r =? 8287) ||
  (r =? 12288).

Fixpoint drop_while {A} (p : A -> bool) (l : list A) : list A :=
  match l with
  | [] => []
  | x :: l' => if p x then drop_while p l' else l
  end.

Definition space_chunk (k : Z * list ascii) : bool := IsSpace k.1.

Definition trim_chunks (l : list (Z * list ascii)) : list (Z * list ascii) :=
  rev (drop_while space_chunk (rev (drop_while space_chunk l))).

(** [strings.TrimSpace]. *)
Definition TrimSpace (s : string) : string :=
  of_bytes (concat (trim_chunks (chunks (to_bytes s))).*2).

(** [strings.Split] by a separator of one byte. *)
Fixpoint split_on (sep : ascii) (l : list ascii) : list (list ascii) :=
  match l with
  | [] => [[]]
  | c :: l =>
      if Ascii.eqb c sep then [] :: split_on sep l
      else match split_on sep l with
           | [] => [[c]]
           | p :: ps => (c :: p) :: ps
           end
  end.

Definition Split (s : string) (sep : ascii) : list string :=
  of_bytes <$> split_on sep (to_bytes s).

(** [strings.Join] with a separator of one byte. *)
Fixpoint join_on (sep : ascii) (ps : list (list ascii)) : list ascii :=
  match ps with
  | [] => []
  | [p] => p
  | p :: ps => p ++ sep :: join_on sep ps
  end.

Definition Join (parts : list string) (sep : ascii) : string :=
  of_bytes (join_on sep (to_bytes <$> parts)).

(** What follows a prefix. *)
Fixpoint after_prefix (p l : list ascii) : option (list ascii) :=
  match p, l with
  | [], _ => Some l
  | a :: p, b :: l => if Ascii.eqb a b then after_prefix p l else None
  | _ :: _, [] => None
  end.

(** [strings.Cut]: around the first instance of [sep]. *)
Fixpoint cut_first (sep l : list ascii) : option (list ascii * list ascii) :=
  match after_prefix sep l with
  | Some after => Some ([], after)
  | None =>
      match l with
      | [] => None
      | c :: l =>
          match cut_first sep l with
          | Some (before, after) => Some (c :: before, after)
          | None => None
          end
      end
  end.

(** Around the last instance of [sep], as [strings.LastIndex] finds it. *)
Fixpoint cut_last (sep l : list ascii) : option (list ascii * list ascii) :=
  match l with
  | [] => match after_prefix sep [] with Some after => Some ([], after) | None => None end
  | c :: l' =>
      match cut_last sep l' with
      | Some (before, after) => Some (c :: before, after)
      | None =>
          match after_prefix sep l with
          | Some after => Some ([], after)
          | None => None
          end
      end
  end.

Definition Cut (s sep : string) : string * string * bool :=
  match cut_first (to_bytes sep) (to_bytes s) with
  | Some (before, after) => (of_bytes before, of_bytes after, true)
  | None => (s, EmptyString, false)
  end.

Definition Contains (s sub : string) : bool := (Cut s sub).2.

Definition HasPrefix (s prefix : string) : bool :=
  match after_prefix (to_bytes prefix) (to_bytes s) with Some _ => true | None => false end.

Definition CutPrefix (s prefix : string) : option string :=
  of_bytes <$> after_prefix (to_bytes prefix) (to_bytes s).

Definition CutSuffix (s suffix : string) : option string :=
  (fun rest => of_bytes (rev rest)) <$> after_prefix (rev (to_bytes suffix)) (rev (to_bytes s)).

(** [strings.TrimRight] with a cutset of one byte. *)
Definition TrimRight (s : string) (cut : ascii) : string :=
  of_bytes (rev (drop_while (Ascii.eqb cut) (rev (to_bytes s)))).

Definition is_ascii (s : string) : bool := forallb (fun a => code a <? 128) (to_bytes s).

Definition ascii_lower (a : ascii) : ascii :=
  if in_range 65 90 (code a) then ascii_of_N (Z.to_N (code a + 32)) else a.
Definition ascii_upper (a : ascii) : ascii :=
  if in_range 97 122 (code a) then ascii_of_N (Z.to_N (code a - 32)) else a.

(** What a program uses of the tables of Unicode, on text that is not ASCII, and of
    [fmt]'s [%q]. *)
Class Text := {
  unicode_ToLower : string -> string;
  unicode_ToUpper : string -> string;
  unicode_EqualFold : string -> string -> bool;
  Quote : string -> string;
}.

Section Case.

Context `{!Text}.

Definition ToLower (s : string) : string :=
  if is_ascii s then of_bytes (ascii_lower <$> to_bytes s) else unicode_ToLower s.
Definition ToUpper (s : string) : string :=
  if is_ascii s then of_bytes (ascii_upper <$> to_bytes s) else unicode_ToUpper s.
Definition EqualFold (s t : string) : bool :=
  if is_ascii s && is_ascii t then
    bool_decide (ascii_lower <$> to_bytes s = ascii_lower <$> to_bytes t)
  else unicode_EqualFold s t.

End Case.

(** ** [strconv], for base ten *)

Definition Itoa (n : Z) : string :=
  match n with
  | Zneg p => String "-" (NilZero.string_of_uint (N.to_uint (Npos p)))
  | _ => NilZero.string_of_uint (N.to_uint (Z.to_N n))
  end.

(** [Duration.String], for a whole number of seconds that is not negative. *)
Definition Duration_String (d : Duration) : string :=
  let s := (d / Second)%Z in
  if (s <? 60)%Z then (Itoa s ++ "s")%string
  else if (s <? 3600)%Z then (Itoa (s / 60) ++ "m" ++ Itoa (s mod 60) ++ "s")%string
  else (Itoa (s / 3600) ++ "h" ++ Itoa (s / 60 mod 60) ++ "m" ++ Itoa (s mod 60) ++ "s")%string.

Definition atoi_unsigned (s : string) : option Z :=
  match NilZero.uint_of_string s with
  | Some u => Some (Z.of_N (N.of_uint u))
  | None => None
  end.

(** [strconv.Atoi]: an optional sign, at least one digit, and a value of 64
    bits. *)
Definition Atoi (s : string) : option Z :=
  let value :=
    match s with
    | String "-" s => option_map Z.opp (atoi_unsigned s)
    | String "+" s => atoi_unsigned s
    | s => atoi_unsigned s
    end in
  match value with
  | Some v => if (int64_min <=? v) && (v <=? int64_max) then Some v else None
  | None => None
  end.

(** ** Lemmas *)

Lemma of_to_bytes s : of_bytes (to_bytes s) = s.
Proof. apply string_of_list_ascii_of_string. Qed.
Lemma to_of_bytes l : to_bytes (of_bytes l) = l.
Proof. apply list_ascii_of_string_of_list_ascii. Qed.
#[export] Hint Rewrite of_to_bytes to_of_bytes : sb.

Lemma length_to_bytes s : length (to_bytes s) = String.length s.
Proof. induction s; simpl; congruence. Qed.

Lemma length_of_bytes l : String.length (of_bytes l) = length l.
Proof. by rewrite <- length_to_bytes, to_of_bytes. Qed.

Lemma to_bytes_inj s t : to_bytes s = to_bytes t -> s = t.
Proof. intros H. by rewrite <- (of_to_bytes s), H, of_to_bytes. Qed.

Lemma to_of_map (l : list (list ascii)) : to_bytes <$> (of_bytes <$> l) = l.
Proof. induction l as [|p l IH]; [done|]. cbn. by rewrite IH, to_of_bytes. Qed.

Lemma of_to_map (l : list string) : of_bytes <$> (to_bytes <$> l) = l.
Proof. induction l as [|p l IH]; [done|]. cbn. by rewrite IH, of_to_bytes. Qed.

(** *** Split and join *)

Lemma split_on_nonempty sep l : split_on sep l <> [].
Proof.
  destruct l as [|c l]; simpl; [done|]. destruct (Ascii.eqb c sep); [done|].
  by destruct (split_on sep l).
Qed.

Lemma join_split sep l : join_on sep (split_on sep l) = l.
Proof.
  induction l as [|c l IH]; simpl; [done|].
  destruct (Ascii.eqb_spec c sep) as [->|Hne].
  - destruct (split_on sep l) eqn:E; [by apply split_on_nonempty in E|].
    rewrite <- IH. done.
  - destruct (split_on sep l) as [|p ps] eqn:E; [by apply split_on_nonempty in E|].
    rewrite <- IH. by destruct ps.
Qed.

Lemma split_on_free sep p : sep ∉ p -> split_on sep p = [p].
Proof.
  induction p as [|c p IH]; simpl; [done|]. intros H.
  apply not_elem_of_cons in H as [Hne Hp].
  rewrite (proj2 (Ascii.eqb_neq c sep)) by congruence. by rewrite (IH Hp).
Qed.

Lemma split_on_app sep p l : sep ∉ p -> split_on sep (p ++ sep :: l) = p :: split_on sep l.
Proof.
  induction p as [|c p IH]; simpl; intros H.
  - by rewrite Ascii.eqb_refl.
  - apply not_elem_of_cons in H as [Hne Hp].
    rewrite (proj2 (Ascii.eqb_neq c sep)) by congruence. by rewrite (IH Hp).
Qed.

Lemma split_join sep ps :
  ps <> [] -> Forall (fun p => sep ∉ p) ps -> split_on sep (join_on sep ps) = ps.
Proof.
  intros Hne H. induction H as [|p ps Hp Hps IH]; [done|]. destruct ps as [|q ps].
  - by apply split_on_free.
  - change (join_on sep (p :: q :: ps)) with (p ++ sep :: join_on sep (q :: ps)).
    rewrite split_on_app by done. by rewrite IH.
Qed.

Lemma split_on_parts sep l : Forall (fun p => sep ∉ p) (split_on sep l).
Proof.
  induction l as [|c l IH]; simpl.
  - constructor; [apply not_elem_of_nil|done].
  - destruct (Ascii.eqb_spec c sep) as [->|Hne].
    + constructor; [apply not_elem_of_nil|done].
    + destruct (split_on sep l) as [|p ps] eqn:E; [by apply split_on_nonempty in E|].
      apply Forall_cons in IH as [Hp Hps]. constructor; [|done].
      apply not_elem_of_cons. split; congruence.
Qed.

(** *** Trimming *)

Lemma chunks_concat l : concat (chunks l).*2 = l.
Proof.
  remember (length l) as n eqn:Hn. revert l Hn.
  induction (lt_wf n) as [n _ IH]. intros l ->.
  assert (IHl : forall k, (length k < length l)%nat -> concat (chunks k).*2 = k)
    by (intros k Hk; by eapply IH).
  destruct l as [|b0 l0]; [done|]. simpl.
  destruct (code b0 <? 128); [simpl; by rewrite IHl by (simpl; lia)|].
  destruct l0 as [|b1 l1]; [done|].
  repeat (match goal with
    | |- concat (if ?b then _ else _).*2 = _ => destruct b
    | |- concat (match ?l with [] => _ | _ :: _ => _ end).*2 = _ => destruct l
    end); cbn [concat fmap list_fmap snd fst app]; by rewrite IHl by (simpl; lia).
Qed.

(** A rune below 128 is one byte; every byte of a longer one is above. *)
Definition chunk_ok (k : Z * list ascii) : Prop :=
  (exists b, k = (code b, [b]) /\ code b < 128) \/
  (k.2 <> [] /\ Forall (fun b => 128 <= code b) k.2).

Lemma accept_high b0 b1 : accept b0 b1 = true -> 128 <= code b1.
Proof.
  unfold accept, in_range. repeat case_match; rewrite andb_true_iff, !Z.leb_le; lia.
Qed.

Lemma cont_high b : cont b = true -> 128 <= code b.
Proof. unfold cont, in_range. rewrite andb_true_iff, !Z.leb_le. lia. Qed.

Lemma chunks_ok l : Forall chunk_ok (chunks l).
Proof.
  remember (length l) as n eqn:Hn. revert l Hn.
  induction (lt_wf n) as [n _ IH]. intros l ->.
  assert (IHl : forall k, (length k < length l)%nat -> Forall chunk_ok (chunks k))
    by (intros k Hk; by eapply IH).
  destruct l as [|b0 l0]; [done|]. simpl.
  destruct (Z.ltb_spec (code b0) 128) as [Hb|Hb].
  { constructor; [left; by exists b0|]. apply IHl. simpl. lia. }
  assert (H1 : chunk_ok (RuneError, [b0])) by (right; split; [done|]; by repeat constructor).
  destruct l0 as [|b1 l1]; [by repeat constructor|].
  assert (H2 : Forall chunk_ok (chunks (b1 :: l1))) by (apply IHl; simpl; lia).
  destruct (in_range 194 223 (code b0) && accept b0 b1) eqn:E1.
  { apply andb_true_iff in E1 as [_ Ha%accept_high].
    constructor; [right; split; [done|]; by repeat constructor|]. apply IHl. simpl. lia. }
  destruct l1 as [|b2 l2]; [by constructor|].
  destruct (in_range 224 239 (code b0) && accept b0 b1 && cont b2) eqn:E2.
  { apply andb_true_iff in E2 as [[_ Ha%accept_high]%andb_true_iff Hc%cont_high].
    constructor; [right; split; [done|]; by repeat constructor|]. apply IHl. simpl. lia. }
  destruct l2 as [|b3 l3]; [by constructor|].
  destruct (in_range 240 244 (code b0) && accept b0 b1 && cont b2 && cont b3) eqn:E3;
    [|by constructor].
  apply andb_true_iff in E3 as [[[_ Ha%accept_high]%andb_true_iff Hc%cont_high]%andb_true_iff
    Hd%cont_high].
  constructor; [right; split; [done|]; by repeat constructor|]. apply IHl. simpl. lia.
Qed.

Lemma drop_while_none {A} (p : A -> bool) l :
  (forall x l', l = x :: l' -> p x = false) -> drop_while p l = l.
Proof. destruct l as [|x l]; simpl; [done|]. intros H. by rewrite (H x l). Qed.

(** The bytes of a string are ASCII and visible at both ends. *)
Definition visible (b : ascii) : Prop := code b < 128 /\ IsSpace (code b) = false.
Definition visible_ends (l : list ascii) : Prop :=
  match head l, last l with Some a, Some b => visible a /\ visible b | _, _ => False end.

Lemma last_concat_chunks ks k : Forall chunk_ok (ks ++ [k]) ->
  forall b, last (concat (ks ++ [k]).*2) = Some b -> code b < 128 -> k = (code b, [b]).
Proof.
  rewrite Forall_app, Forall_singleton. intros [_ Hk] b.
  rewrite fmap_app, concat_app. cbn [fmap list_fmap concat snd app].
  rewrite app_nil_r. intros Hl Hb. destruct Hk as [(c & -> & Hc)|[Hne Hall]].
  - cbn [snd] in Hl. rewrite last_snoc in Hl. by simplify_eq.
  - destruct (exists_last Hne) as (l & c & Hlast).
    rewrite Hlast in Hl, Hall. rewrite app_assoc, last_snoc in Hl. simplify_eq.
    apply Forall_app in Hall as [_ Hall]. rewrite Forall_singleton in Hall. lia.
Qed.

(** Trimming a string that is visible at both ends changes nothing. *)
Lemma TrimSpace_visible s : visible_ends (to_bytes s) -> TrimSpace s = s.
Proof.
  unfold visible_ends, TrimSpace. intros H.
  destruct (head (to_bytes s)) as [a|] eqn:Ha; [|done].
  destruct (last (to_bytes s)) as [b|] eqn:Hb; [|done]. destruct H as [[Ha1 Ha2] [Hb1 Hb2]].
  enough (E : trim_chunks (chunks (to_bytes s)) = chunks (to_bytes s)).
  { by rewrite E, chunks_concat, of_to_bytes. }
  unfold trim_chunks. rewrite (drop_while_none _ (chunks _)).
  2: { intros k l' E. destruct (to_bytes s) as [|c l]; [done|]. simpl in Ha, E. simplify_eq.
       rewrite (proj2 (Z.ltb_lt (code a) 128)) in E by done. by simplify_eq/=. }
  rewrite drop_while_none; [apply rev_involutive|].
  intros k l' E. apply (f_equal (@rev _)) in E. rewrite rev_involutive in E. simpl in E.
  assert (Hk : k = (code b, [b])).
  { apply (last_concat_chunks (rev l')); [rewrite <- E; apply chunks_ok| |done].
    by rewrite <- E, chunks_concat. }
  by subst.
Qed.

Lemma head_join sep p ps a l : to_bytes p = a :: l ->
  head (to_bytes (Join (p :: ps) sep)) = Some a.
Proof.
  intros Hp. unfold Join. rewrite to_of_bytes. cbn. rewrite Hp.
  by destruct (to_bytes <$> ps).
Qed.

Lemma last_join sep ps p b : last (to_bytes p) = Some b ->
  last (to_bytes (Join (ps ++ [p]) sep)) = Some b.
Proof.
  intros Hp. unfold Join. rewrite to_of_bytes.
  induction ps as [|q ps IH]; [done|].
  replace (join_on sep (to_bytes <$> (q :: ps) ++ [p]))
    with (to_bytes q ++ sep :: join_on sep (to_bytes <$> ps ++ [p])) by (by destruct ps).
  rewrite (cons_middle sep), last_app, last_app, IH. done.
Qed.

(** *** Joining what was split, and splitting what was joined *)

Lemma Join_Split s sep : Join (Split s sep) sep = s.
Proof. unfold Join, Split. by rewrite to_of_map, join_split, of_to_bytes. Qed.

Lemma Split_Join ps sep :
  ps <> [] -> Forall (fun p => sep ∉ to_bytes p) ps -> Split (Join ps sep) sep = ps.
Proof.
  intros Hne H. unfold Join, Split. rewrite to_of_bytes, split_join, of_to_map; [done|..].
  - by destruct ps.
  - by rewrite Forall_fmap.
Qed.

Lemma Split_parts s sep p : p ∈ Split s sep -> sep ∉ to_bytes p.
Proof.
  unfold Split. rewrite list_elem_of_fmap. intros (q & -> & Hq). rewrite to_of_bytes.
  pose proof (split_on_parts sep (to_bytes s)) as H. rewrite Forall_forall in H. by apply H.
Qed.

(** *** Cutting *)

Lemma after_prefix_app p l : after_prefix p (p ++ l) = Some l.
Proof. induction p as [|a p IH]; simpl; [done|]. by rewrite Ascii.eqb_refl. Qed.

Lemma after_prefix_Some p l r : after_prefix p l = Some r <-> l = p ++ r.
Proof.
  split; [|intros ->; apply after_prefix_app]. revert l.
  induction p as [|a p IH]; intros l; simpl; [by intros [= ->]|].
  destruct l as [|b l]; [done|]. destruct (Ascii.eqb_spec a b) as [->|]; [|done].
  intros H. by rewrite (IH _ H).
Qed.

Lemma cut_first_Some sep l b a : cut_first sep l = Some (b, a) -> l = b ++ sep ++ a.
Proof.
  revert b. induction l as [|c l IH]; intros b; simpl.
  - destruct (after_prefix sep []) eqn:E; [|done]. intros [= <- <-].
    by apply after_prefix_Some in E.
  - destruct (after_prefix sep (c :: l)) eqn:E.
    + intros [= <- <-]. by apply after_prefix_Some in E.
    + destruct (cut_first sep l) as [[b' a']|] eqn:E'; [|done]. intros [= <- <-].
      simpl. by rewrite <- (IH b').
Qed.

Lemma cut_last_Some sep l b a : cut_last sep l = Some (b, a) -> l = b ++ sep ++ a.
Proof.
  revert b. induction l as [|c l IH]; intros b.
  - simpl. destruct (after_prefix sep []) eqn:E; [|done]. intros [= <- <-].
    by apply after_prefix_Some in E.
  - cbn [cut_last]. destruct (cut_last sep l) as [[b' a']|] eqn:E'.
    + intros [= <- <-]. simpl. by rewrite <- (IH b').
    + destruct (after_prefix sep (c :: l)) eqn:E; [|done]. intros [= <- <-].
      by apply after_prefix_Some in E.
Qed.

(** [sep] does not occur in [l]. *)
Definition absent (sep l : list ascii) : Prop := cut_last sep l = None.

Lemma cut_last_here sep b a : (forall n, (0 < n)%nat ->
    after_prefix sep (drop n (sep ++ a)) = None) -> sep <> [] ->
  cut_last sep (b ++ sep ++ a) = Some (b, a).
Proof.
  intros Hno Hne. induction b as [|c b IH]; [|simpl; by rewrite IH].
  destruct sep as [|s sep]; [done|]. simpl app. cbn [cut_last].
  assert (Hn : cut_last (s :: sep) (sep ++ a) = None).
  { remember (sep ++ a) as l eqn:El.
    assert (Hd : forall n, after_prefix (s :: sep) (drop n l) = None).
    { intros n. specialize (Hno (S n) ltac:(lia)). simpl in Hno. by rewrite <- El in Hno. }
    clear El Hno. induction l as [|c l IH]; [done|].
    cbn [cut_last]. rewrite IH; [by rewrite (Hd O : after_prefix _ (c :: l) = None)|].
    intros n. exact (Hd (S n)). }
  rewrite Hn. change (s :: sep ++ a) with ((s :: sep) ++ a).
  by rewrite after_prefix_app.
Qed.

(** A separator of one byte is cut at its last occurrence. *)
Lemma cut_last_byte sep b a : sep ∉ a -> cut_last [sep] (b ++ sep :: a) = Some (b, a).
Proof.
  intros Ha. apply (cut_last_here [sep] b a); [|done]. intros n Hn.
  destruct n as [|n]; [lia|]. simpl. destruct (drop n a) as [|c l] eqn:E; [done|].
  destruct (Ascii.eqb_spec sep c) as [->|]; [|done]. destruct Ha.
  rewrite <- (take_drop n a), E. apply elem_of_app. right. left.
Qed.

(** *** Numbers *)

Lemma Atoi_Itoa n : 0 <= n <= int64_max -> Atoi (Itoa n) = Some n.
Proof.
  intros Hn. unfold Itoa.
  assert (Hu : atoi_unsigned (NilZero.string_of_uint (N.to_uint (Z.to_N n))) = Some n).
  { unfold atoi_unsigned. rewrite NilZero.usu.
    - rewrite DecimalN.Unsigned.of_to. f_equal. lia.
    - destruct (Z.to_N n); [done|]. apply DecimalPos.Unsigned.to_uint_nonnil. }
  assert (Hfirst : Atoi (NilZero.string_of_uint (N.to_uint (Z.to_N n))) = Some n).
  { unfold Atoi. destruct (N.to_uint (Z.to_N n)) eqn:E; cbn [NilZero.string_of_uint NilEmpty.string_of_uint];
      cbn [NilZero.string_of_uint NilEmpty.string_of_uint] in Hu; rewrite Hu;
      by rewrite (proj2 (Z.leb_le int64_min n)), (proj2 (Z.leb_le n int64_max))
        by (unfold int64_min, int64_max in *; lia). }
  by destruct n as [|p|p]; [..|lia].
Qed.

(** A decimal numeral: digits only, at least one. *)
Definition digit (b : ascii) : bool := in_range 48 57 (code b).

Lemma string_of_uint_digits u b :
  b ∈ to_bytes (NilEmpty.string_of_uint u) -> digit b = true.
Proof.
  induction u; simpl; rewrite ?elem_of_cons; [intros H; by apply not_elem_of_nil in H|..];
    intros [->|Hin]; (reflexivity || by apply IHu).
Qed.

Lemma Itoa_digits n b : 0 <= n -> b ∈ to_bytes (Itoa n) -> digit b = true.
Proof.
  intros Hn. assert (H : b ∈ to_bytes (NilZero.string_of_uint (N.to_uint (Z.to_N n))) ->
    digit b = true).
  { destruct (N.to_uint (Z.to_N n)) eqn:E; cbn [NilZero.string_of_uint];
      [|apply string_of_uint_digits..].
    intros ->%list_elem_of_singleton. reflexivity. }
  by destruct n; [..|lia].
Qed.

Lemma digit_visible b : digit b = true -> visible b.
Proof.
  unfold visible. intros H. enough ((code b <? 128) && negb (IsSpace (code b)) = true) as E.
  { apply andb_true_iff in E as [E1 E2]. apply Z.ltb_lt in E1. by apply negb_true_iff in E2. }
  destruct b as [[] [] [] [] [] [] [] []]; revert H; vm_compute; done.
Qed.

Lemma Itoa_nonempty n : 0 <= n -> to_bytes (Itoa n) <> [].
Proof.
  intros Hn. assert (H : to_bytes (NilZero.string_of_uint (N.to_uint (Z.to_N n))) <> [])
    by (by destruct (N.to_uint (Z.to_N n))).
  by destruct n; [..|lia].
Qed.

Lemma Itoa_last n : 0 <= n -> exists b, last (to_bytes (Itoa n)) = Some b /\ visible b.
Proof.
  intros Hn. destruct (last (to_bytes (Itoa n))) as [b|] eqn:E.
  - exists b. split; [done|]. apply digit_visible, (Itoa_digits n); [done|].
    by apply last_Some_elem_of.
  - apply last_None in E. by destruct (Itoa_nonempty n).
Qed.

Lemma Itoa_no_sep n sep : 0 <= n -> digit sep = false -> sep ∉ to_bytes (Itoa n).
Proof. intros Hn Hs Hin. apply Itoa_digits in Hin; [congruence|done]. Qed.

Lemma Atoi_range s v : Atoi s = Some v -> int64_min <= v <= int64_max.
Proof.
  unfold Atoi. intros H. case_match; [|done].
  destruct ((int64_min <=? _) && (_ <=? int64_max)) eqn:E; simplify_eq.
  apply andb_true_iff in E as [E1%Z.leb_le E2%Z.leb_le]. lia.
Qed.

Lemma to_bytes_app s t : to_bytes (String.append s t) = to_bytes s ++ to_bytes t.
Proof. induction s as [|c s IH]; simpl; [done|]. by rewrite IH. Qed.

(** *** Keys made by joining parts *)

Definition free_of (sep : ascii) (s : string) : Prop := sep ∉ to_bytes s.

Lemma cut_inj sep a b x y : free_of sep a -> free_of sep b ->
  String.append a (String sep x) = String.append b (String sep y) -> a = b /\ x = y.
Proof.
  unfold free_of. revert b. induction a as [|c a IH]; intros [|d b]; simpl; intros Ha Hb E;
    simplify_eq.
  - done.
  - exfalso. apply Hb. by left.
  - exfalso. apply Ha. by left.
  - rewrite not_elem_of_cons in Ha, Hb. destruct (IH b) as [-> ->]; tauto.
Qed.

Lemma Join_inj sep l k :
  Forall (fun s => free_of sep s /\ s <> EmptyString) l ->
  Forall (fun s => free_of sep s /\ s <> EmptyString) k ->
  Join l sep = Join k sep -> l = k.
Proof.
  intros Hl Hk E. assert (Eb : join_on sep (to_bytes <$> l) = join_on sep (to_bytes <$> k))
    by (rewrite <- (to_of_bytes (join_on sep (to_bytes <$> l))),
          <- (to_of_bytes (join_on sep (to_bytes <$> k))); exact (f_equal to_bytes E)).
  assert (Hempty : forall m, Forall (fun s => free_of sep s /\ s <> EmptyString) m ->
    join_on sep (to_bytes <$> m) = [] -> m = []).
  { intros [|s m] Hm Hj; [done|]. apply Forall_cons in Hm as [[_ Hs] _]. destruct s; [done|].
    by destruct m. }
  destruct l as [|s l]; [symmetry; by apply Hempty|]. destruct k as [|t k]; [by apply Hempty|].
  assert (Hf : forall m, Forall (fun s => free_of sep s /\ s <> EmptyString) m ->
    Forall (fun p => sep ∉ p) (to_bytes <$> m)).
  { intros m Hm. apply Forall_fmap. eapply Forall_impl; [exact Hm|]. by intros ? [? _]. }
  apply (f_equal (split_on sep)) in Eb. rewrite !split_join in Eb by (done || by apply Hf).
  apply (f_equal (fmap of_bytes)) in Eb. by rewrite !of_to_map in Eb.
Qed.
