(* ===== verification/Net.v ===== *)
(** Addresses and networks: what the program uses of Go's [net] and [net/netip].

    An address is a number and the family it was written in; a [net.IP] is the same
    address in 16 bytes, an IPv4 one mapped into IPv6.  Zones are refused by every
    function here, as by each of their callers. *)

From Stdlib Require Import Ascii String.
From S2P Require Import Prelude GoStrings.

#[local] Open Scope Z_scope.

Module Net.

(** ** Addresses *)

Inductive Addr := V4 (a : Z) | V6 (a : Z).

#[global] Instance Addr_eq_dec : EqDecision Addr.
Proof. solve_decision. Defined.

Definition BitLen (a : Addr) : Z := match a with V4 _ => 32 | V6 _ => 128 end.
Definition number (a : Addr) : Z := match a with V4 a | V6 a => a end.

Definition digit_value (b : ascii) : option Z :=
  if digit b then Some (code b - 48) else None.
Definition hex_value (b : ascii) : option Z :=
  if digit b then Some (code b - 48)
  else if in_range 97 102 (code b) then Some (code b - 87)
  else if in_range 65 70 (code b) then Some (code b - 55)
  else None.

(** A number of a dotted quad: no leading zeros, and a byte. *)
Fixpoint quad_value (acc : Z) (l : list ascii) : option Z :=
  match l with
  | [] => Some acc
  | b :: l =>
      v ← digit_value b;
      let acc := acc * 10 + v in
      if 255 <? acc then None else quad_value acc l
  end.
Definition quad_field (l : list ascii) : option Z :=
  match l with
  | [] => None
  | [b] => digit_value b
  | b :: _ => if Ascii.eqb b "0" then None else quad_value 0 l
  end.

Definition parse_v4 (l : list ascii) : option Z :=
  match split_on "." l with
  | [a; b; c; d] =>
      a ← quad_field a; b ← quad_field b; c ← quad_field c; d ← quad_field d;
      Some (((a * 256 + b) * 256 + c) * 256 + d)
  | _ => None
  end.

(** The hexadecimal digits a group begins with, at most four of them, their value and
    what follows; [None] where there are more. *)
Fixpoint hex_group (n : nat) (acc : Z) (l : list ascii) : option (nat * Z * list ascii) :=
  match l with
  | [] => Some (n, acc, [])
  | b :: l' =>
      match hex_value b with
      | None => Some (n, acc, l)
      | Some v => if Nat.leb 4 n then None else hex_group (S n) (acc * 16 + v) l'
      end
  end.

(** The groups of an IPv6 address after an opening [::] was taken: those before the
    ellipsis, and those after it where there is one.  [room] is how many of the eight
    are left. *)
Fixpoint groups_v6 (room : nat) (before : list Z) (after : option (list Z)) (l : list ascii)
    : option (list Z * option (list Z)) :=
  let add v := match after with
               | None => (before ++ v, None)
               | Some after => (before, Some (after ++ v))
               end in
  match room with
  | O => None
  | S room' =>
      match hex_group 0 0 l with
      | None | Some (O, _, _) => None
      | Some (S _, acc, rest) =>
          match rest with
          | [] => Some (add [acc])
          | "."%char :: _ =>
              if match after with None => negb (Nat.eqb room 2) | Some _ => Nat.ltb room 2 end then None
              else a ← parse_v4 l; Some (add [a / 65536; a mod 65536])
          | ":"%char :: rest =>
              let '(before', after') := add [acc] in
              match rest with
              | [] => None
              | ":"%char :: rest =>
                  match after with
                  | Some _ => None
                  | None =>
                      match rest with
                      | [] => Some (before', Some [])
                      | _ => if Nat.eqb room' 0 then None else groups_v6 room' before' (Some []) rest
                      end
                  end
              | _ => if Nat.eqb room' 0 then None else groups_v6 room' before' after' rest
              end
          | _ => None
          end
      end
  end.

Definition of_groups (gs : list Z) : Z := foldl (fun acc g => acc * 65536 + g) 0 gs.

Definition parse_v6 (l : list ascii) : option Z :=
  match
    match l with
    | ":"%char :: ":"%char :: [] => Some ([], Some [])
    | ":"%char :: ":"%char :: rest => groups_v6 8 [] (Some []) rest
    | _ => groups_v6 8 [] None l
    end
  with
  | None => None
  | Some (before, None) => if Nat.eqb (length before) 8 then Some (of_groups before) else None
  | Some (before, Some after) =>
      let n := (length before + length after)%nat in
      if Nat.ltb n 8 then Some (of_groups (before ++ replicate (8 - n) 0 ++ after)) else None
  end.

(** [netip.ParseAddr]. *)
Definition ParseAddr (s : string) : option Addr :=
  let l := to_bytes s in
  match find_first (fun b => Ascii.eqb b "." || Ascii.eqb b ":" || Ascii.eqb b "%") l with
  | Some b =>
      if Ascii.eqb b "." then V4 <$> parse_v4 l
      else if Ascii.eqb b ":" then V6 <$> parse_v6 l
      else None
  | None => None
  end.

(** ** [net.IP] *)

(** [As16]. *)
Definition mapped : Z := 65535 * 2 ^ 32.
Definition As16 (a : Addr) : Z := match a with V4 a => mapped + a | V6 a => a end.

(** [IP.To4]. *)
Definition To4 (ip : Z) : option Z :=
  if Z.shiftr ip 32 =? 65535 then Some (Z.land ip (2 ^ 32 - 1)) else None.

Definition ParseIP (s : string) : option Z := As16 <$> ParseAddr s.

(** [dtoi], below its bound. *)
Definition mask_value (l : list ascii) : option Z :=
  match l with
  | [] => None
  | _ => foldl (fun acc b => n ← acc; v ← digit_value b;
                             if n * 10 + v <? 16777215 then Some (n * 10 + v) else None) (Some 0) l
  end.

(** The address of [net.ParseCIDR]. *)
Definition ParseCIDR (s : string) : option Z :=
  match Cut s "/" with
  | (addr, mask, true) =>
      a ← ParseAddr addr; n ← mask_value (to_bytes mask);
      if BitLen a <? n then None else Some (As16 a)
  | _ => None
  end.

Definition IsUnspecified (ip : Z) : bool := (ip =? mapped) || (ip =? 0).
Definition IsLoopback (ip : Z) : bool :=
  match To4 ip with Some a => Z.shiftr a 24 =? 127 | None => ip =? 1 end.
Definition IsLinkLocalMulticast (ip : Z) : bool :=
  match To4 ip with
  | Some a => Z.shiftr a 8 =? 224 * 65536
  | None => Z.land (Z.shiftr ip 112) (65295) =? 65282
  end.
Definition IsLinkLocalUnicast (ip : Z) : bool :=
  match To4 ip with
  | Some a => Z.shiftr a 16 =? 169 * 256 + 254
  | None => Z.land (Z.shiftr ip 112) 65472 =? 65152
  end.

(** ** [netip.Prefix] *)

Record Prefix := mkPrefix { p_Addr : Addr; p_Bits : Z }.

#[global] Instance Prefix_eq_dec : EqDecision Prefix.
Proof. solve_decision. Defined.

(** [netip.ParsePrefix]. *)
Definition ParsePrefix (s : string) : option Prefix :=
  match cut_last ["/"%char] (to_bytes s) with
  | Some (addr, bits) =>
      a ← ParseAddr (of_bytes addr);
      match bits with
      | b :: _ :: _ =>
          if in_range 49 57 (code b) then
            n ← Atoi (of_bytes bits);
            if (n <? 0) || (BitLen a <? n) then None else Some (mkPrefix a n)
          else None
      | _ =>
          n ← Atoi (of_bytes bits);
          if (n <? 0) || (BitLen a <? n) then None else Some (mkPrefix a n)
      end
  | None => None
  end.

Definition IsSingleIP (p : Prefix) : bool := p_Bits p =? BitLen (p_Addr p).

Definition mask (width bits a : Z) : Z := Z.shiftl (Z.shiftr a (width - bits)) (width - bits).

Definition Masked (p : Prefix) : Prefix :=
  match p with
  | mkPrefix (V4 a) bits => mkPrefix (V4 (mask 32 bits a)) bits
  | mkPrefix (V6 a) bits => mkPrefix (V6 (mask 128 bits a)) bits
  end.

(** What [comparePrefixes] compares, [Addr.Compare] first: the family, the number, and
    then the length. *)
Definition prefix_key (p : Prefix) : list Z :=
  [BitLen (p_Addr p); number (p_Addr p); p_Bits p].

Lemma prefix_key_inj p q : prefix_key p = prefix_key q -> p = q.
Proof.
  destruct p as [[a|a] m], q as [[b|b] n]; unfold prefix_key; simpl; congruence.
Qed.

(** ** Text *)

Definition v4_String (a : Z) : string :=
  String.concat "." (Itoa <$> [a / 2 ^ 24; a / 2 ^ 16 mod 256; a / 2 ^ 8 mod 256; a mod 256]).

Definition hex_digit (v : Z) : ascii :=
  ascii_of_N (Z.to_N (if v <? 10 then v + 48 else v + 87)).
Fixpoint hex_digits (n : nat) (v : Z) : list ascii :=
  match n with
  | O => []
  | S n => if v <? 16 then [hex_digit v] else hex_digits n (v / 16) ++ [hex_digit (v mod 16)]
  end.

Definition groups (a : Z) : list Z :=
  (fun i => Z.land (Z.shiftr a (16 * i)) 65535) <$> [7; 6; 5; 4; 3; 2; 1; 0].

Fixpoint zeros (l : list Z) : nat :=
  match l with 0 :: l => S (zeros l) | _ => O end.
(** The first longest run of at least two zero groups: where it starts and ends. *)
Fixpoint longest_run (i : nat) (best : nat * nat) (l : list Z) : nat * nat :=
  match l with
  | [] => best
  | _ :: l' =>
      let n := zeros l in
      let best := if Nat.leb 2 n && Nat.ltb (best.2 - best.1) n then (i, i + n)%nat else best in
      longest_run (S i) best l'
  end.

Definition join_groups (gs : list Z) : string :=
  String.concat ":" ((fun g => of_bytes (hex_digits 4 g)) <$> gs).

Definition v6_String (a : Z) : string :=
  let gs := groups a in
  match longest_run 0 (O, O) gs with
  | (_, O) => join_groups gs
  | (i, j) => join_groups (take i gs) ++ "::" ++ join_groups (drop j gs)
  end.

Definition Addr_String (a : Addr) : string :=
  match a with
  | V4 a => v4_String a
  | V6 a =>
      match To4 a with Some v4 => "::ffff:" ++ v4_String v4 | None => v6_String a end
  end.

Definition Prefix_String (p : Prefix) : string :=
  Addr_String (p_Addr p) ++ "/" ++ Itoa (p_Bits p).

End Net.
