(* ===== verification/Handles.v ===== *)
(** The identities a volume travels under.

    [atlas-lib/lvol]: the volume handle and its parser ([handle.go]), the
    constructor and the strict splitter ([volume.go]), the choice between a
    field's handle and an annotation's ([normalized.go]), the handles of a group
    snapshot and of a consistency group.  [atlas-lib/nqn]: the NVMe qualified
    names of subsystems and hosts.  Parsing a UUID is [github.com/google/uuid],
    which is a parameter here with the documented behaviour the code relies on:
    a valid UUID of 36 bytes is written in hexadecimal digits and dashes. *)

From Stdlib Require Import Ascii String.
From S2P Require Import Prelude GoStrings.

#[local] Open Scope string_scope.
#[local] Unset Default Proof Using.

(** A hexadecimal digit of either case, or a dash. *)
Definition hex_or_dash (b : ascii) : bool :=
  (in_range 48 57 (code b) || in_range 65 70 (code b) || in_range 97 102 (code b) ||
   (code b =? 45))%Z.

Section Identities.

(** [uuid.Validate(s) == nil] and [uuid.Parse]. *)
Context (Validate : string -> bool).
Context {UUID : Type} (Nil : UUID) (uuid_Parse : string -> option UUID).

(** ** The volume handle ([lvol/handle.go], [lvol/volume.go]) *)

Definition VolumeHandle : Type := string.

Definition handleSeparator : ascii := ":".

Record Handle := mkHandle {
  ClusterID : string;
  VolumeID : string;
  PoolRef : string;
}.

Definition IsCanonicalUUID (s : string) : bool :=
  Nat.eqb (String.length s) 36 && Validate s.

Definition ParseHandle (h : VolumeHandle) : Handle * bool :=
  match Split (TrimSpace h) handleSeparator with
  | [clusterID; poolRef; volumeID] =>
      if negb (IsCanonicalUUID clusterID) || String.eqb poolRef "" ||
         negb (IsCanonicalUUID volumeID)
      then (mkHandle "" "" "", false)
      else (mkHandle clusterID volumeID poolRef, true)
  | _ => (mkHandle "" "" "", false)
  end.

(** [Handle.String], and [Handle.Handle], which converts it. *)
Definition handle_String (h : Handle) : string :=
  Join [ClusterID h; PoolRef h; VolumeID h] handleSeparator.

Definition NewVolumeHandle (clusterID poolID volumeID : string) : VolumeHandle :=
  clusterID ++ ":" ++ poolID ++ ":" ++ volumeID.

(** The segment a handle could not be split at. *)
Inductive split_error := ErrShape | ErrClusterID | ErrPoolID | ErrVolumeID.

Definition handle_Split (h : VolumeHandle) : UUID * UUID * UUID * error_of split_error :=
  match Split (TrimSpace h) ":" with
  | [part0; part1; part2] =>
      match uuid_Parse part0 with
      | None => (Nil, Nil, Nil, Some ErrClusterID)
      | Some clusterID =>
          match uuid_Parse part1 with
          | None => (Nil, Nil, Nil, Some ErrPoolID)
          | Some poolID =>
              match uuid_Parse part2 with
              | None => (Nil, Nil, Nil, Some ErrVolumeID)
              | Some volumeID => (clusterID, poolID, volumeID, None)
              end
          end
      end
  | _ => (Nil, Nil, Nil, Some ErrShape)
  end.

(** ** The normalized handle ([lvol/normalized.go]) *)

(** Why an annotation was not taken; the sentence reported says the same. *)
Inductive ignored :=
| NotIgnored
| NotWellFormed (annotated : VolumeHandle)
| OtherCluster (claimed actual : string)
| OtherVolume (claimed actual : string).

Record Normalized := mkNormalized {
  n_Handle : Handle;
  FromAnnotation : bool;
  Ignored : ignored;
}.

Definition NormalizeHandle (field annotated : VolumeHandle) : option Normalized :=
  let '(on, wellFormed) := ParseHandle field in
  if negb wellFormed then None
  else
    let '(claimed, wellFormed) := ParseHandle annotated in
    if String.eqb (TrimSpace annotated) ""
    then Some (mkNormalized on false NotIgnored)
    else if negb wellFormed
    then Some (mkNormalized on false (NotWellFormed annotated))
    else if negb (String.eqb (ClusterID claimed) (ClusterID on))
    then Some (mkNormalized on false (OtherCluster (ClusterID claimed) (ClusterID on)))
    else if negb (String.eqb (VolumeID claimed) (VolumeID on))
    then Some (mkNormalized on false (OtherVolume (VolumeID claimed) (VolumeID on)))
    else Some (mkNormalized claimed true NotIgnored).

(** ** Group handles ([lvol/groupsnapshot.go], [lvol/grouphandle.go]) *)

Record GroupSnapshotHandle := mkGroupSnapshot {
  gs_ClusterID : string;
  gs_PoolRef : string;
  gs_GroupID : string;
  gs_Seq : Z;
}.

Definition ParseGroupSnapshotHandle (s : string) : option GroupSnapshotHandle :=
  match Split (TrimSpace s) handleSeparator with
  | [part0; part1; part2; part3] =>
      match Atoi part3 with
      | None => None
      | Some seq =>
          if (seq <? 0)%Z then None
          else if negb (IsCanonicalUUID part0) || String.eqb part1 "" ||
                  negb (IsCanonicalUUID part2)
          then None
          else Some (mkGroupSnapshot part0 part1 part2 seq)
      end
  | _ => None
  end.

Definition groupSnapshot_String (h : GroupSnapshotHandle) : string :=
  Join [gs_ClusterID h; gs_PoolRef h; gs_GroupID h; Itoa (gs_Seq h)] handleSeparator.

Definition groupHandlePrefix : string := "cg".

Record GroupHandle := mkGroup {
  g_ClusterID : string;
  g_GroupID : string;
}.

Definition ParseGroupHandle (h : VolumeHandle) : option GroupHandle :=
  match Split (TrimSpace h) handleSeparator with
  | [part0; clusterID; groupID] =>
      if negb (String.eqb part0 groupHandlePrefix) then None
      else if negb (IsCanonicalUUID clusterID) || negb (IsCanonicalUUID groupID) then None
      else Some (mkGroup clusterID groupID)
  | _ => None
  end.

Definition group_String (h : GroupHandle) : string :=
  Join [groupHandlePrefix; g_ClusterID h; g_GroupID h] handleSeparator.

Definition IsGroupHandle (h : VolumeHandle) : bool :=
  match ParseGroupHandle h with Some _ => true | None => false end.

(** ** NVMe qualified names ([nqn/nqn.go]) *)

Definition DefaultPrefix : string := "nqn.2023-02.io.simplyblock".
Definition lvolMarker : string := "lvol".
Definition HostPrefix : string := "nqn.2014-08.io.simplyblock".
Definition uuidMarker : string := "uuid".

Definition Host (nodeUID : string) : string :=
  HostPrefix ++ ":" ++ uuidMarker ++ ":" ++ nodeUID.

Definition cutLast (s sep : string) : string * string * bool :=
  match cut_last (to_bytes sep) (to_bytes s) with
  | Some (before, after) => (of_bytes before, of_bytes after, true)
  | None => (s, "", false)
  end.

Definition HostUUID (hostNQN : string) : string * bool :=
  let '(_, id, found) := cutLast hostNQN (":" ++ uuidMarker ++ ":") in
  if negb found || negb (Validate id) then ("", false) else (id, true).

Record Subsystem := mkSubsystem {
  Prefix : string;
  s_ClusterID : string;
  LvolID : string;
}.

Definition BuildWithPrefix (prefix clusterID logicalVolumeID : string) : Subsystem :=
  mkSubsystem prefix clusterID logicalVolumeID.

Definition Build (clusterID logicalVolumeID : string) : Subsystem :=
  BuildWithPrefix DefaultPrefix clusterID logicalVolumeID.

(** [Subsystem.String]. *)
Definition subsystem_String (s : Subsystem) : string :=
  Prefix s ++ ":" ++ s_ClusterID s ++ ":" ++ lvolMarker ++ ":" ++ LvolID s.

Definition MakeWithPrefix (prefix clusterID logicalVolumeID : string) : string :=
  prefix ++ ":" ++ clusterID ++ ":" ++ lvolMarker ++ ":" ++ logicalVolumeID.

Definition Make (clusterID logicalVolumeID : string) : string :=
  MakeWithPrefix DefaultPrefix clusterID logicalVolumeID.

Definition nqn_Parse (nqn : string) : Subsystem * bool :=
  let '(rest, logicalVolumeID, found) := Cut nqn (":" ++ lvolMarker ++ ":") in
  if negb found then (mkSubsystem "" "" "", false)
  else
    let '(prefix, clusterID, found) := cutLast rest ":" in
    if negb found || String.eqb prefix "" || String.eqb clusterID "" ||
       String.eqb logicalVolumeID ""
    then (mkSubsystem "" "" "", false)
    else (mkSubsystem prefix clusterID logicalVolumeID, true).

(** ** What the identities promise *)

(** Of a UUID that validates and is 36 bytes long: [uuid.Validate] documents
    that form as hexadecimal digits and dashes. *)
Hypothesis canonical_spelling : forall s,
  IsCanonicalUUID s = true -> forallb hex_or_dash (to_bytes s) = true.

Lemma hex_no_sep l : forallb hex_or_dash l = true -> handleSeparator ∉ l.
Proof.
  rewrite forallb_forall. intros H Hin%list_elem_of_In. by apply H in Hin.
Qed.

Lemma hex_visible b : hex_or_dash b = true -> visible b.
Proof.
  unfold visible. intros H. enough ((code b <? 128)%Z && negb (IsSpace (code b)) = true) as E.
  { apply andb_true_iff in E as [E1 E2]. apply Z.ltb_lt in E1. by apply negb_true_iff in E2. }
  destruct b as [[] [] [] [] [] [] [] []]; revert H; vm_compute; done.
Qed.

Lemma canonical_no_sep s : IsCanonicalUUID s = true -> handleSeparator ∉ to_bytes s.
Proof. intros H. by apply hex_no_sep, canonical_spelling. Qed.

(** A canonical UUID begins and ends in a byte that no trim removes. *)
Lemma canonical_ends s : IsCanonicalUUID s = true ->
  exists a l b, to_bytes s = a :: l /\ visible a /\ last (to_bytes s) = Some b /\ visible b.
Proof.
  intros H. pose proof (canonical_spelling s H) as Hh. rewrite forallb_forall in Hh.
  unfold IsCanonicalUUID in H. apply andb_true_iff in H as [Hl _]. apply Nat.eqb_eq in Hl.
  destruct (to_bytes s) as [|a l] eqn:E.
  { rewrite <- (of_to_bytes s), E in Hl. done. }
  destruct (last (a :: l)) as [b|] eqn:Eb; [|by apply last_None in Eb].
  exists a, l, b. repeat split; try done; try (apply hex_visible, Hh; by left);
    apply hex_visible, Hh, list_elem_of_In; by apply last_Some_elem_of.
Qed.

Lemma TrimSpace_join p ps q :
  IsCanonicalUUID p = true -> (exists b, last (to_bytes q) = Some b /\ visible b) ->
  TrimSpace (Join (p :: ps ++ [q]) handleSeparator) = Join (p :: ps ++ [q]) handleSeparator.
Proof.
  intros Hp (b & Hb & Hvis). apply TrimSpace_visible.
  destruct (canonical_ends p Hp) as (a & l & _ & Ha & Hva & _).
  unfold visible_ends. rewrite (head_join _ _ _ _ _ Ha).
  rewrite (last_join _ (p :: ps) q b Hb). done.
Qed.

(** A handle whose parts are what the grammar asks for. *)
Definition handle_ok (h : Handle) : Prop :=
  IsCanonicalUUID (ClusterID h) = true /\ IsCanonicalUUID (VolumeID h) = true /\
  PoolRef h <> "" /\ handleSeparator ∉ to_bytes (PoolRef h).

Lemma canonical_last s : IsCanonicalUUID s = true ->
  exists b, last (to_bytes s) = Some b /\ visible b.
Proof. intros H. destruct (canonical_ends s H) as (_ & _ & b & _ & _ & ? & ?). eauto. Qed.

Lemma negb_if {A} (b : bool) (x y : A) : (if negb b then x else y) = if b then y else x.
Proof. by destruct b. Qed.

Lemma handle_String_trimmed h :
  handle_ok h -> TrimSpace (handle_String h) = handle_String h.
Proof. intros (Hc & Hv & _). apply (TrimSpace_join _ [PoolRef h]); [done|by apply canonical_last]. Qed.

Lemma handle_String_split h : handle_ok h ->
  Split (handle_String h) handleSeparator = [ClusterID h; PoolRef h; VolumeID h].
Proof.
  intros (Hc & Hv & _ & Hp). apply Split_Join; [done|].
  repeat constructor; [by apply canonical_no_sep|done|by apply canonical_no_sep].
Qed.

(** C38. A volume handle parses exactly when, but for surrounding whitespace, it
    is the string of a handle whose cluster and volume are canonical UUIDs and
    whose pool is any non-empty reference without a separator, and what it
    parses to is that handle: nothing is lost, invented or respelled between a
    handle and its string. *)
Theorem handle_roundtrip s h :
  ParseHandle s = (h, true) <-> handle_ok h /\ TrimSpace s = handle_String h.
Proof.
  unfold ParseHandle. split.
  - destruct (Split (TrimSpace s) handleSeparator) as [|p0 [|p1 [|p2 [|]]]] eqn:E; try done.
    destruct (IsCanonicalUUID p0) eqn:H0; [|done].
    destruct (String.eqb_spec p1 "") as [|H1]; [done|].
    destruct (IsCanonicalUUID p2) eqn:H2; [|done]. simpl. intros [= <-].
    split; [|by rewrite <- (Join_Split (TrimSpace s) handleSeparator), E].
    repeat split; try done. apply (Split_parts (TrimSpace s)). rewrite E. right. left.
  - intros [Hok ->]. rewrite handle_String_split by done.
    destruct Hok as (-> & -> & Hp & _). rewrite (proj2 (String.eqb_neq _ _) Hp).
    by destruct h.
Qed.

Lemma ParseHandle_String h : handle_ok h -> ParseHandle (handle_String h) = (h, true).
Proof.
  intros H. unfold ParseHandle. rewrite handle_String_trimmed, handle_String_split by done.
  destruct H as (-> & -> & Hp & _). rewrite (proj2 (String.eqb_neq _ _) Hp). by destruct h.
Qed.

(** What a provisioner assembles, every reader takes apart again: a handle
    built of a canonical cluster and volume and a pool reference without a
    separator, with whatever whitespace a document put around it, parses to its
    three parts, and splits into the three UUIDs they spell. *)
Theorem new_handle_read_back clusterID poolID volumeID s uc up uv :
  handle_ok (mkHandle clusterID volumeID poolID) ->
  TrimSpace s = NewVolumeHandle clusterID poolID volumeID ->
  uuid_Parse clusterID = Some uc -> uuid_Parse poolID = Some up ->
  uuid_Parse volumeID = Some uv ->
  ParseHandle s = (mkHandle clusterID volumeID poolID, true) /\
  handle_Split s = (uc, up, uv, None) /\
  NewVolumeHandle clusterID poolID volumeID =
    handle_String (mkHandle clusterID volumeID poolID).
Proof.
  intros Hok Hs Hc Hp Hv.
  assert (E : NewVolumeHandle clusterID poolID volumeID =
      handle_String (mkHandle clusterID volumeID poolID)).
  { apply to_bytes_inj. unfold NewVolumeHandle, handle_String, Join. rewrite to_of_bytes.
    cbn. by rewrite !to_bytes_app. }
  assert (Hsp : Split (TrimSpace s) handleSeparator = [clusterID; poolID; volumeID]).
  { rewrite Hs, E. by rewrite handle_String_split. }
  split; [|split; [|done]].
  - unfold ParseHandle. rewrite Hsp. destruct Hok as (H1 & H2 & H3 & _). simpl in *.
    by rewrite H1, H2, (proj2 (String.eqb_neq _ _) H3).
  - unfold handle_Split. unfold handleSeparator in Hsp. by rewrite Hsp, Hc, Hp, Hv.
Qed.

(** Metadata never redirects a volume: whatever an annotation says, the
    handle used names the cluster and the volume of the field, the field is used
    as it stands unless the annotation was taken, an annotation is taken exactly
    when it is a well-formed handle of the same cluster and volume, and one that
    is neither blank nor taken is reported. *)
Theorem annotation_only_normalizes field annotated on n :
  ParseHandle field = (on, true) -> NormalizeHandle field annotated = Some n ->
  ClusterID (n_Handle n) = ClusterID on /\ VolumeID (n_Handle n) = VolumeID on /\
  (FromAnnotation n = false -> n_Handle n = on) /\
  (FromAnnotation n = true <-> ParseHandle annotated = (n_Handle n, true) /\
     ClusterID (ParseHandle annotated).1 = ClusterID on /\
     VolumeID (ParseHandle annotated).1 = VolumeID on) /\
  (Ignored n = NotIgnored <-> FromAnnotation n = true \/ TrimSpace annotated = "").
Proof.
  clear canonical_spelling Nil uuid_Parse UUID. intros Hon. unfold NormalizeHandle. rewrite Hon. simpl.
  destruct (ParseHandle annotated) as [claimed wf] eqn:Ec.
  destruct (String.eqb_spec (TrimSpace annotated) "") as [Hb|Hb].
  { assert (wf = false) as ->.
    { unfold ParseHandle in Ec. rewrite Hb in Ec. vm_compute in Ec. by simplify_eq. }
    intros [= <-]. simpl. naive_solver. }
  destruct wf; simpl; [|intros [= <-]; simpl; naive_solver].
  destruct (String.eqb_spec (ClusterID claimed) (ClusterID on)) as [E1|E1]; simpl;
    [|intros [= <-]; simpl; naive_solver].
  destruct (String.eqb_spec (VolumeID claimed) (VolumeID on)) as [E2|E2]; simpl;
    intros [= <-]; simpl; naive_solver.
Qed.

Lemma TrimSpace_group_snapshot h :
  IsCanonicalUUID (gs_ClusterID h) = true -> (0 <= gs_Seq h)%Z ->
  TrimSpace (groupSnapshot_String h) = groupSnapshot_String h.
Proof.
  intros Hc Hs. apply (TrimSpace_join _ [gs_PoolRef h; gs_GroupID h]); [done|].
  by apply Itoa_last.
Qed.

(** A group snapshot's identity survives the wire: the string of a
    generation with a canonical cluster and group, a pool reference without a
    separator and a generation number of 63 bits parses back to it, and whatever
    parses has those properties. *)
Theorem group_snapshot_roundtrip h :
  IsCanonicalUUID (gs_ClusterID h) = true /\ IsCanonicalUUID (gs_GroupID h) = true /\
    gs_PoolRef h <> "" /\ handleSeparator ∉ to_bytes (gs_PoolRef h) /\
    (0 <= gs_Seq h <= int64_max)%Z <->
  ParseGroupSnapshotHandle (groupSnapshot_String h) = Some h.
Proof.
  split.
  - intros (Hc & Hg & Hp & Hps & Hs). unfold ParseGroupSnapshotHandle.
    rewrite TrimSpace_group_snapshot by (done || lia).
    unfold groupSnapshot_String. rewrite Split_Join; [|done|].
    + rewrite Atoi_Itoa by done. rewrite (proj2 (Z.ltb_ge _ _)) by lia.
      rewrite Hc, Hg, (proj2 (String.eqb_neq _ _) Hp). by destruct h.
    + repeat constructor; [by apply canonical_no_sep|done|by apply canonical_no_sep|].
      apply Itoa_no_sep; [simpl; lia|done].
  - unfold ParseGroupSnapshotHandle.
    destruct (Split _ handleSeparator) as [|p0 [|p1 [|p2 [|p3 [|]]]]] eqn:E; try done.
    assert (handleSeparator ∉ to_bytes p1)
      by (apply (Split_parts (TrimSpace (groupSnapshot_String h))); rewrite E; right; left).
    destruct (Atoi p3) as [seq|] eqn:Ea; [|done].
    destruct (Z.ltb_spec seq 0) as [|Hs]; [done|].
    destruct (IsCanonicalUUID p0) eqn:H0; [|done].
    destruct (String.eqb_spec p1 "") as [|H1]; [done|].
    destruct (IsCanonicalUUID p2) eqn:H2; [|done]. simpl. intros [= <-]. simpl.
    apply Atoi_range in Ea. repeat split; done || lia.
Qed.

(** The two grammars never meet: no string is both a volume's handle and a
    consistency group's, so the verbs that branch on one cannot be handed the
    other, and the handle of every group with canonical ids is read back as that
    group. *)
Theorem group_and_volume_disjoint s g :
  IsCanonicalUUID (g_ClusterID g) = true -> IsCanonicalUUID (g_GroupID g) = true ->
  (IsGroupHandle s = true -> (ParseHandle s).2 = false) /\
  ParseGroupHandle (group_String g) = Some g.
Proof.
  intros Hc Hg. split.
  - unfold IsGroupHandle, ParseGroupHandle, ParseHandle.
    destruct (Split _ handleSeparator) as [|p0 [|p1 [|p2 [|]]]]; try done.
    by destruct (String.eqb_spec p0 groupHandlePrefix) as [->|].
  - unfold ParseGroupHandle, group_String.
    rewrite TrimSpace_visible.
    + rewrite Split_Join; [|done|].
      * simpl. rewrite Hc, Hg. by destruct g.
      * repeat constructor; [|by apply canonical_no_sep..].
        apply contains_false. vm_compute. reflexivity.
    + destruct (canonical_last _ Hg) as (b & Hb & Hv).
      unfold visible_ends. rewrite (head_join _ _ _ "c"%char ["g"%char]) by done.
      rewrite (last_join _ [groupHandlePrefix; g_ClusterID g] _ b Hb).
      split; [|done]. split; vm_compute; reflexivity.
Qed.

(** ** Names on the wire *)

(** A separator that starts with a byte the text before it does not hold is not
    found before it. *)
Lemma cut_first_skip c sep x l :
  c ∉ x -> cut_first (c :: sep) (x ++ l)%list =
    match cut_first (c :: sep) l with
    | Some (b, a) => Some ((x ++ b)%list, a)
    | None => None
    end.
Proof.
  induction x as [|d x IH]; intros Hx; simpl.
  - by destruct (cut_first (c :: sep) l) as [[]|].
  - apply not_elem_of_cons in Hx as [Hne Hx].
    rewrite (proj2 (Ascii.eqb_neq c d)) by done. rewrite IH by done.
    by destruct (cut_first (c :: sep) l) as [[]|].
Qed.

Lemma cut_first_step c sep l :
  after_prefix sep (c :: l) = None ->
  cut_first sep (c :: l) =
    match cut_first sep l with
    | Some (b, a) => Some (c :: b, a)
    | None => None
    end.
Proof. intros H. cbn [cut_first]. by rewrite H. Qed.

Lemma after_prefix_second c a b p l :
  a <> b -> after_prefix (c :: a :: p) (c :: b :: l) = None.
Proof.
  intros H. cbn [after_prefix]. by rewrite Ascii.eqb_refl, (proj2 (Ascii.eqb_neq a b)).
Qed.

Lemma cut_first_here sep l : sep <> [] -> cut_first sep (sep ++ l)%list = Some ([], l).
Proof.
  destruct sep as [|c sep]; [done|]. intros _. cbn [cut_first app].
  change (c :: sep ++ l)%list with ((c :: sep) ++ l)%list. by rewrite after_prefix_app.
Qed.

Lemma Cut_Some s sep b a : Cut s sep = (b, a, true) -> s = b ++ sep ++ a.
Proof.
  unfold Cut. destruct (cut_first _ _) as [[b' a']|] eqn:E; intros H; simplify_eq.
  apply cut_first_Some in E. apply to_bytes_inj. rewrite E, !to_bytes_app. by autorewrite with sb.
Qed.

Lemma cutLast_Some s sep b a : cutLast s sep = (b, a, true) -> s = b ++ sep ++ a.
Proof.
  unfold cutLast. destruct (cut_last _ _) as [[b' a']|] eqn:E; intros H; simplify_eq.
  apply cut_last_Some in E. apply to_bytes_inj. rewrite E, !to_bytes_app. by autorewrite with sb.
Qed.

(** A subsystem's name is read as it was written: the name made of a prefix
    without a colon, a canonical cluster UUID and a volume id parses to exactly
    those parts, whatever the volume id holds, and anything that parses is the
    name of what it parses to. *)
Theorem subsystem_roundtrip prefix clusterID volumeID nqn s :
  prefix <> "" -> handleSeparator ∉ to_bytes prefix -> IsCanonicalUUID clusterID = true ->
  volumeID <> "" ->
  nqn_Parse (MakeWithPrefix prefix clusterID volumeID) =
    (BuildWithPrefix prefix clusterID volumeID, true) /\
  MakeWithPrefix prefix clusterID volumeID =
    subsystem_String (BuildWithPrefix prefix clusterID volumeID) /\
  (nqn_Parse nqn = (s, true) -> nqn = subsystem_String s).
Proof.
  intros Hp Hps Hc Hv. split; [|split; [done|]].
  - destruct (canonical_ends clusterID Hc) as (a & l & _ & Ha & _).
    assert (Hhex := canonical_spelling _ Hc). rewrite Ha in Hhex. simpl in Hhex.
    apply andb_true_iff in Hhex as [Hhex _].
    assert (Hcut : cut_first (to_bytes (":" ++ lvolMarker ++ ":"))
        (to_bytes (MakeWithPrefix prefix clusterID volumeID)) =
        Some (to_bytes (prefix ++ ":" ++ clusterID), to_bytes volumeID)).
    { unfold MakeWithPrefix.
      change (to_bytes (":" ++ lvolMarker ++ ":")) with (":"%char :: to_bytes "lvol:").
      rewrite !to_bytes_app.
      rewrite cut_first_skip by done.
      change (to_bytes ":" ++ to_bytes clusterID ++ ?l)%list
        with (":"%char :: to_bytes clusterID ++ l)%list.
      set (rest := (to_bytes clusterID ++ _)%list).
      assert (Hne : after_prefix (":"%char :: to_bytes "lvol:")
          (":"%char :: rest) = None).
      { unfold rest. rewrite Ha. apply after_prefix_second. intros <-. by vm_compute in Hhex. }
      rewrite cut_first_step by exact Hne. unfold rest.
      rewrite cut_first_skip by (by apply canonical_no_sep).
      change (to_bytes ":" ++ to_bytes lvolMarker ++ to_bytes ":" ++ to_bytes volumeID)%list
        with ((":"%char :: to_bytes "lvol:") ++ to_bytes volumeID)%list.
      rewrite cut_first_here by done. by rewrite app_nil_r. }
    unfold nqn_Parse, Cut. rewrite Hcut, of_to_bytes, of_to_bytes. simpl.
    unfold cutLast. rewrite !to_bytes_app. change (to_bytes ":") with [":"%char].
    change ([":"%char] ++ to_bytes clusterID)%list with (":"%char :: to_bytes clusterID).
    rewrite cut_last_byte by (by apply canonical_no_sep). rewrite !of_to_bytes. simpl.
    rewrite (proj2 (String.eqb_neq prefix "")), (proj2 (String.eqb_neq volumeID "")) by done.
    destruct (String.eqb_spec clusterID "") as [->|]; done.
  - unfold nqn_Parse. intros H. destruct (Cut nqn _) as [[rest vol] []] eqn:E; [|done].
    apply Cut_Some in E. destruct (cutLast rest ":") as [[p c] []] eqn:E2; [|done].
    apply cutLast_Some in E2. simpl in H.
    destruct (String.eqb p "" || String.eqb c "" || String.eqb vol ""); [done|].
    simplify_eq. unfold subsystem_String. simpl. by rewrite !string_append_assoc.
Qed.

Lemma drop_past {A} n (x l : list A) : length x <= n -> drop n (x ++ l)%list = drop (n - length x) l.
Proof. intros H. by apply drop_app_ge. Qed.

Lemma after_prefix_head c sep l : (forall l', l <> c :: l') -> after_prefix (c :: sep) l = None.
Proof.
  intros H. destruct l as [|d l]; [done|]. simpl.
  destruct (Ascii.eqb_spec c d) as [->|]; [|done]. by destruct (H l).
Qed.

(** The host identity the operator registers is the one the driver presents:
    the name composed for a node whose UID is a canonical UUID yields that UID
    back, and whatever UUID is read from any host's name is valid and is the
    text after the name's last marker, exactly as spelled. *)
Theorem host_identity uid hostNQN id :
  (IsCanonicalUUID uid = true -> HostUUID (Host uid) = (uid, true)) /\
  (HostUUID hostNQN = (id, true) ->
     Validate id = true /\ exists before, hostNQN = before ++ ":" ++ uuidMarker ++ ":" ++ id).
Proof.
  split.
  - intros Hc. unfold HostUUID, cutLast, Host.
    assert (Hhex := canonical_spelling _ Hc). assert (Hsep := canonical_no_sep _ Hc).
    rewrite !to_bytes_app.
    change (to_bytes ":" ++ to_bytes uuidMarker ++ to_bytes ":" ++ to_bytes uid)%list
      with (to_bytes ":uuid:" ++ to_bytes uid)%list.
    change (to_bytes ":" ++ to_bytes uuidMarker ++ to_bytes ":")%list with (to_bytes ":uuid:").
    rewrite cut_last_here; [|intros n Hn|done].
    + rewrite of_to_bytes. unfold IsCanonicalUUID in Hc.
      by apply andb_true_iff in Hc as [_ ->].
    + do 5 (destruct n as [|n]; [try lia; try reflexivity|]). destruct n as [|n].
      * change (drop 5 (to_bytes ":uuid:" ++ to_bytes uid)%list)
          with (":"%char :: to_bytes uid).
        destruct (to_bytes uid) as [|a l]; [done|]. apply after_prefix_second.
        intros <-. by vm_compute in Hhex.
      * change (to_bytes ":uuid:") with ((":"%char :: to_bytes "uuid:")) at 1.
        apply after_prefix_head. intros l' E. destruct Hsep.
        rewrite drop_past in E by (simpl; lia).
        rewrite <- (take_drop (S (S (S (S (S (S n))))) - length (to_bytes ":uuid:")) (to_bytes uid)), E.
        apply elem_of_app. right. left.
  - unfold HostUUID. destruct (cutLast hostNQN _) as [[b a] []] eqn:E; [|done].
    apply cutLast_Some in E. destruct (Validate a) eqn:Ev; [|done]. simpl.
    intros [= <-]. split; [done|]. by exists b.
Qed.

End Identities.

(** ** Witnesses *)

Module Spelled.

(** A validator with the documented behaviour: hexadecimal digits and dashes. *)
Definition Validate (s : string) : bool := forallb hex_or_dash (to_bytes s).
Definition Parse (s : string) : option string := if Validate s then Some s else None.

Definition cluster : string := "c30a691a-8f9d-4f7a-b3de-0d8a1f60a6ec".
Definition volume : string := "792e184c-45e0-4b8b-9d3c-2f6f0e1a7b58".
Definition handle : Handle := mkHandle cluster volume "fast".

Lemma spelled s : IsCanonicalUUID Validate s = true -> forallb hex_or_dash (to_bytes s) = true.
Proof. unfold IsCanonicalUUID. by intros [_ ?]%andb_true_iff. Qed.

Lemma handle_fits : handle_ok Validate handle.
Proof.
  split; [vm_compute; reflexivity|]. split; [vm_compute; reflexivity|]. split; [done|].
  apply contains_false. vm_compute. reflexivity.
Qed.

Lemma handle_roundtrip_witness :
  ParseHandle Validate (handle_String handle) = (handle, true) <->
  handle_ok Validate handle /\ TrimSpace (handle_String handle) = handle_String handle.
Proof. exact (handle_roundtrip Validate spelled (handle_String handle) handle). Defined.

Lemma new_handle_read_back_witness :
  ParseHandle Validate (" " ++ cluster ++ ":" ++ cluster ++ ":" ++ volume) =
    (mkHandle cluster volume cluster, true) /\
  handle_Split "" Parse (" " ++ cluster ++ ":" ++ cluster ++ ":" ++ volume) =
    (cluster, cluster, volume, None) /\
  NewVolumeHandle cluster cluster volume = handle_String (mkHandle cluster volume cluster).
Proof.
  apply (new_handle_read_back Validate "" Parse spelled).
  - split; [vm_compute; reflexivity|]. split; [vm_compute; reflexivity|]. split; [done|].
    apply contains_false. vm_compute. reflexivity.
  - vm_compute. reflexivity.
  - vm_compute. reflexivity.
  - vm_compute. reflexivity.
  - vm_compute. reflexivity.
Defined.

Definition taken : Normalized :=
  mkNormalized (mkHandle cluster volume cluster) true NotIgnored.

Lemma annotation_only_normalizes_witness :
  let annotated := handle_String (mkHandle cluster volume cluster) in
  ClusterID (n_Handle taken) = ClusterID handle /\ VolumeID (n_Handle taken) = VolumeID handle /\
  (FromAnnotation taken = false -> n_Handle taken = handle) /\
  (FromAnnotation taken = true <-> ParseHandle Validate annotated = (n_Handle taken, true) /\
     ClusterID (ParseHandle Validate annotated).1 = ClusterID handle /\
     VolumeID (ParseHandle Validate annotated).1 = VolumeID handle) /\
  (Ignored taken = NotIgnored <-> FromAnnotation taken = true \/ TrimSpace annotated = "").
Proof.
  apply (annotation_only_normalizes Validate (handle_String handle)
    (handle_String (mkHandle cluster volume cluster)) handle taken);
    vm_compute; reflexivity.
Defined.

Lemma group_snapshot_roundtrip_witness :
  let h := mkGroupSnapshot cluster "fast" volume 12 in
  IsCanonicalUUID Validate (gs_ClusterID h) = true /\
    IsCanonicalUUID Validate (gs_GroupID h) = true /\
    gs_PoolRef h <> "" /\ handleSeparator ∉ to_bytes (gs_PoolRef h) /\
    (0 <= gs_Seq h <= int64_max)%Z <->
  ParseGroupSnapshotHandle Validate (groupSnapshot_String h) = Some h.
Proof. exact (group_snapshot_roundtrip Validate spelled _). Defined.

Lemma group_and_volume_disjoint_witness :
  (IsGroupHandle Validate (group_String (mkGroup cluster volume)) = true ->
     (ParseHandle Validate (group_String (mkGroup cluster volume))).2 = false) /\
  ParseGroupHandle Validate (group_String (mkGroup cluster volume)) =
    Some (mkGroup cluster volume).
Proof.
  apply (group_and_volume_disjoint Validate spelled (group_String (mkGroup cluster volume))
    (mkGroup cluster volume)); vm_compute; reflexivity.
Defined.

Lemma subsystem_roundtrip_witness :
  nqn_Parse (MakeWithPrefix DefaultPrefix cluster volume) =
    (BuildWithPrefix DefaultPrefix cluster volume, true) /\
  MakeWithPrefix DefaultPrefix cluster volume =
    subsystem_String (BuildWithPrefix DefaultPrefix cluster volume) /\
  (nqn_Parse (Make cluster volume) = (Build cluster volume, true) ->
     Make cluster volume = subsystem_String (Build cluster volume)).
Proof.
  apply (subsystem_roundtrip Validate spelled).
  - done.
  - apply contains_false. vm_compute. reflexivity.
  - vm_compute. reflexivity.
  - done.
Defined.

Lemma host_identity_witness :
  (IsCanonicalUUID Validate volume = true -> HostUUID Validate (Host volume) = (volume, true)) /\
  (HostUUID Validate (Host volume) = (volume, true) -> Validate volume = true /\
     exists before, Host volume = before ++ ":" ++ uuidMarker ++ ":" ++ volume).
Proof. exact (host_identity Validate spelled volume (Host volume) volume). Defined.

End Spelled.
