(* ===== verification/VolStack.v ===== *)
(** A volume's node-side stack as ordered layers ([atlas-lib/volstack]).

    The record of a stack and the directory it is kept in ([record.go]), the
    layer contract ([layer.go]) and the runner that walks a plan up and down
    ([runner.go]).  A layer is whatever implements the contract: a record of
    functions on the state of the host, [W], which each call may change.  The
    directory is modelled down to what a crash can take from it: the names a
    reader sees, the names that are durable, and whether a file's bytes are.
    Every call the runner makes is kept in a log, which the code does not have
    and which the theorems are about. *)

From Stdlib Require Import Ascii String.
From S2P Require Import Prelude GoStrings Handles.

#[local] Open Scope string_scope.

(** ** Records ([record.go]) *)

Definition RecordVersion : Z := 1.

(** [Entry]: one layer as the plan named it.  [Params] is the raw JSON the layer
    declared, [None] when it declared none. *)
Inductive Entry := mkEntry {
  e_Layer : string;
  e_Params : option string;
  e_Members : list Entry;
  e_Attempted : bool;
}.

Record StackRecord := mkRecord {
  r_Version : Z;
  r_VolumeHandle : string;
  r_Plan : list Entry;
}.

(** ** The directory of records *)

(** A file's content: the record [json.Unmarshal] makes of it, or something it
    cannot read; and whether the content has been forced to the medium. *)
Inductive content := Unreadable | Holds (rec : StackRecord).

Abbreviation file := (content * bool)%type (only parsing).

(** [d_dir] is what a reader sees, [d_durable] the directory entries a loss of
    power leaves, [d_tmp] the temporary file of the write in progress, whose
    name is never a record's. *)
Record Disk := mkDisk {
  d_dir : gmap string file;
  d_durable : gmap string file;
  d_tmp : option file;
}.

(** [Store]: the directory, and which of the system calls to come will fail, one
    by one; past the end of the list they all succeed. *)
Record Store := mkStore {
  st_disk : Disk;
  st_faults : list bool;
}.

Definition next_fault (faults : list bool) : bool * list bool :=
  match faults with
  | [] => (false, [])
  | f :: faults => (f, faults)
  end.

(** [Store.path]: the name of the record's file in the store's directory. *)
Definition safe_byte (r : Z) : bool :=
  in_range 97 122 r || in_range 65 90 r || in_range 48 57 r || (r =? 45)%Z || (r =? 46)%Z.

Definition safe_char (r : Z) : ascii :=
  if safe_byte r then ascii_of_N (Z.to_N r) else "_".

(** [strings.Trim(s, ".") == ""]. *)
Definition only_dots (s : string) : bool :=
  forallb (fun b => Ascii.eqb b ".") (to_bytes s).

Definition path (handle : string) : string :=
  let safe := of_bytes (safe_char <$> runes handle) in
  (if String.eqb safe "" || only_dots safe then "_" else safe) ++ ".json".

(** The system calls of [Write], in order; [PMarshal] stands for the encoding,
    which fails without a system call. *)
Inductive prim :=
| PMarshal | PMkdirAll | PChmodDir | PCreateTemp
| PWriteTmp (rec : StackRecord) | PSyncTmp | PCloseTmp | PChmodTmp
| PRename (target : string) | POpenDir | PSyncDir.

Definition perform (p : prim) (d : Disk) : Disk :=
  match p with
  | PCreateTemp => mkDisk (d_dir d) (d_durable d) (Some (Unreadable, false))
  | PWriteTmp rec => mkDisk (d_dir d) (d_durable d) (Some (Holds rec, false))
  | PSyncTmp =>
      mkDisk (d_dir d) (d_durable d) ((fun f : file => (f.1, true)) <$> d_tmp d)
  | PRename target =>
      match d_tmp d with
      | Some f => mkDisk (<[target := f]> (d_dir d)) (d_durable d) None
      | None => d
      end
  | PSyncDir => mkDisk (d_dir d) (d_dir d) (d_tmp d)
  | PMarshal | PMkdirAll | PChmodDir | PCloseTmp | PChmodTmp | POpenDir => d
  end.

(** What a failed call leaves: a write may have written some of its bytes. *)
Definition perform_failed (p : prim) (d : Disk) : Disk :=
  match p with
  | PWriteTmp _ => mkDisk (d_dir d) (d_durable d) (Some (Unreadable, false))
  | _ => d
  end.

(** [writeAndSync] is the three calls on the temporary file, [syncDir] the last
    two, whose failure to sync is not an error. *)
Definition writeAndSync (rec : StackRecord) : list prim :=
  [PWriteTmp rec; PSyncTmp; PCloseTmp].
Definition syncDir : list prim := [POpenDir; PSyncDir].

Definition write_calls (rec : StackRecord) : list prim :=
  [PMarshal; PMkdirAll; PChmodDir; PCreateTemp] ++ writeAndSync rec ++
  [PChmodTmp; PRename (path (r_VolumeHandle rec))] ++ syncDir.

Fixpoint run_prims (ps : list prim) (s : Store) : Store * error_of prim :=
  match ps with
  | [] => (s, None)
  | p :: ps =>
      let '(failed, faults) := next_fault (st_faults s) in
      if failed then
        match p with
        | PSyncDir => run_prims ps (mkStore (st_disk s) faults)
        | _ => (mkStore (perform_failed p (st_disk s)) faults, Some p)
        end
      else run_prims ps (mkStore (perform p (st_disk s)) faults)
  end.

(** The deferred removal of the temporary file. *)
Definition remove_tmp (s : Store) : Store :=
  mkStore (mkDisk (d_dir (st_disk s)) (d_durable (st_disk s)) None) (st_faults s).

Definition versioned (rec : StackRecord) : StackRecord :=
  if (r_Version rec =? 0)%Z
  then mkRecord RecordVersion (r_VolumeHandle rec) (r_Plan rec)
  else rec.

(** The errors of the package. *)
Inductive verr :=
| ErrWrite (failed : prim)
| ErrNoRecord
| ErrRead
| ErrNotReadable
| ErrVersion (version : Z)
| ErrOutside (i : nat) (layers : nat)
| ErrRemove
| ErrNoLayers
| ErrParams (layer : string) (cause : string)
| ErrMembers (layer : string) (cause : verr)
| ErrBringUp (layer : string) (cause : string)
| ErrObserve (layer : string) (cause : string)
| ErrRelease (layer : string) (cause : string)
| ErrDestroy (layer : string) (cause : string)
| ErrCheck (layer : string) (cause : string)
| ErrHeal (layer : string) (cause : string)
| ErrGrow (layer : string) (cause : string).

(** [Store.Write]. *)
Definition Write (s : Store) (rec : StackRecord) : Store * error_of verr :=
  let '(s, err) := run_prims (write_calls (versioned rec)) s in
  (remove_tmp s, ErrWrite <$> err).

(** [Store.Load]. *)
Definition Load (s : Store) (handle : string) : Store * res verr StackRecord :=
  match d_dir (st_disk s) !! path handle with
  | None => (s, Err ErrNoRecord)
  | Some (c, _) =>
      let '(failed, faults) := next_fault (st_faults s) in
      let s := mkStore (st_disk s) faults in
      if failed then (s, Err ErrRead)
      else
        match c with
        | Unreadable => (s, Err ErrNotReadable)
        | Holds rec =>
            if negb (r_Version rec =? RecordVersion)%Z
            then (s, Err (ErrVersion (r_Version rec)))
            else (s, Ok rec)
        end
  end.

Definition mark_entry (e : Entry) : Entry :=
  mkEntry (e_Layer e) (e_Params e) (e_Members e) true.

Definition mark_record (i : nat) (rec : StackRecord) : StackRecord :=
  mkRecord (r_Version rec) (r_VolumeHandle rec) (alter mark_entry i (r_Plan rec)).

(** [Store.MarkAttempted]; the runner's index is never negative. *)
Definition MarkAttempted (s : Store) (handle : string) (i : nat) : Store * error_of verr :=
  let '(s, r) := Load s handle in
  match r with
  | Err err => (s, Some err)
  | Ok rec =>
      if length (r_Plan rec) <=? i
      then (s, Some (ErrOutside i (length (r_Plan rec))))
      else Write s (mark_record i rec)
  end%nat.

(** [Store.Remove]: a file that is not there is removed already. *)
Definition Remove (s : Store) (handle : string) : Store * error_of verr :=
  match d_dir (st_disk s) !! path handle with
  | None => (s, None)
  | Some _ =>
      let '(failed, faults) := next_fault (st_faults s) in
      if failed then (mkStore (st_disk s) faults, Some ErrRemove)
      else
        (mkStore (mkDisk (delete (path handle) (d_dir (st_disk s)))
           (d_durable (st_disk s)) (d_tmp (st_disk s))) faults, None)
  end.

(** ** Layers ([layer.go]) *)

Inductive State := StateAbsent | StatePartial | StateForeign | StateInactive | StateReady.

#[export] Instance State_eq_dec : EqDecision State.
Proof. solve_decision. Defined.

(** [State.String]. *)
Definition state_String (s : State) : string :=
  match s with
  | StateAbsent => "Absent"
  | StatePartial => "Partial"
  | StateForeign => "Foreign"
  | StateInactive => "Inactive"
  | StateReady => "Ready"
  end.

Record Geometry := mkGeometry {
  ChunkBytes : Z;
  Stripes : Z;
}.

Definition Known (g : Geometry) : bool := (0 <? ChunkBytes g)%Z && (0 <? Stripes g)%Z.

Section Stack.

(** The host's state, and a block device ([blockdev.Device]), which the runner
    passes along without looking at. *)
Context {W Device : Type}.

Record Artifact := mkArtifact {
  Devices : list Device;
  a_Path : string;
  a_Geometry : Geometry;
}.

Definition no_artifact : Artifact := mkArtifact [] "" (mkGeometry 0 0).

(** [Artifact.Device]: the one device, when there is exactly one. *)
Definition artifact_Device (a : Artifact) : option Device :=
  match Devices a with
  | [d] => Some d
  | _ => None
  end.

(** [Healer]. *)
Record Healer := mkHealer {
  h_Healthy : Artifact -> W -> W * res string bool;
  h_Heal : Artifact -> Artifact -> W -> W * error_of string;
}.

(** [Layer], with the interfaces it may implement besides: [Healer], [Grower],
    [Recorder] (whose parameters may be nil, and may fail to encode) and
    [Composite]. *)
Inductive Layer := mkLayer {
  Name : string;
  l_Observe : Artifact -> W -> W * res string (State * Artifact);
  l_Ensure : Artifact -> W -> W * res string Artifact;
  l_Release : Artifact -> W -> W * error_of string;
  l_Destroy : Artifact -> W -> W * error_of string;
  l_healer : option Healer;
  l_Grow : option (Artifact -> W -> W * res string Artifact);
  l_Params : option (option (res string string));
  l_Members : option (list Layer);
}.

Definition Plan : Type := list Layer.

Definition Names (p : Plan) : list string := Name <$> p.

(** ** The runner's state and its calls *)

Inductive event :=
| EvRecord (ok : bool)
| EvMark (i : nat) (ok : bool)
| EvRemove (ok : bool)
| EvObserve (layer : string)
| EvEnsure (layer : string)
| EvRelease (layer : string) (ok : bool)
| EvDestroy (layer : string) (ok : bool)
| EvHealthy (layer : string)
| EvHeal (layer : string)
| EvGrow (layer : string).

Record RState := mkRState {
  rs_store : Store;
  rs_world : W;
  rs_log : list event;
}.

Definition on_layer {A} (e : A -> event) (f : W -> W * A) (s : RState) : RState * A :=
  let '(w, a) := f (rs_world s) in
  (mkRState (rs_store s) w (rs_log s ++ [e a])%list, a).

Definition is_nil {E} (err : error_of E) : bool :=
  match err with None => true | Some _ => false end.

Definition on_store {E} (e : bool -> event) (f : Store -> Store * error_of E) (s : RState)
    : RState * error_of E :=
  let '(store, err) := f (rs_store s) in
  (mkRState store (rs_world s) (rs_log s ++ [e (is_nil err)])%list, err).

Definition observe (l : Layer) (below : Artifact) : RState -> RState * res string (State * Artifact) :=
  on_layer (fun _ => EvObserve (Name l)) (l_Observe l below).
Definition ensure (l : Layer) (below : Artifact) : RState -> RState * res string Artifact :=
  on_layer (fun _ => EvEnsure (Name l)) (l_Ensure l below).
Definition release (l : Layer) (below : Artifact) : RState -> RState * error_of string :=
  on_layer (fun err => EvRelease (Name l) (is_nil err)) (l_Release l below).
Definition destroy (l : Layer) (below : Artifact) : RState -> RState * error_of string :=
  on_layer (fun err => EvDestroy (Name l) (is_nil err)) (l_Destroy l below).
Definition healthy (l : Layer) (h : Healer) (own : Artifact) : RState -> RState * res string bool :=
  on_layer (fun _ => EvHealthy (Name l)) (h_Healthy h own).
Definition heal (l : Layer) (h : Healer) (below own : Artifact) : RState -> RState * error_of string :=
  on_layer (fun _ => EvHeal (Name l)) (h_Heal h below own).
Definition grow (l : Layer) (g : Artifact -> W -> W * res string Artifact) (below : Artifact)
    : RState -> RState * res string Artifact :=
  on_layer (fun _ => EvGrow (Name l)) (g below).

(** ** The runner ([runner.go]) *)

(** [recordFor]: the entry of one layer, its members recorded in order, and the
    record of a plan. *)
Fixpoint entry_for (l : Layer) : res verr Entry :=
  raw <-- match l_Params l with
          | Some (Some (Ok raw)) => Ok (Some raw)
          | Some (Some (Err cause)) => Err (ErrParams (Name l) cause)
          | Some None | None => Ok None
          end ;;
  members <--
    match l_Members l with
    | None => Ok []
    | Some ms =>
        match traverse entry_for ms with
        | Ok [] => Err (ErrMembers (Name l) ErrNoLayers)
        | Ok es => Ok es
        | Err cause => Err (ErrMembers (Name l) cause)
        end
    end ;;
  Ok (mkEntry (Name l) raw members false).

Definition recordFor (handle : string) (plan : Plan) : res verr StackRecord :=
  es <-- traverse entry_for plan ;;
  match es with
  | [] => Err ErrNoLayers
  | _ => Ok (mkRecord RecordVersion handle es)
  end.

(** [survey]: what each layer is handed and the state it is in, bottom to top. *)
Fixpoint survey_from (below : Artifact) (plan : Plan) (s : RState)
    : RState * res verr (list (Artifact * State)) :=
  match plan with
  | [] => (s, Ok [])
  | layer :: plan =>
      let '(s, r) := observe layer below s in
      match r with
      | Err err => (s, Err (ErrObserve (Name layer) err))
      | Ok (state, own) =>
          let '(s, r) := survey_from own plan s in
          (s, rest <-- r ;; Ok ((below, state) :: rest))
      end
  end.

Definition survey (plan : Plan) (s : RState) : RState * res verr (list (Artifact * State)) :=
  survey_from no_artifact plan s.

(** [attempted]: the markers of the record, or [None] when there is no record of
    that many layers to read them from. *)
Definition attempted (handle : string) (layers : nat) (s : RState)
    : RState * option (list bool) :=
  let '(store, r) := Load (rs_store s) handle in
  (mkRState store (rs_world s) (rs_log s),
   match r with
   | Ok rec => if negb (Nat.eqb (length (r_Plan rec)) layers) then None
               else Some (e_Attempted <$> r_Plan rec)
   | Err _ => None
   end).

(** [unwind]: the releases of a failing bring-up, whose own failures are left
    unreported. *)
Fixpoint release_each (layers : list (Layer * Artifact)) (s : RState) : RState :=
  match layers with
  | [] => s
  | (layer, input) :: layers => release_each layers (release layer input s).1
  end.

Definition unwind (brought : Plan) (s : RState) : RState :=
  let '(s, r) := survey brought s in
  let inputs :=
    match r with
    | Ok surveyed => surveyed.*1
    | Err _ => replicate (length brought) no_artifact
    end in
  release_each (rev (zip brought inputs)) s.

(** The loop of [Up], at layer [i] of [plan]. *)
Fixpoint up_from (handle : string) (plan : Plan) (i : nat) (rest : Plan)
    (below : Artifact) (s : RState) : RState * res verr Artifact :=
  match rest with
  | [] => (s, Ok below)
  | layer :: rest =>
      let '(s, err) := on_store (EvMark i) (fun st => MarkAttempted st handle i) s in
      match err with
      | Some err => (s, Err err)
      | None =>
          let '(s, r) := ensure layer below s in
          match r with
          | Err err => (unwind (take i plan) s, Err (ErrBringUp (Name layer) err))
          | Ok above => up_from handle plan (S i) rest above s
          end
      end
  end.

Definition Up (handle : string) (plan : Plan) (s : RState) : RState * res verr Artifact :=
  match recordFor handle plan with
  | Err err => (s, Err err)
  | Ok rec =>
      let '(s, err) := on_store EvRecord (fun st => Write st rec) s in
      match err with
      | Some err => (s, Err err)
      | None => up_from handle plan 0 plan no_artifact s
      end
  end.

(** Whether a teardown passes over a layer: it was never attempted, or the
    survey found it down already. *)
Definition already_down (state : option State) : bool :=
  match state with
  | Some StateAbsent | Some StateInactive => true
  | _ => false
  end.

Definition passed_over (mark : option bool) (state : option State) : bool :=
  match mark with
  | Some attempted => negb attempted || already_down state
  | None => already_down state
  end.

(** One step of a teardown per layer, with what it was handed, its state when
    the survey completed, and its marker when there was a record. *)
Record teardown := mkTeardown {
  t_layer : Layer;
  t_input : Artifact;
  t_state : option State;
  t_mark : option bool;
}.

Fixpoint teardowns (plan : Plan) (surveyed : option (list (Artifact * State)))
    (marks : option (list bool)) (i : nat) : list teardown :=
  match plan with
  | [] => []
  | layer :: plan =>
      mkTeardown layer
        (match surveyed ≫= lookup i with Some (input, _) => input | None => no_artifact end)
        (snd <$> (surveyed ≫= lookup i))
        (marks ≫= lookup i)
        :: teardowns plan surveyed marks (S i)
  end.

Fixpoint release_down (ts : list teardown) (s : RState) : RState * error_of verr :=
  match ts with
  | [] => (s, None)
  | t :: ts =>
      if passed_over (t_mark t) (t_state t) then release_down ts s
      else
        let '(s, err) := release (t_layer t) (t_input t) s in
        match err with
        | Some err => (s, Some (ErrRelease (Name (t_layer t)) err))
        | None => release_down ts s
        end
  end.

Definition Down (handle : string) (plan : Plan) (s : RState) : RState * error_of verr :=
  let '(s, marks) := attempted handle (length plan) s in
  let '(s, r) := survey plan s in
  let surveyed := match r with Ok surveyed => Some surveyed | Err _ => None end in
  let '(s, err) := release_down (rev (teardowns plan surveyed marks 0)) s in
  match err with
  | Some err => (s, Some err)
  | None => on_store EvRemove (fun st => Remove st handle) s
  end.

Fixpoint heal_from (below : Artifact) (plan : Plan) (s : RState) : RState * error_of verr :=
  match plan with
  | [] => (s, None)
  | layer :: plan =>
      let '(s, r) := observe layer below s in
      match r with
      | Err err =>
          match l_healer layer with
          | None => (s, Some (ErrObserve (Name layer) err))
          | Some healer =>
              let '(s, err) := heal layer healer below no_artifact s in
              match err with
              | Some err => (s, Some (ErrHeal (Name layer) err))
              | None =>
                  let '(s, r) := observe layer below s in
                  match r with
                  | Err err => (s, Some (ErrObserve (Name layer) err))
                  | Ok (_, own) => heal_from own plan s
                  end
              end
          end
      | Ok (_, own) =>
          match l_healer layer with
          | None => heal_from own plan s
          | Some healer =>
              let '(s, r) := healthy layer healer own s in
              match r with
              | Err err => (s, Some (ErrCheck (Name layer) err))
              | Ok true => heal_from own plan s
              | Ok false =>
                  let '(s, err) := heal layer healer below own s in
                  match err with
                  | Some err => (s, Some (ErrHeal (Name layer) err))
                  | None => heal_from own plan s
                  end
              end
          end
      end
  end.

Definition Heal (handle : string) (plan : Plan) (s : RState) : RState * error_of verr :=
  heal_from no_artifact plan s.

Fixpoint grow_from (below : Artifact) (plan : Plan) (s : RState) : RState * error_of verr :=
  match plan with
  | [] => (s, None)
  | layer :: plan =>
      match l_Grow layer with
      | None =>
          let '(s, r) := observe layer below s in
          match r with
          | Err err => (s, Some (ErrObserve (Name layer) err))
          | Ok (_, above) => grow_from above plan s
          end
      | Some grower =>
          let '(s, r) := grow layer grower below s in
          match r with
          | Err err => (s, Some (ErrGrow (Name layer) err))
          | Ok above => grow_from above plan s
          end
      end
  end.

Definition Grow (plan : Plan) (s : RState) : RState * error_of verr :=
  grow_from no_artifact plan s.

Fixpoint observe_from (below : Artifact) (plan : Plan) (s : RState)
    : RState * res verr Artifact :=
  match plan with
  | [] => (s, Ok below)
  | layer :: plan =>
      let '(s, r) := observe layer below s in
      match r with
      | Err err => (s, Err (ErrObserve (Name layer) err))
      | Ok (_, own) => observe_from own plan s
      end
  end.

(** [Runner.Observe]. *)
Definition ObserveStack (plan : Plan) (s : RState) : RState * res verr Artifact :=
  observe_from no_artifact plan s.

Fixpoint destroy_down (ts : list (Layer * (Artifact * State))) (s : RState)
    : RState * error_of verr :=
  match ts with
  | [] => (s, None)
  | (layer, (input, state)) :: ts =>
      if decide (state = StateAbsent) then destroy_down ts s
      else
        let '(s, err) := destroy layer input s in
        match err with
        | Some err => (s, Some (ErrDestroy (Name layer) err))
        | None => destroy_down ts s
        end
  end.

(** [Runner.Destroy]. *)
Definition DestroyStack (handle : string) (plan : Plan) (s : RState)
    : RState * error_of verr :=
  let '(s, r) := survey plan s in
  match r with
  | Err err => (s, Some err)
  | Ok surveyed =>
      let '(s, err) := destroy_down (rev (zip plan surveyed)) s in
      match err with
      | Some err => (s, Some err)
      | None => on_store EvRemove (fun st => Remove st handle) s
      end
  end.

(** ** What the calls do to the log and to the records *)

Implicit Types (s : RState) (plan : list Layer) (l : Layer).

Definition observes (ls : list Layer) : list event := EvObserve <$> Names ls.
Definition releases (ls : list Layer) : list event :=
  (fun nm => EvRelease nm true) <$> Names ls.
Definition destroys (ls : list Layer) : list event :=
  (fun nm => EvDestroy nm true) <$> Names ls.

(** The releases of an unwinding, whatever each answered. *)
Definition tries (ls : list Layer) (oks : list bool) : list event :=
  zip_with EvRelease (Names ls) oks.

(** The calls of a bring-up that goes well, from layer [i]. *)
Fixpoint bring (i : nat) (ls : list Layer) : list event :=
  match ls with
  | [] => []
  | l :: ls => EvMark i true :: EvEnsure (Name l) :: bring (S i) ls
  end.

(** What a reader finds under a volume's name. *)
Definition recorded (st : Store) (handle : string) : option StackRecord :=
  match d_dir (st_disk st) !! path handle with
  | Some (Holds rec, _) => Some rec
  | _ => None
  end.

Definition logged s s' (evs : list event) : Prop :=
  rs_log s' = (rs_log s ++ evs)%list /\ rs_store s' = rs_store s.

Lemma logged_refl s : logged s s [].
Proof. split; [by rewrite app_nil_r | done]. Qed.

Lemma logged_trans s1 s2 s3 e1 e2 :
  logged s1 s2 e1 -> logged s2 s3 e2 -> logged s1 s3 (e1 ++ e2)%list.
Proof. intros [H1 H2] [H3 H4]. split; [by rewrite H3, H1, app_assoc | congruence]. Qed.

Lemma on_layer_logged {A} e (f : W -> W * A) s s' a :
  on_layer e f s = (s', a) -> logged s s' [e a].
Proof. unfold on_layer. destruct (f (rs_world s)). by intros [= <- <-]. Qed.

Lemma survey_logged below plan s s' r :
  survey_from below plan s = (s', r) ->
  (exists n, logged s s' (observes (take n plan))) /\
  (forall surveyed, r = Ok surveyed -> length surveyed = length plan /\
     logged s s' (observes plan)).
Proof.
  revert below s s' r. induction plan as [|l plan IH]; intros below s s' r E; simpl in E.
  - simplify_eq. split; [exists 0; apply logged_refl|].
    intros ? [= <-]. split; [done|apply logged_refl].
  - destruct (observe l below s) as [s1 [[state own]|err]] eqn:Eo;
      apply on_layer_logged in Eo.
    2: { simplify_eq. split; [by exists 1|done]. }
    destruct (survey_from own plan s1) as [s2 r2] eqn:Es. simplify_eq.
    apply IH in Es as [(n & Hn) Hok]. split.
    + exists (S n). by apply (logged_trans s s1 s' [_]).
    + intros surveyed. destruct r2 as [rest|]; [|done]. intros [= <-].
      destruct (Hok rest eq_refl) as [Hl Hlog]. split; [by simpl; rewrite Hl|].
      by apply (logged_trans s s1 s' [_]).
Qed.

Lemma release_each_logged ls s :
  exists oks, length oks = length ls /\ logged s (release_each ls s) (tries ls.*1 oks).
Proof.
  revert s. induction ls as [|[l a] ls IH]; intros s; [exists []; split; [done|apply logged_refl]|].
  simpl. destruct (release l a s) as [s1 err] eqn:E. apply on_layer_logged in E.
  destruct (IH s1) as (oks & Hlen & Hoks). exists (is_nil err :: oks).
  split; [by simpl; rewrite Hlen|]. by apply (logged_trans s s1 _ [_]).
Qed.

Lemma zip_fst {A B} (xs : list A) (ys : list B) :
  length ys = length xs -> (zip xs ys).*1 = xs.
Proof. intros H. rewrite fst_zip; [done|lia]. Qed.

(** What a failing bring-up does with the layers it had brought up: it looks at
    them, then releases every one, top down. *)
Lemma unwind_logged brought s :
  exists n oks, length oks = length brought /\ logged s (unwind brought s)
    (observes (take n brought) ++ tries (rev brought) oks)%list.
Proof.
  unfold unwind, survey. destruct (survey_from _ brought s) as [s1 r] eqn:E.
  apply survey_logged in E as [(n & Hn) Hok]. exists n.
  set (inputs := match r with Ok x => x.*1 | Err _ => _ end).
  assert (Hin : length inputs = length brought).
  { unfold inputs. destruct r as [x|]; [rewrite length_fmap; by apply Hok | apply length_replicate]. }
  destruct (release_each_logged (rev (zip brought inputs)) s1) as (oks & Hlen & Hoks).
  exists oks. rewrite fmap_rev, zip_fst in Hoks by done. split.
  - by rewrite Hlen, length_rev, length_zip, Hin, Nat.min_id.
  - by apply (logged_trans s s1 _ _ _ Hn).
Qed.

(** *** The store *)

Ltac each_fault :=
  repeat match goal with
  | H : context [next_fault ?f] |- _ =>
      let b := fresh "b" in destruct (next_fault f) as [b ?]; destruct b; simplify_eq/=
  end.

(** A write that reports success leaves the record in place, synced, and every
    other name as it was; one that fails leaves every other name as it was. *)
Lemma Write_spec st rec st' err :
  Write st rec = (st', err) ->
  (err = None -> d_dir (st_disk st') =
     <[path (r_VolumeHandle rec) := (Holds (versioned rec), true)]> (d_dir (st_disk st))) /\
  (forall name, name <> path (r_VolumeHandle rec) ->
     d_dir (st_disk st') !! name = d_dir (st_disk st) !! name).
Proof.
  unfold Write, write_calls, writeAndSync, syncDir.
  assert (Hp : r_VolumeHandle (versioned rec) = r_VolumeHandle rec)
    by (unfold versioned; by case_match).
  rewrite Hp. simpl. intros H.
  destruct st as [d faults]. simpl in H.
  each_fault; split; intros; try done; by rewrite ?lookup_insert_ne.
Qed.

Lemma Load_spec st handle st' r :
  Load st handle = (st', r) ->
  st_disk st' = st_disk st /\
  (forall rec, r = Ok rec -> recorded st handle = Some rec /\ r_Version rec = RecordVersion).
Proof.
  unfold Load, recorded. destruct (d_dir (st_disk st) !! path handle) as [[c b]|].
  2: by intros [= <- <-].
  destruct (next_fault (st_faults st)) as [[] faults]; [by intros [= <- <-]|].
  destruct c as [|rec]; [by intros [= <- <-]|].
  destruct (Z.eqb_spec (r_Version rec) RecordVersion) as [Hv|]; intros [= <- <-]; [|done].
  split; [done|]. by intros ? [= <-].
Qed.

(** The layers of a record marked as attempted are the first [k]. *)
Definition marked (handle : string) (plan : list Layer) (k : nat) (rec : StackRecord) : Prop :=
  r_Version rec = RecordVersion /\ r_VolumeHandle rec = handle /\
  (e_Layer <$> r_Plan rec) = Names plan /\
  forall j e, r_Plan rec !! j = Some e -> e_Attempted e = bool_decide (j < k).

Lemma versioned_id rec : r_Version rec = RecordVersion -> versioned rec = rec.
Proof. intros H. unfold versioned. by rewrite H. Qed.

Lemma MarkAttempted_spec st handle plan k rec st' :
  recorded st handle = Some rec -> marked handle plan k rec ->
  MarkAttempted st handle k = (st', None) ->
  k < length plan /\ exists rec', recorded st' handle = Some rec' /\ marked handle plan (S k) rec'.
Proof.
  intros Hrec (Hv & Hh & Hn & Hm) E. unfold MarkAttempted in E.
  destruct (Load st handle) as [st1 [rec1|]] eqn:El; [|done].
  apply Load_spec in El as [Hd Hl]. destruct (Hl rec1 eq_refl) as [Hrec1 _].
  rewrite Hrec in Hrec1. injection Hrec1 as <-.
  destruct (Nat.leb_spec (length (r_Plan rec)) k) as [|Hk]; [done|].
  assert (Hlen : length (r_Plan rec) = length plan).
  { apply (f_equal length) in Hn. unfold Names in Hn. by rewrite !length_fmap in Hn. }
  split; [lia|]. apply Write_spec in E as [Hw _]. specialize (Hw eq_refl).
  exists (mark_record k rec). unfold recorded. rewrite Hw. simpl. rewrite Hh.
  rewrite lookup_insert_eq. rewrite versioned_id by done. split; [done|].
  repeat split; try done.
  - simpl. rewrite <- Hn. apply list_eq. intros j. rewrite !list_lookup_fmap.
    destruct (decide (j = k)) as [->|Hne].
    + rewrite list_lookup_alter_eq. by destruct (r_Plan rec !! k).
    + by rewrite list_lookup_alter_ne.
  - simpl. intros j e. destruct (decide (j = k)) as [->|Hne].
    + rewrite list_lookup_alter_eq. destruct (r_Plan rec !! k); [|done]. intros [= <-].
      simpl. symmetry. apply bool_decide_eq_true. lia.
    + rewrite list_lookup_alter_ne by done. intros He. rewrite (Hm _ _ He).
      apply bool_decide_ext. lia.
Qed.

Lemma entry_for_fresh l e : entry_for l = Ok e -> e_Layer e = Name l /\ e_Attempted e = false.
Proof.
  destruct l; simpl. repeat (case_match; simplify_eq/=); try done; by intros [= <-].
Qed.

(** [recordFor] names the plan's layers in order and marks none. *)
Lemma recordFor_marked handle plan rec :
  recordFor handle plan = Ok rec -> marked handle plan 0 rec.
Proof.
  unfold recordFor. destruct (traverse entry_for plan) as [es|] eqn:E; [|done].
  apply traverse_Ok in E. intros H.
  assert (rec = mkRecord RecordVersion handle es) as -> by (destruct es; by simplify_eq).
  repeat split; simpl.
  - clear H. induction E as [|l e ls es He _ IH]; [done|].
    apply entry_for_fresh in He as [He _]. csimpl. by rewrite He, IH.
  - intros j e He. eapply Forall2_lookup_r in He as (l & _ & Hl); [|exact E].
    by apply entry_for_fresh in Hl as [_ ->].
Qed.

Lemma on_store_logged {E} e (f : Store -> Store * error_of E) s s' err :
  on_store e f s = (s', err) ->
  rs_log s' = (rs_log s ++ [e (is_nil err)])%list /\ f (rs_store s) = (rs_store s', err) /\
  rs_world s' = rs_world s.
Proof. unfold on_store. destruct (f (rs_store s)). by intros [= <- <-]. Qed.

(** ** Bringing a stack up *)

Definition marked_to (st : Store) (handle : string) (plan : list Layer) (k : nat) : Prop :=
  exists rec, recorded st handle = Some rec /\ marked handle plan k rec.

(** How a bring-up from layer [i] ends: every layer is up; or the layer [k]
    further on could not be brought up, and the ones below it were released; or
    its marker could not be written.  [rec n] says that a record is left with the
    first [n] layers marked. *)
Definition brought_up (plan : list Layer) (i : nat) (rest : list Layer)
    (rec : nat -> Prop) (r : res verr Artifact) (evs : list event) : Prop :=
  (exists a, r = Ok a /\ evs = bring i rest /\ rec (length plan)) \/
  (exists k l cause n oks, rest !! k = Some l /\ r = Err (ErrBringUp (Name l) cause) /\
     length oks = length (take (i + k) plan) /\
     evs = (bring i (take (S k) rest) ++ observes (take n (take (i + k) plan)) ++
            tries (rev (take (i + k) plan)) oks)%list /\ rec (S (i + k))) \/
  (exists k err, k < length rest /\ r = Err err /\
     evs = (bring i (take k rest) ++ [EvMark (i + k) false])%list).

Lemma marked_weaken handle plan i rec :
  length plan <= i -> marked handle plan i rec -> marked handle plan (length plan) rec.
Proof.
  intros Hi (? & ? & Hn & Ha). repeat split; try done.
  intros j e He. rewrite (Ha _ _ He).
  apply (f_equal length) in Hn. unfold Names in Hn. rewrite !length_fmap in Hn.
  apply lookup_lt_Some in He. apply bool_decide_ext. lia.
Qed.

Lemma up_from_spec handle plan i rest below s s' r :
  rest = drop i plan -> up_from handle plan i rest below s = (s', r) ->
  marked_to (rs_store s) handle plan i ->
  exists evs, rs_log s' = (rs_log s ++ evs)%list /\
    brought_up plan i rest (marked_to (rs_store s') handle plan) r evs.
Proof.
  revert i below s. induction rest as [|l rest IH]; intros i below s Hrest E Hto; simpl in E.
  { simplify_eq. exists []. split; [by rewrite app_nil_r|]. left. exists below.
    split; [done|]. split; [done|]. destruct Hto as (rec & Hrec & Hm). exists rec.
    split; [done|]. apply (marked_weaken _ _ i); [|done].
    apply (f_equal length) in Hrest. rewrite length_drop in Hrest. simpl in Hrest. lia. }
  destruct (on_store (EvMark i) _ s) as [s1 [err|]] eqn:Em;
    apply on_store_logged in Em as (Hmk & Em & _).
  { simplify_eq. exists [EvMark i false]. split; [done|]. right. right. exists 0, err.
    rewrite Nat.add_0_r. split; [simpl; lia|done]. }
  destruct Hto as (rec & Hrec & Hm).
  destruct (MarkAttempted_spec _ _ _ _ _ _ Hrec Hm Em) as (Hi & Hto1).
  assert (Hl : plan !! i = Some l /\ rest = drop (S i) plan).
  { destruct (lookup_lt_is_Some_2 plan i Hi) as [x Hx].
    rewrite (drop_S _ x) in Hrest by done. by injection Hrest as -> ->. }
  destruct Hl as [Hl Hrest']. destruct (ensure l below s1) as [s2 [above|cause]] eqn:Ee;
    apply on_layer_logged in Ee as [He Hst].
  - apply IH in E as (evs & Hevs & Hout); [|done|by rewrite Hst].
    exists (EvMark i true :: EvEnsure (Name l) :: evs).
    split; [by rewrite Hevs, He, Hmk, <- !app_assoc|].
    destruct Hout as [(a & -> & -> & ?)|[(k & l' & cause & n & oks & Hk & -> & Hlen & -> & ?)|(k & err & Hk & -> & ->)]].
    + left. by exists a.
    + right. left. exists (S k), l', cause, n, oks. rewrite <- plus_n_Sm. done.
    + right. right. exists (S k), err. rewrite <- plus_n_Sm. split; [simpl; lia|done].
  - simplify_eq. destruct (unwind_logged (take i plan) s2) as (n & oks & Hlen & Hn & Hst2).
    exists (EvMark i true :: EvEnsure (Name l) ::
      observes (take n (take i plan)) ++ tries (rev (take i plan)) oks)%list.
    split; [by rewrite Hn, He, Hmk, <- !app_assoc|].
    right. left. exists 0, l, cause, n, oks. rewrite Nat.add_0_r.
    do 4 (split; [done|]). by rewrite Hst2, Hst.
Qed.

(** C6. The record is written before anything is done to the host, and what it
    says is what was done: a bring-up that gets past its record either ensures
    every layer once, bottom to top, each after its own marker; or, when a layer
    cannot be brought up, ensures it and the ones below it, then releases
    exactly the ones below it, top down, whatever their releases answer, and
    never destroys anything; and leaves a record of the whole plan with exactly
    the layers it had called marked.  A marker that cannot be written stops it
    before the layer's side effect. *)
Theorem up_is_written_ahead handle plan s s' r :
  Up handle plan s = (s', r) ->
  (rs_log s' = rs_log s /\ rs_world s' = rs_world s /\ exists err, r = Err err) \/
  (rs_log s' = (rs_log s ++ [EvRecord false])%list /\ rs_world s' = rs_world s /\
     exists err, r = Err err) \/
  (exists evs, rs_log s' = (rs_log s ++ EvRecord true :: evs)%list /\
     brought_up plan 0 plan (marked_to (rs_store s') handle plan) r evs).
Proof.
  unfold Up. intros E. destruct (recordFor handle plan) as [rec|err] eqn:Er.
  2: { simplify_eq. left. eauto. }
  destruct (on_store EvRecord _ s) as [s1 [err|]] eqn:Ew;
    apply on_store_logged in Ew as (Hlog & Hw & Hworld).
  { simplify_eq. right. left. simpl in Hlog. eauto. }
  right. right. assert (Hm := recordFor_marked _ _ _ Er).
  apply up_from_spec in E as (evs & Hevs & Hout); [|done|].
  - exists evs. split; [|done]. by rewrite Hevs, Hlog, <- app_assoc.
  - exists rec. apply Write_spec in Hw as [Hw _]. unfold recorded. rewrite Hw by done.
    assert (Hm' := Hm). destruct Hm as (Hv & Hh & _).
    rewrite Hh, lookup_insert_eq, versioned_id by done. done.
Qed.

(** ** Taking a stack down *)

(** The releases of a teardown that goes well. *)
Definition to_release (ts : list teardown) : list Layer :=
  t_layer <$> filter (fun t => passed_over (t_mark t) (t_state t) = false) ts.

Lemma to_release_skip t ts :
  passed_over (t_mark t) (t_state t) = true -> to_release (t :: ts) = to_release ts.
Proof. intros H. unfold to_release. rewrite filter_cons_False; congruence. Qed.

Lemma to_release_keep t ts :
  passed_over (t_mark t) (t_state t) = false ->
  to_release (t :: ts) = t_layer t :: to_release ts.
Proof. intros H. unfold to_release. by rewrite filter_cons_True. Qed.

Lemma release_down_logged ts s s' err :
  release_down ts s = (s', err) ->
  match err with
  | None => logged s s' (releases (to_release ts))
  | Some e => exists ts1 t ts2 cause, ts = (ts1 ++ t :: ts2)%list /\
      passed_over (t_mark t) (t_state t) = false /\
      e = ErrRelease (Name (t_layer t)) cause /\
      logged s s' (releases (to_release ts1) ++ [EvRelease (Name (t_layer t)) false])
  end.
Proof.
  revert s. induction ts as [|t ts IH]; intros s E; simpl in E.
  { simplify_eq. apply logged_refl. }
  destruct (passed_over (t_mark t) (t_state t)) eqn:Ep.
  - apply IH in E. destruct err as [e|].
    + destruct E as (ts1 & t' & ts2 & cause & -> & Hp & -> & Hl).
      exists (t :: ts1), t', ts2, cause. do 3 (split; [done|]).
      by rewrite to_release_skip.
    + by rewrite to_release_skip.
  - destruct (release (t_layer t) (t_input t) s) as [s1 [cause|]] eqn:Er;
      apply on_layer_logged in Er.
    + simplify_eq. exists [], t, ts, cause. done.
    + apply IH in E. destruct err as [e|].
      * destruct E as (ts1 & t' & ts2 & cause & -> & Hp & -> & Hl).
        exists (t :: ts1), t', ts2, cause. do 3 (split; [done|]).
        rewrite to_release_keep by done. by apply (logged_trans s s1 s' [_]).
      * rewrite to_release_keep by done. by apply (logged_trans s s1 s' [_]).
Qed.

Lemma Remove_spec st handle st' err :
  Remove st handle = (st', err) ->
  (err = None -> recorded st' handle = None) /\
  (err <> None -> err = Some ErrRemove /\ st_disk st' = st_disk st).
Proof.
  unfold Remove, recorded.
  destruct (d_dir (st_disk st) !! path handle) as [f|] eqn:Ed.
  - destruct (next_fault (st_faults st)) as [[] faults]; intros [= <- <-]; [done|].
    simpl. by rewrite lookup_delete_eq.
  - intros [= <- <-]. by rewrite Ed.
Qed.

(** The markers a teardown goes by. *)
Definition markers (st : Store) (handle : string) (layers : nat) : option (list bool) :=
  match (Load st handle).2 with
  | Ok rec => if Nat.eqb (length (r_Plan rec)) layers then Some (e_Attempted <$> r_Plan rec)
              else None
  | Err _ => None
  end.

Lemma attempted_spec handle layers s s' marks :
  attempted handle layers s = (s', marks) ->
  rs_log s' = rs_log s /\ st_disk (rs_store s') = st_disk (rs_store s) /\
  marks = markers (rs_store s) handle layers.
Proof.
  unfold attempted, markers. destruct (Load (rs_store s) handle) as [st r] eqn:E.
  intros [= <- <-]. split; [done|]. split; [by apply Load_spec in E as [? _]|].
  simpl. destruct r as [rec|]; [|done].
  by destruct (Nat.eqb (length (r_Plan rec)) layers).
Qed.

(** A teardown releases, top down, exactly the layers that may be held: the
    ones the record says were attempted, or all of them when there is no record
    of that many layers, less the ones a complete survey found down already.  It
    looks before it releases and does nothing else to the host.  When every
    release succeeds the volume's record is gone, or its removal is what failed;
    when one fails nothing below it is touched and the records are as they were,
    so the next teardown resumes; and when the survey fails every layer that may
    be held is released all the same. *)
Theorem down_releases_what_is_held handle plan s s' err :
  Down handle plan s = (s', err) ->
  exists n surveyed evs,
    let ts := rev (teardowns plan surveyed (markers (rs_store s) handle (length plan)) 0) in
    rs_log s' = (rs_log s ++ observes (take n plan) ++ evs)%list /\
    (surveyed = None \/ exists states, surveyed = Some states /\ length states = length plan) /\
    match err with
    | None => evs = (releases (to_release ts) ++ [EvRemove true])%list /\
        recorded (rs_store s') handle = None
    | Some (ErrRelease layer cause) => exists ts1 t ts2, ts = (ts1 ++ t :: ts2)%list /\
        layer = Name (t_layer t) /\ passed_over (t_mark t) (t_state t) = false /\
        evs = (releases (to_release ts1) ++ [EvRelease layer false])%list /\
        d_dir (st_disk (rs_store s')) = d_dir (st_disk (rs_store s))
    | Some e => e = ErrRemove /\ st_disk (rs_store s') = st_disk (rs_store s) /\
        evs = (releases (to_release ts) ++ [EvRemove false])%list
    end.
Proof.
  unfold Down. intros E.
  destruct (attempted handle (length plan) s) as [s1 marks] eqn:Ea.
  apply attempted_spec in Ea as (Hl1 & Hd1 & ->).
  destruct (survey plan s1) as [s2 r] eqn:Es. apply survey_logged in Es as [(n & Hn) Hok].
  set (surveyed := match r with Ok x => Some x | Err _ => None end) in E.
  assert (Hsv : surveyed = None \/
    exists states, surveyed = Some states /\ length states = length plan).
  { unfold surveyed. destruct r as [x|]; [|by left]. right. exists x. split; [done|].
    by apply Hok. }
  destruct (release_down _ s2) as [s3 [e|]] eqn:Er; apply release_down_logged in Er.
  - simplify_eq. destruct Er as (ts1 & t & ts2 & cause & Hts & Hp & -> & Hl).
    exists n, surveyed, (releases (to_release ts1) ++ [EvRelease (Name (t_layer t)) false])%list. simpl.
    destruct Hn as [Hn1 Hn2], Hl as [Hl2 Hl3].
    split; [by rewrite Hl2, Hn1, Hl1, <- app_assoc|]. split; [done|].
    exists ts1, t, ts2. do 4 (split; [done|]). by rewrite Hl3, Hn2, Hd1.
  - apply on_store_logged in E as (Hlog & Hrm & _). destruct Hn as [Hn1 Hn2], Er as [Hl2 Hl3].
    exists n, surveyed, (releases (to_release
      (rev (teardowns plan surveyed (markers (rs_store s) handle (length plan)) 0))) ++
      [EvRemove (is_nil err)])%list. simpl.
    split; [by rewrite Hlog, Hl2, Hn1, Hl1, <- !app_assoc|]. split; [done|].
    apply Remove_spec in Hrm as [Hgone Hkept]. destruct err as [e|].
    + destruct Hkept as [[= ->] Hd]; [done|]. split; [done|]. split; [|done].
      by rewrite Hd, Hl3, Hn2, Hd1.
    + split; [done|]. by apply Hgone.
Qed.

(** ** What each verb may do to the host *)

(** The verb made these calls only, and left the records alone. *)
Definition only (p : event -> bool) (s s' : RState) : Prop :=
  exists evs, logged s s' evs /\ forallb p evs = true.

Lemma only_refl p s : only p s s.
Proof. exists []. split; [apply logged_refl|done]. Qed.

Lemma only_trans p s1 s2 s3 : only p s1 s2 -> only p s2 s3 -> only p s1 s3.
Proof.
  intros (e1 & H1 & F1) (e2 & H2 & F2). exists (e1 ++ e2)%list.
  split; [by apply (logged_trans s1 s2 s3) | by rewrite forallb_app, F1, F2].
Qed.

Lemma only_logged p s s' evs : logged s s' evs -> forallb p evs = true -> only p s s'.
Proof. intros H Hp. by exists evs. Qed.

Ltac one_call E :=
  apply on_layer_logged in E; eapply only_trans; [by apply (only_logged _ _ _ _ E)|].

Lemma heal_from_only below plan s s' err :
  heal_from below plan s = (s', err) ->
  only (fun e => match e with EvObserve _ | EvHealthy _ | EvHeal _ => true | _ => false end)
    s s'.
Proof.
  revert below s. induction plan as [|l plan IH]; intros below s E; simpl in E.
  { simplify_eq. apply only_refl. }
  destruct (observe l below s) as [s1 [[st own]|e]] eqn:Eo; one_call Eo.
  - destruct (l_healer l) as [h|]; [|by eapply IH].
    destruct (healthy l h own s1) as [s2 [[]|e]] eqn:Eh; one_call Eh.
    + by eapply IH.
    + destruct (heal l h below own s2) as [s3 [e|]] eqn:Ex; one_call Ex;
        [simplify_eq; apply only_refl | by eapply IH].
    + simplify_eq. apply only_refl.
  - destruct (l_healer l) as [h|]; [|simplify_eq; apply only_refl].
    destruct (heal l h below no_artifact s1) as [s2 [e'|]] eqn:Ex; one_call Ex.
    + simplify_eq. apply only_refl.
    + destruct (observe l below s2) as [s3 [[st own]|e']] eqn:Eo2; one_call Eo2;
        [by eapply IH | simplify_eq; apply only_refl].
Qed.

Lemma grow_from_only below plan s s' err :
  grow_from below plan s = (s', err) ->
  only (fun e => match e with EvObserve _ | EvGrow _ => true | _ => false end) s s'.
Proof.
  revert below s. induction plan as [|l plan IH]; intros below s E; simpl in E.
  { simplify_eq. apply only_refl. }
  destruct (l_Grow l) as [g|].
  - destruct (grow l g below s) as [s1 [above|e]] eqn:Eg; one_call Eg;
      [by eapply IH | simplify_eq; apply only_refl].
  - destruct (observe l below s) as [s1 [[st own]|e]] eqn:Eo; one_call Eo;
      [by eapply IH | simplify_eq; apply only_refl].
Qed.

Lemma observe_from_only below plan s s' r :
  observe_from below plan s = (s', r) ->
  only (fun e => match e with EvObserve _ => true | _ => false end) s s'.
Proof.
  revert below s. induction plan as [|l plan IH]; intros below s E; simpl in E.
  { simplify_eq. apply only_refl. }
  destruct (observe l below s) as [s1 [[st own]|e]] eqn:Eo; one_call Eo;
    [by eapply IH | simplify_eq; apply only_refl].
Qed.

(** Acting on a live stack neither builds it nor takes it apart: a heal only
    looks, asks and repairs, a grow only looks and enlarges, and the read behind
    a publish only looks; none of them ensures, releases or destroys a layer,
    and none touches the volume's record. *)
Theorem live_verbs_are_safe handle plan s s1 e1 s2 e2 s3 r3 :
  Heal handle plan s = (s1, e1) -> Grow plan s = (s2, e2) -> ObserveStack plan s = (s3, r3) ->
  only (fun e => match e with EvObserve _ | EvHealthy _ | EvHeal _ => true | _ => false end) s s1 /\
  only (fun e => match e with EvObserve _ | EvGrow _ => true | _ => false end) s s2 /\
  only (fun e => match e with EvObserve _ => true | _ => false end) s s3.
Proof.
  intros H1%heal_from_only H2%grow_from_only H3%observe_from_only. done.
Qed.

(** The layers a deletion finds something of. *)
Definition present (ts : list (Layer * (Artifact * State))) : list Layer :=
  (filter (fun t : Layer * (Artifact * State) => t.2.2 <> StateAbsent) ts).*1.

Lemma destroy_down_spec ts s s' err :
  destroy_down ts s = (s', err) ->
  match err with
  | None => logged s s' (destroys (present ts))
  | Some e => exists ts1 t ts2 cause, ts = (ts1 ++ t :: ts2)%list /\
      t.2.2 <> StateAbsent /\ e = ErrDestroy (Name t.1) cause /\
      logged s s' (destroys (present ts1) ++ [EvDestroy (Name t.1) false])
  end.
Proof.
  revert s. induction ts as [|[l [a st]] ts IH]; intros s E; simpl in E.
  { simplify_eq. apply logged_refl. }
  unfold present. destruct (decide (st = StateAbsent)) as [->|Hne].
  - rewrite filter_cons_False by (simpl; auto). apply IH in E. destruct err as [e|]; [|done].
    destruct E as (ts1 & t & ts2 & cause & -> & Ht & -> & Hl).
    exists ((l, (a, StateAbsent)) :: ts1), t, ts2, cause. do 3 (split; [done|]).
    by rewrite filter_cons_False by (simpl; auto).
  - rewrite filter_cons_True by done.
    destruct (destroy l a s) as [s1 [e|]] eqn:Ed; apply on_layer_logged in Ed.
    + simplify_eq. by exists [], (l, (a, st)), ts, e.
    + apply IH in E. destruct err as [e|]; [|by apply (logged_trans s s1 s' [_])].
      destruct E as (ts1 & t & ts2 & cause & -> & Ht & -> & Hl).
      exists ((l, (a, st)) :: ts1), t, ts2, cause. do 3 (split; [done|]).
      rewrite filter_cons_True by done. by apply (logged_trans s s1 s' [_]).
Qed.

Lemma survey_error below plan s s' e :
  survey_from below plan s = (s', Err e) -> exists layer cause, e = ErrObserve layer cause.
Proof.
  revert below s. induction plan as [|l plan IH]; intros below s E; simpl in E; [done|].
  destruct (observe l below s) as [s1 [[st own]|c]]; [|simplify_eq; eauto].
  destruct (survey_from own plan s1) as [s2 [rest|c]] eqn:Es; simplify_eq. by eapply IH.
Qed.

(** Deleting a stack removes its durable objects top down, each before what
    it sits on, passing over the layers there is nothing of, and touches nothing
    else: it never releases and never ensures.  It does nothing at all when the
    stack cannot be surveyed; a removal that fails stops it, with everything
    below and the volume's record as they were; and on success the record is
    gone. *)
Theorem destroy_top_down handle plan s s' err :
  DestroyStack handle plan s = (s', err) ->
  (exists n layer cause, err = Some (ErrObserve layer cause) /\
     logged s s' (observes (take n plan))) \/
  (exists surveyed, length surveyed = length plan /\
     let ts := rev (zip plan surveyed) in
     match err with
     | None => recorded (rs_store s') handle = None /\
         rs_log s' = (rs_log s ++ observes plan ++ destroys (present ts) ++ [EvRemove true])%list
     | Some (ErrDestroy layer cause) => exists ts1 t ts2, ts = (ts1 ++ t :: ts2)%list /\
         layer = Name t.1 /\ t.2.2 <> StateAbsent /\
         logged s s' (observes plan ++ destroys (present ts1) ++ [EvDestroy layer false])
     | Some e => e = ErrRemove /\ st_disk (rs_store s') = st_disk (rs_store s) /\
         rs_log s' = (rs_log s ++ observes plan ++ destroys (present ts) ++ [EvRemove false])%list
     end).
Proof.
  unfold DestroyStack. intros E. destruct (survey plan s) as [s1 [surveyed|e]] eqn:Es.
  2: { simplify_eq. left. apply survey_error in Es as He. destruct He as (layer & cause & ->).
       apply survey_logged in Es as [(n & Hn) _]. by exists n, layer, cause. }
  apply survey_logged in Es as [_ Hok]. destruct (Hok surveyed eq_refl) as [Hlen Hlog].
  right. exists surveyed. split; [done|]. cbv zeta.
  destruct (destroy_down _ s1) as [s2 [e|]] eqn:Ed; apply destroy_down_spec in Ed.
  - simplify_eq. destruct Ed as (ts1 & t & ts2 & cause & Hts & Ht & -> & Hl).
    exists ts1, t, ts2. do 3 (split; [done|]). by apply (logged_trans s s1 s').
  - apply on_store_logged in E as (Hlg & Hrm & _). apply Remove_spec in Hrm as [Hgone Hkept].
    destruct Hlog as [Hl1 Hs1], Ed as [Hl2 Hs2]. rewrite Hl2, Hl1, <- !app_assoc in Hlg.
    destruct err as [e|].
    + destruct Hkept as [[= ->] Hd]; [done|]. by rewrite Hd, Hs2, Hs1.
    + split; [by apply Hgone | done].
Qed.

(** ** Layers that keep the contract *)

(** What a layer promises about the host: who holds what.  Looking changes
    nothing, bringing a layer up or releasing it is its own business and nobody
    else's, and a layer whose release succeeded is not held. *)
Class Lawful (held : string -> W -> bool) (l : Layer) : Prop := {
  observe_reads : forall below w, (l_Observe l below w).1 = w;
  ensure_own : forall below w nm, nm <> Name l -> held nm (l_Ensure l below w).1 = held nm w;
  release_own : forall below w nm, nm <> Name l -> held nm (l_Release l below w).1 = held nm w;
  release_drops : forall below w w', l_Release l below w = (w', None) -> held (Name l) w' = false;
}.

Section Contract.

Context (held : string -> W -> bool).

Implicit Types (w : W).

Lemma survey_reads below plan s s' r :
  Forall (Lawful held) plan -> survey_from below plan s = (s', r) ->
  rs_world s' = rs_world s.
Proof.
  intros H. revert below s s' r. induction H as [|l plan Hl _ IH]; intros below s s' r E;
    simpl in E; [by simplify_eq|].
  unfold observe, on_layer in E. pose proof (observe_reads below (rs_world s)) as Hr.
  destruct (l_Observe l below (rs_world s)) as [w' [[st own]|e]]; simpl in Hr; subst w'.
  - destruct (survey_from own plan _) as [s2 r2] eqn:Es. simplify_eq. by apply IH in Es.
  - by simplify_eq.
Qed.

Lemma release_each_drops ls s nm :
  Forall (Lawful held) ls.*1 ->
  held nm (rs_world (release_each ls s)) = true ->
  exists evs, rs_log (release_each ls s) = (rs_log s ++ evs)%list /\
    (EvRelease nm false ∉ evs -> held nm (rs_world s) = true /\ nm ∉ Names ls.*1).
Proof.
  revert s. induction ls as [|[l a] ls IH]; intros s H Hheld.
  { exists []. rewrite app_nil_r. split; [done|]. intros _. split; [done|].
    by apply not_elem_of_nil. }
  apply Forall_cons in H as [Hl H]. simpl in Hl, Hheld |- *.
  destruct (release l a s) as [s1 err] eqn:Er. simpl in Hheld |- *.
  apply IH in Hheld as (evs & Hlog & Hd); [|done]. assert (Er' := Er).
  apply on_layer_logged in Er' as [Hlog1 _]. exists (EvRelease (Name l) (is_nil err) :: evs).
  split; [by rewrite Hlog, Hlog1, <- app_assoc|].
  intros [Hne Hnin]%not_elem_of_cons. destruct (Hd Hnin) as [Hheld Hnames].
  unfold release, on_layer in Er.
  pose proof (release_own a (rs_world s)) as Hown.
  pose proof (release_drops a (rs_world s)) as Hdrop.
  destruct (l_Release l a (rs_world s)) as [w' err'] eqn:El. simplify_eq. simpl in *.
  assert (nm <> Name l) as Hl'.
  { intros ->. destruct err; [done|]. by rewrite (Hdrop w' eq_refl) in Hheld. }
  rewrite Hown in Hheld by done. split; [done|]. by apply not_elem_of_cons.
Qed.

Lemma unwind_drops brought s nm :
  Forall (Lawful held) brought ->
  held nm (rs_world (unwind brought s)) = true ->
  exists evs, rs_log (unwind brought s) = (rs_log s ++ evs)%list /\
    (EvRelease nm false ∉ evs -> held nm (rs_world s) = true /\ nm ∉ Names brought).
Proof.
  intros H. unfold unwind, survey. destruct (survey_from _ brought s) as [s1 r] eqn:Es.
  assert (Hw := survey_reads _ _ _ _ _ H Es). apply survey_logged in Es as [(n & Hn & _) Hok].
  set (inputs := match r with Ok x => x.*1 | Err _ => _ end).
  assert (Hz : (rev (zip brought inputs)).*1 = rev brought).
  { rewrite fmap_rev, zip_fst; [done|]. unfold inputs. destruct r as [x|].
    - rewrite length_fmap. by apply Hok.
    - by rewrite length_replicate. }
  intros Hheld. apply release_each_drops in Hheld as (evs & Hlog & Hd).
  - exists (observes (take n brought) ++ evs)%list. split; [by rewrite Hlog, Hn, <- app_assoc|].
    intros [_ Hnin]%not_elem_of_app. destruct (Hd Hnin) as [Hheld Hnames].
    rewrite Hw in Hheld. split; [done|]. rewrite Hz in Hnames. unfold Names in Hnames.
    intros Hin. apply Hnames. by rewrite fmap_rev, list_elem_of_In, <- in_rev, <- list_elem_of_In.
  - rewrite Hz. apply Forall_forall. intros l Hl. rewrite Forall_forall in H. apply H.
    by rewrite list_elem_of_In, <- in_rev, <- list_elem_of_In in Hl.
Qed.

Lemma up_from_holds handle plan i rest below s s' nm layer cause :
  Forall (Lawful held) plan -> Forall (Lawful held) rest -> rest = drop i plan ->
  up_from handle plan i rest below s = (s', Err (ErrBringUp layer cause)) ->
  nm <> layer -> held nm (rs_world s') = true ->
  exists evs, rs_log s' = (rs_log s ++ evs)%list /\
    (EvRelease nm false ∉ evs -> held nm (rs_world s) = true /\ nm ∉ Names (take i plan)).
Proof.
  intros Hp Hr. revert i below s. induction Hr as [|l' rest Hl Hr IH];
    intros i below s Hrest E Hne Hheld; simpl in E; [done|].
  destruct (on_store (EvMark i) _ s) as [s1 [err|]] eqn:Em.
  { exfalso. simplify_eq. apply on_store_logged in Em as (_ & Em & _).
    unfold MarkAttempted in Em. destruct (Load _ _) as [st [rec1|err1]] eqn:El.
    - destruct (_ <=? _)%nat; [by simplify_eq|]. unfold Write in Em.
      destruct (run_prims _ st) as [? [p|]]; by simplify_eq.
    - unfold Load in El. repeat (case_match; simplify_eq). }
  apply on_store_logged in Em as (Hlog1 & _ & Hw1).
  assert (Hi : plan !! i = Some l' /\ rest = drop (S i) plan).
  { destruct (plan !! i) as [x|] eqn:Hx.
    - rewrite (drop_S _ x) in Hrest by done. by injection Hrest as -> ->.
    - apply lookup_ge_None in Hx. by rewrite drop_ge in Hrest. }
  destruct Hi as [Hi Hrest']. unfold ensure, on_layer in E.
  pose proof (ensure_own below (rs_world s1)) as Hown.
  revert Hown E. destruct (l_Ensure l' below (rs_world s1)) as [w' [above|c]];
    intros Hown E; simpl in Hown.
  - apply IH in E as (evs & Hlog & Hd); [|done..]. simpl in Hlog.
    exists (EvMark i true :: EvEnsure (Name l') :: evs).
    split; [by rewrite Hlog, Hlog1, <- !app_assoc|].
    intros Hnin. rewrite !not_elem_of_cons in Hnin. destruct Hnin as (_ & _ & Hnin).
    destruct (Hd Hnin) as [H1 H2]. simpl in H1.
    rewrite (take_S_r _ _ l') in H2 by done. unfold Names in H2.
    rewrite fmap_app, not_elem_of_app in H2. destruct H2 as [H2 H3].
    split; [|done]. rewrite <- Hw1, <- (Hown nm); [done|].
    intros ->. apply H3. csimpl. left.
  - simplify_eq. apply unwind_drops in Hheld as (evs & Hlog & Hd); [|by apply Forall_take].
    exists (EvMark i true :: EvEnsure (Name l') :: evs).
    split; [by rewrite Hlog; simpl; rewrite Hlog1, <- !app_assoc|].
    intros Hnin. rewrite !not_elem_of_cons in Hnin. destruct Hnin as (_ & _ & Hnin).
    destruct (Hd Hnin) as [H1 H2]. split; [|done]. simpl in H1.
    by rewrite <- Hw1, <- (Hown nm).
Qed.

(** A failed bring-up holds nothing: over layers that keep the contract,
    when a layer cannot be brought up, whatever the host still holds it held
    before the bring-up began, but for what that one layer left of itself and
    for the layers whose own release failed on the way down. *)
Theorem failed_bring_up_holds_nothing handle plan s s' layer cause nm :
  Forall (Lawful held) plan -> Up handle plan s = (s', Err (ErrBringUp layer cause)) ->
  nm <> layer -> held nm (rs_world s') = true ->
  exists evs, rs_log s' = (rs_log s ++ evs)%list /\
    (EvRelease nm false ∉ evs -> held nm (rs_world s) = true).
Proof.
  intros Hp E Hne Hh. unfold Up in E. destruct (recordFor handle plan) as [rec|err] eqn:Er.
  2: { exfalso. simplify_eq. unfold recordFor in Er.
       destruct (traverse entry_for plan) as [[|]|] eqn:Et; simplify_eq.
       clear -Et. induction plan as [|x plan IH]; simpl in Et; [done|].
       destruct (entry_for x) as [e|err] eqn:Ex.
       - destruct (traverse entry_for plan); [done|]. by apply IH.
       - simplify_eq. destruct x; simpl in Ex. repeat (case_match; simplify_eq/=). }
  destruct (on_store EvRecord _ s) as [s1 [err|]] eqn:Ew;
    apply on_store_logged in Ew as (Hlog1 & Hw & Hworld).
  { exfalso. simplify_eq. unfold Write in Hw.
    destruct (run_prims _ _) as [? [p|]]; by simplify_eq. }
  eapply up_from_holds in E as (evs & Hlog & Hd); [|done..].
  exists (EvRecord true :: evs). split; [by rewrite Hlog, Hlog1, <- app_assoc|].
  intros [_ Hnin]%not_elem_of_cons. rewrite <- Hworld. by apply Hd.
Qed.

End Contract.

End Stack.

Arguments Artifact Device : clear implicits.
Arguments Healer W Device : clear implicits.
Arguments Layer W Device : clear implicits.
Arguments RState W : clear implicits.

(** ** Losing power *)

(** What is read of a file after the power comes back. *)
Definition settle (f : option file) : option content :=
  (fun f : file => if f.2 then f.1 else Unreadable) <$> f.

(** After a loss of power each name is as a reader last saw it or as it last was
    durable, and bytes that were not forced to the medium are not there. *)
Definition survives (d : Disk) (after : gmap string content) : Prop :=
  forall name, after !! name = settle (d_dir d !! name) \/
               after !! name = settle (d_durable d !! name).

(** The power goes after [n] of the calls a write makes, any of which may fail, with the next
    one possibly under way.  A write that gave up makes no more of them, and taking its
    temporary file away shows under no record's name. *)
Definition crash (n : nat) (torn : bool) (rec : StackRecord) (s : Store) : Disk :=
  let '(s, err) := run_prims (take n (write_calls (versioned rec))) s in
  match err, write_calls (versioned rec) !! n with
  | None, Some p => if torn then perform_failed p (st_disk s) else st_disk s
  | _, _ => st_disk s
  end.

(** A name as a loss of power would leave it without the write. *)
Definition as_before (d : Disk) (name : string) (found : option content) : Prop :=
  found = settle (d_dir d !! name) \/ found = settle (d_durable d !! name).

(** What a cut of a write leaves in the directory and on the medium. *)
Definition written_so_far (d d' : Disk) (target : string) (rec : StackRecord) (whole : Prop) : Prop :=
  (forall name, name <> target -> as_before d name (settle (d_dir d' !! name)) /\
     as_before d name (settle (d_durable d' !! name))) /\
  (settle (d_dir d' !! target) = Some (Holds rec) \/ as_before d target (settle (d_dir d' !! target))) /\
  (settle (d_durable d' !! target) = Some (Holds rec) \/
     as_before d target (settle (d_durable d' !! target))) /\
  (whole -> settle (d_dir d' !! target) = Some (Holds rec) /\
     settle (d_durable d' !! target) = Some (Holds rec)).

Lemma versioned_handle rec : r_VolumeHandle (versioned rec) = r_VolumeHandle rec.
Proof. unfold versioned. by case_match. Qed.

Ltac split_faults :=
  repeat match goal with
  | |- context [next_fault ?f] => destruct f as [|[] f]; simpl
  end.
Ltac settled :=
  try match goal with torn : bool |- _ => destruct torn end; simpl;
  (split; [intros name Hne; rewrite ?lookup_insert_ne by congruence; by auto|]);
  rewrite ?lookup_insert_eq; (split; [by auto|split; [by auto|]]);
  intros (? & ? & ?); first [done | lia | by auto].

Lemma crash_written n torn rec s :
  written_so_far (st_disk s) (crash n torn rec s) (path (r_VolumeHandle rec)) (versioned rec)
    ((Write s rec).2 = None /\ st_faults s !! 10 <> Some true /\ 11 <= n).
Proof.
  unfold crash, Write, write_calls, writeAndSync, syncDir. rewrite versioned_handle.
  set (target := path (r_VolumeHandle rec)). destruct s as [d faults].
  unfold written_so_far, as_before.
  do 11 (destruct n as [|n]; [clear; simpl; split_faults; settled|]).
  rewrite take_ge, lookup_ge_None_2 by (simpl; lia). simpl. split_faults; settled.
Qed.

(** C37. A loss of power never tears a record.  Whenever in a write the power goes, whichever of
    its calls failed before, what is read under the volume's name afterwards is the whole new
    record, or what a loss of power would have left there without the write; and every other
    name is as it would have been without it.  Once a write has returned without an error, and
    the sync of the directory, whose failure it swallows, did not fail, what is read is the new
    record. *)
Theorem write_survives_power_loss n torn rec s after :
  survives (crash n torn rec s) after ->
  (after !! path (r_VolumeHandle rec) = Some (Holds (versioned rec)) \/
   as_before (st_disk s) (path (r_VolumeHandle rec)) (after !! path (r_VolumeHandle rec))) /\
  (forall name, name <> path (r_VolumeHandle rec) -> as_before (st_disk s) name (after !! name)) /\
  ((Write s rec).2 = None -> st_faults s !! 10 <> Some true -> 11 <= n ->
   after !! path (r_VolumeHandle rec) = Some (Holds (versioned rec))).
Proof.
  intros Hs. destruct (crash_written n torn rec s) as (H1 & H2 & H3 & H4). split; [|split].
  - by destruct (Hs (path (r_VolumeHandle rec))) as [-> | ->].
  - intros name Hn. destruct (H1 name Hn). by destruct (Hs name) as [-> | ->].
  - intros Hw Hsync Hn. destruct H4 as [E1 E2]; [done|].
    by destruct (Hs (path (r_VolumeHandle rec))) as [-> | ->].
Qed.

(** ** Names of records *)

Definition name_byte (b : ascii) : bool := safe_byte (code b) || Ascii.eqb b "_".

Lemma code_of_rune r : (0 <= r < 256)%Z -> code (ascii_of_N (Z.to_N r)) = r.
Proof. intros H. unfold code. rewrite N_ascii_embedding by lia. lia. Qed.

Lemma safe_byte_range r : safe_byte r = true -> (0 <= r < 128)%Z.
Proof.
  unfold safe_byte, in_range. rewrite !orb_true_iff, !andb_true_iff, !Z.leb_le, !Z.eqb_eq. lia.
Qed.

Lemma name_byte_safe_char r : name_byte (safe_char r) = true.
Proof.
  unfold safe_char. destruct (safe_byte r) eqn:E; [|done].
  unfold name_byte. rewrite code_of_rune by (apply safe_byte_range in E; lia). by rewrite E.
Qed.

Lemma runes_ascii l : forallb (fun b => (code b <? 128)%Z) l = true ->
  runes (of_bytes l) = code <$> l.
Proof.
  unfold runes. rewrite to_of_bytes. induction l as [|b l IH]; [done|].
  intros [Hb Hl]%andb_true_iff. cbn [chunks]. rewrite Hb. csimpl. by rewrite (IH Hl).
Qed.

(** A byte as [path] spells it. *)
Definition spell (b : ascii) : ascii := if safe_byte (code b) then b else "_".

Lemma safe_char_code b : safe_char (code b) = spell b.
Proof.
  unfold safe_char, spell. destruct (safe_byte (code b)); [|done].
  unfold code. rewrite N2Z.id. apply ascii_N_embedding.
Qed.

Section Names.

#[local] Unset Default Proof Using.

Context (Validate : string -> bool).
Hypothesis canonical_spelling : forall s,
  IsCanonicalUUID Validate s = true -> forallb hex_or_dash (to_bytes s) = true.

Lemma hex_safe b : hex_or_dash b = true -> safe_byte (code b) = true.
Proof. destruct b as [[] [] [] [] [] [] [] []]; vm_compute; done. Qed.

Lemma canonical_safe s : IsCanonicalUUID Validate s = true ->
  Forall (fun b => safe_byte (code b) = true) (to_bytes s).
Proof.
  intros H%canonical_spelling. rewrite forallb_forall in H. apply Forall_forall.
  intros b Hb%list_elem_of_In. by apply hex_safe, H.
Qed.

Lemma spell_safe l : Forall (fun b => safe_byte (code b) = true) l -> spell <$> l = l.
Proof.
  induction 1 as [|b l Hb _ IH]; [done|]. csimpl. rewrite IH. unfold spell. by rewrite Hb.
Qed.

Lemma safe_free l : Forall (fun b => safe_byte (code b) = true) l -> "_"%char ∉ l.
Proof. intros H Hin. rewrite Forall_forall in H. by apply H in Hin. Qed.

Lemma safe_ascii l : Forall (fun b => safe_byte (code b) = true) l ->
  forallb (fun b => (code b <? 128)%Z) l = true.
Proof.
  intros H. apply forallb_forall. intros b Hb%list_elem_of_In. rewrite Forall_forall in H.
  apply Z.ltb_lt. apply H, safe_byte_range in Hb. lia.
Qed.

(** The file name of a canonical handle is its parts, joined by underscores. *)
Lemma path_of_handle h :
  handle_ok Validate h -> Forall (fun b => safe_byte (code b) = true) (to_bytes (PoolRef h)) ->
  path (handle_String h) = Join [ClusterID h; PoolRef h; VolumeID h] "_" ++ ".json".
Proof.
  intros (Hc & Hv & _ & _) Hp. unfold path, handle_String, Join. csimpl.
  apply canonical_safe in Hc, Hv.
  rewrite runes_ascii.
  2: { cbn [join_on]. rewrite forallb_app, safe_ascii by done. cbn [forallb andb].
       rewrite forallb_app. cbn [forallb]. by rewrite !safe_ascii by done. }
  rewrite <- list_fmap_compose.
  rewrite (list_fmap_ext _ spell) by (intros; apply safe_char_code).
  rewrite !fmap_app. csimpl. rewrite !fmap_app. csimpl. rewrite !spell_safe by done.
  change (spell handleSeparator) with "_"%char.
  set (base := (to_bytes (ClusterID h) ++ _)%list).
  destruct (String.eqb_spec (of_bytes base) "") as [E|_].
  { apply (f_equal to_bytes) in E. rewrite to_of_bytes in E. unfold base in E.
    by destruct (to_bytes (ClusterID h)). }
  unfold only_dots. rewrite to_of_bytes. unfold base at 1. rewrite forallb_app. simpl.
  by rewrite andb_false_r.
Qed.

(** Records stay in their directory and do not share files: whatever a
    volume is called, its file's name is made of letters, digits, dashes, dots
    and underscores and ends in [.json], so it names no other directory; and two
    volumes with well-formed handles, whose pools are spelled in those letters,
    digits, dashes and dots, never share one. *)
Theorem record_names handle h1 h2 :
  forallb name_byte (to_bytes (path handle)) = true /\
  (exists base, path handle = base ++ ".json" /\ base <> "" /\ base <> "." /\ base <> "..") /\
  (handle_ok Validate h1 -> handle_ok Validate h2 ->
   Forall (fun b => safe_byte (code b) = true) (to_bytes (PoolRef h1)) ->
   Forall (fun b => safe_byte (code b) = true) (to_bytes (PoolRef h2)) ->
   path (handle_String h1) = path (handle_String h2) -> h1 = h2).
Proof.
  split; [|split].
  - unfold path. set (safe := of_bytes _). rewrite to_bytes_app, forallb_app.
    apply andb_true_iff. split; [|done]. destruct (_ || _); [done|].
    unfold safe. rewrite to_of_bytes. apply forallb_forall.
    intros b (r & -> & _)%list_elem_of_In%list_elem_of_fmap. apply name_byte_safe_char.
  - unfold path. set (safe := of_bytes _). eexists. split; [done|].
    destruct (String.eqb_spec safe "") as [|H1]; [done|].
    destruct (only_dots safe) eqn:H2; [done|].
    simpl. repeat split; [done|intros H3; by rewrite H3 in H2..].
  - intros Ho1 Ho2 Hs1 Hs2. rewrite !path_of_handle by done.
    intros E%(f_equal to_bytes). rewrite !to_bytes_app in E. apply app_inv_tail in E.
    apply to_bytes_inj, (f_equal (fun s => Split s "_")) in E.
    destruct Ho1 as (Hc1 & Hv1 & _), Ho2 as (Hc2 & Hv2 & _).
    apply canonical_safe in Hc1, Hv1, Hc2, Hv2.
    rewrite !Split_Join in E; try done; try (repeat constructor; by apply safe_free).
    destruct h1, h2. simpl in E. by simplify_eq.
Qed.

End Names.

(** ** Witnesses *)

Module Host.

(** A host whose state is the names of the layers it holds, and layers that do
    nothing else; the one that does not work fails without leaving anything. *)
Definition world : Type := list string.

Definition held (nm : string) (w : world) : bool := contains w nm.

Definition layer (nm : string) (works : bool) : Layer world string :=
  mkLayer nm
    (fun below w => (w, Ok (if held nm w then StateReady else StateAbsent,
                            mkArtifact [nm] "" (mkGeometry 0 0))))
    (fun below w => if works then (nm :: w, Ok (mkArtifact [nm] "" (mkGeometry 0 0)))
                    else (w, Err "refused"))
    (fun below w => (filter (fun x => x <> nm) w, None))
    (fun below w => (w, None))
    None None None None.

Lemma held_cons nm x w : held nm (x :: w) = bool_decide (nm = x) || held nm w.
Proof.
  unfold held, contains. destruct (decide (nm = x)) as [->|Hne].
  - rewrite (bool_decide_eq_true_2 (x = x)) by done. apply bool_decide_eq_true. left.
  - rewrite (bool_decide_eq_false_2 (nm = x)) by done. simpl. apply bool_decide_ext.
    rewrite elem_of_cons. naive_solver.
Qed.

Lemma held_filter nm x w :
  held nm (filter (fun y => y <> x) w) = bool_decide (nm <> x) && held nm w.
Proof.
  unfold held, contains. rewrite <- bool_decide_and. apply bool_decide_ext.
  by rewrite list_elem_of_filter.
Qed.

#[export] Instance layer_lawful nm works : Lawful held (layer nm works).
Proof.
  split; simpl.
  - done.
  - intros _ w n Hne. destruct works; [|done]. simpl. rewrite held_cons.
    by rewrite bool_decide_eq_false_2.
  - intros _ w n Hne. rewrite held_filter. by rewrite bool_decide_eq_true_2.
  - intros _ w w' [= <-]. rewrite held_filter. by rewrite bool_decide_eq_false_2 by naive_solver.
Qed.

Definition handle : string := handle_String Spelled.handle.
Definition good : list (Layer world string) := [layer "nvme" true; layer "ext4" true].
Definition bad : list (Layer world string) := [layer "nvme" true; layer "ext4" false].

Definition no_disk : Disk := mkDisk ∅ ∅ None.
Definition start (faults : list bool) : RState world :=
  mkRState (mkStore no_disk faults) [] [].

Definition up := Up handle good (start []).
Definition failed := Up handle bad (start []).

Lemma up_is_written_ahead_witness :
  (rs_log failed.1 = rs_log (start []) /\ rs_world failed.1 = rs_world (start []) /\
     exists err, failed.2 = Err err) \/
  (rs_log failed.1 = (rs_log (start []) ++ [EvRecord false])%list /\
     rs_world failed.1 = rs_world (start []) /\ exists err, failed.2 = Err err) \/
  (exists evs, rs_log failed.1 = (rs_log (start []) ++ EvRecord true :: evs)%list /\
     brought_up bad 0 bad (marked_to (rs_store failed.1) handle bad) failed.2 evs).
Proof. apply (up_is_written_ahead handle bad (start [])). apply surjective_pairing. Defined.

Definition down := Down handle good up.1.

Lemma down_releases_what_is_held_witness :
  exists n surveyed evs,
    let ts := rev (teardowns good surveyed (markers (rs_store up.1) handle (length good)) 0) in
    rs_log down.1 = (rs_log up.1 ++ observes (take n good) ++ evs)%list /\
    (surveyed = None \/ exists states, surveyed = Some states /\ length states = length good) /\
    match down.2 with
    | None => evs = (releases (to_release ts) ++ [EvRemove true])%list /\
        recorded (rs_store down.1) handle = None
    | Some (ErrRelease layer cause) => exists ts1 t ts2, ts = (ts1 ++ t :: ts2)%list /\
        layer = Name (t_layer t) /\ passed_over (t_mark t) (t_state t) = false /\
        evs = (releases (to_release ts1) ++ [EvRelease layer false])%list /\
        d_dir (st_disk (rs_store down.1)) = d_dir (st_disk (rs_store up.1))
    | Some e => e = ErrRemove /\ st_disk (rs_store down.1) = st_disk (rs_store up.1) /\
        evs = (releases (to_release ts) ++ [EvRemove false])%list
    end.
Proof. apply (down_releases_what_is_held handle good up.1). apply surjective_pairing. Defined.

Lemma live_verbs_are_safe_witness :
  only (fun e => match e with EvObserve _ | EvHealthy _ | EvHeal _ => true | _ => false end)
    up.1 (Heal handle good up.1).1 /\
  only (fun e => match e with EvObserve _ | EvGrow _ => true | _ => false end)
    up.1 (Grow good up.1).1 /\
  only (fun e => match e with EvObserve _ => true | _ => false end)
    up.1 (ObserveStack good up.1).1.
Proof.
  apply (live_verbs_are_safe handle good up.1 _ (Heal handle good up.1).2
    _ (Grow good up.1).2 _ (ObserveStack good up.1).2); apply surjective_pairing.
Defined.

Definition destroyed := DestroyStack handle good up.1.

Lemma destroy_top_down_witness :
  (exists n layer cause, destroyed.2 = Some (ErrObserve layer cause) /\
     logged up.1 destroyed.1 (observes (take n good))) \/
  (exists surveyed, length surveyed = length good /\
     let ts := rev (zip good surveyed) in
     match destroyed.2 with
     | None => recorded (rs_store destroyed.1) handle = None /\
         rs_log destroyed.1 =
           (rs_log up.1 ++ observes good ++ destroys (present ts) ++ [EvRemove true])%list
     | Some (ErrDestroy layer cause) => exists ts1 t ts2, ts = (ts1 ++ t :: ts2)%list /\
         layer = Name t.1 /\ t.2.2 <> StateAbsent /\
         logged up.1 destroyed.1
           (observes good ++ destroys (present ts1) ++ [EvDestroy layer false])
     | Some e => e = ErrRemove /\ st_disk (rs_store destroyed.1) = st_disk (rs_store up.1) /\
         rs_log destroyed.1 =
           (rs_log up.1 ++ observes good ++ destroys (present ts) ++ [EvRemove false])%list
     end).
Proof. apply (destroy_top_down handle good up.1). apply surjective_pairing. Defined.

(** A host that another volume's layer is already up on. *)
Definition busy : RState world := mkRState (mkStore no_disk []) ["lvm"] [].

Lemma failed_bring_up_holds_nothing_witness :
  held "nvme" (rs_world (Up handle bad busy).1) = false /\
  exists evs, rs_log (Up handle bad busy).1 = (rs_log busy ++ evs)%list /\
    (EvRelease "lvm" false ∉ evs -> held "lvm" (rs_world busy) = true).
Proof.
  split; [vm_compute; reflexivity|].
  apply (failed_bring_up_holds_nothing held handle bad busy (Up handle bad busy).1
           "ext4" "refused").
  - repeat constructor; apply layer_lawful.
  - apply pair_eq. vm_compute. reflexivity.
  - done.
  - vm_compute. reflexivity.
Defined.

Definition entry (nm : string) : Entry := mkEntry nm None [] false.
Definition new_record : StackRecord := mkRecord 1 handle [entry "nvme"; entry "ext4"].

(** What a reader would see if the power went where it does. *)
Definition reread (d : Disk) : gmap string content :=
  (fun f : content * bool => if f.2 then f.1 else Unreadable) <$> d_dir d.

Lemma reread_survives d : survives d (reread d).
Proof. intros name. left. apply lookup_fmap. Qed.

(** A write whose directory could not be opened to be synced, and one that went through. *)
Lemma write_survives_power_loss_witness :
  let s := mkStore no_disk [] in
  let after := reread (crash 11 false new_record s) in
  after !! path handle = Some (Holds new_record) /\
  (Write (mkStore no_disk (replicate 9 false ++ [true])) new_record).2 = Some (ErrWrite POpenDir).
Proof.
  intros s after. split; [|reflexivity].
  refine (proj2 (proj2 (write_survives_power_loss 11 false new_record s after _)) _ _ _).
  - apply reread_survives.
  - reflexivity.
  - discriminate.
  - lia.
Defined.

Lemma record_names_witness :
  forallb name_byte (to_bytes (path handle)) = true /\
  (exists base, path handle = base ++ ".json" /\ base <> "" /\ base <> "." /\ base <> "..") /\
  (handle_ok Spelled.Validate Spelled.handle -> handle_ok Spelled.Validate Spelled.handle ->
   Forall (fun b => safe_byte (code b) = true) (to_bytes (PoolRef Spelled.handle)) ->
   Forall (fun b => safe_byte (code b) = true) (to_bytes (PoolRef Spelled.handle)) ->
   path (handle_String Spelled.handle) = path (handle_String Spelled.handle) ->
   Spelled.handle = Spelled.handle).
Proof. exact (record_names Spelled.Validate Spelled.spelled handle Spelled.handle Spelled.handle). Defined.

(** A marker that cannot be written strands what is below it: the bring-up
    of two working layers whose second marker is refused, with nothing else
    wrong, fails, releases nothing, and leaves the first layer held, although a
    failure is said to release the layers already brought up. *)
Theorem unwritten_marker_strands :
  let s := Up handle good (start (replicate 23 false ++ [true])) in
  s.2 = Err ErrRead /\ held "nvme" (rs_world s.1) = true /\
  rs_log s.1 = [EvRecord true; EvMark 0 true; EvEnsure "nvme"; EvMark 1 false].
Proof. eval_eq. Qed.

End Host.
