(* ===== verification/UpgradeRules.v ===== *)
(** The rules an upgrade is assembled from ([operator/internal/upgrade]).

    The registry every catalog is kept in ([rule.go]), the ordering of rules by
    what they require ([order.go]), the selection of a stage's rules
    ([catalog.go], [check.go], [scope.go]), what a check reports ([finding.go])
    and the plan a stage prints ([plan.go], [object.go]).  A rule is whatever
    implements the interfaces below; the theorems are proved against them. *)

From Stdlib Require Import Ascii String.
From S2P Require Import Prelude GoStrings StateMachine.

#[local] Open Scope string_scope.

(** ** Rules and their registry ([rule.go]) *)

Abbreviation ID := string (only parsing).

(** [Rule] and [ordered]: an identity, and the identities a rule must follow. *)
Class Rule (T : Type) := rule_ID : T -> string.
Class Ordered (T : Type) `{Rule T} := rule_Requires : T -> list string.

Record Registry (T : Type) := mkRegistry {
  reg_name : string;
  reg_order : list string;
  reg_rules : gmap string T;
}.
Arguments mkRegistry {T}.
Arguments reg_name {T}.
Arguments reg_order {T}.
Arguments reg_rules {T}.

Inductive register_error :=
| ErrNoIdentity (registry : string)
| ErrTaken (registry : string) (id : string).

Section Registries.

Context {T : Type} `{Rule T}.

Definition NewRegistry (name : string) : Registry T := mkRegistry name [] ∅.

(** [Register] stops at the first rule it refuses, and keeps the ones before. *)
Fixpoint Register (r : Registry T) (rules : list T) : Registry T * error_of register_error :=
  match rules with
  | [] => (r, None)
  | rule :: rules =>
      let id := rule_ID rule in
      if String.eqb (TrimSpace id) "" then (r, Some (ErrNoIdentity (reg_name r)))
      else
        match reg_rules r !! id with
        | Some _ => (r, Some (ErrTaken (reg_name r) id))
        | None =>
            Register (mkRegistry (reg_name r) (reg_order r ++ [id])%list
              (<[id := rule]> (reg_rules r))) rules
        end
  end.

(** [MustRegister]: [None] is the panic. *)
Definition MustRegister (r : Registry T) (rules : list T) : option (Registry T) :=
  match Register r rules with
  | (r, None) => Some r
  | (_, Some _) => None
  end.

(** [All]: an identity in the order is always in the map. *)
Definition All (r : Registry T) : list T :=
  id ← reg_order r;
  match reg_rules r !! id with Some rule => [rule] | None => [] end.

Definition Get (r : Registry T) (id : string) : option T := reg_rules r !! id.

Definition Len (r : Registry T) : nat := length (reg_order r).

Definition Select (keep : T -> bool) (r : Registry T) : list T := List.filter keep (All r).

Definition Without (r : Registry T) (skip : list string) : option (Registry T) :=
  MustRegister (NewRegistry (reg_name r))
    (Select (fun rule => negb (contains skip (rule_ID rule))) r).

End Registries.

(** ** Ordering rules ([order.go]) *)

Section Order.

Context {T : Type} `{Ordered T} (zero : T).

Definition count_of (pending : gmap string Z) (id : string) : Z :=
  default 0%Z (pending !! id).
Definition list_of (unblocks : gmap string (list string)) (id : string) : list string :=
  default [] (unblocks !! id).

(** [inCatalogOrder]. *)
Definition inCatalogOrder (rules : list T) (ids : list string) : list string :=
  if Nat.ltb (length ids) 2 then ids
  else List.filter (fun id => contains ids id) (rule_ID <$> rules).

(** [namesOf]. *)
Definition namesOf (rules : list T) (pending : gmap string Z) : list string :=
  List.filter (fun id => 0 <? count_of pending id)%Z (rule_ID <$> rules).

(** The requirement edges whose both ends are in the set, in catalog order. *)
Definition requirement_edges (rules : list T) : list (string * string) :=
  rule ← rules;
  required ← List.filter (fun q => contains (rule_ID <$> rules) q) (rule_Requires rule);
  [(required, rule_ID rule)].

Definition add_pending (pending : gmap string Z) (e : string * string) : gmap string Z :=
  <[e.2 := (count_of pending e.2 + 1)%Z]> pending.

Definition add_unblocks (unblocks : gmap string (list string)) (e : string * string)
    : gmap string (list string) :=
  <[e.1 := (list_of unblocks e.1 ++ [e.2])%list]> unblocks.

(** One dependent of the rule just placed. *)
Definition unblock (st : gmap string Z * list string) (dependent : string)
    : gmap string Z * list string :=
  let '(pending, freed) := st in
  let left := (count_of pending dependent - 1)%Z in
  (<[dependent := left]> pending,
   if (left =? 0)%Z then (freed ++ [dependent])%list else freed).

(** The loop over the queue. *)
Fixpoint kahn (fuel : nat) (rules : list T) (unblocks : gmap string (list string))
    (queue : list string) (pending : gmap string Z) (out : list string)
    : option (gmap string Z * list string) :=
  match queue, fuel with
  | [], _ => Some (pending, out)
  | _, O => None
  | id :: queue, S fuel =>
      let '(pending, freed) := foldl unblock (pending, []) (list_of unblocks id) in
      kahn fuel rules unblocks (queue ++ inCatalogOrder rules freed)%list pending
        (out ++ [id])%list
  end.

Definition byID (rules : list T) : gmap string T :=
  foldl (fun m rule => <[rule_ID rule := rule]> m) ∅ rules.

(** [topoSort]: the order, or the rules still blocked.  [None] would be a loop
    that does not end. *)
Definition topoSort (rules : list T) : option (res (list string) (list T)) :=
  let edges := requirement_edges rules in
  let pending := foldl add_pending ∅ edges in
  let unblocks := foldl add_unblocks ∅ edges in
  let queue := List.filter (fun id => count_of pending id =? 0)%Z (rule_ID <$> rules) in
  match kahn (length rules) rules unblocks queue pending [] with
  | None => None
  | Some (pending, out) =>
      Some (if Nat.eqb (length out) (length rules)
            then Ok ((fun id => default zero (byID rules !! id)) <$> out)
            else Err (namesOf rules pending))
  end.

End Order.

(** ** Kahn's algorithm orders what can be ordered *)

Section OrderFacts.

Context {T : Type} `{Ordered T} (zero : T).

Implicit Types (rules : list T) (id q : string).

(** How many of an identity's requirements are not in a list yet. *)
Definition unmet (edges : list (string * string)) (placed : list string) (id : string) : Z :=
  Z.of_nat (length (filter (fun e => e.2 = id /\ e.1 ∉ placed) edges)).

Definition dependents (edges : list (string * string)) (q : string) : list string :=
  (filter (fun e => e.1 = q) edges).*2.

Definition occurs (ids : list string) (id : string) : Z :=
  Z.of_nat (length (filter (fun x => x = id) ids)).

Lemma filter_snoc {A} (P : A -> Prop) `{!forall x, Decision (P x)} l x :
  filter P (l ++ [x])%list = (filter P l ++ if decide (P x) then [x] else [])%list.
Proof.
  rewrite filter_app. f_equal.
Qed.

Lemma occurs_snoc ids x id :
  occurs (ids ++ [x])%list id = (occurs ids id + if decide (x = id) then 1 else 0)%Z.
Proof.
  unfold occurs. rewrite filter_snoc, length_app.
  destruct (decide (x = id)); simpl; lia.
Qed.

Lemma occurs_pos ids id : (0 < occurs ids id)%Z <-> id ∈ ids.
Proof.
  unfold occurs. split.
  - intros Hp. destruct (filter (fun x => x = id) ids) as [|y l] eqn:E; [simpl in Hp; lia|].
    assert (Hy : y ∈ filter (fun x => x = id) ids) by (rewrite E; left).
    apply list_elem_of_filter in Hy as [-> ?]. done.
  - intros Hin. assert (Hf : id ∈ filter (fun x => x = id) ids)
      by (by apply list_elem_of_filter).
    destruct (filter (fun x => x = id) ids); [by apply not_elem_of_nil in Hf|]. simpl. lia.
Qed.

Lemma count_insert pending id x z :
  count_of (<[id := z]> pending) x = if decide (x = id) then z else count_of pending x.
Proof.
  unfold count_of. destruct (decide (x = id)) as [->|].
  - by rewrite lookup_insert_eq.
  - by rewrite lookup_insert_ne.
Qed.

(** The counts and lists the loop starts from. *)
Lemma pending_start edges id :
  count_of (foldl add_pending ∅ edges) id = unmet edges [] id.
Proof.
  induction edges as [|[q i] edges IH] using rev_ind; [done|].
  rewrite foldl_app. simpl. unfold add_pending at 1. simpl. rewrite count_insert.
  unfold unmet. rewrite filter_snoc, length_app. simpl.
  destruct (decide (id = i)) as [->|Hne].
  - rewrite IH, decide_True by (split; [done|apply not_elem_of_nil]). unfold unmet. simpl. lia.
  - rewrite decide_False by naive_solver. rewrite IH. unfold unmet. simpl. lia.
Qed.

Lemma unblocks_start edges q :
  list_of (foldl add_unblocks ∅ edges) q = dependents edges q.
Proof.
  unfold dependents. induction edges as [|[q' i] edges IH] using rev_ind; [done|].
  rewrite foldl_app, filter_snoc, fmap_app. simpl. unfold add_unblocks at 1, list_of at 1. simpl.
  destruct (decide (q = q')) as [->|Hne].
  - rewrite lookup_insert_eq, decide_True by done. simpl. by rewrite IH.
  - rewrite lookup_insert_ne by done. rewrite decide_False by naive_solver.
    simpl. rewrite app_nil_r. exact IH.
Qed.

(** What placing one rule does to the counts, and whom it frees. *)
Lemma unblock_spec pending ds p' freed :
  (forall d, d ∈ ds -> (occurs ds d <= count_of pending d)%Z) ->
  foldl unblock (pending, []) ds = (p', freed) ->
  (forall id, count_of p' id = (count_of pending id - occurs ds id)%Z) /\
  NoDup freed /\ (forall id, id ∈ freed <-> id ∈ ds /\ count_of p' id = 0%Z).
Proof.
  revert p' freed. induction ds as [|d ds IH] using rev_ind; intros p' freed Hle E.
  { simpl in E. simplify_eq. split; [intros id; unfold occurs; simpl; lia|].
    split; [constructor|]. intros id. split; [intros Hx; by apply not_elem_of_nil in Hx|].
    intros [Hx _]. by apply not_elem_of_nil in Hx. }
  rewrite foldl_app in E. destruct (foldl unblock (pending, []) ds) as [p1 f1] eqn:E1.
  assert (Hle1 : forall x, x ∈ ds -> (occurs ds x <= count_of pending x)%Z).
  { intros x Hx. specialize (Hle x ltac:(apply elem_of_app; by left)).
    rewrite occurs_snoc in Hle. destruct (decide (d = x)); lia. }
  destruct (IH p1 f1 Hle1 eq_refl) as (Hc & Hnd & Hin). clear IH.
  assert (Hd : (0 < count_of p1 d)%Z).
  { rewrite Hc. specialize (Hle d ltac:(apply elem_of_app; right; left)).
    rewrite occurs_snoc, decide_True in Hle by done. lia. }
  simpl in E. injection E as <- <-.
  assert (Hc' : forall id, count_of (<[d:=(count_of p1 d - 1)%Z]> p1) id =
    (count_of pending id - occurs (ds ++ [d]) id)%Z).
  { intros id. rewrite count_insert, occurs_snoc, Hc.
    destruct (decide (id = d)) as [->|]; [rewrite decide_True by done; lia|].
    rewrite decide_False by done. rewrite Hc. lia. }
  assert (Hnin : d ∉ f1) by (intros [_ Hz]%Hin; lia).
  split; [exact Hc'|]. destruct (Z.eqb_spec (count_of p1 d - 1) 0) as [Hz|Hz].
  - split; [apply NoDup_app; split; [done|]; split; [|apply NoDup_singleton];
      intros x Hx ->%list_elem_of_singleton; done|].
    intros id. rewrite elem_of_app, list_elem_of_singleton, Hin, elem_of_app,
      list_elem_of_singleton, count_insert.
    destruct (decide (id = d)) as [->|Hne]; [tauto|]. naive_solver.
  - split; [done|]. intros id.
    rewrite Hin, elem_of_app, list_elem_of_singleton, count_insert.
    destruct (decide (id = d)) as [->|Hne]; [|naive_solver].
    split; [intros [_ Hx]; lia|]. intros [_ Hx]. lia.
Qed.

Lemma in_catalog_order rules freed :
  NoDup (rule_ID <$> rules) -> NoDup freed -> freed ⊆ (rule_ID <$> rules) ->
  NoDup (inCatalogOrder rules freed) /\
  forall id, id ∈ inCatalogOrder rules freed <-> id ∈ freed.
Proof.
  intros Hr Hf Hsub. unfold inCatalogOrder.
  destruct (Nat.ltb (length freed) 2); [done|]. split.
  - apply NoDup_ListNoDup, List.NoDup_filter, NoDup_ListNoDup, Hr.
  - intros id. rewrite list_elem_of_In, filter_In, contains_true, <- list_elem_of_In.
    split; [by intros [_ ?]|]. intros Hid. split; [by apply Hsub | done].
Qed.

Lemma elem_of_requirement_edges rules q id :
  (q, id) ∈ requirement_edges rules <->
  exists rule, rule ∈ rules /\ id = rule_ID rule /\ q ∈ rule_Requires rule /\
    q ∈ rule_ID <$> rules.
Proof.
  unfold requirement_edges. rewrite list_elem_of_bind. split.
  - intros (rule & Hin & Hr). rewrite list_elem_of_bind in Hin.
    destruct Hin as (q' & Hq & Hin). apply list_elem_of_singleton in Hq. simplify_eq.
    apply list_elem_of_In, filter_In in Hin as [Hin Hp]. apply contains_true in Hp.
    apply list_elem_of_In in Hin. eauto.
  - intros (rule & Hr & -> & Hq & Hp). exists rule. split; [|done].
    rewrite list_elem_of_bind. exists q. split; [by apply list_elem_of_singleton|].
    apply list_elem_of_In, filter_In. split; [by apply list_elem_of_In|].
    by apply contains_true.
Qed.

Lemma unmet_zero edges placed id :
  unmet edges placed id = 0%Z <-> forall q, (q, id) ∈ edges -> q ∈ placed.
Proof.
  unfold unmet. split.
  - intros Hz q Hq. destruct (decide (q ∈ placed)) as [|Hn]; [done|].
    assert (Hf : (q, id) ∈ filter (fun e => e.2 = id /\ e.1 ∉ placed) edges)
      by (by apply list_elem_of_filter).
    destruct (filter _ edges); [by apply not_elem_of_nil in Hf|]. simpl in Hz. lia.
  - intros Hall. destruct (filter (fun e => e.2 = id /\ e.1 ∉ placed) edges) as [|[q i] l] eqn:E;
      [done|].
    assert (Hf : (q, i) ∈ filter (fun e => e.2 = id /\ e.1 ∉ placed) edges) by (rewrite E; left).
    apply list_elem_of_filter in Hf as [[Hi Hq] Hin]. simpl in Hi, Hq. subst i.
    by destruct Hq; apply Hall.
Qed.

(** Placing [q] meets exactly the requirements that name it. *)
Lemma unmet_place edges placed q id :
  q ∉ placed ->
  unmet edges (placed ++ [q]) id = (unmet edges placed id - occurs (dependents edges q) id)%Z.
Proof.
  intros Hq. unfold unmet, occurs, dependents.
  induction edges as [|[a b] edges IH]; [done|].
  rewrite !filter_cons. cbn [fst snd].
  repeat case_decide; rewrite ?fmap_cons, ?filter_cons; cbn [length fst snd];
    repeat case_decide; cbn [length] in *; rewrite ?elem_of_app, ?list_elem_of_singleton in *;
    try lia; naive_solver.
Qed.

(** The loop's invariant: what is placed and what waits, the counts, and that
    nothing was placed before what it requires. *)
Record kahn_inv rules (done queue : list string) (pending : gmap string Z) : Prop := {
  inv_nodup : NoDup (done ++ queue)%list;
  inv_sub : (done ++ queue)%list ⊆ (rule_ID <$> rules);
  inv_count : forall id, count_of pending id = unmet (requirement_edges rules) done id;
  inv_ready : forall id, id ∈ rule_ID <$> rules ->
    id ∈ (done ++ queue)%list <-> unmet (requirement_edges rules) done id = 0%Z;
  inv_order : forall k id, done !! k = Some id ->
    unmet (requirement_edges rules) (take k done) id = 0%Z;
}.

Lemma unmet_nonneg edges placed id : (0 <= unmet edges placed id)%Z.
Proof. unfold unmet. lia. Qed.

Lemma dependents_edge edges q id : id ∈ dependents edges q <-> (q, id) ∈ edges.
Proof.
  unfold dependents. rewrite list_elem_of_fmap. split.
  - intros ([a b] & -> & Hin). apply list_elem_of_filter in Hin as [Ha Hin]. simpl in Ha.
    by subst a.
  - intros Hin. exists (q, id). split; [done|]. by apply list_elem_of_filter.
Qed.

Lemma kahn_inv_step rules done id queue pending p' freed :
  NoDup (rule_ID <$> rules) -> kahn_inv rules done (id :: queue) pending ->
  foldl unblock (pending, []) (dependents (requirement_edges rules) id) = (p', freed) ->
  kahn_inv rules (done ++ [id]) (queue ++ inCatalogOrder rules freed) p'.
Proof.
  intros Hids [Hnd Hsub Hcount Hready Horder] E.
  set (edges := requirement_edges rules) in *.
  assert (Hplaced : id ∉ done).
  { apply NoDup_app in Hnd as (_ & Hd & _). intros Hin. apply (Hd id Hin). left. }
  assert (Hpl := fun x => unmet_place edges done id x Hplaced).
  assert (Hle : forall d, d ∈ dependents edges id ->
    (occurs (dependents edges id) d <= count_of pending d)%Z).
  { intros d _. rewrite Hcount. fold edges. pose proof (Hpl d) as Hd.
    pose proof (unmet_nonneg edges (done ++ [id]) d). lia. }
  destruct (unblock_spec _ _ _ _ Hle E)
    as (Hc & Hf & Hin).
  assert (Hc' : forall x, count_of p' x = unmet edges (done ++ [id]) x)
    by (intros x; rewrite Hc, Hcount, Hpl; done).
  assert (Hfsub : freed ⊆ (rule_ID <$> rules)).
  { intros x [Hx _]%Hin. apply dependents_edge, elem_of_requirement_edges in Hx as (r & Hr & -> & _).
    by apply list_elem_of_fmap_2. }
  destruct (in_catalog_order rules freed Hids Hf Hfsub) as [Hico Hel].
  assert (Hnew : forall x, x ∈ freed -> x ∉ (done ++ id :: queue)%list).
  { intros x Hx. assert (Hx' := Hx). apply Hin in Hx' as [Hds Hz].
    rewrite Hready by (by apply Hfsub). rewrite Hc' in Hz. rewrite Hpl in Hz.
    apply occurs_pos in Hds. lia. }
  assert (Happ : ((done ++ [id]) ++ queue ++ inCatalogOrder rules freed)%list =
    ((done ++ id :: queue) ++ inCatalogOrder rules freed)%list) by (by rewrite <- !app_assoc).
  split; rewrite ?Happ.
  - apply NoDup_app. split; [done|]. split; [|done]. intros x Hx Hx2%Hel. by destruct (Hnew x Hx2).
  - intros x [Hx|Hx%Hel]%elem_of_app; [by apply Hsub|by apply Hfsub].
  - exact Hc'.
  - intros x Hx. rewrite elem_of_app, Hel, Hready by done. fold edges. rewrite Hin, Hc', Hpl.
    pose proof (unmet_nonneg edges (done ++ [id]) x) as Hn1. rewrite Hpl in Hn1.
    pose proof (unmet_nonneg edges done x). rewrite <- occurs_pos.
    assert (0 <= occurs (dependents edges id) x)%Z by (unfold occurs; lia). lia.
  - intros k x Hk. destruct (decide (k < length done)) as [Hlt|Hge].
    + rewrite lookup_app_l in Hk by done. rewrite take_app_le by lia. by apply Horder.
    + assert (k = length done) as ->.
      { apply lookup_lt_Some in Hk. rewrite length_app in Hk. simpl in Hk. lia. }
      rewrite lookup_app_r, Nat.sub_diag in Hk by done. simpl in Hk. simplify_eq.
      rewrite take_app_length. apply Hready; [apply Hsub|]; apply elem_of_app; right; left.
Qed.

Lemma kahn_total rules unblocks fuel done queue pending :
  NoDup (rule_ID <$> rules) ->
  (forall q, list_of unblocks q = dependents (requirement_edges rules) q) ->
  kahn_inv rules done queue pending -> length rules <= length done + fuel ->
  exists p' out, kahn fuel rules unblocks queue pending done = Some (p', out) /\
    kahn_inv rules out [] p'.
Proof.
  intros Hids Hub. revert done queue pending.
  induction fuel as [|fuel IH]; intros done queue pending Hinv Hfuel;
    destruct queue as [|id queue]; simpl; [by eauto| |by eauto|].
  - exfalso. destruct Hinv as [Hnd Hsub _ _ _].
    apply (NoDup_submseteq _ _ Hnd) in Hsub. apply submseteq_length in Hsub.
    rewrite length_app, length_fmap in Hsub. simpl in Hsub. lia.
  - destruct (foldl unblock (pending, []) (list_of unblocks id)) as [p1 freed] eqn:E.
    rewrite Hub in E. apply IH.
    + by eapply kahn_inv_step.
    + rewrite length_app. simpl. lia.
Qed.

Lemma kahn_start rules :
  NoDup (rule_ID <$> rules) ->
  let pending := foldl add_pending ∅ (requirement_edges rules) in
  kahn_inv rules [] (List.filter (fun id => count_of pending id =? 0)%Z (rule_ID <$> rules))
    pending.
Proof.
  intros Hids pending. split; simpl.
  - apply NoDup_ListNoDup, List.NoDup_filter, NoDup_ListNoDup, Hids.
  - intros x. rewrite list_elem_of_In, filter_In, <- list_elem_of_In. tauto.
  - intros id. apply pending_start.
  - intros id Hid. rewrite list_elem_of_In, filter_In, <- list_elem_of_In, Z.eqb_eq.
    unfold pending. rewrite pending_start. tauto.
  - done.
Qed.

Lemma byID_lookup rules rule :
  NoDup (rule_ID <$> rules) -> rule ∈ rules -> byID rules !! rule_ID rule = Some rule.
Proof.
  unfold byID. induction rules as [|x rules IH] using rev_ind; intros Hnd Hin.
  { by apply not_elem_of_nil in Hin. }
  rewrite foldl_app. simpl. rewrite fmap_app, NoDup_app in Hnd.
  destruct Hnd as (Hnd & Hdis & _).
  apply elem_of_app in Hin as [Hin| ->%list_elem_of_singleton]; [|by rewrite lookup_insert_eq].
  rewrite lookup_insert_ne; [by apply IH|]. intros Heq.
  apply (Hdis (rule_ID rule)); [by apply list_elem_of_fmap_2|]. rewrite <- Heq. left.
Qed.

Lemma byID_map rules :
  NoDup (rule_ID <$> rules) ->
  (fun id => default zero (byID rules !! id)) <$> (rule_ID <$> rules) = rules.
Proof.
  intros Hnd. rewrite <- list_fmap_compose. rewrite <- (list_fmap_id rules) at 2.
  apply list_fmap_ext. intros i rule Hi. simpl.
  by rewrite byID_lookup by (done || by eapply list_elem_of_lookup_2).
Qed.

Lemma inv_complete rules out pending :
  NoDup (rule_ID <$> rules) -> kahn_inv rules out [] pending ->
  length out = length rules -> out ≡ₚ rule_ID <$> rules.
Proof.
  intros Hids [Hnd Hsub _ _ _] Hlen. rewrite app_nil_r in Hnd, Hsub.
  apply submseteq_length_Permutation; [by apply NoDup_submseteq|].
  rewrite length_fmap. lia.
Qed.

(** What [topoSort] answers. *)
Definition ordered_by_requirements (out : list T) : Prop :=
  forall k rule q, out !! k = Some rule -> q ∈ rule_Requires rule -> q ∈ rule_ID <$> out ->
    exists j rule', j < k /\ out !! j = Some rule' /\ rule_ID rule' = q.

Lemma topoSort_spec rules :
  NoDup (rule_ID <$> rules) ->
  match topoSort zero rules with
  | Some (Ok out) => out ≡ₚ rules /\ ordered_by_requirements out
  | Some (Err names) => names <> [] /\ forall id, id ∈ names ->
      exists rule q, rule ∈ rules /\ id = rule_ID rule /\ q ∈ rule_Requires rule /\ q ∈ names
  | None => False
  end.
Proof.
  intros Hids. unfold topoSort.
  destruct (kahn_total rules (foldl add_unblocks ∅ (requirement_edges rules)) (length rules)
    [] _ _ Hids (unblocks_start _) (kahn_start rules Hids)) as (p' & out & -> & Hinv);
    [simpl; lia|].
  destruct (Nat.eqb_spec (length out) (length rules)) as [Hlen|Hlen].
  - pose proof (inv_complete _ _ _ Hids Hinv Hlen) as Hperm. split.
    + rewrite Hperm. by rewrite byID_map.
    + intros k rule q Hk Hq Hin. rewrite list_lookup_fmap in Hk.
      destruct (out !! k) as [id|] eqn:Ek; [|done]. simpl in Hk.
      assert (Hid : id ∈ rule_ID <$> rules)
        by (rewrite <- Hperm; by eapply list_elem_of_lookup_2).
      apply list_elem_of_fmap in Hid as (r & -> & Hr). rewrite byID_lookup in Hk by done.
      simplify_eq/=.
      assert (Hq' : q ∈ take k out).
      { pose proof (inv_order _ _ _ _ Hinv k _ Ek) as Hz. rewrite unmet_zero in Hz. apply Hz.
        apply elem_of_requirement_edges. exists rule. repeat split; try done.
        rewrite list_elem_of_fmap in Hin. destruct Hin as (r' & -> & Hr').
        rewrite Hperm, byID_map in Hr' by done. by apply list_elem_of_fmap_2. }
      apply list_elem_of_lookup in Hq' as (j & Hj). apply lookup_take_Some in Hj as [Hj Hlt].
      assert (Hqr : q ∈ rule_ID <$> rules)
        by (rewrite <- Hperm; by eapply list_elem_of_lookup_2).
      apply list_elem_of_fmap in Hqr as (r' & -> & Hr'). exists j, r'. split; [done|].
      split; [|done]. rewrite list_lookup_fmap, Hj. simpl. by rewrite byID_lookup.
  - assert (Hnames : forall id, id ∈ namesOf rules p' <-> id ∈ rule_ID <$> rules /\ id ∉ out).
    { intros id. unfold namesOf. rewrite list_elem_of_In, filter_In, <- list_elem_of_In, Z.ltb_lt.
      rewrite (inv_count _ _ _ _ Hinv).
      split; intros [Hid Hx]; (split; [done|]);
        pose proof (inv_ready _ _ _ _ Hinv id Hid) as Hr; rewrite app_nil_r in Hr.
      - rewrite Hr. lia.
      - pose proof (unmet_nonneg (requirement_edges rules) out id). rewrite Hr in Hx. lia. }
    split.
    + destruct Hinv as [Hnd Hsub _ _ _]. rewrite app_nil_r in Hnd, Hsub. intros Hnil.
      destruct Hlen. assert (Hall : rule_ID <$> rules ⊆ out).
      { intros id Hid. destruct (decide (id ∈ out)); [done|].
        assert (Hx : id ∈ namesOf rules p') by (by apply Hnames).
        rewrite Hnil in Hx. by apply not_elem_of_nil in Hx. }
      rewrite <- (length_fmap rule_ID rules).
      apply Nat.le_antisymm; apply submseteq_length, NoDup_submseteq; done.
    + intros id [Hid Hout]%Hnames.
      assert (Hz : unmet (requirement_edges rules) out id <> 0%Z).
      { intros Hz. apply (inv_ready _ _ _ _ Hinv id Hid) in Hz. by rewrite app_nil_r in Hz. }
      destruct (filter (fun e => e.2 = id /\ e.1 ∉ out) (requirement_edges rules))
        as [|[q i] l] eqn:Ef; [unfold unmet in Hz; by rewrite Ef in Hz|].
      assert (Hf : (q, i) ∈ filter (fun e => e.2 = id /\ e.1 ∉ out) (requirement_edges rules))
        by (rewrite Ef; left).
      apply list_elem_of_filter in Hf as [[Hi Hq] Hedge]. simpl in Hi, Hq. subst i.
      apply elem_of_requirement_edges in Hedge as (rule & Hr & -> & Hreq & Hqr).
      exists rule, q. repeat split; try done. by apply Hnames.
Qed.

(** A set of rules each waiting on another of the set has no order. *)
Lemma blocked_no_order rules names out :
  names <> [] ->
  (forall id, id ∈ names ->
    exists rule q, rule ∈ rules /\ id = rule_ID rule /\ q ∈ rule_Requires rule /\ q ∈ names) ->
  NoDup (rule_ID <$> rules) -> out ≡ₚ rules -> ~ ordered_by_requirements out.
Proof.
  intros Hne Hblk Hnd Hperm Hord.
  assert (Hin : forall q, q ∈ names -> q ∈ rule_ID <$> out).
  { intros q Hq. destruct (Hblk q Hq) as (rule & _ & Hr & -> & _). rewrite Hperm.
    by apply list_elem_of_fmap_2. }
  assert (Hno : forall n k rule, k < n -> out !! k = Some rule -> rule_ID rule ∉ names).
  { induction n as [|n IH]; intros k rule Hk Hlook Hn; [lia|].
    destruct (Hblk _ Hn) as (rule' & q & Hr' & Heq & Hreq & Hq).
    assert (rule' = rule) as ->.
    { assert (Hout : NoDup (rule_ID <$> out)) by (by rewrite Hperm).
      rewrite <- Hperm in Hr'. apply list_elem_of_lookup in Hr' as [k' Hk'].
      assert (k' = k) as ->; [|congruence].
      eapply (NoDup_lookup _ _ _ (rule_ID rule) Hout); rewrite list_lookup_fmap.
      - by rewrite Hk', Heq.
      - by rewrite Hlook. }
    destruct (Hord k rule q Hlook Hreq (Hin _ Hq)) as (j & r2 & Hj & Hj2 & Hid).
    apply (IH j r2); [lia|done|]. by rewrite Hid. }
  destruct names as [|id names]; [done|].
  assert (Hid := Hin id ltac:(left)). apply list_elem_of_fmap in Hid as (rule & -> & Hr).
  apply list_elem_of_lookup in Hr as [k Hk]. apply (Hno (S k) k rule); [lia|done|left].
Qed.

Lemma kahn_no_edges fuel rules queue pending out :
  length queue <= fuel -> kahn fuel rules ∅ queue pending out = Some (pending, (out ++ queue)%list).
Proof.
  revert queue out. induction fuel as [|fuel IH]; intros [|id queue] out Hlen; simpl in *;
    rewrite ?app_nil_r; try done; [lia|].
  unfold list_of. rewrite lookup_empty. unfold inCatalogOrder. simpl. rewrite app_nil_r, IH by lia. by rewrite <- app_assoc.
Qed.

Lemma topoSort_stable rules :
  NoDup (rule_ID <$> rules) -> requirement_edges rules = [] ->
  topoSort zero rules = Some (Ok rules).
Proof.
  intros Hnd He. unfold topoSort. rewrite He. simpl.
  assert (Hq : List.filter (fun id => count_of ∅ id =? 0)%Z (rule_ID <$> rules) =
    rule_ID <$> rules).
  { generalize (rule_ID <$> rules). intros l. induction l as [|x l IH]; [done|].
    simpl. by rewrite IH. }
  rewrite Hq, kahn_no_edges by (by rewrite length_fmap). simpl.
  rewrite length_fmap, Nat.eqb_refl. by rewrite byID_map.
Qed.

End OrderFacts.

(** ** What holds of every registry *)

Section RegistryFacts.

Context {T : Type} `{Rule T}.

Implicit Types (r : Registry T) (rules : list T).

Record registry_ok r : Prop := {
  ok_nodup : NoDup (reg_order r);
  ok_dom : forall id, id ∈ reg_order r <-> is_Some (reg_rules r !! id);
  ok_id : forall id rule, reg_rules r !! id = Some rule ->
    rule_ID rule = id /\ TrimSpace id <> "";
}.

Lemma new_registry_ok name : registry_ok (NewRegistry name).
Proof.
  split; simpl; [constructor| |done].
  intros id. rewrite lookup_empty. split; [intros Hx; by apply not_elem_of_nil in Hx|].
  by intros [? ?].
Qed.

Lemma all_ids r : registry_ok r -> rule_ID <$> All r = reg_order r.
Proof.
  intros [_ Hdom Hid]. unfold All.
  assert (Hsub : reg_order r ⊆ reg_order r) by done. revert Hsub.
  generalize (reg_order r) at 1 3 4. intros l.
  induction l as [|id l IH]; intros Hsub; [done|]. simpl.
  assert (Hin : id ∈ reg_order r) by (apply Hsub; left).
  apply Hdom in Hin as [rule Hr]. rewrite Hr. simpl. destruct (Hid _ _ Hr) as [-> _].
  f_equal. apply IH. intros x Hx. apply Hsub. by right.
Qed.

Lemma registered_ok r rule :
  registry_ok r -> TrimSpace (rule_ID rule) <> "" -> reg_rules r !! rule_ID rule = None ->
  let r' := mkRegistry (reg_name r) (reg_order r ++ [rule_ID rule])%list
    (<[rule_ID rule := rule]> (reg_rules r)) in
  registry_ok r' /\ All r' = (All r ++ [rule])%list.
Proof.
  intros Hok Hs Hfree r'. destruct Hok as [Hnd Hdom Hid].
  assert (Hfresh : rule_ID rule ∉ reg_order r) by (rewrite Hdom, Hfree; by intros [? ?]).
  split.
  - split; simpl.
    + apply NoDup_app. split; [done|]. split; [|apply NoDup_singleton].
      by intros x Hx ->%list_elem_of_singleton.
    + intros id. rewrite elem_of_app, list_elem_of_singleton, Hdom.
      destruct (decide (id = rule_ID rule)) as [->|Hne].
      * rewrite lookup_insert_eq. naive_solver.
      * rewrite lookup_insert_ne by done. naive_solver.
    + intros id rule' Hr. destruct (decide (id = rule_ID rule)) as [->|Hne].
      * rewrite lookup_insert_eq in Hr. by simplify_eq.
      * rewrite lookup_insert_ne in Hr by done. by apply Hid.
  - unfold All. simpl. rewrite bind_app. simpl. rewrite lookup_insert_eq. simpl.
    f_equal. apply Forall_bind_ext, Forall_forall. intros id Hin.
    rewrite lookup_insert_ne; [done|]. by intros <-.
Qed.

(** What [Register] leaves behind, whether or not it refused. *)
Lemma register_spec r rules r' err :
  registry_ok r -> Register r rules = (r', err) ->
  registry_ok r' /\ reg_name r' = reg_name r /\
  match err with
  | None => All r' = (All r ++ rules)%list
  | Some e => exists before rule after, rules = (before ++ rule :: after)%list /\
      All r' = (All r ++ before)%list /\
      match e with
      | ErrNoIdentity _ => TrimSpace (rule_ID rule) = ""
      | ErrTaken _ id => id = rule_ID rule /\ id ∈ rule_ID <$> All r'
      end
  end.
Proof.
  revert r. induction rules as [|rule rules IH]; intros r Hok E; simpl in E.
  { injection E as <- <-. split; [done|]. split; [done|]. symmetry. apply app_nil_r. }
  destruct (String.eqb_spec (TrimSpace (rule_ID rule)) "") as [Hs|Hs].
  { simplify_eq. split; [done|]. split; [done|]. simpl. exists [], rule, rules. by rewrite app_nil_r. }
  destruct (reg_rules r !! rule_ID rule) as [old|] eqn:Ho.
  { simplify_eq. split; [done|]. split; [done|]. simpl. exists [], rule, rules. rewrite app_nil_r.
    repeat split. rewrite all_ids by done. apply Hok. by rewrite Ho. }
  destruct (registered_ok r rule Hok Hs Ho) as [Hok' Hall].
  destruct (IH _ Hok' E) as (Hr & Hname & Hres). split; [done|]. split; [done|].
  rewrite Hall in Hres. destruct err as [e|].
  - destruct Hres as (before & x & after & -> & Hb & He). exists (rule :: before), x, after.
    split; [done|]. split; [|done]. rewrite Hb, <- app_assoc. done.
  - rewrite Hres, <- app_assoc. done.
Qed.

Lemma select_nodup keep r : registry_ok r -> NoDup (rule_ID <$> Select keep r).
Proof.
  intros Hok. pose proof (ok_nodup _ Hok) as Hnd. rewrite <- all_ids in Hnd by done.
  revert Hnd. unfold Select. generalize (All r). intros l.
  induction l as [|x l IH]; [done|]. rewrite fmap_cons, NoDup_cons. intros [Hx Hl]. simpl.
  destruct (keep x); [|by apply IH]. rewrite fmap_cons, NoDup_cons. split; [|by apply IH].
  rewrite list_elem_of_fmap. intros (y & Hy & Hin). apply Hx. rewrite Hy.
  apply list_elem_of_fmap_2. apply list_elem_of_In, filter_In in Hin as [Hin _].
  by apply list_elem_of_In.
Qed.

(** Registering distinct, named rules is never refused. *)
Lemma register_fresh r rules :
  registry_ok r -> NoDup (rule_ID <$> All r ++ rules)%list ->
  Forall (fun rule => TrimSpace (rule_ID rule) <> "") rules ->
  (Register r rules).2 = None.
Proof.
  intros Hok Hnd Hnamed. destruct (Register r rules) as [r' [e|]] eqn:E; [|done].
  destruct (register_spec _ _ _ _ Hok E) as (_ & _ & before & rule & after & -> & Hall & He).
  exfalso. rewrite Forall_app, Forall_cons in Hnamed. destruct Hnamed as (_ & Hr & _).
  destruct e as [|name id]; [done|]. destruct He as [-> Hin]. rewrite Hall in Hin.
  rewrite app_assoc, fmap_app, NoDup_app in Hnd. destruct Hnd as (_ & Hd & _).
  apply (Hd _ Hin). rewrite fmap_cons. left.
Qed.

End RegistryFacts.
