(* ===== verification/UpgradePlan.v ===== *)
(** What an upgrade reports and plans ([operator/internal/upgrade]).

    The references a report prints ([object.go]), what a check found
    ([finding.go]), the plan of a stage and its summary ([plan.go]), the phases
    of the migration ([phase.go]), and where a cluster stands between the two API
    versions ([position.go]). *)

From Stdlib Require Import Ascii String.
From S2P Require Import Prelude GoStrings StateMachine.

#[local] Open Scope string_scope.

(** ** Naming objects ([object.go]) *)

(** [schema.GroupVersionKind]. *)
Record GVK := mkGVK { gvk_Group : string; gvk_Version : string; gvk_Kind : string }.

Record ObjectRef := mkRef {
  ref_GVK : GVK;
  ref_Namespace : string;
  ref_Name : string;
  ref_UID : string;
}.

Record ObjectIdentity := mkIdentity {
  id_Group : string;
  id_Kind : string;
  id_Namespace : string;
  id_Name : string;
}.

#[export] Instance GVK_eq_dec : EqDecision GVK.
Proof. solve_decision. Defined.
#[export] Instance ObjectRef_eq_dec : EqDecision ObjectRef.
Proof. solve_decision. Defined.
#[export] Instance ObjectIdentity_eq_dec : EqDecision ObjectIdentity.
Proof. solve_decision. Defined.

#[export] Program Instance GVK_countable : Countable GVK :=
  inj_countable' (fun k => (gvk_Group k, gvk_Version k, gvk_Kind k))
    (fun '(g, v, k) => mkGVK g v k) _.
Next Obligation. by intros []. Qed.

#[export] Program Instance ObjectIdentity_countable : Countable ObjectIdentity :=
  inj_countable' (fun i => (id_Group i, id_Kind i, id_Namespace i, id_Name i))
    (fun '(g, k, ns, n) => mkIdentity g k ns n) _.
Next Obligation. by intros []. Qed.

(** [ObjectRef.Identity]: the version and the UID left out. *)
Definition Identity (r : ObjectRef) : ObjectIdentity :=
  mkIdentity (gvk_Group (ref_GVK r)) (gvk_Kind (ref_GVK r)) (ref_Namespace r) (ref_Name r).

Definition ref_String (r : ObjectRef) : string :=
  let kind := if String.eqb (gvk_Kind (ref_GVK r)) "" then "Object" else gvk_Kind (ref_GVK r) in
  if String.eqb (ref_Namespace r) "" then kind ++ " " ++ ref_Name r
  else kind ++ " " ++ ref_Namespace r ++ "/" ++ ref_Name r.

Definition APIGroup : string := "storage.simplyblock.io".
Definition UpgradeKind : string := "Upgrade".

(** ** Findings ([finding.go]) *)

Definition SeverityError : string := "ERROR".
Definition SeverityWarning : string := "WARNING".
Definition SeverityInfo : string := "INFO".

Record Finding := mkFinding {
  f_Rule : string;
  f_Severity : string;
  f_Objects : list ObjectRef;
  f_PerObject : list string;
  f_Summary : string;
  f_Detail : string;
  f_Remediation : string;
}.

Definition finding_Error (f : Finding) : bool := String.eqb (f_Severity f) SeverityError.

(** [Findings.Errors], [Findings.Blocked] and [Findings.Count]. *)
Definition Errors (fs : list Finding) : list Finding := List.filter finding_Error fs.
Definition findings_Blocked (fs : list Finding) : bool := Nat.ltb 0 (length (Errors fs)).
Definition Count (fs : list Finding) (severity : string) : nat :=
  foldl (fun n f => if String.eqb (f_Severity f) severity then S n else n) 0 fs.

Definition newline : ascii := ascii_of_nat 10.

(** [strings.TrimRight(line, " \t")]. *)
Definition trim_right (line : string) : string :=
  of_bytes (rev (drop_while (fun a => Ascii.eqb a (ascii_of_nat 32) || Ascii.eqb a (ascii_of_nat 9))
    (rev (to_bytes line)))).

Definition nonEmptyLines (s : string) : list string :=
  List.filter (fun line => negb (String.eqb line "")) (trim_right <$> Split s newline).

(** [%-ns]: padded with spaces to a width counted in code points. *)
Definition pad (n : nat) (s : string) : string :=
  s ++ of_bytes (replicate (n - length (runes s)) (ascii_of_nat 32)).

Definition indent : string := String newline "        ".

Definition object_line (f : Finding) (i : nat) (obj : ObjectRef) : string :=
  match f_PerObject f !! i with
  | Some note =>
      if String.eqb note "" then indent ++ ref_String obj
      else indent ++ ref_String obj ++ "  " ++ note
  | None => indent ++ ref_String obj
  end.

(** [Finding.String] and [Findings.String]. *)
Definition finding_String (f : Finding) : string :=
  String.concat "" (
    (pad 7 (f_Severity f) ++ " " ++ f_Summary f)%string ::
    imap (object_line f) (f_Objects f) ++
    ((fun line => indent ++ line)%string <$> nonEmptyLines (f_Detail f)) ++
    ((fun line => indent ++ "fix: " ++ line)%string <$> nonEmptyLines (f_Remediation f)))%list.

Definition findings_String (fs : list Finding) : string :=
  String.concat (String newline "") (finding_String <$> fs).

(** ** Phases ([phase.go]) *)

Definition PhasePending : string := "Pending".
Definition PhaseValidating : string := "Validating".
Definition PhaseTransforming : string := "Transforming".
Definition PhaseOwnership : string := "Ownership".
Definition PhaseHandles : string := "Handles".
Definition PhaseDeleting : string := "Deleting".
Definition PhaseRewriting : string := "Rewriting".
Definition PhaseVerifying : string := "Verifying".
Definition PhaseCompleted : string := "Completed".
Definition PhaseFailed : string := "Failed".

Definition MigratePhases : list string :=
  [PhasePending; PhaseValidating; PhaseTransforming; PhaseOwnership; PhaseHandles;
   PhaseDeleting; PhaseRewriting; PhaseVerifying; PhaseCompleted].

(** [Phase.Describe]. *)
Definition phase_Describe (p : string) : string :=
  if String.eqb p PhasePending then "Starting"
  else if String.eqb p PhaseValidating then "Verifying the resource graph"
  else if String.eqb p PhaseTransforming then "Copying the renamed and absorbed kinds"
  else if String.eqb p PhaseOwnership then "Reparenting what the retired owners hold"
  else if String.eqb p PhaseHandles then "Normalizing volume handles"
  else if String.eqb p PhaseDeleting then "Removing what has been replaced"
  else if String.eqb p PhaseRewriting then "Rewriting objects into the new storage version"
  else if String.eqb p PhaseVerifying then "Verifying the migration"
  else if String.eqb p PhaseCompleted then "Completed"
  else if String.eqb p PhaseFailed then "Failed"
  else p.

Definition Terminal (p : string) : bool :=
  String.eqb p PhaseCompleted || String.eqb p PhaseFailed.

(** ** Stages ([rule.go]) *)

Definition StagePreflight : string := "preflight".
Definition StageUpgrade : string := "upgrade".
Definition StageMigrate : string := "migrate".

(** [Stage.Describe]. *)
Definition stage_Describe (s : string) : string :=
  if String.eqb s StagePreflight then "Checking whether this cluster can be upgraded"
  else if String.eqb s StageUpgrade then "Preparing the cluster for the new operator"
  else if String.eqb s StageMigrate then "Migrating the resource model"
  else s.

(** ** Plans ([plan.go]) *)

Definition VerbCreate : string := "CREATE".
Definition VerbUpdate : string := "UPDATE".
Definition VerbDelete : string := "DELETE".
Definition VerbReparent : string := "REPARENT".
Definition VerbAnnotate : string := "ANNOTATE".
Definition VerbRewrite : string := "REWRITE".
Definition VerbAwait : string := "AWAIT".
Definition VerbVerify : string := "VERIFY".

Record Action := mkAction {
  a_Rule : string;
  a_Verb : string;
  a_Object : ObjectRef;
  a_Detail : string;
  a_Blocked : string;
}.

Definition action_String (a : Action) : string :=
  let line := pad 9 (a_Verb a) ++ " " ++ ref_String (a_Object a) in
  if String.eqb (a_Detail a) "" then line else line ++ "  " ++ a_Detail a.

Record Task := mkTask {
  t_Step : string;
  t_Summary : string;
  t_Phase : string;
  t_Blocked : string;
  t_Subtasks : list Action;
}.

Definition Collapsed (t : Task) : bool :=
  match t_Subtasks t with
  | [a] => String.eqb (gvk_Kind (ref_GVK (a_Object a))) UpgradeKind
  | _ => false
  end.

Record Plan := mkPlan {
  p_Stage : string;
  p_Tasks : list Task;
  p_Findings : list Finding;
  p_Skipped : list string;
}.

(** [Plan.Add], [Plan.Record]. *)
Definition Add (p : Plan) (tasks : list Task) : Plan :=
  mkPlan (p_Stage p)
    (p_Tasks p ++ List.filter (fun t => negb (Nat.eqb (length (t_Subtasks t)) 0)) tasks)%list
    (p_Findings p) (p_Skipped p).
Definition plan_Record (p : Plan) (findings : list Finding) : Plan :=
  mkPlan (p_Stage p) (p_Tasks p) (p_Findings p ++ findings)%list (p_Skipped p).

Definition Actions (p : Plan) : list Action := t ← p_Tasks p; t_Subtasks t.

(** [Plan.Phases], [Plan.InPhase]. *)
Definition Phases (p : Plan) : list string :=
  let seen := t_Phase <$> p_Tasks p in
  ((if contains seen "" then [""] else []) ++
   List.filter (fun phase => contains seen phase) MigratePhases)%list.
Definition InPhase (p : Plan) (phase : string) : list Task :=
  List.filter (fun t => String.eqb (t_Phase t) phase) (p_Tasks p).

Definition plan_Blocked (p : Plan) : bool := findings_Blocked (p_Findings p).
Definition Unimplemented (p : Plan) : list Task :=
  List.filter (fun t => negb (String.eqb (t_Blocked t) "")) (p_Tasks p).

(** The bucket an action is counted in, if it is counted. *)
Definition bucket_of (a : Action) : option (string * string) :=
  let kind := gvk_Kind (ref_GVK (a_Object a)) in
  if String.eqb kind UpgradeKind then None
  else Some (a_Verb a, if String.eqb kind "" then "object" else kind).

Definition count_action (counts : gmap (string * string) nat) (a : Action)
    : gmap (string * string) nat :=
  match bucket_of a with
  | None => counts
  | Some b => <[b := S (default 0 (counts !! b))]> counts
  end.

Definition bucket_counts (p : Plan) : gmap (string * string) nat :=
  foldl count_action ∅ (Actions p).

(** The order [Summary] sorts its buckets in. *)
Definition bucket_le (a b : string * string) : Prop :=
  if decide (a.1 = b.1) then String.le a.2 b.2 else String.le a.1 b.1.

#[export] Instance bucket_le_dec : RelDecision bucket_le.
Proof. intros a b. unfold bucket_le. destruct (decide (a.1 = b.1)); exact _. Defined.

Definition bucket_keys (p : Plan) : list (string * string) :=
  merge_sort bucket_le (map_to_list (bucket_counts p)).*1.

Definition has_suffix (s suffix : string) : bool :=
  match after_prefix (rev (to_bytes suffix)) (rev (to_bytes s)) with
  | Some _ => true
  | None => false
  end.

Definition plural (kind : string) (n : nat) : string :=
  if Nat.eqb n 1 then kind
  else if has_suffix kind "s" || has_suffix kind "x" || has_suffix kind "ch" then kind ++ "es"
  else kind ++ "s".

Section Summary.

Context `{!Text}.

Definition pastTense (v : string) : string :=
  if String.eqb v VerbCreate then "created"
  else if String.eqb v VerbUpdate then "updated"
  else if String.eqb v VerbDelete then "deleted"
  else if String.eqb v VerbReparent then "reparented"
  else if String.eqb v VerbAnnotate then "annotated"
  else if String.eqb v VerbRewrite then "rewritten"
  else if String.eqb v VerbAwait then "waited for"
  else if String.eqb v VerbVerify then "verified"
  else ToLower v.

Definition summary_line (counts : gmap (string * string) nat) (key : string * string) : string :=
  let n := default 0 (counts !! key) in
  Itoa (Z.of_nat n) ++ " " ++ plural key.2 n ++ " will be " ++ pastTense key.1 ++ ".".

Definition Summary (p : Plan) : list string :=
  ((summary_line (bucket_counts p) <$> bucket_keys p) ++
   [(Itoa (Z.of_nat (length (p_Tasks p))) ++ " " ++ plural "task" (length (p_Tasks p)) ++
     " in total.")%string] ++
   (if Nat.ltb 0 (length (Unimplemented p)) then
      [(Itoa (Z.of_nat (length (Unimplemented p))) ++
        " of them are described and not implemented, so " ++ p_Stage p ++
        " cannot be run yet.")%string]
    else []))%list.

End Summary.

(** ** Where a cluster stands ([position.go]) *)

Definition VersionOld : string := "v1alpha1".
Definition VersionNew : string := "v1alpha2".

Record ConvertingKind := mkConverting { ck_Kind : string; ck_Plural : string }.

Definition CRDName (c : ConvertingKind) : string := ck_Plural c ++ "." ++ APIGroup.

Definition ConvertingKinds : list ConvertingKind :=
  [mkConverting "StorageCluster" "storageclusters";
   mkConverting "StorageClusterOps" "storageclusterops";
   mkConverting "StorageNode" "storagenodes";
   mkConverting "StorageNodeOps" "storagenodeops";
   mkConverting "StoragePool" "storagepools";
   mkConverting "ControlPlane" "controlplanes";
   mkConverting "StorageBackup" "storagebackups"].

Record Position := mkPosition {
  pos_Stage : string;
  pos_Because : string;
  pos_Converted : list string;
  pos_Pending : list string;
}.

Definition Partial (p : Position) : bool :=
  Nat.ltb 0 (length (pos_Converted p)) && Nat.ltb 0 (length (pos_Pending p)).

(** What [Client.Get] answers for a CRD: its [Spec.Versions] as names and
    whether each is served. *)
Inductive crd_read :=
| CRDFound (versions : list (string * bool))
| CRDNotFound
| CRDError (err : string).

(** [serves]. *)
Definition serves (versions : list (string * bool)) (version : string) : bool :=
  existsb (fun v => String.eqb v.1 version && v.2) versions.

Section Positioned.

(** The API server, by CRD name. *)
Context (get : string -> crd_read).

(** The loop over the kinds, stopping at a read that fails. *)
Fixpoint read_kinds (kinds : list ConvertingKind) (converted pending : list string)
    : list string * list string * error_of string :=
  match kinds with
  | [] => (converted, pending, None)
  | kind :: kinds =>
      match get (CRDName kind) with
      | CRDNotFound => read_kinds kinds converted (pending ++ [ck_Kind kind])%list
      | CRDError err =>
          (converted, pending,
           Some ("reading the CRD for " ++ ck_Kind kind ++ ": " ++ err)%string)
      | CRDFound versions =>
          if serves versions VersionNew
          then read_kinds kinds (converted ++ [ck_Kind kind])%list pending
          else read_kinds kinds converted (pending ++ [ck_Kind kind])%list
      end
  end.

Definition because (converted pending : nat) : string :=
  let total := converted + pending in
  let n k := Itoa (Z.of_nat k) in
  if Nat.eqb pending 0 then
    "Upgrade finished: " ++ n total ++ " kinds have been upgraded to " ++ VersionNew ++ "."
  else if Nat.ltb 0 converted && Nat.ltb 0 pending then
    "Partial upgrade: " ++ n converted ++ " of " ++ n total ++
    " kinds are already upgraded to " ++ VersionNew ++ " with " ++ n pending ++
    " kinds outstanding."
  else
    "Upgrade: " ++ n total ++ " kinds will be upgraded from " ++ VersionOld ++ " to " ++
    VersionNew ++ ". New CRDs will be applied to the cluster.".

Definition Positioned : Position * error_of string :=
  match read_kinds ConvertingKinds [] [] with
  | (converted, pending, Some err) => (mkPosition "" "" converted pending, Some err)
  | (converted, pending, None) =>
      let converted := sort_strings converted in
      let pending := sort_strings pending in
      (mkPosition (if Nat.eqb (length pending) 0 then StageMigrate else StageUpgrade)
         (because (length converted) (length pending)) converted pending, None)
  end.

(** Whether a kind's CRD serves the new version. *)
Definition converted_kind (kind : ConvertingKind) : bool :=
  match get (CRDName kind) with
  | CRDFound versions => serves versions VersionNew
  | _ => false
  end.

Lemma read_kinds_spec kinds converted pending c p err :
  read_kinds kinds converted pending = (c, p, err) ->
  match err with
  | None =>
      (forall kind, kind ∈ kinds -> forall e, get (CRDName kind) <> CRDError e) /\
      c = (converted ++ (ck_Kind <$> List.filter converted_kind kinds))%list /\
      p = (pending ++ (ck_Kind <$> List.filter (fun k => negb (converted_kind k)) kinds))%list
  | Some _ => exists kind e, kind ∈ kinds /\ get (CRDName kind) = CRDError e
  end.
Proof.
  revert converted pending. induction kinds as [|kind kinds IH]; intros converted pending E;
    simpl in E.
  { injection E as <- <- <-. rewrite !app_nil_r. split; [|done].
    intros k Hk. by apply not_elem_of_nil in Hk. }
  assert (Hsome : err <> None -> (exists k e, k ∈ kinds /\ get (CRDName k) = CRDError e) ->
    exists k e, k ∈ kind :: kinds /\ get (CRDName k) = CRDError e)
    by (intros _ (k & e & ? & ?); exists k, e; split; [by right|done]).
  unfold converted_kind at 1 2. simpl.
  destruct (get (CRDName kind)) as [versions| |e] eqn:G.
  - destruct (serves versions VersionNew) eqn:Sv; apply IH in E; destruct err as [err|];
      (try by apply Hsome); simpl; rewrite ?Sv; destruct E as (He & -> & ->);
      (split; [intros k [->|Hk]%elem_of_cons x; [by rewrite G | by apply He]|]);
      simpl; by rewrite <- ?app_assoc.
  - apply IH in E. destruct err as [err|]; [by apply Hsome|]. destruct E as (He & -> & ->).
    split; [intros k [->|Hk]%elem_of_cons x; [by rewrite G | by apply He]|].
    simpl. by rewrite <- app_assoc.
  - injection E as <- <- <-. exists kind, e. split; [left|done].
Qed.

Lemma split_kinds kinds :
  (List.filter converted_kind kinds ++
   List.filter (fun k => negb (converted_kind k)) kinds)%list ≡ₚ kinds.
Proof.
  induction kinds as [|k l IH]; [done|]. simpl.
  destruct (converted_kind k); simpl; [by rewrite IH|].
  by rewrite <- Permutation_middle, IH.
Qed.

(** A cluster is positioned for the migration exactly when all seven
    converting kinds are served at the new version; otherwise, an absent CRD
    included, it is positioned for the upgrade.  The two lists share the seven
    kinds out, and the position fails only when a CRD could not be read. *)
Theorem positioned_by_what_is_served :
  match Positioned with
  | (p, None) =>
      (pos_Stage p = StageMigrate <->
        forall kind, kind ∈ ConvertingKinds -> converted_kind kind = true) /\
      (pos_Stage p = StageUpgrade \/ pos_Stage p = StageMigrate) /\
      (pos_Converted p ++ pos_Pending p)%list ≡ₚ ck_Kind <$> ConvertingKinds /\
      (forall kind, kind ∈ ConvertingKinds ->
        ck_Kind kind ∈ pos_Converted p <-> converted_kind kind = true) /\
      (Partial p = true -> pos_Stage p = StageUpgrade)
  | (_, Some _) => exists kind e, kind ∈ ConvertingKinds /\ get (CRDName kind) = CRDError e
  end.
Proof.
  unfold Positioned. destruct (read_kinds ConvertingKinds [] []) as [[c p] err] eqn:E.
  apply read_kinds_spec in E. destruct err as [err|]; [done|].
  destruct E as (_ & -> & ->). cbn [pos_Stage pos_Converted pos_Pending].
  rewrite !app_nil_l.
  assert (Hlen : length (sort_strings (ck_Kind <$>
      List.filter (fun k => negb (converted_kind k)) ConvertingKinds)) = 0 <->
    forall kind, kind ∈ ConvertingKinds -> converted_kind kind = true).
  { rewrite sort_strings_perm, length_fmap. split.
    - intros Hz kind Hin. destruct (converted_kind kind) eqn:Ek; [done|].
      apply nil_length_inv in Hz. destruct (not_elem_of_nil kind).
      rewrite <- Hz. apply list_elem_of_In, filter_In. rewrite Ek.
      split; [by apply list_elem_of_In | done].
    - intros Hall. destruct (List.filter _ _) as [|k l] eqn:Ef; [done|].
      assert (Hk : k ∈ k :: l) by left. rewrite <- Ef in Hk.
      apply list_elem_of_In, filter_In in Hk as [Hk Hn].
      by rewrite Hall in Hn by by apply list_elem_of_In. }
  split; [|split; [|split; [|split]]].
  - rewrite <- Hlen. by case Nat.eqb_spec.
  - destruct (Nat.eqb _ 0); auto.
  - rewrite !sort_strings_perm, <- fmap_app. by rewrite split_kinds.
  - intros kind Hin. rewrite sort_strings_elem, list_elem_of_fmap. split.
    + intros (k & Hk & Hf). apply list_elem_of_In, filter_In in Hf as [Hf Hc].
      apply list_elem_of_In in Hf.
      assert (Hinj : forall a b, a ∈ ConvertingKinds -> b ∈ ConvertingKinds ->
        ck_Kind a = ck_Kind b -> a = b).
      { intros a b Ha Hb Hab. apply list_elem_of_lookup in Ha as [i Hi], Hb as [j Hj].
        assert (Hnd : NoDup (ck_Kind <$> ConvertingKinds))
          by (apply (bool_decide_eq_true_1 _); vm_compute; reflexivity).
        assert (i = j) as ->; [|congruence].
        eapply (NoDup_lookup _ _ _ (ck_Kind a) Hnd); rewrite list_lookup_fmap.
        - by rewrite Hi.
        - by rewrite Hj, Hab. }
      by rewrite (Hinj _ _ Hin Hf Hk).
    + intros Hc. exists kind. split; [done|]. apply list_elem_of_In, filter_In.
      by rewrite <- list_elem_of_In.
  - unfold Partial. cbn [pos_Converted pos_Pending]. rewrite andb_true_iff, !Nat.ltb_lt. intros [_ Hp].
    case Nat.eqb_spec; [|done]. intros Hz. rewrite Hz in Hp. lia.
Qed.

End Positioned.

(** ** What a plan shows *)

(** The phases a plan is printed by lose no task and print none twice, as
    long as every task's phase is one the migration walks or none at all. *)
Theorem plan_partitioned (p : Plan) :
  Forall (fun t => t_Phase t ∈ "" :: MigratePhases) (p_Tasks p) ->
  NoDup (Phases p) /\ (Phases p ≫= InPhase p) ≡ₚ p_Tasks p.
Proof.
  intros Hall.
  assert (Hnd : NoDup (Phases p)).
  { unfold Phases. apply NoDup_app. split; [|split].
    - destruct (contains _ ""); [apply NoDup_singleton | constructor].
    - intros x Hx Hin. apply list_elem_of_In, filter_In in Hin as [Hin _].
      destruct (contains _ ""); [|by apply not_elem_of_nil in Hx].
      apply list_elem_of_singleton in Hx as ->. by repeat destruct Hin as [Hin|Hin].
    - apply NoDup_ListNoDup, List.NoDup_filter, NoDup_ListNoDup.
      apply (bool_decide_eq_true_1 _). vm_compute. reflexivity. }
  split; [done|].
  transitivity (filter (fun t => Some (t_Phase t) <> None) (p_Tasks p)).
  - rewrite <- (partition_by (fun t => Some (t_Phase t)) (Phases p)); [|done|].
    + apply reflexive_eq, Forall_bind_ext, Forall_forall. intros phase _.
      unfold InPhase. rewrite filter_bool. apply list_filter_iff. intros t.
      rewrite String.eqb_eq. naive_solver.
    + intros t k Ht [= <-]. rewrite Forall_forall in Hall. specialize (Hall t Ht).
      assert (Hseen : t_Phase t ∈ t_Phase <$> p_Tasks p) by (by apply list_elem_of_fmap_2).
      unfold Phases. apply elem_of_app. apply elem_of_cons in Hall as [Hz|Hm].
      * left. rewrite <- Hz. apply contains_true in Hseen. rewrite Hseen. left.
      * right. apply list_elem_of_In, filter_In. split; [by apply list_elem_of_In|].
        by apply contains_true.
  - apply reflexive_eq. induction (p_Tasks p) as [|t l IH]; [done|].
    rewrite filter_cons, decide_True by done. f_equal. apply IH. by inversion Hall.
Qed.

Lemma count_action_lookup l b :
  default 0 (foldl count_action ∅ l !! b) =
  length (filter (fun a => bucket_of a = Some b) l).
Proof.
  induction l as [|a l IH] using rev_ind; [simpl; by rewrite lookup_empty|].
  rewrite foldl_app, filter_app, length_app, <- IH. simpl. unfold count_action at 1.
  rewrite filter_cons. destruct (bucket_of a) as [b'|].
  - destruct (decide (b' = b)) as [->|Hne].
    + rewrite lookup_insert_eq, decide_True by done. simpl. lia.
    + rewrite lookup_insert_ne, decide_False by congruence. simpl. lia.
  - rewrite decide_False by done. simpl. lia.
Qed.

Lemma count_action_dom l b :
  is_Some (foldl count_action ∅ l !! b) <-> exists a, a ∈ l /\ bucket_of a = Some b.
Proof.
  induction l as [|a l IH] using rev_ind.
  { simpl. rewrite lookup_empty. split; [by intros [? ?]|]. intros (a & Ha & _).
    by apply not_elem_of_nil in Ha. }
  rewrite foldl_app. simpl. unfold count_action at 1.
  setoid_rewrite elem_of_app. setoid_rewrite list_elem_of_singleton.
  destruct (bucket_of a) as [b'|] eqn:Eb.
  - destruct (decide (b' = b)) as [->|Hne].
    + rewrite lookup_insert_eq. split; [|by eauto]. intros _. exists a. auto.
    + rewrite lookup_insert_ne by done. rewrite IH. split; [naive_solver|].
      intros (x & [Hx| ->] & Hb); [eauto|congruence].
  - rewrite IH. split; [naive_solver|]. intros (x & [Hx| ->] & Hb); [eauto|congruence].
Qed.

(** The counts a plan closes with: each line counts the actions of one verb
    on one kind, no two lines share one, and together they count every action
    that is not about the upgrade itself. *)
Theorem summary_counts (p : Plan) :
  NoDup (bucket_keys p) /\
  (forall key, key ∈ bucket_keys p <-> exists a, a ∈ Actions p /\ bucket_of a = Some key) /\
  (forall key, default 0 (bucket_counts p !! key) =
    length (filter (fun a => bucket_of a = Some key) (Actions p))) /\
  sum_list ((fun key => default 0 (bucket_counts p !! key)) <$> bucket_keys p) =
    length (filter (fun a => bucket_of a <> None) (Actions p)).
Proof.
  assert (Hnd : NoDup (bucket_keys p)).
  { unfold bucket_keys. rewrite merge_sort_Permutation. apply NoDup_fst_map_to_list. }
  assert (Hkeys : forall key, key ∈ bucket_keys p <->
    exists a, a ∈ Actions p /\ bucket_of a = Some key).
  { intros key. unfold bucket_keys. rewrite merge_sort_Permutation, <- count_action_dom.
    rewrite list_elem_of_fmap. split.
    - intros ([k n] & -> & Hin). apply elem_of_map_to_list in Hin. simpl. eauto.
    - intros [n Hn]. exists (key, n). split; [done|]. by apply elem_of_map_to_list. }
  split; [done|]. split; [done|]. split; [intros key; apply count_action_lookup|].
  rewrite <- (partition_by bucket_of (bucket_keys p)); [|done|].
  - clear. induction (bucket_keys p) as [|k l IH]; [done|].
    rewrite bind_cons, length_app, <- IH. simpl. f_equal. apply count_action_lookup.
  - intros a k Ha Hk. apply Hkeys. eauto.
Qed.
