(* ===== verification/UpgradeGraph.v ===== *)
(** The object graph discovery builds ([operator/internal/upgrade/graph.go]).

    The objects by kind and by identity, and the ownership edges in both
    directions.  Each method of the source holds the graph's lock, so each is one
    atomic step here. *)

From Stdlib Require Import Ascii String.
From S2P Require Import Prelude GoStrings UpgradePlan.

#[local] Open Scope string_scope.

(** [metav1.OwnerReference], as far as an edge needs it. *)
Record OwnerReference := mkOwner {
  own_APIVersion : string;
  own_Kind : string;
  own_Name : string;
}.

(** [client.Object]: what the framework reads of one, and the rest of it. *)
Record Object := mkObject {
  o_Ref : ObjectRef;
  o_OwnerReferences : list OwnerReference;
  o_Body : string;
}.

#[export] Instance OwnerReference_eq_dec : EqDecision OwnerReference.
Proof. solve_decision. Defined.
#[export] Instance Object_eq_dec : EqDecision Object.
Proof. solve_decision. Defined.

Record Graph := mkGraph {
  byKind : gmap GVK (list Object);
  byID : gmap ObjectIdentity Object;
  owners : gmap ObjectIdentity (list ObjectIdentity);
  dependents : gmap ObjectIdentity (list ObjectIdentity);
}.

Definition NewGraph : Graph := mkGraph ∅ ∅ ∅ ∅.

(** [removeIdentity]. *)
Definition removeIdentity (ids : list ObjectIdentity) (drop : ObjectIdentity)
    : list ObjectIdentity :=
  List.filter (fun id => bool_decide (id <> drop)) ids.

(** A map of lists read at a key, absent being nil. *)
Definition at_key {K A} `{Countable K} (m : gmap K (list A)) (k : K) : list A :=
  default [] (m !! k).

(** The loop of [replaceLocked]: the first of the identity, or the end. *)
Fixpoint replace_first (l : list Object) (id : ObjectIdentity) (obj : Object) : list Object :=
  match l with
  | [] => [obj]
  | existing :: l =>
      if decide (Identity (o_Ref existing) = id) then obj :: l
      else existing :: replace_first l id obj
  end.

Definition replaceLocked (kinds : gmap GVK (list Object)) (gvk : GVK) (id : ObjectIdentity)
    (obj : Object) : gmap GVK (list Object) :=
  <[gvk := replace_first (at_key kinds gvk) id obj]> kinds.

Section Graph.

(** [schema.ParseGroupVersion], as the group it finds, and [GroupVersionKind.String]. *)
Context (ParseGroupVersion : string -> option string) (gvk_String : GVK -> string).

(** [ownerIdentity]: an apiVersion that does not parse is kept as the group. *)
Definition ownerIdentity (owner : OwnerReference) (namespace : string) : ObjectIdentity :=
  mkIdentity
    (match ParseGroupVersion (own_APIVersion owner) with
     | Some group => group
     | None => own_APIVersion owner
     end) (own_Kind owner) namespace (own_Name owner).

Definition owner_ids (obj : Object) : list ObjectIdentity :=
  (fun owner => ownerIdentity owner (ref_Namespace (o_Ref obj))) <$> o_OwnerReferences obj.

(** Dropping [id] from what a previous owner holds. *)
Definition drop_dependent (id : ObjectIdentity)
    (deps : gmap ObjectIdentity (list ObjectIdentity)) (previous : ObjectIdentity)
    : gmap ObjectIdentity (list ObjectIdentity) :=
  <[previous := removeIdentity (at_key deps previous) id]> deps.

(** One owner reference: an edge in each direction. *)
Definition add_edge (id : ObjectIdentity)
    (st : gmap ObjectIdentity (list ObjectIdentity) * gmap ObjectIdentity (list ObjectIdentity))
    (ownerID : ObjectIdentity)
    : gmap ObjectIdentity (list ObjectIdentity) * gmap ObjectIdentity (list ObjectIdentity) :=
  (<[id := (at_key st.1 id ++ [ownerID])%list]> st.1,
   <[ownerID := (at_key st.2 ownerID ++ [id])%list]> st.2).

Definition recordOwnersLocked (g : Graph) (id : ObjectIdentity) (obj : Object) : Graph :=
  let deps := foldl (drop_dependent id) (dependents g) (at_key (owners g) id) in
  let '(own, deps) := foldl (add_edge id) (<[id := []]> (owners g), deps) (owner_ids obj) in
  mkGraph (byKind g) (byID g) own deps.

(** One object of [Add]. *)
Definition add_object (g : Graph) (obj : Object) : Graph :=
  let ref := o_Ref obj in
  let id := Identity ref in
  let kinds :=
    match byID g !! id with
    | None => <[ref_GVK ref := (at_key (byKind g) (ref_GVK ref) ++ [obj])%list]> (byKind g)
    | Some _ => replaceLocked (byKind g) (ref_GVK ref) id obj
    end in
  recordOwnersLocked (mkGraph kinds (<[id := obj]> (byID g)) (owners g) (dependents g)) id obj.

Definition graph_Add (g : Graph) (objs : list Object) : Graph := foldl add_object g objs.

Definition OfKind (g : Graph) (gvk : GVK) : list Object := at_key (byKind g) gvk.

Definition Namespaces (g : Graph) (group : string) : list string :=
  sort_strings (elements (list_to_set (C := gset string)
    (id_Namespace <$> filter (fun id => id_Group id = group /\ id_Namespace id <> "")
      (map_to_list (byID g)).*1))).

(** [Kinds]: in map order, which Go leaves unspecified. *)
Definition Kinds (g : Graph) : list GVK := (map_to_list (byKind g)).*1.

Definition kind_le (a b : GVK) : Prop := String.le (gvk_String a) (gvk_String b).
#[local] Instance kind_le_dec : RelDecision kind_le.
Proof. intros a b. unfold kind_le. exact _. Defined.

Definition SortedKinds (g : Graph) : list GVK := merge_sort kind_le (Kinds g).

Definition Objects (g : Graph) : list Object := gvk ← SortedKinds g; OfKind g gvk.

Definition graph_Get (g : Graph) (id : ObjectIdentity) : option Object := byID g !! id.
Definition Owners (g : Graph) (id : ObjectIdentity) : list ObjectIdentity := at_key (owners g) id.
Definition Dependents (g : Graph) (id : ObjectIdentity) : list ObjectIdentity :=
  at_key (dependents g) id.
Definition graph_Len (g : Graph) : nat := size (byID g).

(** ** The edges *)

Lemma at_key_insert {K A} `{Countable K} (m : gmap K (list A)) k x l :
  at_key (<[k := l]> m) x = if decide (x = k) then l else at_key m x.
Proof.
  unfold at_key. destruct (decide (x = k)) as [->|]; [by rewrite lookup_insert_eq|].
  by rewrite lookup_insert_ne.
Qed.

Lemma elem_of_remove ids drop id : id ∈ removeIdentity ids drop <-> id ∈ ids /\ id <> drop.
Proof.
  unfold removeIdentity.
  by rewrite list_elem_of_In, filter_In, <- list_elem_of_In, bool_decide_eq_true.
Qed.

Lemma drop_dependents deps id prev b a :
  a ∈ at_key (foldl (drop_dependent id) deps prev) b <->
  a ∈ at_key deps b /\ (b ∈ prev -> a <> id).
Proof.
  induction prev as [|p prev IH] using rev_ind; [set_solver|].
  rewrite foldl_app. simpl. unfold drop_dependent at 1. rewrite at_key_insert.
  destruct (decide (b = p)) as [->|Hne].
  - rewrite elem_of_remove, IH. set_solver.
  - rewrite IH. set_solver.
Qed.

Lemma add_edges id st ids :
  (forall a, at_key (foldl (add_edge id) st ids).1 a =
    if decide (a = id) then (at_key st.1 id ++ ids)%list else at_key st.1 a) /\
  (forall a b, a ∈ at_key (foldl (add_edge id) st ids).2 b <->
    a ∈ at_key st.2 b \/ (a = id /\ b ∈ ids)).
Proof.
  induction ids as [|o ids IH] using rev_ind.
  { simpl. split; [|set_solver]. intros a. rewrite app_nil_r. by case_decide; subst. }
  destruct IH as [IH1 IH2]. rewrite !foldl_app. simpl. split.
  - intros a. rewrite at_key_insert, !IH1. case_decide; [|done].
    rewrite decide_True by done. by rewrite <- app_assoc.
  - intros a b. rewrite at_key_insert. case_decide; subst; rewrite ?elem_of_app, ?IH2; set_solver.
Qed.

(** The edges run both ways, and an object's are the ones it declares. *)
Record edges_ok (g : Graph) : Prop := {
  edges_declared : forall id, Owners g id =
    match graph_Get g id with Some obj => owner_ids obj | None => [] end;
  edges_inverse : forall a b, a ∈ Dependents g b <-> b ∈ Owners g a;
}.

Lemma new_graph_edges : edges_ok NewGraph.
Proof.
  split; [done|]. intros a b. unfold Dependents, Owners, at_key. simpl.
  rewrite !lookup_empty. simpl. set_solver.
Qed.

Lemma add_object_edges g obj : edges_ok g -> edges_ok (add_object g obj).
Proof.
  intros [Hdecl Hinv]. unfold add_object, recordOwnersLocked. cbn [owners dependents byKind byID].
  set (id := Identity (o_Ref obj)).
  destruct (foldl (add_edge id) _ (owner_ids obj)) as [own deps] eqn:E.
  pose proof (add_edges id (<[id:=[]]> (owners g),
    foldl (drop_dependent id) (dependents g) (at_key (owners g) id)) (owner_ids obj)) as [H1 H2].
  rewrite E in H1, H2. cbn [fst snd] in H1, H2.
  split; unfold Owners, Dependents, graph_Get; cbn [owners dependents byID].
  - intros a. rewrite H1. case_decide; subst.
    + by rewrite lookup_insert_eq, at_key_insert, decide_True.
    + rewrite lookup_insert_ne by done. rewrite at_key_insert, decide_False by done. apply Hdecl.
  - intros a b. rewrite H2, H1, drop_dependents.
    assert (Hg : a ∈ at_key (dependents g) b <-> b ∈ at_key (owners g) a) by apply Hinv.
    rewrite Hg. rewrite !at_key_insert. case_decide; subst.
    + rewrite decide_True by done. simpl. naive_solver.
    + naive_solver.
Qed.

Lemma graph_add_edges objs : edges_ok (graph_Add NewGraph objs).
Proof.
  unfold graph_Add. induction objs as [|o objs IH] using rev_ind; [apply new_graph_edges|].
  rewrite foldl_app. by apply add_object_edges.
Qed.

Lemma add_object_get g obj id :
  graph_Get (add_object g obj) id =
  if decide (id = Identity (o_Ref obj)) then Some obj else graph_Get g id.
Proof.
  unfold add_object, recordOwnersLocked, graph_Get. cbn [owners dependents byKind byID].
  destruct (foldl (add_edge _) _ _) as [own deps]. cbn [byID].
  destruct (decide (id = Identity (o_Ref obj))) as [->|]; [by rewrite lookup_insert_eq|].
  by rewrite lookup_insert_ne.
Qed.

(** The object read last under an identity. *)
Definition last_read (objs : list Object) (id : ObjectIdentity) : option Object :=
  find_first (fun o => bool_decide (Identity (o_Ref o) = id)) (rev objs).

Lemma graph_add_get objs id : graph_Get (graph_Add NewGraph objs) id = last_read objs id.
Proof.
  unfold graph_Add, last_read. induction objs as [|o objs IH] using rev_ind; [done|].
  rewrite foldl_app, rev_app_distr. simpl. rewrite add_object_get, IH.
  destruct (decide (id = Identity (o_Ref o))) as [->|].
  - by rewrite bool_decide_true.
  - by rewrite bool_decide_false by congruence.
Qed.

(** Whatever was read and in whatever order, the graph answers for each
    identity with what was read last, the edges of an object are the ones that
    last read declares (an owner nothing discovered included), and the dependents
    of an owner are exactly the objects that now declare it. *)
Theorem graph_reflects_last_read (objs : list Object) :
  let g := graph_Add NewGraph objs in
  (forall id, graph_Get g id = last_read objs id) /\
  (forall id, Owners g id =
    match last_read objs id with Some obj => owner_ids obj | None => [] end) /\
  (forall owner id, id ∈ Dependents g owner <->
    exists obj, last_read objs id = Some obj /\ owner ∈ owner_ids obj).
Proof.
  intros g. destruct (graph_add_edges objs) as [Hdecl Hinv].
  assert (Hget := graph_add_get objs). split; [done|].
  assert (Hown : forall id, Owners g id =
    match last_read objs id with Some obj => owner_ids obj | None => [] end).
  { intros id. unfold g. by rewrite Hdecl, Hget. }
  split; [done|]. intros owner id. unfold g. rewrite Hinv. fold g. rewrite Hown.
  destruct (last_read objs id) as [obj|]; split.
  - eauto.
  - by intros (o & [= <-] & ?).
  - intros Hx. by apply not_elem_of_nil in Hx.
  - by intros (o & ? & ?).
Qed.

(** ** The listing *)

Abbreviation identity_of o := (Identity (o_Ref o)) (only parsing).

Lemma add_object_kinds g obj k :
  OfKind (add_object g obj) k =
  if decide (k = ref_GVK (o_Ref obj)) then
    match graph_Get g (identity_of obj) with
    | None => (OfKind g k ++ [obj])%list
    | Some _ => replace_first (OfKind g k) (identity_of obj) obj
    end
  else OfKind g k.
Proof.
  unfold add_object, recordOwnersLocked, OfKind, graph_Get. cbn [owners dependents byKind byID].
  destruct (foldl (add_edge _) _ _) as [own deps]. cbn [byKind].
  destruct (byID g !! identity_of obj); unfold replaceLocked; rewrite at_key_insert;
    by case_decide; subst.
Qed.

Lemma replace_first_spec l obj old :
  NoDup ((fun o => identity_of o) <$> l) -> old ∈ l -> identity_of old = identity_of obj ->
  ((fun o => identity_of o) <$> replace_first l (identity_of obj) obj) =
    ((fun o => identity_of o) <$> l) /\
  forall o, o ∈ replace_first l (identity_of obj) obj <->
    o = obj \/ (o ∈ l /\ identity_of o <> identity_of obj).
Proof.
  induction l as [|x l IH]; intros Hnd Hold Heq; [by apply not_elem_of_nil in Hold|].
  rewrite fmap_cons, NoDup_cons in Hnd. destruct Hnd as [Hx Hnd]. simpl. case_decide as Hd.
  - split; [by rewrite !fmap_cons, Hd|]. intros o. rewrite !elem_of_cons. split.
    + intros [->|Ho]; [by left|]. right. split; [by right|]. intros Ho2. apply Hx.
      rewrite Hd, <- Ho2. by apply (list_elem_of_fmap_2 (fun o => identity_of o)).
    + intros [->|[[->|Ho] Hne]]; [by left|done|by right].
  - assert (Hold' : old ∈ l) by (apply elem_of_cons in Hold as [->|]; done).
    destruct (IH Hnd Hold' Heq) as [Hids Hel]. split; [by rewrite !fmap_cons, Hids|].
    intros o. rewrite !elem_of_cons, Hel. naive_solver.
Qed.

Section Listing.

(** Every read of an object is at one version of its kind. *)
Context (version : ObjectIdentity -> string).

Definition one_version (o : Object) : Prop :=
  gvk_Version (ref_GVK (o_Ref o)) = version (identity_of o).

Record listing_ok (g : Graph) : Prop := {
  listing_nodup : forall k, NoDup ((fun o => identity_of o) <$> OfKind g k);
  listing_elem : forall k o, o ∈ OfKind g k <->
    graph_Get g (identity_of o) = Some o /\ ref_GVK (o_Ref o) = k;
  listing_key : forall id o, graph_Get g id = Some o -> identity_of o = id /\ one_version o;
}.

Lemma one_version_kind o o' :
  one_version o -> one_version o' -> identity_of o = identity_of o' ->
  ref_GVK (o_Ref o) = ref_GVK (o_Ref o').
Proof.
  unfold one_version. intros H1 H2 Heq. rewrite Heq, <- H2 in H1. unfold Identity in Heq.
  destruct (o_Ref o) as [[] ???], (o_Ref o') as [[] ???]. simpl in *. congruence.
Qed.

Lemma new_graph_listing : listing_ok NewGraph.
Proof.
  split; unfold OfKind, graph_Get, at_key; simpl.
  - intros k. rewrite lookup_empty. constructor.
  - intros k o. rewrite !lookup_empty. simpl. split; [|by intros [? _]].
    intros Hx. by apply not_elem_of_nil in Hx.
  - intros id o. by rewrite lookup_empty.
Qed.

Lemma add_object_listing g obj :
  one_version obj -> listing_ok g -> listing_ok (add_object g obj).
Proof.
  intros Hv [Hnd Hel Hkey]. set (id := identity_of obj).
  destruct (graph_Get g id) as [old|] eqn:Eold.
  - destruct (Hkey _ _ Eold) as [Hid Hvold].
    assert (Hk := one_version_kind _ _ Hvold Hv Hid).
    assert (Hin : old ∈ OfKind g (ref_GVK (o_Ref obj))) by (apply Hel; by rewrite Hid).
    destruct (replace_first_spec _ _ _ (Hnd _) Hin Hid) as [Hids Hrep]. fold id in Hids, Hrep.
    split.
    + intros k. rewrite add_object_kinds. fold id. rewrite Eold. cbv iota. case_decide; [|apply Hnd].
      subst k. rewrite Hids. apply Hnd.
    + intros k o. rewrite add_object_kinds, add_object_get. fold id. rewrite Eold. cbv iota.
      destruct (decide (k = _)) as [->|Hne]; rewrite ?Hrep, ?Hel; fold id;
        destruct (decide (identity_of o = id)) as [Ho|Ho].
      * split; [intros [->|[_ ?]]; done|]. intros [[= ->] _]. by left.
      * split; [intros [->|[? _]]; done|]. by right.
      * rewrite Ho, Eold. split; [intros [[= ->] Hx]; congruence|].
        intros [[= ->] Hx]. congruence.
      * done.
    + intros i o. rewrite add_object_get. case_decide; [|apply Hkey]. intros [= <-].
      by rewrite H.
  - assert (Hfresh : forall k o, o ∈ OfKind g k -> identity_of o <> id).
    { intros k o [Hg _]%Hel Heq. rewrite Heq in Hg. congruence. }
    split.
    + intros k. rewrite add_object_kinds. fold id. rewrite Eold. cbv iota. case_decide; [|apply Hnd].
      rewrite fmap_app, NoDup_app. split; [apply Hnd|]. split; [|apply NoDup_singleton].
      intros i Hi ->%list_elem_of_singleton. apply list_elem_of_fmap in Hi as (o & Ho & Hin).
      by apply (Hfresh _ _ Hin).
    + intros k o. rewrite add_object_kinds, add_object_get. fold id. rewrite Eold. cbv iota.
      assert (Hf := Hfresh k o). rewrite Hel in Hf.
      destruct (decide (k = _)) as [->|Hne]; rewrite ?elem_of_app, ?list_elem_of_singleton, ?Hel;
        destruct (decide (identity_of o = id)) as [Ho|Ho].
      * split; [intros [Hx| ->]; [by destruct (Hf Hx)|done]|]. intros [[= ->] _]. by right.
      * split; [intros [?| ->]; done|]. by left.
      * split; [intros Hx; by destruct (Hf Hx)|]. intros [[= ->] Hx]. congruence.
      * done.
    + intros i o. rewrite add_object_get. case_decide; [|apply Hkey]. intros [= <-].
      by rewrite H.
Qed.

Lemma graph_add_listing objs : Forall one_version objs -> listing_ok (graph_Add NewGraph objs).
Proof.
  unfold graph_Add. induction objs as [|o objs IH] using rev_ind; intros Hall.
  - apply new_graph_listing.
  - rewrite foldl_app. simpl. apply Forall_app in Hall as [Hall Ho].
    inversion Ho. apply add_object_listing; auto.
Qed.

Lemma elem_of_objects g o : listing_ok g ->
  o ∈ Objects g <-> graph_Get g (identity_of o) = Some o.
Proof.
  intros [_ Hel _]. unfold Objects. rewrite list_elem_of_bind. split.
  - intros (k & Ho & _). by apply Hel in Ho as [? _].
  - intros Hg. exists (ref_GVK (o_Ref o)).
    assert (Ho : o ∈ OfKind g (ref_GVK (o_Ref o))) by (by apply Hel). split; [done|].
    unfold SortedKinds, Kinds. rewrite merge_sort_Permutation, list_elem_of_fmap.
    unfold OfKind, at_key in Ho. destruct (byKind g !! ref_GVK (o_Ref o)) as [l|] eqn:El.
    + exists (ref_GVK (o_Ref o), l). split; [done|]. by apply elem_of_map_to_list.
    + by apply not_elem_of_nil in Ho.
Qed.

Lemma objects_nodup g : listing_ok g -> NoDup ((fun o => identity_of o) <$> Objects g).
Proof.
  intros Hok. destruct Hok as [Hnd Hel Hkey] eqn:Eok. clear Eok.
  apply NoDup_fmap_2_strong.
  - intros x y Hx%(elem_of_objects g _ Hok) Hy%(elem_of_objects g _ Hok) Heq. congruence.
  - unfold Objects. apply NoDup_bind.
    + intros k1 k2 o _ _ [_ <-]%Hel [_ <-]%Hel. done.
    + intros k _. apply (NoDup_fmap_1 (fun o => identity_of o)), Hnd.
    + unfold SortedKinds, Kinds. rewrite merge_sort_Permutation. apply NoDup_fst_map_to_list.
Qed.

(** The walk every step is driven over visits each object once, at what was
    read of it last, and visits every one of them, as long as no object is read
    at two versions of its kind. *)
Theorem walk_visits_each_object_once (objs : list Object) :
  Forall one_version objs ->
  let g := graph_Add NewGraph objs in
  NoDup ((fun o => identity_of o) <$> Objects g) /\
  (forall o, o ∈ Objects g <-> last_read objs (identity_of o) = Some o) /\
  length (Objects g) = graph_Len g.
Proof.
  intros Hall g. assert (Hok := graph_add_listing objs Hall). fold g in Hok.
  split; [by apply objects_nodup|]. split.
  - intros o. rewrite elem_of_objects by done. unfold g. by rewrite graph_add_get.
  - unfold graph_Len. rewrite <- (length_map_to_list (byID g)), <- (length_fmap fst).
    rewrite <- (length_fmap (fun o => identity_of o) (Objects g)). apply Permutation_length.
    apply NoDup_Permutation; [by apply objects_nodup | apply NoDup_fst_map_to_list|].
    intros id. rewrite !list_elem_of_fmap. split.
    + intros (o & -> & Ho). apply elem_of_objects in Ho; [|done].
      exists (identity_of o, o). split; [done|]. by apply elem_of_map_to_list.
    + intros ([i o] & -> & Hin). apply elem_of_map_to_list in Hin.
      destruct (listing_key _ Hok i o Hin) as [Hi _]. exists o. split; [done|].
      apply elem_of_objects; [done|]. by rewrite Hi.
Qed.

End Listing.

End Graph.

(** ** Concrete graphs *)

Module Read.

Definition parse (apiVersion : string) : option string :=
  match Cut apiVersion "/" with
  | (group, _, true) => Some group
  | (_, _, false) => Some ""
  end.

Definition show (k : GVK) : string :=
  gvk_Group k ++ "/" ++ gvk_Version k ++ ", Kind=" ++ gvk_Kind k.

Definition node_kind (v : string) : GVK := mkGVK APIGroup v "StorageNode".
Definition node (v name body : string) : Object :=
  mkObject (mkRef (node_kind v) "prod" name "uid")
    [mkOwner (APIGroup ++ "/v1alpha1") "StorageNodeSet" "rack-a"] body.

Lemma walk_visits_each_object_once_witness :
  let objs := [node "v1alpha1" "n1" "first"; node "v1alpha1" "n2" "x"; node "v1alpha1" "n1" "again"] in
  NoDup ((fun o => Identity (o_Ref o)) <$> Objects show (graph_Add parse NewGraph objs)).
Proof.
  apply (walk_visits_each_object_once parse show (fun _ => "v1alpha1")
    [node "v1alpha1" "n1" "first"; node "v1alpha1" "n2" "x"; node "v1alpha1" "n1" "again"]).
  repeat constructor.
Defined.

(** An object read again at another version of its kind is listed twice,
    once at each, though the graph holds it once: the identity that decides
    whether an object was seen leaves the version out, and the list it replaces
    the object in is the list of the version it was read at now. *)
Theorem reread_at_another_version_is_listed_twice :
  let g := graph_Add parse NewGraph [node "v1alpha1" "n1" "old"; node "v1alpha2" "n1" "new"] in
  graph_Len g = 1 /\ Objects show g = [node "v1alpha1" "n1" "old"; node "v1alpha2" "n1" "new"].
Proof. eval_eq. Qed.

End Read.
