(* ===== verification/UpgradeRun.v ===== *)
(** Running the stages of an upgrade ([operator/internal/upgrade]).

    The catalog a run is assembled from ([catalog.go], [check.go],
    [transformation.go]), the subjects a step is asked about ([subject.go],
    [step.go]), the runner ([runner.go]) and what it announces ([report.go]).
    A step is a record of the operations the [Step] interface names; the
    theorems are about the runner, for any steps that keep the contract the
    interface states. *)

From Stdlib Require Import Ascii String.
From S2P Require Import Prelude GoStrings StateMachine UpgradeRules UpgradePlan UpgradeGraph.

#[local] Open Scope string_scope.

(** ** The scope and the rules ([scope.go], [step.go], [check.go]) *)

Record Options := mkOptions { opt_DryRun : bool; opt_Skip : list string }.

Definition Skipped (o : Options) (id : string) : bool :=
  existsb (fun skip => String.eqb skip id) (opt_Skip o).

Record Subject := mkSubject { s_Ref : ObjectRef; s_Object : option Object }.

(** [Subject.IsUpgrade], [Subject.String] and [TheUpgrade]. *)
Definition IsUpgrade (s : Subject) : bool :=
  match s_Object s with None => true | Some _ => false end.
Definition subject_String (s : Subject) : string := ref_String (s_Ref s).
Definition TheUpgrade (namespace : string) : Subject :=
  mkSubject (mkRef (mkGVK APIGroup "" UpgradeKind) namespace "upgrade" "") None.

Section Rules.

(** Everything outside the run: the cluster, and the graph read from it. *)
Context {W : Type}.

(** [Scope]: the graph and the clock of the world, the run's switches, and what
    the libraries supply: the kind the scheme knows an object under, a kind's
    printed form, and [strconv.Quote]. *)
Record Scope := mkScope {
  sc_Graph : W -> Graph;
  sc_clock : W -> Time;
  sc_Namespace : string;
  sc_Options : Options;
  sc_GVK : Object -> option GVK;
  sc_gvk_String : GVK -> string;
  sc_Quote : string -> string;
}.

(** [Step], with the two interfaces a step may implement besides: [Blocked] and
    [Enumerator].  Only [Apply] is given the world to change: the contract of
    the others is that they read. *)
Record Step := mkStep {
  step_ID : string;
  step_Description : string;
  step_Stage : string;
  step_Phase : string;
  step_Requires : list string;
  step_BlockedBy : option string;
  step_Subjects : option (W -> res string (list Subject));
  step_Describe : W -> Subject -> res string (option Action);
  step_Done : W -> Subject -> res string bool;
  step_Validate : W -> Subject -> error_of string;
  step_Apply : W -> Subject -> W * error_of string;
  step_Verify : W -> Subject -> error_of string;
}.

Record Check := mkCheck {
  check_ID : string;
  check_Stages : list string;
  check_Check : W -> res string (list Finding);
}.

Record Discoverer := mkDiscoverer {
  disc_ID : string;
  disc_Requires : list string;
  disc_Discover : W -> W * error_of string;
}.

Record Transformation := mkTransformation { tr_ID : string; tr_Source : GVK }.

(** [Derivation], without the formula of [atlas-lib/kube] it is checked by. *)
Record Derivation := mkDerivation {
  der_ID : string;
  der_Written : string;
  der_Model : string;
  der_Fix : string;
  der_Space : string;
  der_Inputs : W -> res string (list (ObjectRef * list string));
}.

#[export] Instance step_rule : Rule Step := step_ID.
#[export] Instance step_ordered : Ordered Step := step_Requires.
#[export] Instance check_rule : Rule Check := check_ID.
#[export] Instance disc_rule : Rule Discoverer := disc_ID.
#[export] Instance disc_ordered : Ordered Discoverer := disc_Requires.
#[export] Instance der_rule : Rule Derivation := der_ID.
#[export] Instance tr_rule : Rule Transformation := tr_ID.

(** [RunsIn]. *)
Definition RunsIn (check : Check) (stage : string) : bool :=
  existsb (fun s => String.eqb s stage) (check_Stages check).

(** [blockedBy]. *)
Definition blockedBy (step : Step) : string := default "" (step_BlockedBy step).

(** ** The catalog ([catalog.go], [order.go]) *)

Record Catalog := mkCatalog {
  Discoverers : Registry Discoverer;
  Checks : Registry Check;
  Derivations : Registry Derivation;
  Steps : Registry Step;
  Transformations : Registry Transformation;
}.

Definition NewCatalog : Catalog :=
  mkCatalog (NewRegistry "discoverers") (NewRegistry "checks")
    (NewRegistry "derivations") (NewRegistry "steps") (NewRegistry "transformations").

Definition zero_step : Step :=
  mkStep "" "" "" "" [] None None (fun _ _ => Ok None) (fun _ _ => Ok false)
    (fun _ _ => None) (fun w _ => (w, None)) (fun _ _ => None).
Definition zero_discoverer : Discoverer := mkDiscoverer "" [] (fun w => (w, None)).

(** The error of [topoSort], and the two sorts.  That the sort ends is
    [UpgradeRules.topoSort_spec]. *)
Definition cycle_error (noun : string) (names : list string) : string :=
  "the " ++ noun ++ " catalog cannot be ordered: " ++ String.concat ", " names ++
  " require each other in a cycle".

Definition sorted_rules {T} (noun : string) (r : option (res (list string) (list T)))
    : res string (list T) :=
  match r with
  | Some (Ok out) => Ok out
  | Some (Err names) => Err (cycle_error noun names)
  | None => Err ""
  end.

Definition orderSteps (steps : list Step) : res string (list Step) :=
  sorted_rules "step" (topoSort zero_step steps).
Definition orderDiscoverers (discoverers : list Discoverer) : res string (list Discoverer) :=
  sorted_rules "discoverer" (topoSort zero_discoverer discoverers).

Definition ChecksFor (c : Catalog) (stage : string) (opts : Options) : list Check :=
  Select (fun check => RunsIn check stage && negb (Skipped opts (check_ID check))) (Checks c).

Definition StepsFor (c : Catalog) (stage : string) (opts : Options) : res string (list Step) :=
  orderSteps (Select (fun step => String.eqb (step_Stage step) stage &&
    negb (Skipped opts (step_ID step))) (Steps c)).

Definition StepsInPhase (c : Catalog) (phase : string) (opts : Options)
    : res string (list Step) :=
  orderSteps (Select (fun step => String.eqb (step_Stage step) StageMigrate &&
    String.eqb (step_Phase step) phase && negb (Skipped opts (step_ID step))) (Steps c)).

Definition TransformationsFrom (c : Catalog) (source : string) (opts : Options)
    : list Transformation :=
  Select (fun t => String.eqb (gvk_Kind (tr_Source t)) source &&
    negb (Skipped opts (tr_ID t))) (Transformations c).

(** ** Subjects ([subject.go], [scope.go]) *)

Variable scope : Scope.

(** [Scope.Ref]: the scheme answers for an object read without its kind. *)
Definition Ref (obj : Object) : ObjectRef :=
  let ref := o_Ref obj in
  if decide (ref_GVK ref = mkGVK "" "" "") then
    match sc_GVK scope obj with
    | Some gvk => mkRef gvk (ref_Namespace ref) (ref_Name ref) (ref_UID ref)
    | None => ref
    end
  else ref.

Definition SubjectOf (obj : Object) : Subject := mkSubject (Ref obj) (Some obj).

Definition Subjects (w : W) : list Subject :=
  TheUpgrade (sc_Namespace scope) ::
  (SubjectOf <$> Objects (sc_gvk_String scope) (sc_Graph scope w)).

Definition Occupied (w : W) : list string := Namespaces (sc_Graph scope w) APIGroup.

Definition step_error (step : Step) (what : string) : string :=
  "step " ++ sc_Quote scope (step_ID step) ++ what.

Definition SubjectsFor (w : W) (step : Step) : res string (list Subject) :=
  match step_Subjects step with
  | None => Ok (Subjects w)
  | Some enumerate =>
      match enumerate w with
      | Err err => Err (step_error step (" could not enumerate its subjects: " ++ err))
      | Ok subjects => Ok subjects
      end
  end.

(** ** Coverage ([step.go]) *)

Record Coverage := mkCoverage {
  Outstanding : list Subject;
  Finished : list Subject;
  Untouched : list Subject;
}.

(** The loop of [Covered]. *)
Fixpoint cover (w : W) (step : Step) (subjects : list Subject) (out : Coverage)
    : Coverage * error_of string :=
  match subjects with
  | [] => (out, None)
  | subject :: subjects =>
      match step_Describe step w subject with
      | Err err =>
          (out, Some (step_error step (" could not describe " ++ subject_String subject ++
            ": " ++ err)))
      | Ok (Some _) =>
          cover w step subjects (mkCoverage (Outstanding out ++ [subject])%list
            (Finished out) (Untouched out))
      | Ok None =>
          match step_Done step w subject with
          | Err err =>
              (out, Some (step_error step (" could not report whether " ++
                subject_String subject ++ " was finished: " ++ err)))
          | Ok true =>
              cover w step subjects (mkCoverage (Outstanding out)
                (Finished out ++ [subject])%list (Untouched out))
          | Ok false =>
              cover w step subjects (mkCoverage (Outstanding out) (Finished out)
                (Untouched out ++ [subject])%list)
          end
      end
  end.

Definition Covered (w : W) (step : Step) : Coverage * error_of string :=
  match SubjectsFor w step with
  | Err err => (mkCoverage [] [] [], Some err)
  | Ok subjects => cover w step subjects (mkCoverage [] [] [])
  end.

(** ** What a run announces ([report.go]) *)

Definition OutcomeDone : string := "done".
Definition OutcomeSkipped : string := "skipped".
Definition OutcomeFailed : string := "failed".

(** The calls a runner makes on its [Reporter], which decides nothing. *)
Inductive event :=
| EvSection (label : string) (total : nat)
| EvPhase (phase : string) (steps : nat)
| EvRule (id : string)
| EvWork (total : nat)
| EvItem (label : string)
| EvOutcome (id outcome detail : string)
| EvAction (action : Action)
| EvProgress (objects kinds namespaces : nat).

(** A run in progress: the world, what was announced, the step the migration's
    record names, and the error the step applied last returned. *)
Record RunState := mkRun {
  rs_world : W;
  rs_report : list event;
  rs_Step : string;
  rs_err : error_of string;
}.

Definition report (st : RunState) (e : event) : RunState :=
  mkRun (rs_world st) (rs_report st ++ [e])%list (rs_Step st) (rs_err st).
Definition set_world (st : RunState) (w : W) : RunState :=
  mkRun w (rs_report st) (rs_Step st) (rs_err st).
Definition set_Step (st : RunState) (id : string) : RunState :=
  mkRun (rs_world st) (rs_report st) id (rs_err st).
Definition set_err (st : RunState) (err : error_of string) : RunState :=
  mkRun (rs_world st) (rs_report st) (rs_Step st) err.

(** ** The runner ([runner.go]) *)

Variable catalog : Catalog.

Abbreviation opts := (sc_Options scope) (only parsing).

Definition objectCount (n : Z) : string :=
  if Z.eqb n 0 then "no objects"
  else if Z.eqb n 1 then "1 object"
  else Itoa n ++ " objects".

(** The loop of [Discover]. *)
Fixpoint discover_all (discoverers : list Discoverer) (st : RunState)
    : RunState * error_of string :=
  match discoverers with
  | [] => (st, None)
  | d :: discoverers =>
      let st := report st (EvRule (disc_ID d)) in
      let before := graph_Len (sc_Graph scope (rs_world st)) in
      match disc_Discover d (rs_world st) with
      | (w, Some err) =>
          (report (set_world st w) (EvOutcome (disc_ID d) OutcomeFailed err),
           Some ("discovery " ++ sc_Quote scope (disc_ID d) ++ ": " ++ err))
      | (w, None) =>
          discover_all discoverers
            (report (set_world st w) (EvOutcome (disc_ID d) OutcomeDone
              (objectCount (Z.of_nat (graph_Len (sc_Graph scope w)) - Z.of_nat before))))
      end
  end.

Definition Discover (st : RunState) : RunState * error_of string :=
  match orderDiscoverers
          (Select (fun d => negb (Skipped opts (disc_ID d))) (Discoverers catalog)) with
  | Err err => (st, Some err)
  | Ok discoverers =>
      let st := report st (EvSection "Collecting simplyblock Kubernetes resources"
        (length discoverers)) in
      match discover_all discoverers st with
      | (st, Some err) => (st, Some err)
      | (st, None) =>
          let g := sc_Graph scope (rs_world st) in
          (report st (EvProgress (graph_Len g) (length (Kinds g))
            (length (Occupied (rs_world st)))), None)
      end
  end.

Definition skippedChecks (stage : string) : list Check :=
  Select (fun check => RunsIn check stage && Skipped opts (check_ID check)) (Checks catalog).

(** The loop of [Check]. *)
Fixpoint check_all (checks : list Check) (findings : list Finding) (st : RunState)
    : RunState * list Finding * error_of string :=
  match checks with
  | [] => (st, findings, None)
  | check :: checks =>
      let st := report st (EvRule (check_ID check)) in
      match check_Check check (rs_world st) with
      | Err err =>
          (report st (EvOutcome (check_ID check) OutcomeFailed err), findings,
           Some ("check " ++ sc_Quote scope (check_ID check) ++ " could not be performed: " ++ err))
      | Ok found =>
          check_all checks (findings ++ found)%list
            (report st (EvOutcome (check_ID check)
              (if findings_Blocked found then OutcomeFailed else OutcomeDone) ""))
      end
  end.

Definition runner_Check (stage : string) (st : RunState)
    : RunState * list Finding * error_of string :=
  let checks := ChecksFor catalog stage opts in
  match check_all checks [] (report st (EvSection "Verifying resources" (length checks))) with
  | (st, findings, Some err) => (st, findings, Some err)
  | (st, findings, None) =>
      (foldl (fun st skipped => report st (EvOutcome (check_ID skipped) OutcomeSkipped
         "named on the command line")) st (skippedChecks stage), findings, None)
  end.

(** What a step describes of its subjects, stopping at one it cannot describe. *)
Fixpoint describe_all (w : W) (step : Step) (subjects : list Subject)
    : res string (list Action) :=
  match subjects with
  | [] => Ok []
  | subject :: subjects =>
      match step_Describe step w subject with
      | Err err =>
          Err (step_error step (" could not describe " ++ subject_String subject ++ ": " ++ err))
      | Ok action =>
          actions <-- describe_all w step subjects ;;
          Ok (match action with Some a => a :: actions | None => actions end)
      end
  end.

Definition planStep (w : W) (step : Step) : res string Task :=
  subjects <-- SubjectsFor w step ;;
  (subtasks <-- describe_all w step subjects ;;
   Ok (mkTask (step_ID step) (step_Description step) (step_Phase step) (blockedBy step)
     subtasks)).

Definition has_subtasks (t : Task) : bool := Nat.ltb 0 (length (t_Subtasks t)).

Definition Tasks (w : W) (stage : string) : res string (list Task) :=
  steps <-- StepsFor catalog stage opts ;;
  (tasks <-- traverse (planStep w) steps ;; Ok (List.filter has_subtasks tasks)).

(** [Runner.Plan]: the checks, then the tasks, and what there is of the plan when
    either stops. *)
Definition runner_Plan (stage : string) (st : RunState) : RunState * Plan * error_of string :=
  let '(st, findings, err) := runner_Check stage st in
  let plan := plan_Record (mkPlan stage [] [] []) findings in
  match err with
  | Some err => (st, plan, Some err)
  | None =>
      let plan := mkPlan stage (p_Tasks plan) (p_Findings plan)
        (p_Skipped plan ++ (check_ID <$> skippedChecks stage))%list in
      match Tasks (rs_world st) stage with
      | Err err => (st, plan, Some err)
      | Ok tasks => (st, Add plan tasks, None)
      end
  end.

(** [stepFailed]. *)
Definition stepFailed (step : Step) (st : RunState) (err : string)
    : RunState * error_of string :=
  (report st (EvOutcome (step_ID step) OutcomeFailed err),
   Some (step_error step (": " ++ err))).

(** The loop of [Apply] over the subjects. *)
Fixpoint apply_subjects (step : Step) (subjects : list Subject) (changed finished : nat)
    (st : RunState) : RunState * res string (nat * nat) :=
  match subjects with
  | [] => (st, Ok (changed, finished))
  | subject :: subjects =>
      let w := rs_world st in
      let name := subject_String subject in
      match step_Describe step w subject with
      | Err err => (st, Err ("describing " ++ name ++ ": " ++ err))
      | Ok None =>
          match step_Done step w subject with
          | Err err => (st, Err ("asking whether " ++ name ++ " was finished: " ++ err))
          | Ok done =>
              apply_subjects step subjects changed (if done then S finished else finished) st
          end
      | Ok (Some action) =>
          if opt_DryRun opts then
            apply_subjects step subjects changed finished (report st (EvAction action))
          else
            match step_Validate step w subject with
            | Some err => (st, Err (name ++ " is not ready for this change: " ++ err))
            | None =>
                let st := report st (EvItem (action_String action)) in
                match step_Apply step w subject with
                | (w', Some err) => (set_world st w', Err ("changing " ++ name ++ ": " ++ err))
                | (w', None) =>
                    match step_Verify step w' subject with
                    | Some err =>
                        (set_world st w', Err (name ++ " was not verified: " ++ err))
                    | None => apply_subjects step subjects (S changed) finished (set_world st w')
                    end
                end
            end
      end
  end.

Definition Apply (step : Step) (st : RunState) : RunState * error_of string :=
  let st := report st (EvRule (step_ID step)) in
  match SubjectsFor (rs_world st) step with
  | Err err => stepFailed step st err
  | Ok subjects =>
      match apply_subjects step subjects 0 0 (report st (EvWork (length subjects))) with
      | (st, Err err) => stepFailed step st err
      | (st, Ok (changed, finished)) =>
          let outcome kind detail := report st (EvOutcome (step_ID step) kind detail) in
          (if opt_DryRun opts then outcome OutcomeSkipped "dry run"
           else if Nat.ltb 0 changed then outcome OutcomeDone (objectCount (Z.of_nat changed) ++ " changed")
           else if Nat.ltb 0 finished then outcome OutcomeSkipped "already performed"
           else outcome OutcomeSkipped "nothing to do", None)
      end
  end.

Definition newline_sep : string := String newline "".

(** [refuseIfIncomplete]. *)
Definition missing_steps (steps : list Step) : list string :=
  step ← steps;
  if String.eqb (blockedBy step) "" then []
  else [("  " ++ step_ID step ++ ": " ++ blockedBy step)%string].

Definition refuseIfIncomplete (steps : list Step) : error_of string :=
  match missing_steps steps with
  | [] => None
  | missing =>
      Some ("this build describes " ++ Itoa (Z.of_nat (length missing)) ++
        " step(s) it cannot perform, and a stage it cannot complete is one it must not start:" ++
        newline_sep ++ String.concat newline_sep missing)
  end.

(** The loop of [ApplyAll]. *)
Fixpoint apply_steps (steps : list Step) (st : RunState) : RunState * error_of string :=
  match steps with
  | [] => (st, None)
  | step :: steps =>
      match Apply step st with
      | (st, Some err) => (st, Some err)
      | (st, None) => apply_steps steps st
      end
  end.

Definition ApplyAll (stage : string) (st : RunState) : RunState * error_of string :=
  match StepsFor catalog stage opts with
  | Err err => (st, Some err)
  | Ok steps =>
      match refuseIfIncomplete steps with
      | Some err => (st, Some err)
      | None => apply_steps steps (report st (EvSection (stage_Describe stage) (length steps)))
      end
  end.

(** ** Ordering a stage *)

Lemma orderSteps_spec (steps : list Step) :
  NoDup (rule_ID <$> steps) ->
  match orderSteps steps with
  | Ok out => out ≡ₚ steps /\ ordered_by_requirements out
  | Err _ => forall out, out ≡ₚ steps -> ~ ordered_by_requirements out
  end.
Proof using Type.
  intros Hnd. unfold orderSteps. pose proof (topoSort_spec zero_step steps Hnd) as Hs.
  destruct (topoSort zero_step steps) as [[out|names]|]; simpl; [done| |done].
  destruct Hs as [Hne Hblk]. intros out Hperm. by eapply blocked_no_order.
Qed.

(** The steps a stage runs, before they are ordered. *)
Definition stage_steps (stage : string) : list Step :=
  Select (fun step => String.eqb (step_Stage step) stage &&
    negb (Skipped opts (step_ID step))) (Steps catalog).

Lemma elem_of_stage_steps stage step :
  step ∈ stage_steps stage <->
  step ∈ All (Steps catalog) /\ step_Stage step = stage /\ Skipped opts (step_ID step) = false.
Proof using Type.
  unfold stage_steps, Select.
  by rewrite list_elem_of_In, filter_In, <- list_elem_of_In, andb_true_iff, String.eqb_eq,
    negb_true_iff.
Qed.

(** A stage runs exactly its own steps that the command line did not skip,
    each after every step of the stage it requires; when no requirement holds
    between them they run in the order they were registered; and the catalog is
    refused only when no such order exists. *)
Theorem stage_steps_ordered (stage : string) :
  registry_ok (Steps catalog) ->
  match StepsFor catalog stage opts with
  | Ok steps =>
      (forall step, step ∈ steps <->
        step ∈ All (Steps catalog) /\ step_Stage step = stage /\
        Skipped opts (step_ID step) = false) /\
      NoDup (rule_ID <$> steps) /\ ordered_by_requirements steps /\
      (requirement_edges (stage_steps stage) = [] -> steps = stage_steps stage)
  | Err _ => forall out, out ≡ₚ stage_steps stage -> ~ ordered_by_requirements out
  end.
Proof using Type.
  intros Hok. unfold StepsFor. fold (stage_steps stage).
  assert (Hnd : NoDup (rule_ID <$> stage_steps stage)) by (by apply select_nodup).
  pose proof (orderSteps_spec (stage_steps stage) Hnd) as Hs.
  destruct (orderSteps (stage_steps stage)) as [steps|err] eqn:E; [|done].
  destruct Hs as [Hperm Hord]. split; [|split; [|split]]; [|by rewrite Hperm|done|].
  - intros step. rewrite Hperm. apply elem_of_stage_steps.
  - intros He. unfold orderSteps in E. rewrite topoSort_stable in E by done.
    simpl in E. congruence.
Qed.

(** ** What a run changes *)

(** The actions a run announced without performing them. *)
Definition announced (st : RunState) : list Action :=
  omap (fun e => match e with EvAction a => Some a | _ => None end) (rs_report st).

Lemma announced_report st e :
  announced (report st e) =
  (announced st ++ match e with EvAction a => [a] | _ => [] end)%list.
Proof using Type. unfold announced. simpl. rewrite omap_app. by destruct e. Qed.

Section DryRun.

Hypothesis dry : opt_DryRun opts = true.

Lemma apply_subjects_dry step subjects changed finished st st' r :
  apply_subjects step subjects changed finished st = (st', r) ->
  rs_world st' = rs_world st /\
  match r with
  | Ok _ => exists actions, describe_all (rs_world st) step subjects = Ok actions /\
      announced st' = (announced st ++ actions)%list
  | Err _ => True
  end.
Proof using dry.
  revert changed finished st. induction subjects as [|s subjects IH];
    intros changed finished st E; simpl in E.
  { injection E as <- <-. split; [done|]. exists []. by rewrite app_nil_r. }
  simpl. destruct (step_Describe step (rs_world st) s) as [[a|]|err] eqn:D.
  - rewrite dry in E. apply IH in E as [Hw Hr]. simpl in Hw. split; [done|].
    destruct r as [n|]; [|done]. simpl in Hr. destruct Hr as (actions & -> & Ha).
    exists (a :: actions). split; [done|]. rewrite Ha, announced_report, <- app_assoc. done.
  - destruct (step_Done step (rs_world st) s); [|by injection E as <- <-].
    apply IH in E as [Hw Hr]. split; [done|]. destruct r as [n|]; [|done].
    destruct Hr as (actions & -> & Ha). by exists actions.
  - by injection E as <- <-.
Qed.

Lemma apply_dry step st st' err :
  Apply step st = (st', err) ->
  rs_world st' = rs_world st /\
  (err = None -> exists task, planStep (rs_world st) step = Ok task /\
    announced st' = (announced st ++ t_Subtasks task)%list).
Proof using dry.
  unfold Apply, planStep. intros E. simpl in E.
  destruct (SubjectsFor (rs_world st) step) as [subjects|e];
    [|unfold stepFailed in E; by injection E as <- <-].
  destruct (apply_subjects step subjects 0 0 _) as [st1 r] eqn:A.
  apply apply_subjects_dry in A as [Hw Hr]. simpl in Hw, Hr.
  destruct r as [[changed finished]|e]; [|unfold stepFailed in E; by injection E as <- <-].
  rewrite dry in E. injection E as <- <-. split; [done|]. intros _.
  destruct Hr as (actions & -> & Ha). eexists. split; [done|]. simpl.
  rewrite announced_report, Ha, !announced_report, !app_nil_r. done.
Qed.

Lemma apply_steps_dry steps st st' err :
  apply_steps steps st = (st', err) ->
  rs_world st' = rs_world st /\
  (err = None -> exists tasks, traverse (planStep (rs_world st)) steps = Ok tasks /\
    announced st' = (announced st ++ (tasks ≫= t_Subtasks))%list).
Proof using dry.
  revert st. induction steps as [|step steps IH]; intros st E; simpl in E.
  { injection E as <- <-. split; [done|]. intros _. exists []. by rewrite app_nil_r. }
  destruct (Apply step st) as [st1 [e|]] eqn:A; apply apply_dry in A as [Hw Ha].
  { injection E as <- <-. split; [done|]. by intros. }
  destruct (Ha eq_refl) as (task & Ht & Hann). apply IH in E as [Hw' Hs].
  rewrite Hw in Hw', Hs. split; [congruence|]. intros He.
  destruct (Hs He) as (tasks & Hts & Hann'). exists (task :: tasks). simpl.
  rewrite Ht, Hts. split; [done|]. by rewrite Hann', Hann, <- app_assoc.
Qed.

Lemma subtasks_filter (tasks : list Task) :
  (List.filter has_subtasks tasks ≫= t_Subtasks) = (tasks ≫= t_Subtasks).
Proof using Type.
  induction tasks as [|t tasks IH]; [done|]. cbn [List.filter]. unfold has_subtasks at 1.
  rewrite bind_cons. destruct (t_Subtasks t) as [|a l] eqn:E; cbn [length Nat.ltb Nat.leb]; cbv iota.
  - exact IH.
  - rewrite bind_cons, E. by f_equal.
Qed.

(** A dry run of a stage changes nothing, and one that ends without an error
    has announced exactly the actions the stage's plan holds, in plan order. *)
Theorem dry_run_announces_the_plan (stage : string) (st st' : RunState) err :
  ApplyAll stage st = (st', err) ->
  rs_world st' = rs_world st /\
  (err = None -> exists tasks, Tasks (rs_world st) stage = Ok tasks /\
    announced st' = (announced st ++ (tasks ≫= t_Subtasks))%list).
Proof using dry.
  unfold ApplyAll, Tasks. intros E.
  destruct (StepsFor catalog stage opts) as [steps|e]; [|by injection E as <- <-].
  destruct (refuseIfIncomplete steps); [by injection E as <- <-|].
  apply apply_steps_dry in E as [Hw Hs]. simpl in Hw, Hs. split; [done|]. intros He.
  destruct (Hs He) as (tasks & Hts & Ha). rewrite Hts.
  exists (List.filter has_subtasks tasks). split; [done|].
  by rewrite subtasks_filter, Ha, announced_report, app_nil_r.
Qed.

End DryRun.

Lemma missing_steps_nil steps :
  missing_steps steps = [] <-> forall step, step ∈ steps -> blockedBy step = "".
Proof using Type.
  unfold missing_steps. induction steps as [|s steps IH].
  { split; [|done]. intros _ s Hs. by apply not_elem_of_nil in Hs. }
  rewrite bind_cons. destruct (String.eqb_spec (blockedBy s) "") as [Hs|Hs]; simpl.
  - rewrite IH. setoid_rewrite elem_of_cons. naive_solver.
  - split; [done|]. intros Hall. destruct Hs. apply Hall. left.
Qed.

(** A stage holding a step this build describes and cannot perform is
    refused before anything is applied or announced, whichever step it is. *)
Theorem incomplete_stage_is_refused (stage : string) (step : Step) (st : RunState) :
  registry_ok (Steps catalog) ->
  step ∈ All (Steps catalog) -> step_Stage step = stage ->
  Skipped opts (step_ID step) = false -> blockedBy step <> "" ->
  exists err, ApplyAll stage st = (st, Some err).
Proof using Type.
  intros Hok Hin Hstage Hskip Hblk. unfold ApplyAll, StepsFor. fold (stage_steps stage).
  pose proof (orderSteps_spec (stage_steps stage)
    ltac:(by apply select_nodup)) as Hs.
  destruct (orderSteps (stage_steps stage)) as [steps|e]; [|by eauto].
  destruct Hs as [Hperm _]. unfold refuseIfIncomplete.
  destruct (missing_steps steps) as [|m ms] eqn:Em; [|by eauto]. exfalso.
  apply Hblk, (proj1 (missing_steps_nil steps) Em). rewrite Hperm.
  by apply elem_of_stage_steps.
Qed.

(** ** Convergence *)

(** One subject changed and verified. *)
Definition performs (step : Step) (s : Subject) (w w' : W) : Prop :=
  exists action, step_Describe step w s = Ok (Some action) /\ step_Validate step w s = None /\
    step_Apply step w s = (w', None) /\ step_Verify step w' s = None.

(** The contract a stage's steps keep: a verified change leaves nothing to
    describe, no step undoes another's, and the subjects are those of the graph
    the run discovered. *)
Record convergent (steps : list Step) : Prop := {
  conv_settles : forall step s w w', step ∈ steps -> performs step s w w' ->
    step_Describe step w' s = Ok None;
  conv_stays : forall step step' s s' w w', step ∈ steps -> step' ∈ steps ->
    performs step' s' w w' -> step_Describe step w s = Ok None ->
    step_Describe step w' s = Ok None;
  conv_subjects : forall step step' s' w w', step ∈ steps -> step' ∈ steps ->
    performs step' s' w w' -> SubjectsFor w' step = SubjectsFor w step;
}.

(** Nothing is left for a step to do. *)
Definition settled (step : Step) (w : W) : Prop :=
  exists subjects, SubjectsFor w step = Ok subjects /\
    forall s, s ∈ subjects -> step_Describe step w s = Ok None.

Section Converge.

Context (steps : list Step) (conv : convergent steps).
Hypothesis wet : opt_DryRun opts = false.

Definition moved : W -> W -> Prop :=
  rtc (fun w w' => exists step s, step ∈ steps /\ performs step s w w').

Lemma moved_describes step s w w' :
  step ∈ steps -> moved w w' -> step_Describe step w s = Ok None ->
  step_Describe step w' s = Ok None.
Proof using conv.
  intros Hin Hm. induction Hm as [|w w1 w2 (step' & s' & Hin' & Hp) _ IH]; [done|].
  intros Hd. apply IH. by eapply (conv_stays _ conv).
Qed.

Lemma moved_subjects step w w' :
  step ∈ steps -> moved w w' -> SubjectsFor w' step = SubjectsFor w step.
Proof using conv.
  intros Hin Hm. induction Hm as [|w w1 w2 (step' & s' & Hin' & Hp) _ IH]; [done|].
  rewrite IH. by eapply (conv_subjects _ conv).
Qed.

Lemma moved_settled step w w' :
  step ∈ steps -> moved w w' -> settled step w -> settled step w'.
Proof using conv.
  intros Hin Hm (subjects & Hs & Hd). exists subjects. rewrite (moved_subjects step w w') by done.
  split; [done|]. intros s Hins. eapply moved_describes; eauto.
Qed.

Lemma apply_subjects_settles step subjects changed finished st st' n :
  step ∈ steps -> apply_subjects step subjects changed finished st = (st', Ok n) ->
  moved (rs_world st) (rs_world st') /\
  forall s, s ∈ subjects -> step_Describe step (rs_world st') s = Ok None.
Proof using conv wet.
  intros Hin. revert changed finished st. induction subjects as [|s subjects IH];
    intros changed finished st E; simpl in E.
  { injection E as <- _. split; [apply rtc_refl|]. intros s Hs. by apply not_elem_of_nil in Hs. }
  destruct (step_Describe step (rs_world st) s) as [[a|]|err] eqn:D; [| |done].
  - rewrite wet in E. destruct (step_Validate step (rs_world st) s) eqn:V; [done|].
    destruct (step_Apply step (rs_world st) s) as [w' [err|]] eqn:A; [done|].
    destruct (step_Verify step w' s) eqn:Vf; [done|].
    assert (Hp : performs step s (rs_world st) w') by (by exists a).
    apply IH in E as [Hm Hd]. simpl in Hm. split.
    + eapply rtc_l; [|exact Hm]. by exists step, s.
    + intros x [->|Hx]%elem_of_cons; [|by apply Hd]. eapply moved_describes; [done|exact Hm|].
      by eapply (conv_settles _ conv).
  - destruct (step_Done step (rs_world st) s); [|done]. apply IH in E as [Hm Hd].
    split; [done|]. intros x [->|Hx]%elem_of_cons; [|by apply Hd]. by eapply moved_describes.
Qed.

Lemma apply_settles step st st' :
  step ∈ steps -> Apply step st = (st', None) ->
  moved (rs_world st) (rs_world st') /\ settled step (rs_world st').
Proof using conv wet.
  intros Hin. unfold Apply. intros E. simpl in E.
  destruct (SubjectsFor (rs_world st) step) as [subjects|e] eqn:Es; [|done].
  destruct (apply_subjects step subjects 0 0 _) as [st1 [[changed finished]|e]] eqn:A; [|done].
  apply apply_subjects_settles in A as [Hm Hd]; [|done]. simpl in Hm.
  assert (Hw : rs_world st' = rs_world st1) by (rewrite wet in E; injection E as <-; by repeat case_match).
  rewrite Hw. split; [done|]. exists subjects. split; [|done].
  by rewrite (moved_subjects step (rs_world st)).
Qed.

Lemma apply_steps_settles todo st st' :
  todo ⊆ steps -> apply_steps todo st = (st', None) ->
  moved (rs_world st) (rs_world st') /\ forall step, step ∈ todo -> settled step (rs_world st').
Proof using conv wet.
  revert st. induction todo as [|step todo IH]; intros st Hsub E; simpl in E.
  { injection E as <-. split; [apply rtc_refl|]. intros s Hs. by apply not_elem_of_nil in Hs. }
  destruct (Apply step st) as [st1 [e|]] eqn:A; [done|].
  apply apply_settles in A as [Hm Hs]; [|apply Hsub; left].
  apply IH in E as [Hm' Hall]; [|intros x Hx; apply Hsub; by right].
  split; [by etransitivity|]. intros x [->|Hx]%elem_of_cons; [|by apply Hall].
  eapply moved_settled; eauto. apply Hsub. left.
Qed.

End Converge.

Lemma settled_plan step w :
  settled step w -> exists task, planStep w step = Ok task /\ t_Subtasks task = [].
Proof using Type.
  intros (subjects & Hs & Hd). unfold planStep. rewrite Hs.
  assert (Hn : describe_all w step subjects = Ok []).
  { clear Hs. induction subjects as [|s subjects IH]; [done|]. simpl.
    rewrite (Hd s) by left. rewrite IH; [done|]. intros x Hx. apply Hd. by right. }
  rewrite Hn. by eexists.
Qed.

Lemma settled_tasks steps w :
  (forall step, step ∈ steps -> settled step w) ->
  exists tasks, traverse (planStep w) steps = Ok tasks /\ List.filter has_subtasks tasks = [].
Proof using Type.
  induction steps as [|step steps IH]; intros Hall; [by exists []|].
  destruct (settled_plan step w) as (task & Ht & Hn); [apply Hall; left|].
  destruct IH as (tasks & Hts & Hf); [intros x Hx; apply Hall; by right|].
  exists (task :: tasks). simpl. rewrite Ht, Hts. split; [done|].
  unfold has_subtasks at 1. by rewrite Hn.
Qed.

Lemma settled_subjects step subjects changed finished st st' r w :
  (forall s, s ∈ subjects -> step_Describe step w s = Ok None) -> rs_world st = w ->
  apply_subjects step subjects changed finished st = (st', r) -> rs_world st' = w.
Proof using Type.
  revert changed finished. induction subjects as [|s subjects IH];
    intros changed finished Hd Hw A; simpl in A; [by injection A as <- _|].
  rewrite Hw, (Hd s) in A by left.
  destruct (step_Done step w s); [|by injection A as <- _].
  eapply IH; [|done|exact A]. intros x Hx. apply Hd. by right.
Qed.

Lemma settled_apply step st :
  settled step (rs_world st) -> rs_world (Apply step st).1 = rs_world st.
Proof using Type.
  intros (subjects & Hs & Hd). unfold Apply. simpl. rewrite Hs.
  destruct (apply_subjects step subjects 0 0 _) as [st1 r] eqn:A.
  assert (Hw : rs_world st1 = rs_world st).
  { by eapply (settled_subjects step subjects 0 0); [| |exact A]. }
  destruct r as [[c f]|e]; simpl; [|done].
  repeat case_match; done.
Qed.

Lemma settled_apply_steps steps st :
  (forall step, step ∈ steps -> settled step (rs_world st)) ->
  rs_world (apply_steps steps st).1 = rs_world st.
Proof using Type.
  revert st. induction steps as [|step steps IH]; intros st Hall; [done|]. simpl.
  assert (Hw := settled_apply step st (Hall step ltac:(left))).
  destruct (Apply step st) as [st1 [e|]]; simpl in Hw; [done|].
  rewrite IH; [done|]. rewrite Hw. intros x Hx. apply Hall. by right.
Qed.

(** For steps that keep their contract, a stage that ran to the end has
    nothing left in its plan, and running it again changes nothing. *)
Theorem applied_stage_is_settled (stage : string) (st st' : RunState) :
  opt_DryRun opts = false ->
  (forall steps, StepsFor catalog stage opts = Ok steps -> convergent steps) ->
  ApplyAll stage st = (st', None) ->
  Tasks (rs_world st') stage = Ok [] /\
  forall again, rs_world again = rs_world st' ->
    rs_world (ApplyAll stage again).1 = rs_world again.
Proof using Type.
  intros Hwet Hconv E. unfold ApplyAll, Tasks in *.
  destruct (StepsFor catalog stage opts) as [steps|e]; [|done].
  destruct (refuseIfIncomplete steps); [done|].
  destruct (apply_steps_settles steps (Hconv _ eq_refl) Hwet steps _ _ ltac:(done) E) as [_ Hall].
  split.
  - destruct (settled_tasks steps _ Hall) as (tasks & -> & Hf). simpl. by rewrite Hf.
  - intros again Hw. rewrite settled_apply_steps; [done|]. simpl. by rewrite Hw.
Qed.

(** ** Coverage *)

Lemma cover_spec w step subjects out cov :
  cover w step subjects out = (cov, None) ->
  exists actions, describe_all w step subjects = Ok actions /\
  exists o f u, cov = mkCoverage (Outstanding out ++ o) (Finished out ++ f) (Untouched out ++ u) /\
    (o ++ f ++ u)%list ≡ₚ subjects /\ length actions = length o /\
    (forall s, s ∈ o -> exists a, step_Describe step w s = Ok (Some a)) /\
    (forall s, s ∈ f -> step_Describe step w s = Ok None /\ step_Done step w s = Ok true) /\
    (forall s, s ∈ u -> step_Describe step w s = Ok None /\ step_Done step w s = Ok false).
Proof using Type.
  revert out. induction subjects as [|s subjects IH]; intros out E; simpl in E.
  { injection E as <-. exists []. split; [done|]. exists [], [], []. rewrite !app_nil_r.
    split; [by destruct out|]. split; [done|]. split; [done|].
    split; [|split]; intros s Hs; by apply not_elem_of_nil in Hs. }
  simpl. destruct (step_Describe step w s) as [[a|]|err] eqn:D; [| |done].
  - apply IH in E as (actions & -> & o & f & u & -> & Hp & Hl & Ho & Hf & Hu).
    exists (a :: actions). split; [done|]. exists (s :: o), f, u. simpl.
    rewrite <- app_assoc. split; [done|]. split; [by constructor|]. split; [by f_equal|].
    split; [|done]. intros x [->|Hx]%elem_of_cons; eauto.
  - destruct (step_Done step w s) as [[]|err] eqn:Dn; [| |done];
      apply IH in E as (actions & -> & o & f & u & -> & Hp & Hl & Ho & Hf & Hu);
      exists actions; (split; [done|]).
    + exists o, (s :: f), u. simpl. rewrite <- app_assoc. split; [done|].
      split; [rewrite <- Permutation_middle; by constructor|]. split; [done|].
      split; [done|]. split; [|done]. intros x [->|Hx]%elem_of_cons; eauto.
    + exists o, f, (s :: u). simpl. rewrite <- app_assoc. split; [done|].
      split; [by rewrite <- !Permutation_middle, Hp|]. split; [done|].
      split; [done|]. split; [done|]. intros x [->|Hx]%elem_of_cons; eauto.
Qed.

(** What a step has to say about a run's subjects shares them out, every
    subject once: outstanding for those it describes work on, as many as its plan
    holds changes; finished for those it is done with; and untouched for the
    rest. *)
Theorem coverage_shares_out_the_subjects (w : W) (step : Step) (cov : Coverage) :
  Covered w step = (cov, None) ->
  exists subjects task, SubjectsFor w step = Ok subjects /\ planStep w step = Ok task /\
    (Outstanding cov ++ Finished cov ++ Untouched cov)%list ≡ₚ subjects /\
    length (t_Subtasks task) = length (Outstanding cov) /\
    (forall s, s ∈ Outstanding cov -> exists a, step_Describe step w s = Ok (Some a)) /\
    (forall s, s ∈ Finished cov ->
      step_Describe step w s = Ok None /\ step_Done step w s = Ok true) /\
    (forall s, s ∈ Untouched cov ->
      step_Describe step w s = Ok None /\ step_Done step w s = Ok false).
Proof using Type.
  unfold Covered, planStep. intros E. destruct (SubjectsFor w step) as [subjects|e]; [|done].
  apply cover_spec in E as (actions & -> & o & f & u & -> & Hrest). simpl in *.
  eexists _, _. split; [done|]. split; [done|]. exact Hrest.
Qed.

End Rules.

(** ** Concrete runs *)

Module Cases.

(** A cluster is the list of the changes made to it. *)
Abbreviation world := (list string).

Definition scope (dry : bool) (skip : list string) : @Scope world :=
  mkScope (fun _ => NewGraph) (fun _ => Hour) "prod" (mkOptions dry skip) (fun _ => None)
    (fun k => gvk_Kind k) (fun s => s).

Definition action (id : string) : Action :=
  mkAction id VerbUpdate (s_Ref (TheUpgrade "prod")) "" "".

(** A step that leaves its mark once. *)
Definition mark (id stage phase : string) (requires : list string) (blocked : option string)
    : @Step world :=
  mkStep id id stage phase requires blocked None
    (fun w s => Ok (if IsUpgrade s && negb (contains w id) then Some (action id) else None))
    (fun w s => Ok (contains w id)) (fun _ _ => None)
    (fun w _ => match blocked with
                | None => (id :: w, None)
                | Some reason => (w, Some reason)
                end)
    (fun w _ => if contains w id then None else Some "missing").

Definition catalog_of (steps : list (@Step world)) : @Catalog world :=
  mkCatalog (NewRegistry "discoverers") (NewRegistry "checks") (NewRegistry "derivations")
    (Register (NewRegistry "steps") steps).1 (NewRegistry "transformations").

Definition second : @Step world := mark "second" StageUpgrade "" ["first"] None.
Definition first : @Step world := mark "first" StageUpgrade "" [] None.
Definition later : @Step world := mark "later" StageUpgrade "" ["second"] (Some "no type").

Definition catalog : @Catalog world := catalog_of [second; first].
Definition state (w : world) : @RunState world := mkRun w [] "" None.

Lemma catalog_of_ok steps : registry_ok (Steps (catalog_of steps)).
Proof.
  unfold catalog_of. simpl. destruct (Register (NewRegistry "steps") steps) as [r e] eqn:E.
  by destruct (register_spec _ _ _ _ (new_registry_ok "steps") E).
Qed.

Lemma stage_steps_ordered_witness :
  match StepsFor catalog StageUpgrade (mkOptions false []) with
  | Ok steps => ordered_by_requirements steps
  | Err _ => False
  end.
Proof.
  pose proof (stage_steps_ordered (scope false []) catalog StageUpgrade (catalog_of_ok _)) as H.
  assert (E : is_Ok (StepsFor catalog StageUpgrade (mkOptions false [])) = true)
    by (vm_compute; reflexivity).
  change (sc_Options (scope false [])) with (mkOptions false []) in H.
  destruct (StepsFor catalog StageUpgrade (mkOptions false [])); [|discriminate E].
  exact (proj1 (proj2 (proj2 H))).
Defined.

Lemma dry_run_announces_the_plan_witness :
  rs_world (ApplyAll (scope true []) catalog StageUpgrade (state [])).1 = [].
Proof.
  apply (dry_run_announces_the_plan (scope true []) catalog eq_refl StageUpgrade (state [])
    _ (ApplyAll (scope true []) catalog StageUpgrade (state [])).2).
  by destruct (ApplyAll (scope true []) catalog StageUpgrade (state [])).
Defined.

Lemma incomplete_stage_is_refused_witness :
  exists err, ApplyAll (scope false []) (catalog_of [first; later]) StageUpgrade (state []) =
    (state [], Some err).
Proof.
  apply (incomplete_stage_is_refused (scope false []) (catalog_of [first; later]) StageUpgrade
    later (state [])).
  - apply catalog_of_ok.
  - right. left.
  - reflexivity.
  - reflexivity.
  - discriminate.
Defined.

Lemma marks_converge (steps : list (@Step world)) :
  (forall step, step ∈ steps -> step = first \/ step = second) ->
  convergent (scope false []) steps.
Proof.
  intros Hin.
  assert (Hmark : forall step, step ∈ steps -> exists id requires,
    step = mark id StageUpgrade "" requires None).
  { intros step Hs. destruct (Hin step Hs) as [->| ->]; by eexists _, _. }
  assert (Hperf : forall step s w w', step ∈ steps -> performs step s w w' ->
    w' = step_ID step :: w).
  { intros step s w w' Hs (a & _ & _ & Ha & _). destruct (Hmark step Hs) as (id & q & ->).
    simpl in *. by injection Ha as <-. }
  split.
  - intros step s w w' Hs Hp. rewrite (Hperf _ _ _ _ Hs Hp).
    destruct (Hmark step Hs) as (id & q & ->). simpl.
    assert (Hc : contains (id :: w) id = true) by (apply contains_true; left).
    by rewrite Hc, andb_false_r.
  - intros step step' s s' w w' Hs Hs' Hp. rewrite (Hperf _ _ _ _ Hs' Hp).
    destruct (Hmark step Hs) as (id & q & ->). simpl. destruct (IsUpgrade s); [|done]. simpl.
    destruct (contains w id) eqn:E; [|done]. intros _. apply contains_true in E.
    assert (Hc : contains (step_ID step' :: w) id = true) by (apply contains_true; by right).
    by rewrite Hc.
  - intros step step' s' w w' Hs _ _. by destruct (Hmark step Hs) as (id & q & ->).
Qed.

Lemma applied_stage_is_settled_witness :
  Tasks (scope false []) catalog
    (rs_world (ApplyAll (scope false []) catalog StageUpgrade (state [])).1) StageUpgrade = Ok [].
Proof.
  apply (applied_stage_is_settled (scope false []) catalog StageUpgrade (state [])
    (ApplyAll (scope false []) catalog StageUpgrade (state [])).1).
  - reflexivity.
  - intros steps E. apply marks_converge. vm_compute in E. injection E as <-.
    intros step [->|[->|Hx]%elem_of_cons]%elem_of_cons; [by left|by right|].
    by apply not_elem_of_nil in Hx.
  - vm_compute. reflexivity.
Defined.

Lemma coverage_shares_out_the_subjects_witness :
  let cov := mkCoverage [] [TheUpgrade "prod"] [] in
  Covered (scope false []) ["first"] first = (cov, None) /\
  exists subjects task, SubjectsFor (scope false []) ["first"] first = Ok subjects /\
    planStep (scope false []) ["first"] first = Ok task /\
    (Outstanding cov ++ Finished cov ++ Untouched cov)%list ≡ₚ subjects.
Proof.
  intros cov. split; [vm_compute; reflexivity|].
  destruct (coverage_shares_out_the_subjects (scope false []) ["first"] first cov) as
    (subjects & task & H1 & H2 & H3 & _); [vm_compute; reflexivity|].
  exists subjects, task. auto.
Defined.

End Cases.
