(* ===== verification/UpgradeMigration.v ===== *)
(** The migration walk and the record of its position ([operator/internal/upgrade]).

    The record and the ConfigMap it is kept in ([record.go]), the phase graph
    ([phase.go]) on the machine of [StateMachine], and the walk that runs each
    phase's steps on entering it ([migration.go]). *)

From Stdlib Require Import Ascii String.
From S2P Require Import Prelude GoStrings StateMachine.
From S2P Require Import UpgradeRules UpgradePlan UpgradeGraph UpgradeRun.

#[local] Open Scope string_scope.

(** ** The record ([record.go]) *)

Record PreflightAttestation := mkAttestation {
  att_Passed : Time;
  att_ChartVersion : string;
  att_OperatorImage : string;
  att_Skipped : list string;
}.

(** [Record]; an absent capture is empty. *)
Record MigrationRecord := mkRecord {
  rec_Snapshot : Snapshot string;
  rec_Step : string;
  rec_Preflight : option PreflightAttestation;
  rec_Capture : string;
  rec_resourceVersion : string;
}.

Definition RecordName : string := "simplyblock-api-migration".
Definition recordKeyPhase : string := "phase".
Definition recordKeyDeadline : string := "phaseDeadline".
Definition recordKeyStep : string := "step".
Definition recordKeyPreflight : string := "preflight".
Definition recordKeyCapture : string := "capture".

(** What a walk keeps its position in. *)
Record RecordStore (W : Type) := mkStore {
  Load : W -> res string (option MigrationRecord);
  Save : W -> MigrationRecord -> W * res string MigrationRecord;
  Delete : W -> W * error_of string;
}.
Arguments mkStore {W}.
Arguments Load {W}.
Arguments Save {W}.
Arguments Delete {W}.

(** What the walk relies on of a store: the phase last saved is the one loaded,
    and a deleted record is gone. *)
Class StoreLaws {W} (store : RecordStore W) (position : W -> option string) : Prop := {
  load_position : forall w r, Load store w = Ok r ->
    position w = (fun r => snap_State (rec_Snapshot r)) <$> r;
  save_position : forall w r w' r', Save store w r = (w', Ok r') ->
    position w' = Some (snap_State (rec_Snapshot r));
  delete_position : forall w w', Delete store w = (w', None) -> position w' = None;
}.

(** What the API server answers: a read of the ConfigMap, and a removal. *)
Inductive cm_read :=
| CMFound (resourceVersion : string) (data : gmap string string)
| CMNotFound
| CMError (err : string).

Inductive cm_delete :=
| CMDeleted
| CMGone
| CMDeleteError (err : string).

Section ConfigMap.

(** The client, on the one ConfigMap the store names; and [encoding/json] on
    [metav1.Time] and on the attestation. *)
Context {W : Type}.
Context (client_Get : W -> cm_read).
Context (client_Create : W -> gmap string string -> W * res string string).
Context (client_Update : W -> string -> gmap string string -> W * res string string).
Context (client_Delete : W -> W * cm_delete).
Context (time_Marshal : Time -> res string string) (time_Unmarshal : string -> res string Time).
Context (att_Marshal : PreflightAttestation -> res string string).
Context (att_Unmarshal : string -> res string PreflightAttestation).

(** [encoded[1 : len(encoded)-1]]. *)
Definition unquote (encoded : string) : string :=
  String.substring 1 (String.length encoded - 2) encoded.
Definition double_quote : string := String (ascii_of_nat 34) "".

Definition put (key : string) (value : option string) (data : gmap string string)
    : gmap string string :=
  match value with Some v => <[key := v]> data | None => data end.

(** A pointer that may be nil, encoded. *)
Definition encode_opt {A} (what : string) (marshal : A -> res string string) (v : option A)
    : res string (option string) :=
  match v with
  | None => Ok None
  | Some a =>
      match marshal a with
      | Ok encoded => Ok (Some encoded)
      | Err err => Err (what ++ err)
      end
  end.

(** [Record.data]. *)
Definition data (r : MigrationRecord) : res string (gmap string string) :=
  let kube := ToKube (rec_Snapshot r) in
  deadline <-- encode_opt "encoding the phase deadline: " time_Marshal (kube_Deadline kube) ;;
  (preflight <-- encode_opt "encoding the preflight attestation: " att_Marshal
     (rec_Preflight r) ;;
   Ok (put recordKeyCapture
         (if String.eqb (rec_Capture r) "" then None else Some (rec_Capture r))
       (put recordKeyPreflight preflight
       (put recordKeyStep (if String.eqb (rec_Step r) "" then None else Some (rec_Step r))
       (put recordKeyDeadline (unquote <$> deadline)
       {[recordKeyPhase := kube_State kube]}))))).

Definition get_key (data : gmap string string) (key : string) : string :=
  default "" (data !! key).

(** A key read back, empty being absent. *)
Definition decode_opt {A} (what : string) (unmarshal : string -> res string A) (raw : string)
    : res string (option A) :=
  if String.eqb raw "" then Ok None
  else
    match unmarshal raw with
    | Ok a => Ok (Some a)
    | Err err => Err (what ++ err)
    end.

Definition cm_Load (w : W) : res string (option MigrationRecord) :=
  match client_Get w with
  | CMNotFound => Ok None
  | CMError err => Err ("reading the migration record: " ++ err)
  | CMFound version data =>
      deadline <-- decode_opt "the migration record's deadline is not a timestamp: "
        (fun raw => time_Unmarshal (double_quote ++ raw ++ double_quote))
        (get_key data recordKeyDeadline) ;;
      (preflight <-- decode_opt "the migration record's preflight attestation is unreadable: "
         att_Unmarshal (get_key data recordKeyPreflight) ;;
       Ok (Some (mkRecord (FromKube (mkKube (get_key data recordKeyPhase) deadline None))
         (get_key data recordKeyStep) preflight (get_key data recordKeyCapture) version)))
  end.

Definition with_version (r : MigrationRecord) (version : string) : MigrationRecord :=
  mkRecord (rec_Snapshot r) (rec_Step r) (rec_Preflight r) (rec_Capture r) version.

Definition cm_Save (w : W) (r : MigrationRecord) : W * res string MigrationRecord :=
  match data r with
  | Err err => (w, Err err)
  | Ok data =>
      if String.eqb (rec_resourceVersion r) "" then
        match client_Create w data with
        | (w, Err err) => (w, Err ("creating the migration record: " ++ err))
        | (w, Ok version) => (w, Ok (with_version r version))
        end
      else
        match client_Update w (rec_resourceVersion r) data with
        | (w, Err err) => (w, Err ("writing the migration record: " ++ err))
        | (w, Ok version) => (w, Ok (with_version r version))
        end
  end.

Definition cm_Delete (w : W) : W * error_of string :=
  match client_Delete w with
  | (w, CMDeleteError err) => (w, Some ("removing the migration record: " ++ err))
  | (w, _) => (w, None)
  end.

Definition ConfigMapRecordStore : RecordStore W := mkStore cm_Load cm_Save cm_Delete.

(** What the API server and the encoders document. *)
Record client_laws : Prop := {
  create_get : forall w d w' v, client_Create w d = (w', Ok v) -> client_Get w' = CMFound v d;
  update_get : forall w rv d w' v,
    client_Update w rv d = (w', Ok v) -> client_Get w' = CMFound v d;
  update_lock : forall w rv d v d', client_Get w = CMFound v d' -> v <> rv ->
    exists err, client_Update w rv d = (w, Err err);
  delete_get : forall w w' r, client_Delete w = (w', r) ->
    match r with CMDeleteError _ => True | _ => client_Get w' = CMNotFound end;
}.

(** A timestamp is written quoted, at the precision of a second. *)
Record encoding_laws : Prop := {
  time_law : forall t enc, time_Marshal t = Ok enc ->
    exists raw, enc = double_quote ++ raw ++ double_quote /\ raw <> "" /\
      time_Unmarshal enc = Ok (floor_second t);
  att_law : forall a enc, att_Marshal a = Ok enc -> enc <> "" /\
    att_Unmarshal enc = Ok (mkAttestation (floor_second (att_Passed a)) (att_ChartVersion a)
      (att_OperatorImage a) (att_Skipped a));
}.

(** What a record is after it has been written and read. *)
Definition at_seconds (r : MigrationRecord) (version : string) : MigrationRecord :=
  mkRecord (mkSnapshot (snap_State (rec_Snapshot r)) (floor_second (snap_Deadline (rec_Snapshot r))))
    (rec_Step r)
    ((fun a => mkAttestation (floor_second (att_Passed a)) (att_ChartVersion a)
       (att_OperatorImage a) (att_Skipped a)) <$> rec_Preflight r)
    (rec_Capture r) version.

Lemma substring_app_l a b : String.substring 0 (String.length a) (a ++ b) = a.
Proof. induction a as [|c a IH]; [by destruct b|]. simpl. by rewrite IH. Qed.

Lemma unquote_quoted raw : unquote (double_quote ++ raw ++ double_quote) = raw.
Proof.
  unfold unquote, double_quote. rewrite !string_length_app.
  replace (String.length (String (ascii_of_nat 34) "") + (String.length raw +
    String.length (String (ascii_of_nat 34) "")) - 2) with (String.length raw) by (simpl; lia).
  exact (substring_app_l raw (String (ascii_of_nat 34) "")).
Qed.

Lemma get_put_ne data key key' v :
  key <> key' -> get_key (put key v data) key' = get_key data key'.
Proof. intros Hne. unfold put, get_key. destruct v; [|done]. by rewrite lookup_insert_ne. Qed.

Lemma get_put_eq data key v :
  get_key data key = "" -> get_key (put key v data) key = default "" v.
Proof. intros Hz. unfold put, get_key. destruct v; [|done]. by rewrite lookup_insert_eq. Qed.

Lemma get_put_some data key v :
  get_key data key = "" ->
  get_key (put key (if String.eqb v "" then None else Some v) data) key = v.
Proof. intros Hz. rewrite get_put_eq by done. by destruct (String.eqb_spec v "") as [->|]. Qed.

Section Roundtrip.

Hypothesis client : client_laws.
Hypothesis encoding : encoding_laws.

Lemma data_read_back r d w version :
  data r = Ok d -> client_Get w = CMFound version d ->
  cm_Load w = Ok (Some (at_seconds r version)).
Proof using encoding.
  unfold data. intros E Hget.
  destruct (encode_opt _ time_Marshal _) as [deadline|] eqn:Ed; [|done].
  destruct (encode_opt _ att_Marshal _) as [preflight|] eqn:Ea; [|done].
  injection E as Hd.
  assert (Hphase : get_key d recordKeyPhase = snap_State (rec_Snapshot r)).
  { rewrite <- Hd, !get_put_ne by done. unfold get_key. by rewrite lookup_singleton_eq. }
  assert (Hdl : get_key d recordKeyDeadline = default "" (unquote <$> deadline)).
  { rewrite <- Hd, !get_put_ne by done. by apply get_put_eq. }
  assert (Hst : get_key d recordKeyStep = rec_Step r).
  { rewrite <- Hd, !get_put_ne by done. apply get_put_some. rewrite get_put_ne by done. done. }
  assert (Hpre : get_key d recordKeyPreflight = default "" preflight).
  { rewrite <- Hd, get_put_ne by done. apply get_put_eq. by rewrite !get_put_ne by done. }
  assert (Hcap : get_key d recordKeyCapture = rec_Capture r).
  { rewrite <- Hd. apply get_put_some. by rewrite !get_put_ne by done. }
  unfold cm_Load, at_seconds. rewrite Hget, Hphase, Hdl, Hst, Hpre, Hcap. clear Hd Hget.
  assert (H1 : decode_opt "the migration record's deadline is not a timestamp: "
      (fun raw => time_Unmarshal (double_quote ++ raw ++ double_quote))
      (default "" (unquote <$> deadline)) =
    Ok (floor_second <$> kube_Deadline (ToKube (rec_Snapshot r)))).
  { destruct (kube_Deadline (ToKube (rec_Snapshot r))) as [t|]; simpl in Ed.
    - destruct (time_Marshal t) as [enc|] eqn:Et; [|done]. injection Ed as <-.
      destruct (time_law encoding _ _ Et) as (raw & -> & Hraw & Hun). simpl fmap.
      unfold default, decode_opt. simpl id. cbn [option_fmap option_map fmap].
      rewrite unquote_quoted. destruct (String.eqb_spec raw ""); [done|]. by rewrite Hun.
    - by injection Ed as <-. }
  assert (H2 : decode_opt "the migration record's preflight attestation is unreadable: "
      att_Unmarshal (default "" preflight) =
    Ok ((fun a => mkAttestation (floor_second (att_Passed a)) (att_ChartVersion a)
       (att_OperatorImage a) (att_Skipped a)) <$> rec_Preflight r)).
  { destruct (rec_Preflight r) as [a|]; simpl in Ea.
    - destruct (att_Marshal a) as [enc|] eqn:Et; [|done]. injection Ea as <-.
      destruct (att_law encoding _ _ Et) as [Hne Hun]. unfold decode_opt. simpl.
      destruct (String.eqb_spec enc ""); [done|]. by rewrite Hun.
    - by injection Ea as <-. }
  rewrite H1, H2. do 2 f_equal. f_equal. unfold FromKube, ToKube. simpl. f_equal.
  unfold IsZero, zero_time. by destruct (Z.eqb_spec (snap_Deadline (rec_Snapshot r)) 0) as [->|].
Qed.

Lemma cm_save_inv w r w' r' :
  cm_Save w r = (w', Ok r') ->
  exists d v, data r = Ok d /\ client_Get w' = CMFound v d /\ r' = with_version r v.
Proof using client.
  unfold cm_Save. intros E. destruct (data r) as [d|]; [|done].
  destruct (String.eqb (rec_resourceVersion r) "").
  - destruct (client_Create w d) as [w1 [v|]] eqn:C; [|done]. injection E as <- <-.
    exists d, v. split; [done|]. split; [|done]. by eapply create_get.
  - destruct (client_Update w (rec_resourceVersion r) d) as [w1 [v|]] eqn:C; [|done].
    injection E as <- <-. exists d, v. split; [done|]. split; [|done]. by eapply update_get.
Qed.

(** A record saved is the record loaded, at the precision of a second: the
    phase, the step in flight, the attestation and the capture, with the version
    the next save is held against; and a run holding an older version than the
    one stored cannot write, which is what keeps two migrations apart. *)
Theorem record_roundtrip (w w' : W) (r r' : MigrationRecord) :
  cm_Save w r = (w', Ok r') ->
  cm_Load w' = Ok (Some (at_seconds r (rec_resourceVersion r'))) /\
  (0 <= snap_Deadline (rec_Snapshot r) -
     snap_Deadline (rec_Snapshot (at_seconds r (rec_resourceVersion r'))) < Second)%Z /\
  forall stale w2 res, rec_resourceVersion stale <> "" ->
    rec_resourceVersion stale <> rec_resourceVersion r' ->
    cm_Save w' stale = (w2, res) -> w2 = w' /\ is_Ok res = false.
Proof using client encoding.
  intros E. destruct (cm_save_inv _ _ _ _ E) as (d & v & Hd & Hget & ->). simpl.
  split; [by eapply data_read_back|]. split.
  - unfold floor_second, Second.
    pose proof (Z.mod_pos_bound (snap_Deadline (rec_Snapshot r)) 1000000000 ltac:(lia)). lia.
  - intros stale w2 res Hne Hv Es. unfold cm_Save in Es. destruct (data stale) as [d2|];
      [|by injection Es as <- <-].
    destruct (String.eqb_spec (rec_resourceVersion stale) ""); [done|].
    destruct (update_lock client _ (rec_resourceVersion stale) d2 _ _ Hget) as [err He]; [done|].
    rewrite He in Es. by injection Es as <- <-.
Qed.

Definition cm_position (w : W) : option string :=
  match client_Get w with CMFound _ d => Some (get_key d recordKeyPhase) | _ => None end.

(** The ConfigMap keeps a walk's position. *)
Lemma config_map_store_laws : StoreLaws ConfigMapRecordStore cm_position.
Proof using client.
  split; unfold cm_position; simpl.
  - intros w r E. unfold cm_Load in E. destruct (client_Get w) as [v d| |]; [| |done].
    + destruct (decode_opt _ _ (get_key d recordKeyDeadline)); [|done].
      destruct (decode_opt _ _ (get_key d recordKeyPreflight)); [|done].
      by injection E as <-.
    + by injection E as <-.
  - intros w r w' r' E. destruct (cm_save_inv _ _ _ _ E) as (d & v & Hd & -> & _).
    f_equal. unfold data in Hd.
    destruct (encode_opt _ time_Marshal _); [|done]. destruct (encode_opt _ att_Marshal _); [|done].
    injection Hd as <-. rewrite !get_put_ne by done. unfold get_key.
    by rewrite lookup_singleton_eq.
  - intros w w' E. unfold cm_Delete in E. destruct (client_Delete w) as [w1 r] eqn:D.
    pose proof (delete_get client _ _ _ D) as Hg.
    destruct r; simplify_eq/=; by rewrite Hg.
Qed.

End Roundtrip.

End ConfigMap.

(** ** The phase graph ([phase.go]) *)

(** [MigrateGraph]: each phase leads to the next and to [PhaseFailed]. *)
Definition phase_def {W} (hooks : gmap string (TransitionFunc string W)) (i : nat) (phase : string)
    : string * StateDef string W :=
  (phase, mkStateDef
    (match MigratePhases !! S i with Some next => [next; PhaseFailed] | None => [] end)
    false (hooks !! phase)).

Definition MigrateGraph {W} (hooks : gmap string (TransitionFunc string W)) : Config string W :=
  mkConfig PhasePending
    (<[PhaseFailed := mkStateDef [] false None]>
       (list_to_map (imap (phase_def hooks) MigratePhases))).

(** [nextPhase]. *)
Fixpoint next_in (phases : list string) (current : string) : option string :=
  match phases with
  | phase :: ((next :: _) as rest) =>
      if String.eqb phase current then Some next else next_in rest current
  | _ => None
  end.
Definition nextPhase (current : string) : option string := next_in MigratePhases current.

(** ** The walk ([migration.go]) *)

Section Migration.

Context {W : Type} (scope : @Scope W) (catalog : @Catalog W) (store : RecordStore W).

(** [DefaultPhaseTimeouts], and the timeouts a migration carries, nil or not. *)
Definition DefaultPhaseTimeouts : gmap string Duration :=
  list_to_map [(PhaseValidating, 10 * Minute); (PhaseTransforming, 30 * Minute);
    (PhaseOwnership, 30 * Minute); (PhaseHandles, 30 * Minute); (PhaseDeleting, 15 * Minute);
    (PhaseRewriting, 2 * Hour); (PhaseVerifying, 15 * Minute)]%Z.

Context (timeouts : option (gmap string Duration)).

Definition timeout (phase : string) : Duration :=
  match timeouts with
  | Some t => default 0%Z (t !! phase)
  | None => default 0%Z (DefaultPhaseTimeouts !! phase)
  end.

(** The steps of a phase in turn: each is named in the record, then applied. *)
Definition apply_named (step : Step) (st : RunState) : RunState :=
  let '(st, err) := Apply scope step (set_Step st (step_ID step)) in set_err st err.

Fixpoint phase_steps (to : string) (steps : list Step) : hook string RunState :=
  match steps with
  | [] => HookReturn (timeout to)
  | step :: steps =>
      HookEffect (apply_named step) (fun st =>
        match rs_err st with
        | Some err => HookFail err
        | None => phase_steps to steps
        end)
  end.

(** [phaseHook]. *)
Definition phaseHook : TransitionFunc string RunState := fun _ _ to =>
  match StepsInPhase catalog to (sc_Options scope) with
  | Err err => HookFail err
  | Ok steps =>
      HookEffect (fun st => report st (EvPhase to (length steps))) (fun _ => phase_steps to steps)
  end.

Definition hooked (phase : string) : bool :=
  negb (Terminal phase || String.eqb phase PhasePending).

(** [Migration.hooks]. *)
Definition migration_hooks : gmap string (TransitionFunc string RunState) :=
  list_to_map ((fun phase => (phase, phaseHook)) <$> List.filter hooked MigratePhases).

Definition run_clock (st : @RunState W) : Time := sc_clock scope (rs_world st).

(** Why a walk stopped. *)
Inductive migrate_error :=
| ErrStore (err : string)
| ErrRecordedPhase (err : merr string)
| ErrPhase (err : merr string)
| ErrPhaseAndStore (err : merr string) (save : string)
| ErrPanic.

Definition with_snapshot (r : MigrationRecord) (snap : Snapshot string) (step : string)
    : MigrationRecord :=
  mkRecord snap step (rec_Preflight r) (rec_Capture r) (rec_resourceVersion r).

(** The loop of [Run].  [None] is a walk that has not ended in [fuel] phases. *)
Fixpoint walk (fuel : nat) (ctx : Context) (m : Machine string RunState) (r : MigrationRecord)
    (st : RunState) : option (string * RunState * error_of migrate_error) :=
  let current := CurrentState m in
  if Terminal current then Some (current, st, None)
  else
    match nextPhase current with
    | None => Some (current, st, None)
    | Some next =>
        match fuel with
        | O => None
        | S fuel =>
            match TransitionTo run_clock m st ctx next with
            | (m, st, TransitionErr err) =>
                match Save store (rs_world st) (with_snapshot r (TakeSnapshot m) (rs_Step st)) with
                | (w, Err save) =>
                    Some (CurrentState m, set_world st w, Some (ErrPhaseAndStore err save))
                | (w, Ok _) => Some (CurrentState m, set_world st w, Some (ErrPhase err))
                end
            | (m, st, TransitionPanic) => Some (CurrentState m, st, Some ErrPanic)
            | (m, st, TransitionDone) =>
                let st := set_Step st "" in
                match Save store (rs_world st) (with_snapshot r (TakeSnapshot m) "") with
                | (w, Err err) => Some (CurrentState m, set_world st w, Some (ErrStore err))
                | (w, Ok r) => walk fuel ctx m r (set_world st w)
                end
            end
        end
    end.

(** [Migration.Run]. *)
Definition Run (ctx : Context) (st : RunState) : option (RunState * error_of migrate_error) :=
  match Load store (rs_world st) with
  | Err err => Some (st, Some (ErrStore err))
  | Ok loaded =>
      let r := default (mkRecord (mkSnapshot PhasePending zero_time) "" None "" "") loaded in
      let st := set_Step st (rec_Step r) in
      match NewFromSnapshot "" ctx (MigrateGraph migration_hooks) (rec_Snapshot r)
              (run_clock st) with
      | Err err => Some (st, Some (ErrRecordedPhase err))
      | Ok m =>
          match walk (length MigratePhases) ctx m r st with
          | None => None
          | Some (_, st, Some err) => Some (st, Some err)
          | Some (current, st, None) =>
              if String.eqb current PhaseCompleted then
                match Delete store (rs_world st) with
                | (w, Some err) => Some (set_world st w, Some (ErrStore err))
                | (w, None) => Some (set_world st w, None)
                end
              else Some (st, None)
          end
      end
  end.

(** ** What a walk does *)

(** The phases a run entered, as it announced them. *)
Definition entered (st : @RunState W) : list string :=
  omap (fun e => match e with EvPhase phase _ => Some phase | _ => None end) (rs_report st).

Lemma entered_report st e :
  entered (report st e) = (entered st ++ match e with EvPhase p _ => [p] | _ => [] end)%list.
Proof using Type. unfold entered. simpl. rewrite omap_app. by destruct e. Qed.

Lemma apply_subjects_entered step subjects changed finished st st' r :
  apply_subjects scope step subjects changed finished st = (st', r) -> entered st' = entered st.
Proof using Type.
  revert changed finished st. induction subjects as [|s subjects IH];
    intros changed finished st E; simpl in E; [by injection E as <- _|].
  destruct (step_Describe step (rs_world st) s) as [[a|]|err]; [| |by injection E as <- _].
  - destruct (opt_DryRun (sc_Options scope)).
    { apply IH in E. by rewrite E, entered_report, app_nil_r. }
    destruct (step_Validate step (rs_world st) s); [by injection E as <- _|].
    destruct (step_Apply step (rs_world st) s) as [w' [err|]].
    { injection E as <- _. unfold entered. simpl. by rewrite omap_app, app_nil_r. }
    destruct (step_Verify step w' s).
    { injection E as <- _. unfold entered. simpl. by rewrite omap_app, app_nil_r. }
    apply IH in E. rewrite E. unfold entered. simpl. by rewrite omap_app, app_nil_r.
  - destruct (step_Done step (rs_world st) s); [by apply IH in E|by injection E as <- _].
Qed.

Lemma apply_entered step st : entered (Apply scope step st).1 = entered st.
Proof using Type.
  unfold Apply, stepFailed. simpl. destruct (SubjectsFor scope (rs_world st) step) as [subjects|e];
    simpl; [|by rewrite !entered_report, !app_nil_r].
  destruct (apply_subjects scope step subjects 0 0 _) as [st1 r] eqn:A.
  apply apply_subjects_entered in A. rewrite !entered_report, !app_nil_r in A.
  destruct r as [[c f]|e]; simpl; [|by rewrite entered_report, app_nil_r].
  repeat case_match; by rewrite entered_report, app_nil_r.
Qed.

Lemma apply_named_entered step st : entered (apply_named step st) = entered st.
Proof using Type.
  unfold apply_named. pose proof (apply_entered step (set_Step st (step_ID step))) as Ha.
  by destruct (Apply scope step (set_Step st (step_ID step))) as [st1 e].
Qed.

Lemma phase_steps_run m st to steps m' st' r :
  run_hook run_clock m st (phase_steps to steps) = (m', st', r) ->
  m' = m /\ entered st' = entered st /\ r <> HookPanicked.
Proof using Type.
  revert st. induction steps as [|step steps IH]; intros st E; simpl in E.
  { by injection E as <- <- <-. }
  pose proof (apply_named_entered step st) as Hn.
  destruct (rs_err (apply_named step st)); simpl in E.
  - injection E as <- <- <-. by rewrite Hn.
  - apply IH in E as (-> & -> & Hr). by rewrite Hn.
Qed.

Lemma phaseHook_run m st ctx from to m' st' r :
  run_hook run_clock m st (phaseHook ctx from to) = (m', st', r) ->
  m' = m /\ r <> HookPanicked /\
  (entered st' = (entered st ++ [to])%list \/ (entered st' = entered st /\ forall d, r <> HookOk d)).
Proof using Type.
  unfold phaseHook. destruct (StepsInPhase catalog to (sc_Options scope)) as [steps|e];
    simpl; intros E.
  - apply phase_steps_run in E as (-> & He & Hr). rewrite entered_report in He. auto.
  - injection E as <- <- <-. auto.
Qed.

Lemma phases_nodup : NoDup MigratePhases.
Proof using Type. apply (bool_decide_eq_true_1 _). vm_compute. reflexivity. Qed.

Lemma next_in_split pre p rest :
  NoDup (pre ++ p :: rest) -> next_in (pre ++ p :: rest) p = head rest.
Proof using Type.
  induction pre as [|q pre IH]; intros Hnd; simpl.
  - destruct rest; [done|]. by rewrite String.eqb_refl.
  - simpl in Hnd. apply NoDup_cons in Hnd as [Hq Hnd]. rewrite IH by done.
    destruct (pre ++ p :: rest)%list as [|x l] eqn:E; [by destruct pre|].
    destruct (String.eqb_spec q p) as [->|]; [|done].
    destruct Hq. rewrite <- E. apply elem_of_app. right. left.
Qed.

Lemma hooks_lookup phase :
  phase ∈ MigratePhases ->
  migration_hooks !! phase = if hooked phase then Some phaseHook else None.
Proof using Type.
  intros Hin. unfold migration_hooks.
  assert (Hfst : ((fun phase => (phase, phaseHook)) <$> List.filter hooked MigratePhases).*1 =
    List.filter hooked MigratePhases).
  { rewrite <- list_fmap_compose. apply list_fmap_id. }
  destruct (hooked phase) eqn:Hh.
  - apply elem_of_list_to_map_1.
    + rewrite Hfst. apply NoDup_ListNoDup, List.NoDup_filter, NoDup_ListNoDup, phases_nodup.
    + apply list_elem_of_fmap. exists phase. split; [done|].
      apply list_elem_of_In, filter_In. by rewrite <- list_elem_of_In.
  - apply not_elem_of_list_to_map_1. rewrite Hfst. intros Hx.
    apply list_elem_of_In, filter_In in Hx as [_ Hx]. congruence.
Qed.

Lemma graph_lookup pre p rest :
  MigratePhases = (pre ++ p :: rest)%list ->
  States (MigrateGraph migration_hooks) !! p =
  Some (mkStateDef (match rest with next :: _ => [next; PhaseFailed] | [] => [] end) false
    (migration_hooks !! p)).
Proof using Type.
  intros Hsplit.
  assert (Hp : MigratePhases !! length pre = Some p) by (rewrite Hsplit; by apply list_lookup_middle).
  assert (Hnext : MigratePhases !! S (length pre) = head rest).
  { rewrite Hsplit, lookup_app_r by lia. replace (S (length pre) - length pre) with 1 by lia.
    by destruct rest. }
  assert (Hne : p <> PhaseFailed).
  { intros ->. assert (Hf : PhaseFailed ∈ MigratePhases) by (by eapply list_elem_of_lookup_2).
    revert Hf. apply (bool_decide_eq_false_1 _). vm_compute. reflexivity. }
  unfold MigrateGraph. cbn [States]. rewrite lookup_insert_ne by done.
  apply elem_of_list_to_map_1.
  - assert (Hfst : (imap (phase_def migration_hooks) MigratePhases).*1 = MigratePhases) by done.
    rewrite Hfst. apply phases_nodup.
  - apply list_elem_of_lookup. exists (length pre). rewrite list_lookup_imap, Hp. simpl fmap.
    unfold phase_def. rewrite Hnext. by destruct rest.
Qed.

Lemma graph_states s def :
  States (MigrateGraph migration_hooks) !! s = Some def ->
  s = PhaseFailed /\ To def = [] \/
  exists pre rest, MigratePhases = (pre ++ s :: rest)%list.
Proof using Type.
  unfold MigrateGraph. cbn [States]. destruct (decide (s = PhaseFailed)) as [->|Hne].
  - rewrite lookup_insert_eq. intros [= <-]. by left.
  - rewrite lookup_insert_ne by done. intros Hin%elem_of_list_to_map_2. right.
    apply list_elem_of_lookup in Hin as [i Hi]. rewrite list_lookup_imap in Hi.
    destruct (MigratePhases !! i) as [q|] eqn:Eq; [|done]. simpl in Hi. injection Hi as Hq _.
    rewrite <- Hq. exists (take i MigratePhases), (drop (S i) MigratePhases).
    symmetry. by apply take_drop_middle.
Qed.

Lemma graph_valid : validate (MigrateGraph migration_hooks) = None.
Proof using Type.
  apply validate_None. split.
  - exists (mkStateDef [PhaseValidating; PhaseFailed] false (migration_hooks !! PhasePending)).
    by apply (graph_lookup [] PhasePending (tail MigratePhases)).
  - intros s def to Hs Hto. destruct (graph_states s def Hs) as [[_ Hd]|(pre & rest & Hsplit)].
    { rewrite Hd in Hto. by apply not_elem_of_nil in Hto. }
    rewrite (graph_lookup pre s rest Hsplit) in Hs. injection Hs as <-. simpl in Hto.
    destruct rest as [|next rest]; [by apply not_elem_of_nil in Hto|].
    apply elem_of_cons in Hto as [->|Hto].
    + rewrite (graph_lookup (pre ++ [s]) next rest); [by eexists|].
      by rewrite <- app_assoc.
    + apply list_elem_of_singleton in Hto as ->. unfold MigrateGraph. cbn [States].
      rewrite lookup_insert_eq. by eexists.
Qed.

Abbreviation the_graph := (MigrateGraph migration_hooks) (only parsing).

(** One transition of a walk, from a phase to the next. *)
Lemma walk_transition m st ctx pre p next rest m' st' r :
  MigratePhases = (pre ++ p :: next :: rest)%list ->
  machine_ok the_graph m -> CurrentState m = p ->
  TransitionTo run_clock m st ctx next = (m', st', r) ->
  match r with
  | TransitionDone => CurrentState m' = next /\
      entered st' = (entered st ++ List.filter hooked [next])%list
  | TransitionErr _ => CurrentState m' = p /\
      (entered st' = entered st \/ entered st' = (entered st ++ List.filter hooked [next])%list)
  | TransitionPanic => False
  end.
Proof using Type.
  intros Hsplit (Hs & Hi & He & Hc) Hp E. unfold CurrentState in *.
  assert (Hnext : States the_graph !! next = Some (mkStateDef
    (match rest with n :: _ => [n; PhaseFailed] | [] => [] end) false (migration_hooks !! next))).
  { apply (graph_lookup (pre ++ [p])). by rewrite <- app_assoc. }
  assert (Hhook : migration_hooks !! next = if hooked next then Some phaseHook else None).
  { apply hooks_lookup. rewrite Hsplit. apply elem_of_app. right. right. left. }
  unfold TransitionTo in E. destruct (transition_guard m next (run_clock st)).
  { injection E as <- <- <-. auto. }
  rewrite Hp, Hs, (graph_lookup pre p (next :: rest) Hsplit) in E. cbn [To] in E.
  assert (Hcont : contains [next; PhaseFailed] next = true) by (apply contains_true; left).
  rewrite Hcont in E. unfold enter in E. rewrite Hs, Hnext in E. simpl in E.
  rewrite Hhook in E. cbn [List.filter] in *. destruct (hooked next); simpl in E.
  - destruct (run_hook run_clock _ st (phaseHook ctx p next)) as [[m1 st1] r1] eqn:Er.
    apply phaseHook_run in Er as (-> & Hr & Hent).
    destruct r1; [|injection E as <- <- <-|done].
    + injection E as <- <- <-. split; [done|]. destruct Hent as [Hent|[_ Hno]]; [done|].
      by destruct (Hno timeout0).
    + simpl. rewrite Hp. split; [done|]. destruct Hent as [?|[? _]]; auto.
  - injection E as <- <- <-. by rewrite app_nil_r.
Qed.


Context (position : W -> option string) `{laws : !StoreLaws store position}.


Lemma terminal_last pre p rest :
  MigratePhases = (pre ++ p :: rest)%list -> Terminal p = bool_decide (rest = []).
Proof using Type.
  intros Hsplit. destruct rest as [|x rest].
  - rewrite bool_decide_true by done. apply (f_equal last) in Hsplit.
    rewrite last_snoc in Hsplit. simpl in Hsplit. by injection Hsplit as <-.
  - rewrite bool_decide_false by done.
    assert (Hall : Forall (fun q => Terminal q = false) (removelast MigratePhases))
      by (repeat constructor).
    rewrite Hsplit, removelast_app in Hall by done.
    apply Forall_app in Hall as [_ Hall]. by inversion Hall.
Qed.


(** Where a run starts walking. *)
Lemma run_start (ctx : Context) (st : RunState) (loaded : option MigrationRecord)
    (pre rest : list string) (p : string) :
  Load store (rs_world st) = Ok loaded ->
  p = default PhasePending ((fun r => snap_State (rec_Snapshot r)) <$> loaded) ->
  MigratePhases = (pre ++ p :: rest)%list ->
  exists m r s0, machine_ok the_graph m /\ CurrentState m = p /\ entered s0 = entered st /\
    Run ctx st =
      match walk (length MigratePhases) ctx m r s0 with
      | None => None
      | Some (_, st, Some err) => Some (st, Some err)
      | Some (current, st, None) =>
          if String.eqb current PhaseCompleted then
            match Delete store (rs_world st) with
            | (w, Some err) => Some (set_world st w, Some (ErrStore err))
            | (w, None) => Some (set_world st w, None)
            end
          else Some (st, None)
      end.
Proof using Type.
  intros Hload Hp Hsplit. unfold Run. rewrite Hload.
  set (r := default (mkRecord (mkSnapshot PhasePending zero_time) "" None "" "") loaded).
  assert (Hstate : snap_State (rec_Snapshot r) = p) by (unfold r; by destruct loaded).
  unfold NewFromSnapshot, New. rewrite graph_valid. unfold restoreOrStart. cbn [m_states].
  rewrite Hstate, (graph_lookup pre p rest Hsplit). unfold Restore.
  cbn [m_entering m_states]. rewrite Hstate, (graph_lookup pre p rest Hsplit).
  match goal with |- context [walk _ ctx ?m r ?s] => set (m0 := m); set (s0 := s) end.
  exists m0, r, s0. split; [|done]. unfold m0, machine_ok, armAt, rearm, set_current.
  cbn [m_states m_initial m_entering m_current]. rewrite (graph_lookup pre p rest Hsplit).
  split; [done|]. split; [done|]. split; [done|]. by eexists.
Qed.


(** A store that refuses every write: the one a dry run is given. *)
Definition read_only (store : RecordStore W) : Prop :=
  forall w r, exists err, Save store w r = (w, Err err).

Lemma read_only_walk fuel ctx m r st pre p next rest :
  read_only store -> MigratePhases = (pre ++ p :: next :: rest)%list ->
  length (next :: rest) <= fuel ->
  machine_ok the_graph m -> CurrentState m = p ->
  exists current st' err, walk fuel ctx m r st = Some (current, st', Some err) /\
    (entered st' = entered st \/ entered st' = (entered st ++ List.filter hooked [next])%list).
Proof using Type.
  intros Hro Hsplit Hfuel Hok Hp. destruct fuel as [|fuel]; [simpl in Hfuel; lia|]. simpl.
  rewrite Hp, (terminal_last _ _ _ Hsplit), bool_decide_false by done.
  assert (Hnx : nextPhase p = Some next).
  { unfold nextPhase. rewrite Hsplit. apply (next_in_split pre p (next :: rest)).
    rewrite <- Hsplit. apply phases_nodup. }
  rewrite Hnx. destruct (TransitionTo run_clock m st ctx next) as [[m1 st1] tr] eqn:E.
  pose proof (walk_transition _ _ _ _ _ _ _ _ _ _ Hsplit Hok Hp E) as Ht.
  destruct tr as [|err|]; [| |done];
    match goal with |- context [Save store ?a ?b] =>
      destruct (Hro a b) as [e He]; rewrite He end;
    (eexists _, _, _; split; [done|]).
  - right. apply Ht.
  - destruct Ht as [_ [?|?]]; auto.
Qed.

(** Against a store that refuses writes, which is what a dry run is given,
    a migration that has not begun ends in an error after its first phase: a dry
    run never shows what the later phases would do. *)
Theorem read_only_run_stops (ctx : Context) (st : RunState) :
  read_only store -> Load store (rs_world st) = Ok None ->
  exists st' err, Run ctx st = Some (st', Some err) /\
    (entered st' = entered st \/ entered st' = (entered st ++ [PhaseValidating])%list).
Proof using Type.
  intros Hro Hload.
  destruct (run_start ctx st None [] (tail MigratePhases) PhasePending Hload eq_refl eq_refl)
    as (m & r & s0 & Hok & Hm & Hs0 & ->).
  destruct (read_only_walk (length MigratePhases) ctx m r s0 [] PhasePending PhaseValidating
    (tail (tail MigratePhases)) Hro eq_refl) as (current & st' & err & -> & Hent);
    [simpl; lia|done|done|].
  exists st', err. split; [done|]. rewrite Hs0 in Hent. exact Hent.
Qed.

End Migration.

(** ** Concrete migrations *)

Module Migrations.

Import Cases.

(** The cluster of [Cases], with the record held in memory beside it. *)
Abbreviation marks := (list string).
Definition cluster : Type := marks * option MigrationRecord.

Definition memory : RecordStore cluster :=
  mkStore (fun w => Ok w.2) (fun w r => ((w.1, Some r), Ok r)) (fun w => ((w.1, None), None)).

Definition read_only_store : RecordStore cluster :=
  mkStore (fun w => Ok w.2) (fun w r => (w, Err "create: this stage is read-only"))
    (fun w => (w, Some "delete: this stage is read-only")).

Definition in_memory (w : cluster) : option string :=
  (fun r => snap_State (rec_Snapshot r)) <$> w.2.

#[export] Instance memory_laws : StoreLaws memory in_memory.
Proof.
  split; simpl.
  - intros w r [= <-]. done.
  - intros w r w' r' [= <- <-]. done.
  - intros w w' [= <-]. done.
Qed.

Definition mscope (dry : bool) : @Scope cluster :=
  mkScope (fun _ => NewGraph) (fun _ => Hour) "prod" (mkOptions dry []) (fun _ => None)
    (fun k => gvk_Kind k) (fun s => s).

(** A step that leaves its mark, or refuses. *)
Definition mmark (id phase : string) (blocked : option string) : @Step cluster :=
  mkStep id id StageMigrate phase [] blocked None
    (fun w s => Ok (if negb (contains w.1 id) then Some (action id) else None))
    (fun w s => Ok (contains w.1 id)) (fun _ _ => None)
    (fun w _ => match blocked with
                | None => ((id :: w.1, w.2), None)
                | Some reason => (w, Some reason)
                end)
    (fun w _ => if contains w.1 id then None else Some "missing").

Definition mcatalog (steps : list (@Step cluster)) : @Catalog cluster :=
  mkCatalog (NewRegistry "discoverers") (NewRegistry "checks") (NewRegistry "derivations")
    (Register (NewRegistry "steps") steps).1 (NewRegistry "transformations").

Definition copying : @Step cluster := mmark "copy-kinds" PhaseTransforming None.
Definition retiring : @Step cluster := mmark "retire-owners" PhaseDeleting (Some "no target type").

Definition start (r : option MigrationRecord) : @RunState cluster := mkRun ([], r) [] "" None.


Lemma read_only_run_stops_witness :
  exists st' err,
    Run (mscope true) (mcatalog [copying]) read_only_store None Background (start None) =
      Some (st', Some err).
Proof.
  destruct (read_only_run_stops (mscope true) (mcatalog [copying]) read_only_store None
    Background (start None)) as (st' & err & H & _).
  - intros w r. eexists. reflexivity.
  - reflexivity.
  - exists st', err. exact H.
Defined.

(** A migration starts what this build cannot finish: with a step of a later
    phase that is described and not implemented, the stage as such is refused
    untouched, and yet the walk performs the earlier phases and stops in the
    middle, its record behind it. *)
Theorem migration_starts_what_it_cannot_finish :
  let scope := mscope false in
  let catalog := mcatalog [copying; retiring] in
  rs_world (ApplyAll scope catalog StageMigrate (start None)).1 = ([], None) /\
  is_Some (ApplyAll scope catalog StageMigrate (start None)).2 /\
  exists st' err, Run scope catalog memory None Background (start None) =
      Some (st', Some (ErrPhase err)) /\
    (rs_world st').1 = ["copy-kinds"] /\ in_memory (rs_world st') = Some PhaseHandles.
Proof.
  intros scope catalog. split; [vm_compute; reflexivity|]. split; [vm_compute; by eexists|].
  eexists _, _. split; [vm_compute; reflexivity|]. split; vm_compute; reflexivity.
Qed.

(** *** A ConfigMap in memory *)

Definition config_map : Type := option (string * gmap string string).

Definition cm_get (w : config_map) : cm_read :=
  match w with Some (v, d) => CMFound v d | None => CMNotFound end.
Definition cm_create (w : config_map) (d : gmap string string) : config_map * res string string :=
  match w with
  | None => (Some ("1", d), Ok "1")
  | Some _ => (w, Err "exists")
  end.
Definition cm_update (w : config_map) (rv : string) (d : gmap string string)
    : config_map * res string string :=
  match w with
  | Some (v, _) =>
      if String.eqb v rv then (Some (v ++ "'", d), Ok (v ++ "'")) else (w, Err "conflict")
  | None => (w, Err "not found")
  end.
Definition cm_delete_it (w : config_map) : config_map * cm_delete :=
  match w with Some _ => (None, CMDeleted) | None => (None, CMGone) end.

Lemma config_map_laws : client_laws cm_get cm_create cm_update cm_delete_it.
Proof.
  split.
  - intros [[v0 d0]|] d w' v E; simpl in E; by simplify_eq.
  - intros [[v0 d0]|] rv d w' v E; simpl in E; [|done].
    destruct (String.eqb v0 rv); by simplify_eq.
  - intros [[v0 d0]|] rv d v d' E Hne; simpl in *; simplify_eq.
    destruct (String.eqb_spec v rv); [done|]. by eexists.
  - intros [[v0 d0]|] w' r E; simpl in E; by simplify_eq.
Qed.

Definition instant : Time := 1500000000%Z.
Definition marshal_time (t : Time) : res string string :=
  if Z.eqb t instant then Ok (double_quote ++ "1s" ++ double_quote) else Err "range".
Definition unmarshal_time (raw : string) : res string Time := Ok Second.
Definition marshal_att (a : PreflightAttestation) : res string string := Err "none".
Definition unmarshal_att (raw : string) : res string PreflightAttestation := Err "none".

Lemma instant_laws : encoding_laws marshal_time unmarshal_time marshal_att unmarshal_att.
Proof.
  split; [|done]. intros t enc E. unfold marshal_time in E.
  destruct (Z.eqb_spec t instant) as [->|]; [|done]. injection E as <-.
  exists "1s". split; [done|]. split; [done|]. vm_compute. reflexivity.
Qed.

Definition stopped : MigrationRecord :=
  mkRecord (mkSnapshot PhaseOwnership instant) "reparent" None "{}" "".

Lemma record_roundtrip_witness :
  let save := cm_Save cm_create cm_update marshal_time marshal_att in
  cm_Load cm_get unmarshal_time unmarshal_att (save None stopped).1 =
    Ok (Some (at_seconds stopped "1")).
Proof.
  intros save.
  apply (record_roundtrip cm_get cm_create cm_update cm_delete_it marshal_time unmarshal_time
    marshal_att unmarshal_att config_map_laws instant_laws None (save None stopped).1 stopped
    (with_version stopped "1")).
  vm_compute. reflexivity.
Defined.

End Migrations.
