(* ===== verification/Admission.v ===== *)
(** What is admitted to the cluster ([operator/internal/webhook]).

    The validators of the operation kinds: their DELETE guards, which refuse to
    withdraw the record of work that cannot be stopped, and their CREATE guards,
    which resolve what an operation names.  The DELETE guards are held against
    the graphs of [OpsGraphs], and the volume guards read handles as [Handles]
    does. *)

From Stdlib Require Import Ascii String.
From S2P Require Import Prelude StateMachine OpsGraphs GoStrings Handles.

#[local] Open Scope string_scope.

(** ** Requests and answers *)

Inductive response :=
| Allowed (reason : string)
| Denied (message : string)
| Errored (code : Z) (err : string).

Definition StatusBadRequest : Z := 400.
Definition StatusInternalServerError : Z := 500.

(** The raw object of a request, and what [json.Unmarshal] makes of it. *)
Inductive raw (A : Type) :=
| RawEmpty
| RawBad (err : string)
| RawOk (a : A).
Arguments RawEmpty {A}.
Arguments RawBad {A}.
Arguments RawOk {A}.

Definition Unmarshal {A} (r : raw A) : res string A :=
  match r with
  | RawEmpty => Err "unexpected end of JSON input"
  | RawBad err => Err err
  | RawOk a => Ok a
  end.

Inductive operation := Create | Update | Delete | Connect.

(** What a read through the client answers. *)
Inductive read (A : Type) :=
| Found (a : A)
| NotFound
| ReadError (err : string).
Arguments Found {A}.
Arguments NotFound {A}.
Arguments ReadError {A}.

(** ** The objects, as far as the guards read them *)

(** The stretched-cluster block of a cluster: role, site and peer site. *)
Record Stretched := mkStretched { st_Role : string; st_Site : string; st_PeerSite : string }.

Record StorageCluster := mkCluster {
  cl_Namespace : string;
  cl_Name : string;
  cl_UUID : string;
  cl_Stretched : option Stretched;
  cl_SuperclusterRef : string;
  cl_DisablePlacement : option bool;
}.

(** A node's stretched block holds whether the node is the other site's. *)
Record StorageNode := mkNode {
  nd_Namespace : string;
  nd_Name : string;
  nd_ClusterRef : string;
  nd_Site : string;
  nd_Stretched : option bool;
}.

Record CSI := mkCSI {
  csi_Driver : string;
  csi_FSType : string;
  csi_VolumeHandle : string;
  csi_VolumeAttributes : gmap string string;
}.

Record PersistentVolume := mkPV {
  pv_CSI : option CSI;
  pv_ClaimRef : option (string * string);
}.

Record StorageDevice := mkDevice { dv_Name : string; dv_NodeRef : string }.

(** [NamespacedReference], and [In]: an empty namespace is the holder's. *)
Record NamespacedReference := mkNsRef { nr_Name : string; nr_Namespace : string }.
Definition In (r : NamespacedReference) (defaultNamespace : string) : string * string :=
  (if String.eqb (nr_Namespace r) "" then defaultNamespace else nr_Namespace r, nr_Name r).

(** [IsStretchedFollower], [IsRemote] and [IsClusterWide]. *)
Definition StretchedRoleFollower : string := "Follower".
Definition IsStretchedFollower (c : StorageCluster) : bool :=
  match cl_Stretched c with
  | Some s => String.eqb (st_Role s) StretchedRoleFollower
  | None => false
  end.
Definition IsRemote (n : StorageNode) : bool :=
  match nd_Stretched n with Some remote => remote | None => false end.
Definition IsClusterWide (a : string) : bool :=
  contains ["Activate"; "Expand"; "Shutdown"; "Start"; "Restart"; "RollingRestart"] a.

Definition BoolFromOrFalse (p : option bool) : bool :=
  match p with Some b => b | None => false end.

(** The attributes of one access review. *)
Record need := mkNeed {
  nd_verb : string;
  nd_resource : string;
  nd_namespace : string;
  nd_name : string;
}.

#[export] Instance need_eq_dec : EqDecision need.
Proof. solve_decision. Defined.

(** The client, the access reviews, and the user they are about. *)
Record Client := mkClient {
  get_node : string -> string -> read StorageNode;
  get_device : string -> string -> read StorageDevice;
  get_cluster : string -> string -> read StorageCluster;
  list_clusters : res string (list StorageCluster);
  get_volume : string -> read PersistentVolume;
  get_claim_labels : string -> string -> read (gmap string string);
  list_driver_names : res string (list string);
  get_controlplane_local : string -> string -> read bool;
  get_backup_phase : string -> string -> read string;
  get_groupbackup_phase : string -> string -> read string;
  list_group_members : string -> string -> res string (list (string * string));
  get_pool : string -> string -> read unit;
  access_Allowed : need -> res string bool;
}.

(** ** DELETE guards *)

Definition lookup_step (table : list (string * string)) (step : string) : option string :=
  snd <$> find_first (fun row => String.eqb row.1 step) table.

Definition terminal_phase (phase : string) : bool :=
  contains ["Succeeded"; "Failed"; "Aborted"] phase.

(** The guard each kind's [admitDelete] is: nothing to read and a finished
    operation are let go, and a step in the table is refused with its reason. *)
Definition delete_guard {A} (phase step : A -> string) (table : list (string * string))
    (refusal : A -> string -> string) (old : raw A) : response :=
  match old with
  | RawEmpty => Allowed ""
  | _ =>
      match Unmarshal old with
      | Err err => Errored StatusBadRequest err
      | Ok ops =>
          if terminal_phase (phase ops) then Allowed "the operation is terminal"
          else
            match lookup_step table (step ops) with
            | None => Allowed ""
            | Some doing => Denied (refusal ops doing)
            end
      end
  end.

Record NodeOps := mkNodeOps {
  no_Namespace : string; no_Name : string; no_NodeRef : string;
  no_Phase : string; no_Step : string;
}.

Definition undeletableNodeSteps : list (string * string) := [
  ("Departing",
   "the control plane has accepted the "
     ++ "restart and is carrying it out whether or not this record exists");
  ("Awaiting",
   "the control plane is carrying out the "
     ++ "action, and it is doing so whether or not this record exists");
  ("MigratingDevices",
   "the control plane is rebuilding the "
     ++ "node's devices onto its peers, and there is no way back from the removal");
  ("MigratingVolumes",
   "the node is shut down and its "
     ++ "volumes are moving off it, and there is no way back from the removal");
  ("Verifying",
   "the node is shut down and being "
     ++ "emptied, and there is no way back from the removal");
  ("Removing",
   "the node is being taken out of the cluster");
  ("AwaitingRemoval",
   "the control plane is taking the "
     ++ "node apart, and this operation is the only thing watching the removal finish");
  ("Relocating",
   "the node is being restarted onto its "
     ++ "target host");
  ("AwaitingNode",
   "the node is part-way through that "
     ++ "restart and this operation is the only thing watching it back");
  ("Promoting",
   "the promote has activated the target "
     ++ "host's devices, failed the origin's, and re-homed the logical volumes, so the topology "
     ++ "re-point is all that is left and this record is what carries it");
  ("ShuttingDown",
   "the node is being taken down, for host "
     ++ "maintenance or for its removal");
  ("Releasing",
   "the host is being handed over for "
     ++ "maintenance");
  ("AwaitingHost",
   "the host is away, and this operation "
     ++ "is the only thing that will bring the node back from it");
  ("Restarting",
   "the node is coming back from the "
     ++ "maintenance shutdown");
  ("Cleanup",
   "the labels and the disruption budget the "
     ++ "maintenance put in place are being taken back")].

Definition node_refusal (ops : NodeOps) (doing : string) : string :=
  "StorageNodeOps " ++ no_Namespace ops ++ "/" ++ no_Name ops ++ " is at step " ++
  no_Step ops ++ ", where " ++ doing ++ ". Deleting the record would not stop that " ++
  "work, it would remove the only thing accounting for it and leave node " ++ no_NodeRef ops ++
  " locked by " ++
  "an object that no longer exists. Set spec.abort to stop an operation that can still " ++
  "be stopped, and delete the record once it is terminal.".

Definition node_admitDelete : raw NodeOps -> response :=
  delete_guard no_Phase no_Step undeletableNodeSteps node_refusal.

Record ClusterOps := mkClusterOps {
  co_Namespace : string; co_Name : string; co_Action : string; co_ClusterRef : string;
  co_Phase : string; co_Step : string;
}.

Definition undeletableClusterSteps : list (string * string) := [
  ("Awaiting",
   "the cluster is carrying out the action, "
     ++ "and it is doing so whether or not this record exists");
  ("ShuttingDown",
   "the cluster is going down, and the "
     ++ "start that follows is this operation's second half");
  ("Starting",
   "the cluster is coming back from the "
     ++ "shutdown this operation performed");
  ("ShuttingDownNode",
   "a storage node is being taken "
     ++ "offline, and this walk is the only thing that will bring it back");
  ("RefreshingPod",
   "the node is offline and its "
     ++ "storage-node pod is being replaced");
  ("AwaitingPod",
   "the node is offline and its "
     ++ "replacement pod is still coming up");
  ("RestartingNode",
   "the node is offline and is being "
     ++ "brought back from the shutdown this walk performed")].

Definition cluster_refusal (ops : ClusterOps) (doing : string) : string :=
  "StorageClusterOps " ++ co_Namespace ops ++ "/" ++ co_Name ops ++ " is at step " ++
  co_Step ops ++ ", where " ++ doing ++ ". Deleting the record would not stop " ++
  "that work, it would remove the only thing accounting for it and leave cluster " ++
  co_ClusterRef ops ++ " " ++
  "locked by an object that no longer exists. Set spec.abort to stop an operation that " ++
  "can still be stopped, and delete the record once it is terminal.".

Definition cluster_admitDelete : raw ClusterOps -> response :=
  delete_guard co_Phase co_Step undeletableClusterSteps cluster_refusal.

(** A block that may be absent is an option; [cp_Upgrade] is its image and
    [cp_Backup] its blob store. *)
Record ControlPlaneOps := mkControlPlaneOps {
  cp_Namespace : string; cp_Name : string; cp_Action : string; cp_ControlPlaneRef : string;
  cp_Upgrade : option string; cp_Backup : option string;
  cp_Phase : string; cp_Step : string;
}.

Definition undeletableControlPlaneSteps : list (string * string) := [
  ("Restarting",
   "the workloads are being restarted");
  ("Applying",
   "the new image is being written onto the control plane");
  ("Awaiting",
   "the restarted workloads are still coming back");
  ("Verifying",
   "the rollout is being checked against the version it asked for")].

Definition controlplane_refusal (ops : ControlPlaneOps) (doing : string) : string :=
  "ControlPlaneOps " ++ cp_Namespace ops ++ "/" ++ cp_Name ops ++ " is at step " ++
  cp_Step ops ++ ", where " ++ doing ++ ". Deleting the record would not stop that " ++
  "work, it would release the control plane's lock while it is still moving and let the " ++
  "next operation start against a half-applied one. Wait for it to finish, then delete " ++
  "the record.".

Definition controlplane_admitDelete : raw ControlPlaneOps -> response :=
  delete_guard cp_Phase cp_Step undeletableControlPlaneSteps controlplane_refusal.

(** [vo_Migrate] is the target node's namespace and name, [vo_Relocate] the
    target cluster. *)
Record VolumeOps := mkVolumeOps {
  vo_Name : string; vo_Action : string; vo_PersistentVolumeName : string;
  vo_Migrate : option (string * string); vo_Relocate : option string;
  vo_Phase : string; vo_Step : string;
}.

Definition committedRelocation : string :=
  "the move is committed: the control plane cuts the volumes over and " ++
  "deletes their sources whatever happens to this operation, and the operation is what " ++
  "connects the target's paths on the consuming nodes and records where the volumes went".

Definition undeletableVolumeSteps : list (string * string) := [
  ("Verifying",
   "the copy has finished and the volume "
     ++ "has already moved, so what is left is the cleanup that makes the move safe: the "
     ++ "validation Jobs and the paths they connected on every consuming host");
  ("Committing",
   committedRelocation);
  ("AwaitingCutover",
   committedRelocation);
  ("AttachingPaths",
   committedRelocation);
  ("Proceeding",
   committedRelocation)].

Definition volume_refusal (ops : VolumeOps) (doing : string) : string :=
  "PersistentVolumeOps " ++ vo_Name ops ++ " is at step " ++ vo_Step ops ++ ", where " ++
  doing ++ ". Deleting the record would not undo the " ++
  "move, it would remove the only thing naming those paths, and a path left connected " ++
  "with nothing tracking it blocks every later migration of volume " ++
  vo_PersistentVolumeName ops ++ ". Set spec.abort " ++
  "to stop an operation that can still be stopped, and delete the record once it is " ++
  "terminal.".

Definition volume_admitDelete : raw VolumeOps -> response :=
  delete_guard vo_Phase vo_Step undeletableVolumeSteps volume_refusal.

(** [bo_Restore] is the target pool and the claim's name. *)
Record BackupOps := mkBackupOps {
  bo_Namespace : string; bo_Name : string; bo_Action : string;
  bo_Annotations : gmap string string;
  bo_ClusterRef : NamespacedReference; bo_BackupRef : NamespacedReference;
  bo_GroupBackupRef : NamespacedReference; bo_GroupBackupID : string;
  bo_Restore : option (string * string);
  bo_Phase : string; bo_Step : string;
}.

Definition undeletableSteps : list (string * string) := [
  ("Restoring",
   "the control plane may already have "
     ++ "accepted the restore, and this object is the only record of the volume it produced");
  ("AwaitingVolume",
   "the control plane is still filling the "
     ++ "restored volume");
  ("Binding",
   "the restored volume is being bound to its claim")].

Definition backup_refusal (ops : BackupOps) (waiting : string) : string :=
  "StorageBackupOps " ++ bo_Namespace ops ++ "/" ++ bo_Name ops ++ " is at step " ++
  bo_Step ops ++ ", where " ++ waiting ++ ". Deleting the record would not stop that work, " ++
  "it would remove the only account of it. Set spec.abort to stop an operation that can still " ++
  "be stopped, and delete the record once it is terminal.".

Definition backup_admitDelete : raw BackupOps -> response :=
  delete_guard bo_Phase bo_Step undeletableSteps backup_refusal.

(** ** CREATE guards *)

Section Create.

(** [strconv.Quote], and [uuid.Validate] as [ParseHandle] uses it. *)
Context (Quote : string -> string) (Validate : string -> bool).

(** [refuseRemoteNode]: a validator may hold no client. *)
Definition refuseRemoteNode (reader : option Client) (namespace nodeName what : string)
    : response :=
  match reader with
  | None => Allowed ""
  | Some c =>
      match get_node c namespace nodeName with
      | Found node =>
          if IsRemote node then
            Denied ("RemoteNode: " ++ what ++ " StorageNode " ++ nd_Name node ++
              " is refused: the node belongs to site " ++ nd_Site node ++
              " of a stretched cluster and " ++
              "is listed on this site from the control plane; run the operation on site " ++
              nd_Site node ++ ", whose operator " ++ "manages it")
          else Allowed ""
      | _ => Allowed ""
      end
  end.

Definition node_admitCreate (c : option Client) (object : raw NodeOps) : response :=
  match Unmarshal object with
  | Err err => Errored StatusBadRequest err
  | Ok ops => refuseRemoteNode c (no_Namespace ops) (no_NodeRef ops) "StorageNodeOps"
  end.

Definition node_Handle (c : option Client) (op : operation) (object old : raw NodeOps)
    : response :=
  match op with
  | Create => node_admitCreate c object
  | Delete => node_admitDelete old
  | _ => Allowed ""
  end.

(** [StorageDeviceOpsValidator.Handle]: the namespace and the device. *)
Definition device_Handle (reader : option Client) (object : raw (string * string)) : response :=
  match Unmarshal object with
  | Err err => Errored StatusBadRequest err
  | Ok (namespace, deviceRef) =>
      match reader with
      | None => Allowed ""
      | Some c =>
          match get_device c namespace deviceRef with
          | Found device =>
              refuseRemoteNode reader namespace (dv_NodeRef device)
                ("StorageDeviceOps on device " ++ dv_Name device ++ " of")
          | _ => Allowed ""
          end
      end
  end.

Definition cluster_admitCreate (reader : option Client) (object : raw ClusterOps) : response :=
  match Unmarshal object with
  | Err err => Errored StatusBadRequest err
  | Ok ops =>
      match IsClusterWide (co_Action ops), reader with
      | true, Some c =>
          match get_cluster c (co_Namespace ops) (co_ClusterRef ops) with
          | Found cluster =>
              match cl_Stretched cluster with
              | Some s =>
                  if IsStretchedFollower cluster then
                    Denied ("FollowerSite: StorageCluster " ++ cl_Name cluster ++
                      " is the follower site " ++ st_Site s ++
                      " of a stretched cluster, and " ++ co_Action ops ++ " acts on " ++
                      "the backend cluster as a whole; it runs on the leader site " ++
                      st_PeerSite s ++ ", whose operator owns the " ++
                      "cluster's cluster-wide operations")
                  else Allowed ""
              | None => Allowed ""
              end
          | _ => Allowed ""
          end
      | _, _ => Allowed ""
      end
  end.

Definition cluster_Handle (c : option Client) (op : operation) (object old : raw ClusterOps)
    : response :=
  match op with
  | Create => cluster_admitCreate c object
  | Delete => cluster_admitDelete old
  | _ => Allowed ""
  end.

Definition absent_or_empty (block : option string) : bool :=
  match block with Some v => String.eqb v "" | None => true end.

Definition actionBlockPresent (ops : ControlPlaneOps) : response :=
  if String.eqb (cp_Action ops) "Upgrade" then
    if absent_or_empty (cp_Upgrade ops)
    then Denied "action Upgrade needs spec.upgrade.image, which names the version to move to"
    else Allowed ""
  else if String.eqb (cp_Action ops) "Backup" then
    if absent_or_empty (cp_Backup ops)
    then Denied "action Backup needs spec.backup.blobStore, which names where the backup goes"
    else Allowed ""
  else Allowed "".

Definition controlplane_admitCreate (c : Client) (object : raw ControlPlaneOps) : response :=
  match Unmarshal object with
  | Err err => Errored StatusBadRequest err
  | Ok ops =>
      match get_controlplane_local c (cp_Namespace ops) (cp_ControlPlaneRef ops) with
      | NotFound =>
          Denied ("spec.controlPlaneRef " ++ Quote (cp_ControlPlaneRef ops) ++
            " does not name a ControlPlane in namespace " ++ Quote (cp_Namespace ops))
      | ReadError err => Errored StatusInternalServerError err
      | Found false =>
          Denied ("ControlPlane " ++ Quote (cp_ControlPlaneRef ops) ++
            " names a control plane this cluster does not host, and every " ++
            "action of this kind acts on something the operator installed: Restart restarts a " ++
            "workload, Upgrade replaces its image, and Backup asks the FoundationDBCluster the " ++
            "operator applied. A control plane elsewhere is an endpoint and a credential, so " ++
            "there is nothing here for any of them to act on.")
      | Found true => actionBlockPresent ops
      end
  end.

Definition controlplane_Handle (c : Client) (op : operation) (object old : raw ControlPlaneOps)
    : response :=
  match op with
  | Create => controlplane_admitCreate c object
  | Delete => controlplane_admitDelete old
  | _ => Allowed ""
  end.

(** *** Volume operations *)

Definition CSIDriverName : string := "csi.simplyblock.io".
Definition FSTypePNFS : string := "pnfs".
Definition ParamEncryption : string := "encryption".
Definition consistencyGroupLabel : string := "storage.simplyblock.io/consistency-group".
Definition ActionRelocate : string := "Relocate".

Definition IsPNFS (pv : PersistentVolume) : bool :=
  match pv_CSI pv with Some csi => String.eqb (csi_FSType csi) FSTypePNFS | None => false end.

Definition PNFSRefusal (name : string) : string :=
  "volume " ++ name ++ " is a pNFS volume. The metadata server and every client " ++
  "node hold their own paths to its namespace, and a migration accounts for " ++
  "neither, so it is not moved".

(** [driverNames]: the set as a list without repetition. *)
Definition driverNames (c : Client) : res string (list string) :=
  drivers <-- list_driver_names c ;;
  (let names := elements (list_to_set (C := gset string)
     (List.filter (fun name => negb (String.eqb name "")) drivers)) in
   Ok (match names with [] => [CSIDriverName] | _ => names end)).

Definition joined (names : list string) : string := String.concat ", " (sort_strings names).

(** A refusal or an error, or what the check found. *)
Definition denied {A} (message : string) : res response A := Err (Denied message).
Definition errored {A} (err : string) : res response A := Err (Errored StatusInternalServerError err).

Definition addressableVolume (c : Client) (ops : VolumeOps) : res response Handle :=
  let name := vo_PersistentVolumeName ops in
  match get_volume c name with
  | NotFound =>
      denied ("there is no PersistentVolume " ++ name ++
        " to move. spec.persistentVolumeName names the " ++
        "volume rather than the claim, because a claim can be deleted while its volume " ++
        "is retained.")
  | ReadError err => errored err
  | Found pv =>
      match pv_CSI pv with
      | None => denied ("volume " ++ name ++ " has no CSI source, so it has no logical volume to move.")
      | Some csi =>
          match driverNames c with
          | Err err => errored err
          | Ok ours =>
              if negb (contains ours (csi_Driver csi)) then
                denied ("volume " ++ name ++ " was provisioned by driver " ++ csi_Driver csi ++
                  ", and this operator can only move volumes of " ++ joined ours ++ ".")
              else if IsPNFS pv then denied (PNFSRefusal name ++ ".")
              else
                match ParseHandle Validate (csi_VolumeHandle csi) with
                | (_, false) =>
                    denied ("volume " ++ name ++ " carries the volume handle " ++
                      Quote ((csi_VolumeHandle csi)) ++
                      ", which is not <cluster>:<pool>:<volume>, so " ++
                      "there is nothing to address the backend with.")
                | (handle, true) => Ok handle
                end
          end
      end
  end.

Definition targetInTheVolumesCluster (c : Client) (ops : VolumeOps) (handle : Handle)
    : response :=
  let name := vo_PersistentVolumeName ops in
  match vo_Migrate ops with
  | None => Allowed ""
  | Some (namespace, node_name) =>
      match get_node c namespace node_name with
      | NotFound => Denied ("there is no StorageNode " ++ namespace ++ "/" ++ node_name ++ " to move volume " ++
          name ++ " to.")
      | ReadError err => Errored StatusInternalServerError err
      | Found node =>
          if IsRemote node then
            Denied ("RemoteNode: node " ++ namespace ++ "/" ++ node_name ++ " belongs to site " ++
              nd_Site node ++ " of a stretched cluster and is listed on this " ++
              "site from the control plane, and volume " ++ name ++
              " cannot move to the other site.")
          else
            match get_cluster c (nd_Namespace node) (nd_ClusterRef node) with
            | NotFound => Allowed ""
            | ReadError err => Errored StatusInternalServerError err
            | Found cluster =>
                if String.eqb (cl_UUID cluster) "" then Allowed ""
                else if negb (String.eqb (cl_UUID cluster) (ClusterID handle)) then
                  Denied ("node " ++ namespace ++ "/" ++ node_name ++ " belongs to cluster " ++
                    cl_UUID cluster ++ " and volume " ++ name ++ " to cluster " ++
                    ClusterID handle ++ ", and a volume cannot " ++ "move between clusters.")
                else Allowed ""
            end
      end
  end.

Definition membershipOf (cluster : StorageCluster) : string :=
  if String.eqb (cl_SuperclusterRef cluster) "" then ""
  else "; it is a member of supercluster " ++ cl_SuperclusterRef cluster.

Definition consistencyGroupOf (c : Client) (pv : PersistentVolume) : res string string :=
  match pv_ClaimRef pv with
  | None => Ok ""
  | Some (namespace, claim) =>
      match get_claim_labels c namespace claim with
      | NotFound => Ok ""
      | ReadError err => Err err
      | Found labels => Ok (default "" (labels !! consistencyGroupLabel))
      end
  end.

Definition clusterReporting (c : Client) (uuid : string) : res string (option StorageCluster) :=
  clusters <-- list_clusters c ;;
  Ok (find_first (fun cluster => String.eqb (cl_UUID cluster) uuid) clusters).

(** [pv.Spec.CSI.VolumeAttributes]: [addressableVolume] has seen the source. *)
Definition attribute (pv : PersistentVolume) (key : string) : string :=
  match pv_CSI pv with
  | Some csi => default "" (csi_VolumeAttributes csi !! key)
  | None => ""
  end.

(** The part of [relocateEligible] that is about the target. *)
Definition relocate_target (c : Client) (name targetName : string) (source : StorageCluster)
    : response :=
  if String.eqb targetName (cl_Name source) then
    Denied ("volume " ++ name ++ " is already in member " ++ cl_Name source ++ ".")
  else
    match get_cluster c (cl_Namespace source) targetName with
    | NotFound => Denied ("there is no StorageCluster " ++ cl_Namespace source ++ "/" ++ targetName ++
        " to move volume " ++ name ++ " to.")
    | ReadError err => Errored StatusInternalServerError err
    | Found target =>
        if negb (String.eqb (cl_SuperclusterRef target) (cl_SuperclusterRef source)) then
          Denied ("cluster " ++ targetName ++ " is not a member of supercluster " ++
            cl_SuperclusterRef source ++ ", which volume " ++ name ++ " is in" ++
            membershipOf target ++ ".")
        else if BoolFromOrFalse (cl_DisablePlacement target) then
          Denied ("member " ++ targetName ++ " sets disablePlacement and accepts no new volumes.")
        else Allowed ""
    end.

Definition relocateEligible (c : Client) (ops : VolumeOps) (handle : Handle) : response :=
  let name := vo_PersistentVolumeName ops in
  match vo_Relocate ops with
  | None => Allowed ""
  | Some targetName =>
      match get_volume c name with
      | NotFound => Errored StatusInternalServerError "not found"
      | ReadError err => Errored StatusInternalServerError err
      | Found pv =>
          if String.eqb (attribute pv ParamEncryption) "true" then
            Denied ("EncryptedVolumeNotMovable: volume " ++ name ++
              " is encrypted, and a move deletes its " ++
              "source and with it the only copy of the key, which replication does not carry.")
          else
            match consistencyGroupOf c pv with
            | Err err => Errored StatusInternalServerError err
            | Ok group =>
                if negb (String.eqb group "") then
                  Denied ("volume " ++ name ++ " is in consistency group " ++ group ++
                    ", whose members stay in one member " ++
                    "cluster; a move would split the group.")
                else
                  match clusterReporting c (ClusterID handle) with
                  | Err err => Errored StatusInternalServerError err
                  | Ok None =>
                      Denied ("no StorageCluster reports cluster " ++ ClusterID handle ++
                        ", which volume " ++ name ++ " is in.")
                  | Ok (Some source) =>
                      if String.eqb (cl_SuperclusterRef source) "" then
                        Denied ("volume " ++ name ++ " is in cluster " ++ cl_Name source ++
                          ", which is not a member of a supercluster; a " ++
                          "volume moves between members of one, and between unrelated clusters by replication.")
                      else relocate_target c name targetName source
                  end
            end
      end
  end.

Definition volume_admitCreate (c : Client) (object : raw VolumeOps) : response :=
  match object with
  | RawEmpty => Allowed ""
  | _ =>
      match Unmarshal object with
      | Err err => Errored StatusBadRequest err
      | Ok ops =>
          match addressableVolume c ops with
          | Err refused => refused
          | Ok handle =>
              if String.eqb (vo_Action ops) ActionRelocate then relocateEligible c ops handle
              else targetInTheVolumesCluster c ops handle
          end
      end
  end.

Definition volume_Handle (c : Client) (op : operation) (object old : raw VolumeOps) : response :=
  match op with
  | Create => volume_admitCreate c object
  | Delete => volume_admitDelete old
  | _ => Allowed ""
  end.

(** *** Restores *)

Definition HistoricalRecordAnnotation : string := "storage.simplyblock.io/historical-record".
Definition IsHistoricalRecord (ops : BackupOps) : bool :=
  String.eqb (default "" (bo_Annotations ops !! HistoricalRecordAnnotation)) "true".

Definition clusterKey (ops : BackupOps) : string * string := In (bo_ClusterRef ops) (bo_Namespace ops).
Definition backupKey (ops : BackupOps) : string * string := In (bo_BackupRef ops) (bo_Namespace ops).
Definition GroupBackupKey (ops : BackupOps) : string * string :=
  In (bo_GroupBackupRef ops) (bo_Namespace ops).
Definition BackupsNamespace (ops : BackupOps) : string := (clusterKey ops).1.

(** [GroupBackupLabelValue]: after the last slash. *)
Definition GroupBackupLabelValue (groupBackupID : string) : string :=
  match cut_last (to_bytes "/") (to_bytes groupBackupID) with
  | Some (_, after) => of_bytes after
  | None => groupBackupID
  end.

(** [clusterMustExist] and the checks of the same shape: nil, or the answer. *)
Definition clusterMustExist (c : Client) (namespace clusterRef : string) : option response :=
  match get_cluster c namespace clusterRef with
  | NotFound => Some (Denied ("spec.clusterRef " ++ Quote clusterRef ++
      " does not name a StorageCluster in namespace " ++ Quote namespace))
  | ReadError err => Some (Errored StatusInternalServerError err)
  | Found _ => None
  end.

Definition groupBackupMustBeRestorable (c : Client) (ops : BackupOps) : option response :=
  match list_group_members c (BackupsNamespace ops)
          (GroupBackupLabelValue (bo_GroupBackupID ops)) with
  | Err err => Some (Errored StatusInternalServerError err)
  | Ok [] =>
      Some (Denied ("spec.groupBackupID " ++ Quote (bo_GroupBackupID ops) ++
        " names no StorageBackup in namespace " ++ Quote ((BackupsNamespace ops)) ++
        " (the cluster's)"))
  | Ok members =>
      match find_first (fun m => String.eqb m.2 "Failed") members with
      | Some member =>
          Some (Denied ("group backup " ++ Quote (bo_GroupBackupID ops) ++ " has a failed member " ++
            Quote member.1 ++ " and cannot be restored as a unit"))
      | None => None
      end
  end.

Definition groupBackupMustBeRestorableByRef (c : Client) (ops : BackupOps) : option response :=
  let '(namespace, name) := GroupBackupKey ops in
  match get_groupbackup_phase c namespace name with
  | NotFound =>
      Some (Denied ("spec.groupBackupRef " ++ Quote name ++
        " does not name a StorageGroupBackup in namespace " ++ Quote namespace))
  | ReadError err => Some (Errored StatusInternalServerError err)
  | Found phase =>
      if String.eqb phase "Failed" then
        Some (Denied ("spec.groupBackupRef " ++ Quote name ++ " failed and has no group backup to restore"))
      else None
  end.

Definition backupMustBeRestorable (c : Client) (ops : BackupOps) : option response :=
  let '(namespace, name) := backupKey ops in
  match get_backup_phase c namespace name with
  | NotFound =>
      Some (Denied ("spec.backupRef " ++ Quote ((nr_Name (bo_BackupRef ops))) ++
        " does not name a StorageBackup in namespace " ++ Quote namespace))
  | ReadError err => Some (Errored StatusInternalServerError err)
  | Found phase =>
      if String.eqb phase "Failed" then
        Some (Denied ("StorageBackup " ++ Quote ((nr_Name (bo_BackupRef ops))) ++
          " failed and has no copy to restore"))
      else None
  end.

(** What the requester must be allowed, where the references leave its
    namespace. *)
Definition needs (ops : BackupOps) : list need :=
  let here := bo_Namespace ops in
  let elsewhere ns l := if String.eqb ns here then [] else l in
  ((if String.eqb (nr_Name (bo_BackupRef ops)) "" then []
    else elsewhere (backupKey ops).1
      [mkNeed "get" "storagebackups" (backupKey ops).1 (nr_Name (bo_BackupRef ops))]) ++
   (if String.eqb (nr_Name (bo_GroupBackupRef ops)) "" then []
    else elsewhere (GroupBackupKey ops).1
      [mkNeed "get" "storagegroupbackups" (GroupBackupKey ops).1 (GroupBackupKey ops).2]) ++
   elsewhere (clusterKey ops).1
     ([mkNeed "get" "storageclusters" (clusterKey ops).1 (nr_Name (bo_ClusterRef ops))] ++
      match bo_Restore ops with
      | Some (pool, _) => [mkNeed "get" "storagepools" (clusterKey ops).1 pool]
      | None => []
      end ++
      if String.eqb (bo_GroupBackupID ops) "" then []
      else [mkNeed "list" "storagebackups" (clusterKey ops).1 ""]))%list.

(** The reviews, in order, up to the first that is refused. *)
Fixpoint review (c : Client) (username : string) (l : list need) : option response :=
  match l with
  | [] => None
  | n :: l =>
      match access_Allowed c n with
      | Err err => Some (Errored StatusInternalServerError err)
      | Ok false =>
          Some (Denied (username ++ " may not " ++ nd_verb n ++ " " ++ nd_resource n ++ " in namespace " ++
            Quote ((nd_namespace n)) ++ ", which this restore needs because it reaches there"))
      | Ok true => review c username l
      end
  end.

Definition requesterMayReach (c : Client) (username : string) (ops : BackupOps)
    : option response := review c username (needs ops).

Definition poolMustExist (c : Client) (ops : BackupOps) (targetPool : string)
    : option response :=
  match get_pool c (clusterKey ops).1 targetPool with
  | NotFound =>
      Some (Denied ("spec.restore.targetPool " ++ Quote targetPool ++
        " does not name a StoragePool in namespace " ++ Quote ((clusterKey ops).1)))
  | ReadError err => Some (Errored StatusInternalServerError err)
  | Found _ => None
  end.

Definition claimMustNotExist (c : Client) (ops : BackupOps) (claimName : string) : response :=
  match get_claim_labels c (bo_Namespace ops) claimName with
  | NotFound => Allowed ""
  | ReadError err => Errored StatusInternalServerError err
  | Found _ =>
      Denied ("a PersistentVolumeClaim named " ++ Quote claimName ++
        " already exists in namespace " ++ Quote (bo_Namespace ops) ++
        ". A restore creates its claim " ++
        "and never adopts one, because adopting it would replace that workload's data with the " ++
        "backup's; name a claim that does not exist yet.")
  end.

Definition target_check (c : Client) (ops : BackupOps) : option response :=
  if negb (String.eqb (nr_Name (bo_GroupBackupRef ops)) "")
  then groupBackupMustBeRestorableByRef c ops
  else if negb (String.eqb (bo_GroupBackupID ops) "") then groupBackupMustBeRestorable c ops
  else backupMustBeRestorable c ops.

Definition backup_admitCreate (c : Client) (username : string) (object : raw BackupOps)
    : response :=
  match Unmarshal object with
  | Err err => Errored StatusBadRequest err
  | Ok ops =>
      if IsHistoricalRecord ops then Allowed "a record of work already done"
      else
        match requesterMayReach c username ops with
        | Some refused => refused
        | None =>
            match clusterMustExist c (clusterKey ops).1 (nr_Name (bo_ClusterRef ops)) with
            | Some refused => refused
            | None =>
                match target_check c ops with
                | Some refused => refused
                | None =>
                    match bo_Restore ops with
                    | None => Denied ("spec.restore is required for action " ++ bo_Action ops)
                    | Some (targetPool, claimName) =>
                        match poolMustExist c ops targetPool with
                        | Some refused => refused
                        | None => claimMustNotExist c ops claimName
                        end
                    end
                end
            end
        end
  end.

Definition backup_Handle (c : Client) (username : string) (op : operation)
    (object old : raw BackupOps) : response :=
  match op with
  | Create => backup_admitCreate c username object
  | Delete => backup_admitDelete old
  | _ => Allowed ""
  end.

(** ** What the guards decide *)

Definition is_denied (r : response) : bool :=
  match r with Denied _ => true | _ => false end.
Definition admits (r : response) : bool :=
  match r with Allowed _ => true | _ => false end.

Lemma lookup_step_None table step : lookup_step table step = None <-> step ∉ table.*1.
Proof using Type.
  unfold lookup_step. destruct (find_first _ table) as [[s d]|] eqn:E; simpl.
  - apply find_first_Some in E as [Hin Heq]. apply String.eqb_eq in Heq. simpl in Heq. subst s.
    split; [done|]. intros Hn. destruct Hn. by apply (list_elem_of_fmap_2 fst table (step, d)).
  - split; [|done]. intros _ Hin. apply list_elem_of_fmap in Hin as (row & -> & Hrow).
    apply (proj1 (find_first_None _ _) E) in Hrow. by rewrite String.eqb_refl in Hrow.
Qed.

Lemma delete_guard_denies {A} (phase step : A -> string) table refusal ops :
  is_denied (delete_guard phase step table refusal (RawOk ops)) = true <->
  terminal_phase (phase ops) = false /\ step ops ∈ table.*1.
Proof using Type.
  unfold delete_guard. simpl. destruct (terminal_phase (phase ops)); [simpl; split; [done|by intros [? _]]|].
  pose proof (lookup_step_None table (step ops)) as Hn.
  destruct (lookup_step table (step ops)); simpl.
  - split; [|done]. intros _. split; [done|].
    destruct (decide (step ops ∈ table.*1)) as [|Hx]; [done|]. by apply Hn in Hx.
  - split; [done|]. intros [_ Hin]. by destruct (proj1 Hn eq_refl).
Qed.

(** C35. The DELETE guards and the graphs draw one line: the record of a node, a
    cluster, a control-plane or a volume operation is refused its deletion
    exactly when the operation is not over and stands at a step no abort can
    leave, whatever client and whatever operation of the request's the rest of
    the validator would look at. *)
Theorem delete_refused_past_no_return (client : option Client) (c : Client) :
  (forall ops object, is_denied (node_Handle client Delete object (RawOk ops)) = true <->
    terminal_phase (no_Phase ops) = false /\ no_Step ops ∈ Node.UnabortableSteps) /\
  (forall ops object, is_denied (cluster_Handle client Delete object (RawOk ops)) = true <->
    terminal_phase (co_Phase ops) = false /\ co_Step ops ∈ Cluster.UnabortableSteps) /\
  (forall ops object, is_denied (controlplane_Handle c Delete object (RawOk ops)) = true <->
    terminal_phase (cp_Phase ops) = false /\ cp_Step ops ∈ ControlPlane.UnabortableSteps) /\
  (forall ops object, is_denied (volume_Handle c Delete object (RawOk ops)) = true <->
    terminal_phase (vo_Phase ops) = false /\ vo_Step ops ∈ Volume.UnabortableSteps).
Proof using Type.
  assert (Hsame : forall l k : list string, sort_strings l = sort_strings k ->
    forall x, x ∈ l <-> x ∈ k).
  { intros l k E x. by rewrite <- (sort_strings_elem x l), E, sort_strings_elem. }
  split; [|split; [|split]]; intros ops object;
    (etransitivity; [apply delete_guard_denies|]);
    apply and_iff_compat_l, Hsame; vm_compute; reflexivity.
Qed.

(** The guard of a restore is short of its graph by one step: a group restore
    whose volumes the control plane is still filling cannot be aborted, and the
    delete of its record is admitted. *)
Theorem restore_delete_guard_misses_a_step :
  "AwaitingVolumes" ∈ Backup.unabortableSteps /\
  forall ops, bo_Step ops = "AwaitingVolumes" ->
    admits (backup_admitDelete (RawOk ops)) = true.
Proof using Type.
  split.
  - apply (bool_decide_eq_true_1 _). vm_compute. reflexivity.
  - intros ops Hs. unfold backup_admitDelete, delete_guard. simpl.
    destruct (terminal_phase (bo_Phase ops)); [done|].
    assert (Hn : lookup_step undeletableSteps (bo_Step ops) = None).
    { rewrite Hs. vm_compute. reflexivity. }
    by rewrite Hn.
Qed.

(** What holds of a volume whose handle the guard could address. *)
Definition addressable (c : Client) (ops : VolumeOps) (handle : Handle) : Prop :=
  exists pv csi ours, get_volume c (vo_PersistentVolumeName ops) = Found pv /\
    pv_CSI pv = Some csi /\ driverNames c = Ok ours /\ csi_Driver csi ∈ ours /\
    csi_FSType csi <> FSTypePNFS /\ ParseHandle Validate (csi_VolumeHandle csi) = (handle, true).

Lemma addressableVolume_Ok c ops handle :
  addressableVolume c ops = Ok handle -> addressable c ops handle.
Proof using Type.
  unfold addressableVolume, addressable. intros E.
  destruct (get_volume c (vo_PersistentVolumeName ops)) as [pv| |]; try done.
  destruct (pv_CSI pv) as [csi|] eqn:Ecsi; [|done].
  destruct (driverNames c) as [ours|]; [|done].
  destruct (contains ours (csi_Driver csi)) eqn:Ed; [|done]. apply contains_true in Ed.
  unfold IsPNFS in E. rewrite Ecsi in E. simpl in E.
  destruct (String.eqb_spec (csi_FSType csi) FSTypePNFS); [done|].
  destruct (ParseHandle Validate (csi_VolumeHandle csi)) as [h []] eqn:Ep; [|done].
  injection E as <-. by exists pv, csi, ours.
Qed.

(** What holds of a relocation that was admitted. *)
Definition relocatable (c : Client) (ops : VolumeOps) (handle : Handle) (target : string) : Prop :=
  exists pv source cluster,
    get_volume c (vo_PersistentVolumeName ops) = Found pv /\
    attribute pv ParamEncryption <> "true" /\ consistencyGroupOf c pv = Ok "" /\
    clusterReporting c (ClusterID handle) = Ok (Some source) /\
    cl_SuperclusterRef source <> "" /\ target <> cl_Name source /\
    get_cluster c (cl_Namespace source) target = Found cluster /\
    cl_SuperclusterRef cluster = cl_SuperclusterRef source /\
    cl_DisablePlacement cluster <> Some true.

Lemma relocateEligible_admits c ops handle target :
  vo_Relocate ops = Some target -> admits (relocateEligible c ops handle) = true ->
  relocatable c ops handle target.
Proof using Type.
  intros Ht. unfold relocateEligible, relocatable. rewrite Ht. intros E.
  destruct (get_volume c (vo_PersistentVolumeName ops)) as [pv| |]; try done.
  destruct (String.eqb_spec (attribute pv ParamEncryption) "true"); [done|].
  destruct (consistencyGroupOf c pv) as [group|] eqn:Eg; [|done].
  destruct (String.eqb_spec group "") as [->|]; [|done]. simpl in E.
  destruct (clusterReporting c (ClusterID handle)) as [[source|]|]; [|done|done].
  destruct (String.eqb_spec (cl_SuperclusterRef source) ""); [done|].
  unfold relocate_target in E. destruct (String.eqb_spec target (cl_Name source)); [done|].
  destruct (get_cluster c (cl_Namespace source) target) as [cluster| |] eqn:Ec; try done.
  destruct (String.eqb_spec (cl_SuperclusterRef cluster) (cl_SuperclusterRef source)); [|done].
  simpl in E. exists pv, source, cluster. repeat split; try done.
  intros Hd. by rewrite Hd in E.
Qed.

(** What holds of a migration's target that was admitted. *)
Definition migratable (c : Client) (handle : Handle) (namespace name : string) : Prop :=
  exists node, get_node c namespace name = Found node /\ IsRemote node = false /\
    match get_cluster c (nd_Namespace node) (nd_ClusterRef node) with
    | Found cluster => cl_UUID cluster = "" \/ cl_UUID cluster = ClusterID handle
    | NotFound => True
    | ReadError _ => False
    end.

Lemma target_admits c ops handle namespace name :
  vo_Migrate ops = Some (namespace, name) ->
  admits (targetInTheVolumesCluster c ops handle) = true -> migratable c handle namespace name.
Proof using Type.
  intros Ht. unfold targetInTheVolumesCluster, migratable. rewrite Ht. intros E.
  destruct (get_node c namespace name) as [node| |]; try done. exists node. split; [done|].
  destruct (IsRemote node); [done|]. split; [done|].
  destruct (get_cluster c (nd_Namespace node) (nd_ClusterRef node)) as [cluster| |]; try done.
  destruct (String.eqb_spec (cl_UUID cluster) ""); [by left|].
  destruct (String.eqb_spec (cl_UUID cluster) (ClusterID handle)); [by right|done].
Qed.

(** A volume operation that is admitted names a volume this operator can
    move: one of its own drivers', no pNFS export, with a handle that parses.  A
    relocation goes to another member of the volume's own supercluster that takes
    new volumes, and takes neither an encrypted volume nor a member of a
    consistency group; a migration goes to a node of this site that does not
    belong to another cluster than the one the handle names. *)
Theorem admitted_volume_operation (c : Client) (ops : VolumeOps) (old : raw VolumeOps) :
  admits (volume_Handle c Create (RawOk ops) old) = true ->
  exists handle, addressable c ops handle /\
    (vo_Action ops = ActionRelocate -> forall target, vo_Relocate ops = Some target ->
      relocatable c ops handle target) /\
    (vo_Action ops <> ActionRelocate -> forall namespace name,
      vo_Migrate ops = Some (namespace, name) -> migratable c handle namespace name).
Proof using Type.
  unfold volume_Handle, volume_admitCreate. cbn [Unmarshal]. intros E.
  destruct (addressableVolume c ops) as [handle|r] eqn:Ea.
  - exists handle. split; [by apply addressableVolume_Ok|].
    destruct (String.eqb_spec (vo_Action ops) ActionRelocate) as [Ha|Ha].
    + split; [|done]. intros _ target Ht. by apply relocateEligible_admits.
    + split; [done|]. intros _ namespace name Ht. by eapply target_admits.
  - exfalso. unfold addressableVolume, denied, errored in Ea.
    repeat case_match; by simplify_eq.
Qed.

Lemma review_None c username l :
  review c username l = None <-> forall n, n ∈ l -> access_Allowed c n = Ok true.
Proof using Type.
  induction l as [|n l IH]; simpl.
  - split; [|done]. intros _ n Hn. by apply not_elem_of_nil in Hn.
  - setoid_rewrite elem_of_cons. destruct (access_Allowed c n) as [[]|err] eqn:E.
    + rewrite IH. split; [intros Hall x [->|Hx]; [done|by apply Hall]|]. intros Hall x Hx.
      apply Hall. by right.
    + split; [done|]. intros Hall. specialize (Hall n (or_introl eq_refl)). congruence.
    + split; [done|]. intros Hall. specialize (Hall n (or_introl eq_refl)). congruence.
Qed.

Lemma review_access c1 c2 username l :
  (forall n, access_Allowed c1 n = access_Allowed c2 n) ->
  review c1 username l = review c2 username l.
Proof using Type.
  intros Hacc. induction l as [|n l IH]; [done|]. simpl. rewrite Hacc.
  by destruct (access_Allowed c2 n) as [[]|].
Qed.

(** What a restore's target must be: a copy that exists and did not fail. *)
Definition restorable (c : Client) (ops : BackupOps) : Prop :=
  if String.eqb (nr_Name (bo_GroupBackupRef ops)) "" then
    if String.eqb (bo_GroupBackupID ops) "" then
      exists phase, get_backup_phase c (backupKey ops).1 (backupKey ops).2 = Found phase /\
        phase <> "Failed"
    else exists members, list_group_members c (BackupsNamespace ops)
        (GroupBackupLabelValue (bo_GroupBackupID ops)) = Ok members /\ members <> [] /\
        Forall (fun m => m.2 <> "Failed") members
  else exists phase, get_groupbackup_phase c (GroupBackupKey ops).1 (GroupBackupKey ops).2 =
      Found phase /\ phase <> "Failed".

Lemma target_check_None c ops : target_check c ops = None -> restorable c ops.
Proof using Type.
  unfold target_check, restorable.
  destruct (String.eqb (nr_Name (bo_GroupBackupRef ops)) ""); cbn [negb].
  - destruct (String.eqb (bo_GroupBackupID ops) ""); cbn [negb].
    + unfold backupMustBeRestorable. destruct (backupKey ops) as [ns name]. cbn [fst snd].
      destruct (get_backup_phase c ns name) as [phase| |]; try done.
      destruct (String.eqb_spec phase "Failed"); [done|]. intros _. by exists phase.
    + unfold groupBackupMustBeRestorable.
      destruct (list_group_members c _ _) as [[|m members]|]; try done.
      destruct (find_first _ (m :: members)) as [x|] eqn:E; [done|]. intros _.
      exists (m :: members). split; [done|]. split; [done|]. apply Forall_forall. intros y Hy.
      apply (proj1 (find_first_None _ _) E) in Hy. by apply String.eqb_neq.
  - unfold groupBackupMustBeRestorableByRef. destruct (GroupBackupKey ops) as [ns name]. cbn [fst snd].
    destruct (get_groupbackup_phase c ns name) as [phase| |]; try done.
    destruct (String.eqb_spec phase "Failed"); [done|]. intros _. by exists phase.
Qed.

(** A restore that is admitted, other than the record of one already done,
    was allowed everything it does in another namespace, and names a cluster, a
    copy that did not fail, and a pool that exist, and a claim that does not: a
    restore never lands on a running workload's claim. *)
Theorem admitted_restore (c : Client) (username : string) (ops : BackupOps)
    (old : raw BackupOps) :
  admits (backup_Handle c username Create (RawOk ops) old) = true ->
  IsHistoricalRecord ops = true \/
  ((forall n, n ∈ needs ops -> access_Allowed c n = Ok true) /\
   (exists cluster, get_cluster c (clusterKey ops).1 (nr_Name (bo_ClusterRef ops)) = Found cluster) /\
   restorable c ops /\
   exists pool claim, bo_Restore ops = Some (pool, claim) /\
     get_pool c (clusterKey ops).1 pool = Found tt /\
     get_claim_labels c (bo_Namespace ops) claim = NotFound).
Proof using Type.
  unfold backup_Handle, backup_admitCreate. cbn [Unmarshal]. intros E.
  destruct (IsHistoricalRecord ops); [by left|]. right.
  destruct (requesterMayReach c username ops) as [r|] eqn:Er.
  { exfalso. unfold requesterMayReach in Er. revert Er. generalize (needs ops).
    induction l as [|n l IH]; simpl; [done|].
    destruct (access_Allowed c n) as [[]|]; [done|..]; intros [= <-]; done. }
  split; [by apply (review_None c username)|].
  destruct (clusterMustExist c _ _) as [r|] eqn:Ec.
  { exfalso. unfold clusterMustExist in Ec. destruct (get_cluster _ _ _); by simplify_eq. }
  split.
  { unfold clusterMustExist in Ec. destruct (get_cluster _ _ _); try done. eauto. }
  destruct (target_check c ops) as [r|] eqn:Et.
  { exfalso. unfold target_check, groupBackupMustBeRestorableByRef, groupBackupMustBeRestorable,
      backupMustBeRestorable in Et. repeat case_match; by simplify_eq. }
  split; [by apply target_check_None|].
  destruct (bo_Restore ops) as [[pool claim]|]; [|done]. exists pool, claim. split; [done|].
  destruct (poolMustExist c ops pool) as [r|] eqn:Ep.
  { exfalso. unfold poolMustExist in Ep. destruct (get_pool _ _ _); by simplify_eq. }
  unfold poolMustExist in Ep. destruct (get_pool c _ pool) as [[]| |]; try done.
  split; [done|]. unfold claimMustNotExist in E.
  by destruct (get_claim_labels c (bo_Namespace ops) claim).
Qed.

(** A requester who may not reach what a restore names learns nothing of it:
    the answer is the same whatever the other namespaces hold. *)
Theorem refusal_reveals_nothing (c1 c2 : Client) (username : string) (ops : BackupOps)
    (old : raw BackupOps) :
  (forall n, access_Allowed c1 n = access_Allowed c2 n) ->
  (exists n, n ∈ needs ops /\ access_Allowed c1 n <> Ok true) ->
  backup_Handle c1 username Create (RawOk ops) old =
  backup_Handle c2 username Create (RawOk ops) old.
Proof using Type.
  intros Hacc (n & Hn & Hno). unfold backup_Handle, backup_admitCreate. cbn [Unmarshal].
  destruct (IsHistoricalRecord ops); [done|].
  assert (Hr : requesterMayReach c1 username ops <> None).
  { unfold requesterMayReach. rewrite review_None. intros Hall. by apply Hno, Hall. }
  unfold requesterMayReach in *. rewrite <- (review_access c1 c2) by done.
  by destruct (review c1 username (needs ops)).
Qed.

End Create.

(** ** Concrete requests *)

Module Requests.

Definition uuid_a : string := "11111111-2222-3333-4444-555555555555".
Definition uuid_v : string := "66666666-7777-8888-9999-000000000000".

Definition volume_a : PersistentVolume :=
  mkPV (Some (mkCSI CSIDriverName "ext4" (uuid_a ++ ":pool:" ++ uuid_v) ∅)) None.
Definition node_a : StorageNode := mkNode "prod" "n1" "c1" "" None.
Definition cluster_a : StorageCluster := mkCluster "prod" "c1" uuid_a None "" None.

Definition api (claims : read (gmap string string)) (backup : read string) : Client :=
  mkClient (fun _ _ => Found node_a) (fun _ _ => NotFound) (fun _ _ => Found cluster_a)
    (Ok [cluster_a]) (fun _ => Found volume_a) (fun _ _ => claims) (Ok []) (fun _ _ => Found true)
    (fun _ _ => backup) (fun _ _ => NotFound) (fun _ _ => Ok []) (fun _ _ => Found tt)
    (fun n => Ok (String.eqb (nd_resource n) "storageclusters")).

Definition migrate : VolumeOps :=
  mkVolumeOps "move" "Migrate" "pv-1" (Some ("prod", "n1")) None "" "".

Lemma admitted_volume_operation_witness :
  exists handle, addressable (fun _ => true) (api NotFound NotFound) migrate handle /\
    migratable (api NotFound NotFound) handle "prod" "n1".
Proof.
  destruct (admitted_volume_operation (fun s => s) (fun _ => true) (api NotFound NotFound) migrate
    RawEmpty) as (handle & Ha & _ & Hm).
  - vm_compute. reflexivity.
  - exists handle. split; [exact Ha|]. apply Hm; [discriminate | reflexivity].
Defined.

Definition restore (cluster_ns : string) : BackupOps :=
  mkBackupOps "apps" "restore" "Restore" ∅ (mkNsRef "c1" cluster_ns) (mkNsRef "b1" "")
    (mkNsRef "" "") "" (Some ("pool", "claim")) "" "".

Lemma admitted_restore_witness :
  restorable (api NotFound (Found "Available")) (restore "").
Proof.
  destruct (admitted_restore (fun s => s) (api NotFound (Found "Available"))
    "user" (restore "") RawEmpty) as [H|(_ & _ & H & _)].
  - vm_compute. reflexivity.
  - discriminate H.
  - exact H.
Defined.

Lemma refusal_reveals_nothing_witness :
  backup_Handle (fun s => s) (api NotFound (Found "Available")) "user" Create
    (RawOk (restore "prod")) RawEmpty =
  backup_Handle (fun s => s) (api (Found ∅) (Found "Failed")) "user" Create
    (RawOk (restore "prod")) RawEmpty.
Proof.
  apply (refusal_reveals_nothing (fun s => s)).
  - reflexivity.
  - exists (mkNeed "get" "storagepools" "prod" "pool"). split.
    + apply (bool_decide_eq_true_1 _). vm_compute. reflexivity.
    + discriminate.
Defined.

End Requests.
