(* ===== verification/Rank.v ===== *)
(** The ranking of a supercluster's members ([operator/internal/placement/rank.go]).

    Which members may take a new volume, which of those the request's topology
    prefers, and which one the supercluster's strategy picks.  The ranking is a
    pure function of the members as the service read them; its byte counts are
    Go's [int64], whose wrap-around is written out. *)

From Stdlib Require Import Ascii String.
From S2P Require Import Prelude GoStrings.

#[local] Open Scope string_scope.

Module Rank.

(** [PlacementStrategy]. *)
Definition PlacementMostAvailableCapacity : string := "MostAvailableCapacity".
Definition PlacementLeastProvisioned : string := "LeastProvisioned".
Definition PlacementLeastVolumes : string := "LeastVolumes".

(** One member as a placement sees it. *)
Record candidate := mkCandidate {
  Name : string;
  UUID : string;
  Eligible : bool;
  HasReading : bool;
  Total : Z;
  Used : Z;
  Provisioned : Z;
  Placed : Z;
  CriticalPercent : Z;
  Volumes : Z;
  Region : string;
}.

Definition free (c : candidate) : Z := wrap64 (wrap64 (Total c - Used c) - Placed c).

Record requestTopology := mkTopology {
  Preferred : list string;
  Requisite : list string;
}.

(** [m.Used*100/m.Total], whose product is an [int64] before it is divided. *)
Definition percent_used (m : candidate) : Z := Z.quot (wrap64 (Used m * 100)) (Total m).

(** [dropped]: why a member cannot take a volume of [size] bytes, or nothing. *)
Definition dropped (m : candidate) (size : Z) : string :=
  if negb (Eligible m) then "not placement-eligible"
  else if negb (HasReading m) then "no current capacity reading"
  else if (free m <? size)%Z then
    Itoa (Z.max (free m) 0) ++ " bytes free, " ++ Itoa size ++ " requested"
  else if ((0 <? CriticalPercent m) && (0 <? Total m) &&
           (CriticalPercent m <=? percent_used m))%Z then
    Itoa (percent_used m) ++ "% used, past its critical threshold of " ++
      Itoa (CriticalPercent m) ++ "%"
  else "".

(** [inRegions]: a member without a region matches all of them, and no regions is
    no narrowing to make. *)
Definition inRegions (members : list candidate) (regions : list string) : list candidate :=
  match regions with
  | [] => []
  | _ => filter (fun m => String.eqb (Region m) "" || contains regions (Region m) = true) members
  end.

Definition sign (v : Z) : Z := if (v <? 0)%Z then (-1)%Z else if (0 <? v)%Z then 1%Z else 0%Z.

(** [big.Int.Cmp]. *)
Definition Cmp (x y : Z) : Z :=
  match (x ?= y)%Z with Lt => (-1)%Z | Eq => 0%Z | Gt => 1%Z end.

(** [compare]: -1 when [a] ranks before [b], 0 when they rank equal. *)
Definition compare (strategy : string) (a b : candidate) : Z :=
  if String.eqb strategy PlacementLeastProvisioned then
    Cmp (wrap64 (Provisioned a + Placed a) * Total b)
        (wrap64 (Provisioned b + Placed b) * Total a)
  else if String.eqb strategy PlacementLeastVolumes then sign (wrap64 (Volumes a - Volumes b))
  else sign (wrap64 (free b - free a)).

(** The first loop of [rank]: the members with room, in order, and the reason each
    other was dropped. *)
Definition sift (size : Z) (acc : list candidate * gmap string string) (m : candidate)
    : list candidate * gmap string string :=
  let '(room, reasons) := acc in
  if negb (String.eqb (dropped m size) "") then (room, <[Name m := dropped m size]> reasons)
  else ((room ++ [m])%list, reasons).

(** The region narrowing: the preferred ones, or the required ones, or all. *)
Definition narrow (room : list candidate) (topology : requestTopology) : list candidate :=
  match inRegions room (Preferred topology) with
  | [] =>
      match inRegions room (Requisite topology) with
      | [] => room
      | candidates => candidates
      end
  | candidates => candidates
  end.

Definition name_le (a b : candidate) : Prop := String.le (Name a) (Name b).
#[local] Instance name_le_dec : RelDecision name_le.
Proof. intros a b. unfold name_le. exact _. Defined.

Definition sorted (candidates : list candidate) : list candidate :=
  merge_sort name_le candidates.

(** One candidate against the best so far. *)
Definition keep (strategy : string) (best : list candidate) (c : candidate) : list candidate :=
  match best with
  | [] => best
  | b :: _ =>
      if (compare strategy c b =? -1)%Z then [c]
      else if (compare strategy c b =? 0)%Z then (best ++ [c])%list
      else best
  end.

Definition bests (strategy : string) (candidates : list candidate) : list candidate :=
  match sorted candidates with
  | [] => []
  | first :: rest => foldl (keep strategy) [first] rest
  end.

(** [rank]; [None] is the panic of an index out of range, which a draw that
    answers no index below [n] would cause. *)
Definition rank (strategy : string) (members : list candidate) (size : Z)
    (topology : requestTopology) (draw : nat -> nat) : option (string * gmap string string) :=
  let '(room, reasons) := foldl (sift size) ([], ∅) members in
  match narrow room topology with
  | [] => Some ("", reasons)
  | candidates =>
      let best := bests strategy candidates in
      c ← best !! draw (length best);
      Some (Name c, reasons)
  end.

(** ** Byte counts that do not wrap *)

(** Readings an [int64] holds with room to spare: up to 4 EiB of capacity, and a
    used space whose hundredfold is still an [int64] (81 PiB). *)
Record sane (c : candidate) : Prop := {
  sane_total : (0 <= Total c < 2 ^ 62)%Z;
  sane_used : (0 <= Used c)%Z;
  sane_placed : (0 <= Placed c)%Z;
  sane_taken : (Used c + Placed c <= 2 ^ 62)%Z;
  sane_percent : (Used c * 100 <= int64_max)%Z;
  sane_provisioned : (0 <= Provisioned c /\ Provisioned c + Placed c <= int64_max)%Z;
  sane_volumes : (0 <= Volumes c <= int64_max)%Z;
}.

Lemma free_exact c : sane c ->
  free c = (Total c - Used c - Placed c)%Z /\ (- 2 ^ 62 <= free c < 2 ^ 62)%Z.
Proof.
  intros [Ht Hu Hp Htk _ _ _]. unfold free.
  rewrite (wrap64_id (Total c - Used c)), wrap64_id; unfold int64_min, int64_max; lia.
Qed.

(** The exact conditions a member is considered under. *)
Definition can_take (size : Z) (m : candidate) : Prop :=
  Eligible m = true /\ HasReading m = true /\
  (Used m + Placed m + size <= Total m)%Z /\
  ((0 < CriticalPercent m)%Z -> (0 < Total m)%Z ->
    (100 * Used m < CriticalPercent m * Total m)%Z).

Lemma append_nonempty a s t : a ++ String s t <> "".
Proof. by destruct a. Qed.

(** A member is considered for a volume exactly when it is eligible, its capacity is
    known, what it uses and what was placed in it leave room for the volume, and the
    share of it in use is below its own critical threshold. *)
Theorem considered_exactly m size :
  sane m -> dropped m size = "" <-> can_take size m.
Proof.
  intros Hs. destruct (free_exact m Hs) as [Hf _]. destruct Hs as [Ht Hu Hp Htk Hpc _ _].
  unfold dropped, can_take.
  destruct (Eligible m); simpl; [|naive_solver].
  destruct (HasReading m); simpl; [|naive_solver].
  destruct (Z.ltb_spec (free m) size).
  { split; [by intros ?%append_nonempty | lia]. }
  assert (Hq : percent_used m = (Used m * 100 / Total m)%Z \/ Total m = 0%Z).
  { destruct (decide (Total m = 0%Z)); [by right|]. left. unfold percent_used.
    rewrite wrap64_id by (unfold int64_min in *; lia).
    apply Z.quot_div_nonneg; lia. }
  destruct (Z.ltb_spec 0 (CriticalPercent m)) as [Hc|]; simpl; [|naive_solver lia].
  destruct (Z.ltb_spec 0 (Total m)) as [Ht0|]; simpl; [|naive_solver lia].
  destruct Hq as [Hq|]; [|lia].
  destruct (Z.leb_spec (CriticalPercent m) (percent_used m)) as [Hle|Hlt].
  - split; [by intros ?%append_nonempty|]. intros (_ & _ & _ & H4). exfalso.
    specialize (H4 Hc Ht0). rewrite Hq in Hle.
    assert (CriticalPercent m * Total m <= Used m * 100)%Z; [|lia].
    transitivity (Used m * 100 / Total m * Total m)%Z; [nia|].
    pose proof (Z.mul_div_le (Used m * 100) (Total m) ltac:(lia)). lia.
  - split; [|done]. intros _. split; [done|]. split; [done|]. split; [lia|]. intros _ _.
    rewrite Hq in Hlt. pose proof (Z.mul_succ_div_gt (Used m * 100) (Total m) ltac:(lia)). nia.
Qed.

(** ** The order of a strategy *)

(** A member that can be ranked: one with room for a volume has a capacity. *)
Definition rankable (c : candidate) : Prop := sane c /\ (0 < Total c)%Z.

Lemma can_take_rankable m size : sane m -> (0 < size)%Z -> can_take size m -> rankable m.
Proof. intros Hs Hz (_ & _ & Hroom & _). split; [done|]. destruct Hs. lia. Qed.

Lemma sign_spec v : sign v = Z.sgn v.
Proof.
  unfold sign. destruct (Z.ltb_spec v 0); [by rewrite Z.sgn_neg|].
  destruct (Z.ltb_spec 0 v); [by rewrite Z.sgn_pos|]. by assert (v = 0%Z) as -> by lia.
Qed.

Lemma Cmp_spec x y : Cmp x y = Z.sgn (x - y).
Proof.
  unfold Cmp. destruct (Z.compare_spec x y) as [->|H|H].
  - by rewrite Z.sub_diag.
  - rewrite Z.sgn_neg; lia.
  - rewrite Z.sgn_pos; lia.
Qed.

(** What the comparison compares, with nothing wrapped. *)
Definition difference (strategy : string) (a b : candidate) : Z :=
  if String.eqb strategy PlacementLeastProvisioned then
    (Provisioned a + Placed a) * Total b - (Provisioned b + Placed b) * Total a
  else if String.eqb strategy PlacementLeastVolumes then Volumes a - Volumes b
  else (Total b - Used b - Placed b) - (Total a - Used a - Placed a).

Lemma compare_exact strategy a b :
  sane a -> sane b -> compare strategy a b = Z.sgn (difference strategy a b).
Proof.
  intros Ha Hb. destruct (free_exact a Ha) as [Fa Ra], (free_exact b Hb) as [Fb Rb].
  destruct Ha as [_ _ Hpa _ _ [Hp1 Hp2] Hva], Hb as [_ _ Hpb _ _ [Hq1 Hq2] Hvb].
  unfold compare, difference.
  destruct (String.eqb strategy PlacementLeastProvisioned).
  { rewrite Cmp_spec, !wrap64_id; unfold int64_min, int64_max in *; lia. }
  destruct (String.eqb strategy PlacementLeastVolumes); rewrite sign_spec, wrap64_id;
    unfold int64_min, int64_max in *; lia.
Qed.

Lemma compare_flip strategy a b :
  sane a -> sane b -> compare strategy b a = (- compare strategy a b)%Z.
Proof.
  intros Ha Hb. rewrite !compare_exact by done. rewrite <- Z.sgn_opp. f_equal.
  unfold difference. repeat case_match; lia.
Qed.

(** Ranking no later than: the strategies are total preorders of the members that
    can be ranked. *)
Lemma compare_trans strategy a b c :
  rankable a -> rankable b -> rankable c ->
  (compare strategy a b <= 0)%Z -> (compare strategy b c <= 0)%Z ->
  (compare strategy a c <= 0)%Z.
Proof.
  intros [Ha Ta] [Hb Tb] [Hc Tc]. rewrite !compare_exact by done.
  rewrite !Z.sgn_nonpos. unfold difference.
  destruct (String.eqb strategy PlacementLeastProvisioned); [|case_match; lia].
  set (x := (Provisioned a + Placed a)%Z). set (y := (Provisioned b + Placed b)%Z).
  set (z := (Provisioned c + Placed c)%Z). clearbody x y z. intros H1 H2.
  assert (Total b * (x * Total c - z * Total a) <= 0)%Z; [|nia].
  assert (x * Total b * Total c <= y * Total a * Total c)%Z by nia.
  assert (y * Total c * Total a <= z * Total b * Total a)%Z by nia. lia.
Qed.

Lemma compare_refl strategy a : sane a -> compare strategy a a = 0%Z.
Proof. intros Ha. pose proof (compare_flip strategy a a Ha Ha). lia. Qed.

Lemma compare_values strategy a b :
  sane a -> sane b -> (-1 <= compare strategy a b <= 1)%Z.
Proof. intros Ha Hb. rewrite compare_exact by done. destruct (difference _ _ _); simpl; lia. Qed.

(** ** The scan keeps exactly the members none ranks before *)

Definition minimal (strategy : string) (l : list candidate) (c : candidate) : bool :=
  forallb (fun c' => negb (compare strategy c' c =? -1)%Z) l.

Lemma minimal_spec strategy l c :
  minimal strategy l c = true <-> forall c', c' ∈ l -> compare strategy c' c <> (-1)%Z.
Proof.
  unfold minimal. rewrite forallb_forall. setoid_rewrite <- list_elem_of_In.
  apply forall_proper. intros c'. rewrite negb_true_iff, Z.eqb_neq. done.
Qed.

Definition minima (strategy : string) (l : list candidate) : list candidate :=
  filter (fun c => minimal strategy l c = true) l.

Section Scan.

Context (strategy : string).

Implicit Types (l : list candidate) (c x b : candidate).

(** Two comparisons compose, once the three members can be ranked. *)
Ltac compare_from x y z :=
  let Hx := fresh "Rx" in let Hy := fresh "Ry" in let Hz := fresh "Rz" in
  assert (Hx : rankable x) by auto; assert (Hy : rankable y) by auto;
  assert (Hz : rankable z) by auto;
  pose proof (compare_trans strategy x y z Hx Hy Hz);
  pose proof (compare_trans strategy z y x Hz Hy Hx);
  pose proof (compare_trans strategy y x z Hy Hx Hz);
  pose proof (compare_trans strategy x z y Hx Hz Hy);
  pose proof (compare_trans strategy y z x Hy Hz Hx);
  pose proof (compare_trans strategy z x y Hz Hx Hy);
  pose proof (compare_flip strategy x y (proj1 Hx) (proj1 Hy));
  pose proof (compare_flip strategy y z (proj1 Hy) (proj1 Hz));
  pose proof (compare_flip strategy x z (proj1 Hx) (proj1 Hz));
  pose proof (compare_values strategy x y (proj1 Hx) (proj1 Hy));
  pose proof (compare_values strategy y z (proj1 Hy) (proj1 Hz));
  pose proof (compare_values strategy x z (proj1 Hx) (proj1 Hz)).

Lemma minimal_snoc l x b :
  Forall rankable (l ++ [x]) -> b ∈ l -> minimal strategy l b = true ->
  (forall c, c ∈ l -> minimal strategy (l ++ [x]) c =
     minimal strategy l c && negb (compare strategy x b =? -1)%Z) /\
  minimal strategy (l ++ [x]) x = negb (compare strategy x b =? 1)%Z.
Proof.
  intros Hall Hb Hmin. rewrite minimal_spec in Hmin.
  assert (Hr : forall c, c ∈ l -> rankable c).
  { intros c Hc. rewrite Forall_forall in Hall. apply Hall, elem_of_app. by left. }
  assert (Hx : rankable x) by (rewrite Forall_app, Forall_singleton in Hall; naive_solver).
  split.
  - intros c Hc. apply eq_bool_prop_intro. rewrite !Is_true_true, andb_true_iff.
    rewrite !minimal_spec, negb_true_iff, Z.eqb_neq.
    assert (Rc : rankable c) by auto. assert (Rb : rankable b) by auto.
    compare_from x b c. pose proof (Hmin c Hc). split.
    + intros H'. assert (Hxc : compare strategy x c <> (-1)%Z).
      { apply H', elem_of_app. right. by left. }
      assert (Hbc : compare strategy b c <> (-1)%Z) by (apply H', elem_of_app; by left).
      split; [|lia]. intros c' Hc'. apply H', elem_of_app. by left.
    + intros [Hm1 Hm2] c' [Hc'|Hc'%list_elem_of_singleton]%elem_of_app; [by apply Hm1|subst c'].
      pose proof (Hm1 b Hb). lia.
  - apply eq_bool_prop_intro. rewrite !Is_true_true, minimal_spec, negb_true_iff, Z.eqb_neq.
    assert (Rb : rankable b) by auto.
    pose proof (compare_flip strategy x b (proj1 Hx) (proj1 Rb)). split.
    + intros H'. assert (compare strategy b x <> (-1)%Z) by (apply H', elem_of_app; by left). lia.
    + intros H' c' [Hc'|Hc'%list_elem_of_singleton]%elem_of_app.
      * assert (Rc : rankable c') by auto. compare_from x b c'. pose proof (Hmin c' Hc'). lia.
      * subst c'. rewrite compare_refl; [done|apply Hx].
Qed.

Lemma keep_minima l x :
  Forall rankable (l ++ [x]) -> minima strategy l <> [] ->
  keep strategy (minima strategy l) x = minima strategy (l ++ [x]).
Proof.
  intros Hall Hne. unfold keep. destruct (minima strategy l) as [|b bs] eqn:E; [done|].
  assert (Hb : b ∈ minima strategy l) by (rewrite E; left).
  unfold minima in Hb. apply list_elem_of_filter in Hb as [Hmin Hb].
  destruct (minimal_snoc l x b Hall Hb Hmin) as [Hl Hx].
  assert (Hf : filter (fun c => minimal strategy (l ++ [x]) c = true) l =
    if (compare strategy x b =? -1)%Z then [] else b :: bs).
  { rewrite <- E. unfold minima. destruct (compare strategy x b =? -1)%Z.
    - apply filter_none. intros c Hc. by rewrite Hl, andb_false_r by done.
    - apply filter_ext_in. intros c Hc. by rewrite Hl, andb_true_r by done. }
  unfold minima at 1. rewrite filter_app, Hf, filter_cons, Hx.
  assert (Rb : rankable b /\ rankable x).
  { rewrite Forall_app, Forall_singleton, Forall_forall in Hall. naive_solver. }
  destruct Rb as [[Sb _] [Sx _]]. pose proof (compare_values strategy x b Sx Sb).
  destruct (Z.eqb_spec (compare strategy x b) (-1)) as [->|]; [done|].
  destruct (Z.eqb_spec (compare strategy x b) 0) as [->|]; [done|].
  assert (compare strategy x b = 1%Z) as -> by lia. simpl. by rewrite app_nil_r.
Qed.

Lemma scan_minima first rest :
  Forall rankable (first :: rest) ->
  foldl (keep strategy) [first] rest = minima strategy (first :: rest) /\
  minima strategy (first :: rest) <> [].
Proof.
  induction rest as [|x rest IH] using rev_ind; intros Hall.
  - assert (Hf : rankable first) by (by inversion Hall).
    assert (minima strategy [first] = [first]) as ->; [|done].
    unfold minima. rewrite filter_cons_True; [done|]. apply minimal_spec.
    intros c' ->%list_elem_of_singleton. rewrite compare_refl; [done|apply Hf].
  - assert (Hall' : Forall rankable (first :: rest)).
    { rewrite app_comm_cons, Forall_app in Hall. apply Hall. }
    destruct (IH Hall') as [IH1 IH2]. rewrite foldl_snoc, IH1, app_comm_cons.
    rewrite keep_minima by done. split; [done|]. rewrite <- keep_minima by done.
    unfold keep. destruct (minima strategy (first :: rest)); [done|]. by repeat case_match.
Qed.

End Scan.

(** ** The ranking *)

Definition room_of (size : Z) (members : list candidate) : list candidate :=
  filter (fun m => dropped m size = "") members.

Lemma sift_spec size members :
  let '(room, reasons) := foldl (sift size) ([], ∅) members in
  room = room_of size members /\
  forall name reason, reasons !! name = Some reason -> exists m, m ∈ members /\
    Name m = name /\ reason = dropped m size /\ reason <> "".
Proof.
  induction members as [|m members IH] using rev_ind; [split; [done|by intros ?? ?%lookup_empty_Some]|].
  rewrite foldl_snoc. destruct (foldl _ _ members) as [room reasons].
  destruct IH as [-> IH]. unfold room_of, sift. rewrite filter_app, filter_cons, filter_nil.
  assert (Hkeep : forall name reason, reasons !! name = Some reason -> exists m',
    m' ∈ (members ++ [m])%list /\ Name m' = name /\ reason = dropped m' size /\ reason <> "").
  { intros name reason Hr. apply IH in Hr as (m' & Hm' & H').
    exists m'. split; [|done]. apply elem_of_app. by left. }
  destruct (String.eqb_spec (dropped m size) "") as [Hd|Hne]; cbn [negb].
  - by rewrite decide_True by done.
  - rewrite decide_False by done. split; [by rewrite app_nil_r|].
    intros name reason [[<- <-]|[_ Hr]]%lookup_insert_Some; [|by apply Hkeep].
    exists m. split; [|done]. apply elem_of_app. right. by left.
Qed.

Lemma inRegions_sub members regions c : c ∈ inRegions members regions -> c ∈ members.
Proof. destruct regions; [by intros ?%elem_of_nil|]. by intros [_ ?]%list_elem_of_filter. Qed.

Lemma narrow_sub room topology c : c ∈ narrow room topology -> c ∈ room.
Proof.
  unfold narrow. destruct (inRegions room (Preferred topology)) eqn:E1.
  - destruct (inRegions room (Requisite topology)) eqn:E2; [done|]. rewrite <- E2.
    apply inRegions_sub.
  - rewrite <- E1. apply inRegions_sub.
Qed.

Lemma narrow_nil room topology : narrow room topology = [] <-> room = [].
Proof.
  split; [|intros ->].
  - unfold narrow. by repeat case_match.
  - unfold narrow, inRegions. by destruct (Preferred topology), (Requisite topology).
Qed.

Lemma bests_minima strategy candidates :
  Forall rankable candidates -> candidates <> [] ->
  bests strategy candidates = minima strategy (sorted candidates) /\
  bests strategy candidates <> [].
Proof.
  intros Hall Hne. unfold bests. assert (Hp : sorted candidates ≡ₚ candidates)
    by apply merge_sort_Permutation.
  destruct (sorted candidates) as [|first rest] eqn:E.
  { by apply Permutation_nil_l in Hp. }
  rewrite <- Hp in Hall. destruct (scan_minima strategy first rest Hall) as [-> H].
  done.
Qed.

(** The scan keeps candidates it was given, whatever their figures. *)
Lemma bests_sub strategy candidates c : c ∈ bests strategy candidates -> c ∈ candidates.
Proof.
  assert (Hp : c ∈ sorted candidates <-> c ∈ candidates)
    by (unfold sorted; by rewrite merge_sort_Permutation).
  rewrite <- Hp. clear Hp. unfold bests.
  destruct (sorted candidates) as [|first rest]; [done|].
  induction rest as [|x rest IH] using rev_ind; [done|].
  rewrite foldl_snoc, app_comm_cons, elem_of_app. unfold keep at 1.
  destruct (foldl (keep strategy) [first] rest) as [|b bs]; [by intros ?%elem_of_nil|].
  case_match; [by intros ->%list_elem_of_singleton; right; left|].
  case_match; [|by left; apply IH].
  intros [?| ->%list_elem_of_singleton]%elem_of_app; [by left; apply IH|by right; left].
Qed.

(** A member that is chosen was not dropped. *)
Lemma chosen_considered strategy members size topology draw chosen reasons :
  rank strategy members size topology draw = Some (chosen, reasons) -> chosen <> "" ->
  exists c, c ∈ members /\ Name c = chosen /\ dropped c size = "".
Proof.
  unfold rank. pose proof (sift_spec size members) as Hs.
  destruct (foldl (sift size) ([], ∅) members) as [room dropped_for]. destruct Hs as [-> _].
  destruct (narrow (room_of size members) topology) as [|x xs] eqn:E; [by intros [= <- _]|].
  destruct (bests strategy (x :: xs) !! _) as [c|] eqn:Hc; [|done].
  intros [= <- _] _. exists c. apply list_elem_of_lookup_2, bests_sub in Hc.
  rewrite <- E in Hc. apply narrow_sub, list_elem_of_filter in Hc as [??]. done.
Qed.

(** C33. The ranking against its reference, for a volume of a positive size, a draw below the
    number it is given, and members whose figures are in range: a total from 0 to below 4 EiB, a
    use and a placed sum of at least 0 and of 4 EiB together at most, a use of which a hundredfold
    is an [int64], and provisioned and placed bytes and a count of volumes that are [int64]s.  The
    members that can take the volume, in exact arithmetic, are narrowed to the preferred regions,
    or to the required ones, or not at all; among these the strategy picks exactly the ones no
    other ranks before, in name order, and the draw picks among those.  A member is chosen
    whenever any can take the volume, none is chosen that cannot, and a member given a reason for
    being dropped could not take it.  Past those figures it is not so: the hundredfold of a use
    past 81 PiB wraps around, and a member past its threshold is chosen. *)
Theorem rank_is_least strategy members size topology draw :
  (forall n, 0 < n -> draw n < n) -> Forall sane members -> (0 < size)%Z ->
  let tier := narrow (room_of size members) topology in
  let least := filter (fun c => Forall (fun c' => compare strategy c' c <> (-1)%Z) tier)
    (sorted tier) in
  exists chosen reasons,
    rank strategy members size topology draw = Some (chosen, reasons) /\
    (tier = [] <-> forall m, m ∈ members -> ~ can_take size m) /\
    (tier = [] -> chosen = "") /\
    (tier <> [] -> exists c, least !! draw (length least) = Some c /\ Name c = chosen /\
       c ∈ members /\ can_take size c) /\
    (forall name, is_Some (reasons !! name) ->
       exists m, m ∈ members /\ Name m = name /\ ~ can_take size m).
Proof.
  intros Hdraw Hsane Hsize tier least. rewrite Forall_forall in Hsane.
  assert (Hroom : forall m, m ∈ room_of size members <-> m ∈ members /\ can_take size m).
  { intros m. unfold room_of. rewrite list_elem_of_filter. split.
    - intros [Hd Hm]. split; [done|]. by apply considered_exactly; [apply Hsane|].
    - intros [Hm Hc]. split; [|done]. by apply considered_exactly; [apply Hsane|]. }
  assert (Htier : tier = [] <-> forall m, m ∈ members -> ~ can_take size m).
  { unfold tier. rewrite narrow_nil. split.
    - intros E m Hm Hc. assert (Hin : m ∈ room_of size members) by (by apply Hroom).
      rewrite E in Hin. by apply elem_of_nil in Hin.
    - intros H. apply elem_of_nil_inv. intros m [Hm Hc]%Hroom. by apply (H m). }
  assert (Hrankable : Forall rankable tier).
  { apply Forall_forall. intros c [Hm Hc]%narrow_sub%Hroom.
    apply (can_take_rankable c size); [by apply Hsane|done..]. }
  assert (Hleast : tier <> [] -> bests strategy tier = least /\ least <> []).
  { intros Hne. destruct (bests_minima strategy tier Hrankable Hne) as [-> H].
    assert (Hm : minima strategy (sorted tier) = least); [|by rewrite <- Hm].
    unfold minima, least. apply filter_ext_in. intros c _.
    rewrite minimal_spec, Forall_forall. unfold sorted.
    by setoid_rewrite (merge_sort_Permutation name_le tier). }
  unfold rank. pose proof (sift_spec size members) as Hs.
  destruct (foldl (sift size) ([], ∅) members) as [room reasons]. destruct Hs as [-> Hs].
  assert (Hreasons : forall name, is_Some (reasons !! name) ->
    exists m, m ∈ members /\ Name m = name /\ ~ can_take size m).
  { intros name [reason (m & Hm & Hn & -> & Hr)%Hs]. exists m. split; [done|]. split; [done|].
    intros Hc. apply Hr. by apply considered_exactly; [apply Hsane|]. }
  change (narrow (room_of size members) topology) with tier.
  destruct (decide (tier = [])) as [E|Hne].
  - exists "", reasons. split; [by rewrite E|]. split; [done|]. by split; [|split].
  - destruct (Hleast Hne) as [Hb Hl].
    assert (Hc : is_Some (least !! draw (length least))).
    { apply lookup_lt_is_Some_2, Hdraw. destruct least; [done|simpl; lia]. }
    destruct Hc as [c Hc]. exists (Name c), reasons.
    assert (Hin : c ∈ tier).
    { apply list_elem_of_lookup_2, list_elem_of_filter in Hc as [_ Hc]. unfold sorted in Hc.
      by rewrite merge_sort_Permutation in Hc. }
    split; [by destruct tier; [|rewrite Hb, Hc]|]. split; [done|]. split; [done|].
    split; [|done]. intros _. exists c. do 2 (split; [done|]).
    unfold tier in Hin. by apply narrow_sub, Hroom in Hin.
Qed.

(** ** Concrete members *)

Definition member (name : string) (total used : Z) (region : string) : candidate :=
  mkCandidate name name true true total used used 0 80 1 region.

Definition alpha := member "alpha" 1000 700 "east".
Definition beta := member "beta" 1000 200 "west".
Definition gamma := member "gamma" 1000 200 "west".
Definition omega := member "omega" 1000 900 "west".

Definition members : list candidate := [omega; gamma; alpha; beta].

Lemma members_sane : Forall sane members.
Proof. repeat constructor; vm_compute; by intros [=]. Qed.

Lemma considered_exactly_witness : dropped alpha 100 = "" /\ ~ can_take 400 alpha.
Proof.
  assert (H : sane alpha) by (repeat constructor; vm_compute; by intros [=]).
  split.
  - apply (considered_exactly alpha 100 H). unfold can_take. simpl. lia.
  - intros Hc%(considered_exactly alpha 400 H). by vm_compute in Hc.
Defined.

Lemma rank_is_least_witness :
  exists reasons, rank PlacementMostAvailableCapacity members 250
    (mkTopology ["west"] []) (fun n => n - 1) = Some ("gamma", reasons).
Proof.
  destruct (rank_is_least PlacementMostAvailableCapacity members 250 (mkTopology ["west"] [])
    (fun n => n - 1)) as (chosen & reasons & H & _); [lia|apply members_sane|lia|].
  exists reasons. rewrite H. vm_compute in H. by injection H as <- _.
Defined.

(** The share in use is computed in 64 bits, and the hundredfold of a used space
    past 81 PiB wraps around: a member over its critical threshold is considered. *)
Lemma critical_threshold_wraps :
  let full := mkCandidate "full" "full" true true (10 ^ 17) 92233720368547759 0 0 90 0 "" in
  dropped full 1 = "" /\ (CriticalPercent full * Total full <= 100 * Used full)%Z.
Proof. vm_compute. split; [done|by intros [=]]. Qed.

End Rank.
