(* ===== verification/Placement.v ===== *)
(** The placement of volumes among a supercluster's members
    ([operator/internal/placement/service.go]).

    The service's memory (the members' ledgers, the groups it placed, what it
    announced) behind its mutex, and the placement of one volume: the record on the
    claim, the clone's source, the member that already holds the volume or its
    group, and the ranking of [Rank].  The mutex is taken for each access of the
    memory and released in between, so what other goroutines do to the memory
    between two accesses is a list of functions the model is run with.  What the
    cluster and the control plane answer to the reads of one call is a record of
    answers, and the claim's annotation the only thing a placement writes there. *)

From Stdlib Require Import Ascii String.
From S2P Require Import Prelude GoStrings Rank.

Import Rank.Rank.

#[local] Open Scope string_scope.

Module Placement.

Definition AnnotationPlacementMember : string := "storage.simplyblock.io/placement-member".
Definition readingTTL : Duration := (2 * Minute)%Z.
Definition exhaustedEventInterval : Duration := Minute.

Definition resultPlaced : string := "placed".
Definition resultRecorded : string := "recorded".
Definition resultExisting : string := "existing".
Definition resultGroup : string := "group".
Definition resultClone : string := "clone".

(** [prometheus.Capacity], as far as a placement reads it. *)
Record Capacity := mkCapacity {
  cap_Total : Z;
  cap_Used : Z;
  cap_Provisioned : Z;
  SampledAt : Time;
}.

Definition zero_capacity : Capacity := mkCapacity 0 0 0 zero_time.

(** One placement the member's next reading may not yet include. *)
Record placed := mkPlaced { p_volume : string; p_size : Z; p_at : Time }.

Record ledger := mkLedger {
  l_reading : Capacity;
  l_hasReading : bool;
  l_placed : list placed;
}.

Definition empty_ledger : ledger := mkLedger zero_capacity false [].

(** What the service remembers, with the clock, and what it announced. *)
Record Memory := mkMemory {
  ledgers : gmap string ledger;
  groups : gmap string string;
  lastFull : gmap string Time;
  clock : Time;
  announced : list (string * gmap string string);
}.

(** [ledgerOf]; the ledger it makes for a member it has none for is empty, and
    making it is left out. *)
Definition ledgerOf (m : Memory) (memberUUID : string) : ledger :=
  default empty_ledger (ledgers m !! memberUUID).

Definition set_ledger (m : Memory) (memberUUID : string) (l : ledger) : Memory :=
  mkMemory (<[memberUUID := l]> (ledgers m)) (groups m) (lastFull m) (clock m) (announced m).

Definition Observe (m : Memory) (memberUUID : string) (reading : Capacity) : Memory :=
  let l := ledgerOf m memberUUID in
  if l_hasReading l && (SampledAt reading <? SampledAt (l_reading l))%Z then m
  else
    set_ledger m memberUUID (mkLedger reading true
      (filter (fun p => SampledAt reading < p_at p)%Z (l_placed l))).

(** A placement in progress: the memory, and what the other goroutines do to it
    each time the mutex is about to be taken. *)
Record State := mkState { memory : Memory; others : list (Memory -> Memory) }.

Definition lock (st : State) : State :=
  match others st with
  | [] => st
  | f :: rest => mkState (f (memory st)) rest
  end.

Definition upd (st : State) (m : Memory) : State := mkState m (others st).

(** ** What a placement reads *)

(** A [StorageCluster], as far as a placement reads it.  [cl_Supercluster] is the
    supercluster block, with the strategy its placement block names. *)
Record Cluster := mkCluster {
  cl_Namespace : string;
  cl_Name : string;
  cl_UID : string;
  cl_UUID : string;
  cl_Supercluster : option (option string);
  cl_SuperclusterRef : string;
  cl_Critical : option Z;
  cl_Members : list (string * bool);
}.

(** A [StoragePool]: its cluster, and the pool's UUID in each member. *)
Record Pool := mkPool { po_ClusterRef : string; po_Members : list (string * string) }.

(** A [PersistentVolume]: whether this driver owns it, and its handle. *)
Record Volume := mkVolume { pv_Name : string; pv_Managed : bool; pv_Handle : string }.

(** [placementrpc.Request], its topology already read down to the segments. *)
Record Request := mkRequest {
  AggregateID : string;
  PoolName : string;
  VolumeName : string;
  SizeBytes : Z;
  rq_Preferred : list (gmap string string);
  rq_Requisite : list (gmap string string);
  ClaimName : string;
  ClaimNamespace : string;
  ConsistencyGroup : string;
  SourceClusterID : string;
}.

(** How the patch of the claim ended; one that failed may have landed. *)
Inductive patched := Patched | PatchFailed (landed : bool) (err : string).

(** What is answered to the reads of one call, and the draw. *)
Record Answers := mkAnswers {
  list_clusters : res string (list Cluster);
  list_clusters_in : string -> res string (list Cluster);
  get_claim : string -> string -> res string (gmap string string);
  get_pool : string -> string -> res string Pool;
  VolumeExists : Cluster -> string -> string -> res string bool;
  GroupMembers : Cluster -> string -> res string Z;
  ClusterCapacity : option (string -> res string (option Capacity));
  list_volumes : res string (list Volume);
  list_nodes_in : string -> res string (list (string * string));
  worker_labels : string -> option (gmap string string);
  patch_claim : patched;
  recorder : bool;
  Draw : nat -> nat;
}.

Inductive place_error :=
| ErrNoClaim
| ErrListClusters (err : string)
| ErrNoSupercluster (id : string)
| ErrReadClaim (err : string)
| ErrListMembers (err : string)
| ErrNoLongerMember (recorded : string)
| ErrSourceNotMember (source : string)
| ErrNoPool (pool : string)
| ErrAskVolume (member err : string)
| ErrAskGroup (member err : string)
| ErrGroupSplit (names : list string)
| ErrGroupMemberClosed (member : string)
| ErrListVolumes (err : string)
| ErrExhausted (reasons : gmap string string)
| ErrNotMember (chosen : string)
| ErrRecord (member err : string)
| ErrDraw.

(** The gRPC code each is answered with; [ErrDraw] stands for the panic of a draw
    out of range. *)
Definition status_code (e : place_error) : string :=
  match e with
  | ErrNoClaim | ErrNoLongerMember _ | ErrNoPool _ | ErrGroupSplit _
  | ErrGroupMemberClosed _ => "FailedPrecondition"
  | ErrListClusters _ | ErrReadClaim _ | ErrListMembers _ | ErrAskVolume _ _
  | ErrAskGroup _ _ | ErrListVolumes _ | ErrRecord _ _ => "Unavailable"
  | ErrNoSupercluster _ => "NotFound"
  | ErrSourceNotMember _ => "InvalidArgument"
  | ErrExhausted _ => "ResourceExhausted"
  | ErrNotMember _ => "Internal"
  | ErrDraw => "panic"
  end.

Section Place.

Context (a : Answers) (rq : Request).

(** [supercluster]: the supercluster an aggregate identifier names. *)
Definition supercluster : res place_error Cluster :=
  match list_clusters a with
  | Err err => Err (ErrListClusters err)
  | Ok clusters =>
      match find_first (fun c => match cl_Supercluster c with
                                 | Some _ => String.eqb (cl_UUID c) (AggregateID rq)
                                 | None => false
                                 end) clusters with
      | Some c => Ok c
      | None => Err (ErrNoSupercluster (AggregateID rq))
      end
  end.

Definition cluster_le (x y : Cluster) : Prop := String.le (cl_Name x) (cl_Name y).
#[local] Instance cluster_le_dec : RelDecision cluster_le.
Proof. intros x y. unfold cluster_le. exact _. Defined.

(** [members], in name order. *)
Definition members (sc : Cluster) : res place_error (list Cluster) :=
  match list_clusters_in a (cl_Namespace sc) with
  | Err err => Err (ErrListMembers err)
  | Ok clusters => Ok (merge_sort cluster_le (List.filter (fun c =>
      String.eqb (cl_SuperclusterRef c) (cl_Name sc) && negb (String.eqb (cl_UUID c) ""))
        clusters))
  end.

Definition with_uuid (ms : list Cluster) (uuid : string) : option Cluster :=
  find_first (fun c => String.eqb (cl_UUID c) uuid) ms.

(** [holderOf]: the member that already holds a volume of the request's name,
    eligible or not. *)
Fixpoint ask_holders (pools : gmap string string) (ms : list Cluster)
    : res place_error (option Cluster) :=
  match ms with
  | [] => Ok None
  | m :: ms =>
      let poolUUID := default "" (pools !! cl_Name m) in
      if String.eqb poolUUID "" then ask_holders pools ms
      else
        match VolumeExists a m poolUUID (VolumeName rq) with
        | Err err => Err (ErrAskVolume (cl_Name m) err)
        | Ok true => Ok (Some m)
        | Ok false => ask_holders pools ms
        end
  end.

Definition pool_uuids (p : Pool) : gmap string string :=
  foldl (fun pools row => <[row.1 := row.2]> pools) ∅ (po_Members p).

Definition holderOf (sc : Cluster) (ms : list Cluster) : res place_error (option Cluster) :=
  match get_pool a (cl_Namespace sc) (PoolName rq) with
  | Err _ => Err (ErrNoPool (PoolName rq))
  | Ok p =>
      if negb (String.eqb (po_ClusterRef p) (cl_Name sc)) then Err (ErrNoPool (PoolName rq))
      else ask_holders (pool_uuids p) ms
  end.

(** [eligible]: the supercluster's verdict on a member. *)
Definition eligible (sc : Cluster) (member : string) : bool :=
  match find_first (fun row => String.eqb row.1 member) (cl_Members sc) with
  | Some row => row.2
  | None => false
  end.

Definition group_key (sc : Cluster) (group : string) : string := cl_UID sc ++ "/" ++ group.

Fixpoint group_counts (group : string) (ms : list Cluster) : res place_error (list Cluster) :=
  match ms with
  | [] => Ok []
  | m :: ms =>
      match GroupMembers a m group with
      | Err err => Err (ErrAskGroup (cl_Name m) err)
      | Ok count =>
          rest <-- group_counts group ms ;;
          Ok (if (0 <? count)%Z then m :: rest else rest)
      end
  end.

(** [groupHolder]: the member the group lives in, as the control planes answer, or
    as the service placed it when none holds a volume of it yet. *)
Definition groupHolder (sc : Cluster) (ms : list Cluster) (group : string) (st : State)
    : State * res place_error (option Cluster) :=
  match group_counts group ms with
  | Err err => (st, Err err)
  | Ok holders =>
      let '(st, holders) :=
        match holders with
        | [] =>
            let st := lock st in
            let placedIn := default "" (groups (memory st) !! group_key sc group) in
            (st, List.filter (fun m => String.eqb (cl_UUID m) placedIn) ms)
        | _ => (st, holders)
        end in
      match holders with
      | [] => (st, Ok None)
      | [h] => if negb (eligible sc (cl_Name h)) then (st, Err (ErrGroupMemberClosed (cl_Name h)))
               else (st, Ok (Some h))
      | _ => (st, Err (ErrGroupSplit (cl_Name <$> holders)))
      end
  end.

(** [volumeCounts]: the volumes whose handle names each member, and the ones placed
    in it whose [PersistentVolume] does not exist yet. *)
Definition bump (counts : gmap string Z) (uuid : string) : gmap string Z :=
  <[uuid := (default 0 (counts !! uuid) + 1)%Z]> counts.

Definition count_volume (counts : gmap string Z) (pv : Volume) : gmap string Z :=
  if pv_Managed pv then
    match Cut (pv_Handle pv) ":" with
    | (cluster, _, true) => bump counts cluster
    | _ => counts
    end
  else counts.

Definition count_placed (m : Memory) (names : list string) (counts : gmap string Z)
    (uuid : string) : gmap string Z :=
  foldl (fun counts p => if contains names (p_volume p) then counts else bump counts uuid)
    counts (l_placed (ledgerOf m uuid)).

Definition volumeCounts (ms : list Cluster) (st : State) : State * res place_error (gmap string Z) :=
  match list_volumes a with
  | Err err => (st, Err (ErrListVolumes err))
  | Ok pvs =>
      let st := lock st in
      (st, Ok (foldl (fun counts m => count_placed (memory st) (pv_Name <$> pvs) counts (cl_UUID m))
                 (foldl count_volume ∅ pvs) ms))
  end.

(** [regions]: each member's region, read from the labels of its workers; none when
    they carry none or disagree. *)
Definition LabelTopologyRegion : string := "topology.kubernetes.io/region".

Definition see_region (seen : gmap string (gset string)) (node : string * string)
    : gmap string (gset string) :=
  let '(clusterRef, worker) := node in
  if String.eqb worker "" then seen
  else
    match worker_labels a worker with
    | None => seen
    | Some labels =>
        let region := default "" (labels !! LabelTopologyRegion) in
        if String.eqb region "" then seen
        else <[clusterRef := {[region]} ∪ default ∅ (seen !! clusterRef)]> seen
    end.

Definition the_region (set : gset string) : string :=
  match elements set with [region] => region | _ => "" end.

Definition regions (ms : list Cluster) : gmap string string :=
  match ms with
  | [] => ∅
  | m :: _ =>
      match list_nodes_in a (cl_Namespace m) with
      | Err _ => ∅
      | Ok nodes => the_region <$> foldl see_region ∅ nodes
      end
  end.

(** [regionsOf]: the regions a topology names, in order, once each. *)
Definition regionsOf (topologies : list (gmap string string)) : list string :=
  foldl (fun rs segments =>
    let region := default "" (segments !! LabelTopologyRegion) in
    if negb (String.eqb region "") && negb (contains rs region) then (rs ++ [region])%list else rs)
    [] topologies.

(** ** Ranking the members *)

(** [s.now().Sub(reading.SampledAt) > readingTTL]; a difference past an [int64]
    saturates, on the same side of the bound. *)
Definition stale (st : State) (reading : Capacity) : bool :=
  (readingTTL <? clock (memory st) - SampledAt reading)%Z.

Definition add_placed (c : candidate) (l : ledger) : Z :=
  foldl (fun total p => wrap64 (total + p_size p)) (Placed c) (l_placed l).

Definition with_reading (c : candidate) (reading : Capacity) (l : ledger) : candidate :=
  mkCandidate (Name c) (UUID c) (Eligible c) true (cap_Total reading) (cap_Used reading)
    (cap_Provisioned reading) (add_placed c l) (CriticalPercent c) (Volumes c) (Region c).

(** The second half of [fillReading], from the staleness check on. *)
Definition fill_from (reading : option Capacity) (c : candidate) (st : State)
    : State * candidate :=
  match reading with
  | None => (st, c)
  | Some r =>
      if stale st r then (st, c)
      else
        let st := lock st in
        (st, with_reading c r (ledgerOf (memory st) (UUID c)))
  end.

(** [fillReading]: the member's reading, refreshed when there is none or it is old,
    and what was placed in it since.  The reading and the placements are two
    accesses of the memory. *)
Definition fillReading (c : candidate) (st : State) : State * candidate :=
  let st := lock st in
  let l := ledgerOf (memory st) (UUID c) in
  let reading := if l_hasReading l then Some (l_reading l) else None in
  let refresh := match reading with None => true | Some r => stale st r end in
  match ClusterCapacity a with
  | Some ask =>
      if refresh then
        match ask (UUID c) with
        | Err _ => (st, c)
        | Ok (Some fresh) =>
            if IsZero (SampledAt fresh) then fill_from reading c st
            else
              let st := lock st in
              fill_from (Some fresh) c (upd st (Observe (memory st) (UUID c) fresh))
        | Ok None => fill_from reading c st
        end
      else fill_from reading c st
  | None => fill_from reading c st
  end.

Definition candidate_of (sc : Cluster) (volumes : gmap string Z) (rs : gmap string string)
    (m : Cluster) : candidate :=
  mkCandidate (cl_Name m) (cl_UUID m) (eligible sc (cl_Name m)) false 0 0 0 0
    (default 0%Z (cl_Critical m)) (default 0%Z (volumes !! cl_UUID m))
    (default "" (rs !! cl_Name m)).

Definition weigh (sc : Cluster) (volumes : gmap string Z) (rs : gmap string string)
    (m : Cluster) (st : State) : State * candidate :=
  let c := candidate_of sc volumes rs m in
  if Eligible c then fillReading c st else (st, c).

(** The loop of [rankMembers] that makes the candidates. *)
Fixpoint weigh_all (sc : Cluster) (volumes : gmap string Z) (rs : gmap string string)
    (ms : list Cluster) (st : State) : State * list candidate :=
  match ms with
  | [] => (st, [])
  | m :: ms =>
      let '(st, c) := weigh sc volumes rs m st in
      let '(st, cs) := weigh_all sc volumes rs ms st in
      (st, c :: cs)
  end.

Definition strategy_of (sc : Cluster) : string :=
  match cl_Supercluster sc with
  | Some (Some strategy) =>
      if String.eqb strategy "" then PlacementMostAvailableCapacity else strategy
  | _ => PlacementMostAvailableCapacity
  end.

(** [announceExhausted]: at most one event in an [exhaustedEventInterval]. *)
Definition announceExhausted (sc : Cluster) (reasons : gmap string string) (st : State) : State :=
  let st := lock st in
  let m := memory st in
  let recent := match lastFull m !! cl_UID sc with
    | Some last => (clock m - last <? exhaustedEventInterval)%Z
    | None => false
    end in
  if recent then st
  else
    upd st (mkMemory (ledgers m) (groups m) (<[cl_UID sc := clock m]> (lastFull m)) (clock m)
      (if recorder a then (announced m ++ [(cl_UID sc, reasons)])%list else announced m)).

Definition rankMembers (sc : Cluster) (ms : list Cluster) (st : State)
    : State * res place_error Cluster :=
  let '(st, volumes) := volumeCounts ms st in
  match volumes with
  | Err err => (st, Err err)
  | Ok volumes =>
      let rs := regions ms in
      let '(st, candidates) := weigh_all sc volumes rs ms st in
      let topology := mkTopology (regionsOf (rq_Preferred rq)) (regionsOf (rq_Requisite rq)) in
      match rank (strategy_of sc) candidates (SizeBytes rq) topology (Draw a) with
      | None => (st, Err ErrDraw)
      | Some (chosen, reasons) =>
          if String.eqb chosen "" then
            (announceExhausted sc reasons st, Err (ErrExhausted reasons))
          else
            match find_first (fun m => String.eqb (cl_Name m) chosen) ms with
            | Some m => (st, Ok m)
            | None => (st, Err (ErrNotMember chosen))
            end
      end
  end.

(** ** Placing a volume *)

(** What a call leaves: the memory, what its patch wrote on the claim, and the
    answer, a member and the result that labels the decision. *)
Record Outcome := mkOutcome {
  out_state : State;
  out_written : option string;
  out_answer : res place_error (Cluster * string);
}.

(** The placement counted against the member, which [record] and [Choose] write. *)
Definition count_against (uuid volume : string) (size : Z) (st : State) : State :=
  let st := lock st in
  let m := memory st in
  let l := ledgerOf m uuid in
  upd st (set_ledger m uuid (mkLedger (l_reading l) (l_hasReading l)
    (l_placed l ++ [mkPlaced volume size (clock m)])%list)).

Definition record (m : Cluster) (result : string) (st : State) : Outcome :=
  match patch_claim a with
  | PatchFailed landed err =>
      mkOutcome st (if landed then Some (cl_UUID m) else None) (Err (ErrRecord (cl_Name m) err))
  | Patched =>
      let st :=
        if String.eqb result resultPlaced || String.eqb result resultGroup then
          count_against (cl_UUID m) (VolumeName rq) (SizeBytes rq) st
        else st in
      mkOutcome st (Some (cl_UUID m)) (Ok (m, result))
  end.

Definition remember_group (sc m : Cluster) (st : State) : State :=
  if String.eqb (ConsistencyGroup rq) "" then st
  else
    let st := lock st in
    let mem := memory st in
    upd st (mkMemory (ledgers mem) (<[group_key sc (ConsistencyGroup rq) := cl_UUID m]> (groups mem))
      (lastFull mem) (clock mem) (announced mem)).

(** The end of [place], for a volume nothing decides the member of. *)
Definition place_ranked (sc : Cluster) (ms : list Cluster) (st : State) : Outcome :=
  let '(st, chosen) := rankMembers sc ms st in
  match chosen with
  | Err err => mkOutcome st None (Err err)
  | Ok m => record m resultPlaced (remember_group sc m st)
  end.

(** [place] from the consistency group on. *)
Definition place_in_group (sc : Cluster) (ms : list Cluster) (st : State) : Outcome :=
  if String.eqb (ConsistencyGroup rq) "" then place_ranked sc ms st
  else
    let '(st, holder) := groupHolder sc ms (ConsistencyGroup rq) st in
    match holder with
    | Err err => mkOutcome st None (Err err)
    | Ok (Some m) => record m resultGroup st
    | Ok None => place_ranked sc ms st
    end.

(** [place] of a claim with no record on it. *)
Definition place_new (sc : Cluster) (ms : list Cluster) (st : State) : Outcome :=
  if negb (String.eqb (SourceClusterID rq) "") then
    match with_uuid ms (SourceClusterID rq) with
    | Some m => record m resultClone st
    | None => mkOutcome st None (Err (ErrSourceNotMember (SourceClusterID rq)))
    end
  else
    match holderOf sc ms with
    | Err err => mkOutcome st None (Err err)
    | Ok (Some m) => record m resultExisting st
    | Ok None => place_in_group sc ms st
    end.

Definition place (sc : Cluster) (st : State) : Outcome :=
  match get_claim a (ClaimNamespace rq) (ClaimName rq) with
  | Err err => mkOutcome st None (Err (ErrReadClaim err))
  | Ok annotations =>
      match members sc with
      | Err err => mkOutcome st None (Err err)
      | Ok ms =>
          let recorded := default "" (annotations !! AnnotationPlacementMember) in
          if negb (String.eqb recorded "") then
            match with_uuid ms recorded with
            | Some m => mkOutcome st None (Ok (m, resultRecorded))
            | None => mkOutcome st None (Err (ErrNoLongerMember recorded))
            end
          else place_new sc ms st
      end
  end.

(** [Place].  The supercluster's lock it takes is what makes the placements of one
    supercluster one after the other; [others] are those of the other ones, and the
    readings. *)
Definition Place (st : State) : Outcome :=
  if String.eqb (ClaimName rq) "" || String.eqb (ClaimNamespace rq) "" then
    mkOutcome st None (Err ErrNoClaim)
  else
    match supercluster with
    | Err err => mkOutcome st None (Err err)
    | Ok sc => place sc st
    end.

End Place.

(** [Choose], whose request names a pool, a volume and a size only. *)
Definition Choose (a : Answers) (sc : Cluster) (poolName volumeName : string) (size : Z)
    (st : State) : State * res place_error string :=
  match members a sc with
  | Err err => (st, Err err)
  | Ok ms =>
      let rq := mkRequest "" poolName volumeName size [] [] "" "" "" "" in
      let '(st, chosen) := rankMembers a rq sc ms st in
      match chosen with
      | Err err => (st, Err err)
      | Ok m => (count_against (cl_UUID m) volumeName size st, Ok (cl_UUID m))
      end
  end.

(** ** What a call answers and writes *)

Lemma members_uuid a sc ms m : members a sc = Ok ms -> m ∈ ms -> cl_UUID m <> "".
Proof.
  unfold members. destruct (list_clusters_in a _) as [clusters|]; [|done].
  intros [= <-]. rewrite merge_sort_Permutation, list_elem_of_In, filter_In.
  intros [_ [_ ?%negb_true_iff]%andb_true_iff] E. by rewrite E in *.
Qed.

Lemma with_uuid_spec ms u m : with_uuid ms u = Some m -> m ∈ ms /\ cl_UUID m = u.
Proof. intros [Hm ?%String.eqb_eq]%find_first_Some. done. Qed.

Lemma ask_holders_in a rq pools ms m : ask_holders a rq pools ms = Ok (Some m) -> m ∈ ms.
Proof.
  induction ms as [|m' ms IH]; [done|]. simpl. intros Hh.
  destruct (String.eqb _ ""); [right; by apply IH|].
  destruct (VolumeExists a m' _ _) as [[]|]; [|right; by apply IH|done].
  injection Hh as <-. left.
Qed.

Lemma holderOf_in a rq sc ms m : holderOf a rq sc ms = Ok (Some m) -> m ∈ ms.
Proof.
  unfold holderOf. destruct (get_pool a _ _); [|done]. case_match; [done|]. apply ask_holders_in.
Qed.

Lemma rankMembers_in a rq sc ms st st' m : rankMembers a rq sc ms st = (st', Ok m) -> m ∈ ms.
Proof.
  unfold rankMembers. destruct (volumeCounts a ms st) as [st1 [volumes|]]; [|done].
  destruct (weigh_all _ _ _ _ _ _) as [st2 cs].
  destruct (rank _ _ _ _ _) as [[chosen reasons]|]; [|done].
  case_match; [done|]. case_match; [|done]. intros [= _ <-]. by eapply find_first_Some.
Qed.

Lemma group_counts_in a group ms holders m :
  group_counts a group ms = Ok holders -> m ∈ holders -> m ∈ ms.
Proof.
  revert holders. induction ms as [|m' ms IH]; intros holders; simpl.
  { by intros [= <-] ?%elem_of_nil. }
  destruct (GroupMembers a m' group) as [n|]; [|done].
  destruct (group_counts a group ms) as [rest|]; [|done]. intros [= <-].
  destruct (0 <? n)%Z; [|right; by eapply IH].
  intros [->|?]%elem_of_cons; [left | right; by eapply IH].
Qed.

Lemma groupHolder_in a sc ms group st st' m :
  groupHolder a sc ms group st = (st', Ok (Some m)) -> m ∈ ms.
Proof.
  unfold groupHolder. destruct (group_counts a group ms) as [holders|] eqn:E; [|done].
  destruct holders as [|h [|]]; simpl.
  - destruct (List.filter _ ms) as [|h [|]] eqn:F; [done| |done].
    case_match; [done|]. intros [= _ <-].
    assert (Hin : In h (List.filter (fun m => String.eqb (cl_UUID m)
      (default "" (groups (memory (lock st)) !! group_key sc group))) ms)).
    { rewrite F. by left. }
    by apply filter_In in Hin as [?%list_elem_of_In _].
  - case_match; [done|]. intros [= _ <-]. eapply group_counts_in; [done|left].
  - done.
Qed.

(** What a placement of a claim without a record does: the answer is the member it
    wrote, and it wrote one of the members. *)
Definition recorded_in (ms : list Cluster) (o : Outcome) : Prop :=
  (forall m result, out_answer o = Ok (m, result) ->
     m ∈ ms /\ out_written o = Some (cl_UUID m) /\ result <> resultRecorded) /\
  (forall u, out_written o = Some u -> exists m, m ∈ ms /\ cl_UUID m = u).

Lemma record_recorded a rq ms m result st :
  m ∈ ms -> result <> resultRecorded -> recorded_in ms (record a rq m result st).
Proof.
  intros Hm Hr. unfold record, recorded_in. destruct (patch_claim a) as [|[] err]; simpl; split.
  - by intros ?? [= <- <-].
  - intros u [= <-]. by exists m.
  - done.
  - intros u [= <-]. by exists m.
  - done.
  - done.
Qed.

Lemma error_recorded ms st err : recorded_in ms (mkOutcome st None (Err err)).
Proof. by split. Qed.

Lemma place_ranked_recorded a rq sc ms st : recorded_in ms (place_ranked a rq sc ms st).
Proof.
  unfold place_ranked. destruct (rankMembers a rq sc ms st) as [st' [m|err]] eqn:E.
  - apply record_recorded; [by eapply rankMembers_in|done].
  - apply error_recorded.
Qed.

Lemma place_new_recorded a rq sc ms st : recorded_in ms (place_new a rq sc ms st).
Proof.
  unfold place_new, place_in_group. destruct (String.eqb (SourceClusterID rq) ""); simpl.
  2:{ destruct (with_uuid ms _) as [m|] eqn:E; [|apply error_recorded].
      apply with_uuid_spec in E as [? _]. by apply record_recorded. }
  destruct (holderOf a rq sc ms) as [[m|]|] eqn:E; [| |apply error_recorded].
  { apply record_recorded; [by eapply holderOf_in|done]. }
  destruct (String.eqb (ConsistencyGroup rq) ""); [apply place_ranked_recorded|].
  destruct (groupHolder _ _ _ _ _) as [st' [[m|]|err]] eqn:G;
    [|apply place_ranked_recorded|apply error_recorded].
  apply record_recorded; [by eapply groupHolder_in|done].
Qed.

(** What a call does of a claim whose record is [recorded], empty when it has none. *)
Lemma place_recorded a rq sc st annotations :
  get_claim a (ClaimNamespace rq) (ClaimName rq) = Ok annotations ->
  let recorded := default "" (annotations !! AnnotationPlacementMember) in
  let o := place a rq sc st in
  (recorded <> "" -> out_written o = None /\
     forall m result, out_answer o = Ok (m, result) -> cl_UUID m = recorded) /\
  (recorded = "" -> (forall u, out_written o = Some u -> u <> "") /\
     forall m result, out_answer o = Ok (m, result) -> out_written o = Some (cl_UUID m)).
Proof.
  intros Hg recorded o. unfold o, place. rewrite Hg.
  destruct (members a sc) as [ms|err] eqn:Em; [|by split].
  fold recorded. destruct (String.eqb_spec recorded "") as [E|Hne]; simpl; split; [done| | |done].
  - intros _. destruct (place_new_recorded a rq sc ms st) as [H1 H2]. split.
    + intros u (m & Hm & <-)%H2. by eapply members_uuid.
    + intros m result Ha. by apply H1 in Ha as (_ & ? & _).
  - intros _. destruct (with_uuid ms recorded) as [m|] eqn:E; simpl; split; [done| |done|done].
    intros m' result [= <- _]. by apply with_uuid_spec in E as [_ ?].
Qed.

Lemma Place_recorded a rq st :
  let o := Place a rq st in
  (out_written o = None /\ forall m result, out_answer o <> Ok (m, result)) \/
  exists annotations,
    get_claim a (ClaimNamespace rq) (ClaimName rq) = Ok annotations /\
    let recorded := default "" (annotations !! AnnotationPlacementMember) in
    (recorded <> "" -> out_written o = None /\
       forall m result, out_answer o = Ok (m, result) -> cl_UUID m = recorded) /\
    (recorded = "" -> (forall u, out_written o = Some u -> u <> "") /\
       forall m result, out_answer o = Ok (m, result) -> out_written o = Some (cl_UUID m)).
Proof.
  unfold Place. destruct (_ || _); [by left|]. destruct (supercluster a rq) as [sc|]; [|by left].
  destruct (get_claim a (ClaimNamespace rq) (ClaimName rq)) as [annotations|] eqn:E.
  - right. exists annotations. split; [done|]. by apply place_recorded.
  - left. unfold place. by rewrite E.
Qed.

(** ** A claim is a register *)

(** The claims as the API server has them, and the service's memory. *)
Abbreviation claim := (string * string)%type.

Record World := mkWorld {
  claims : gmap claim (gmap string string);
  remembered : Memory;
}.

Definition event : Type := option (claim * string).

Definition claim_of (rq : Request) : claim := (ClaimNamespace rq, ClaimName rq).

(** The member a call answers. *)
Definition answered (rq : Request) (o : Outcome) : event :=
  match out_answer o with
  | Ok (m, _) => Some (claim_of rq, cl_UUID m)
  | Err _ => None
  end.

Definition patch (w : gmap claim (gmap string string)) (c : claim) (written : option string)
    : gmap claim (gmap string string) :=
  match written with
  | Some uuid => alter (fun annotations => <[AnnotationPlacementMember := uuid]> annotations) c w
  | None => w
  end.

Definition register_of (annotations : gmap string string) : option string :=
  let recorded := default "" (annotations !! AnnotationPlacementMember) in
  if String.eqb recorded "" then None else Some recorded.

(** What a call read of the claim shows the member the claim carries.  The claim is read through
    the manager's cache, which may not have the patch of an earlier call yet, and of the rest of
    the claim anything may be read. *)
Definition reads_member (w : World) (a : Answers) (rq : Request) : Prop :=
  forall annotations, get_claim a (ClaimNamespace rq) (ClaimName rq) = Ok annotations ->
    exists current, claims w !! claim_of rq = Some current /\
      register_of annotations = register_of current.

Section Service.

(** The claims whose member every call that is made for them reads as it stands; for the others,
    a call may read anything. *)
Context (followed : claim -> bool).

(** The service as its callers see it: calls, whatever each is answered by the
    cluster and the control planes and whatever happens to the memory meanwhile;
    anything done to the memory between two calls; a claim created, and its other
    annotations changed. *)
Inductive world_step : World -> event -> World -> Prop :=
| step_call w a rq others :
    (followed (claim_of rq) = true -> reads_member w a rq) ->
    let o := Place a rq (mkState (remembered w) others) in
    world_step w (answered rq o)
      (mkWorld (patch (claims w) (claim_of rq) (out_written o)) (memory (out_state o)))
| step_memory w f : world_step w None (mkWorld (claims w) (f (remembered w)))
| step_create w c annotations :
    claims w !! c = None -> annotations !! AnnotationPlacementMember = None ->
    world_step w None (mkWorld (<[c := annotations]> (claims w)) (remembered w))
| step_annotate w c f :
    (forall annotations, f annotations !! AnnotationPlacementMember =
       annotations !! AnnotationPlacementMember) ->
    world_step w None (mkWorld (alter f c (claims w)) (remembered w)).

(** The contract: a write-once register for each claim, and answers that read it. *)
Abbreviation registers := (gmap claim string).

Inductive register_step : registers -> event -> registers -> Prop :=
| register_stutter r : register_step r None r
| register_decide r c u : r !! c = None -> register_step r None (<[c := u]> r)
| register_read r c u : r !! c = Some u -> register_step r (Some (c, u)) r
| register_write r c u : r !! c = None -> register_step r (Some (c, u)) (<[c := u]> r).

(** A run and the events of it. *)
Inductive run {S} (step : S -> event -> S -> Prop) : S -> list event -> S -> Prop :=
| run_nil s : run step s [] s
| run_cons s e s' es s'' : step s e s' -> run step s' es s'' -> run step s (e :: es) s''.

(** The members recorded on the claims that are followed, and the answers for those. *)
Definition recorded_members (claims : gmap claim (gmap string string)) : registers :=
  map_imap (fun c annotations => if followed c then register_of annotations else None) claims.
Definition abstract (w : World) : registers := recorded_members (claims w).
Definition shown (e : event) : event :=
  match e with
  | Some (c, _) => if followed c then e else None
  | None => None
  end.

Lemma recorded_lookup claims c :
  recorded_members claims !! c = if followed c then claims !! c ≫= register_of else None.
Proof. unfold recorded_members. rewrite map_lookup_imap. by destruct (claims !! c), (followed c). Qed.

(** A claim whose member stays, or is not followed. *)
Lemma recorded_alter f c claims :
  (followed c = true -> forall annotations, claims !! c = Some annotations ->
     register_of (f annotations) = register_of annotations) ->
  recorded_members (alter f c claims) = recorded_members claims.
Proof.
  intros Hf. apply map_eq. intros c'. rewrite !recorded_lookup.
  destruct (decide (c' = c)) as [->|Hne]; [|by rewrite lookup_alter_ne].
  rewrite lookup_alter_eq. destruct (followed c); [|done].
  destruct (claims !! c) as [annotations|]; [|done]. simpl. by apply Hf.
Qed.

(** A member recorded on a claim. *)
Lemma recorded_patch claims c annotations u :
  claims !! c = Some annotations -> followed c = true -> u <> "" ->
  recorded_members (patch claims c (Some u)) = <[c := u]> (recorded_members claims).
Proof.
  intros E Hc Hu. apply map_eq. intros c'. cbn [patch]. rewrite !recorded_lookup.
  destruct (decide (c' = c)) as [->|Hne].
  - rewrite Hc, lookup_alter_eq, E, lookup_insert_eq. simpl. unfold register_of.
    rewrite lookup_insert_eq. simpl. by destruct (String.eqb_spec u "").
  - by rewrite lookup_alter_ne, lookup_insert_ne, recorded_lookup by done.
Qed.

Lemma abstract_call w a rq others :
  (followed (claim_of rq) = true -> reads_member w a rq) ->
  let o := Place a rq (mkState (remembered w) others) in
  register_step (abstract w) (shown (answered rq o))
    (abstract (mkWorld (patch (claims w) (claim_of rq) (out_written o)) (memory (out_state o)))).
Proof.
  intros Hread o. unfold answered, abstract. cbn [claims].
  pose proof (Place_recorded a rq (mkState (remembered w) others)) as HP.
  cbv zeta in HP. fold o in HP. clearbody o.
  destruct (followed (claim_of rq)) eqn:Hf.
  2: { assert (recorded_members (patch (claims w) (claim_of rq) (out_written o)) =
         recorded_members (claims w)) as ->.
       { destruct (out_written o); [|done]. apply recorded_alter. congruence. }
       destruct (out_answer o) as [[m result]|]; simpl; rewrite ?Hf; constructor. }
  destruct HP as [[-> Hno]|(annotations & Hg & Hrec & Hnew)].
  { destruct (out_answer o) as [[m result]|]; [by destruct (Hno m result)|]. constructor. }
  destruct (Hread eq_refl annotations Hg) as (current & Hc & Hr).
  pose proof (recorded_lookup (claims w) (claim_of rq)) as Hl. rewrite Hf, Hc in Hl. simpl in Hl.
  rewrite <- Hr in Hl. unfold register_of in Hl.
  destruct (String.eqb_spec (default "" (annotations !! AnnotationPlacementMember)) "") as [E|E].
  - destruct (Hnew E) as [Hu Ha]. destruct (out_answer o) as [[m result]|].
    + rewrite (Ha m result eq_refl) in *. rewrite (recorded_patch _ _ current) by auto.
      simpl. rewrite Hf. by constructor.
    + destruct (out_written o) as [u|]; [|constructor].
      rewrite (recorded_patch _ _ current) by auto. by constructor.
  - destruct (Hrec E) as [-> Ha]. destruct (out_answer o) as [[m result]|]; [|constructor].
    simpl. rewrite Hf. apply register_read. by rewrite Hl, (Ha m result eq_refl).
Qed.

Lemma abstract_step w e w' :
  world_step w e w' -> register_step (abstract w) (shown e) (abstract w').
Proof.
  intros [w0 a rq os Hread o|w0 f|w0 c annotations Hc Ha|w0 c f Hf].
  - by apply abstract_call.
  - constructor.
  - assert (abstract (mkWorld (<[c:=annotations]> (claims w0)) (remembered w0)) = abstract w0)
      as ->; [|constructor].
    apply map_eq. intros c'. unfold abstract. rewrite !recorded_lookup. cbn [claims].
    destruct (decide (c' = c)) as [->|Hne]; [|by rewrite lookup_insert_ne].
    rewrite lookup_insert_eq, Hc. simpl. unfold register_of. rewrite Ha. by destruct (followed c).
  - assert (abstract (mkWorld (alter f c (claims w0)) (remembered w0)) = abstract w0)
      as ->; [|constructor].
    apply recorded_alter. intros _ annotations _. unfold register_of. by rewrite Hf.
Qed.

(** A register keeps its value, and an answer is the value. *)
Lemma register_run r es r' :
  run register_step r es r' ->
  (forall c u, r !! c = Some u -> r' !! c = Some u) /\
  (forall c u, Some (c, u) ∈ es -> r' !! c = Some u).
Proof.
  induction 1 as [r|r e r1 es r2 Hs _ [IH1 IH2]]; [by split; [|intros ?? ?%elem_of_nil]|].
  assert (Hkeep : forall c u, r !! c = Some u -> r1 !! c = Some u).
  { destruct Hs; intros c' u' Hl; [done| |done|];
      (destruct (decide (c' = c)) as [->|]; [congruence|by rewrite lookup_insert_ne]). }
  split; [by auto|]. intros c u [E|?]%elem_of_cons; [|by apply IH2].
  apply IH1. inversion Hs; simplify_eq; [done|]. by rewrite lookup_insert_eq.
Qed.

(** C5. For every claim whose calls read the member annotation as it stands, what the callers of
    the placement service see is a write-once register: whatever else the calls are answered by
    the cluster and the control planes, whatever fails in them, whatever happens to the service's
    memory meanwhile (a restart that empties it included), and whatever the calls for other claims
    read, every run refines one of the registers, step for step, and so every answer for such a
    claim, first or retried, is the one member that ends up recorded on it.  The claim is read
    through a cache: a call that reads a claim from before its record places it anew, so nothing
    is said of a claim for which that happens, of one somebody else writes the annotation of, or
    of one that is deleted and created again. *)
Theorem placement_refines_register w es w' :
  run world_step w es w' ->
  run register_step (abstract w) (shown <$> es) (abstract w') /\
  forall c u, followed c = true -> Some (c, u) ∈ es -> abstract w' !! c = Some u.
Proof.
  intros Hr. assert (Ha : run register_step (abstract w) (shown <$> es) (abstract w')).
  { induction Hr as [|w0 e w1 es0 w2 Hs _ IH]; [constructor|].
    econstructor; [by apply abstract_step|done]. }
  split; [done|]. intros c u Hc Hin. apply (register_run _ _ _ Ha).
  apply list_elem_of_fmap. exists (Some (c, u)). simpl. by rewrite Hc.
Qed.

End Service.

(** ** A ranked placement fits *)

(** Figures an [int64] holds with room to spare: 4 EiB of capacity, 81 PiB in use,
    and 2 EiB placed since the last reading. *)
Definition small_reading (r : Capacity) : Prop :=
  (0 <= cap_Total r < 2 ^ 62 /\ 0 <= cap_Used r /\ cap_Used r * 100 <= int64_max /\
   0 <= cap_Provisioned r <= 2 ^ 61)%Z.

Definition total_placed (l : ledger) : Z := foldr (fun p n => (p_size p + n)%Z) 0%Z (l_placed l).

Definition small_ledger (l : ledger) : Prop :=
  (l_hasReading l = true -> small_reading (l_reading l)) /\
  Forall (fun p => 0 <= p_size p)%Z (l_placed l) /\ (total_placed l <= 2 ^ 61)%Z.

Definition small_memory (m : Memory) : Prop := forall u, small_ledger (ledgerOf m u).

Definition small_answers (a : Answers) : Prop :=
  forall ask u r, ClusterCapacity a = Some ask -> ask u = Ok (Some r) -> small_reading r.

Lemma total_placed_bounds ps :
  Forall (fun p => 0 <= p_size p)%Z ps -> (0 <= foldr (fun p n => (p_size p + n)%Z) 0%Z ps)%Z.
Proof. induction 1; simpl; lia. Qed.

Lemma add_placed_exact ps z :
  Forall (fun p => 0 <= p_size p)%Z ps -> (0 <= z)%Z ->
  (z + foldr (fun p n => (p_size p + n)%Z) 0%Z ps <= int64_max)%Z ->
  foldl (fun total p => wrap64 (total + p_size p)) z ps =
    (z + foldr (fun p n => (p_size p + n)%Z) 0%Z ps)%Z.
Proof.
  intros Hps. revert z. induction Hps as [|p ps Hp Hps IH]; intros z Hz Hb; simpl in *; [lia|].
  pose proof (total_placed_bounds ps Hps).
  rewrite wrap64_id by (unfold int64_min, int64_max in *; lia). rewrite IH; lia.
Qed.

Lemma ledgerOf_set m u l v :
  ledgerOf (set_ledger m u l) v = if decide (u = v) then l else ledgerOf m v.
Proof.
  unfold ledgerOf, set_ledger. simpl. case_decide as E.
  - by rewrite E, lookup_insert_eq.
  - by rewrite lookup_insert_ne.
Qed.

Lemma lock_alone st : others st = [] -> lock st = st.
Proof. unfold lock. by intros ->. Qed.

Lemma filter_total_placed (P : placed -> Prop) `{!forall p, Decision (P p)} ps :
  Forall (fun p => 0 <= p_size p)%Z ps ->
  (foldr (fun p n => (p_size p + n)%Z) 0%Z (filter P ps)
     <= foldr (fun p n => (p_size p + n)%Z) 0%Z ps)%Z.
Proof.
  induction 1 as [|p ps Hp _ IH]; [done|]. rewrite filter_cons. case_decide; simpl; lia.
Qed.

Lemma Observe_ledger m u r v :
  ledgerOf (Observe m u r) v =
    if decide (u = v /\ (l_hasReading (ledgerOf m u) = false \/
                         (SampledAt (l_reading (ledgerOf m u)) <= SampledAt r)%Z))
    then mkLedger r true (filter (fun p => SampledAt r < p_at p)%Z (l_placed (ledgerOf m u)))
    else ledgerOf m v.
Proof.
  unfold Observe.
  destruct (l_hasReading (ledgerOf m u)) eqn:Hh; simpl;
    [destruct (Z.ltb_spec (SampledAt r) (SampledAt (l_reading (ledgerOf m u))))|].
  - rewrite decide_False; [done|]. intros [_ [?|?]]; [done|lia].
  - rewrite ledgerOf_set. repeat case_decide; naive_solver.
  - rewrite ledgerOf_set. repeat case_decide; naive_solver.
Qed.

Lemma Observe_clock m u r : clock (Observe m u r) = clock m.
Proof. unfold Observe. by destruct (l_hasReading _ && _). Qed.

Lemma Observe_small m u r : small_memory m -> small_reading r -> small_memory (Observe m u r).
Proof.
  intros Hm Hr v. rewrite Observe_ledger. case_decide; [|apply Hm].
  destruct (Hm u) as (_ & Hps & Ht). split; [done|]. simpl. split.
  - apply Forall_forall. intros p [_ Hp]%list_elem_of_filter.
    rewrite Forall_forall in Hps. by apply Hps.
  - unfold total_placed in *. simpl.
    pose proof (filter_total_placed (fun p => SampledAt r < p_at p)%Z _ Hps). lia.
Qed.

(** What [fillReading] leaves when nothing else touches the memory: the other
    ledgers and the clock as they were, and on the candidate the ledger's own
    figures, of a reading that is not old. *)
Record filled (a : Answers) (c : candidate) (st : State) (out : State * candidate) : Prop := {
  filled_alone : others out.1 = [];
  filled_clock : clock (memory out.1) = clock (memory st);
  filled_small : small_memory (memory out.1);
  filled_others : forall u, u <> UUID c -> ledgerOf (memory out.1) u = ledgerOf (memory st) u;
  filled_same : Name out.2 = Name c /\ UUID out.2 = UUID c /\ Eligible out.2 = Eligible c /\
    CriticalPercent out.2 = CriticalPercent c /\ Volumes out.2 = Volumes c;
  filled_reading : HasReading out.2 = true -> HasReading c = true \/
    let l := ledgerOf (memory out.1) (UUID c) in
    l_hasReading l = true /\ stale out.1 (l_reading l) = false /\
    out.2 = with_reading c (l_reading l) l;
}.

Lemma fill_from_filled a c st st0 reading :
  others st = [] -> clock (memory st) = clock (memory st0) -> small_memory (memory st) ->
  (forall u, u <> UUID c -> ledgerOf (memory st) u = ledgerOf (memory st0) u) ->
  (forall r, reading = Some r -> stale st r = false ->
     l_hasReading (ledgerOf (memory st) (UUID c)) = true /\
     l_reading (ledgerOf (memory st) (UUID c)) = r) ->
  filled a c st0 (fill_from reading c st).
Proof.
  intros Halone Hclock Hsmall Hothers Hr. unfold fill_from.
  assert (Hskip : filled a c st0 (st, c)) by (split; auto).
  destruct reading as [r|]; [|done]. destruct (stale st r) eqn:Es; [done|].
  rewrite lock_alone by done. destruct (Hr r eq_refl Es) as [Hh Hl].
  split; simpl; auto. intros _. right. by rewrite Hl.
Qed.

Lemma fillReading_filled a c st :
  others st = [] -> small_memory (memory st) -> small_answers a ->
  filled a c st (fillReading a c st).
Proof.
  intros Halone Hsmall Ha. unfold fillReading. rewrite lock_alone by done.
  set (l := ledgerOf (memory st) (UUID c)).
  set (reading := if l_hasReading l then Some (l_reading l) else None).
  assert (Hkeep : filled a c st (fill_from reading c st)).
  { apply fill_from_filled; [done..|]. intros r Er _. unfold reading in Er.
    destruct (l_hasReading l) eqn:Eh; [|done]. injection Er as <-. fold l. by rewrite Eh. }
  destruct (ClusterCapacity a) as [ask|] eqn:Eask; [|done].
  destruct (match reading with None => true | Some r => stale st r end) eqn:Eref; [|done].
  destruct (ask (UUID c)) as [[fresh|]|err] eqn:Efresh; [|done|].
  2:{ split; simpl; auto. }
  destruct (IsZero (SampledAt fresh)); [done|]. rewrite lock_alone by done.
  assert (Hfresh : small_reading fresh) by (by eapply Ha).
  apply fill_from_filled; simpl.
  - done.
  - apply Observe_clock.
  - by apply Observe_small.
  - intros u Hu. rewrite Observe_ledger, decide_False; [done|naive_solver].
  - intros r [= <-] Hs. rewrite Observe_ledger. fold l. case_decide as Hd; [done|]. exfalso.
    apply Hd. split; [done|]. unfold reading in Eref. destruct (l_hasReading l); [|by left].
    right. unfold stale in *. simpl in Hs.
    rewrite Observe_clock in Hs. apply Z.ltb_lt in Eref. apply Z.ltb_ge in Hs. lia.
Qed.

(** The candidates, each against its own ledger. *)
Lemma weigh_filled a sc volumes rs m st :
  others st = [] -> small_memory (memory st) -> small_answers a ->
  filled a (candidate_of sc volumes rs m) st (weigh a sc volumes rs m st).
Proof.
  intros. unfold weigh. case_match; [by apply fillReading_filled|]. split; simpl; auto.
Qed.

Lemma weigh_all_filled a sc volumes rs ms st :
  others st = [] -> small_memory (memory st) -> small_answers a -> NoDup (cl_UUID <$> ms) ->
  let '(st', cs) := weigh_all a sc volumes rs ms st in
  others st' = [] /\ clock (memory st') = clock (memory st) /\ small_memory (memory st') /\
  (forall u, u ∉ cl_UUID <$> ms -> ledgerOf (memory st') u = ledgerOf (memory st) u) /\
  Forall2 (fun m c => Name c = cl_Name m /\ Eligible c = eligible sc (cl_Name m) /\
    (HasReading c = true ->
     let l := ledgerOf (memory st') (cl_UUID m) in
     l_hasReading l = true /\ stale st' (l_reading l) = false /\
     c = with_reading (candidate_of sc volumes rs m) (l_reading l) l)) ms cs.
Proof.
  revert st. induction ms as [|m ms IH]; intros st Halone Hsmall Ha; simpl; [done|].
  intros [Hm Hnd]%NoDup_cons.
  pose proof (weigh_filled a sc volumes rs m st Halone Hsmall Ha) as Hw.
  destruct (weigh a sc volumes rs m st) as [st1 c].
  destruct Hw as [H1 H2 H3 H4 (Hname & _ & Hel & _) H6]; simpl in *.
  specialize (IH st1 H1 H3 Ha Hnd).
  destruct (weigh_all a sc volumes rs ms st1) as [st2 cs].
  destruct IH as (I1 & I2 & I3 & I4 & I5). split; [done|]. split; [congruence|]. split; [done|].
  split.
  - intros u [Hu Hus]%not_elem_of_cons. by rewrite I4, H4.
  - constructor; [|done]. split; [done|]. split; [done|]. intros [?|Hread]%H6; [done|].
    rewrite I4 by done. unfold stale in *. by rewrite I2.
Qed.

Lemma record_result a rq m m' result result' st :
  out_answer (record a rq m result st) = Ok (m', result') ->
  m' = m /\ result' = result /\ patch_claim a = Patched.
Proof. unfold record. destruct (patch_claim a); [by intros [= <- <-]|done]. Qed.

(** A ranked answer: what was asked before it, and what it leaves. *)
Lemma place_placed a rq sc st m :
  out_answer (place a rq sc st) = Ok (m, resultPlaced) ->
  exists annotations ms st1 st2,
    get_claim a (ClaimNamespace rq) (ClaimName rq) = Ok annotations /\
    members a sc = Ok ms /\
    default "" (annotations !! AnnotationPlacementMember) = "" /\
    SourceClusterID rq = "" /\
    holderOf a rq sc ms = Ok None /\
    (ConsistencyGroup rq = "" /\ st1 = st \/
     ConsistencyGroup rq <> "" /\ groupHolder a sc ms (ConsistencyGroup rq) st = (st1, Ok None)) /\
    rankMembers a rq sc ms st1 = (st2, Ok m) /\
    out_state (place a rq sc st) = count_against (cl_UUID m) (VolumeName rq) (SizeBytes rq)
      (remember_group rq sc m st2).
Proof.
  unfold place. destruct (get_claim a _ _) as [annotations|]; [|done].
  destruct (members a sc) as [ms|] eqn:Ems; [|done].
  destruct (String.eqb_spec (default "" (annotations !! AnnotationPlacementMember)) "") as [Er|Er];
    simpl; [|by destruct (with_uuid _ _)].
  unfold place_new. destruct (String.eqb_spec (SourceClusterID rq) "") as [Es|Es]; simpl;
    [|by destruct (with_uuid _ _); [intros (_ & ? & _)%record_result|]].
  destruct (holderOf a rq sc ms) as [[h|]|] eqn:Eh; [by intros (_ & ? & _)%record_result| |done].
  assert (Hranked : forall st1, out_answer (place_ranked a rq sc ms st1) = Ok (m, resultPlaced) ->
    exists st2, rankMembers a rq sc ms st1 = (st2, Ok m) /\
      out_state (place_ranked a rq sc ms st1) = count_against (cl_UUID m) (VolumeName rq)
        (SizeBytes rq) (remember_group rq sc m st2)).
  { intros st1. unfold place_ranked. destruct (rankMembers a rq sc ms st1) as [st2 [m'|]]; [|done].
    intros Hrec. destruct (record_result _ _ _ _ _ _ _ Hrec) as (<- & _ & Hp). exists st2.
    split; [done|]. unfold record. by rewrite Hp. }
  unfold place_in_group. destruct (String.eqb_spec (ConsistencyGroup rq) "") as [Eg|Eg].
  - intros (st2 & ? & ?)%Hranked. exists annotations, ms, st, st2. naive_solver.
  - destruct (groupHolder a sc ms (ConsistencyGroup rq) st) as [st1 [[h|]|]] eqn:G;
      [by intros (_ & ? & _)%record_result| |done].
    intros (st2 & ? & ?)%Hranked. exists annotations, ms, st1, st2. naive_solver.
Qed.

(** The same of an answer that followed a group. *)
Lemma place_in_group_answer a rq sc st ms m :
  out_answer (place a rq sc st) = Ok (m, resultGroup) -> members a sc = Ok ms ->
  exists st', groupHolder a sc ms (ConsistencyGroup rq) st = (st', Ok (Some m)).
Proof.
  unfold place. intros Hans Hms. rewrite Hms in Hans. destruct (get_claim a _ _); [|done].
  destruct (negb _); [by destruct (with_uuid _ _)|]. unfold place_new in Hans.
  destruct (negb _); [by destruct (with_uuid _ _); [apply record_result in Hans as (_ & ? & _)|]|].
  destruct (holderOf a rq sc ms) as [[h|]|];
    [by apply record_result in Hans as (_ & ? & _)| |done].
  assert (Hranked : forall s, out_answer (place_ranked a rq sc ms s) <> Ok (m, resultGroup)).
  { intros s. unfold place_ranked. destruct (rankMembers a rq sc ms s) as [s' [m'|]]; [|done].
    by intros (_ & ? & _)%record_result. }
  unfold place_in_group in Hans. destruct (String.eqb _ ""); [by apply Hranked in Hans|].
  destruct (groupHolder _ _ _ _ _) as [s [[h|]|]]; [|by apply Hranked in Hans|done].
  apply record_result in Hans as (-> & _ & _). by exists s.
Qed.

(** The member the ranking answers, with nothing else touching the memory. *)
Lemma rankMembers_fits a rq sc ms st st' m :
  others st = [] -> small_memory (memory st) -> small_answers a ->
  NoDup (cl_Name <$> ms) -> NoDup (cl_UUID <$> ms) ->
  rankMembers a rq sc ms st = (st', Ok m) ->
  let l := ledgerOf (memory st') (cl_UUID m) in
  others st' = [] /\ m ∈ ms /\ eligible sc (cl_Name m) = true /\
  l_hasReading l = true /\ stale st' (l_reading l) = false /\
  (cap_Used (l_reading l) + total_placed l + SizeBytes rq <= cap_Total (l_reading l))%Z /\
  ((0 < default 0 (cl_Critical m))%Z -> (0 < cap_Total (l_reading l))%Z ->
    (100 * cap_Used (l_reading l) < default 0 (cl_Critical m) * cap_Total (l_reading l))%Z).
Proof.
  intros Halone Hsmall Ha Hnames Huuids. unfold rankMembers, volumeCounts.
  destruct (list_volumes a) as [pvs|]; [|done]. rewrite lock_alone by done. cbv zeta.
  set (volumes := foldl _ (foldl _ _ _) ms).
  pose proof (weigh_all_filled a sc volumes (regions a ms) ms st Halone Hsmall Ha Huuids) as Hw.
  destruct (weigh_all a sc volumes (regions a ms) ms st) as [st1 cs].
  destruct Hw as (W1 & _ & W3 & _ & W5).
  destruct (rank _ _ _ _ _) as [[chosen reasons]|] eqn:Erank; [|done].
  destruct (String.eqb_spec chosen "") as [|Hne]; [done|].
  destruct (find_first _ ms) as [m'|] eqn:Em; [|done]. intros [= <- <-].
  set (l := ledgerOf (memory st1) (cl_UUID m')) in *.
  apply find_first_Some in Em as [Hm ?%String.eqb_eq].
  apply chosen_considered in Erank as (c & Hc & Hcn & Hd); [|done].
  apply list_elem_of_lookup in Hc as [i Hi].
  destruct (Forall2_lookup_r _ _ _ _ _ W5 Hi) as (m2 & Hm2 & Hn & Hel & Hread).
  assert (m2 = m') as ->.
  { apply list_elem_of_lookup in Hm as [j Hj].
    assert (i = j) as ->; [|congruence].
    apply (NoDup_lookup (cl_Name <$> ms) i j chosen Hnames); rewrite list_lookup_fmap.
    - rewrite Hm2. simpl. congruence.
    - rewrite Hj. simpl. congruence. }
  fold l in Hread.
  assert (Hhas : HasReading c = true /\ Eligible c = true).
  { unfold dropped in Hd. destruct (Eligible c); [|done]. by destruct (HasReading c). }
  destruct Hhas as [Hhas Helig]. destruct (Hread Hhas) as (L1 & L2 & ->).
  destruct (W3 (cl_UUID m')) as (S1 & S2 & S3). fold l in S1, S2, S3.
  destruct (S1 L1) as (B1 & B2 & B3 & B4). pose proof (total_placed_bounds _ S2) as B5.
  assert (Hadd : add_placed (candidate_of sc volumes (regions a ms) m') l = total_placed l).
  { unfold add_placed. simpl. rewrite add_placed_exact; [done..|].
    unfold total_placed, int64_max in *. lia. }
  split; [done|]. split; [done|]. split; [by rewrite <- Hel|]. do 2 (split; [done|]).
  unfold with_reading in Hd. rewrite Hadd in Hd. unfold total_placed in *.
  pose (c0 := mkCandidate (cl_Name m') (cl_UUID m') (eligible sc (cl_Name m')) true
    (cap_Total (l_reading l)) (cap_Used (l_reading l)) (cap_Provisioned (l_reading l))
    (foldr (fun p n => (p_size p + n)%Z) 0%Z (l_placed l)) (default 0%Z (cl_Critical m')) 0
    (default "" (regions a ms !! cl_Name m'))).
  assert (Hsane : sane c0) by (split; simpl; unfold int64_max in *; lia).
  assert (Htake : can_take (SizeBytes rq) c0) by (by apply considered_exactly).
  destruct Htake as (_ & _ & T3 & T4). by split.
Qed.

(** A ranking that nothing interfered with leaves nothing to interfere. *)
Lemma weigh_all_alone a sc volumes rs ms st st' cs :
  others st = [] -> weigh_all a sc volumes rs ms st = (st', cs) -> others st' = [].
Proof.
  revert st st' cs. induction ms as [|m ms IH]; intros st st' cs Halone; simpl; [congruence|].
  destruct (weigh a sc volumes rs m st) as [s c] eqn:Ew.
  destruct (weigh_all a sc volumes rs ms s) as [s' cs'] eqn:Ea. intros [= <- <-].
  apply (IH s s' cs'); [|done]. unfold weigh, fillReading, fill_from in Ew.
  rewrite !(lock_alone st) in Ew by done.
  assert (Hl : forall mem, lock (upd st mem) = upd st mem) by (intros; by apply lock_alone).
  rewrite ?Hl in Ew. repeat case_match; simplify_eq; try done;
    rewrite ?(lock_alone st), ?Hl by done; done.
Qed.

Lemma rankMembers_alone a rq sc ms st st' m :
  others st = [] -> rankMembers a rq sc ms st = (st', Ok m) -> others st' = [].
Proof.
  intros Halone. unfold rankMembers, volumeCounts. destruct (list_volumes a); [|done].
  rewrite lock_alone by done. destruct (weigh_all _ _ _ _ _ _) as [s cs] eqn:E.
  apply weigh_all_alone in E; [|done]. intros Hr. repeat case_match; by simplify_eq.
Qed.

(** C31. A volume the ranking places fits, under four conditions: no other call is under way, no
    two members share a name or a backend UUID, every capacity reading that is held or fetched is
    small (a total of at least 0 and below 4 EiB, a use of at least 0 of which a hundredfold is an
    [int64], so up to 81 PiB, and a provisioned sum between 0 and 2 EiB), and what is counted
    against a member since its reading has no negative size and sums to 2 EiB at most.  Then the
    member answered is one the supercluster holds eligible, its reading is not older than two
    minutes, it is below its critical threshold, and what it uses and everything placed in it
    since its reading, the new volume included, is within its capacity.  The sums are the code's
    64-bit ones; on larger figures the comparison with the threshold wraps around, and on a
    reading replaced by another call in between the capacity can be exceeded. *)
Theorem ranked_placement_fits a rq sc st ms m :
  others st = [] -> small_memory (memory st) -> small_answers a ->
  members a sc = Ok ms -> NoDup (cl_Name <$> ms) -> NoDup (cl_UUID <$> ms) ->
  let o := place a rq sc st in
  out_answer o = Ok (m, resultPlaced) ->
  let l := ledgerOf (memory (out_state o)) (cl_UUID m) in
  let r := l_reading l in
  m ∈ ms /\ eligible sc (cl_Name m) = true /\ l_hasReading l = true /\
  (clock (memory (out_state o)) - SampledAt r <= readingTTL)%Z /\
  (exists before, l_placed l =
     before ++ [mkPlaced (VolumeName rq) (SizeBytes rq) (clock (memory (out_state o)))])%list /\
  (cap_Used r + total_placed l <= cap_Total r)%Z /\
  ((0 < default 0 (cl_Critical m))%Z -> (0 < cap_Total r)%Z ->
    (100 * cap_Used r < default 0 (cl_Critical m) * cap_Total r)%Z).
Proof.
  intros Halone Hsmall Ha Hms Hnames Huuids o Hans.
  destruct (place_placed _ _ _ _ _ Hans)
    as (annotations & ms' & st1 & st2 & _ & Hms' & _ & _ & _ & Hg & Hrank & Hst).
  assert (ms' = ms) as -> by congruence.
  assert (st1 = st) as ->.
  { destruct Hg as [[_ ?]|[_ Hg]]; [done|]. unfold groupHolder in Hg.
    rewrite lock_alone in Hg by done. repeat case_match; simplify_eq; done. }
  pose proof (rankMembers_fits _ _ _ _ _ _ _ Halone Hsmall Ha Hnames Huuids Hrank) as Hf.
  cbv zeta in Hf. destruct Hf as (F1 & F2 & F3 & F4 & F5 & F6 & F7).
  unfold o. rewrite Hst.
  assert (Hrg : others (remember_group rq sc m st2) = [] /\
    ledgers (memory (remember_group rq sc m st2)) = ledgers (memory st2) /\
    clock (memory (remember_group rq sc m st2)) = clock (memory st2)).
  { unfold remember_group. rewrite lock_alone by done. by case_match. }
  destruct Hrg as (R1 & R2 & R3). unfold count_against. rewrite lock_alone by done.
  assert (Hl : ledgerOf (memory (remember_group rq sc m st2)) (cl_UUID m) =
    ledgerOf (memory st2) (cl_UUID m)) by (unfold ledgerOf; by rewrite R2).
  cbv zeta. cbn [memory upd]. rewrite ledgerOf_set, decide_True, Hl by done.
  cbn [l_reading l_hasReading l_placed]. unfold set_ledger. cbn [clock]. rewrite R3.
  split; [done|]. split; [done|]. split; [done|].
  split; [unfold stale in F5; apply Z.ltb_ge in F5; lia|].
  split; [by eexists|]. split; [|done].
  unfold total_placed in *. cbn [l_placed]. rewrite foldr_app. simpl.
  assert (Hz : forall ps z, foldr (fun p n => (p_size p + n)%Z) z ps =
    (foldr (fun p n => (p_size p + n)%Z) 0%Z ps + z)%Z).
  { induction ps as [|p ps IH]; intros z; simpl; [done|]. rewrite IH. lia. }
  rewrite Hz. lia.
Qed.

(** ** A group stays together, a volume is not placed twice *)

Lemma ask_holders_none a rq pools ms m :
  ask_holders a rq pools ms = Ok None -> m ∈ ms -> default "" (pools !! cl_Name m) <> "" ->
  VolumeExists a m (default "" (pools !! cl_Name m)) (VolumeName rq) = Ok false.
Proof.
  induction ms as [|m' ms IH]; [by intros _ ?%elem_of_nil|]. simpl.
  intros Hh Hm Hne. destruct (String.eqb_spec (default "" (pools !! cl_Name m')) "") as [E|E].
  - apply elem_of_cons in Hm as [->|Hm]; [done|by apply IH].
  - destruct (VolumeExists a m' _ _) as [[]|] eqn:Ev; [done| |done].
    apply elem_of_cons in Hm as [->|Hm]; [done|by apply IH].
Qed.

Lemma group_counts_none a group ms m :
  group_counts a group ms = Ok [] -> m ∈ ms ->
  exists n, GroupMembers a m group = Ok n /\ (n <= 0)%Z.
Proof.
  induction ms as [|m' ms IH]; [by intros _ ?%elem_of_nil|]. simpl.
  destruct (GroupMembers a m' group) as [n|] eqn:E; [|done].
  destruct (group_counts a group ms) as [rest|]; [|done].
  destruct (Z.ltb_spec 0 n); [done|]. intros [= ->] [->|Hm]%elem_of_cons; [by exists n|].
  by apply IH.
Qed.

Lemma group_counts_all_none a group ms :
  (forall m, m ∈ ms -> exists n, GroupMembers a m group = Ok n /\ (n <= 0)%Z) ->
  group_counts a group ms = Ok [].
Proof.
  induction ms as [|m ms IH]; intros Hall; [done|]. simpl.
  destruct (Hall m) as (n & -> & Hn); [left|]. rewrite IH; [|intros; apply Hall; by right].
  by destruct (Z.ltb_spec 0 n); [lia|].
Qed.

(** What a ranked answer was asked before: no member holds the volume, no member
    holds the group. *)
Lemma placed_asked a rq sc st m :
  out_answer (place a rq sc st) = Ok (m, resultPlaced) ->
  exists ms pool, members a sc = Ok ms /\ get_pool a (cl_Namespace sc) (PoolName rq) = Ok pool /\
    po_ClusterRef pool = cl_Name sc /\
    (forall m', m' ∈ ms ->
       let uuid := default "" (pool_uuids pool !! cl_Name m') in
       uuid <> "" -> VolumeExists a m' uuid (VolumeName rq) = Ok false) /\
    (ConsistencyGroup rq <> "" -> forall m', m' ∈ ms ->
       exists n, GroupMembers a m' (ConsistencyGroup rq) = Ok n /\ (n <= 0)%Z).
Proof.
  intros (annotations & ms & st1 & st2 & _ & Hms & _ & _ & Hh & Hg & _ & _)%place_placed.
  unfold holderOf in Hh. destruct (get_pool a _ _) as [pool|] eqn:Ep; [|done].
  destruct (String.eqb_spec (po_ClusterRef pool) (cl_Name sc)) as [E|E]; [|done]. simpl in Hh.
  exists ms, pool. do 3 (split; [done|]). split.
  - intros m' Hm' uuid Hne. by apply (ask_holders_none _ _ _ ms).
  - intros Hne m' Hm'. destruct Hg as [[? _]|[_ Hg]]; [done|]. unfold groupHolder in Hg.
    destruct (group_counts a _ ms) as [[|h hs]|] eqn:Ec; [|by repeat case_match|done].
    by eapply group_counts_none.
Qed.

Lemma filter_uuid ms m u :
  NoDup (cl_UUID <$> ms) -> m ∈ ms -> cl_UUID m = u ->
  List.filter (fun m' => String.eqb (cl_UUID m') u) ms = [m].
Proof.
  intros Hnd Hm <-. induction ms as [|m' ms IH]; [by apply elem_of_nil in Hm|].
  apply NoDup_cons in Hnd as [Hn Hnd]. simpl. apply elem_of_cons in Hm as [<-|Hm].
  - rewrite String.eqb_refl. f_equal. apply elem_of_nil_inv.
    intros x [Hx ?%String.eqb_eq]%list_elem_of_In%filter_In. apply Hn.
    apply list_elem_of_fmap. exists x. split; [done|by apply list_elem_of_In].
  - destruct (String.eqb_spec (cl_UUID m') (cl_UUID m)) as [E|E]; [|by apply IH].
    exfalso. apply Hn. rewrite E. by apply list_elem_of_fmap_2.
Qed.

Lemma groupHolder_remembered a sc ms group u m st :
  others st = [] -> NoDup (cl_UUID <$> ms) -> m ∈ ms -> cl_UUID m = u ->
  groups (memory st) !! group_key sc group = Some u ->
  group_counts a group ms = Ok [] ->
  groupHolder a sc ms group st =
    (st, if eligible sc (cl_Name m) then Ok (Some m) else Err (ErrGroupMemberClosed (cl_Name m))).
Proof.
  intros Halone Hnd Hm Hu Hg Hc. unfold groupHolder. rewrite Hc, lock_alone, Hg by done. simpl.
  rewrite (filter_uuid ms m u) by done. by destruct (eligible sc (cl_Name m)).
Qed.

(** A consistency group lives in one member: once the ranking has placed a volume
    of a group, and while its member is still one, no later volume of the group is
    ranked again, however many control planes still see nothing of it: it is placed
    beside the first one, or refused. *)
Theorem group_is_never_split a1 rq1 sc1 st1 m1 a2 rq2 sc2 st2 ms2 m2 result :
  let o1 := place a1 rq1 sc1 st1 in
  let o2 := place a2 rq2 sc2 st2 in
  others st1 = [] -> out_answer o1 = Ok (m1, resultPlaced) ->
  ConsistencyGroup rq1 <> "" ->
  ConsistencyGroup rq2 = ConsistencyGroup rq1 -> cl_UID sc2 = cl_UID sc1 ->
  others st2 = [] -> groups (memory st2) = groups (memory (out_state o1)) ->
  members a2 sc2 = Ok ms2 -> NoDup (cl_UUID <$> ms2) -> cl_UUID m1 ∈ cl_UUID <$> ms2 ->
  out_answer o2 = Ok (m2, result) ->
  result <> resultPlaced /\
  (result = resultGroup ->
   (forall m', m' ∈ ms2 -> exists n,
      GroupMembers a2 m' (ConsistencyGroup rq2) = Ok n /\ (n <= 0)%Z) ->
   cl_UUID m2 = cl_UUID m1).
Proof.
  intros o1 o2 Halone1 Hans1 Hne Hgr Huid Halone2 Hmem Hms2 Hnd Hin Hans2.
  assert (Hkey : groups (memory st2) !! group_key sc2 (ConsistencyGroup rq2) = Some (cl_UUID m1)).
  { destruct (place_placed _ _ _ _ _ Hans1) as (an & ms & s1 & s2 & _ & _ & _ & _ & _ & Hg & Hr & Hst).
    unfold o1 in Hmem. rewrite Hmem, Hst, Hgr. unfold group_key. rewrite Huid.
    assert (s1 = st1) as ->.
    { destruct Hg as [[_ ?]|[_ Hg]]; [done|]. unfold groupHolder in Hg.
      rewrite lock_alone in Hg by done. repeat case_match; simplify_eq; done. }
    assert (others s2 = []) as Hs2 by (by apply (rankMembers_alone _ _ _ _ _ _ _ Halone1 Hr)).
    unfold count_against, remember_group. destruct (String.eqb_spec (ConsistencyGroup rq1) "");
      [done|]. rewrite (lock_alone s2) by done. rewrite lock_alone by done. simpl.
    by rewrite lookup_insert_eq. }
  apply list_elem_of_fmap in Hin as (h & Eh & Hh). split.
  - intros ->. destruct (place_placed _ _ _ _ _ Hans2)
      as (an & ms & s1 & s2 & _ & Hms & _ & _ & _ & Hg & _ & _).
    assert (ms = ms2) as -> by congruence. destruct Hg as [[E _]|[_ Hg]]; [congruence|].
    assert (Hc : group_counts a2 (ConsistencyGroup rq2) ms2 = Ok []).
    { unfold groupHolder in Hg.
      destruct (group_counts _ _ ms2) as [[|? ?]|]; [done|by repeat case_match|done]. }
    rewrite (groupHolder_remembered _ _ _ _ (cl_UUID m1) h) in Hg by done. by case_match.
  - intros -> Hnone. apply group_counts_all_none in Hnone.
    pose proof (groupHolder_remembered a2 sc2 ms2 (ConsistencyGroup rq2) (cl_UUID m1) h st2
      Halone2 Hnd Hh (eq_sym Eh) Hkey Hnone) as Hhold.
    destruct (place_in_group_answer _ _ _ _ _ _ Hans2 Hms2) as (s & Hg).
    rewrite Hhold in Hg. case_match; [|done]. by injection Hg as _ <-.
Qed.

(** ** Concrete placements *)

Definition agg : Cluster :=
  mkCluster "ns" "agg" "uid" "agg-id" (Some None) "" None [("alpha", true); ("beta", true)].
Definition alpha : Cluster := mkCluster "ns" "alpha" "uid-a" "a" None "agg" (Some 90%Z) [].
Definition beta : Cluster := mkCluster "ns" "beta" "uid-b" "b" None "agg" None [].

Definition request (volume claim_name group : string) (size : Z) : Request :=
  mkRequest "agg-id" "pool" volume size [] [] claim_name "apps" group "".

(** The control planes hold no volume and no group yet; [annotations] is what the
    claim is read with. *)
Definition answers (annotations : gmap string string) (patched_so : patched) : Answers :=
  mkAnswers (Ok [agg; beta; alpha]) (fun _ => Ok [agg; beta; alpha])
    (fun _ _ => Ok annotations)
    (fun _ _ => Ok (mkPool "agg" [("alpha", "pa"); ("beta", "pb")]))
    (fun _ _ _ => Ok false) (fun _ _ => Ok 0%Z) None (Ok []) (fun _ => Ok []) (fun _ => None)
    patched_so true (fun _ => 0).

(** Ten gibibytes each, read a second ago; six of them in use on [beta]. *)
Definition GiB : Z := (2 ^ 30)%Z.
Definition now : Time := (1000 * Second)%Z.

Definition reading (used : Z) (at_ : Time) : Capacity := mkCapacity (10 * GiB) used used at_.

Definition fresh_memory : Memory :=
  mkMemory
    (<["a" := mkLedger (reading 0 (now - Second)) true []]>
    (<["b" := mkLedger (reading (6 * GiB) (now - Second)) true []]> ∅)) ∅ ∅ now [].

Definition alone (m : Memory) : State := mkState m [].

Definition answer_of (o : Outcome) : option (string * string) :=
  match out_answer o with Ok (m, result) => Some (cl_UUID m, result) | Err _ => None end.

Definition call (annotations : gmap string string) (patched_so : patched) (rq : Request)
    (st : State) : Outcome := Place (answers annotations patched_so) rq st.

(** A burst: the second volume is placed where the first one leaves room. *)
Definition first_call : Outcome := call ∅ Patched (request "v1" "c1" "" (7 * GiB)) (alone fresh_memory).
Definition second_call : Outcome := call ∅ Patched (request "v2" "c2" "" (4 * GiB)) (out_state first_call).

Lemma burst_answers :
  answer_of first_call = Some ("a", resultPlaced) /\ answer_of second_call = Some ("b", resultPlaced).
Proof. vm_compute. done. Qed.

Lemma fresh_memory_small : small_memory fresh_memory.
Proof.
  intros u. unfold ledgerOf, fresh_memory. cbn [ledgers].
  destruct (decide (u = "a")) as [->|Ha].
  { repeat split; vm_compute; try done; by intros [=]. }
  rewrite lookup_insert_ne by done. destruct (decide (u = "b")) as [->|Hb].
  { repeat split; vm_compute; try done; by intros [=]. }
  rewrite lookup_insert_ne by done. repeat split; vm_compute; try done; by intros [=].
Qed.

Lemma ranked_placement_fits_witness :
  let l := ledgerOf (memory (out_state (place (answers ∅ Patched)
    (request "v1" "c1" "" (7 * GiB)) agg (alone fresh_memory)))) "a" in
  total_placed l = (7 * GiB)%Z /\ (cap_Used (l_reading l) + total_placed l <= 10 * GiB)%Z.
Proof.
  split; [by vm_compute|].
  destruct (ranked_placement_fits (answers ∅ Patched) (request "v1" "c1" "" (7 * GiB)) agg
    (alone fresh_memory) [alpha; beta] alpha) as (_ & _ & _ & _ & _ & H & _);
    [done|apply fresh_memory_small|done|by vm_compute| | |by vm_compute|exact H];
    apply (bool_decide_unpack _); by vm_compute.
Defined.

(** The patch of the first call lands though it is answered with an error; the
    memory is lost with the process; the retry reads the claim and is answered
    what was recorded. *)
Definition c1 : claim := ("apps", "c1").
Definition start : World := mkWorld {[ c1 := ∅ ]} fresh_memory.

Definition rq1 : Request := request "v1" "c1" "" GiB.
Definition lost : Answers := answers ∅ (PatchFailed true "timeout").
Definition retried : Answers := answers {[ AnnotationPlacementMember := "a" ]} Patched.
Definition empty_memory : Memory := mkMemory ∅ ∅ ∅ now [].

(** Where a call leaves the world. *)
Definition called (w : World) (a : Answers) (rq : Request) : World :=
  let o := Place a rq (alone (remembered w)) in
  mkWorld (patch (claims w) (claim_of rq) (out_written o)) (memory (out_state o)).

Definition after_lost : World := called start lost rq1.
Definition after_restart : World := mkWorld (claims after_lost) empty_memory.
Definition after_retry : World := called after_restart retried rq1.

Lemma recorded_after_lost : claims after_lost !! c1 = Some {[ AnnotationPlacementMember := "a" ]}.
Proof.
  unfold after_lost, called.
  assert (out_written (Place lost rq1 (alone (remembered start))) = Some "a") as ->
    by (by vm_compute).
  cbn [claims patch]. change (claim_of rq1) with c1. rewrite lookup_alter_eq.
  unfold start. cbn [claims]. by rewrite lookup_singleton_eq.
Qed.

Definition any_claim (c : claim) : bool := true.

Lemma retried_run : run (world_step any_claim) start [None; None; Some (c1, "a")] after_retry.
Proof.
  apply (run_cons _ _ None after_lost).
  { assert (E : answered rq1 (Place lost rq1 (alone (remembered start))) = None)
      by (by vm_compute).
    rewrite <- E. apply (step_call any_claim start lost rq1 []). intros _ annotations [= <-].
    exists ∅. split; [|done]. unfold start. cbn [claims]. change (claim_of rq1) with c1.
    by rewrite lookup_singleton_eq. }
  apply (run_cons _ _ None after_restart).
  { exact (step_memory any_claim after_lost (fun _ => empty_memory)). }
  apply (run_cons _ _ (Some (c1, "a")) after_retry); [|constructor].
  assert (E : answered rq1 (Place retried rq1 (alone empty_memory)) = Some (c1, "a"))
    by (by vm_compute).
  rewrite <- E. apply (step_call any_claim after_restart retried rq1 []). intros _ annotations [= <-].
  eexists. split; [exact recorded_after_lost|done].
Qed.

Lemma placement_refines_register_witness : abstract any_claim after_retry !! c1 = Some "a".
Proof.
  destruct (placement_refines_register any_claim _ _ _ retried_run) as [_ H].
  apply H; [reflexivity|]. right. right. left.
Defined.

(** The second volume of a group follows the first one to [alpha], where a ranking
    would by then have put it on [beta]. *)
Definition g1 : Request := request "v1" "c1" "db" (9 * GiB).
Definition g2 : Request := request "v2" "c2" "db" GiB.

Lemma group_is_never_split_witness :
  answer_of (place (answers ∅ Patched) g2 agg
    (alone (memory (out_state (place (answers ∅ Patched) g1 agg (alone fresh_memory))))))
    = Some ("a", resultGroup) /\ resultGroup <> resultPlaced.
Proof.
  split; [by vm_compute|].
  apply (group_is_never_split (answers ∅ Patched) g1 agg (alone fresh_memory) alpha
    (answers ∅ Patched) g2 agg
    (alone (memory (out_state (place (answers ∅ Patched) g1 agg (alone fresh_memory)))))
    [alpha; beta] alpha resultGroup);
    first [done | by vm_compute | apply (bool_decide_unpack _); by vm_compute].
Defined.

(** Between the two accesses of the memory that read one member, its reading may be
    replaced and the placements it accounts for cleared: the candidate then has the
    older reading and none of the placements.  Eight of [alpha]'s ten gibibytes are
    placed; the reading that includes them arrives in between; five more are placed
    on [alpha], where its own ledger then has thirteen. *)
Definition placed_memory : Memory :=
  mkMemory
    (<["a" := mkLedger (reading 0 (now - Minute)) true
        [mkPlaced "v0" (8 * GiB) (now - 30 * Second)]]>
    (<["b" := mkLedger (reading (9 * GiB) (now - Second)) true []]> ∅)) ∅ ∅ now [].

Definition observed (m : Memory) : Memory := Observe m "a" (reading (8 * GiB) (now - Second)).

Lemma torn_reading_overcommits :
  let o := call ∅ Patched (request "v1" "c1" "" (5 * GiB))
    (mkState placed_memory [fun m => m; fun m => m; observed]) in
  let l := ledgerOf (memory (out_state o)) "a" in
  answer_of o = Some ("a", resultPlaced) /\
  (cap_Used (l_reading l) + total_placed l = 13 * GiB)%Z /\ cap_Total (l_reading l) = (10 * GiB)%Z /\
  (** A moment earlier or later, it is refused. *)
  answer_of (call ∅ Patched (request "v1" "c1" "" (5 * GiB)) (alone placed_memory)) = None /\
  answer_of (call ∅ Patched (request "v1" "c1" "" (5 * GiB)) (alone (observed placed_memory))) = None.
Proof. vm_compute. done. Qed.

(** A claim read from a cache that has not seen the record yet is placed anew. *)
Lemma stale_claim_is_placed_again :
  let first := call ∅ Patched (request "v1" "c1" "" (7 * GiB)) (alone fresh_memory) in
  let again := call ∅ Patched (request "v1" "c1" "" (7 * GiB))
    (alone (Observe (memory (out_state first)) "b" (reading 0 now))) in
  answer_of first = Some ("a", resultPlaced) /\ answer_of again = Some ("b", resultPlaced).
Proof. vm_compute. done. Qed.

End Placement.
