(* ===== verification/TwoNode.v ===== *)
(** Two-node arbitration on the edge ([operator/internal/controllers/twonode]).

    The arbitration reconciler follows the control plane's record of a two-node
    cluster: the storage-fenced taint, the evidence it reports back, the
    [StorageFenced] condition, and the release of a host fence
    ([arbitration_controller.go], [helpers.go], [hostfence.go]).  The remediation
    reconciler puts Kubernetes' out-of-service taint on a node whose host is fenced,
    and takes its own off again ([remediation_controller.go]).

    Both are programs over the API server's objects and the control plane, in a
    monad with the objects as state, an error as result, and a list that decides
    which calls fail; a write that fails may have landed.  Within a pass nobody else
    writes: what the lock-free patches of the taints do to a write in between is
    [concurrent_taint_is_lost]. *)

From Stdlib Require Import Ascii String.
From S2P Require Import Prelude.
From S2P Require Import GoStrings.
From S2P Require Import Handles.

#[local] Open Scope string_scope.

Module TwoNode.

(** ** The objects *)

Definition TaintStorageFenced : string := "storage.simplyblock.io/fenced".
Definition TaintOutOfService : string := "node.kubernetes.io/out-of-service".
Definition TaintOutOfServiceValue : string := "nodeshutdown".
Definition AnnoOutOfServiceBy : string := "storage.simplyblock.io/out-of-service-by".
Definition OutOfServiceByStorageFence : string := "storage-fence-remediation".
Definition ConditionStorageFenced : string := "StorageFenced".
Definition StorageFencedReasonWitness : string := "WitnessVerdict".
Definition StorageFencedReasonReleased : string := "NotFenced".
Definition AnnoNVMeHostNQN : string := "storage.simplyblock.io/nvme-host-nqn".
Definition DriverName : string := "csi.simplyblock.io".
Definition ClusterModeDual : string := "Dual".
Definition NodeReady : string := "Ready".
Definition ConditionTrue : string := "True".
Definition ConditionFalse : string := "False".
Definition TaintEffectNoExecute : string := "NoExecute".
Definition TolerationOpExists : string := "Exists".
Definition PodSucceeded : string := "Succeeded".
Definition PodFailed : string := "Failed".

Record Taint := mkTaint {
  t_Key : string;
  t_Value : string;
  t_Effect : string;
  t_TimeAdded : option Time;
}.
#[global] Instance Taint_eq_dec : EqDecision Taint.
Proof. solve_decision. Defined.

Record Condition := mkCondition {
  co_Type : string;
  co_Status : string;
  co_Reason : string;
  co_Message : string;
  co_Heartbeat : Time;
  co_Transition : Time;
}.

(** A Kubernetes node. *)
Record Node := mkNode {
  n_Name : string;
  n_UID : string;
  n_Annotations : gmap string string;
  n_Taints : list Taint;
  n_Conditions : list Condition;
}.

Record Toleration := mkToleration { to_Key : string; to_Operator : string; to_Effect : string }.

Record Pod := mkPod {
  p_NodeName : string;
  p_Phase : string;
  p_Created : Time;
  p_Tolerations : list Toleration;
}.

Record VolumeAttachment := mkAttachment {
  va_Name : string;
  va_NodeName : string;
  va_Attacher : string;
}.

(** [NodeRemediationStatus]. *)
Record NodeRemediation := mkNodeRemediation {
  OutOfService : bool;
  NodeNotReady : bool;
  StorageFencedEpoch : Z;
  ReportedFenced : option bool;
  ReportedHostNQNs : list string;
  nr_ObservedAt : option Time;
}.

Record StorageNode := mkStorageNode {
  s_Namespace : string;
  s_Name : string;
  s_ClusterRef : string;
  s_WorkerNode : string;
  s_Stretched : option bool;
  s_UUID : string;
  s_Remediation : option NodeRemediation;
}.

Definition IsRemote (sn : StorageNode) : bool := default false (s_Stretched sn).

Record HostFenceStatus := mkHostFenceStatus {
  hf_Node : string;
  hf_State : string;
  hf_Winner : string;
  hf_Epoch : Z;
}.
#[global] Instance HostFenceStatus_eq_dec : EqDecision HostFenceStatus.
Proof. solve_decision. Defined.

Record ArbitrationStatus := mkArbitrationStatus {
  as_State : string;
  as_Epoch : Z;
  as_FencedNodes : list string;
  as_HostFences : list HostFenceStatus;
  as_ObservedAt : option Time;
  as_Message : string;
}.
#[global] Instance ArbitrationStatus_eq_dec : EqDecision ArbitrationStatus.
Proof. solve_decision. Defined.

(** A [StorageCluster], as far as the arbitration reads it: [c_HostFencing] is the
    arbitration block and its host fencing. *)
Record Cluster := mkCluster {
  c_Namespace : string;
  c_Name : string;
  c_Supercluster : bool;
  c_ClusterMode : string;
  c_EnableArbitration : option bool;
  c_HostFencing : option (option bool);
  c_UUID : string;
  c_Arbitration : option ArbitrationStatus;
}.

(** [StorageFenceRemediation]; its conditions are kept as type, status, reason and
    message. *)
Record Remediation := mkRemediation {
  r_Namespace : string;
  r_Name : string;
  r_Annotations : gmap string string;
  r_Deleting : bool;
  r_Finalizers : list string;
  r_AllowForeignVolumes : bool;
  r_Phase : string;
  r_Node : string;
  r_Epoch : Z;
  r_TaintedAt : option Time;
  r_Message : string;
  r_Conditions : list (string * (string * string * string));
}.

(** *** The arbiter's record *)

Record HostFence := mkHostFence { f_State : string; f_On : string; f_Epoch : Z; f_Since : Time }.

Definition HostFenceRevoked : string := "revoked".
Definition HostFenceReleasable : string := "releasable".
Definition HostFenceRestoring : string := "restoring".

Definition Effective (f : HostFence) : bool :=
  String.eqb (f_State f) HostFenceRevoked || String.eqb (f_State f) HostFenceReleasable ||
  String.eqb (f_State f) HostFenceRestoring.

(** [twonode.Record]. *)
Record Arbiter := mkArbiter {
  a_State : string;
  a_Epoch : Z;
  a_FencedNodes : list string;
  a_Enabled : bool;
  a_HostFencing : bool;
  a_HostFences : gmap string HostFence;
  a_ClientHosts : gmap string (list string);
}.

Definition stateSteady : string := "steady".
Definition requeueActive : Duration := (2 * Second)%Z.
Definition requeueSteady : Duration := (15 * Second)%Z.
Definition requeueError : Duration := (5 * Second)%Z.

(** ** Programs *)

(** What the control plane is sent. *)
Inductive cp_call :=
| ReportFencing (nodeUUID : string) (fenced : bool)
| SetTwoNodeSettings (clusterUUID : string) (arbitration hostFencing : bool)
| SetClientHosts (nodeUUID : string) (hostNQNs : list string)
| ReleaseHostFence (nodeUUID : string).

(** The API server's objects, the control plane's records by cluster UUID, and the
    clock.  Only the pass itself writes them while it runs. *)
Record World := mkWorld {
  nodes : gmap string Node;
  storage_nodes : gmap (string * string) StorageNode;
  clusters : gmap (string * string) Cluster;
  remediations : gmap (string * string) Remediation;
  pods : list Pod;
  attachments : list VolumeAttachment;
  arbiters : gmap string (res string Arbiter);
  clock : Time;
}.

(** How a call ends: answered, or failed, having landed or not. *)
Inductive fault := Served | Failed (landed : bool) (err : string).

Record St := mkSt { world : World; faults : list fault; sent : list cp_call }.

Definition M (A : Type) : Type := St -> St * res string A.

#[global] Instance M_ret : MRet M := fun A x s => (s, Ok x).
#[global] Instance M_bind : MBind M := fun A B k m s =>
  match m s with
  | (s, Ok x) => k x s
  | (s, Err e) => (s, Err e)
  end.

(** A call: what it does to the world, and what it answers. *)
Definition call {A} (f : World -> World * res string A) : M A := fun s =>
  match faults s with
  | Failed landed err :: rest =>
      (mkSt (if landed then (f (world s)).1 else world s) rest (sent s), Err err)
  | Served :: rest => let '(w, r) := f (world s) in (mkSt w rest (sent s), r)
  | [] => let '(w, r) := f (world s) in (mkSt w [] (sent s), r)
  end.

Definition read {A} (f : World -> A) : M A := call (fun w => (w, Ok (f w))).

(** An error that is handled where it happens. *)
Definition try {A} (m : M A) : M (res string A) := fun s =>
  let '(s, r) := m s in (s, Ok r).

Definition now : M Time := fun s => (s, Ok (clock (world s))).

Definition send (c : cp_call) : M unit := fun s =>
  call (fun w => (w, Ok ())) (mkSt (world s) (faults s) (sent s ++ [c])).

Fixpoint for_each {A} (f : A -> M unit) (xs : list A) : M unit :=
  match xs with
  | [] => mret ()
  | x :: xs => f x ≫= fun _ => for_each f xs
  end.

(** *** Calls *)

Definition get_node (name : string) : M (option Node) := read (fun w => nodes w !! name).
Definition get_cluster (key : string * string) : M (option Cluster) :=
  read (fun w => clusters w !! key).
Definition list_storage_nodes : M (list StorageNode) :=
  read (fun w => (map_to_list (storage_nodes w)).*2).
Definition list_pods : M (list Pod) := read pods.
Definition list_attachments : M (list VolumeAttachment) := read attachments.
(** [API.Get]: no record, a record, or an error the control plane answers. *)
Definition Get (c : Cluster) : M (option Arbiter) := call (fun w =>
  match arbiters w !! c_UUID c with
  | None => (w, Ok None)
  | Some (Ok rec) => (w, Ok (Some rec))
  | Some (Err err) => (w, Err err)
  end).

Definition set_nodes (w : World) (ns : gmap string Node) : World :=
  mkWorld ns (storage_nodes w) (clusters w) (remediations w) (pods w) (attachments w)
    (arbiters w) (clock w).
Definition set_storage_nodes (w : World) (sns : gmap (string * string) StorageNode) : World :=
  mkWorld (nodes w) sns (clusters w) (remediations w) (pods w) (attachments w) (arbiters w)
    (clock w).
Definition set_clusters (w : World) (cs : gmap (string * string) Cluster) : World :=
  mkWorld (nodes w) (storage_nodes w) cs (remediations w) (pods w) (attachments w) (arbiters w)
    (clock w).
Definition set_remediations (w : World) (rs : gmap (string * string) Remediation) : World :=
  mkWorld (nodes w) (storage_nodes w) (clusters w) rs (pods w) (attachments w) (arbiters w)
    (clock w).

(** A JSON merge patch made from a read object: a field that did not change is not
    in it; a list that changed is in it whole, a map key by key. *)
Definition pick {A} `{EqDecision A} (base new cur : A) : A := if decide (base = new) then cur else new.

Definition merge_map (base new cur : gmap string string) : gmap string string :=
  filter (fun kv => new !! kv.1 <> base !! kv.1) new ∪
  filter (fun kv => new !! kv.1 = base !! kv.1) cur.

Definition merge_node (base new cur : Node) : Node :=
  mkNode (n_Name cur) (n_UID cur) (merge_map (n_Annotations base) (n_Annotations new)
    (n_Annotations cur)) (pick (n_Taints base) (n_Taints new) (n_Taints cur)) (n_Conditions cur).

Definition not_found : string := "not found".

Definition patch_node (base new : Node) : M unit := call (fun w =>
  match nodes w !! n_Name base with
  | Some cur => (set_nodes w (<[n_Name base := merge_node base new cur]> (nodes w)), Ok ())
  | None => (w, Err not_found)
  end).

Definition zero_remediation : NodeRemediation := mkNodeRemediation false false 0 None [] None.

Definition merge_remediation (base new cur : NodeRemediation) : NodeRemediation :=
  mkNodeRemediation
    (pick (OutOfService base) (OutOfService new) (OutOfService cur))
    (pick (NodeNotReady base) (NodeNotReady new) (NodeNotReady cur))
    (pick (StorageFencedEpoch base) (StorageFencedEpoch new) (StorageFencedEpoch cur))
    (pick (ReportedFenced base) (ReportedFenced new) (ReportedFenced cur))
    (pick (ReportedHostNQNs base) (ReportedHostNQNs new) (ReportedHostNQNs cur))
    (pick (nr_ObservedAt base) (nr_ObservedAt new) (nr_ObservedAt cur)).

Definition with_remediation (sn : StorageNode) (rem : NodeRemediation) : StorageNode :=
  mkStorageNode (s_Namespace sn) (s_Name sn) (s_ClusterRef sn) (s_WorkerNode sn) (s_Stretched sn)
    (s_UUID sn) (Some rem).

Definition key_of (sn : StorageNode) : string * string := (s_Namespace sn, s_Name sn).

(** The patch of a storage node's remediation status; the answer is the object. *)
Definition patch_remediation (sn : StorageNode) (rem : NodeRemediation) : M StorageNode :=
  call (fun w =>
    match storage_nodes w !! key_of sn with
    | Some cur =>
        let merged := with_remediation cur (merge_remediation
          (default zero_remediation (s_Remediation sn)) rem
          (default zero_remediation (s_Remediation cur))) in
        (set_storage_nodes w (<[key_of sn := merged]> (storage_nodes w)), Ok merged)
    | None => (w, Err not_found)
    end).

(** A strategic merge patch of a node's conditions, which are keyed by type. *)
Fixpoint set_condition (c : Condition) (cs : list Condition) : list Condition :=
  match cs with
  | [] => [c]
  | c' :: cs => if String.eqb (co_Type c') (co_Type c) then c :: cs else c' :: set_condition c cs
  end.

Definition with_condition (n : Node) (c : Condition) : Node :=
  mkNode (n_Name n) (n_UID n) (n_Annotations n) (n_Taints n) (set_condition c (n_Conditions n)).

Definition patch_condition (n : Node) (c : Condition) : M Node := call (fun w =>
  match nodes w !! n_Name n with
  | Some cur =>
      (set_nodes w (<[n_Name n := with_condition cur c]> (nodes w)), Ok (with_condition cur c))
  | None => (w, Err not_found)
  end).

Definition with_arbitration (c : Cluster) (st : option ArbitrationStatus) : Cluster :=
  mkCluster (c_Namespace c) (c_Name c) (c_Supercluster c) (c_ClusterMode c)
    (c_EnableArbitration c) (c_HostFencing c) (c_UUID c) st.

Definition cluster_key (c : Cluster) : string * string := (c_Namespace c, c_Name c).

Definition patch_arbitration (c : Cluster) (st : option ArbitrationStatus) : M unit :=
  call (fun w =>
    match clusters w !! cluster_key c with
    | Some cur => (set_clusters w (<[cluster_key c := with_arbitration cur st]> (clusters w)), Ok ())
    | None => (w, Err not_found)
    end).

(** ** Helpers ([helpers.go]) *)

Definition withoutTaint (taints : list Taint) (key : string) : list Taint :=
  List.filter (fun t => negb (String.eqb (t_Key t) key)) taints.

Definition nodeReady (n : Node) : bool :=
  match find_first (fun c => String.eqb (co_Type c) NodeReady) (n_Conditions n) with
  | Some c => String.eqb (co_Status c) ConditionTrue
  | None => false
  end.

Definition hasTaint (n : Node) (key : string) : bool :=
  existsb (fun t => String.eqb (t_Key t) key) (n_Taints n).

Definition sn_le (x y : StorageNode) : Prop := String.le (s_Name x) (s_Name y).
#[local] Instance sn_le_dec : RelDecision sn_le.
Proof. intros x y. unfold sn_le. exact _. Defined.

Definition local_nodes (c : Cluster) (all : list StorageNode) : list StorageNode :=
  merge_sort sn_le (List.filter (fun sn =>
    String.eqb (s_Namespace sn) (c_Namespace c) && String.eqb (s_ClusterRef sn) (c_Name c) &&
    negb (IsRemote sn)) all).

Definition storageNodes (c : Cluster) : M (list StorageNode) :=
  all ← list_storage_nodes;
  mret (local_nodes c all).

Definition with_taints (n : Node) (taints : list Taint) : Node :=
  mkNode (n_Name n) (n_UID n) (n_Annotations n) taints (n_Conditions n).

(** The taints [applyTaints] wants on a node that has [taints]. *)
Definition wanted_taints (taints : list Taint) (fenced : bool) (epoch : Z) : list Taint :=
  let taints := withoutTaint taints TaintStorageFenced in
  if fenced then
    (taints ++ [mkTaint TaintStorageFenced (Itoa epoch) TaintEffectNoExecute None])%list
  else taints.

Definition applyTaints (sns : list StorageNode) (fenced : gset string) (epoch : Z) : M unit :=
  for_each (fun sn =>
    let name := s_WorkerNode sn in
    if String.eqb name "" then mret ()
    else
      found ← get_node name;
      match found with
      | None => mret ()
      | Some node =>
          let taints := wanted_taints (n_Taints node) (bool_decide (name ∈ fenced)) epoch in
          if bool_decide (taints = n_Taints node) then mret ()
          else patch_node node (with_taints node taints)
      end) sns.

(** [strconv.ParseInt(t.Value, 10, 64)], whose error is not looked at: zero for what
    is no number, the nearest [int64] for what is too large. *)
Definition parse_epoch (value : string) : Z :=
  match Atoi value with
  | Some epoch => epoch
  | None =>
      match atoi_unsigned value with
      | Some _ => int64_max
      | None =>
          match value with
          | String "-" rest => match atoi_unsigned rest with Some _ => int64_min | None => 0%Z end
          | String "+" rest => match atoi_unsigned rest with Some _ => int64_max | None => 0%Z end
          | _ => 0%Z
          end
      end
  end.

(** The loop of [reportRemediation] over a node's taints. *)
Definition see_taint (rem : NodeRemediation) (t : Taint) : NodeRemediation :=
  if String.eqb (t_Key t) TaintOutOfService then
    mkNodeRemediation true (NodeNotReady rem) (StorageFencedEpoch rem) (ReportedFenced rem)
      (ReportedHostNQNs rem) (nr_ObservedAt rem)
  else if String.eqb (t_Key t) TaintStorageFenced then
    mkNodeRemediation (OutOfService rem) (NodeNotReady rem) (parse_epoch (t_Value t))
      (ReportedFenced rem) (ReportedHostNQNs rem) (nr_ObservedAt rem)
  else rem.

(** Whether a node's state is positive fencing evidence. *)
Definition evidence_of (n : Node) : bool :=
  hasTaint n TaintOutOfService &&
  negb (bool_decide (n_Annotations n !! AnnoOutOfServiceBy = Some OutOfServiceByStorageFence)).

Definition observed (prev : option NodeRemediation) (n : Node) : NodeRemediation :=
  foldl see_taint
    (mkNodeRemediation false (negb (nodeReady n)) 0
      (match prev with Some p => ReportedFenced p | None => None end)
      (match prev with Some p => ReportedHostNQNs p | None => [] end) None)
    (n_Taints n).

Definition with_reported (rem : NodeRemediation) (fenced : bool) : NodeRemediation :=
  mkNodeRemediation (OutOfService rem) (NodeNotReady rem) (StorageFencedEpoch rem) (Some fenced)
    (ReportedHostNQNs rem) (nr_ObservedAt rem).

Definition with_observed_at (rem : NodeRemediation) (t : Time) : NodeRemediation :=
  mkNodeRemediation (OutOfService rem) (NodeNotReady rem) (StorageFencedEpoch rem)
    (ReportedFenced rem) (ReportedHostNQNs rem) (Some t).

(** What [reportRemediation] compares. *)
Definition same_observation (prev rem : NodeRemediation) : bool :=
  Bool.eqb (OutOfService prev) (OutOfService rem) && Bool.eqb (NodeNotReady prev) (NodeNotReady rem) &&
  Z.eqb (StorageFencedEpoch prev) (StorageFencedEpoch rem) &&
  bool_decide (ReportedFenced prev = ReportedFenced rem).

(** The report of the evidence, when it is not what was last accepted. *)
Definition report_evidence (sn : StorageNode) (n : Node) (rem : NodeRemediation)
    : M NodeRemediation :=
  let evidence := evidence_of n in
  if negb (String.eqb (s_UUID sn) "") && negb (bool_decide (ReportedFenced rem = Some evidence)) then
    sent ← try (send (ReportFencing (s_UUID sn) evidence));
    mret (match sent with Ok _ => with_reported rem evidence | Err _ => rem end)
  else mret rem.

(** One round of [reportRemediation]; the answer is the storage node as it then is. *)
Definition report_one (sn : StorageNode) : M StorageNode :=
  if String.eqb (s_WorkerNode sn) "" then mret sn
  else
    found ← get_node (s_WorkerNode sn);
    match found with
    | None => mret sn
    | Some node =>
        rem ← report_evidence sn node (observed (s_Remediation sn) node);
        let same := match s_Remediation sn with
          | Some prev => same_observation prev rem
          | None => false
          end in
        if same then mret sn
        else
          t ← now;
          patch_remediation sn (with_observed_at rem t)
    end.

Fixpoint reportRemediation (sns : list StorageNode) : M (list StorageNode) :=
  match sns with
  | [] => mret []
  | sn :: sns =>
      sn ← report_one sn;
      sns ← reportRemediation sns;
      mret (sn :: sns)
  end.

Definition with_status_time (st : ArbitrationStatus) (t : option Time) : ArbitrationStatus :=
  mkArbitrationStatus (as_State st) (as_Epoch st) (as_FencedNodes st) (as_HostFences st) t
    (as_Message st).

(** [setStatus]: the stored status is compared without its time, the new one with. *)
Definition setStatus (c : Cluster) (st : option ArbitrationStatus) : M unit :=
  let unchanged := match c_Arbitration c, st with
    | None, None => true
    | Some prev, Some st => bool_decide (with_status_time prev None = st)
    | _, _ => false
    end in
  if unchanged then mret ()
  else
    t ← now;
    patch_arbitration c ((fun st => with_status_time st (Some t)) <$> st).

(** ** Host fences ([hostfence.go]) *)

Definition HostFencingOn (c : Cluster) : bool :=
  String.eqb (c_ClusterMode c) ClusterModeDual &&
  bool_decide (c_EnableArbitration c = Some true) &&
  bool_decide (c_HostFencing c = Some (Some true)).

(** Arbitration wanted: what [Reconcile] and [pushSettings] test. *)
Definition ArbitrationOn (c : Cluster) : bool :=
  String.eqb (c_ClusterMode c) ClusterModeDual && default false (c_EnableArbitration c).

Definition pushSettings (c : Cluster) (rec : option Arbiter) : M unit :=
  rec ← match rec with
    | Some rec => mret (Some rec)
    | None =>
        got ← try (Get c);
        mret (match got with Ok got => got | Err _ => None end)
    end;
  match rec with
  | None => mret ()
  | Some rec =>
      let wantArb := ArbitrationOn c in
      let wantHF := HostFencingOn c in
      if Bool.eqb (a_Enabled rec) wantArb && Bool.eqb (a_HostFencing rec) wantHF then mret ()
      else
        _ ← try (send (SetTwoNodeSettings (c_UUID c) wantArb wantHF));
        mret ()
  end.

Definition HostNQNs (n : Node) : list string :=
  let derived : gset string := if String.eqb (n_UID n) "" then ∅ else {[ Host (n_UID n) ]} in
  let v := TrimSpace (default "" (n_Annotations n !! AnnoNVMeHostNQN)) in
  let published : gset string := if String.prefix "nqn." v then {[ v ]} else ∅ in
  sort_strings (elements (derived ∪ published)).

(** [reportClientHosts]: the NQNs are sent when the control plane holds others, and
    recorded once it holds these. *)
Definition reportClientHosts (sn : StorageNode) (n : Node) (rec : Arbiter) : M unit :=
  let want := HostNQNs n in
  let have := sort_strings (default [] (a_ClientHosts rec !! s_UUID sn)) in
  held ← (if bool_decide (have = want) then mret true
          else
            sent ← try (send (SetClientHosts (s_UUID sn) want));
            mret (is_Ok sent));
  if negb held then mret ()
  else
    let recorded := match s_Remediation sn with
      | Some rem => bool_decide (ReportedHostNQNs rem = want)
      | None => false
      end in
    if recorded then mret ()
    else
      let rem := default zero_remediation (s_Remediation sn) in
      _ ← patch_remediation sn (mkNodeRemediation (OutOfService rem) (NodeNotReady rem)
            (StorageFencedEpoch rem) (ReportedFenced rem) want (nr_ObservedAt rem));
      mret ().

Definition fence_condition (n : Node) : option Condition :=
  find_first (fun c => String.eqb (co_Type c) ConditionStorageFenced) (n_Conditions n).

(** [setStorageFenced]; the answer is the node as it then is. *)
Definition setStorageFenced (n : Node) (fenced : bool) (msg : string) : M Node :=
  let want := if fenced then ConditionTrue else ConditionFalse in
  let reason := if fenced then StorageFencedReasonWitness else StorageFencedReasonReleased in
  match fence_condition n with
  | None =>
      if fenced then
        t ← now;
        patch_condition n (mkCondition ConditionStorageFenced want reason msg t t)
      else mret n
  | Some cur =>
      if String.eqb (co_Status cur) want && String.eqb (co_Reason cur) reason &&
         String.eqb (co_Message cur) msg then mret n
      else
        t ← now;
        patch_condition n (mkCondition ConditionStorageFenced want reason msg t
          (if String.eqb (co_Status cur) want then co_Transition cur else t))
  end.

Definition clearStorageFenced (sns : list StorageNode) : M unit :=
  for_each (fun sn =>
    if String.eqb (s_WorkerNode sn) "" then mret ()
    else
      found ← get_node (s_WorkerNode sn);
      match found with
      | None => mret ()
      | Some node => _ ← setStorageFenced node false ""; mret ()
      end) sns.

Definition ToleratesOutOfService (tolerations : list Toleration) : bool :=
  existsb (fun t =>
    (String.eqb (to_Effect t) "" || String.eqb (to_Effect t) TaintEffectNoExecute) &&
    (String.eqb (to_Key t) TaintOutOfService ||
     String.eqb (to_Key t) "" && String.eqb (to_Operator t) TolerationOpExists)) tolerations.

(** A pod of the node that was there before the fence and is not allowed to stay. *)
Definition stale_pod (name : string) (since : Time) (p : Pod) : bool :=
  String.eqb (p_NodeName p) name &&
  negb (String.eqb (p_Phase p) PodSucceeded || String.eqb (p_Phase p) PodFailed) &&
  (p_Created p <? since)%Z && negb (ToleratesOutOfService (p_Tolerations p)).

Definition nodeClean (n : Node) (since : Time) : M bool :=
  if negb (nodeReady n) then mret false
  else
    ps ← list_pods;
    mret (negb (existsb (stale_pod (n_Name n) since) ps)).

Definition fence_message (epoch : Z) (winner : string) : string :=
  "epoch " ++ Itoa epoch ++ ": the node's NVMe hosts are revoked on " ++ winner.

Definition workers_by_uuid (sns : list StorageNode) : gmap string string :=
  foldl (fun m sn => <[s_UUID sn := s_WorkerNode sn]> m) ∅ sns.

(** One round of [followHostFences]: the fence's status, when there is a fence. *)
Definition follow_one (c : Cluster) (rec : Arbiter) (workerOf : gmap string string)
    (sn : StorageNode) : M (option HostFenceStatus) :=
  if String.eqb (s_WorkerNode sn) "" || String.eqb (s_UUID sn) "" then mret None
  else
    found ← get_node (s_WorkerNode sn);
    match found with
    | None => mret None
    | Some node =>
        let on := HostFencingOn c in
        _ ← (if on then reportClientHosts sn node rec else mret ());
        let fence := a_HostFences rec !! s_UUID sn in
        let winner := match fence with Some f => default "" (workerOf !! f_On f) | None => "" end in
        let cutOff := match fence with Some f => on && Effective f | None => false end in
        let msg := match fence with
          | Some f => if cutOff then fence_message (f_Epoch f) winner else ""
          | None => ""
          end in
        node ← setStorageFenced node cutOff msg;
        match fence with
        | None => mret None
        | Some f =>
            let status := mkHostFenceStatus (s_WorkerNode sn) (f_State f) winner (f_Epoch f) in
            if negb on || negb (String.eqb (f_State f) HostFenceReleasable) then mret (Some status)
            else
              clean ← nodeClean node (f_Since f);
              if negb clean then mret (Some status)
              else
                _ ← try (send (ReleaseHostFence (s_UUID sn)));
                mret (Some status)
        end
    end.

Fixpoint follow_all (c : Cluster) (rec : Arbiter) (workerOf : gmap string string)
    (sns : list StorageNode) : M (list HostFenceStatus) :=
  match sns with
  | [] => mret []
  | sn :: sns =>
      status ← follow_one c rec workerOf sn;
      rest ← follow_all c rec workerOf sns;
      mret (match status with Some status => status :: rest | None => rest end)
  end.

Definition hf_le (x y : HostFenceStatus) : Prop := String.le (hf_Node x) (hf_Node y).
#[local] Instance hf_le_dec : RelDecision hf_le.
Proof. intros x y. unfold hf_le. exact _. Defined.

(** [followHostFences]; a fence is in progress when any is answered. *)
Definition followHostFences (c : Cluster) (sns : list StorageNode) (rec : Arbiter)
    : M (list HostFenceStatus * bool) :=
  out ← follow_all c rec (workers_by_uuid sns) sns;
  mret (merge_sort hf_le out, negb (bool_decide (out = []))).

(** ** The arbitration pass ([arbitration_controller.go]) *)

Definition message_status (msg : string) : ArbitrationStatus :=
  mkArbitrationStatus "" 0 [] [] None msg.

Definition with_message (st : ArbitrationStatus) (msg : string) : ArbitrationStatus :=
  mkArbitrationStatus (as_State st) (as_Epoch st) (as_FencedNodes st) (as_HostFences st)
    (as_ObservedAt st) msg.

Definition two_nodes_message : string := "two-node arbitration needs exactly two storage nodes".
Definition no_record_message : string := "the control plane holds no arbitration record yet".

(** The workers of the storage nodes the arbiter holds fenced. *)
Definition known_workers (sns : list StorageNode) : gmap string string :=
  foldl (fun m sn =>
    if String.eqb (s_UUID sn) "" then m else <[s_UUID sn := s_WorkerNode sn]> m) ∅ sns.

Definition fenced_workers (sns : list StorageNode) (rec : Arbiter) : gset string :=
  list_to_set (omap (fun id =>
    match known_workers sns !! id with
    | Some w => if String.eqb w "" then None else Some w
    | None => None
    end) (a_FencedNodes rec)).

(** The pass over a cluster whose record was read. *)
Definition follow_record (c : Cluster) (sns : list StorageNode) (rec : Arbiter)
    : M (option Duration) :=
  let fenced := fenced_workers sns rec in
  _ ← applyTaints sns fenced (a_Epoch rec);
  sns ← reportRemediation sns;
  _ ← pushSettings c (Some rec);
  followed ← followHostFences c sns rec;
  let '(hostFences, active) := followed in
  _ ← setStatus c (Some (mkArbitrationStatus (a_State rec) (a_Epoch rec)
        (sort_strings (elements fenced)) hostFences None ""));
  mret (Some (if String.eqb (a_State rec) stateSteady && negb active then requeueSteady
              else requeueActive)).

(** The pass over a cluster that is not arbitrated. *)
Definition withdraw (c : Cluster) (sns : list StorageNode) : M (option Duration) :=
  _ ← applyTaints sns ∅ 0;
  _ ← clearStorageFenced sns;
  _ ← (if String.eqb (c_ClusterMode c) ClusterModeDual && negb (String.eqb (c_UUID c) "")
       then pushSettings c None else mret ());
  _ ← setStatus c None;
  mret None.

(** The pass when there is no record to follow. *)
Definition keep_as_is (c : Cluster) (msg : string) : M (option Duration) :=
  _ ← setStatus c (Some (with_message (default (message_status "") (c_Arbitration c)) msg));
  mret (Some requeueError).

(** [ArbitrationReconciler.Reconcile]; the answer is when to come back. *)
Definition Reconcile (key : string * string) : M (option Duration) :=
  found ← get_cluster key;
  match found with
  | None => mret None
  | Some c =>
      if c_Supercluster c then mret None
      else
        sns ← storageNodes c;
        if negb (ArbitrationOn c) then withdraw c sns
        else if String.eqb (c_UUID c) "" then mret (Some requeueSteady)
        else if negb (Nat.eqb (length sns) 2) then
          _ ← setStatus c (Some (message_status two_nodes_message));
          mret (Some requeueSteady)
        else
          got ← try (Get c);
          match got with
          | Err err => keep_as_is c ("cannot read the arbitration record: " ++ err)
          | Ok None => keep_as_is c no_record_message
          | Ok (Some rec) => follow_record c sns rec
          end
  end.

(** ** The remediation pass ([remediation_controller.go]) *)

Definition RemediationFinalizer : string := "storage.simplyblock.io/storage-fence-remediation".
Definition AnnoRemediationNodeName : string := "remediation.medik8s.io/node-name".
Definition requeueRemediation : Duration := (5 * Second)%Z.
Definition StorageFenceRemediationPending : string := "Pending".
Definition StorageFenceRemediationBlocked : string := "Blocked".
Definition StorageFenceRemediationTainted : string := "Tainted".
Definition RemediationConditionProcessing : string := "Processing".
Definition RemediationConditionSucceeded : string := "Succeeded".

Definition rem_key (r : Remediation) : string * string := (r_Namespace r, r_Name r).

(** The node a remediation is for. *)
Definition remediation_node (r : Remediation) : string :=
  let named := default "" (r_Annotations r !! AnnoRemediationNodeName) in
  if String.eqb named "" then r_Name r else named.

Definition with_finalizers (r : Remediation) (fs : list string) : Remediation :=
  mkRemediation (r_Namespace r) (r_Name r) (r_Annotations r) (r_Deleting r) fs
    (r_AllowForeignVolumes r) (r_Phase r) (r_Node r) (r_Epoch r) (r_TaintedAt r) (r_Message r)
    (r_Conditions r).

(** [Update] of a remediation's metadata; one that is being deleted goes with its last
    finalizer. *)
Definition update_finalizers (r : Remediation) (fs : list string) : M Remediation :=
  call (fun w =>
    match remediations w !! rem_key r with
    | None => (w, Err not_found)
    | Some cur =>
        let new := with_finalizers cur fs in
        (set_remediations w
          (if r_Deleting cur && bool_decide (fs = []) then delete (rem_key r) (remediations w)
           else <[rem_key r := new]> (remediations w)), Ok new)
    end).

(** [meta.SetStatusCondition]. *)
Fixpoint set_status_condition (type : string) (v : string * string * string)
    (cs : list (string * (string * string * string)))
    : list (string * (string * string * string)) :=
  match cs with
  | [] => [(type, v)]
  | c :: cs => if String.eqb c.1 type then (type, v) :: cs else c :: set_status_condition type v cs
  end.

Definition with_status (r : Remediation) (node phase msg : string) (epoch : Z)
    (processing succeeded : string) (t : Time) : Remediation :=
  mkRemediation (r_Namespace r) (r_Name r) (r_Annotations r) (r_Deleting r) (r_Finalizers r)
    (r_AllowForeignVolumes r) phase node
    (if Z.eqb epoch 0 then r_Epoch r else epoch)
    (match r_TaintedAt r with
     | Some _ => r_TaintedAt r
     | None => if String.eqb phase StorageFenceRemediationTainted then Some t else None
     end) msg
    (set_status_condition RemediationConditionSucceeded (succeeded, phase, msg)
      (set_status_condition RemediationConditionProcessing (processing, phase, msg)
        (r_Conditions r))).

(** [statusEqual]. *)
Definition statusEqual (x y : Remediation) : bool :=
  String.eqb (r_Phase x) (r_Phase y) && String.eqb (r_Node x) (r_Node y) &&
  String.eqb (r_Message x) (r_Message y) && Z.eqb (r_Epoch x) (r_Epoch y) &&
  Bool.eqb (bool_decide (r_TaintedAt x = None)) (bool_decide (r_TaintedAt y = None)) &&
  bool_decide (r_Conditions x = r_Conditions y).

Definition writeStatus (r : Remediation) (node phase msg : string) (epoch : Z)
    (processing succeeded : string) : M unit :=
  t ← now;
  let new := with_status r node phase msg epoch processing succeeded t in
  if statusEqual r new then mret ()
  else call (fun w =>
    match remediations w !! rem_key r with
    | None => (w, Err not_found)
    | Some cur => (set_remediations w (<[rem_key r :=
        with_status cur node phase msg epoch processing succeeded t]> (remediations w)), Ok ())
    end).

Definition pending (r : Remediation) (node phase msg : string) (epoch : Z) : M (option Duration) :=
  _ ← writeStatus r node phase msg epoch ConditionTrue ConditionFalse;
  mret (Some requeueRemediation).

Definition tainted (r : Remediation) (node : string) (epoch : Z) : M (option Duration) :=
  _ ← writeStatus r node StorageFenceRemediationTainted "" epoch ConditionFalse ConditionTrue;
  mret None.

(** [fenced]: the epoch of the fence that holds the node, or why none does. *)
Definition fenced (n : Node) : M (Z + string) :=
  if negb (existsb (fun c => String.eqb (co_Type c) ConditionStorageFenced &&
       String.eqb (co_Status c) ConditionTrue) (n_Conditions n)) then
    mret (inr "the node is not storage-fenced")
  else
    sns ← list_storage_nodes;
    match find_first (fun sn => String.eqb (s_WorkerNode sn) (n_Name n) &&
                                negb (String.eqb (s_UUID sn) "")) sns with
    | None => mret (inr "no storage node runs on the node")
    | Some sn =>
        found ← get_cluster (s_Namespace sn, s_ClusterRef sn);
        match found with
        | None => mret (inr "the storage node's cluster is gone")
        | Some c =>
            if negb (HostFencingOn c) then
              mret (inr ("host fencing is off for cluster " ++ c_Name c))
            else
              got ← try (Get c);
              match got with
              | Ok (Some rec) =>
                  match a_HostFences rec !! s_UUID sn with
                  | Some f =>
                      if Effective f then mret (inl (f_Epoch f))
                      else mret (inr "the control plane holds no host fence for the node")
                  | None => mret (inr "the control plane holds no host fence for the node")
                  end
              | _ => mret (inr "cannot confirm the fence with the control plane")
              end
        end
    end.

(** The attachments on a node of another driver. *)
Definition foreign (name : string) (vas : list VolumeAttachment) : list VolumeAttachment :=
  List.filter (fun va => String.eqb (va_NodeName va) name &&
    negb (String.eqb (va_Attacher va) DriverName)) vas.

Definition foreignVolumes (name : string) : M (list string) :=
  vas ← list_attachments;
  mret (sort_strings ((fun va => va_Name va ++ " (" ++ va_Attacher va ++ ")") <$> foreign name vas)).

Definition blocked_message (volumes : list string) : string :=
  "volumes of other CSI drivers are attached (" ++ String.concat ", " volumes ++
  "); the out-of-service taint would force-detach them unfenced".

(** A node with the remediation's taint on it, and the mark that it is its own. *)
Definition taken_out (n : Node) : Node :=
  mkNode (n_Name n) (n_UID n)
    (<[AnnoOutOfServiceBy := OutOfServiceByStorageFence]> (n_Annotations n))
    (n_Taints n ++ [mkTaint TaintOutOfService TaintOutOfServiceValue TaintEffectNoExecute None])%list
    (n_Conditions n).

(** [removeTaint]. *)
Definition given_back (n : Node) : Node :=
  mkNode (n_Name n) (n_UID n) (delete AnnoOutOfServiceBy (n_Annotations n))
    (withoutTaint (n_Taints n) TaintOutOfService) (n_Conditions n).

Definition removeTaint (name : string) : M unit :=
  found ← get_node name;
  match found with
  | None => mret ()
  | Some n =>
      if bool_decide (n_Annotations n !! AnnoOutOfServiceBy = Some OutOfServiceByStorageFence) then
        patch_node n (given_back n)
      else mret ()
  end.

(** The pass over a remediation that is being deleted. *)
Definition finish (r : Remediation) : M (option Duration) :=
  _ ← removeTaint (remediation_node r);
  if contains (r_Finalizers r) RemediationFinalizer then
    _ ← update_finalizers r (List.filter (fun f => negb (String.eqb f RemediationFinalizer))
          (r_Finalizers r));
    mret None
  else mret None.

(** The pass over a node that does not carry the taint yet. *)
Definition take_out (r : Remediation) (name : string) (n : Node) : M (option Duration) :=
  held ← fenced n;
  match held with
  | inr why => pending r name StorageFenceRemediationPending why 0
  | inl epoch =>
      volumes ← (if r_AllowForeignVolumes r then mret [] else foreignVolumes name);
      match volumes with
      | _ :: _ => pending r name StorageFenceRemediationBlocked (blocked_message volumes) epoch
      | [] =>
          _ ← patch_node n (taken_out n);
          tainted r name epoch
      end
  end.

(** [RemediationReconciler.Reconcile]. *)
Definition Remediate (key : string * string) : M (option Duration) :=
  found ← read (fun w => remediations w !! key);
  match found with
  | None => mret None
  | Some r =>
      let name := remediation_node r in
      if r_Deleting r then finish r
      else
        r ← (if contains (r_Finalizers r) RemediationFinalizer then mret r
             else update_finalizers r (r_Finalizers r ++ [RemediationFinalizer])%list);
        node ← get_node name;
        match node with
        | None => pending r name StorageFenceRemediationPending "node not found" 0
        | Some n =>
            if hasTaint n TaintOutOfService then tainted r name (r_Epoch r)
            else take_out r name n
        end
  end.

(** ** A logic for programs *)

(** From a world that satisfies [IW], whatever fails, a program leaves one that does,
    sends only what [IS] allows, and answers what satisfies [Q]. *)
Definition sound (IW : World -> Prop) (IS : cp_call -> Prop) {A} (Q : A -> Prop) (m : M A) : Prop :=
  forall s, IW (world s) ->
    IW (world (m s).1) /\
    (exists cs, sent (m s).1 = (sent s ++ cs)%list /\ Forall IS cs) /\
    (forall a, (m s).2 = Ok a -> Q a).

Section Logic.

Context (IW : World -> Prop) (IS : cp_call -> Prop).

Lemma sound_ret {A} (Q : A -> Prop) x : Q x -> sound IW IS Q (mret x).
Proof.
  intros Hq s Hs. split; [done|]. split; [exists []; by rewrite app_nil_r|]. by intros a [= <-].
Qed.

Lemma sound_bind {A B} (P : A -> Prop) (Q : B -> Prop) (m : M A) (k : A -> M B) :
  sound IW IS P m -> (forall x, P x -> sound IW IS Q (k x)) -> sound IW IS Q (m ≫= k).
Proof.
  intros Hm Hk s Hs. destruct (Hm s Hs) as (H1 & (cs & H2 & H3) & H4).
  unfold mbind, M_bind. destruct (m s) as [s1 [x|e]]; simpl in *.
  - destruct (Hk x (H4 x eq_refl) s1 H1) as (K1 & (cs' & K2 & K3) & K4).
    split; [done|]. split; [|done]. exists (cs ++ cs')%list.
    rewrite K2, H2, app_assoc, Forall_app. done.
  - split; [done|]. split; [by exists cs|done].
Qed.

Lemma sound_weaken {A} (P Q : A -> Prop) (m : M A) :
  sound IW IS P m -> (forall a, P a -> Q a) -> sound IW IS Q m.
Proof. intros Hm Hpq s Hs. destruct (Hm s Hs) as (? & ? & ?). naive_solver. Qed.

Lemma sound_call {A} (Q : A -> Prop) (f : World -> World * res string A) :
  (forall w, IW w -> IW (f w).1 /\ forall a, (f w).2 = Ok a -> Q a) -> sound IW IS Q (call f).
Proof.
  intros Hf s Hs. destruct (Hf _ Hs) as [H1 H2]. unfold call.
  destruct (faults s) as [|[|landed err] rest];
    [destruct (f (world s)) as [w r]..|]; simpl in *; (split; [by try destruct landed|]);
    (split; [exists []; by rewrite app_nil_r|]); done.
Qed.

Lemma sound_read {A} (Q : A -> Prop) (f : World -> A) :
  (forall w, IW w -> Q (f w)) -> sound IW IS Q (read f).
Proof. intros Hf. apply sound_call. intros w Hw. split; [done|]. intros a [= <-]. by apply Hf. Qed.

Lemma sound_now : sound IW IS (fun _ => True) now.
Proof. intros s Hs. split; [done|]. split; [exists []; by rewrite app_nil_r|done]. Qed.

Lemma sound_try {A} (Q : A -> Prop) (m : M A) :
  sound IW IS Q m -> sound IW IS (fun r => forall a, r = Ok a -> Q a) (try m).
Proof.
  intros Hm s Hs. destruct (Hm s Hs) as (H1 & H2 & H3). unfold try.
  destruct (m s) as [s1 r]; simpl in *. split; [done|]. split; [done|]. by intros a [= <-].
Qed.

Lemma sound_send c : IS c -> sound IW IS (fun _ => True) (send c).
Proof.
  intros Hc s Hs. unfold send. set (s0 := mkSt (world s) (faults s) (sent s ++ [c])).
  assert (Hcall : sound IW IS (fun _ : unit => True) (call (fun w => (w, Ok ())))).
  { apply sound_call. intros w Hw. done. }
  destruct (Hcall s0 Hs) as (H1 & (cs & H2 & H3) & _). split; [done|]. split; [|done].
  exists (c :: cs). rewrite H2. unfold s0. simpl. rewrite <- app_assoc. split; [done|].
  by constructor.
Qed.

Lemma sound_for_each {A} (f : A -> M unit) xs :
  (forall x, x ∈ xs -> sound IW IS (fun _ => True) (f x)) ->
  sound IW IS (fun _ => True) (for_each f xs).
Proof.
  induction xs as [|x xs IH]; intros Hf; simpl; [by apply sound_ret|].
  eapply sound_bind; [apply Hf; left|]. intros _ _. apply IH. intros y Hy. apply Hf. by right.
Qed.

End Logic.

(** ** What a pass leaves alone *)

Definition other_conditions (n : Node) : list Condition :=
  List.filter (fun c => negb (String.eqb (co_Type c) ConditionStorageFenced)) (n_Conditions n).

(** Two states of one node that differ at most in the storage-fenced taint and the
    [StorageFenced] condition. *)
Record same_host (n0 n : Node) : Prop := {
  same_name : n_Name n = n_Name n0;
  same_uid : n_UID n = n_UID n0;
  same_annotations : n_Annotations n = n_Annotations n0;
  same_taints : withoutTaint (n_Taints n) TaintStorageFenced =
    withoutTaint (n_Taints n0) TaintStorageFenced;
  same_conditions : other_conditions n = other_conditions n0;
}.

#[global] Instance same_host_equiv : Equivalence same_host.
Proof. split; [by split|by intros x y []|intros x y z [] []; split; congruence]. Qed.

Lemma find_first_filter {A} (p q : A -> bool) l :
  (forall x, q x = true -> p x = true) -> find_first q (List.filter p l) = find_first q l.
Proof.
  intros Hq. induction l as [|x l IH]; [done|]. simpl. destruct (p x) eqn:Ep; simpl.
  - by rewrite IH.
  - destruct (q x) eqn:Eq; [by rewrite Hq in Ep|done].
Qed.

Lemma existsb_filter {A} (p q : A -> bool) l :
  (forall x, q x = true -> p x = true) -> existsb q (List.filter p l) = existsb q l.
Proof.
  intros Hq. induction l as [|x l IH]; [done|]. simpl. destruct (p x) eqn:Ep; simpl.
  - by rewrite IH.
  - destruct (q x) eqn:Eq; [by rewrite Hq in Ep|done].
Qed.

Lemma same_host_ready n0 n : same_host n0 n -> nodeReady n = nodeReady n0.
Proof.
  intros [_ _ _ _ Hc]. unfold nodeReady, other_conditions in *.
  assert (Hf : forall cs, find_first (fun c => String.eqb (co_Type c) NodeReady)
      (List.filter (fun c => negb (String.eqb (co_Type c) ConditionStorageFenced)) cs) =
    find_first (fun c => String.eqb (co_Type c) NodeReady) cs).
  { intros cs. apply find_first_filter. by intros c ->%String.eqb_eq. }
  by rewrite <- (Hf (n_Conditions n)), Hc, Hf.
Qed.

Lemma hasTaint_without taints key key' :
  key <> key' -> existsb (fun t => String.eqb (t_Key t) key) (withoutTaint taints key') =
    existsb (fun t => String.eqb (t_Key t) key) taints.
Proof.
  intros Hne. apply existsb_filter. intros t ->%String.eqb_eq.
  by apply negb_true_iff, String.eqb_neq.
Qed.

Lemma same_host_evidence n0 n : same_host n0 n -> evidence_of n = evidence_of n0.
Proof.
  intros [_ _ Ha Ht _]. unfold evidence_of, hasTaint. rewrite Ha.
  rewrite <- (hasTaint_without (n_Taints n) _ TaintStorageFenced) by done.
  by rewrite Ht, hasTaint_without.
Qed.

Lemma withoutTaint_idemp taints key :
  withoutTaint (withoutTaint taints key) key = withoutTaint taints key.
Proof.
  unfold withoutTaint. induction taints as [|t taints IH]; [done|]. simpl.
  destruct (negb (String.eqb (t_Key t) key)) eqn:E; simpl; [|done]. by rewrite E, IH.
Qed.

Lemma withoutTaint_wanted taints b epoch :
  withoutTaint (wanted_taints taints b epoch) TaintStorageFenced =
    withoutTaint taints TaintStorageFenced.
Proof.
  unfold wanted_taints. destruct b; [|apply withoutTaint_idemp].
  unfold withoutTaint at 1. rewrite List.filter_app. simpl. rewrite app_nil_r.
  apply withoutTaint_idemp.
Qed.

Lemma wanted_taints_idemp taints b epoch :
  wanted_taints (wanted_taints taints b epoch) b epoch = wanted_taints taints b epoch.
Proof.
  unfold wanted_taints at 1. cbv zeta. rewrite withoutTaint_wanted.
  unfold wanted_taints. by destruct b.
Qed.

Lemma set_condition_others c cs :
  co_Type c = ConditionStorageFenced ->
  List.filter (fun c => negb (String.eqb (co_Type c) ConditionStorageFenced)) (set_condition c cs) =
    List.filter (fun c => negb (String.eqb (co_Type c) ConditionStorageFenced)) cs.
Proof.
  intros Hc. induction cs as [|c' cs IH]; simpl; [by rewrite Hc|].
  destruct (String.eqb_spec (co_Type c') (co_Type c)) as [E|E]; simpl.
  - by rewrite E, Hc.
  - by rewrite IH.
Qed.

Lemma merge_map_same (base cur : gmap string string) : merge_map base base cur = cur.
Proof.
  unfold merge_map. apply map_eq. intros k.
  assert (filter (fun kv : string * string => base !! kv.1 <> base !! kv.1) base = ∅) as ->.
  { apply map_empty. intros k'. apply map_lookup_filter_None. right. intros v _ H. by apply H. }
  rewrite (left_id_L ∅ (∪)). destruct (cur !! k) as [v|] eqn:E.
  - by apply map_lookup_filter_Some.
  - apply map_lookup_filter_None. by left.
Qed.

(** What the facts a pass acts on have in common with those it began with. *)
Record facts (w0 w : World) : Prop := {
  facts_pods : pods w = pods w0;
  facts_attachments : attachments w = attachments w0;
  facts_arbiters : arbiters w = arbiters w0;
  facts_remediations : remediations w = remediations w0;
  facts_clock : clock w = clock w0;
  facts_nodes : forall name, match nodes w0 !! name, nodes w !! name with
    | Some n0, Some n => same_host n0 n
    | None, None => True
    | _, _ => False
    end;
  facts_storage : forall key sn, storage_nodes w !! key = Some sn ->
    exists sn0 rem, storage_nodes w0 !! key = Some sn0 /\
      sn = mkStorageNode (s_Namespace sn0) (s_Name sn0) (s_ClusterRef sn0) (s_WorkerNode sn0)
        (s_Stretched sn0) (s_UUID sn0) rem;
  facts_clusters : forall key c, clusters w !! key = Some c ->
    exists c0 st, clusters w0 !! key = Some c0 /\ c = with_arbitration c0 st;
}.

(** Objects are kept under their names. *)
Definition named (w : World) : Prop :=
  (forall name n, nodes w !! name = Some n -> n_Name n = name) /\
  (forall key sn, storage_nodes w !! key = Some sn -> key_of sn = key) /\
  (forall key c, clusters w !! key = Some c -> cluster_key c = key) /\
  (forall key r, remediations w !! key = Some r -> rem_key r = key).

Lemma facts_refl w : facts w w.
Proof.
  split; try done.
  - intros name. by destruct (nodes w !! name).
  - intros key sn Hk. exists sn, (s_Remediation sn). by destruct sn.
  - intros key c Hk. exists c, (c_Arbitration c). by destruct c.
Qed.

Lemma facts_node w0 w name n :
  facts w0 w -> nodes w !! name = Some n ->
  exists n0, nodes w0 !! name = Some n0 /\ same_host n0 n.
Proof.
  intros [_ _ _ _ _ Hn _ _] E. specialize (Hn name). rewrite E in Hn.
  destruct (nodes w0 !! name) as [n0|]; [by exists n0|done].
Qed.

Lemma facts_set_node w0 w name n0 n :
  facts w0 w -> nodes w0 !! name = Some n0 -> same_host n0 n ->
  facts w0 (set_nodes w (<[name := n]> (nodes w))).
Proof.
  intros [] E Hs. split; simpl; try done. intros name'.
  destruct (decide (name' = name)) as [->|Hne].
  - by rewrite lookup_insert_eq, E.
  - rewrite lookup_insert_ne by done. apply facts_nodes0.
Qed.

Lemma facts_set_storage_node w0 w key cur rem :
  facts w0 w -> storage_nodes w !! key = Some cur ->
  facts w0 (set_storage_nodes w (<[key := with_remediation cur rem]> (storage_nodes w))).
Proof.
  intros [] E. split; simpl; try done. intros key' sn.
  intros [[<- <-]|[_ Hk]]%lookup_insert_Some; [|by auto].
  destruct (facts_storage0 _ _ E) as (sn0 & rem' & ? & ->). by exists sn0, (Some rem).
Qed.

Lemma facts_set_cluster w0 w key cur st :
  facts w0 w -> clusters w !! key = Some cur ->
  facts w0 (set_clusters w (<[key := with_arbitration cur st]> (clusters w))).
Proof.
  intros [] E. split; simpl; try done. intros key' c.
  intros [[<- <-]|[_ Hk]]%lookup_insert_Some; [|by auto].
  destruct (facts_clusters0 _ _ E) as (c0 & st' & ? & ->). by exists c0, st.
Qed.

(** ** What a pass sends *)

(** Why a call of the control plane is right, in the world [w] it was made from. *)
Definition justified (w : World) (sent : cp_call) : Prop :=
  match sent with
  | ReportFencing uuid fenced => exists key sn n,
      storage_nodes w !! key = Some sn /\ s_UUID sn = uuid /\
      nodes w !! s_WorkerNode sn = Some n /\ fenced = evidence_of n
  | SetClientHosts uuid hosts => exists key sn n,
      storage_nodes w !! key = Some sn /\ s_UUID sn = uuid /\
      nodes w !! s_WorkerNode sn = Some n /\ hosts = HostNQNs n
  | SetTwoNodeSettings uuid arbitration hostFencing => exists key c,
      clusters w !! key = Some c /\ c_UUID c = uuid /\
      arbitration = ArbitrationOn c /\ hostFencing = HostFencingOn c
  | ReleaseHostFence uuid => exists key c rec f key' sn n,
      clusters w !! key = Some c /\ HostFencingOn c = true /\
      arbiters w !! c_UUID c = Some (Ok rec) /\ a_HostFences rec !! uuid = Some f /\
      f_State f = HostFenceReleasable /\
      storage_nodes w !! key' = Some sn /\ s_UUID sn = uuid /\
      nodes w !! s_WorkerNode sn = Some n /\ nodeReady n = true /\
      forall p, p ∈ pods w -> stale_pod (n_Name n) (f_Since f) p = false
  end.

Section Pass.

Context (w0 : World) (Hnamed : named w0).
#[local] Set Default Proof Using "Type*".

Definition known_node (n : Node) : Prop :=
  exists n0, nodes w0 !! n_Name n = Some n0 /\ same_host n0 n.

Definition known_sn (sn : StorageNode) : Prop :=
  exists sn0 rem, storage_nodes w0 !! key_of sn = Some sn0 /\
    sn = mkStorageNode (s_Namespace sn0) (s_Name sn0) (s_ClusterRef sn0) (s_WorkerNode sn0)
      (s_Stretched sn0) (s_UUID sn0) rem.

Definition known_cluster (c : Cluster) : Prop :=
  exists c0 st, clusters w0 !! cluster_key c = Some c0 /\ c = with_arbitration c0 st.

Local Abbreviation ok := (sound (facts w0) (justified w0)).

Lemma get_node_ok name :
  ok (fun found => forall n, found = Some n -> n_Name n = name /\ known_node n) (get_node name).
Proof.
  apply sound_read. intros w Hw n E. destruct (facts_node _ _ _ _ Hw E) as (n0 & E0 & Hs).
  assert (n_Name n = name) as Hname.
  { rewrite (same_name _ _ Hs). by apply Hnamed in E0. }
  split; [done|]. exists n0. by rewrite Hname.
Qed.

Lemma patch_node_ok base new :
  known_node base -> same_host base new -> n_Annotations new = n_Annotations base ->
  ok (fun _ => True) (patch_node base new).
Proof.
  intros (n0 & E0 & Hs) Hnew Ha. apply sound_call. intros w Hw.
  destruct (nodes w !! n_Name base) as [cur|] eqn:E; [|done]. split; [|done]. simpl.
  apply (facts_set_node _ _ _ n0); [done..|].
  destruct (facts_node _ _ _ _ Hw E) as (n1 & E1 & Hc). assert (n1 = n0) as -> by congruence.
  destruct Hc as [C1 C2 C3 C4 C5], Hs as [B1 B2 B3 B4 B5], Hnew as [N1 N2 N3 N4 N5].
  split; simpl; [done..| | |].
  - by rewrite Ha, merge_map_same.
  - unfold pick. case_decide; [done|congruence].
  - unfold other_conditions in *. done.
Qed.

Lemma patch_remediation_ok sn rem :
  known_sn sn -> ok (fun sn' => known_sn sn' /\ key_of sn' = key_of sn) (patch_remediation sn rem).
Proof.
  intros (sn0 & r0 & E0 & Hsn). apply sound_call. intros w Hw.
  destruct (storage_nodes w !! key_of sn) as [cur|] eqn:E; [|by split].
  split; [by apply facts_set_storage_node|]. intros sn' [= <-].
  destruct (facts_storage _ _ Hw _ _ E) as (sn1 & r1 & E1 & ->).
  assert (sn1 = sn0) as -> by congruence.
  assert (key_of sn0 = key_of sn) as Hk by (by apply Hnamed in E0).
  unfold with_remediation. simpl. split; [|done].
  eexists sn0, _. split; [|done]. unfold key_of in *. simpl. by rewrite Hk.
Qed.

Lemma patch_arbitration_ok c st : ok (fun _ => True) (patch_arbitration c st).
Proof.
  apply sound_call. intros w Hw. destruct (clusters w !! cluster_key c) as [cur|] eqn:E; [|done].
  split; [by apply facts_set_cluster|done].
Qed.

Lemma patch_condition_ok n c :
  known_node n -> co_Type c = ConditionStorageFenced ->
  ok (fun n' => known_node n' /\ n_Name n' = n_Name n) (patch_condition n c).
Proof.
  intros (n0 & E0 & Hs) Hc. apply sound_call. intros w Hw.
  destruct (nodes w !! n_Name n) as [cur|] eqn:E; [|done].
  destruct (facts_node _ _ _ _ Hw E) as (n1 & E1 & Hs1). assert (n1 = n0) as -> by congruence.
  assert (Hnew : same_host n0 (with_condition cur c)).
  { destruct Hs1 as [C1 C2 C3 C4 C5]. split; simpl; [done..|].
    unfold other_conditions in *. simpl. by rewrite set_condition_others. }
  split; [by apply (facts_set_node _ _ _ n0)|]. intros n' [= <-].
  assert (n_Name (with_condition cur c) = n_Name n) as Hname.
  { rewrite (same_name _ _ Hnew), <- (same_name _ _ Hs). done. }
  split; [|done]. exists n0. by rewrite Hname.
Qed.

(** *** The operations *)

Lemma storageNodes_ok c :
  ok (fun sns => forall sn, sn ∈ sns -> known_sn sn) (storageNodes c).
Proof.
  unfold storageNodes. eapply sound_bind; [apply (sound_read _ _ (fun sns => forall sn, sn ∈ sns -> known_sn sn))|].
  - intros w Hw sn (kv & -> & Hkv)%list_elem_of_fmap. destruct kv as [key sn]. simpl.
    apply elem_of_map_to_list in Hkv.
    destruct (facts_storage _ _ Hw _ _ Hkv) as (sn0 & rem & E0 & ->).
    exists sn0, rem. split; [|done]. assert (key_of sn0 = key) as <- by (by apply Hnamed in E0).
    done.
  - intros all Hall. apply sound_ret. intros sn. unfold local_nodes. rewrite merge_sort_Permutation.
    intros [Hin _]%list_elem_of_In%filter_In. by apply Hall, list_elem_of_In.
Qed.

Lemma applyTaints_ok sns marked epoch : ok (fun _ => True) (applyTaints sns marked epoch).
Proof.
  apply sound_for_each. intros sn _. cbv zeta.
  destruct (String.eqb (s_WorkerNode sn) ""); [by apply sound_ret|].
  eapply sound_bind; [apply get_node_ok|]. intros [n|] Hn; [|by apply sound_ret].
  case_bool_decide; [by apply sound_ret|]. destruct (Hn n eq_refl) as [_ Hk].
  apply patch_node_ok; [done| |done]. split; simpl; try done. apply withoutTaint_wanted.
Qed.

Lemma report_one_ok sn : known_sn sn -> ok known_sn (report_one sn).
Proof.
  intros Hsn. unfold report_one. destruct (String.eqb (s_WorkerNode sn) ""); [by apply sound_ret|].
  eapply sound_bind; [apply get_node_ok|]. intros [n|] Hn; [|by apply sound_ret].
  destruct (Hn n eq_refl) as [Hname Hk].
  eapply (sound_bind _ _ (fun _ => True)).
  - unfold report_evidence. destruct (_ && _); [|by apply sound_ret].
    eapply sound_bind; [apply sound_try, sound_send|by intros; apply sound_ret].
    destruct Hsn as (sn0 & rem & E0 & ->). destruct Hk as (n0 & En & Hs). simpl in *.
    exists (key_of sn0), sn0, n0. rewrite Hname in En. do 3 (split; [done|]).
    by apply same_host_evidence.
  - intros rem _. case_match; [by apply sound_ret|].
    eapply sound_bind; [apply sound_now|]. intros t _.
    eapply sound_weaken; [by apply patch_remediation_ok|]. by intros sn' [? _].
Qed.

Lemma reportRemediation_ok sns :
  (forall sn, sn ∈ sns -> known_sn sn) ->
  ok (fun sns => forall sn, sn ∈ sns -> known_sn sn) (reportRemediation sns).
Proof.
  induction sns as [|sn sns IH]; intros Hall; simpl; [by apply sound_ret|].
  eapply sound_bind; [apply report_one_ok, Hall; left|]. intros sn' Hsn'.
  eapply sound_bind; [apply IH; intros; apply Hall; by right|]. intros sns' Hsns'.
  apply sound_ret. intros x [->|?]%elem_of_cons; auto.
Qed.

Lemma setStatus_ok c st : ok (fun _ => True) (setStatus c st).
Proof.
  unfold setStatus. case_match; [by apply sound_ret|].
  eapply sound_bind; [apply sound_now|]. intros t _. apply patch_arbitration_ok.
Qed.

Lemma Get_ok c :
  ok (fun got => forall rec, got = Some rec -> arbiters w0 !! c_UUID c = Some (Ok rec)) (Get c).
Proof.
  apply sound_call. intros w Hw. rewrite (facts_arbiters _ _ Hw).
  destruct (arbiters w0 !! c_UUID c) as [[rec|err]|]; split; try done.
  - by intros a [= <-] rec' [= <-].
  - by intros a [= <-].
Qed.

Lemma pushSettings_ok c rec : known_cluster c -> ok (fun _ => True) (pushSettings c rec).
Proof.
  intros (c0 & st & E0 & ->). unfold pushSettings.
  eapply (sound_bind _ _ (fun _ => True)).
  { destruct rec; [by apply sound_ret|].
    eapply sound_bind; [apply sound_try, Get_ok|]. by intros; apply sound_ret. }
  intros [r|] _; [|by apply sound_ret]. case_match; [by apply sound_ret|].
  eapply sound_bind; [apply sound_try, sound_send|by intros; apply sound_ret].
  by exists (cluster_key c0), c0.
Qed.

Lemma same_host_nqns n1 n2 : same_host n1 n2 -> HostNQNs n2 = HostNQNs n1.
Proof using. intros [_ Hu Ha _ _]. unfold HostNQNs. by rewrite Hu, Ha. Qed.

Lemma reportClientHosts_ok sn n rec :
  known_sn sn -> known_node n -> n_Name n = s_WorkerNode sn ->
  ok (fun _ => True) (reportClientHosts sn n rec).
Proof.
  intros Hsn Hn Hname. unfold reportClientHosts. eapply (sound_bind _ _ (fun _ => True)).
  - case_bool_decide; [by apply sound_ret|].
    eapply sound_bind; [apply sound_try, sound_send|by intros; apply sound_ret].
    destruct Hsn as (sn0 & rem & E0 & ->), Hn as (n0 & En & Hs). simpl in *.
    exists (key_of sn0), sn0, n0. rewrite Hname in En. do 3 (split; [done|]).
    by apply same_host_nqns.
  - intros held _. destruct (negb held); [by apply sound_ret|]. cbv zeta.
    case_match; [by apply sound_ret|].
    eapply sound_bind; [by apply patch_remediation_ok|]. by intros; apply sound_ret.
Qed.

Lemma setStorageFenced_ok n marked msg :
  known_node n -> ok (fun n' => known_node n' /\ n_Name n' = n_Name n) (setStorageFenced n marked msg).
Proof.
  intros Hn. unfold setStorageFenced. cbv zeta. destruct (fence_condition n) as [cur|].
  - case_match; [by apply sound_ret|]. eapply sound_bind; [apply sound_now|]. intros t _.
    by apply patch_condition_ok.
  - destruct marked; [|by apply sound_ret]. eapply sound_bind; [apply sound_now|]. intros t _.
    by apply patch_condition_ok.
Qed.

Lemma clearStorageFenced_ok sns : ok (fun _ => True) (clearStorageFenced sns).
Proof.
  apply sound_for_each. intros sn _. cbv beta.
  destruct (String.eqb (s_WorkerNode sn) ""); [by apply sound_ret|].
  eapply sound_bind; [apply get_node_ok|]. intros [n|] Hn; [|by apply sound_ret].
  destruct (Hn n eq_refl) as [_ Hk].
  eapply sound_bind; [by apply setStorageFenced_ok|]. by intros; apply sound_ret.
Qed.

Lemma nodeClean_ok n since :
  ok (fun clean => clean = true -> nodeReady n = true /\
        forall p, p ∈ pods w0 -> stale_pod (n_Name n) since p = false) (nodeClean n since).
Proof.
  unfold nodeClean. destruct (nodeReady n); simpl; [|by apply sound_ret].
  eapply sound_bind.
  - apply (sound_read _ _ (fun ps => ps = pods w0)). intros w Hw. apply Hw.
  - intros ps ->. apply sound_ret. intros Hc%negb_true_iff. split; [done|]. intros p Hp.
    apply not_true_is_false. intros Hs. apply not_true_iff_false in Hc. apply Hc.
    apply existsb_exists. exists p. by rewrite <- list_elem_of_In.
Qed.

Lemma follow_one_ok c rec workerOf sn :
  known_cluster c -> arbiters w0 !! c_UUID c = Some (Ok rec) -> known_sn sn ->
  ok (fun _ => True) (follow_one c rec workerOf sn).
Proof.
  intros Hc Hrec Hsn. unfold follow_one. destruct (_ || _); [by apply sound_ret|].
  eapply sound_bind; [apply get_node_ok|]. intros [n|] Hn; [|by apply sound_ret].
  destruct (Hn n eq_refl) as [Hname Hk]. cbv zeta. eapply (sound_bind _ _ (fun _ => True)).
  { case_match; [|by apply sound_ret]. by apply reportClientHosts_ok. }
  intros _ _. eapply sound_bind; [by apply setStorageFenced_ok|]. intros n' [Hk' Hname'].
  destruct (a_HostFences rec !! s_UUID sn) as [f|] eqn:Ef; [|by apply sound_ret].
  destruct (HostFencingOn c) eqn:Eon; simpl; [|by apply sound_ret].
  destruct (String.eqb_spec (f_State f) HostFenceReleasable) as [Es|]; simpl;
    [|by apply sound_ret].
  eapply sound_bind; [apply nodeClean_ok|]. intros [] Hclean; simpl; [|by apply sound_ret].
  destruct (Hclean eq_refl) as [Hready Hpods].
  eapply sound_bind; [apply sound_try, sound_send|by intros; apply sound_ret].
  destruct Hc as (c0 & st & Ec & ->), Hsn as (sn0 & rem & E0 & ->), Hk' as (n0 & En & Hs).
  simpl in *. exists (cluster_key c0), c0, rec, f, (key_of sn0), sn0, n0.
  rewrite Hname', Hname in En, Hpods. do 7 (split; [done|]). split; [done|]. split.
  - by rewrite <- (same_host_ready n0 n').
  - assert (n_Name n0 = s_WorkerNode sn0) as -> by (by apply Hnamed in En). done.
Qed.

Lemma follow_all_ok c rec workerOf sns :
  known_cluster c -> arbiters w0 !! c_UUID c = Some (Ok rec) ->
  (forall sn, sn ∈ sns -> known_sn sn) -> ok (fun _ => True) (follow_all c rec workerOf sns).
Proof.
  intros Hc Hrec. induction sns as [|sn sns IH]; intros Hall; simpl; [by apply sound_ret|].
  eapply sound_bind; [apply follow_one_ok; [done..|apply Hall; left]|]. intros st _.
  eapply sound_bind; [apply IH; intros; apply Hall; by right|]. intros rest _.
  by apply sound_ret.
Qed.

Lemma Reconcile_ok key : ok (fun _ => True) (Reconcile key).
Proof.
  unfold Reconcile. eapply sound_bind.
  { apply (sound_read _ _ (fun found => forall c, found = Some c -> known_cluster c)).
    intros w Hw c E. destruct (facts_clusters _ _ Hw _ _ E) as (c0 & st & E0 & ->).
    exists c0, st. split; [|done]. assert (cluster_key c0 = key) as <- by (by apply Hnamed in E0).
    done. }
  intros [c|] Hc; [|by apply sound_ret]. specialize (Hc c eq_refl).
  destruct (c_Supercluster c); [by apply sound_ret|].
  eapply sound_bind; [apply storageNodes_ok|]. intros sns Hsns.
  assert (Hkeep : forall msg, ok (fun _ => True) (keep_as_is c msg)).
  { intros msg. eapply sound_bind; [apply setStatus_ok|]. by intros; apply sound_ret. }
  destruct (negb (ArbitrationOn c)).
  { unfold withdraw. eapply sound_bind; [apply applyTaints_ok|]. intros _ _.
    eapply sound_bind; [apply clearStorageFenced_ok|]. intros _ _.
    eapply (sound_bind _ _ (fun _ => True)).
    { case_match; [by apply pushSettings_ok|by apply sound_ret]. }
    intros _ _. eapply sound_bind; [apply setStatus_ok|]. by intros; apply sound_ret. }
  destruct (String.eqb (c_UUID c) ""); [by apply sound_ret|].
  destruct (negb _).
  { eapply sound_bind; [apply setStatus_ok|]. by intros; apply sound_ret. }
  eapply sound_bind; [apply sound_try, Get_ok|]. intros [[rec|]|err] Hrec; [|apply Hkeep..].
  specialize (Hrec _ eq_refl rec eq_refl). unfold follow_record. cbv zeta.
  eapply sound_bind; [apply applyTaints_ok|]. intros _ _.
  eapply sound_bind; [by apply reportRemediation_ok|]. intros sns' Hsns'.
  eapply sound_bind; [by apply pushSettings_ok|]. intros _ _.
  eapply (sound_bind _ _ (fun _ => True)).
  { eapply sound_bind; [by apply follow_all_ok|]. by intros; apply sound_ret. }
  intros [hf active] _. eapply sound_bind; [apply setStatus_ok|]. by intros; apply sound_ret.
Qed.

End Pass.

(** C24. A pass of the arbitration during which nobody else writes the objects or the control
    plane's record, whatever fails in it and however far it gets: of a node it changes nothing but
    the storage-fenced taint and the [StorageFenced] condition; and everything it sends to the
    control plane is right for the world the pass began in.  A host fence is released only when it
    is releasable, host fencing is on, the node is Ready, and no pod from before the fence is
    still on it (but the ones that tolerate the taint); a node is reported fenced only when it is
    out of service and it was not the operator's own remediation that took it out.  Where others
    write during the pass, less holds: the patch of the taints carries the whole list as the node
    was read and no resource version, and a taint another client put on in between is lost with
    it. *)
Theorem arbitration_pass_is_safe key s :
  named (world s) ->
  let s' := (Reconcile key s).1 in
  (forall name, match nodes (world s) !! name, nodes (world s') !! name with
    | Some n, Some n' => same_host n n'
    | None, None => True
    | _, _ => False
    end) /\
  exists calls, sent s' = (sent s ++ calls)%list /\ Forall (justified (world s)) calls.
Proof.
  intros Hn s'. destruct (Reconcile_ok (world s) Hn key s (facts_refl _)) as (H1 & H2 & _).
  split; [apply H1|done].
Qed.

(** ** No record, no change *)

(** When the control plane holds no record of the cluster or cannot answer for it,
    a pass changes no node and no storage node and sends nothing, whatever else
    fails: the taints stay as the last verdict left them. *)
Theorem unreadable_record_changes_nothing key s c :
  clusters (world s) !! key = Some c -> c_Supercluster c = false -> ArbitrationOn c = true ->
  (forall rec, arbiters (world s) !! c_UUID c <> Some (Ok rec)) ->
  let s' := (Reconcile key s).1 in
  nodes (world s') = nodes (world s) /\ storage_nodes (world s') = storage_nodes (world s) /\
  sent s' = sent s.
Proof.
  intros Hc Hsuper Hon Hnone s'. set (w0 := world s) in *.
  pose (IW := fun w => nodes w = nodes w0 /\ storage_nodes w = storage_nodes w0 /\
    arbiters w = arbiters w0 /\ exists st, clusters w !! key = Some (with_arbitration c st)).
  assert (Hset : forall c' st, sound IW (fun _ => False) (fun _ => True) (setStatus c' st)).
  { intros c' st. unfold setStatus. case_match; [by apply sound_ret|].
    eapply sound_bind; [apply sound_now|]. intros t _. apply sound_call.
    intros w (I1 & I2 & I3 & st' & I4). destruct (clusters w !! cluster_key c') as [cur|] eqn:E;
      simpl; split; try done; split; try done; split; try done; split; try done; [|by exists st'].
    destruct (decide (cluster_key c' = key)) as [<-|Hne]; simpl.
    - rewrite E in I4. injection I4 as ->. rewrite lookup_insert_eq. eexists. done.
    - exists st'. by rewrite lookup_insert_ne. }
  assert (Hok : sound IW (fun _ => False) (fun _ => True) (Reconcile key)).
  { unfold Reconcile. eapply sound_bind.
    { apply (sound_read _ _ (fun found => exists st, found = Some (with_arbitration c st))).
      intros w (_ & _ & _ & ?). done. }
    intros _ [st ->]. simpl. rewrite Hsuper.
    eapply (sound_bind _ _ (fun _ => True)).
    { eapply sound_bind; [by apply (sound_read _ _ (fun _ => True))|]. by intros; apply sound_ret. }
    intros sns _. assert (ArbitrationOn (with_arbitration c st) = true) as -> by done. simpl.
    destruct (String.eqb (c_UUID c) ""); [by apply sound_ret|].
    assert (Hkeep : forall c' msg, sound IW (fun _ => False) (fun _ => True) (keep_as_is c' msg)).
    { intros c' msg. eapply sound_bind; [apply Hset|]. by intros; apply sound_ret. }
    destruct (negb _).
    { eapply sound_bind; [apply Hset|]. by intros; apply sound_ret. }
    eapply (sound_bind _ _ (fun r => forall got, r = Ok got -> got = None)).
    { apply sound_try. apply sound_call. intros w Hw. simpl.
      assert (arbiters w = arbiters w0) as -> by apply Hw. specialize (Hnone).
      destruct (arbiters w0 !! c_UUID c) as [[rec|err]|] eqn:E; simpl.
      - by destruct (Hnone rec).
      - by split.
      - split; [done|]. by intros a [= <-]. }
    intros [got|err] Hgot; [rewrite (Hgot got eq_refl)|]; apply Hkeep. }
  destruct (Hok s) as ((H1 & H2 & _) & (cs & H3 & H4) & _).
  { split; [done|]. split; [done|]. split; [done|]. exists (c_Arbitration c). by destruct c. }
  split; [done|]. split; [done|]. destruct cs as [|x cs]; [by rewrite app_nil_r in H3|].
  by inversion H4.
Qed.

(** ** The taints follow the record *)

(** What a program that succeeds leads to. *)
Definition leads (P : World -> Prop) {A} (m : M A) (Q : A -> World -> Prop) : Prop :=
  forall s, P (world s) -> forall s' a, m s = (s', Ok a) -> Q a (world s').

Lemma leads_bind P {A B} (m : M A) (k : A -> M B) R Q :
  leads P m R -> (forall x, leads (R x) (k x) Q) -> leads P (m ≫= k) Q.
Proof.
  intros Hm Hk s Hs s' b. unfold mbind, M_bind. destruct (m s) as [s1 [x|e]] eqn:E; [|done].
  intros Hb. by apply (Hk x s1 (Hm s Hs s1 x E)).
Qed.

Lemma leads_ret P {A} (x : A) (Q : A -> World -> Prop) :
  (forall w, P w -> Q x w) -> leads P (mret x) Q.
Proof. intros Hq s Hs s' a [= <- <-]. by apply Hq. Qed.

Lemma leads_call P {A} (f : World -> World * res string A) (Q : A -> World -> Prop) :
  (forall w w' a, P w -> f w = (w', Ok a) -> Q a w') -> leads P (call f) Q.
Proof.
  intros Hf s Hs s' a. unfold call.
  destruct (faults s) as [|[|landed err] rest]; [..|done];
    (destruct (f (world s)) as [w r] eqn:E; intros [= <- ->]; by apply (Hf _ _ _ Hs E)).
Qed.

Lemma leads_read P {A} (f : World -> A) : leads P (read f) (fun a w => P w /\ a = f w).
Proof. apply leads_call. by intros w w' a Hw [= <- <-]. Qed.

Lemma leads_known (φ : Prop) (P : World -> Prop) {A} (m : M A) Q :
  (forall w, P w -> φ) -> (φ -> leads P m Q) -> leads P m Q.
Proof. intros Hp Hm s Hs. by apply Hm; [apply (Hp (world s))|]. Qed.

Lemma leads_weaken (P P' : World -> Prop) {A} (m : M A) (Q Q' : A -> World -> Prop) :
  leads P m Q -> (forall w, P' w -> P w) -> (forall a w, Q a w -> Q' a w) -> leads P' m Q'.
Proof. intros Hm Hp Hq s Hs s' a E. apply Hq. by apply (Hm s); [apply Hp|]. Qed.

(** A read of a known world. *)
Lemma leads_read_at w0 {A B} (f : World -> A) (k : A -> M B) Q :
  leads (fun w => w = w0) (k (f w0)) Q -> leads (fun w => w = w0) (read f ≫= k) Q.
Proof.
  intros Hk. eapply leads_bind; [apply leads_read|]. intros a.
  apply (leads_known (a = f w0)); [by intros w [-> ->]|]. intros ->.
  eapply leads_weaken; [exact Hk|by intros w [-> _]|done].
Qed.

Lemma leads_sound (P : World -> Prop) {A} (Q : A -> Prop) (m : M A) :
  sound P (fun _ => True) Q m -> leads P m (fun a w => P w /\ Q a).
Proof.
  intros Hm s Hs s' a E. destruct (Hm s Hs) as (H1 & _ & H3). rewrite E in H1, H3. auto.
Qed.

Lemma leads_for_each {A} (f : A -> M unit) (I : list A -> World -> Prop) xs :
  (forall before x, leads (I before) (f x) (fun _ => I (before ++ [x])%list)) ->
  forall before, leads (I before) (for_each f xs) (fun _ => I (before ++ xs)%list).
Proof.
  intros Hf. induction xs as [|x xs IH]; intros before; simpl.
  - apply leads_ret. intros w. by rewrite app_nil_r.
  - eapply leads_bind; [apply Hf|]. intros []. cbv beta.
    replace (before ++ x :: xs)%list with ((before ++ [x]) ++ xs)%list by (by rewrite <- app_assoc).
    apply IH.
Qed.

(** The taints of the nodes after the first [done] of the storage nodes. *)
Definition tainted_through (w0 : World) (marked : gset string) (epoch : Z)
    (done : list StorageNode) (w : World) : Prop :=
  forall name, match nodes w0 !! name with
  | None => nodes w !! name = None
  | Some n0 => exists n, nodes w !! name = Some n /\ n_Name n = name /\
      n_Taints n =
        if decide (name <> "" /\ name ∈ s_WorkerNode <$> done) then
          wanted_taints (n_Taints n0) (bool_decide (name ∈ marked)) epoch
        else n_Taints n0
  end.

Lemma applyTaints_leads w0 sns marked epoch :
  leads (tainted_through w0 marked epoch []) (applyTaints sns marked epoch)
    (fun _ => tainted_through w0 marked epoch sns).
Proof.
  apply (leads_for_each _ (tainted_through w0 marked epoch) sns) with (before := []).
  intros before sn. cbv zeta. set (name := s_WorkerNode sn).
  (* the nodes other than the one at hand *)
  assert (Hother : forall w name', name' <> name \/ name = "" ->
    tainted_through w0 marked epoch before w ->
    match nodes w0 !! name' with
    | None => nodes w !! name' = None
    | Some n0 => exists n, nodes w !! name' = Some n /\ n_Name n = name' /\
        n_Taints n = if decide (name' <> "" /\ name' ∈ s_WorkerNode <$> (before ++ [sn])%list)
          then wanted_taints (n_Taints n0) (bool_decide (name' ∈ marked)) epoch
          else n_Taints n0
    end).
  { intros w name' Hne Hw. specialize (Hw name'). destruct (nodes w0 !! name') as [n0|]; [|done].
    destruct Hw as (n & ? & ? & Ht). exists n. split; [done|]. split; [done|]. rewrite Ht.
    rewrite fmap_app. apply decide_ext. rewrite elem_of_app. cbn [fmap list_fmap].
    rewrite list_elem_of_singleton. fold name.
    split; (intros [Hn Hin]; split; [done|]); [by left|].
    by destruct Hin as [?| ->], Hne. }
  destruct (String.eqb_spec name "") as [E|Hname].
  { apply leads_ret. intros w Hw name'. apply Hother; [by right|done]. }
  eapply leads_bind; [apply leads_read|]. intros [n|].
  2:{ apply leads_ret. intros w [Hw Hn] name'.
      destruct (decide (name' = name)) as [->|]; [|by apply Hother; [left|]].
      specialize (Hw name). destruct (nodes w0 !! name); [|done].
      destruct Hw as (? & E & _). by rewrite E in Hn. }
  assert (Hnow : forall w, tainted_through w0 marked epoch before w -> Some n = nodes w !! name ->
    exists n0, nodes w0 !! name = Some n0 /\ n_Name n = name /\
      wanted_taints (n_Taints n) (bool_decide (name ∈ marked)) epoch =
      wanted_taints (n_Taints n0) (bool_decide (name ∈ marked)) epoch).
  { intros w Hw Hn. specialize (Hw name). destruct (nodes w0 !! name) as [n0|]; [|by rewrite Hw in Hn].
    destruct Hw as (n' & E & Hnm & Ht). assert (n' = n) as -> by congruence. exists n0.
    do 2 (split; [done|]). rewrite Ht. case_decide; [apply wanted_taints_idemp|done]. }
  assert (Hdec : forall X (a b : X), (if decide (name <> "" /\
    name ∈ s_WorkerNode <$> (before ++ [sn])%list) then a else b) = a).
  { intros. apply decide_True. split; [done|]. rewrite fmap_app, elem_of_app. right. left. }
  destruct (bool_decide_reflect (wanted_taints (n_Taints n) (bool_decide (name ∈ marked)) epoch =
    n_Taints n)) as [Eq|Eq].
  - apply leads_ret. intros w [Hw Hn] name'.
    destruct (decide (name' = name)) as [->|]; [|by apply Hother; [left|]].
    destruct (Hnow w Hw Hn) as (n0 & E0 & Hnm & Hwant). rewrite E0. exists n.
    split; [done|]. split; [done|]. rewrite Hdec. congruence.
  - apply leads_call. intros w w' [] [Hw Hn] Hp name'.
    destruct (Hnow w Hw Hn) as (n0 & E0 & Hnm & Hwant). rewrite Hnm, <- Hn in Hp.
    injection Hp as <-. destruct (decide (name' = name)) as [->|Hne].
    + rewrite E0. simpl. rewrite lookup_insert_eq. eexists. split; [done|]. simpl. split; [done|].
      unfold pick. rewrite decide_False by congruence. by rewrite Hdec.
    + simpl. rewrite lookup_insert_ne by done. apply Hother; [by left|done].
Qed.

(** What is about the nodes' taints only survives what follows [applyTaints]. *)
Section Frame.

Context (IW : World -> Prop).
Context (IW_storage : forall w sns, IW w -> IW (set_storage_nodes w sns)).
Context (IW_clusters : forall w cs, IW w -> IW (set_clusters w cs)).
Context (IW_condition : forall w name cur c, nodes w !! name = Some cur -> IW w ->
  IW (set_nodes w (<[name := with_condition cur c]> (nodes w)))).
#[local] Set Default Proof Using "Type*".

(** One step of a program whose answers do not matter. *)
Ltac frame :=
  lazymatch goal with
  | |- sound _ _ _ (mret _) => by apply sound_ret
  | |- sound _ _ _ (_ ≫= _) => eapply (sound_bind _ _ (fun _ => True)); [|intros ? _; cbv beta]
  | |- sound _ _ _ (try _) =>
      eapply sound_weaken; [apply (sound_try _ _ (fun _ => True))|done]
  | |- sound _ _ _ (send _) => by apply sound_send
  | |- sound _ _ _ (read _) => by apply sound_read
  | |- sound _ _ _ now => apply sound_now
  | |- sound _ _ _ (match ?x with _ => _ end) => destruct x
  | |- sound _ _ _ (let _ := _ in _) => cbv zeta
  end.

Local Abbreviation kept m := (sound IW (fun _ => True) (fun _ => True) m).

Lemma patch_remediation_frame sn rem : kept (patch_remediation sn rem).
Proof. apply sound_call. intros w Hw. destruct (storage_nodes w !! key_of sn); simpl; auto. Qed.

Lemma patch_arbitration_frame c st : kept (patch_arbitration c st).
Proof. apply sound_call. intros w Hw. destruct (clusters w !! cluster_key c); simpl; auto. Qed.

Lemma patch_condition_frame n c : kept (patch_condition n c).
Proof. apply sound_call. intros w Hw. destruct (nodes w !! n_Name n) eqn:E; simpl; auto. Qed.

Lemma Get_frame c : kept (Get c).
Proof. apply sound_call. intros w Hw. by destruct (arbiters w !! c_UUID c) as [[]|]. Qed.

Hint Resolve patch_remediation_frame patch_arbitration_frame patch_condition_frame Get_frame : core.

Ltac frames := repeat (first [by auto | frame]).

Lemma report_one_frame sn : kept (report_one sn).
Proof. unfold report_one, get_node, report_evidence. frames. Qed.

Lemma reportRemediation_frame sns : kept (reportRemediation sns).
Proof.
  induction sns as [|sn sns IH]; simpl; [by apply sound_ret|]. frame; [apply report_one_frame|].
  frame; [done|]. frames.
Qed.

Lemma pushSettings_frame c rec : kept (pushSettings c rec).
Proof. unfold pushSettings. frames. Qed.

Lemma setStorageFenced_frame n marked msg : kept (setStorageFenced n marked msg).
Proof. unfold setStorageFenced. cbv zeta. destruct (fence_condition n), marked; frames. Qed.

Lemma follow_one_frame c rec workerOf sn : kept (follow_one c rec workerOf sn).
Proof.
  pose proof setStorageFenced_frame.
  unfold follow_one, get_node, reportClientHosts, nodeClean, list_pods. cbv zeta. frames.
Qed.

Lemma followHostFences_frame c sns rec : kept (followHostFences c sns rec).
Proof.
  unfold followHostFences. frame; [|frames]. generalize (workers_by_uuid sns) as workerOf.
  intros workerOf. induction sns as [|sn sns IH]; simpl; [by apply sound_ret|].
  frame; [apply follow_one_frame|]. frame; [done|]. frames.
Qed.

Lemma setStatus_frame c st : kept (setStatus c st).
Proof. unfold setStatus. frames. Qed.

End Frame.

Lemma tainted_through_frame w0 marked epoch sns {A} (m : M A) :
  (forall IW : World -> Prop,
    (forall w ns, IW w -> IW (set_storage_nodes w ns)) ->
    (forall w cs, IW w -> IW (set_clusters w cs)) ->
    (forall w name cur c, nodes w !! name = Some cur -> IW w ->
      IW (set_nodes w (<[name := with_condition cur c]> (nodes w)))) ->
    sound IW (fun _ => True) (fun _ => True) m) ->
  leads (tainted_through w0 marked epoch sns) m (fun _ => tainted_through w0 marked epoch sns).
Proof.
  intros Hm s Hs s' a E. refine (proj1 (leads_sound _ _ _ (Hm _ _ _ _) s Hs s' a E)); try done.
  intros w name cur c Ec Hw name'. specialize (Hw name'). simpl.
  destruct (decide (name' = name)) as [->|Hne]; [|by rewrite lookup_insert_ne].
  rewrite lookup_insert_eq. destruct (nodes w0 !! name); [|congruence].
  destruct Hw as (x & En & Hnm & Ht). assert (x = cur) as -> by congruence.
  by eexists.
Qed.

Lemma leads_true P {A} (m : M A) : leads P m (fun _ _ => True).
Proof. done. Qed.

Lemma try_Get_leads w0 c rec s s' got :
  world s = w0 -> arbiters w0 !! c_UUID c = Some (Ok rec) -> try (Get c) s = (s', Ok got) ->
  world s' = w0 /\ forall x, got = Ok x -> x = Some rec.
Proof.
  intros Hw Hrec. unfold try, Get, call. rewrite Hw, Hrec.
  destruct (faults s) as [|[|landed err] rest]; intros [= <- <-]; simpl; split; try done;
    try by intros x [= <-]. by destruct landed.
Qed.

(** The storage nodes of a cluster on this site, as a pass lists them. *)
Definition members (w : World) (c : Cluster) : list StorageNode :=
  local_nodes c (map_to_list (storage_nodes w)).*2.

(** Which workers those are. *)
Lemma known_workers_spec sns uuid name :
  (forall x y, x ∈ sns -> y ∈ sns -> s_UUID x = s_UUID y -> s_UUID x <> "" -> x = y) ->
  known_workers sns !! uuid = Some name <->
    uuid <> "" /\ exists sn, sn ∈ sns /\ s_UUID sn = uuid /\ s_WorkerNode sn = name.
Proof.
  intros Hd. unfold known_workers. induction sns as [|sn sns IH] using rev_ind.
  { simpl. rewrite lookup_empty. split; [done|]. by intros (_ & ? & ?%elem_of_nil & _). }
  rewrite foldl_snoc.
  assert (Hd' : forall x y, x ∈ sns -> y ∈ sns -> s_UUID x = s_UUID y -> s_UUID x <> "" -> x = y).
  { intros x y Hx Hy. apply Hd; apply elem_of_app; by left. }
  specialize (IH Hd'). assert (Hsn : sn ∈ (sns ++ [sn])%list) by (apply elem_of_app; right; left).
  destruct (String.eqb_spec (s_UUID sn) "") as [E|E].
  - rewrite IH. split; intros (Hu & x & Hx & Ex & Ew); (split; [done|]); exists x.
    + split; [apply elem_of_app; by left|done].
    + apply elem_of_app in Hx as [|Hx%list_elem_of_singleton]; [done|congruence].
  - rewrite lookup_insert_Some, IH. split.
    + intros [[<- <-]|(Hne & Hu & x & Hx & Ex & Ew)]; (split; [done|]); eexists;
        [done|split; [apply elem_of_app; by left|done]].
    + intros (Hu & x & Hx & Ex & Ew). destruct (decide (s_UUID sn = uuid)) as [Eu|Eu].
      * left. split; [done|]. rewrite (Hd sn x); [done..| |done]. congruence.
      * right. split; [done|]. split; [done|]. exists x. split; [|done].
        apply elem_of_app in Hx as [|Hx%list_elem_of_singleton]; [done|congruence].
Qed.

Lemma fenced_workers_spec sns rec name :
  (forall x y, x ∈ sns -> y ∈ sns -> s_UUID x = s_UUID y -> s_UUID x <> "" -> x = y) ->
  name ∈ fenced_workers sns rec <->
    name <> "" /\ exists sn, sn ∈ sns /\ s_UUID sn <> "" /\ s_UUID sn ∈ a_FencedNodes rec /\
      s_WorkerNode sn = name.
Proof.
  intros Hd. unfold fenced_workers. rewrite elem_of_list_to_set, list_elem_of_omap. split.
  - intros (id & Hid & Hw). destruct (known_workers sns !! id) as [w|] eqn:E; [|done].
    apply known_workers_spec in E as (Hu & sn & Hsn & <- & <-); [|done].
    destruct (String.eqb_spec (s_WorkerNode sn) ""); [done|]. injection Hw as <-.
    split; [done|]. by exists sn.
  - intros (Hn & sn & Hsn & Hu & Hf & <-). exists (s_UUID sn). split; [done|].
    rewrite (proj2 (known_workers_spec sns (s_UUID sn) (s_WorkerNode sn) Hd)).
    + by destruct (String.eqb_spec (s_WorkerNode sn) "").
    + split; [done|]. by exists sn.
Qed.

(** The taints follow the arbiter's record: a pass that ends without an error, and
    did not fail to read the record, leaves every worker of the two storage nodes
    with its own taints as they were, followed by the storage-fenced taint with the
    record's epoch if the record holds its storage node fenced, and without one
    otherwise; and every other node's taints as they were. *)
Theorem taints_follow_the_record key s s' d c rec :
  named (world s) ->
  clusters (world s) !! key = Some c -> c_Supercluster c = false -> ArbitrationOn c = true ->
  c_UUID c <> "" -> arbiters (world s) !! c_UUID c = Some (Ok rec) ->
  length (members (world s) c) = 2 ->
  Reconcile key s = (s', Ok d) -> d <> Some requeueError ->
  forall name n, nodes (world s) !! name = Some n ->
    exists n', nodes (world s') !! name = Some n' /\
      n_Taints n' =
        if decide (name <> "" /\ name ∈ s_WorkerNode <$> members (world s) c) then
          (withoutTaint (n_Taints n) TaintStorageFenced ++
           if decide (name ∈ fenced_workers (members (world s) c) rec) then
             [mkTaint TaintStorageFenced (Itoa (a_Epoch rec)) TaintEffectNoExecute None]
           else [])%list
        else n_Taints n.
Proof.
  intros Hnamed Hc Hsuper Hon Huuid Hrec Htwo Hrun Hd name n Hn. set (w0 := world s) in *.
  set (sns := members w0 c) in *. set (marked := fenced_workers sns rec) in *.
  assert (Hlead : leads (fun w => w = w0) (Reconcile key)
    (fun d w => d = Some requeueError \/ tainted_through w0 marked (a_Epoch rec) sns w)).
  { unfold Reconcile, get_cluster. apply leads_read_at. rewrite Hc, Hsuper.
    unfold storageNodes, list_storage_nodes. eapply leads_bind.
    { apply leads_read_at, (leads_ret _ _ (fun got w => w = w0 /\ got = sns)). by intros w ->. }
    intros got. apply (leads_known (got = sns)); [by intros w [_ ->]|]. intros ->.
    rewrite Hon. simpl. destruct (String.eqb_spec (c_UUID c) "") as [|_]; [done|].
    rewrite Htwo. simpl.
    eapply (leads_bind _ _ _ (fun got w => w = w0 /\ forall x, got = Ok x -> x = Some rec)).
    { intros s1 [Hs1 _] s2 got E. by apply (try_Get_leads w0 c rec) in E. }
    intros [[r|]|err]; simpl.
    - apply (leads_known (r = rec)); [by intros w [_ H]; specialize (H _ eq_refl); congruence|].
      intros ->. unfold follow_record. cbv zeta. eapply leads_bind.
      { eapply leads_weaken; [apply (applyTaints_leads w0 sns marked (a_Epoch rec))| |].
        - intros w [-> _] name'. destruct (nodes w0 !! name') as [n0|] eqn:E; [|done].
          exists n0. rewrite decide_False; [|by intros [_ ?%elem_of_nil]].
          split; [done|]. split; [by apply Hnamed|done].
        - intros a w Hw. exact Hw. }
      intros []. eapply leads_bind.
      { apply tainted_through_frame. intros. by apply reportRemediation_frame. }
      intros sns'. eapply leads_bind.
      { apply tainted_through_frame. intros. by apply pushSettings_frame. }
      intros []. eapply leads_bind.
      { apply tainted_through_frame. intros. by apply followHostFences_frame. }
      intros [hf active]. eapply leads_bind.
      { apply tainted_through_frame. intros. by apply setStatus_frame. }
      intros []. apply leads_ret. intros w Hw. by right.
    - apply (leads_known False); [by intros w [_ H]; specialize (H _ eq_refl)|done].
    - unfold keep_as_is. eapply leads_bind; [by apply leads_true|]. intros [].
      apply leads_ret. intros w _. by left. }
  destruct (Hlead s eq_refl s' d Hrun) as [|Ht]; [done|]. specialize (Ht name).
  rewrite Hn in Ht. destruct Ht as (n' & En & _ & Ht). exists n'. split; [done|]. rewrite Ht.
  case_decide; [|done]. unfold wanted_taints. repeat case_decide; case_bool_decide; try done.
  by rewrite app_nil_r.
Qed.

(** ** The out-of-service taint *)

(** From a world that satisfies [P], however a program ends, [Q] holds of how. *)
Definition ends (P : World -> Prop) {A} (m : M A) (Q : res string A -> World -> Prop) : Prop :=
  forall s, P (world s) -> Q (m s).2 (world (m s).1).

Lemma ends_bind P {A B} (m : M A) (k : A -> M B) (R : A -> World -> Prop)
    (Q : res string B -> World -> Prop) :
  ends P m (fun r w => match r with Ok x => R x w | Err e => Q (Err e) w end) ->
  (forall x, ends (R x) (k x) Q) -> ends P (m ≫= k) Q.
Proof.
  intros Hm Hk s Hs. specialize (Hm s Hs). unfold mbind, M_bind.
  destruct (m s) as [s1 [x|e]]; simpl in *; [by apply Hk|done].
Qed.

Lemma ends_known (φ : Prop) (P : World -> Prop) {A} (m : M A) Q :
  (forall w, P w -> φ) -> (φ -> ends P m Q) -> ends P m Q.
Proof. intros Hp Hm s Hs. by apply Hm; [apply (Hp (world s))|]. Qed.

Lemma ends_sound P {A} (m : M A) (R : A -> Prop) (Q : res string A -> World -> Prop) :
  sound P (fun _ => True) R m -> (forall r w, P w -> (forall a, r = Ok a -> R a) -> Q r w) ->
  ends P m Q.
Proof. intros Hm Hq s Hs. destruct (Hm s Hs) as (H1 & _ & H3). by apply Hq. Qed.

(** Why a remediation takes a node out of service. *)
Definition fence_confirmed (w : World) (r : Remediation) (n : Node) : Prop :=
  (exists c, c ∈ n_Conditions n /\ co_Type c = ConditionStorageFenced /\
     co_Status c = ConditionTrue) /\
  (exists key sn c rec f,
     storage_nodes w !! key = Some sn /\ s_WorkerNode sn = n_Name n /\ s_UUID sn <> "" /\
     clusters w !! (s_Namespace sn, s_ClusterRef sn) = Some c /\ HostFencingOn c = true /\
     arbiters w !! c_UUID c = Some (Ok rec) /\ a_HostFences rec !! s_UUID sn = Some f /\
     Effective f = true) /\
  (r_AllowForeignVolumes r = true \/
   forall va, va ∈ attachments w -> va_NodeName va = n_Name n -> va_Attacher va = DriverName).

(** What a pass of a remediation may make of a node. *)
Definition remediated (w : World) (key : string * string) (n n' : Node) : Prop :=
  n' = n \/
  exists r, remediations w !! key = Some r /\ n_Name n = remediation_node r /\
    (r_Deleting r = true /\ n' = given_back n /\
       n_Annotations n !! AnnoOutOfServiceBy = Some OutOfServiceByStorageFence \/
     r_Deleting r = false /\ n' = taken_out n /\ hasTaint n TaintOutOfService = false /\
       fence_confirmed w r n).

Definition nodes_remediated (w0 : World) (key : string * string) (w : World) : Prop :=
  forall name, match nodes w0 !! name, nodes w !! name with
  | Some n, Some n' => remediated w0 key n n'
  | None, None => True
  | _, _ => False
  end.

Lemma merge_node_self base new :
  n_Name new = n_Name base -> n_UID new = n_UID base -> n_Conditions new = n_Conditions base ->
  merge_node base new base = new.
Proof.
  intros Hn Hu Hc. unfold merge_node. destruct new as [name uid annos ts cs]. simpl in *.
  rewrite <- Hn, <- Hu, <- Hc. f_equal.
  - unfold merge_map. apply map_eq. intros k. rewrite lookup_union.
    destruct (annos !! k) as [v|] eqn:E.
    + destruct (decide (annos !! k = n_Annotations base !! k)) as [Eq|Ne].
      * rewrite map_lookup_filter, E. simpl. rewrite option_guard_False by (rewrite E; congruence).
        rewrite map_lookup_filter, <- Eq, E. simpl. rewrite option_guard_True by (rewrite E; congruence).
        done.
      * rewrite map_lookup_filter, E. simpl. rewrite option_guard_True by (rewrite E; congruence).
        rewrite map_lookup_filter. by destruct (n_Annotations base !! k); simpl; [case_guard|].
    + rewrite map_lookup_filter, E. simpl. rewrite map_lookup_filter.
      destruct (n_Annotations base !! k) as [v|] eqn:E'; [|done]. simpl.
      by rewrite option_guard_False by (rewrite E; congruence).
  - unfold pick. by case_decide.
Qed.

Section Remediations.

Context (w0 : World) (Hnamed : named w0).

(** Up to the patch, a pass has touched remediations only. *)
Definition before_patch (w : World) : Prop :=
  nodes w = nodes w0 /\ storage_nodes w = storage_nodes w0 /\ clusters w = clusters w0 /\
  arbiters w = arbiters w0 /\ attachments w = attachments w0.

Local Abbreviation pure Q m := (sound before_patch (fun _ => True) Q m).

Lemma fenced_pure n :
  pure (fun held => forall epoch, held = inl epoch ->
    (exists c, c ∈ n_Conditions n /\ co_Type c = ConditionStorageFenced /\
       co_Status c = ConditionTrue) /\
    exists key sn c rec f,
      storage_nodes w0 !! key = Some sn /\ s_WorkerNode sn = n_Name n /\ s_UUID sn <> "" /\
      clusters w0 !! (s_Namespace sn, s_ClusterRef sn) = Some c /\ HostFencingOn c = true /\
      arbiters w0 !! c_UUID c = Some (Ok rec) /\ a_HostFences rec !! s_UUID sn = Some f /\
      Effective f = true) (fenced n).
Proof.
  unfold fenced. destruct (existsb _ (n_Conditions n)) eqn:Ec; simpl; [|by apply sound_ret].
  apply existsb_exists in Ec as (co & Hco & [Et%String.eqb_eq Es%String.eqb_eq]%andb_true_iff).
  rewrite <- list_elem_of_In in Hco.
  eapply sound_bind.
  { apply (sound_read _ _ (fun sns => sns = (map_to_list (storage_nodes w0)).*2)).
    by intros w (_ & -> & _). }
  intros sns ->. destruct (find_first _ _) as [sn|] eqn:Esn; [|by apply sound_ret].
  apply find_first_Some in Esn as [((key & sn') & E' & Hin)%list_elem_of_fmap Hp].
  simpl in E'. subst sn'. apply elem_of_map_to_list in Hin.
  apply andb_true_iff in Hp as [Hw%String.eqb_eq Hu%negb_true_iff%String.eqb_neq].
  eapply sound_bind.
  { apply (sound_read _ _ (fun found => found = clusters w0 !! (s_Namespace sn, s_ClusterRef sn))).
    by intros w (_ & _ & -> & _). }
  intros found ->. destruct (clusters w0 !! _) as [c|] eqn:Ecl; [|by apply sound_ret].
  destruct (HostFencingOn c) eqn:Eh; simpl; [|by apply sound_ret].
  eapply sound_bind.
  { apply sound_try, (sound_call _ _ (fun got => forall rec, got = Some rec ->
      arbiters w0 !! c_UUID c = Some (Ok rec))).
    intros w Hb. destruct Hb as (? & ? & ? & Ea & ?). rewrite Ea.
    destruct (arbiters w0 !! c_UUID c) as [[rec|err]|]; (split; [done|]); try done;
      [by intros a [= <-] rec' [= <-]|by intros a [= <-]]. }
  intros [[rec|]|err] Hrec; try by apply sound_ret.
  destruct (a_HostFences rec !! s_UUID sn) as [f|] eqn:Ef; [|by apply sound_ret].
  destruct (Effective f) eqn:Ee; [|by apply sound_ret].
  apply sound_ret. intros epoch _. split; [by exists co|].
  exists key, sn, c, rec, f. do 5 (split; [done|]). by rewrite (Hrec _ eq_refl rec eq_refl).
Qed.

Lemma foreignVolumes_pure name :
  pure (fun volumes => volumes = [] -> forall va, va ∈ attachments w0 -> va_NodeName va = name ->
    va_Attacher va = DriverName) (foreignVolumes name).
Proof.
  unfold foreignVolumes. eapply sound_bind.
  { apply (sound_read _ _ (fun vas => vas = attachments w0)). by intros w (_ & _ & _ & _ & ->). }
  intros vas ->. apply sound_ret. intros E va Hva Hn.
  destruct (String.eqb_spec (va_Attacher va) DriverName) as [|Hd]; [done|]. exfalso.
  assert (Hin : va ∈ foreign name (attachments w0)).
  { unfold foreign. apply list_elem_of_In, filter_In. split; [by apply list_elem_of_In|].
    rewrite Hn, String.eqb_refl. simpl. by apply negb_true_iff, String.eqb_neq. }
  apply (list_elem_of_fmap_2 (fun va => va_Name va ++ " (" ++ va_Attacher va ++ ")")) in Hin.
  apply sort_strings_elem in Hin. rewrite E in Hin. by apply elem_of_nil in Hin.
Qed.

Lemma writeStatus_ends (P : World -> Prop) r node phase msg epoch p q :
  (forall w rs, P w -> P (set_remediations w rs)) ->
  sound P (fun _ => True) (fun _ => True) (writeStatus r node phase msg epoch p q).
Proof.
  intros HP. unfold writeStatus. eapply sound_bind; [apply sound_now|]. intros t _. cbv zeta.
  case_match; [by apply sound_ret|]. apply sound_call. intros w Hw.
  destruct (remediations w !! rem_key r); simpl; auto.
Qed.

Lemma before_patch_done key w : before_patch w -> nodes_remediated w0 key w.
Proof.
  intros (Hn & _) name. rewrite Hn. destruct (nodes w0 !! name); [by left|done].
Qed.

(** The patch, whether it is answered or not. *)
Lemma patch_node_ends key base new :
  nodes w0 !! n_Name base = Some base -> remediated w0 key base new ->
  n_Name new = n_Name base -> n_UID new = n_UID base -> n_Conditions new = n_Conditions base ->
  ends before_patch (patch_node base new) (fun _ => nodes_remediated w0 key).
Proof.
  intros Hb Hr Hn Hu Hc s Hs.
  assert (Hlanded : nodes_remediated w0 key
    (set_nodes (world s) (<[n_Name base := new]> (nodes (world s))))).
  { intros name. simpl. destruct Hs as (-> & _).
    destruct (decide (name = n_Name base)) as [->|Hne].
    - by rewrite lookup_insert_eq, Hb.
    - rewrite lookup_insert_ne by done. destruct (nodes w0 !! name); [by left|done]. }
  pose proof (before_patch_done key _ Hs) as Hsame. unfold patch_node, call.
  assert (nodes (world s) !! n_Name base = Some base) as -> by (by destruct Hs as (-> & _)).
  rewrite merge_node_self by done.
  destruct (faults s) as [|[|[] err] rest]; done.
Qed.

(** The pieces of a pass: those that only look, and those that only write remediations. *)
Definition writes_remediations {A} (m : M A) : Prop :=
  forall P : World -> Prop, (forall w rs, P w -> P (set_remediations w rs)) ->
    sound P (fun _ => True) (fun _ => True) m.

Lemma pure_ends key {A} (m : M A) (R : A -> Prop) :
  pure R m ->
  ends before_patch m (fun r w => match r with
    | Ok x => before_patch w /\ R x | Err e => nodes_remediated w0 key w end).
Proof.
  intros Hm. eapply ends_sound; [exact Hm|]. intros [x|e] w Hw Hx; [auto|by apply before_patch_done].
Qed.

Lemma writes_before key {A} (m : M A) :
  writes_remediations m -> ends before_patch m (fun _ => nodes_remediated w0 key).
Proof.
  intros Hm. eapply ends_sound; [by apply Hm|]. intros. by apply before_patch_done.
Qed.

Lemma writes_after key {A} (m : M A) :
  writes_remediations m -> ends (nodes_remediated w0 key) m (fun _ => nodes_remediated w0 key).
Proof. intros Hm. eapply ends_sound; [by apply Hm|done]. Qed.

Lemma pending_writes r name phase msg epoch : writes_remediations (pending r name phase msg epoch).
Proof.
  intros P HP. unfold pending. eapply sound_bind; [by apply writeStatus_ends|].
  by intros; apply sound_ret.
Qed.

Lemma tainted_writes r name epoch : writes_remediations (tainted r name epoch).
Proof.
  intros P HP. unfold tainted. eapply sound_bind; [by apply writeStatus_ends|].
  by intros; apply sound_ret.
Qed.

Lemma update_finalizers_writes r fs : writes_remediations (update_finalizers r fs).
Proof.
  intros P HP. apply sound_call. intros w Hw. destruct (remediations w !! rem_key r); simpl; auto.
Qed.

Lemma get_node_pure name :
  pure (fun found => forall n, found = Some n -> n_Name n = name /\ nodes w0 !! name = Some n)
    (get_node name).
Proof using Hnamed.
  apply sound_read. intros w (-> & _) n E. split; [|done]. by apply Hnamed in E.
Qed.

Lemma finish_ends key r :
  remediations w0 !! key = Some r -> r_Deleting r = true ->
  ends before_patch (finish r) (fun _ => nodes_remediated w0 key).
Proof using Hnamed.
  intros Hr Hd. unfold finish. eapply (ends_bind _ _ _ (fun _ => nodes_remediated w0 key)).
  - unfold removeTaint. eapply ends_bind; [apply (pure_ends key), get_node_pure|].
    intros [n|]; [|intros s [Hs _]; by apply before_patch_done].
    case_bool_decide as Hown; [|intros s [Hs _]; by apply before_patch_done].
    intros s [Hs Hn]. destruct (Hn n eq_refl) as [Hname Hn0].
    pose proof (patch_node_ends key n (given_back n)) as Hp.
    assert (Hend : nodes_remediated w0 key (world (patch_node n (given_back n) s).1)).
    { apply Hp; [by rewrite Hname| |done..|done]. right. exists r. split; [done|].
      split; [done|]. by left. }
    by destruct (patch_node n (given_back n) s).2.
  - intros _. case_match; [|by intros s Hs].
    eapply (ends_bind _ _ _ (fun _ => nodes_remediated w0 key)); [|by intros ? s Hs].
    eapply ends_sound; [apply (update_finalizers_writes _ _ (nodes_remediated w0 key)); done|].
    by intros [].
Qed.

Lemma take_out_ends key r0 r n :
  remediations w0 !! key = Some r0 -> r_Deleting r0 = false ->
  r_AllowForeignVolumes r = r_AllowForeignVolumes r0 ->
  n_Name n = remediation_node r0 -> nodes w0 !! n_Name n = Some n ->
  hasTaint n TaintOutOfService = false ->
  ends before_patch (take_out r (n_Name n) n) (fun _ => nodes_remediated w0 key).
Proof.
  intros Hr Hd Hallow Hname Hn Htaint. unfold take_out.
  eapply ends_bind; [apply (pure_ends key), fenced_pure|]. intros [epoch|why].
  2:{ intros s [Hs _]. by apply (writes_before key _ (pending_writes _ _ _ _ _)). }
  eapply (ends_bind _ _ _ (fun volumes w => before_patch w /\
    (volumes = [] -> fence_confirmed w0 r0 n))).
  - intros s [Hs Hf]. destruct (Hf epoch eq_refl) as [Hcond Hcp]. clear Hf.
    assert (Hv : pure (fun volumes => volumes = [] -> fence_confirmed w0 r0 n)
      (if r_AllowForeignVolumes r then mret [] else foreignVolumes (n_Name n))).
    { destruct (r_AllowForeignVolumes r) eqn:Ea.
      - apply sound_ret. intros _. split; [done|]. split; [done|]. left. congruence.
      - eapply sound_weaken; [apply foreignVolumes_pure|]. intros vs Hvs E.
        split; [done|]. split; [done|]. right. by apply Hvs. }
    by apply (pure_ends key _ _ Hv).
  - intros [|v vs].
    2:{ intros s [Hs _]. by apply (writes_before key _ (pending_writes _ _ _ _ _)). }
    eapply (ends_bind _ _ _ (fun _ => nodes_remediated w0 key)).
    + intros s [Hs Hc].
      assert (Hend : nodes_remediated w0 key (world (patch_node n (taken_out n) s).1)).
      { apply patch_node_ends; try done. right. exists r0. split; [done|]. split; [done|].
        right. split; [done|]. split; [done|]. split; [done|]. by apply Hc. }
      by destruct (patch_node n (taken_out n) s).2.
    + intros _. apply writes_after, tainted_writes.
Qed.

Lemma Remediate_ends key :
  ends (fun w => w = w0) (Remediate key) (fun _ => nodes_remediated w0 key).
Proof using Hnamed.
  assert (H0 : before_patch w0) by done.
  unfold Remediate. eapply (ends_bind _ _ _ (fun found w => w = w0 /\ found = remediations w0 !! key)).
  { intros s Hs. unfold read, call. rewrite <- Hs.
    destruct (faults s) as [|[|[] err] rest]; simpl; try done;
      by rewrite Hs; apply before_patch_done. }
  intros found. apply (ends_known (found = remediations w0 !! key)); [by intros w [_ ?]|].
  intros ->. destruct (remediations w0 !! key) as [r|] eqn:Er.
  2:{ intros s [Hs _]. simpl. rewrite Hs. by apply before_patch_done. }
  destruct (r_Deleting r) eqn:Ed; [by intros s [Hs _]; apply finish_ends; [..|by rewrite Hs]|].
  eapply (ends_bind _ _ _ (fun r' w => before_patch w /\ exists fs, r' = with_finalizers r fs)).
  { destruct (contains _ _).
    - intros s [Hs _]. simpl. rewrite Hs. split; [done|]. exists (r_Finalizers r). by destruct r.
    - intros s [Hs _]. unfold update_finalizers, call. rewrite Hs.
      assert (rem_key r = key) as -> by (by apply Hnamed in Er). rewrite Er.
      destruct (faults s) as [|[|[] err] rest]; simpl;
        first [by split; [|eexists] | by apply before_patch_done]. }
  intros r'. apply (ends_known (exists fs, r' = with_finalizers r fs)); [by intros w [_ ?]|].
  intros [fs ->]. eapply (ends_bind _ _ _ (fun found w => before_patch w /\
    forall n, found = Some n ->
      n_Name n = remediation_node r /\ nodes w0 !! remediation_node r = Some n)).
  { intros s [Hs _]. by apply (pure_ends key _ _ (get_node_pure _)). }
  intros [n|].
  2:{ intros s [Hs _]. by apply (writes_before key _ (pending_writes _ _ _ _ _)). }
  destruct (hasTaint n TaintOutOfService) eqn:Et.
  { intros s [Hs _]. by apply (writes_before key _ (tainted_writes _ _ _)). }
  intros s [Hs Hn]. destruct (Hn n eq_refl) as [Hname Hn0]. rewrite <- Hname.
  by eapply (take_out_ends key r); try done; rewrite Hname.
Qed.

End Remediations.

(** C29. A pass of a remediation during which nobody else writes the objects or the control
    plane's record, whatever fails in it: it makes one of two changes to one node, or none.  It
    takes the node out of service only when the node carries no out-of-service taint yet, its
    [StorageFenced] condition is true, the control plane itself confirms a host fence in force for
    the storage node on it, and no volume of another driver is attached to it (unless the
    remediation allows that).  And when it is being deleted it removes the taint only from a node
    it marked as its own.  The fence is confirmed before the patch is made and not in one act with
    it, and the patch carries the whole list of taints as the node was read, before the control
    plane was asked: a fence released in between is not seen, and a taint another client put on
    in between is lost. *)
Theorem out_of_service_only_when_fenced key s :
  named (world s) ->
  forall name, match nodes (world s) !! name, nodes (world (Remediate key s).1) !! name with
  | Some n, Some n' => remediated (world s) key n n'
  | None, None => True
  | _, _ => False
  end.
Proof. intros Hn name. by apply (Remediate_ends (world s) Hn key s eq_refl). Qed.

(** ** A pass that cannot read the record never settles *)

(** [setStatus] compares the stored status without its time against a new one that was
    copied from it with its time: once a status is stored, a pass without a record
    stores another at every later instant, where it means to write changes only, and
    gives it the time of a reading that did not happen. *)
Lemma unreadable_pass_restamps key s c st :
  named (world s) -> faults s = [] ->
  clusters (world s) !! key = Some c -> c_Supercluster c = false -> ArbitrationOn c = true ->
  c_UUID c <> "" -> length (members (world s) c) = 2 ->
  arbiters (world s) !! c_UUID c = None ->
  c_Arbitration c = Some st -> as_ObservedAt st <> None ->
  exists c', clusters (world (Reconcile key s).1) !! key = Some c' /\
    c_Arbitration c' =
      Some (with_status_time (with_message st no_record_message) (Some (clock (world s)))).
Proof.
  intros Hn Hf Hc Hsuper Hon Hu Htwo Harb Hst Hobs.
  assert (Hkey : cluster_key c = key) by (by apply Hn in Hc).
  destruct s as [w fs sent0]. simpl in *. subst fs.
  exists (with_arbitration c
    (Some (with_status_time (with_message st no_record_message) (Some (clock w))))).
  split; [|done]. unfold Reconcile, get_cluster, storageNodes, list_storage_nodes, read, call, try, Get.
  unfold mbind, M_bind, mret, M_ret. simpl. rewrite Hc, Hsuper. simpl. rewrite Hon.
  destruct (String.eqb_spec (c_UUID c) ""); [done|].
  unfold members in Htwo. rewrite Htwo. simpl. unfold call. simpl. rewrite Harb. simpl.
  unfold keep_as_is, setStatus. rewrite Hst. simpl.
  rewrite bool_decide_false.
  2:{ intros E. apply (f_equal as_ObservedAt) in E. simpl in E. congruence. }
  unfold mbind, M_bind, now, patch_arbitration, call. simpl. rewrite Hkey, Hc. simpl.
  by rewrite lookup_insert_eq.
Qed.

(** ** Concrete passes *)

Definition cluster : Cluster :=
  mkCluster "ns" "edge" false ClusterModeDual (Some true) (Some (Some true)) "cl" None.

Definition storage_node (name worker uuid : string) : StorageNode :=
  mkStorageNode "ns" name "edge" worker None uuid None.

Definition ready : Condition := mkCondition NodeReady ConditionTrue "" "" 0 0.

Definition dedicated : Taint := mkTaint "dedicated" "storage" "NoSchedule" None.

Definition host (name : string) (cs : list Condition) : Node := mkNode name name ∅ [dedicated] cs.

Definition fence (state : string) : HostFence := mkHostFence state "ua" 7 (10 * Second).

Definition record (state : string) : Arbiter :=
  mkArbiter "degraded" 7 ["ub"] true true {[ "ub" := fence state ]} ∅.

Definition edge (rec : res string Arbiter) (conditions : list Condition) (ps : list Pod)
    (rems : gmap (string * string) Remediation) : World :=
  mkWorld (<["wa" := host "wa" [ready]]> {[ "wb" := host "wb" conditions ]})
    (<[("ns", "a") := storage_node "a" "wa" "ua"]> {[ ("ns", "b") := storage_node "b" "wb" "ub" ]})
    {[ ("ns", "edge") := cluster ]} rems ps [] {[ "cl" := rec ]} (100 * Second).

Definition run (w : World) (fs : list fault) : St := mkSt w fs [].

Definition edge_key : string * string := ("ns", "edge").

Lemma named_edge rec conditions ps rems :
  (forall key r, rems !! key = Some r -> rem_key r = key) -> named (edge rec conditions ps rems).
Proof.
  intros Hr. split; [|split; [|split; [|done]]]; simpl.
  - intros name n [[<- <-]|[_ [<- <-]%lookup_singleton_Some]]%lookup_insert_Some; done.
  - intros key sn [[<- <-]|[_ [<- <-]%lookup_singleton_Some]]%lookup_insert_Some; done.
  - by intros key c [<- <-]%lookup_singleton_Some.
Qed.

Lemma named_edge_none rec conditions ps : named (edge rec conditions ps ∅).
Proof. by apply named_edge. Qed.

(** A fence that may be released, on a node that is Ready and has only a pod from after
    the fence. *)
Definition released : St :=
  run (edge (Ok (record HostFenceReleasable)) [ready]
    [mkPod "wb" "Running" (20 * Second) []] ∅) [].

Lemma arbitration_pass_is_safe_witness :
  exists before, sent (Reconcile edge_key released).1 = (before ++ [ReleaseHostFence "ub"])%list /\
    justified (world released) (ReleaseHostFence "ub").
Proof.
  destruct (arbitration_pass_is_safe edge_key released) as (_ & calls & Hs & Hall);
    [apply named_edge_none|].
  assert (Hlast : last calls = Some (ReleaseHostFence "ub")).
  { change calls with ([] ++ calls)%list. change [] with (sent released). rewrite <- Hs.
    by vm_compute. }
  apply last_Some in Hlast as [before ->]. exists before. split; [exact Hs|].
  apply Forall_app in Hall as [_ Hall]. rewrite Forall_singleton in Hall. exact Hall.
Defined.

(** A pod from before the fence keeps it. *)
Lemma a_stale_pod_keeps_the_fence :
  existsb (fun c => match c with ReleaseHostFence _ => true | _ => false end)
    (sent (Reconcile edge_key (run (edge (Ok (record HostFenceReleasable)) [ready]
      [mkPod "wb" "Running" Second []] ∅) [])).1) = false.
Proof. by vm_compute. Qed.

Definition verdict : St := run (edge (Ok (record HostFenceRevoked)) [ready] [] ∅) [].

Lemma taints_follow_the_record_witness :
  exists n, nodes (world (Reconcile edge_key verdict).1) !! "wb" = Some n /\
    n_Taints n = [dedicated; mkTaint TaintStorageFenced "7" TaintEffectNoExecute None].
Proof.
  assert (Hrun : (Reconcile edge_key verdict).2 = Ok (Some requeueActive)) by (by vm_compute).
  destruct (Reconcile edge_key verdict) as [s' r] eqn:E. simpl in *. subst r.
  destruct (taints_follow_the_record edge_key verdict s' (Some requeueActive) cluster
    (record HostFenceRevoked) (named_edge_none _ _ _) (lookup_singleton_eq _ _) eq_refl eq_refl)
    with (name := "wb") (n := host "wb" [ready]) as (n & Hn & Ht);
    [discriminate|apply lookup_singleton_eq|by vm_compute|exact E|discriminate|by vm_compute|].
  exists n. split; [exact Hn|]. rewrite Ht. by vm_compute.
Defined.

Lemma unreadable_record_changes_nothing_witness :
  nodes (world (Reconcile edge_key (run (edge (Err "timeout") [ready] [] ∅) [])).1) =
    nodes (edge (Err "timeout") [ready] [] ∅).
Proof.
  apply (unreadable_record_changes_nothing edge_key (run (edge (Err "timeout") [ready] [] ∅) [])
    cluster (lookup_singleton_eq _ _) eq_refl eq_refl).
  intros rec. unfold run, edge. cbn [world arbiters]. by rewrite lookup_singleton_eq.
Defined.

(** The patch of the taints is made from the node as it was read and replaces the list
    whole: a taint that was put on since, here an administrator's out-of-service one,
    is gone with it. *)
Lemma concurrent_taint_is_lost :
  let read_as := host "wb" [ready] in
  let by_now := with_taints read_as
    [dedicated; mkTaint TaintOutOfService TaintOutOfServiceValue TaintEffectNoExecute None] in
  let patched := merge_node read_as
    (with_taints read_as (wanted_taints (n_Taints read_as) true 7)) by_now in
  hasTaint by_now TaintOutOfService = true /\ hasTaint patched TaintOutOfService = false.
Proof. by vm_compute. Qed.

(** So does a remediation's, which is made from the node as it was before the control plane was
    asked. *)
Lemma concurrent_taint_is_lost_to_a_remediation :
  let read_as := host "wb" [ready] in
  let cordoned := mkTaint "node.kubernetes.io/unschedulable" "" "NoSchedule" None in
  let by_now := with_taints read_as [dedicated; cordoned] in
  let patched := merge_node read_as (taken_out read_as) by_now in
  hasTaint by_now (t_Key cordoned) = true /\ hasTaint patched (t_Key cordoned) = false /\
  hasTaint patched TaintOutOfService = true.
Proof. by vm_compute. Qed.

(** A remediation of the fenced node. *)
Definition remediation (deleting : bool) : Remediation :=
  mkRemediation "ns" "wb" ∅ deleting [RemediationFinalizer] false "" "" 0 None "" [].

Definition fenced_condition : Condition :=
  mkCondition ConditionStorageFenced ConditionTrue StorageFencedReasonWitness "" 0 0.

Definition remediating : St :=
  run (edge (Ok (record HostFenceRevoked)) [ready; fenced_condition] []
    {[ ("ns", "wb") := remediation false ]}) [].

Lemma out_of_service_only_when_fenced_witness :
  exists n, nodes (world (Remediate ("ns", "wb") remediating).1) !! "wb" = Some n /\
    hasTaint n TaintOutOfService = true /\
    remediated (world remediating) ("ns", "wb") (host "wb" [ready; fenced_condition]) n.
Proof.
  assert (Hn : named (world remediating)).
  { apply named_edge. by intros key r [<- <-]%lookup_singleton_Some. }
  pose proof (out_of_service_only_when_fenced ("ns", "wb") remediating Hn "wb") as H.
  assert (Ht : (n ← nodes (world (Remediate ("ns", "wb") remediating).1) !! "wb";
    Some (hasTaint n TaintOutOfService)) = Some true) by (by vm_compute).
  destruct (nodes (world (Remediate ("ns", "wb") remediating).1) !! "wb") as [n|]; [|done].
  exists n. split; [done|]. split; [by injection Ht|exact H].
Defined.

End TwoNode.
