(* ===== verification/Switchover.v ===== *)
(** Moving a stretched cluster's volumes between its sites.

    [Move] ([atlas-lib/switchover/switchover.go]) moves one volume's leadership: it
    demotes the site the volume leaves and promotes the one it moves to, for one
    volume of a store at a time.  It is a program over the backend's verbs and the
    server's set of stores with a move under way; any number of calls run at once,
    and their steps interleave.  [Backend] is what the control plane's answers are
    read as ([atlas-lib/controlplane/syncreplication.go]), and [Follow] the
    controller that moves the volumes Ramen makes primary on this site
    ([operator/internal/controllers/vrgfollow/vrgfollow.go]). *)

From Stdlib Require Import Ascii String.
From S2P Require Import Prelude.
From S2P Require Import Programs.
From S2P Require Import GoStrings.
From S2P Require Import Handles.

#[local] Open Scope string_scope.

(** ** The backend's verbs ([syncreplication.go]) *)

Module Backend.

(** [syncDetail], the body of a refusal. *)
Record detail := mkDetail { Message : string; Volumes : list string; Problems : list string }.

(** What a caller tells apart: [SyncRefusedError], [ErrSyncPeerSiteOffline], and the
    rest. *)
Inductive sync_error :=
| Refused (message : string) (volumes problems : list string)
| PeerSiteOffline
| Failed (err : string).

Definition StatusOK : Z := 200.
Definition StatusAccepted : Z := 202.
Definition StatusNoContent : Z := 204.
Definition StatusConflict : Z := 409.
Definition StatusPreconditionFailed : Z := 412.

(** [syncError]; [respError] is the text of any other answer. *)
Definition syncError (respError : string) (code : Z) (d : detail) : sync_error :=
  if Z.eqb code StatusConflict then Refused (Message d) (Volumes d) (Problems d)
  else if Z.eqb code StatusPreconditionFailed then PeerSiteOffline
  else Failed respError.

(** [strings.Contains]. *)
Definition Contains (s sub : string) : bool := (Cut s sub).2.

(** An answer of the control plane: a status code and a body, or no answer. *)
Definition http : Type := res string (Z * detail).

Definition SyncDemoteVolume (respError : string) (answer : http) : res sync_error unit :=
  match answer with
  | Err err => Err (Failed err)
  | Ok (code, d) =>
      if Z.eqb code StatusNoContent || Z.eqb code StatusOK then Ok ()
      else Err (syncError respError code d)
  end.

(** [SyncPromoteVolume]: [Ok true] is a promote that is still running. *)
Definition SyncPromoteVolume (respError : string) (answer : http) : res sync_error bool :=
  match answer with
  | Err err => Err (Failed err)
  | Ok (code, d) =>
      if Z.eqb code StatusOK || Z.eqb code StatusNoContent then Ok false
      else if Z.eqb code StatusConflict then
        if Nat.eqb (length (Volumes d)) 0 && Nat.eqb (length (Problems d)) 0 &&
           Contains (Message d) "in progress" then Ok true
        else Err (syncError respError code d)
      else Err (syncError respError code d)
  end.

(** [FenceSite]: whether the fence is done. *)
Definition FenceSite (respError : string) (answer : http) : res sync_error bool :=
  match answer with
  | Err err => Err (Failed err)
  | Ok (code, d) =>
      if Z.eqb code StatusOK then Ok true
      else if Z.eqb code StatusAccepted then Ok false
      else Err (syncError respError code d)
  end.

(** [UnfenceSite]: whether the site is no longer recorded lost. *)
Definition UnfenceSite (respError : string) (answer : http) : res sync_error bool :=
  match answer with
  | Err err => Err (Failed err)
  | Ok (code, d) =>
      if Z.eqb code StatusOK then Ok true
      else if Z.eqb code StatusConflict then Ok false
      else Err (syncError respError code d)
  end.

End Backend.

Module Switchover.

Import Backend.

(** ** Programs *)

(** What a move calls, by the type of the answer.  [VolumeStore] reads the volume,
    of which its store is used; [Claim] and [Release] are [claim] and [release] on
    the server's [moving] under its mutex; [OnForced] is the callback. *)
Inductive call : Type -> Type :=
| SyncStatus (h : VolumeHandle) : call (res sync_error string)
| VolumeStore (h : VolumeHandle) : call (res sync_error string)
| Demote (h : VolumeHandle) (site : string) : call (res sync_error unit)
| Promote (h : VolumeHandle) (site : string) (planned : bool) : call (res sync_error bool)
| Claim (store : string) : call bool
| Release (store : string) : call unit
| OnForced (volume from to : string) : call unit.

Abbreviation prog := (prog call).
Abbreviation event := (event call).

(** [MoveResponse]. *)
Inductive response :=
| Moved (ledFrom : string)
| InProgress (ledFrom : string)
| RefusedBy (ledFrom reason : string) (blocking : list string).

(** The errors a move ends with, each a gRPC status. *)
Inductive move_error :=
| ErrNoTarget
| ErrVolume (h : VolumeHandle)
| ErrStatus (err : sync_error)
| ErrStore (err : sync_error)
| ErrDemote (err : sync_error)
| ErrPromote (err : sync_error).

Definition outcome : Type := res move_error response.

Definition forced_reason (from : string) : string :=
  "site " ++ from ++ " is not online and the move may not be forced".

(** [Move] from the planned promote's last answer on. *)
Definition answer_promote (from to : string) (r : res sync_error bool) : outcome :=
  match r with
  | Err (Refused msg vols _) => Ok (RefusedBy from msg vols)
  | Err PeerSiteOffline => Ok (RefusedBy from (forced_reason from) [])
  | Err err => Err (ErrPromote err)
  | Ok true => Ok (InProgress from)
  | Ok false => Ok (Moved to)
  end.

Definition promote (h : VolumeHandle) (from to : string) (allowForced : bool) : prog outcome :=
  do r <- Promote h to true;
  match r with
  | Err PeerSiteOffline =>
      if allowForced then
        do _ <- OnForced h from to;
        do r <- Promote h to false;
        Ret (answer_promote from to r)
      else Ret (answer_promote from to r)
  | _ => Ret (answer_promote from to r)
  end.

(** [Move] between the claim and the release. *)
Definition move_claimed (h : VolumeHandle) (from to : string) (allowForced : bool)
    : prog outcome :=
  if String.eqb from "" then promote h from to allowForced
  else
    do r <- Demote h from;
    match r with
    | Ok _ | Err PeerSiteOffline => promote h from to allowForced
    | Err (Refused msg vols _) => Ret (Ok (RefusedBy from msg vols))
    | Err err => Ret (Err (ErrDemote err))
    end.

(** [Server.Move]; the release is deferred, so it follows however the move ends. *)
Definition Move {UUID : Type} (Nil : UUID) (uuid_Parse : string -> option UUID)
    (h : VolumeHandle) (to : string) (allowForced : bool) : prog outcome :=
  if String.eqb to "" then Ret (Err ErrNoTarget)
  else
    match handle_Split Nil uuid_Parse h with
    | (_, _, _, Some _) => Ret (Err (ErrVolume h))
    | (_, _, _, None) =>
        do st <- SyncStatus h;
        match st with
        | Err err => Ret (Err (ErrStatus err))
        | Ok from =>
            if String.eqb from to then Ret (Ok (Moved to))
            else
              do vol <- VolumeStore h;
              match vol with
              | Err err => Ret (Err (ErrStore err))
              | Ok store =>
                  do claimed <- Claim store;
                  if negb claimed then Ret (Ok (InProgress from))
                  else
                    bind (move_claimed h from to allowForced)
                      (fun r => do _ <- Release store; Ret r)
              end
        end
    end.

(** ** One move *)

(** The verbs that change which site a volume is led from. *)
Inductive verb :=
| Demoted (h : VolumeHandle) (site : string) (r : res sync_error unit)
| Promoted (h : VolumeHandle) (site : string) (planned : bool) (r : res sync_error bool).

Definition verb_of (e : event) : option verb :=
  match e with
  | @Ev _ X c x =>
      match c in call X return X -> option verb with
      | Demote h site => fun r => Some (Demoted h site r)
      | Promote h site planned => fun r => Some (Promoted h site planned r)
      | _ => fun _ => None
      end x
  end.

Definition verbs (tr : list event) : list verb := omap verb_of tr.

(** The promotes of a move: a planned one; and a forced one only when it is allowed and
    the planned one was answered that the site is offline. *)
Inductive promotes (h : VolumeHandle) (from to : string) (allowForced : bool)
    : list verb -> outcome -> Prop :=
| planned_only r :
    (r = Err PeerSiteOffline -> allowForced = false) ->
    promotes h from to allowForced [Promoted h to true r] (answer_promote from to r)
| escalated r :
    allowForced = true ->
    promotes h from to allowForced
      [Promoted h to true (Err PeerSiteOffline); Promoted h to false r]
      (answer_promote from to r).

(** The verbs of a move from [from], and what it answers. *)
Inductive protocol (h : VolumeHandle) (from to : string) (allowForced : bool)
    : list verb -> outcome -> Prop :=
| unled vs o : from = "" -> promotes h from to allowForced vs o -> protocol h from to allowForced vs o
| demote_refused msg vols problems :
    from <> "" ->
    protocol h from to allowForced [Demoted h from (Err (Refused msg vols problems))]
      (Ok (RefusedBy from msg vols))
| demote_failed err :
    from <> "" ->
    protocol h from to allowForced [Demoted h from (Err (Failed err))]
      (Err (ErrDemote (Failed err)))
| demoted r vs o :
    from <> "" -> r = Ok () \/ r = Err PeerSiteOffline ->
    promotes h from to allowForced vs o ->
    protocol h from to allowForced (Demoted h from r :: vs) o.

Lemma promote_promotes h from to allowForced tr o :
  does (promote h from to allowForced) tr o -> promotes h from to allowForced (verbs tr) o.
Proof.
  unfold promote. simpl. destruct tr as [|e tr]; [done|]. intros (r & -> & Hd).
  destruct r as [b|[msg vols problems| |err]]; simpl in Hd;
    try (destruct Hd as [-> ->]; by constructor).
  destruct allowForced; [|destruct Hd as [-> ->]; by constructor].
  destruct tr as [|e tr]; [done|]. destruct Hd as (u & -> & Hd).
  destruct tr as [|e tr]; [done|]. destruct Hd as (r & -> & -> & ->). by constructor.
Qed.

Lemma move_claimed_protocol h from to allowForced tr o :
  does (move_claimed h from to allowForced) tr o -> protocol h from to allowForced (verbs tr) o.
Proof.
  unfold move_claimed. destruct (String.eqb_spec from "") as [E|E].
  { intros Hd%promote_promotes. by apply unled. }
  destruct tr as [|e tr]; [done|]. intros (r & -> & Hd).
  destruct r as [[]|[msg vols problems| |err]]; simpl in Hd.
  - apply promote_promotes in Hd. apply demoted; auto.
  - destruct Hd as [-> ->]. by constructor.
  - apply promote_promotes in Hd. apply demoted; auto.
  - destruct Hd as [-> ->]. by constructor.
Qed.

Lemma promotes_moved h from to allowForced vs o site :
  promotes h from to allowForced vs o -> o = Ok (Moved site) ->
  site = to /\ exists planned, last vs = Some (Promoted h to planned (Ok false)).
Proof.
  intros Hp. destruct Hp as [r _|r _]; destruct r as [[]|[]]; simpl; intros E; try done;
    injection E as <-; (split; [done|]); by eexists.
Qed.

Lemma protocol_moved h from to allowForced vs site :
  protocol h from to allowForced vs (Ok (Moved site)) ->
  site = to /\ exists planned, last vs = Some (Promoted h to planned (Ok false)).
Proof.
  remember (Ok (Moved site)) as o eqn:Eo. intros Hp.
  destruct Hp as [vs o _ Hp|msg vols problems _|err _|r vs o _ _ Hp]; [|done|done|];
    destruct (promotes_moved _ _ _ _ _ _ site Hp Eo) as (-> & planned & Hl); [by eauto|].
  split; [done|]. exists planned. by destruct vs.
Qed.

(** The verbs of one move, whatever the backend answers.  None is issued unless the
    volume was read to be led from another site and its store claimed.  The site it
    leaves is demoted before anything is promoted; a demote that is refused, or
    fails, is the last verb, and one that finds the site offline leaves the decision
    to the promote.  The promote is a planned one, and a forced one follows only
    when the request allows it and the planned one found the site offline.  MOVED is
    answered only when the volume was led from the target to begin with or the last
    promote was answered done; and the claim is released however it ends. *)
Theorem move_follows_protocol {UUID} (Nil : UUID) uuid_Parse h to allowForced tr o :
  does (Move Nil uuid_Parse h to allowForced) tr o ->
  verbs tr = [] /\ (forall site, o = Ok (Moved site) -> site = to /\ tr = [Ev (SyncStatus h) (Ok to)]) \/
  exists from store inner,
    tr = (Ev (SyncStatus h) (Ok from) :: Ev (VolumeStore h) (Ok store) ::
          Ev (Claim store) true :: inner ++ [Ev (Release store) ()])%list /\
    from <> to /\ protocol h from to allowForced (verbs inner) o /\
    (forall site, o = Ok (Moved site) ->
       site = to /\ exists planned, last (verbs inner) = Some (Promoted h to planned (Ok false))).
Proof.
  unfold Move. destruct (String.eqb to ""); [intros [-> ->]; by left|].
  destruct (handle_Split _ _ _) as [[[? ?] ?] [e|]]; [intros [-> ->]; by left|].
  destruct tr as [|e tr]; [done|]. intros (st & -> & Hd).
  destruct st as [from|err]; [|destruct Hd as [-> ->]; by left].
  destruct (String.eqb_spec from to) as [E|Hne].
  { subst from. destruct Hd as [-> ->]. left. split; [done|]. by intros site [= <-]. }
  destruct tr as [|e tr]; [done|]. destruct Hd as (vol & -> & Hd).
  destruct vol as [store|err]; [|destruct Hd as [-> ->]; by left].
  destruct tr as [|e tr]; [done|]. destruct Hd as (claimed & -> & Hd).
  destruct claimed; simpl in Hd; [|destruct Hd as [-> ->]; by left].
  apply does_bind in Hd as (inner & tr2 & a & -> & Hin & Hrel).
  destruct tr2 as [|e tr2]; [done|]. destruct Hrel as ([] & -> & -> & ->).
  right. exists from, store, inner. split; [done|]. split; [done|].
  apply move_claimed_protocol in Hin. split; [done|].
  intros site ->. by apply protocol_moved in Hin.
Qed.

(** ** Moves at the same time *)

(** What a call does to the set of stores with a move under way, and what it may be
    answered; the backend may answer anything. *)
Definition serve {X} (c : call X) (moving : gset string) : X -> gset string -> Prop :=
  match c in call X return X -> gset string -> Prop with
  | Claim store => fun claimed after =>
      claimed = bool_decide (store ∉ moving) /\ after = {[store]} ∪ moving
  | Release store => fun _ after => after = moving ∖ {[store]}
  | _ => fun _ after => after = moving
  end.

(** A call of [Move] under way: what is left of it, and the store it has claimed. *)
Record thread := mkThread { held : option string; code : prog outcome }.

(** What is recorded of a step: the claims and the releases of a store, and the verbs
    with the store their caller holds. *)
Inductive mark := Begin (store : string) | End (store : string) | Verb (store : option string) (v : verb).

Definition marked {X} (holds : option string) (c : call X) : X -> option mark :=
  match c in call X return X -> option mark with
  | Claim store => fun claimed => if claimed then Some (Begin store) else None
  | Release store => fun _ => Some (End store)
  | Demote h site => fun r => Some (Verb holds (Demoted h site r))
  | Promote h site planned => fun r => Some (Verb holds (Promoted h site planned r))
  | _ => fun _ => None
  end.

Definition holds_after {X} (holds : option string) (c : call X) : X -> option string :=
  match c in call X return X -> option string with
  | Claim store => fun claimed => if claimed then Some store else holds
  | Release store => fun _ => None
  | _ => fun _ => holds
  end.

(** The server: its calls under way, the stores with a move under way, and what was
    recorded. *)
Record server := mkServer {
  threads : list thread;
  moving : gset string;
  record : list (nat * mark);
}.

Definition new_server : server := mkServer [] ∅ [].

Section Interleaved.

Context {UUID : Type} (Nil : UUID) (uuid_Parse : string -> option UUID).

(** A request arrives, or one of the calls under way makes its next step. *)
Inductive step (s : server) : server -> Prop :=
| step_request h to allowForced :
    step s (mkServer (threads s ++ [mkThread None (Move Nil uuid_Parse h to allowForced)])
      (moving s) (record s))
| step_call i holds X (c : call X) k x after :
    threads s !! i = Some (mkThread holds (Vis c k)) ->
    serve c (moving s) x after ->
    step s (mkServer (<[i := mkThread (holds_after holds c x) (k x)]> (threads s)) after
      (record s ++ match marked holds c x with Some m => [(i, m)] | None => [] end)).

Definition reachable (s : server) : Prop := rtc step new_server s.

(** A program that claims at most one store at a time, issues verbs only while it holds
    one, and holds none when it ends. *)
Fixpoint bracketed (holds : option string) (p : prog outcome) : Prop :=
  match p with
  | Ret _ => holds = None
  | Vis c k =>
      match c in call X return (X -> prog outcome) -> Prop with
      | Claim store => fun k => holds = None /\ bracketed None (k false) /\ bracketed (Some store) (k true)
      | Release store => fun k => holds = Some store /\ forall x, bracketed None (k x)
      | Demote _ _ => fun k => is_Some holds /\ forall x, bracketed holds (k x)
      | Promote _ _ _ => fun k => is_Some holds /\ forall x, bracketed holds (k x)
      | SyncStatus _ => fun k => forall x, bracketed holds (k x)
      | VolumeStore _ => fun k => forall x, bracketed holds (k x)
      | OnForced _ _ _ => fun k => forall x, bracketed holds (k x)
      end k
  end.

Lemma bracketed_promote h from to allowForced store (k : outcome -> prog outcome) :
  (forall o, bracketed (Some store) (k o)) ->
  bracketed (Some store) (bind (promote h from to allowForced) k).
Proof.
  intros Hk. simpl. split; [done|]. intros [b|[]]; try apply Hk.
  destruct allowForced; [|apply Hk]. intros _. split; [done|].
  intros x. apply Hk.
Qed.

Lemma bracketed_Move h to allowForced : bracketed None (Move Nil uuid_Parse h to allowForced).
Proof.
  unfold Move. destruct (String.eqb to ""); [done|].
  destruct (handle_Split _ _ _) as [[[? ?] ?] [e|]]; [done|]. intros [from|err]; [|done].
  destruct (String.eqb from to); [done|]. intros [store|err]; [|done].
  split; [done|]. split; [done|]. simpl.
  assert (Hend : forall o : outcome, bracketed (Some store) (Vis (Release store) (fun _ => Ret o)))
    by done.
  unfold move_claimed. destruct (String.eqb from ""); [by apply bracketed_promote|].
  split; [done|]. intros [x|[]]; try apply Hend; by apply bracketed_promote.
Qed.

(** The marks of one store come in moves that do not overlap: who holds which store
    after them, or [None] when they do. *)
Definition replay (owners : option (gmap string nat)) (m : nat * mark) : option (gmap string nat) :=
  o ← owners;
  match m.2 with
  | Begin store => match o !! store with None => Some (<[store := m.1]> o) | Some _ => None end
  | End store => if decide (o !! store = Some m.1) then Some (delete store o) else None
  | Verb (Some store) _ => if decide (o !! store = Some m.1) then Some o else None
  | Verb None _ => None
  end.

Definition owners_after (l : list (nat * mark)) : option (gmap string nat) := foldl replay (Some ∅) l.

Record consistent (s : server) : Prop := {
  con_bracketed : forall i t, threads s !! i = Some t -> bracketed (held t) (code t);
  con_moving : forall store, store ∈ moving s <->
    exists i t, threads s !! i = Some t /\ held t = Some store;
  con_unique : forall i j t t' store, threads s !! i = Some t -> threads s !! j = Some t' ->
    held t = Some store -> held t' = Some store -> i = j;
  con_record : exists owners, owners_after (record s) = Some owners /\
    forall store i, owners !! store = Some i <->
      exists t, threads s !! i = Some t /\ held t = Some store;
}.

Lemma consistent_new : consistent new_server.
Proof.
  split; simpl; [done| |done|].
  - intros store. split; [set_solver|]. by intros (i & t & ? & _).
  - exists ∅. split; [done|]. intros store i. rewrite lookup_empty. split; [done|].
    by intros (t & ? & _).
Qed.

Lemma consistent_request s h to allowForced :
  consistent s ->
  consistent (mkServer (threads s ++ [mkThread None (Move Nil uuid_Parse h to allowForced)])
    (moving s) (record s)).
Proof.
  intros [Hb Hm Hu (owners & Ho & Hr)].
  assert (Hold : forall i t, (threads s ++ [mkThread None (Move Nil uuid_Parse h to allowForced)])%list !! i
      = Some t -> forall store, held t = Some store -> threads s !! i = Some t).
  { intros i t [Hi|[_ Hi]]%lookup_app_Some store Hh; [done|].
    by apply list_lookup_singleton_Some in Hi as [_ <-]. }
  split; simpl.
  - intros i t [Hi|[_ Hi]]%lookup_app_Some; [by eapply Hb|].
    apply list_lookup_singleton_Some in Hi as [_ <-]. apply bracketed_Move.
  - intros store. rewrite Hm. split; intros (i & t & Hi & Hh); exists i, t; (split; [|done]).
    + by apply lookup_app_l_Some.
    + by eapply Hold.
  - intros i j t t' store Hi Hj Hh Hh'. by eapply Hu; [eapply Hold|eapply Hold|..].
  - exists owners. split; [done|]. intros store i. rewrite Hr.
    split; intros (t & Hi & Hh); exists t; (split; [|done]).
    + by apply lookup_app_l_Some.
    + by eapply Hold.
Qed.

(** A step that changes neither who holds what nor the stores with a move under way. *)
Lemma consistent_quiet s i holds p p' marks :
  consistent s -> threads s !! i = Some (mkThread holds p) -> bracketed holds p' ->
  (forall owners, owners_after (record s) = Some owners ->
     (forall store, holds = Some store -> owners !! store = Some i) ->
     owners_after (record s ++ marks) = Some owners) ->
  consistent (mkServer (<[i := mkThread holds p']> (threads s)) (moving s) (record s ++ marks)).
Proof.
  intros [Hb Hm Hu (owners & Ho & Hr)] Hi Hp Hmarks.
  assert (Hsame : forall j store,
    (exists t, <[i := mkThread holds p']> (threads s) !! j = Some t /\ held t = Some store) <->
    (exists t, threads s !! j = Some t /\ held t = Some store)).
  { intros j store. destruct (decide (j = i)) as [->|Hne].
    - rewrite list_lookup_insert_eq by (by eapply lookup_lt_Some). rewrite Hi.
      split; intros (t & [= <-] & Hh); by eexists.
    - by rewrite list_lookup_insert_ne. }
  split; simpl.
  - intros j t Hj. destruct (decide (j = i)) as [->|Hne].
    + rewrite list_lookup_insert_eq in Hj by (by eapply lookup_lt_Some). by injection Hj as <-.
    + rewrite list_lookup_insert_ne in Hj by done. by eapply Hb.
  - intros store. rewrite Hm. apply exist_proper. intros j. symmetry. apply Hsame.
  - intros j j' t t' store Hj Hj' Hh Hh'.
    destruct (proj1 (Hsame j store)) as (u & ? & ?); [by eexists|].
    destruct (proj1 (Hsame j' store)) as (u' & ? & ?); [by eexists|]. by eapply Hu.
  - exists owners. split.
    + apply Hmarks; [done|]. intros store ->. apply Hr. by eexists.
    + intros store j. rewrite Hr. symmetry. apply Hsame.
Qed.

(** Who holds what after one call changed what it holds. *)
Lemma holder_insert (ts : list thread) i t0 t j store :
  ts !! i = Some t0 ->
  (exists t', <[i := t]> ts !! j = Some t' /\ held t' = Some store) <->
  (j = i /\ held t = Some store \/ j <> i /\ exists t', ts !! j = Some t' /\ held t' = Some store).
Proof.
  intros Hi. destruct (decide (j = i)) as [->|Hne].
  - rewrite list_lookup_insert_eq by (by eapply lookup_lt_Some). split.
    + intros (t' & [= <-] & Hh). by left.
    + intros [[_ Hh]|[? _]]; [by eexists|done].
  - rewrite list_lookup_insert_ne by done. split; [by right|by intros [[? _]|[_ ?]]].
Qed.

Lemma bracketed_insert (s : server) i t0 t :
  (forall j u, threads s !! j = Some u -> bracketed (held u) (code u)) ->
  threads s !! i = Some t0 -> bracketed (held t) (code t) ->
  forall j u, <[i := t]> (threads s) !! j = Some u -> bracketed (held u) (code u).
Proof.
  intros Hb Hi Ht j u Hj. destruct (decide (j = i)) as [->|Hne].
  - rewrite list_lookup_insert_eq in Hj by (by eapply lookup_lt_Some). by injection Hj as <-.
  - rewrite list_lookup_insert_ne in Hj by done. by eapply Hb.
Qed.

Lemma owners_snoc l m : owners_after (l ++ [m]) = replay (owners_after l) m.
Proof. unfold owners_after. by rewrite foldl_snoc. Qed.

Lemma consistent_claim s i store k :
  consistent s -> threads s !! i = Some (mkThread None (Vis (Claim store) k)) ->
  store ∉ moving s ->
  consistent (mkServer (<[i := mkThread (Some store) (k true)]> (threads s))
    ({[store]} ∪ moving s) (record s ++ [(i, Begin store)])).
Proof.
  intros [Hb Hm Hu (owners & Ho & Hr)] Hi Hnot.
  assert (Hfree : forall j t, threads s !! j = Some t -> held t <> Some store).
  { intros j t Hj Hh. apply Hnot, Hm. by exists j, t. }
  split; simpl.
  - eapply bracketed_insert; [done..|]. by destruct (Hb i _ Hi) as (_ & _ & ?).
  - intros store'. rewrite elem_of_union, elem_of_singleton, Hm.
    setoid_rewrite (holder_insert (threads s) i _ _ _ store' Hi). simpl. split.
    + intros [->|(j & t & Hj & Hh)]; [exists i; by left|]. exists j. right.
      split; [|by eexists]. intros ->. rewrite Hi in Hj. by injection Hj as <-.
    + intros (j & [[-> [= <-]]|[Hne (t & Hj & Hh)]]); [by left|right; by exists j, t].
  - intros j j' t t' store' Hj Hj' Hh Hh'.
    assert (H1 := proj1 (holder_insert (threads s) i _ _ j store' Hi) ltac:(by eexists)).
    assert (H2 := proj1 (holder_insert (threads s) i _ _ j' store' Hi) ltac:(by eexists)).
    simpl in H1, H2.
    destruct H1 as [[-> E1]|[_ (u & Hju & Hu1)]], H2 as [[-> E2]|[_ (u' & Hju' & Hu2)]]; try done.
    + injection E1 as <-. by destruct (Hfree _ _ Hju').
    + injection E2 as <-. by destruct (Hfree _ _ Hju).
    + by eapply Hu.
  - exists (<[store := i]> owners). split.
    + rewrite owners_snoc, Ho. unfold replay. simpl.
      destruct (owners !! store) as [j|] eqn:E; [|done].
      apply Hr in E as (t & Hj & Hh). by destruct (Hfree _ _ Hj).
    + intros store' j. rewrite (holder_insert (threads s) i _ _ j store' Hi). simpl.
      rewrite lookup_insert_Some, Hr. split.
      * intros [[<- <-]|[Hne (t & Hj & Hh)]]; [by left|]. right. split; [|by exists t].
        intros ->. rewrite Hi in Hj. by injection Hj as <-.
      * intros [[-> [= <-]]|[Hne (t & Hj & Hh)]]; [by left|]. right. split; [|by exists t].
        intros <-. by destruct (Hfree _ _ Hj).
Qed.

Lemma consistent_release s i store k :
  consistent s -> threads s !! i = Some (mkThread (Some store) (Vis (Release store) k)) ->
  consistent (mkServer (<[i := mkThread None (k ())]> (threads s))
    (moving s ∖ {[store]}) (record s ++ [(i, End store)])).
Proof.
  intros [Hb Hm Hu (owners & Ho & Hr)] Hi.
  assert (Hother : forall j t, threads s !! j = Some t -> j <> i -> held t <> Some store).
  { intros j t Hj Hne Hh. apply Hne. by eapply Hu. }
  split; simpl.
  - eapply bracketed_insert; [done..|]. destruct (Hb i _ Hi) as (_ & Hk). apply Hk.
  - intros store'. rewrite elem_of_difference, elem_of_singleton, Hm.
    setoid_rewrite (holder_insert (threads s) i _ _ _ store' Hi). simpl. split.
    + intros [(j & t & Hj & Hh) Hne]. exists j. right. split; [|by eexists]. intros ->.
      rewrite Hi in Hj. injection Hj as <-. simpl in Hh. congruence.
    + intros (j & [[-> ?]|[Hne (t & Hj & Hh)]]); [done|]. split; [by exists j, t|].
      intros ->. by destruct (Hother _ _ Hj Hne).
  - intros j j' t t' store' Hj Hj' Hh Hh'.
    assert (H1 := proj1 (holder_insert (threads s) i _ _ j store' Hi) ltac:(by eexists)).
    assert (H2 := proj1 (holder_insert (threads s) i _ _ j' store' Hi) ltac:(by eexists)).
    simpl in H1, H2.
    destruct H1 as [[-> E1]|[_ (u & Hju & Hu1)]], H2 as [[-> E2]|[_ (u' & Hju' & Hu2)]]; try done.
    by eapply Hu.
  - exists (delete store owners). split.
    + rewrite owners_snoc, Ho. unfold replay. simpl. rewrite decide_True; [done|].
      apply Hr. by eexists.
    + intros store' j. rewrite (holder_insert (threads s) i _ _ j store' Hi). simpl.
      rewrite lookup_delete_Some, Hr. split.
      * intros [Hne (t & Hj & Hh)]. right. split; [|by exists t]. intros ->.
        rewrite Hi in Hj. injection Hj as <-. simpl in Hh. congruence.
      * intros [[_ ?]|[Hne (t & Hj & Hh)]]; [done|]. split; [|by exists t].
        intros <-. by destruct (Hother _ _ Hj Hne).
Qed.

Lemma consistent_step s s' : consistent s -> step s s' -> consistent s'.
Proof.
  intros Hs [h to allowForced|i holds X c k x after Hi Hserve]; [by apply consistent_request|].
  pose proof (con_bracketed _ Hs i _ Hi) as Hb. simpl in Hb.
  assert (Hnone : forall owners, owners_after (record s) = Some owners ->
    owners_after (record s ++ []) = Some owners) by (intros; by rewrite app_nil_r).
  destruct c as [h|h|h site|h site planned|store|store|volume from to]; simpl in *.
  - subst after. by eapply consistent_quiet; eauto.
  - subst after. by eapply consistent_quiet; eauto.
  - subst after. destruct Hb as [[store ->] Hb]. eapply consistent_quiet; [done..|apply Hb|].
    intros owners Ho Hown. rewrite owners_snoc, Ho. unfold replay. simpl.
    by rewrite decide_True by (by apply Hown).
  - subst after. destruct Hb as [[store ->] Hb]. eapply consistent_quiet; [done..|apply Hb|].
    intros owners Ho Hown. rewrite owners_snoc, Ho. unfold replay. simpl.
    by rewrite decide_True by (by apply Hown).
  - destruct Hserve as [-> ->], Hb as (-> & Hb1 & Hb2). case_bool_decide as Hin.
    + by apply consistent_claim.
    + assert ({[store]} ∪ moving s = moving s) as -> by set_solver.
      by eapply consistent_quiet; eauto.
  - subst after. destruct Hb as [-> Hb]. destruct x. by apply consistent_release.
  - subst after. by eapply consistent_quiet; eauto.
Qed.

(** C21. The moves of a store are serial, however many calls run at once and however their
    steps interleave: the stores with a move under way are exactly those some call
    holds, no two calls hold one store, and of each store the record is one complete
    move after another, the last perhaps still under way: every demote and promote
    was issued by the call that held the store then.  A call that has returned holds
    nothing, so once all have, no store is left marked. *)
Theorem moves_of_a_store_are_serial s :
  reachable s ->
  (exists owners, owners_after (record s) = Some owners /\
     forall store i, owners !! store = Some i <->
       exists t, threads s !! i = Some t /\ held t = Some store) /\
  (forall store, store ∈ moving s <-> exists i t, threads s !! i = Some t /\ held t = Some store) /\
  (forall i j t t' store, threads s !! i = Some t -> threads s !! j = Some t' ->
     held t = Some store -> held t' = Some store -> i = j) /\
  (forall i t o, threads s !! i = Some t -> code t = Ret o -> held t = None) /\
  ((forall i t, threads s !! i = Some t -> exists o, code t = Ret o) -> moving s = ∅).
Proof.
  intros Hr. assert (Hs : consistent s).
  { unfold reachable in Hr. apply (rtc_ind_r (R := step) consistent new_server); [apply consistent_new| |done].
    intros x y _ Hstep Hx. by eapply consistent_step. }
  assert (Hdone : forall i t o, threads s !! i = Some t -> code t = Ret o -> held t = None).
  { intros i t o Hi Ho. pose proof (con_bracketed _ Hs i t Hi) as Hb. by rewrite Ho in Hb. }
  split; [apply Hs|]. split; [apply Hs|]. split; [apply Hs|]. split; [done|].
  intros Hall. apply elem_of_equiv_empty_L. intros store Hin.
  apply (con_moving _ Hs) in Hin as (i & t & Hi & Hh).
  destruct (Hall i t Hi) as [o Ho]. by rewrite (Hdone i t o Hi Ho) in Hh.
Qed.

(** *** Played out *)

(** What the backend answers, in a schedule. *)
Inductive answer :=
| AnswerSite (r : res sync_error string)
| AnswerDemote (r : res sync_error unit)
| AnswerPromote (r : res sync_error bool)
| NoAnswer.

Definition give {X} (c : call X) (a : answer) (moving : gset string) : option (X * gset string) :=
  match c in call X return option (X * gset string) with
  | SyncStatus _ => match a with AnswerSite r => Some (r, moving) | _ => None end
  | VolumeStore _ => match a with AnswerSite r => Some (r, moving) | _ => None end
  | Demote _ _ => match a with AnswerDemote r => Some (r, moving) | _ => None end
  | Promote _ _ _ => match a with AnswerPromote r => Some (r, moving) | _ => None end
  | Claim store => Some (bool_decide (store ∉ moving), {[store]} ∪ moving)
  | Release store => Some ((), moving ∖ {[store]})
  | OnForced _ _ _ => Some ((), moving)
  end.

Lemma give_serve {X} (c : call X) a m x after : give c a m = Some (x, after) -> serve c m x after.
Proof using. destruct c, a; simpl; intros E; try done; by injection E as <- <-. Qed.

(** One entry of a schedule: a request, or a step of a call under way. *)
Inductive turn := Request (h : VolumeHandle) (to : string) (allowForced : bool) | Turn (i : nat) (a : answer).

Definition advance (s : server) (t : turn) : option server :=
  match t with
  | Request h to allowForced =>
      Some (mkServer (threads s ++ [mkThread None (Move Nil uuid_Parse h to allowForced)])
        (moving s) (record s))
  | Turn i a =>
      match threads s !! i with
      | Some (mkThread holds (Vis c k)) =>
          match give c a (moving s) with
          | Some (x, after) =>
              Some (mkServer (<[i := mkThread (holds_after holds c x) (k x)]> (threads s)) after
                (record s ++ match marked holds c x with Some m => [(i, m)] | None => [] end))
          | None => None
          end
      | _ => None
      end
  end.

Fixpoint play (s : server) (schedule : list turn) : option server :=
  match schedule with
  | [] => Some s
  | t :: schedule => match advance s t with Some s => play s schedule | None => None end
  end.

Lemma advance_step s t s' : advance s t = Some s' -> step s s'.
Proof.
  destruct t as [h to allowForced|i a]; simpl; [by intros [= <-]; apply step_request|].
  destruct (threads s !! i) as [[holds [o|X c k]]|] eqn:Ei; try done.
  destruct (give c a (moving s)) as [[x after]|] eqn:Eg; [|done]. intros [= <-].
  by apply step_call; [|eapply give_serve].
Qed.

Lemma play_steps schedule s s' : play s schedule = Some s' -> rtc step s s'.
Proof.
  revert s. induction schedule as [|t schedule IH]; intros s; simpl; [by intros [= ->]|].
  destruct (advance s t) as [s1|] eqn:E; [|done]. intros Hp.
  eapply rtc_l; [by eapply advance_step|by apply IH].
Qed.

End Interleaved.

(** ** Concrete moves *)

Definition parse (s : string) : option string := if String.eqb s "" then None else Some s.
Definition handle : VolumeHandle := "c:p:v".

Definition server_after (schedule : list turn) : option server :=
  play "" parse new_server schedule.

(** Two pods stage together: the second one's move of the store is under way. *)
Definition together : list turn :=
  [Request handle "east" true; Request handle "east" true;
   Turn 0 (AnswerSite (Ok "west")); Turn 0 (AnswerSite (Ok "lvs1")); Turn 0 NoAnswer;
   Turn 1 (AnswerSite (Ok "west")); Turn 1 (AnswerSite (Ok "lvs1")); Turn 1 NoAnswer;
   Turn 0 (AnswerDemote (Ok ())); Turn 0 (AnswerPromote (Err PeerSiteOffline)); Turn 0 NoAnswer;
   Turn 0 (AnswerPromote (Ok false)); Turn 0 NoAnswer].

Lemma together_record : record <$> server_after together = Some
  [(0, Begin "lvs1"); (0, Verb (Some "lvs1") (Demoted handle "west" (Ok ())));
   (0, Verb (Some "lvs1") (Promoted handle "east" true (Err PeerSiteOffline)));
   (0, Verb (Some "lvs1") (Promoted handle "east" false (Ok false)));
   (0, End "lvs1")].
Proof. by vm_compute. Qed.

Lemma moves_of_a_store_are_serial_witness :
  exists s, server_after together = Some s /\ length (threads s) = 2 /\ moving s = ∅.
Proof.
  destruct (server_after together) as [s|] eqn:E; [|by vm_compute in E].
  assert (Hreach : reachable "" parse s) by (by eapply play_steps).
  destruct (moves_of_a_store_are_serial "" parse s Hreach) as (_ & _ & _ & _ & Hdone).
  assert (Hall : forallb (fun t => match code t with Ret _ => true | _ => false end)
    (default [] (threads <$> server_after together)) = true) by (by vm_compute).
  assert (Hlen : length (default [] (threads <$> server_after together)) = 2) by (by vm_compute).
  rewrite E in Hall, Hlen. simpl in Hall, Hlen. exists s. split; [done|]. split; [done|].
  apply Hdone. intros i t Hi. rewrite forallb_forall in Hall.
  assert (Ht : In t (threads s)) by (by apply list_elem_of_In, (list_elem_of_lookup_2 _ i)).
  specialize (Hall t Ht). destruct (code t) as [o|]; [by exists o|done].
Defined.

Lemma move_follows_protocol_witness :
  exists planned, last [Demoted handle "west" (Ok ()); Promoted handle "east" true (Ok false)] =
    Some (Promoted handle "east" planned (Ok false)).
Proof.
  destruct (move_follows_protocol "" parse handle "east" false
    [Ev (SyncStatus handle) (Ok "west"); Ev (VolumeStore handle) (Ok "lvs1");
     Ev (Claim "lvs1") true; Ev (Demote handle "west") (Ok ());
     Ev (Promote handle "east" true) (Ok false); Ev (Release "lvs1") ()]
    (Ok (Moved "east"))) as [[H _]|(from & store & inner & Ht & _ & _ & H)].
  - repeat (eexists; split; [reflexivity|]). done.
  - discriminate H.
  - destruct (H "east" eq_refl) as [_ [planned Hp]].
    apply (f_equal verbs) in Ht. unfold verbs in Ht. simpl in Ht.
    rewrite omap_app in Ht. simpl in Ht. rewrite app_nil_r in Ht. fold (verbs inner) in Ht.
    exists planned. rewrite Ht. exact Hp.
Defined.

(** The site a volume is led from is read before the store is claimed.  A pod whose move
    read it before another's finished, and claims the store after, demotes the old
    site and promotes the new one again: two demotes and two promotes of a volume
    that was served from its target already. *)
Definition one_after_the_other : list turn :=
  [Request handle "east" false; Request handle "east" false;
   Turn 0 (AnswerSite (Ok "west")); Turn 1 (AnswerSite (Ok "west"));
   Turn 0 (AnswerSite (Ok "lvs1")); Turn 0 NoAnswer; Turn 0 (AnswerDemote (Ok ()));
   Turn 0 (AnswerPromote (Ok false)); Turn 0 NoAnswer;
   Turn 1 (AnswerSite (Ok "lvs1")); Turn 1 NoAnswer; Turn 1 (AnswerDemote (Ok ()));
   Turn 1 (AnswerPromote (Ok false)); Turn 1 NoAnswer].

Lemma a_stale_site_is_moved_again : exists s,
  server_after one_after_the_other = Some s /\ reachable "" parse s /\
  omap (fun m => match m.2 with Verb _ v => Some v | _ => None end) (record s) =
    [Demoted handle "west" (Ok ()); Promoted handle "east" true (Ok false);
     Demoted handle "west" (Ok ()); Promoted handle "east" true (Ok false)].
Proof.
  assert (Hv : (fun s => omap (fun m => match m.2 with Verb _ v => Some v | _ => None end) (record s))
    <$> server_after one_after_the_other = Some
    [Demoted handle "west" (Ok ()); Promoted handle "east" true (Ok false);
     Demoted handle "west" (Ok ()); Promoted handle "east" true (Ok false)]) by (by vm_compute).
  destruct (server_after one_after_the_other) as [s|] eqn:E; [|done].
  exists s. split; [done|]. split; [by eapply play_steps|]. by injection Hv.
Qed.

End Switchover.

(** ** Following Ramen ([vrgfollow.go]) *)

Module Follow.

Import Switchover.

Definition csiDriver : string := "csi.simplyblock.io".
Definition moveRequeueInterval : Duration := (10 * Second)%Z.
Definition restoreRequeueInterval : Duration := (15 * Second)%Z.
Definition vrgPrimary : string := "primary".
Definition vrgActionFailover : string := "Failover".
Definition ClaimBound : string := "Bound".

(** A [VolumeReplicationGroup], read out of its unstructured spec; the selector as
    apimachinery converts it. *)
Record VRG := mkVRG {
  v_Sync : bool;
  v_ReplicationState : string;
  v_Action : string;
  v_Selector : res string (gmap string string -> bool);
}.

Record PVC := mkPVC { c_Labels : gmap string string; c_Phase : string; c_VolumeName : string }.

(** The CSI source of a [PersistentVolume]. *)
Record CSI := mkCSI { csi_Driver : string; csi_VolumeHandle : string }.

(** [blockedOnlyBy]. *)
Definition blockedOnlyBy (blocking : list string) (own : list string) : bool :=
  match blocking with [] => false | _ => forallb (contains own) blocking end.

(** The volume's own id in a handle, [h[strings.LastIndex(h, ":")+1:]]. *)
Definition own_id (h : VolumeHandle) : string :=
  match cutLast h ":" with (_, id, true) => id | (_, _, false) => h end.

Section Pass.

(** What is answered to the reads; and the mover, over whatever state it keeps. *)
Context (list_clusters : res string (list (option string * string))).
Context (list_claims : res string (list PVC)).
Context (get_pv : string -> res string (option CSI)).
Context {S : Type} (Mover : VolumeHandle -> string -> bool -> S -> S * res string response).

(** [stretchedSite]: the site and the backend cluster of the first cluster that is one
    site of a stretched one. *)
Definition stretchedSite : res string (string * string) :=
  match list_clusters with
  | Err err => Err err
  | Ok clusters =>
      match find_first (fun c => match c.1 with
                                 | Some site => negb (String.eqb site "") && negb (String.eqb c.2 "")
                                 | None => false
                                 end) clusters with
      | Some (Some site, uuid) => Ok (site, uuid)
      | _ => Ok ("", "")
      end
  end.

(** The loop of [volumes]. *)
Fixpoint handles_of (clusterUUID : string) (claims : list PVC)
    : res string (list VolumeHandle * bool) :=
  match claims with
  | [] => Ok ([], false)
  | c :: claims =>
      if negb (String.eqb (c_Phase c) ClaimBound) || String.eqb (c_VolumeName c) "" then
        rest <-- handles_of clusterUUID claims ;;
        Ok (rest.1, true)
      else
        match get_pv (c_VolumeName c) with
        | Err err => Err err
        | Ok pv =>
            rest <-- handles_of clusterUUID claims ;;
            Ok (match pv with
                | Some csi =>
                    if String.eqb (csi_Driver csi) csiDriver &&
                       String.prefix (clusterUUID ++ ":") (csi_VolumeHandle csi)
                    then (csi_VolumeHandle csi :: rest.1, rest.2) else rest
                | None => rest
                end)
        end
  end.

(** [volumes]: the handles of the claims the group selects, and whether one is still to
    be restored or bound. *)
Definition volumes (v : VRG) (clusterUUID : string) : res string (list VolumeHandle * bool) :=
  sel <-- v_Selector v ;;
  claims <-- list_claims ;;
  let selected := List.filter (fun c => sel (c_Labels c)) claims in
  found <-- handles_of clusterUUID selected ;;
  Ok (found.1, found.2 || Nat.eqb (length selected) 0).

(** One [MoveRequest] and its answer. *)
Record ask := mkAsk {
  a_Volume : VolumeHandle;
  a_ToSite : string;
  a_AllowForced : bool;
  a_Answer : res string response;
}.

(** What a pass did: the moves it asked for, the refusals it reported, and whether a
    move is still to be asked for. *)
Record progress := mkProgress {
  asked : list ask;
  reported : list VolumeHandle;
  pending : bool;
}.

(** The loop of [Reconcile] over the handles. *)
Fixpoint move_all (site : string) (allowForced : bool) (own : list string)
    (hs : list VolumeHandle) (p : progress) (s : S) : S * res string progress * progress :=
  match hs with
  | [] => (s, Ok p, p)
  | h :: hs =>
      let '(s, r) := Mover h site allowForced s in
      let p := mkProgress (asked p ++ [mkAsk h site allowForced r]) (reported p) (pending p) in
      match r with
      | Err err => (s, Err err, p)
      | Ok (Moved _) => move_all site allowForced own hs p s
      | Ok (RefusedBy _ _ blocking) =>
          move_all site allowForced own hs
            (mkProgress (asked p)
              (if blockedOnlyBy blocking own then reported p else reported p ++ [h]) true) s
      | Ok (InProgress _) =>
          move_all site allowForced own hs (mkProgress (asked p) (reported p) true) s
      end
  end.

Definition nothing_asked : progress := mkProgress [] [] false.

(** [Reconcile]: when to come back, and what was done. *)
Definition Reconcile (found : res string (option VRG)) (s : S)
    : S * res string (option Duration) * progress :=
  match found with
  | Err err => (s, Err err, nothing_asked)
  | Ok None => (s, Ok None, nothing_asked)
  | Ok (Some v) =>
      if negb (v_Sync v) || negb (String.eqb (v_ReplicationState v) vrgPrimary) then
        (s, Ok None, nothing_asked)
      else
        match stretchedSite with
        | Err err => (s, Err err, nothing_asked)
        | Ok (site, clusterUUID) =>
            if String.eqb site "" then (s, Ok None, nothing_asked)
            else
              match volumes v clusterUUID with
              | Err err => (s, Err err, nothing_asked)
              | Ok (hs, waiting) =>
                  let '(s, r, p) := move_all site (String.eqb (v_Action v) vrgActionFailover)
                    (own_id <$> hs) hs nothing_asked s in
                  match r with
                  | Err err => (s, Err err, p)
                  | Ok p =>
                      (s, Ok (if pending p then Some moveRequeueInterval
                              else if waiting then Some restoreRequeueInterval
                              else None), p)
                  end
              end
        end
  end.

(** One more round of the loop, by what the rest of it leaves. *)
Ltac again :=
  match goal with
  | IH : forall (p : progress) (s : S), _ |- context [move_all _ _ _ _ ?p1 ?s1] =>
      specialize (IH p1 s1);
      destruct (move_all _ _ _ _ p1 s1) as [[s2 r2] p2];
      destruct IH as (rest & Ha & Hpre & Hok & Hto & more & Hr & Hmore);
      eexists (_ :: rest); simpl in *; rewrite <- app_assoc in Ha;
      split; [exact Ha|]; split; [by apply prefix_cons|]
  end.

(** What the loop leaves after the handles [hs]. *)
Lemma move_all_spec site allowForced own hs p s :
  let '(_, r, p') := move_all site allowForced own hs p s in
  exists done, asked p' = (asked p ++ done)%list /\ (a_Volume <$> done) `prefix_of` hs /\
    (forall q, r = Ok q -> q = p' /\ a_Volume <$> done = hs /\
       (pending p' = false <-> pending p = false /\ Forall (fun a => exists at_, a_Answer a = Ok (Moved at_)) done)) /\
    Forall (fun a => a_ToSite a = site /\ a_AllowForced a = allowForced) done /\
    (exists more, reported p' = (reported p ++ more)%list /\ forall h, h ∈ more ->
       exists from reason blocking, mkAsk h site allowForced (Ok (RefusedBy from reason blocking)) ∈ done /\
         blockedOnlyBy blocking own = false).
Proof.
  revert p s. induction hs as [|h hs IH]; intros p s; simpl.
  { exists []. rewrite app_nil_r. split; [done|]. split; [done|]. split.
    - intros q [= <-]. split; [done|]. split; [done|]. split; [done|by intros [? _]].
    - split; [done|]. exists []. rewrite app_nil_r. split; [done|]. by intros h ?%elem_of_nil. }
  destruct (Mover h site allowForced s) as [s1 r]. destruct r as [[at_|from|from reason blocking]|err].
  4:{ exists [mkAsk h site allowForced (Err err)]. split; [done|]. split; [by apply prefix_cons, prefix_nil|].
      split; [done|]. split; [by constructor|].
      exists []. rewrite app_nil_r. split; [done|]. by intros h' ?%elem_of_nil. }
  all: again.
  - split.
    + intros q Hq. destruct (Hok q Hq) as (-> & <- & Hp). do 2 (split; [done|]).
      rewrite Hp, Forall_cons. split; [intros [? ?]; split; [done|]; split; [by eexists|done]|].
      by intros (? & _ & ?).
    + split; [by constructor|]. exists more. split; [done|]. intros h' (f & rs & b & Hin & Hb)%Hmore.
      exists f, rs, b. split; [by right|done].
  - split.
    + intros q Hq. destruct (Hok q Hq) as (-> & <- & Hp). do 2 (split; [done|]).
      rewrite Hp, Forall_cons. split; [by intros [? _]|]. by intros (_ & [? ?] & _).
    + split; [by constructor|]. exists more. split; [done|]. intros h' (f & rs & b & Hin & Hb)%Hmore.
      exists f, rs, b. split; [by right|done].
  - split.
    + intros q Hq. destruct (Hok q Hq) as (-> & <- & Hp). do 2 (split; [done|]).
      rewrite Hp, Forall_cons. split; [by intros [? _]|]. by intros (_ & [? ?] & _).
    + split; [by constructor|]. destruct (blockedOnlyBy blocking own) eqn:Eb.
      * exists more. split; [done|]. intros h' (f & rs & b & Hin & Hb)%Hmore.
        exists f, rs, b. split; [by right|done].
      * exists (h :: more). rewrite <- app_assoc in Hr. split; [done|].
        intros h' [->|(f & rs & b & Hin & Hb)%Hmore]%elem_of_cons.
        -- exists from, reason, blocking. split; [left|done].
        -- exists f, rs, b. split; [by right|done].
Qed.

(** A claim bound to a volume of this cluster, and the volume's handle. *)
Definition claim_of (clusterUUID : string) (c : PVC) (h : VolumeHandle) : Prop :=
  c_Phase c = ClaimBound /\ c_VolumeName c <> "" /\
  exists csi, get_pv (c_VolumeName c) = Ok (Some csi) /\ csi_Driver csi = csiDriver /\
    String.prefix (clusterUUID ++ ":") (csi_VolumeHandle csi) = true /\ h = csi_VolumeHandle csi.

Lemma handles_of_spec clusterUUID claims hs waiting :
  handles_of clusterUUID claims = Ok (hs, waiting) ->
  (forall h, h ∈ hs <-> exists c, c ∈ claims /\ claim_of clusterUUID c h) /\
  (waiting = false -> Forall (fun c => c_Phase c = ClaimBound /\ c_VolumeName c <> "") claims).
Proof.
  revert hs waiting. induction claims as [|c claims IH]; intros hs waiting; simpl.
  { intros [= <- <-]. split; [|by constructor]. intros h. split; [by intros ?%elem_of_nil|].
    by intros (c & ?%elem_of_nil & _). }
  assert (Hskip : forall hs' : list VolumeHandle, (forall h, h ∈ hs' <-> exists c', c' ∈ claims /\ claim_of clusterUUID c' h) ->
    (forall h, ~ claim_of clusterUUID c h) ->
    forall h, h ∈ hs' <-> exists c', c' ∈ (c :: claims) /\ claim_of clusterUUID c' h).
  { intros hs' Hin Hno h. rewrite Hin. split.
    - intros (c' & ? & ?). exists c'. split; [by right|done].
    - intros (c' & [->|?]%elem_of_cons & Hc); [by destruct (Hno h)|by exists c']. }
  destruct (String.eqb_spec (c_Phase c) ClaimBound) as [Ep|Ep]; simpl;
    [destruct (String.eqb_spec (c_VolumeName c) "") as [Ev|Ev]; simpl|].
  1, 3: destruct (handles_of clusterUUID claims) as [[hs' w']|]; [|done]; intros [= <- <-];
    destruct (IH hs' w' eq_refl) as [IH1 IH2]; (split; [|done]); apply Hskip; [done|];
    by intros h (? & ? & _).
  destruct (get_pv (c_VolumeName c)) as [pv|] eqn:Epv; [|done].
  destruct (handles_of clusterUUID claims) as [[hs' w']|]; [|done]. intros [= E].
  destruct (IH hs' w' eq_refl) as [IH1 IH2].
  assert (Hw : waiting = false -> Forall (fun c => c_Phase c = ClaimBound /\ c_VolumeName c <> "")
    (c :: claims)).
  { intros ->. constructor; [done|]. apply IH2. by repeat case_match; injection E. }
  split; [|exact Hw]. destruct pv as [csi|].
  2:{ injection E as <- <-. apply Hskip; [done|]. intros h (_ & _ & csi & Hc & _). congruence. }
  destruct (String.eqb_spec (csi_Driver csi) csiDriver) as [Ed|Ed]; simpl in E.
  2:{ injection E as <- <-. apply Hskip; [done|]. intros h (_ & _ & csi' & Hc & Hd & _). congruence. }
  destruct (String.prefix _ (csi_VolumeHandle csi)) eqn:Epre.
  2:{ injection E as <- <-. apply Hskip; [done|]. intros h (_ & _ & csi' & Hc & _ & Hp & _). congruence. }
  injection E as <- <-. intros h. rewrite elem_of_cons, IH1. split.
  - intros [->|(c' & ? & ?)]; [exists c; split; [left|]|exists c'; split; [by right|done]].
    split; [done|]. split; [done|]. by exists csi.
  - intros (c' & [->|?]%elem_of_cons & Hc); [left|right; by exists c'].
    destruct Hc as (_ & _ & csi' & Hc & _ & _ & ->). congruence.
Qed.

(** A pass asks to move volumes only for a group that is synchronous and primary on
    this site: the ones of this cluster's driver and backend that its claims are bound
    to, to this site, and allowing a forced promote exactly for a failover.  It
    stops coming back only once every claim the group selects is bound, there is at
    least one, and each of their volumes was answered moved; and it reports a
    refusal only when something other than the group's own volumes blocks it. *)
Theorem follow_moves_the_primary_group v site clusterUUID sel claims s :
  v_Sync v = true -> v_ReplicationState v = vrgPrimary ->
  stretchedSite = Ok (site, clusterUUID) -> site <> "" ->
  v_Selector v = Ok sel -> list_claims = Ok claims ->
  let selected := List.filter (fun c => sel (c_Labels c)) claims in
  let '(_, r, p) := Reconcile (Ok (Some v)) s in
  (forall a, a ∈ asked p ->
     (exists c, c ∈ selected /\ claim_of clusterUUID c (a_Volume a)) /\
     a_ToSite a = site /\ a_AllowForced a = String.eqb (v_Action v) vrgActionFailover) /\
  (r = Ok None -> selected <> [] /\
     Forall (fun c => c_Phase c = ClaimBound /\ c_VolumeName c <> "") selected /\
     forall c h, c ∈ selected -> claim_of clusterUUID c h ->
       exists a at_, a ∈ asked p /\ a_Volume a = h /\ a_Answer a = Ok (Moved at_)) /\
  (forall h, h ∈ reported p -> exists a from reason blocking, a ∈ asked p /\ a_Volume a = h /\
     a_Answer a = Ok (RefusedBy from reason blocking) /\
     forall volumes, handles_of clusterUUID selected = Ok volumes ->
       blockedOnlyBy blocking (own_id <$> volumes.1) = false).
Proof.
  intros Hsync Hprim Hsite Hne Hsel Hclaims selected. unfold Reconcile.
  rewrite Hsync, Hprim, Hsite, String.eqb_refl. simpl. destruct (String.eqb_spec site ""); [done|].
  unfold volumes. rewrite Hsel, Hclaims. fold selected.
  destruct (handles_of clusterUUID selected) as [[hs waiting]|err] eqn:Eh.
  2:{ split; [by intros a ?%elem_of_nil|]. split; [done|]. by intros h ?%elem_of_nil. }
  simpl. destruct (handles_of_spec _ _ _ _ Eh) as [Hhs Hwait].
  pose proof (move_all_spec site (String.eqb (v_Action v) vrgActionFailover) (own_id <$> hs) hs
    nothing_asked s) as Hspec.
  destruct (move_all site _ _ hs nothing_asked s) as [[s1 r1] p1].
  destruct Hspec as (done & Ha & Hpre & Hok & Hto & more & Hrep & Hmore). simpl in Ha, Hrep.
  assert (Hall : forall q, r1 = Ok q -> q = p1) by (by intros q (-> & _)%Hok).
  assert (Hasked : forall a, a ∈ asked p1 ->
     (exists c, c ∈ selected /\ claim_of clusterUUID c (a_Volume a)) /\
     a_ToSite a = site /\ a_AllowForced a = String.eqb (v_Action v) vrgActionFailover).
  { rewrite Ha. intros a Hin. split; [|by rewrite Forall_forall in Hto; apply Hto].
    apply Hhs. apply (list_elem_of_fmap_2 a_Volume) in Hin. destruct Hpre as [rest ->].
    apply elem_of_app. by left. }
  assert (Hreported : forall h, h ∈ reported p1 -> exists a from reason blocking, a ∈ asked p1 /\
     a_Volume a = h /\ a_Answer a = Ok (RefusedBy from reason blocking) /\
     forall volumes, Ok (E := string) (hs, waiting) = Ok volumes ->
       blockedOnlyBy blocking (own_id <$> volumes.1) = false).
  { rewrite Ha, Hrep. intros h (from & reason & blocking & Hin & Hb)%Hmore.
    eexists _, from, reason, blocking. split; [exact Hin|]. split; [done|]. split; [done|].
    by intros volumes [= <-]. }
  destruct r1 as [q|err]; [|by split; [|split]].
  destruct (Hok q eq_refl) as (-> & Hdone & Hpend). split; [done|]. split; [|done].
  destruct (pending p1); [done|]. destruct (proj1 Hpend eq_refl) as [_ Hmoved].
  destruct waiting; [done|]. simpl. destruct selected as [|c0 cs]; [done|]. simpl. intros _.
  split; [done|]. split; [by apply Hwait|]. intros c h Hc Hch.
  assert (Hin : h ∈ hs) by (apply Hhs; by exists c). rewrite <- Hdone in Hin.
  apply list_elem_of_fmap in Hin as (a & -> & Hin). rewrite Forall_forall in Hmoved.
  destruct (Hmoved a Hin) as [at_ Hat]. exists a, at_. by rewrite Ha.
Qed.

End Pass.

(** A database and its log on one store: the first is refused while the second is still
    served on the other site, which is not reported. *)
Definition group (action : string) : VRG := mkVRG true vrgPrimary action (Ok (fun _ => true)).
Definition claims : list PVC := [mkPVC ∅ ClaimBound "pv-db"; mkPVC ∅ ClaimBound "pv-log"].
Definition pv (name : string) : res string (option CSI) :=
  Ok (Some (mkCSI csiDriver ("cl:p:" ++ name))).

Definition mover (h : VolumeHandle) (site : string) (allowForced : bool) (asked : nat)
    : nat * res string response :=
  (S asked, Ok (if Nat.eqb asked 0 then RefusedBy "west" "still served" ["pv-log"] else Moved site)).

Lemma follow_moves_the_primary_group_witness :
  let '(_, r, p) := Reconcile (Ok [(Some "east", "cl")]) (Ok claims) pv mover
    (Ok (Some (group vrgActionFailover))) 1 in
  r = Ok None /\ forall a, a ∈ asked p -> a_ToSite a = "east" /\ a_AllowForced a = true.
Proof.
  pose proof (follow_moves_the_primary_group (Ok [(Some "east", "cl")]) (Ok claims) pv mover
    (group vrgActionFailover) "east" "cl" (fun _ => true) claims 1
    eq_refl eq_refl eq_refl ltac:(discriminate) eq_refl eq_refl) as H.
  cbv zeta in H.
  assert (Hr : (Reconcile (Ok [(Some "east", "cl")]) (Ok claims) pv mover
    (Ok (Some (group vrgActionFailover))) 1).1.2 = Ok None) by (by vm_compute).
  destruct (Reconcile _ _ _ _ _ _) as [[s r] p]. split; [exact Hr|].
  intros a Ha. destruct H as (H & _). by destruct (H a Ha) as (_ & ? & ?).
Defined.

Lemma own_blocking_is_not_reported :
  let '(_, r, p) := Reconcile (Ok [(Some "east", "cl")]) (Ok claims) pv mover
    (Ok (Some (group "Relocate"))) 0 in
  r = Ok (Some moveRequeueInterval) /\ reported p = [] /\ a_AllowForced <$> asked p = [false; false].
Proof. by vm_compute. Qed.

End Follow.
