(* ===== verification/DeviceOps.v ===== *)
(** The operations on one storage device
    ([operator/internal/controllers/node/storagedeviceops_controller.go] and
    [storagedeviceops_lock.go]).

    [Reconcile] is a pass of the reconciler as a program over its calls: reads of a
    cache, conditional writes to the API server, and the verbs of the control
    plane.  The server keeps every version of an operation and of a device; reads
    may lag behind it, a write that fails may have landed, passes may run at the
    same time and stop anywhere.  [step] is that system, for a [regime] that says
    which of these can happen. *)

From Stdlib Require Import Ascii String.
From S2P Require Import Prelude.
From S2P Require Import Programs.
From S2P Require Import StateMachine.
From S2P Require Import OpsGraphs.
From S2P Require Import GoStrings.

#[local] Open Scope string_scope.

Module DeviceOps.

(** ** Objects *)

Definition PhaseRunning : string := "Running".
Definition PhaseSucceeded : string := "Succeeded".
Definition PhaseFailed : string := "Failed".
Definition PhaseAborted : string := "Aborted".
Definition StepCompleted : string := "Completed".

(** [StorageDeviceOpsStatus]. *)
Record Status := mkStatus {
  Phase : string;
  Step : KubeSnapshot;
  DeviceStatusBefore : string;
  Message : string;
  ObservedGeneration : Z;
  StartedAt : option Time;
  CompletedAt : option Time;
}.

(** [StorageDeviceOps]. A version that was read is never 0. *)
Record Ops := mkOps {
  o_Namespace : string;
  o_Name : string;
  o_UID : string;
  o_ResourceVersion : nat;
  o_Generation : Z;
  o_Deleting : bool;
  o_Finalizers : list string;
  o_DeviceRef : string;
  o_Action : string;
  o_Abort : bool;
  o_Status : Status;
}.

(** A [StorageDevice], as far as its operations read it. *)
Record Device := mkDevice {
  d_Namespace : string;
  d_Name : string;
  d_ResourceVersion : nat;
  d_NodeRef : string;
  d_DeviceID : string;
  d_DeviceStatus : string;
  d_ClusterID : string;
  d_NodeID : string;
  d_ActiveOpsRef : string;
}.

Record Node := mkNode { n_Name : string; n_Remote : bool; n_Site : string }.

#[global] Instance KubeClaim_eq_dec : EqDecision KubeClaim.
Proof. solve_decision. Defined.
#[global] Instance KubeSnapshot_eq_dec : EqDecision KubeSnapshot.
Proof. solve_decision. Defined.
#[global] Instance Status_eq_dec : EqDecision Status.
Proof. solve_decision. Defined.

Definition ops_key (o : Ops) : string * string := (o_Namespace o, o_Name o).
Definition device_key (d : Device) : string * string := (d_Namespace d, d_Name d).

Definition with_status (o : Ops) (st : Status) : Ops :=
  mkOps (o_Namespace o) (o_Name o) (o_UID o) (o_ResourceVersion o) (o_Generation o) (o_Deleting o)
    (o_Finalizers o) (o_DeviceRef o) (o_Action o) (o_Abort o) st.
Definition with_version (o : Ops) (version : nat) : Ops :=
  mkOps (o_Namespace o) (o_Name o) (o_UID o) version (o_Generation o) (o_Deleting o)
    (o_Finalizers o) (o_DeviceRef o) (o_Action o) (o_Abort o) (o_Status o).
Definition with_finalizers (o : Ops) (fs : list string) : Ops :=
  mkOps (o_Namespace o) (o_Name o) (o_UID o) (o_ResourceVersion o) (o_Generation o) (o_Deleting o)
    fs (o_DeviceRef o) (o_Action o) (o_Abort o) (o_Status o).
Definition with_lock (d : Device) (holder : string) (version : nat) : Device :=
  mkDevice (d_Namespace d) (d_Name d) version (d_NodeRef d) (d_DeviceID d) (d_DeviceStatus d)
    (d_ClusterID d) (d_NodeID d) holder.

Definition with_step (st : Status) (step : KubeSnapshot) : Status :=
  mkStatus (Phase st) step (DeviceStatusBefore st) (Message st) (ObservedGeneration st)
    (StartedAt st) (CompletedAt st).
Definition with_before (st : Status) (before : string) : Status :=
  mkStatus (Phase st) (Step st) before (Message st) (ObservedGeneration st) (StartedAt st)
    (CompletedAt st).
Definition with_message (st : Status) (message : string) : Status :=
  mkStatus (Phase st) (Step st) (DeviceStatusBefore st) message (ObservedGeneration st)
    (StartedAt st) (CompletedAt st).
Definition with_generation (st : Status) (generation : Z) : Status :=
  mkStatus (Phase st) (Step st) (DeviceStatusBefore st) (Message st) generation (StartedAt st)
    (CompletedAt st).

Definition deviceOpsFinalizer : string := "storage.simplyblock.io/storagedeviceops-finalizer".
Definition deviceOpsRetry : Duration := (10 * Second)%Z.
Definition claimLease : Duration := Minute.

Definition cpDeviceOnline : string := "online".
Definition cpDeviceRemoved : string := "removed".
Definition cpDeviceFailed : string := "failed".
Definition cpDeviceFailedAndMigrated : string := "failed_and_migrated".

(** The phases an operation does not leave. *)
Definition terminal (phase : string) : bool :=
  String.eqb phase PhaseSucceeded || String.eqb phase PhaseFailed || String.eqb phase PhaseAborted.

(** ** Calls *)

(** The API server's errors, as its callers tell them apart. *)
Inductive api_error := NotFound | Conflict | Failure (cause : string).

(** The control plane's, of which [errs.ErrNotFound] is told apart. *)
Inductive cp_error := CpNotFound | CpFailure (cause : string).

(** What addresses a device on the control plane. *)
Record address := mkAddress { a_Cluster : string; a_Node : string; a_Device : string }.

(** A pass's calls.  Reads may be a cache's; the writes carry the version their
    object was read at.  [CheckHealth] answers the verdict and the reason. *)
Inductive call : Type -> Type :=
| GetOps (key : string * string) : call (res api_error Ops)
| GetDevice (key : string * string) : call (res api_error Device)
| GetNode (key : string * string) : call (res api_error Node)
| PatchOps (base new : Ops) : call (res api_error Ops)
| UpdateOps (new : Ops) : call (res api_error unit)
| PatchDevice (base new : Device) : call (res api_error Device)
| ReadDevice (a : address) : call (res cp_error string)
| RestartDevice (a : address) : call (res string unit)
| RemoveDevice (a : address) : call (res string unit)
| FailDevice (a : address) : call (res string unit)
| CheckHealth (d : Device) : call (res string (string * string))
| Now : call Time
| Event (warning : bool) (reason message : string) : call unit.

(** ** Errors of a pass *)

(** [deviceRefusal] ends the operation; the others are retried. *)
Inductive error :=
| Refusal (message : string)
| ErrApi (doing : string) (e : api_error)
| ErrCp (doing : string) (cause : string)
| ErrEnter (next : string) (e : merr string)
| ErrClaimNotStored
| ErrStep (step : string).

(** [ctrl.Result]: when to look again, if at all. *)
Abbreviation result := (option Duration).

(** The pass works on the operation it read. *)
Abbreviation act := (act call Ops error).

Section Pass.

(** Go's [%q]; how often [retry.DefaultRetry] tries again after the first attempt;
    the context of the pass; and whether a health monitor is running. *)
Context (Quote : string -> string) (DefaultRetry : nat) (ctx : Context) (monitored : bool).

Definition api {A} (doing : string) (c : call (res api_error A)) : act A :=
  r ← tell c;
  match r with
  | Ok x => ret x
  | Err e => raise (ErrApi doing e)
  end.

Definition event (warning : bool) (reason message : string) : act unit :=
  tell (Event warning reason message).

(** *** The status *)

(** One attempt of [writeStatus], and the attempts after a conflict: those read the
    operation again.  The version travels back with the status. *)
Definition write_once (reread : bool) (change : Status -> Status) (o : Ops)
    : prog call (Ops * res api_error unit) :=
  let patch (fresh : Ops) :=
    let st := with_generation (change (o_Status fresh)) (o_Generation fresh) in
    do r <- PatchOps fresh (with_status fresh st);
    match r with
    | Ok answered =>
        Ret (with_version (with_status o (o_Status answered)) (o_ResourceVersion answered), Ok ())
    | Err e => Ret (o, Err e)
    end in
  if reread then
    do r <- GetOps (ops_key o);
    match r with Ok fresh => patch fresh | Err e => Ret (o, Err e) end
  else patch o.

Fixpoint write_status (retries : nat) (reread : bool) (change : Status -> Status) (o : Ops)
    : prog call (Ops * res api_error unit) :=
  bind (write_once reread change o) (fun '(o, r) =>
    match r, retries with
    | Err Conflict, S retries => write_status retries true change o
    | _, _ => Ret (o, r)
    end).

Definition writeStatus (change : Status -> Status) : act unit := fun o =>
  bind (write_status DefaultRetry (Nat.eqb (o_ResourceVersion o) 0) change o) (fun '(o, r) =>
    match r with
    | Ok _ => Ret (o, Ok ())
    | Err e => Ret (o, Err (ErrApi "record the operation's status" e))
    end).

Definition note (message : string) : act unit :=
  o ← held;
  if String.eqb (Message (o_Status o)) message then ret ()
  else writeStatus (fun st => with_message st message).

(** *** The claim on a step *)

(** [stored]: the claim the API server answered with is the one that was written. *)
Definition stored (answered claimed : KubeSnapshot) : bool :=
  match kube_Claim answered, kube_Claim claimed with
  | None, None => true
  | Some got, Some want =>
      String.eqb (claim_State got) (claim_State want) &&
      Z.eqb (claim_Attempt got) (claim_Attempt want) &&
      Z.eqb (claim_LeaseUntil got / Second) (claim_LeaseUntil want / Second)
  | _, _ => false
  end.

(** [once]: [WithClaim] over [stepclaim.Writer]. The record that has to be there
    before the call goes with the claim; a pass that loses the claim makes no call. *)
Definition once (fire : act unit) (also : Status -> Status) : act bool :=
  o ← held;
  now ← tell Now;
  if claim_held (Step (o_Status o)) now then ret false
  else
    let claimed := claimed_snapshot (Step (o_Status o)) claimLease now in
    r ← tell (PatchOps o (with_status o (also (with_step (o_Status o) claimed))));
    match r with
    | Err Conflict => ret false
    | Err e => raise (ErrApi "" e)
    | Ok answered =>
        hold answered ≫= fun _ =>
        if stored (Step (o_Status answered)) claimed then fire ≫= fun _ => ret true
        else raise ErrClaimNotStored
    end.

(** *** The device's lock ([storagedeviceops_lock.go]) *)

Definition lockIsStale (namespace holder : string) : act bool :=
  r ← tell (GetOps (namespace, holder));
  match r with
  | Err NotFound => ret true
  | Err e => raise (ErrApi "read the operation holding the lock" e)
  | Ok running => ret (terminal (Phase (o_Status running)))
  end.

(** Whether the lock is held now, and the device as the attempt left it. *)
Definition acquireLock (device : Device) : act (bool * Device) :=
  o ← held;
  let holder := d_ActiveOpsRef device in
  if String.eqb holder (o_Name o) then ret (true, device)
  else
    takeable ← (if String.eqb holder "" then ret true else lockIsStale (o_Namespace o) holder);
    if negb takeable then ret (false, device)
    else
      let mine := with_lock device (o_Name o) (d_ResourceVersion device) in
      r ← tell (PatchDevice device mine);
      match r with
      | Ok answered => ret (true, answered)
      | Err Conflict => ret (false, mine)
      | Err e => raise (ErrApi ("take the lock on device " ++ d_Name device) e)
      end.

Definition releaseLock (device : Device) : act unit :=
  o ← held;
  r ← tell (GetDevice (device_key device));
  match r with
  | Err NotFound => ret ()
  | Err e => raise (ErrApi ("read device " ++ d_Name device ++ " to release it") e)
  | Ok fresh =>
      if negb (String.eqb (d_ActiveOpsRef fresh) (o_Name o)) then ret ()
      else
        _ ← api ("release the lock on device " ++ d_Name device)
              (PatchDevice fresh (with_lock fresh "" (d_ResourceVersion fresh)));
        ret ()
  end.

(** *** Words *)

Definition deviceTimeoutMessage (action step name : string) : string :=
  if String.eqb step Device.stepDeviceRemoving then
    "the control plane did not take device " ++ name ++ " out of the data path within " ++
      Duration_String Device.removingDeviceDeadline
  else if String.eqb step Device.stepDeviceFailing then
    "the control plane did not accept the failure of device " ++ name ++ " within " ++
      Duration_String Device.requestingDeviceDeadline
  else if String.eqb step Device.stepDeviceAwaiting then
    if String.eqb action Device.actionDeviceFail then
      "device " ++ name ++ " was not reported failed within " ++
        Duration_String Device.awaitingFailureDeadline ++ " of the control plane accepting it"
    else "device " ++ name ++ " did not come back within " ++
        Duration_String Device.awaitingDeviceDeadline ++ " of being restarted"
  else if String.eqb action Device.actionDeviceCheckHealth then
    "the health log of device " ++ name ++ " was not read within " ++
      Duration_String Device.requestingDeviceDeadline
  else "the control plane did not accept the restart of device " ++ name ++ " within " ++
      Duration_String Device.requestingDeviceDeadline.

(** [narrateDevice]: how an operation starts and how it succeeds. *)
Definition narrateDevice (action name : string) : string * string :=
  if String.eqb action Device.actionDeviceRestart then
    ("restarting device " ++ name, "device " ++ name ++ " was restarted and is back in service")
  else if String.eqb action Device.actionDeviceFail then
    ("failing device " ++ name, "device " ++ name ++ " was failed; the cluster is rebuilding the " ++
      "redundancy it held and has stopped reading from it")
  else if String.eqb action Device.actionDeviceCheckHealth then
    ("reading the health log of device " ++ name, "the health log of device " ++ name ++ " was read")
  else ("running " ++ action ++ " on device " ++ name, action ++ " finished on device " ++ name).

Definition deviceAbortRefusal (action : string) : string :=
  if String.eqb action Device.actionDeviceFail then
    "the device is out of the data path and this operator has no call that puts it back"
  else "the restart has been issued and nothing recalls one".

Definition deviceLostDuringWait (action : string) : string :=
  if String.eqb action Device.actionDeviceFail then
    "the failure it was asked to confirm cannot be"
  else "the restart did not bring it back".

Definition deviceIsInService (status : string) : bool := String.eqb status cpDeviceOnline.
Definition deviceIsFailed (status : string) : bool :=
  String.eqb status cpDeviceFailed || String.eqb status cpDeviceFailedAndMigrated.

Definition deviceReachedItsOutcome (action status : string) : bool :=
  if String.eqb action Device.actionDeviceFail then deviceIsFailed status
  else deviceIsInService status.

(** The machine's errors as [Restore] and [TransitionTo] spell them; [declared] are the
    graph's states, sorted. *)
Fixpoint merr_text (declared : list string) (e : merr string) : string :=
  match e with
  | ErrClosed Canceled => "statemachine: closed: context canceled"
  | ErrClosed DeadlineExceeded => "statemachine: closed: context deadline exceeded"
  | ErrReentrantTransition entering refused =>
      "statemachine: transition already in progress: entering " ++ entering ++
        ", refused restore of " ++ refused
  | ErrUnknownInitial s => "statemachine: unknown state: initial state " ++ s
  | ErrUnknownEdge from to => "statemachine: unknown state: " ++ from ++ " -> " ++ to
  | ErrUnknownCurrent s => "statemachine: unknown state: " ++ s
  | ErrUnknownRestored s =>
      "statemachine: unknown state: " ++ s ++ " (declared: " ++ String.concat ", " declared ++ ")"
  | IllegalTransitionError from to =>
      "statemachine: illegal transition " ++ from ++ " -> " ++ to
  | ErrEntering to from cause => "statemachine: entering " ++ to ++ " from " ++ from ++ ": " ++ cause
  | ErrUnknownAction action => "statemachine: unknown action: " ++ action
  | ErrInAction action cause => "action " ++ action ++ ": " ++ merr_text declared cause
  end.

(** *** How an operation ends *)

(** [target]: the device the operation names. *)
Definition target : act Device :=
  o ← held;
  r ← tell (GetDevice (o_Namespace o, o_DeviceRef o));
  match r with
  | Ok device => ret device
  | Err NotFound => raise (Refusal ("spec.deviceRef names StorageDevice " ++ Quote (o_DeviceRef o) ++
      " and there is none by that name in " ++ o_Namespace o))
  | Err e => raise (ErrApi "" e)
  end.

(** The status of an operation that ends. *)
Definition ended (phase : string) (step : KubeSnapshot -> KubeSnapshot) (message : string)
    (now : Time) (st : Status) : Status :=
  mkStatus phase (step (Step st)) (DeviceStatusBefore st) message (ObservedGeneration st)
    (StartedAt st) (Some now).

Definition without_deadline (step : KubeSnapshot) : KubeSnapshot :=
  mkKube (kube_State step) None (kube_Claim step).

Definition succeed (device : Device) : act unit :=
  _ ← releaseLock device;
  o ← held;
  let message :=
    if String.eqb (o_Action o) Device.actionDeviceCheckHealth &&
       negb (String.eqb (Message (o_Status o)) "") then Message (o_Status o)
    else (narrateDevice (o_Action o) (d_Name device)).2 in
  _ ← event false "OperationSucceeded" message;
  now ← tell Now;
  writeStatus (ended PhaseSucceeded (fun _ => mkKube StepCompleted None None) message now).

Definition abort (device : Device) (current : string) : act unit :=
  _ ← releaseLock device;
  let message := "aborted in step " ++ current ++ "; nothing had been issued" in
  _ ← event false "OperationAborted" message;
  now ← tell Now;
  writeStatus (ended PhaseAborted without_deadline message now).

(** [fail]: a release that fails is logged, and the failure is recorded either way. *)
Definition fail (message : string) : act unit :=
  found ← attempt target;
  _ ← match found with
      | Ok device => released ← attempt (E' := error) (releaseLock device); ret ()
      | Err _ => ret ()
      end;
  _ ← event true "OperationFailed" message;
  now ← tell Now;
  writeStatus (ended PhaseFailed without_deadline message now).

(** *** Steps *)

Definition deviceAddress (device : Device) : act address :=
  if String.eqb (d_ClusterID device) "" || String.eqb (d_NodeID device) "" ||
     String.eqb (d_DeviceID device) ""
  then raise (Refusal ("device " ++ d_Name device ++ " does not report which cluster, node, and " ++
    "device it is, so there is nothing to address the operation to"))
  else ret (mkAddress (d_ClusterID device) (d_NodeID device) (d_DeviceID device)).

(** A verb of the control plane, whose refusal ends the operation. *)
Definition verb (c : call (res string unit)) (refused : string) : act unit :=
  r ← tell c;
  match r with
  | Ok _ => ret ()
  | Err cause => raise (Refusal (refused ++ ": " ++ cause))
  end.

(** [request]: the restart, unless a record of it is there already. *)
Definition request (device : Device) : act bool :=
  o ← held;
  if negb (bool_decide (StartedAt (o_Status o) = None)) &&
     negb (String.eqb (DeviceStatusBefore (o_Status o)) "") then ret true
  else
    a ← deviceAddress device;
    claimed ← once
      (verb (RestartDevice a) ("the control plane refused to restart device " ++ d_Name device))
      (fun st => with_before st (d_DeviceStatus device));
    if negb claimed then ret false
    else
      _ ← event false "DeviceRestartRequested"
            ("asked the control plane to restart device " ++ d_Name device);
      ret true.

Definition removeFromDataPath (device : Device) : act bool :=
  a ← deviceAddress device;
  r ← tell (ReadDevice a);
  match r with
  | Err CpNotFound => raise (Refusal ("device " ++ d_Name device ++
      " is no longer held by the control plane, so there is nothing to fail"))
  | Err (CpFailure cause) => raise (ErrCp ("read device " ++ d_Name device ++ " before removing it") cause)
  | Ok status =>
      if deviceIsFailed status then
        raise (Refusal ("device " ++ d_Name device ++ " already reports " ++ Quote status ++
          ", so the failure this operation asks for has already happened"))
      else if String.eqb status cpDeviceRemoved then
        _ ← writeStatus (fun st => with_before st status);
        ret true
      else
        claimed ← once
          (verb (RemoveDevice a) ("the control plane refused to remove device " ++ d_Name device ++
            " from the data path"))
          (fun st => with_before st status);
        if negb claimed then ret false
        else
          _ ← event false "DeviceRemovalRequested"
                ("took device " ++ d_Name device ++ " out of the data path, before failing it");
          ret true
  end.

Definition requestFailure (device : Device) : act bool :=
  a ← deviceAddress device;
  r ← tell (ReadDevice a);
  match r with
  | Err CpNotFound => raise (Refusal ("device " ++ d_Name device ++
      " is no longer held by the control plane, so the failure cannot be issued against it"))
  | Err (CpFailure cause) => raise (ErrCp ("read device " ++ d_Name device ++ " before failing it") cause)
  | Ok status =>
      if deviceIsFailed status then ret true
      else if negb (String.eqb status cpDeviceRemoved) then
        raise (Refusal ("device " ++ d_Name device ++ " reports " ++ Quote status ++
          ", where the control plane fails only a device it already holds as removed"))
      else
        claimed ← once
          (verb (FailDevice a) ("the control plane refused to fail device " ++ d_Name device))
          (fun st => st);
        if negb claimed then ret false
        else
          _ ← event false "DeviceFailRequested"
                ("asked the control plane to fail device " ++ d_Name device);
          ret true
  end.

Definition await (device : Device) : act bool :=
  o ← held;
  a ← deviceAddress device;
  r ← tell (ReadDevice a);
  match r with
  | Err CpNotFound => raise (Refusal ("device " ++ d_Name device ++
      " is no longer held by the control plane, so " ++ deviceLostDuringWait (o_Action o)))
  | Err (CpFailure cause) => raise (ErrCp ("read device " ++ d_Name device ++ " back") cause)
  | Ok status =>
      if negb (deviceReachedItsOutcome (o_Action o) status) then
        _ ← note ("device " ++ d_Name device ++ " reports " ++ Quote status ++
              "; waiting for it to reach what the " ++ o_Action o ++ " asked for");
        ret false
      else ret true
  end.

Definition checkHealth (device : Device) : act bool :=
  if negb monitored then
    raise (Refusal ("no health monitor is running to read the health log of device " ++ d_Name device))
  else
    r ← tell (CheckHealth device);
    match r with
    | Err cause => raise (Refusal ("the health log of device " ++ d_Name device ++
        " could not be read: " ++ cause))
    | Ok (verdict, reason) =>
        _ ← note ("the health log of device " ++ d_Name device ++ " was read: " ++ verdict ++ ", " ++
              reason);
        ret true
    end.

Definition performStep (device : Device) (current : string) : act bool :=
  o ← held;
  if String.eqb current Device.stepDeviceRequesting then
    if String.eqb (o_Action o) Device.actionDeviceCheckHealth then checkHealth device
    else request device
  else if String.eqb current Device.stepDeviceRemoving then removeFromDataPath device
  else if String.eqb current Device.stepDeviceFailing then requestFailure device
  else if String.eqb current Device.stepDeviceAwaiting then await device
  else raise (ErrStep current).

(** *** The pass *)

(** [abortBlocked]: why an abort cannot be honored; empty when it can. *)
Definition abortBlocked (device : Device) (graphAllows : bool) : act string :=
  o ← held;
  if negb graphAllows then ret (deviceAbortRefusal (o_Action o))
  else if negb (String.eqb (o_Action o) Device.actionDeviceFail) then ret ""
  else
    addressed ← attempt (E' := error) (deviceAddress device);
    match addressed with
    | Err _ => ret ""
    | Ok a =>
        r ← tell (ReadDevice a);
        match r with
        | Err CpNotFound => ret ""
        | Err (CpFailure cause) =>
            raise (ErrCp ("read device " ++ d_Name device ++ " to decide the abort") cause)
        | Ok status =>
            if deviceIsInService status then ret ""
            else ret ("device " ++ d_Name device ++ " already reports " ++ Quote status ++
              ", so the removal has happened and this operator has no call that puts it back")
        end
    end.

(** The status of an operation that begins. *)
Definition begun (action initial message : string) (now : Time) (st : Status) : Status :=
  mkStatus PhaseRunning (Device.begin action initial (Step st) now) (DeviceStatusBefore st) message
    (ObservedGeneration st) (Some now) (CompletedAt st).

Definition begin (device : Device) (initial : string) : act result :=
  o ← held;
  now ← tell Now;
  let words := narrateDevice (o_Action o) (d_Name device) in
  _ ← event false "OperationStarted" words.1;
  _ ← writeStatus (begun (o_Action o) initial words.1 now);
  ret (Some deviceOpsRetry).

(** [enter]: the state and the deadline are written over what the step carried. *)
Definition entered (next : string) (deadline : option Time) (st : Status) : Status :=
  with_step st (mkKube next deadline (kube_Claim (Step st))).

Definition enter (next : string) (deadline : option Time) : act unit :=
  writeStatus (entered next deadline).

(** [nextDeviceStep]. *)
Definition nextDeviceStep {W} (machine : Machine string W) : option string :=
  head (AllowedTransitions machine).

(** What follows a step that is done. *)
Definition move_on (device : Device) (machine : Machine string Time) : act result :=
  if IsTerminal machine then
    _ ← succeed device;
    ret None
  else
    match nextDeviceStep machine with
    | None =>
        _ ← fail ("step " ++ CurrentState machine ++ " declares no successor and is not terminal");
        ret None
    | Some next =>
        now ← tell Now;
        match TransitionTo (fun t => t) machine now ctx next with
        | (machine, _, TransitionDone) =>
            _ ← enter next (kube_Deadline (ToKube (TakeSnapshot machine)));
            ret (Some deviceOpsRetry)
        | (_, _, TransitionErr err) => raise (ErrEnter next err)
        | (_, _, TransitionPanic) => raise (ErrStep next)
        end
    end.

(** The step the machine is in, once its deadline has been looked at. *)
Definition run_step (device : Device) (machine : Machine string Time) : act result :=
  o ← held;
  let current := CurrentState machine in
  now ← tell Now;
  if TimeoutReached machine now then
    let expired := deviceTimeoutMessage (o_Action o) current (d_Name device) in
    _ ← event true "StepDeadlineExceeded" expired;
    _ ← fail expired;
    ret None
  else
    done ← attempt (performStep device current);
    match done with
    | Err (Refusal message) => _ ← fail message; ret None
    | Err e => raise e
    | Ok false => ret (Some deviceOpsRetry)
    | Ok true => move_on device machine
    end.

Definition advance (device : Device) : act result :=
  o ← held;
  match Device.storageDeviceOpsGraphs (W := Time) !! o_Action o with
  | None =>
      _ ← fail ("action " ++ Quote (o_Action o) ++ " is not one this operator performs; it waits on " ++
            "a control-plane capability the v2 API does not offer");
      ret None
  | Some graph =>
      now ← tell Now;
      match NewFromSnapshot "" ctx graph (FromKube (Step (o_Status o))) now with
      | Err err =>
          _ ← fail ("the operation cannot be resumed: " ++ merr_text (DeclaredStates graph) err);
          ret None
      | Ok machine =>
          if String.eqb (kube_State (Step (o_Status o))) "" then begin device (CurrentState machine)
          else if o_Abort o then
            blocked ← abortBlocked device (CanAbort machine);
            if String.eqb blocked "" then
              _ ← abort device (CurrentState machine);
              ret None
            else
              _ ← event true "AbortRefused" ("the abort asked for in step " ++
                    CurrentState machine ++ " was refused: " ++ blocked);
              run_step device machine
          else run_step device machine
      end
  end.

(** [finalize]. *)
Definition finalize : act unit :=
  o ← held;
  if negb (contains (o_Finalizers o) deviceOpsFinalizer) then ret ()
  else
    found ← attempt target;
    _ ← match found with
        | Ok device => releaseLock device
        | Err _ => ret ()
        end;
    api "" (UpdateOps (with_finalizers o
      (List.filter (fun f => negb (String.eqb f deviceOpsFinalizer)) (o_Finalizers o)))).

(** [Reconcile], from the operation it read. *)
Definition reconcile : act result :=
  o ← held;
  if o_Deleting o then _ ← finalize; ret None
  else if negb (contains (o_Finalizers o) deviceOpsFinalizer) then
    _ ← api "" (UpdateOps (with_finalizers o (o_Finalizers o ++ [deviceOpsFinalizer])));
    ret None
  else if terminal (Phase (o_Status o)) then ret None
  else
    found ← attempt target;
    match found with
    | Err (Refusal message) => _ ← fail message; ret None
    | Err e => raise e
    | Ok device =>
        r ← tell (GetNode (d_Namespace device, d_NodeRef device));
        match r with
        | Err Conflict => raise (ErrApi "" Conflict)
        | Err (Failure cause) => raise (ErrApi "" (Failure cause))
        | Ok (mkNode name true site) =>
            _ ← fail ("RemoteNode: device " ++ d_Name device ++ " belongs to node " ++ name ++
                  " of site " ++ Quote site ++ " of the stretched cluster and is managed by that " ++
                  "site's operator; run the operation there");
            ret None
        | Err NotFound | Ok (mkNode _ false _) =>
            '(held_, device) ← acquireLock device;
            if negb held_ then
              _ ← note ("waiting for " ++ d_ActiveOpsRef device ++ " to finish with device " ++
                    d_Name device);
              ret (Some deviceOpsRetry)
            else advance device
        end
    end.

Definition Reconcile (key : string * string) : prog call (res error result) :=
  do r <- GetOps key;
  match r with
  | Err NotFound => Ret (Ok None)
  | Err e => Ret (Err (ErrApi "" e))
  | Ok o => bind (reconcile o) (fun '(_, r) => Ret r)
  end.

End Pass.

(** ** The API server *)

(** Every version of the objects, the latest first, [None] where one was deleted; the
    next revision; and whether the installed schema predates the claim, and prunes it. *)
Record World := mkWorld {
  operations : gmap (string * string) (list (option Ops));
  devices : gmap (string * string) (list (option Device));
  revision : nat;
  prunes : bool;
}.

Definition versions {A} (m : gmap (string * string) (list (option A))) (key : string * string)
    : list (option A) :=
  default [] (m !! key).

(** An object as it was so many versions ago. *)
Definition back {A} (n : nat) (m : gmap (string * string) (list (option A)))
    (key : string * string) : option A :=
  default None (versions m key !! n).

Abbreviation latest := (back 0).

Definition push {A} (key : string * string) (v : option A)
    (m : gmap (string * string) (list (option A))) : gmap (string * string) (list (option A)) :=
  <[key := v :: versions m key]> m.

Definition push_ops (w : World) (key : string * string) (v : option Ops) : World :=
  mkWorld (push key v (operations w)) (devices w) (S (revision w)) (prunes w).
Definition push_device (w : World) (key : string * string) (v : option Device) : World :=
  mkWorld (operations w) (push key v (devices w)) (S (revision w)) (prunes w).

Definition answer_read {A} (found : option A) : res api_error A :=
  match found with Some x => Ok x | None => Err NotFound end.

(** A status as the server keeps it. *)
Definition at_rest (pruned : bool) (st : Status) : Status :=
  mkStatus (Phase st)
    (mkKube (kube_State (Step st)) (floor_second <$> kube_Deadline (Step st))
      (if pruned then None
       else (fun c => mkClaim (claim_State c) (claim_Attempt c) (floor_second (claim_LeaseUntil c)))
              <$> kube_Claim (Step st)))
    (DeviceStatusBefore st) (Message st) (ObservedGeneration st)
    (floor_second <$> StartedAt st) (floor_second <$> CompletedAt st).

(** A status patch with the optimistic lock.  It is made from the version it is applied
    to, so it leaves the status [new] has; one that changes nothing makes no version. *)
Definition patch_ops (base new : Ops) (w : World) : World * res api_error Ops :=
  match latest (operations w) (ops_key base) with
  | None => (w, Err NotFound)
  | Some cur =>
      if Nat.eqb (o_ResourceVersion cur) (o_ResourceVersion base) then
        let st := at_rest (prunes w) (o_Status new) in
        if decide (st = o_Status cur) then (w, Ok cur)
        else
          let o := with_version (with_status cur st) (revision w) in
          (push_ops w (ops_key base) (Some o), Ok o)
      else (w, Err Conflict)
  end.

(** An update outside of the status, of which passes change the finalizers; the last one
    of a deleted object lets it go. *)
Definition update_ops (new : Ops) (w : World) : World * res api_error unit :=
  match latest (operations w) (ops_key new) with
  | None => (w, Err NotFound)
  | Some cur =>
      if Nat.eqb (o_ResourceVersion cur) (o_ResourceVersion new) then
        if o_Deleting cur && bool_decide (o_Finalizers new = []) then
          (push_ops w (ops_key new) None, Ok ())
        else
          (push_ops w (ops_key new)
             (Some (with_version (with_finalizers cur (o_Finalizers new)) (revision w))), Ok ())
      else (w, Err Conflict)
  end.

(** The status patch of a device, of which passes change the lock. *)
Definition patch_device (base new : Device) (w : World) : World * res api_error Device :=
  match latest (devices w) (device_key base) with
  | None => (w, Err NotFound)
  | Some cur =>
      if Nat.eqb (d_ResourceVersion cur) (d_ResourceVersion base) then
        if String.eqb (d_ActiveOpsRef new) (d_ActiveOpsRef cur) then (w, Ok cur)
        else
          let d := with_lock cur (d_ActiveOpsRef new) (revision w) in
          (push_device w (device_key base) (Some d), Ok d)
      else (w, Err Conflict)
  end.

(** How a call ends: it is served, a read from as many versions ago as the cache lags;
    it fails, having landed or not; or it is answered from outside of the API server. *)
Inductive choice :=
| Served (lag : nat)
| Lost (landed : bool) (cause : string)
| NodeIs (r : res api_error Node)
| Reports (r : res cp_error string)
| Obeys (r : res string unit)
| Logs (r : res string (string * string))
| At (t : Time)
| Recorded.

Definition write {A} (f : World -> World * res api_error A) (ch : choice) (w : World)
    : option (World * res api_error A) :=
  match ch with
  | Served _ => Some (f w)
  | Lost landed cause => Some (if landed then (f w).1 else w, Err (Failure cause))
  | _ => None
  end.

Definition lookup {A} (m : gmap (string * string) (list (option A))) (key : string * string)
    (ch : choice) (w : World) : option (World * res api_error A) :=
  match ch with
  | Served lag => Some (w, answer_read (back lag m key))
  | Lost _ cause => Some (w, Err (Failure cause))
  | _ => None
  end.

Definition serve {X} (c : call X) (ch : choice) (w : World) : option (World * X) :=
  match c in call X return option (World * X) with
  | GetOps key => lookup (operations w) key ch w
  | GetDevice key => lookup (devices w) key ch w
  | GetNode key => match ch with NodeIs r => Some (w, r) | _ => None end
  | PatchOps base new => write (patch_ops base new) ch w
  | UpdateOps new => write (update_ops new) ch w
  | PatchDevice base new => write (patch_device base new) ch w
  | ReadDevice a => match ch with Reports r => Some (w, r) | _ => None end
  | RestartDevice a => match ch with Obeys r => Some (w, r) | _ => None end
  | RemoveDevice a => match ch with Obeys r => Some (w, r) | _ => None end
  | FailDevice a => match ch with Obeys r => Some (w, r) | _ => None end
  | CheckHealth d => match ch with Logs r => Some (w, r) | _ => None end
  | Now => match ch with At t => Some (w, t) | _ => None end
  | Event _ _ _ => match ch with Recorded => Some (w, ()) | _ => None end
  end.

(** *** Everybody else *)

(** What users and the mirror of the devices do: create, abort and delete operations,
    describe devices, install the new schema. *)
Inductive edit :=
| CreateOps (o : Ops)
| SetAbort (key : string * string) (abort : bool) (generation : Z)
| DeleteOps (key : string * string)
| CreateDevice (d : Device)
| Mirror (d : Device)
| DeleteDevice (key : string * string)
| UpgradeCRDs.

Definition zero_status : Status := mkStatus "" (mkKube "" None None) "" "" 0 None None.

(** Every version of every operation. *)
Definition all_versions (w : World) : list Ops :=
  kv ← map_to_list (operations w); v ← kv.2; match v with Some o => [o] | None => [] end.

(** Whether an object can be created: there is none, and, unless names are used again,
    there never was. *)
Definition free {A} (reusing : bool) (m : gmap (string * string) (list (option A)))
    (key : string * string) : bool :=
  bool_decide (latest m key = None) && (reusing || bool_decide (versions m key = [])).

Definition apply_edit (reusing : bool) (e : edit) (w : World) : option World :=
  match e with
  | CreateOps o =>
      if free reusing (operations w) (ops_key o) && negb (String.eqb (o_Name o) "") &&
         forallb (fun v => negb (String.eqb (o_UID v) (o_UID o))) (all_versions w)
      then Some (push_ops w (ops_key o) (Some (mkOps (o_Namespace o) (o_Name o) (o_UID o) (revision w)
        1 false (o_Finalizers o) (o_DeviceRef o) (o_Action o) (o_Abort o) zero_status)))
      else None
  | SetAbort key abort generation =>
      match latest (operations w) key with
      | Some o => Some (push_ops w key (Some (mkOps (o_Namespace o) (o_Name o) (o_UID o) (revision w)
          generation (o_Deleting o) (o_Finalizers o) (o_DeviceRef o) (o_Action o) abort (o_Status o))))
      | None => None
      end
  | DeleteOps key =>
      match latest (operations w) key with
      | Some o => Some (push_ops w key
          (if bool_decide (o_Finalizers o = []) then None
           else Some (mkOps (o_Namespace o) (o_Name o) (o_UID o) (revision w) (o_Generation o) true
             (o_Finalizers o) (o_DeviceRef o) (o_Action o) (o_Abort o) (o_Status o))))
      | None => None
      end
  | CreateDevice d =>
      if free reusing (devices w) (device_key d)
      then Some (push_device w (device_key d) (Some (with_lock d "" (revision w)))) else None
  | Mirror d =>
      match latest (devices w) (device_key d) with
      | Some cur => Some (push_device w (device_key d) (Some (with_lock d (d_ActiveOpsRef cur) (revision w))))
      | None => None
      end
  | DeleteDevice key =>
      match latest (devices w) key with
      | Some _ => Some (push_device w key None)
      | None => None
      end
  | UpgradeCRDs => Some (mkWorld (operations w) (devices w) (revision w) false)
  end.

(** ** Passes at the same time *)

(** What is recorded of a verb: for which operation it was issued, as its pass first read
    it, and who held the lock of that operation's device then; [None] when there was no
    such device. *)
Inductive verb_kind := Restarts | Removes | Fails.

#[global] Instance verb_kind_eq_dec : EqDecision verb_kind.
Proof. solve_decision. Defined.

Record issue := mkIssue {
  i_ops : Ops;
  i_verb : verb_kind;
  i_address : address;
  i_holder : option string;
}.

Definition verb_of {X} (c : call X) : option (verb_kind * address) :=
  match c with
  | RestartDevice a => Some (Restarts, a)
  | RemoveDevice a => Some (Removes, a)
  | FailDevice a => Some (Fails, a)
  | _ => None
  end.

(** A pass under way: the operation it is for, as it first read it, and what is left. *)
Record thread := mkThread {
  t_key : string * string;
  t_read : option Ops;
  t_code : prog call (res error result);
}.

Definition finished (t : thread) : bool :=
  match t_code t with Ret _ => true | Vis _ _ => false end.

Definition note_read {X} (o : option Ops) (c : call X) : X -> option Ops :=
  match o with
  | Some o => fun _ => Some o
  | None =>
      match c in call X return X -> option Ops with
      | GetOps _ => fun r => match r with Ok o => Some o | Err _ => None end
      | _ => fun _ => None
      end
  end.

Record System := mkSystem {
  world : World;
  threads : list thread;
  issues : list issue;
}.

(** Which of the difficulties there are: caches that lag, passes of one operation at the
    same time, names that are used again. *)
Record Regime := mkRegime { lagging : bool; overlapping : bool; reusing : bool }.

Inductive turn :=
| Edits (e : edit)
| Starts (key : string * string)
| Calls (i : nat) (ch : choice)
| Stops (i : nat).

Definition admissible (g : Regime) (ch : choice) : bool :=
  match ch with Served (S _) => lagging g | _ => true end.

Definition issue_of {X} (c : call X) (o : option Ops) (w : World) : list issue :=
  match verb_of c, o with
  | Some (v, a), Some o =>
      [mkIssue o v a (d_ActiveOpsRef <$> latest (devices w) (o_Namespace o, o_DeviceRef o))]
  | _, _ => []
  end.

Section Interleaved.

Context (Quote : string -> string) (DefaultRetry : nat) (ctx : Context) (monitored : bool).
Context (g : Regime).

Abbreviation Reconcile := (Reconcile Quote DefaultRetry ctx monitored).

Definition take (s : System) (t : turn) : option System :=
  match t with
  | Edits e =>
      match apply_edit (reusing g) e (world s) with
      | Some w => Some (mkSystem w (threads s) (issues s))
      | None => None
      end
  | Starts key =>
      if overlapping g || forallb (fun t => finished t || negb (bool_decide (t_key t = key))) (threads s)
      then Some (mkSystem (world s) (threads s ++ [mkThread key None (Reconcile key)]) (issues s))
      else None
  | Calls i ch =>
      match threads s !! i with
      | Some (mkThread key o (Vis c k)) =>
          if admissible g ch then
            match serve c ch (world s) with
            | Some (w, x) =>
                Some (mkSystem w (<[i := mkThread key (note_read o c x) (k x)]> (threads s))
                  (issues s ++ issue_of c o (world s)))
            | None => None
            end
          else None
      | _ => None
      end
  | Stops i =>
      match threads s !! i with
      | Some (mkThread key o _) =>
          Some (mkSystem (world s) (<[i := mkThread key o (Ret (Ok None))]> (threads s)) (issues s))
      | None => None
      end
  end.

Definition step (s s' : System) : Prop := exists t, take s t = Some s'.

Definition empty (pruning : bool) : System := mkSystem (mkWorld ∅ ∅ 1 pruning) [] [].

Definition reachable (s : System) : Prop := exists pruning, rtc step (empty pruning) s.

(** A schedule, taken. *)
Fixpoint play (s : System) (schedule : list turn) : option System :=
  match schedule with
  | [] => Some s
  | t :: schedule => match take s t with Some s => play s schedule | None => None end
  end.

Lemma play_taken schedule s s' : play s schedule = Some s' -> rtc step s s'.
Proof.
  revert s. induction schedule as [|t schedule IH]; simpl; intros s; [intros [= ->]; constructor|].
  destruct (take s t) as [s1|] eqn:E; [|done]. intros H. econstructor; [by exists t|]. by apply IH.
Qed.

End Interleaved.

(** ** Versions *)

Section Versions.

Context {A : Type} (key_of : A -> string * string) (version : A -> nat).

(** The versions of an object are its own, and older ones have smaller numbers. *)
Definition ordered (next : nat) (m : gmap (string * string) (list (option A))) : Prop :=
  forall key i o, versions m key !! i = Some (Some o) ->
    key_of o = key /\ version o < next /\
    forall j o', i < j -> versions m key !! j = Some (Some o') -> version o' < version o.

Lemma versions_push (key : string * string) (v : option A) (m : gmap (string * string) (list (option A))) (key' : string * string) :
  versions (push key v m) key' = if decide (key = key') then v :: versions m key' else versions m key'.
Proof.
  unfold versions, push. destruct (decide (key = key')) as [<-|Hne].
  - by rewrite lookup_insert_eq.
  - by rewrite lookup_insert_ne.
Qed.

Lemma back_Some n m key (o : A) : back n m key = Some o <-> versions m key !! n = Some (Some o).
Proof.
  unfold back. destruct (versions m key !! n) as [[o'|]|]; simpl; split; congruence.
Qed.

Lemma back_in n m key (o : A) : back n m key = Some o -> Some o ∈ versions m key.
Proof. intros H%back_Some. by eapply list_elem_of_lookup_2. Qed.

Lemma latest_push (key : string * string) (v : option A) (m : gmap (string * string) (list (option A))) (key' : string * string) :
  latest (push key v m) key' = if decide (key = key') then v else latest m key'.
Proof. unfold back. rewrite versions_push. by case_decide. Qed.

Lemma ordered_empty next : ordered next ∅.
Proof. by intros key i o. Qed.

Lemma ordered_push next m key v :
  ordered next m -> (forall o, v = Some o -> key_of o = key /\ version o = next) ->
  ordered (S next) (push key v m).
Proof.
  intros Hm Hv key' i o. rewrite versions_push. case_decide as Hk; [subst key'|].
  - destruct i as [|i]; simpl.
    + intros [= ->]. destruct (Hv o eq_refl) as [Hk Hn]. split; [done|]. split; [lia|].
      intros [|j] o' Hj Ho'; [lia|]. apply Hm in Ho' as (_ & Hlt & _). lia.
    + intros Ho. destruct (Hm key i o Ho) as (Hk & Hlt & Hold). split; [done|]. split; [lia|].
      intros [|j] o' Hj Ho'; [lia|]. apply (Hold j); [lia|done].
  - intros Ho. destruct (Hm key' i o Ho) as (Hk' & Hlt & Hold). split; [done|]. split; [lia|done].
Qed.

Lemma ordered_weaken next m : ordered next m -> ordered (S next) m.
Proof.
  intros Hm key i o Ho. destruct (Hm key i o Ho) as (Hk & Hlt & Hold). split; [done|].
  split; [lia|done].
Qed.

(** A version with the number of the latest one is the latest one. *)
Lemma ordered_latest next m key cur o :
  ordered next m -> latest m key = Some cur -> Some o ∈ versions m key ->
  version o = version cur -> o = cur.
Proof.
  intros Hm Hcur%back_Some Ho Hv. apply list_elem_of_lookup_1 in Ho as [i Hi].
  destruct i as [|i]; [congruence|].
  destruct (Hm key 0 cur Hcur) as (_ & _ & Hold). specialize (Hold (S i) o ltac:(lia) Hi). lia.
Qed.

Lemma ordered_key next m key o : ordered next m -> Some o ∈ versions m key -> key_of o = key.
Proof. intros Hm [i Hi]%list_elem_of_lookup_1. by apply Hm in Hi as [? _]. Qed.

End Versions.

(** *** The server keeps its objects *)

Record world_ok (w : World) : Prop := {
  ops_ordered : ordered ops_key o_ResourceVersion (revision w) (operations w);
  devices_ordered : ordered device_key d_ResourceVersion (revision w) (devices w);
  ops_uid key key' o o' : Some o ∈ versions (operations w) key ->
    Some o' ∈ versions (operations w) key' -> o_UID o = o_UID o' -> key = key';
}.

Lemma version_key w key o :
  world_ok w -> Some o ∈ versions (operations w) key -> ops_key o = key.
Proof. intros Hw. apply (ordered_key ops_key _ _ _ _ _ (ops_ordered _ Hw)). Qed.

Lemma device_version_key w key d :
  world_ok w -> Some d ∈ versions (devices w) key -> device_key d = key.
Proof. intros Hw. apply (ordered_key device_key _ _ _ _ _ (devices_ordered _ Hw)). Qed.

(** Versions are only added. *)
Definition grows (w w' : World) : Prop :=
  (forall key v, v ∈ versions (operations w) key -> v ∈ versions (operations w') key) /\
  (forall key v, v ∈ versions (devices w) key -> v ∈ versions (devices w') key).

Lemma grows_refl w : grows w w.
Proof. by split. Qed.

Lemma grows_push_ops w key v : grows w (push_ops w key v).
Proof.
  split; [|done]. intros key' v'. simpl. rewrite versions_push. case_decide; [|done].
  subst. by right.
Qed.

Lemma grows_push_device w key v : grows w (push_device w key v).
Proof.
  split; [done|]. intros key' v'. simpl. rewrite versions_push. case_decide; [|done].
  subst. by right.
Qed.

#[export] Hint Resolve grows_refl grows_push_ops grows_push_device : core.

Lemma latest_in {A} (m : gmap (string * string) (list (option A))) key x :
  latest m key = Some x -> Some x ∈ versions m key.
Proof. apply back_in. Qed.

Lemma world_ok_push_device w key v :
  world_ok w -> (forall d, v = Some d -> device_key d = key /\ d_ResourceVersion d = revision w) ->
  world_ok (push_device w key v).
Proof.
  intros [Ho Hd Hu] Hv. constructor; simpl; [by apply ordered_weaken|by apply ordered_push|done..].
Qed.

(** A new version of an operation continues the one before, or has a UID of its own. *)
Lemma world_ok_push_ops w key v :
  world_ok w ->
  (forall o, v = Some o -> ops_key o = key /\ o_ResourceVersion o = revision w /\
     ((exists o', Some o' ∈ versions (operations w) key /\ o_UID o' = o_UID o) \/
      forall key' o', Some o' ∈ versions (operations w) key' -> o_UID o' <> o_UID o)) ->
  world_ok (push_ops w key v).
Proof.
  intros [Ho Hd Hu] Hv. constructor; simpl.
  - apply ordered_push; [done|]. intros o E. by destruct (Hv o E) as (? & ? & _).
  - by apply ordered_weaken.
  - assert (Hnew : forall o key' o', v = Some o -> Some o' ∈ versions (operations w) key' ->
      o_UID o = o_UID o' -> key = key').
    { intros o key' o' E Hin' Heq. destruct (Hv o E) as (_ & _ & [(o1 & Hin1 & Hu1)|Hfresh]).
      - eapply Hu; [exact Hin1|exact Hin'|congruence].
      - by destruct (Hfresh key' o' Hin'). }
    intros key1 key2 o1 o2. rewrite !versions_push.
    repeat case_decide; subst; rewrite ?elem_of_cons; [done| | |by apply Hu].
    + intros [E|Hin] Hin2 Heq; [by eapply Hnew|by eapply Hu].
    + intros Hin1 [E|Hin] Heq; [symmetry; eapply Hnew; [done..|]; congruence|by eapply Hu].
Qed.

Lemma latest_known w b cur :
  world_ok w -> latest (operations w) (ops_key b) = Some cur ->
  Some b ∈ versions (operations w) (ops_key b) -> o_ResourceVersion cur = o_ResourceVersion b ->
  cur = b.
Proof. intros Hw Hcur Hin Hv. symmetry. by eapply ordered_latest; [apply Hw| | |]. Qed.

(** What becomes of a status patch made from a version the server knows. *)
Lemma patch_ops_spec w w' base new r b :
  world_ok w -> Some b ∈ versions (operations w) (ops_key b) ->
  o_ResourceVersion b = o_ResourceVersion base -> ops_key b = ops_key base ->
  patch_ops base new w = (w', r) ->
  (w' = w /\ exists e, r = Err e) \/
  latest (operations w) (ops_key b) = Some b /\
  exists o, r = Ok o /\ o_Status o = at_rest (prunes w) (o_Status new) /\
    ops_key o = ops_key b /\ o_UID o = o_UID b /\ o_Action o = o_Action b /\
    o_Finalizers o = o_Finalizers b /\ o_DeviceRef o = o_DeviceRef b /\
    ((w' = w /\ o = b) \/
     (w' = push_ops w (ops_key b) (Some o) /\ o_ResourceVersion o = revision w)).
Proof.
  intros Hw Hin Hv Hk. unfold patch_ops. rewrite <- Hk.
  destruct (latest (operations w) (ops_key b)) as [cur|] eqn:Hcur; [|intros [= <- <-]; eauto].
  destruct (Nat.eqb_spec (o_ResourceVersion cur) (o_ResourceVersion base)) as [E|E];
    [|intros [= <- <-]; eauto].
  assert (cur = b) as -> by (apply (latest_known w); congruence).
  destruct (decide _) as [Hst|Hst]; intros [= <- <-]; right; (split; [done|]).
  - exists b. repeat split; auto.
  - eexists. split; [reflexivity|]. repeat split. right. by split.
Qed.

Lemma update_ops_spec w w' new r :
  world_ok w -> update_ops new w = (w', r) ->
  w' = w \/
  exists cur v, latest (operations w) (ops_key new) = Some cur /\
    o_ResourceVersion cur = o_ResourceVersion new /\ w' = push_ops w (ops_key new) v /\
    ((v = None /\ o_Deleting cur = true /\ o_Finalizers new = []) \/
     v = Some (with_version (with_finalizers cur (o_Finalizers new)) (revision w))).
Proof.
  intros Hw. unfold update_ops.
  destruct (latest (operations w) (ops_key new)) as [cur|] eqn:Hcur; [|intros [= <- <-]; by left].
  destruct (Nat.eqb_spec (o_ResourceVersion cur) (o_ResourceVersion new)) as [E|E];
    [|intros [= <- <-]; by left].
  destruct (o_Deleting cur && bool_decide (o_Finalizers new = [])) eqn:Ed; intros [= <- <-]; right;
    exists cur; eexists; (split; [done|]); (split; [done|]); (split; [reflexivity|]).
  - apply andb_true_iff in Ed as [? ?%bool_decide_eq_true]. by left.
  - by right.
Qed.

Lemma patch_device_spec w w' base new r :
  world_ok w -> patch_device base new w = (w', r) ->
  (w' = w /\
    match r with Ok d => latest (devices w) (device_key base) = Some d /\
      d_ResourceVersion d = d_ResourceVersion base /\ d_ActiveOpsRef d = d_ActiveOpsRef new
    | Err _ => True end) \/
  exists cur, latest (devices w) (device_key base) = Some cur /\
    d_ResourceVersion cur = d_ResourceVersion base /\
    w' = push_device w (device_key base) (Some (with_lock cur (d_ActiveOpsRef new) (revision w))) /\
    r = Ok (with_lock cur (d_ActiveOpsRef new) (revision w)).
Proof.
  intros Hw. unfold patch_device.
  destruct (latest (devices w) (device_key base)) as [cur|] eqn:Hcur; [|intros [= <- <-]; by left].
  destruct (Nat.eqb_spec (d_ResourceVersion cur) (d_ResourceVersion base)) as [E|E];
    [|intros [= <- <-]; by left].
  destruct (String.eqb_spec (d_ActiveOpsRef new) (d_ActiveOpsRef cur)); intros [= <- <-].
  - left. auto.
  - right. by exists cur.
Qed.

(** What a write does to the world, whether or not its answer arrives. *)
Lemma write_spec {A} (f : World -> World * res api_error A) ch w w' x :
  write f ch w = Some (w', x) ->
  exists r, ((w', r) = f w \/ w' = w /\ exists e, r = Err e) /\
    (x = r \/ exists cause, x = Err (Failure cause)).
Proof.
  destruct ch; simpl; try done.
  - intros [= E]. exists x. split; left; by rewrite ?E.
  - destruct landed; intros [= <- <-].
    + exists (f w).2. split; [left; by destruct (f w)|right; eauto].
    + exists (Err (Failure cause)). split; [right; eauto|left; done].
Qed.

Lemma lookup_spec {A} (m : gmap (string * string) (list (option A))) key ch w w' x :
  lookup m key ch w = Some (w', x) ->
  w' = w /\ forall o, x = Ok o -> Some o ∈ versions m key.
Proof.
  destruct ch; simpl; try done; intros [= <- <-]; split; try done.
  intros o. unfold answer_read. destruct (back lag m key) eqn:E; [|done]. intros [= <-].
  by eapply back_in.
Qed.

Lemma update_ops_world w w' new r :
  world_ok w -> update_ops new w = (w', r) -> world_ok w' /\ grows w w'.
Proof.
  intros Hw H. destruct (update_ops_spec w w' new r Hw H) as [->|(cur & v & Hcur & _ & -> & Hv)];
    [done|]. split; [|done]. apply world_ok_push_ops; [done|]. intros o ->.
  destruct Hv as [[? _]|[= ->]]; [done|]. apply latest_in in Hcur as Hin. simpl.
  split; [exact (version_key w _ cur Hw Hin)|]. split; [done|].
  left. by exists cur.
Qed.

Lemma patch_device_world w w' base new r :
  world_ok w -> patch_device base new w = (w', r) -> world_ok w' /\ grows w w'.
Proof.
  intros Hw H. destruct (patch_device_spec w w' base new r Hw H)
    as [[-> _]|(cur & Hcur & _ & -> & _)]; [done|]. split; [|done].
  apply world_ok_push_device; [done|]. intros d [= <-]. split; [|done].
  apply latest_in in Hcur. exact (device_version_key w _ cur Hw Hcur).
Qed.

Lemma patch_ops_world w w' base new r b :
  world_ok w -> Some b ∈ versions (operations w) (ops_key b) ->
  o_ResourceVersion b = o_ResourceVersion base -> ops_key b = ops_key base ->
  patch_ops base new w = (w', r) -> world_ok w' /\ grows w w'.
Proof.
  intros Hw Hin Hv Hk H.
  destruct (patch_ops_spec w w' base new r b Hw Hin Hv Hk H)
    as [[-> _]|(Hcur & o & _ & Hst & Hko & Hu & _ & _ & _ & [[-> _]|[-> Hrv]])]; [done..|].
  split; [|done]. apply world_ok_push_ops; [done|]. intros o' [= <-]. split; [done|].
  split; [done|]. left. by exists b.
Qed.

Lemma all_versions_in w key o : Some o ∈ versions (operations w) key -> o ∈ all_versions w.
Proof.
  intros Hin. unfold all_versions. unfold versions in Hin.
  destruct (operations w !! key) as [l|] eqn:E; simpl in Hin; [|by apply elem_of_nil in Hin].
  apply list_elem_of_bind. exists (key, l). split; [|by apply elem_of_map_to_list].
  apply list_elem_of_bind. exists (Some o). split; [by left|done].
Qed.

Lemma fresh_uid w o key o' :
  forallb (fun v => negb (String.eqb (o_UID v) (o_UID o))) (all_versions w) = true ->
  Some o' ∈ versions (operations w) key -> o_UID o' <> o_UID o.
Proof.
  intros Hfresh Hin%all_versions_in. rewrite forallb_forall in Hfresh.
  by apply list_elem_of_In, Hfresh, negb_true_iff, String.eqb_neq in Hin.
Qed.

Lemma apply_edit_world reusing e w w' :
  world_ok w -> apply_edit reusing e w = Some w' -> world_ok w'.
Proof.
  intros Hw. destruct e as [o|key abort generation|key|d|d|key|]; simpl.
  - destruct (_ && _) eqn:E; [|done]. apply andb_true_iff in E as [_ Hfresh]. intros [= <-].
    apply world_ok_push_ops; [done|]. intros o' [= <-]. repeat split. right.
    intros key' o1. by apply fresh_uid.
  - destruct (latest (operations w) key) as [o|] eqn:Ho; [|done]. intros [= <-].
    apply latest_in in Ho as Hin. apply world_ok_push_ops; [done|]. intros o' [= <-].
    split; [exact (version_key w key o Hw Hin)|]. split; [done|]. left. by exists o.
  - destruct (latest (operations w) key) as [o|] eqn:Ho; [|done]. intros [= <-].
    apply latest_in in Ho as Hin. apply world_ok_push_ops; [done|]. intros o'.
    case_bool_decide; [done|]. intros [= <-].
    split; [exact (version_key w key o Hw Hin)|]. split; [done|]. left. by exists o.
  - destruct (free _ _ _); [|done]. intros [= <-]. apply world_ok_push_device; [done|].
    by intros d' [= <-].
  - destruct (latest (devices w) (device_key d)) as [cur|]; [|done]. intros [= <-].
    apply world_ok_push_device; [done|]. by intros d' [= <-].
  - destruct (latest (devices w) key); [|done]. intros [= <-]. by apply world_ok_push_device.
  - intros [= <-]. by destruct Hw.
Qed.

Lemma serve_grows {X} (c : call X) ch w w' x : serve c ch w = Some (w', x) -> grows w w'.
Proof.
  assert (Hops : forall base new r, (w', r) = patch_ops base new w -> grows w w').
  { intros base new r. unfold patch_ops. destruct (latest (operations w) (ops_key base)); [|by intros [= ->]].
    destruct (Nat.eqb _ _); [|by intros [= ->]]. destruct (decide _); by intros [= ->]. }
  assert (Hupd : forall new r, (w', r) = update_ops new w -> grows w w').
  { intros new r. unfold update_ops. destruct (latest (operations w) (ops_key new)); [|by intros [= ->]].
    destruct (Nat.eqb _ _); [|by intros [= ->]]. destruct (_ && _); by intros [= ->]. }
  assert (Hdev : forall base new r, (w', r) = patch_device base new w -> grows w w').
  { intros base new r. unfold patch_device.
    destruct (latest (devices w) (device_key base)); [|by intros [= ->]].
    destruct (Nat.eqb _ _); [|by intros [= ->]]. destruct (String.eqb _ _); by intros [= ->]. }
  destruct c; simpl; try (by intros [-> _]%lookup_spec);
    try (intros (r & [Hr|[-> _]] & _)%write_spec; [by eauto|done]);
    by destruct ch; try done; intros [= <- _].
Qed.

Lemma apply_edit_grows reusing e w w' : apply_edit reusing e w = Some w' -> grows w w'.
Proof.
  destruct e as [o|key abort generation|key|d|d|key|]; simpl.
  - destruct (_ && _); [|done]. by intros [= <-].
  - destruct (latest (operations w) key); [|done]. by intros [= <-].
  - destruct (latest (operations w) key); [|done]. by intros [= <-].
  - destruct (free _ _ _); [|done]. by intros [= <-].
  - destruct (latest (devices w) (device_key d)); [|done]. by intros [= <-].
  - destruct (latest (devices w) key); [|done]. by intros [= <-].
  - by intros [= <-].
Qed.

Section Growth.

Context (Quote : string -> string) (DefaultRetry : nat) (ctx : Context) (monitored : bool).
Context (g : Regime).

Lemma take_grows s t s' :
  take Quote DefaultRetry ctx monitored g s t = Some s' -> grows (world s) (world s').
Proof.
  destruct t as [e|key|i ch|i]; simpl.
  - destruct (apply_edit _ _ _) eqn:He; [|done]. intros [= <-]. by eapply apply_edit_grows.
  - destruct (_ || _); [|done]. by intros [= <-].
  - destruct (threads s !! i) as [[key o [x|X c k]]|]; try done. destruct (admissible g ch); [|done].
    destruct (serve c ch (world s)) as [[w x]|] eqn:Hs; [|done]. intros [= <-]. by eapply serve_grows.
  - destruct (threads s !! i) as [[key o p]|]; [|done]. by intros [= <-].
Qed.

End Growth.

(** *** The machine of a pass *)

Section Resumed.

Context (ctx : Context).

Lemma resumed_machine (graph : Config string Time) step now machine :
  NewFromSnapshot "" ctx graph (FromKube step) now = Ok machine ->
  m_states machine = States graph /\ m_entering machine = None /\
  (kube_State step = "" -> States graph !! "" = None -> m_current machine = Initial graph) /\
  (kube_State step <> "" ->
     m_current machine = kube_State step /\ is_Some (States graph !! kube_State step)).
Proof.
  unfold NewFromSnapshot, New. destruct (validate graph); [done|]. unfold restoreOrStart, Restore.
  simpl. destruct (States graph !! kube_State step) as [def|] eqn:E; simpl.
  - intros [= <-]. simpl. repeat split; try done. congruence.
  - destruct (decide (kube_State step = "")) as [He|He]; [|by simpl].
    intros [= <-]. simpl. repeat split; done.
Qed.

Lemma deviceGraphs_inv action (graph : Config string Time) :
  Device.storageDeviceOpsGraphs !! action = Some graph ->
  (action = Device.actionDeviceRestart /\
     forall state def, States graph !! state = Some def ->
       (state = Device.stepDeviceRequesting /\ To def = [Device.stepDeviceAwaiting]) \/
       (state = Device.stepDeviceAwaiting /\ To def = [])) \/
  (action = Device.actionDeviceFail /\
     forall state def, States graph !! state = Some def ->
       (state = Device.stepDeviceRemoving /\ To def = [Device.stepDeviceFailing]) \/
       (state = Device.stepDeviceFailing /\ To def = [Device.stepDeviceAwaiting]) \/
       (state = Device.stepDeviceAwaiting /\ To def = [])) \/
  (action = Device.actionDeviceCheckHealth /\
     forall state def, States graph !! state = Some def ->
       state = Device.stepDeviceRequesting /\ To def = []).
Proof.
  unfold Device.storageDeviceOpsGraphs. simpl. rewrite !lookup_insert_Some, lookup_empty.
  intros [[<- <-]|[_ [[<- <-]|[_ [[<- <-]|[_ [=]]]]]]]; simpl;
    [left | right; left | right; right]; (split; [done|]); intros state def;
    rewrite !lookup_insert_Some, lookup_empty; naive_solver.
Qed.

End Resumed.

(** ** Concrete runs *)

Module Runs.

Definition quote (s : string) : string := s.
Definition the_ops : Ops :=
  mkOps "ns" "restart-a" "uid-a" 0 0 false [] "disk" Device.actionDeviceRestart false zero_status.
Definition the_device : Device :=
  mkDevice "ns" "disk" 0 "node" "dev-1" "online" "cluster-1" "node-1" "".

Definition ours : choice := NodeIs (Ok (mkNode "node" false "")).
Definition served : choice := Served 0.
Definition t0 : Time := (1000 * Second)%Z.

Definition pass_of (i : nat) (chs : list choice) : list turn :=
  Starts (ops_key the_ops) :: (Calls i <$> chs).

(** The operation and its device are there; a pass adds the finalizer, another begins. *)
Definition beginning : list turn :=
  ([Edits (CreateOps the_ops); Edits (CreateDevice the_device)] ++
   pass_of 0 [served; served] ++
   pass_of 1 [served; served; ours; served; At t0; At t0; Recorded; served])%list.

(** What a pass of a running operation reads first. *)
Definition reads : list choice := [served; served; ours; At t0; At t0].

Definition play_all (g : Regime) (pruning : bool) (schedule : list turn) : option System :=
  play quote 4 Background true g (empty pruning) schedule.

Definition status_of (s : System) : option Status :=
  o_Status <$> latest (operations (world s)) (ops_key the_ops).

(** Nothing lags, overlaps or is used again. *)
Definition calm : Regime := mkRegime false false false.
Definition anything : Regime := mkRegime true true true.

Lemma play_all_reachable g pruning schedule s :
  play_all g pruning schedule = Some s -> reachable quote 4 Background true g s.
Proof. intros H. exists pruning. by eapply play_taken. Qed.

End Runs.

End DeviceOps.
