(* ===== verification/DeviceRestart.v ===== *)
(** A device is restarted once.

    [request] writes the record of the restart in the same patch as the claim on the
    step, and issues the restart only where that patch landed on a version without
    the record.  A pass that wrote the record holds a token for the one restart it may
    issue; [token_rule] is the rule for each call in terms of the token, [keeps],
    [peeks] and [starts] judge the acts of [DeviceOps] by it, and [Good] is the
    invariant of the interleaved system: an operation has at most one token, used or
    not, and once it has one every version of it carries the record. *)

From Stdlib Require Import Ascii String.
From S2P Require Import Prelude.
From S2P Require Import Programs.
From S2P Require Import StateMachine.
From S2P Require Import OpsGraphs.
From S2P Require Import GoStrings.
From S2P Require Import DeviceOps.

#[local] Open Scope string_scope.

Module DeviceRestart.

Import DeviceOps.

(** ** A restart is issued once *)

(** The record [request] looks for: the operation began, and the device's status was
    written down before a call. *)
Definition recorded (st : Status) : bool :=
  negb (bool_decide (StartedAt st = None)) && negb (String.eqb (DeviceStatusBefore st) "").

(** An operation in the step that issues the restart began. *)
Definition began (st : Status) : Prop :=
  kube_State (Step st) = Device.stepDeviceRequesting -> StartedAt st <> None.

(** A mirror that describes which device it is describes its status as well. *)
Definition mirrored (d : Device) : Prop := d_ClusterID d <> "" -> d_DeviceStatus d <> "".

Lemma recorded_at_rest pruned st : recorded (at_rest pruned st) = recorded st.
Proof. unfold recorded. simpl. by destruct (StartedAt st). Qed.

Lemma began_at_rest pruned st : began st -> began (at_rest pruned st).
Proof. unfold began. simpl. by destruct (StartedAt st). Qed.

Section RestartOnce.

(** The operation, by its UID. *)
Context (uid : string).

(** What a pass knows: the versions of operations it was answered with; and whether it
    wrote the record of the restart, and has not used it. *)
Record Token := mkToken { seen : list Ops; armed : bool }.

(** A version of the operation that restarts a device and has the record. *)
Definition restarted (o : Ops) : bool :=
  String.eqb (o_Action o) Device.actionDeviceRestart && recorded (o_Status o).

Definition arms (before after : Ops) : bool :=
  String.eqb (o_UID before) uid && String.eqb (o_Action before) Device.actionDeviceRestart &&
  negb (recorded (o_Status before)) && recorded (o_Status after).

Definition after_patch (before after : Ops) (s : Token) : Token :=
  mkToken (after :: seen s) (armed s || arms before after).

Definition token_rule X (c : call X) : (X -> Token -> Prop) -> Token -> Prop :=
  match c in call X return (X -> Token -> Prop) -> Token -> Prop with
  | GetOps key => fun Q s => forall r,
      (forall o, r = Ok o -> ops_key o = key /\ began (o_Status o)) ->
      Q r (match r with Ok o => mkToken (o :: seen s) (armed s) | Err _ => s end)
  | GetDevice _ => fun Q s => forall r, (forall d, r = Ok d -> mirrored d) -> Q r s
  | PatchDevice _ _ => fun Q s => forall r, (forall d, r = Ok d -> mirrored d) -> Q r s
  | PatchOps base new => fun Q s =>
      (exists b, b ∈ seen s /\ o_ResourceVersion b = o_ResourceVersion base /\
        ops_key b = ops_key base /\
        (restarted b = true -> recorded (o_Status new) = true) /\ began (o_Status new) /\
        forall o pruned, o_Status o = at_rest pruned (o_Status new) -> ops_key o = ops_key base ->
          Q (Ok o) (after_patch b o s)) /\
      forall e, Q (Err e) s
  | RestartDevice _ => fun Q s => armed s = true /\ forall r, Q r (mkToken (seen s) false)
  | _ => fun Q s => forall r, Q r s
  end.

#[local] Program Instance token_rules : Rule call Token := {| rule := token_rule |}.
Next Obligation.
  intros X c P Q s HPQ. destruct c; simpl; auto.
  - intros [(b & Hb & Hv & Hk & Hm & Hg & Ho) He]. split; [|auto]. exists b. eauto 10.
  - intros [? ?]. auto.
Qed.

Context (Quote : string -> string) (DefaultRetry : nat) (ctx : Context) (monitored : bool).

(** The object a pass works on carries the status and the version of one it was
    answered with. *)
Definition known (o : Ops) (s : Token) : Prop :=
  exists b, b ∈ seen s /\ o_ResourceVersion b = o_ResourceVersion o /\ ops_key b = ops_key o /\
    o_Status b = o_Status o /\ began (o_Status b).

(** Until its first write it is the one it read. *)
Definition as_read (o0 o : Ops) (s : Token) : Prop :=
  o = o0 /\ o ∈ seen s /\ o_UID o = uid /\ began (o_Status o).

Lemma as_read_known o0 o s : as_read o0 o s -> known o s.
Proof. intros (-> & Hin & _ & Hb). by exists o0. Qed.

(** Acts that keep what is known, whatever they answer. *)
Definition keeps {A} (m : act A) : Prop :=
  forall o s, known o s -> wp (m o) (fun '(o, _) s => known o s) s.

(** Acts before the first write. *)
Definition peeks {A} (m : act A) (Q : A -> Prop) : Prop :=
  forall o0 o s, as_read o0 o s ->
    wp (m o) (fun '(o, r) s => as_read o0 o s /\ forall x, r = Ok x -> Q x) s.

Lemma keeps_bind {A B} (m : act A) (k : A -> act B) :
  keeps m -> (forall x, keeps (k x)) -> keeps (m ≫= k).
Proof.
  intros Hm Hk o s Ho. apply wp_act. eapply wp_mono; [|by apply Hm].
  intros [o' [x|e]] s' Ho'; [by apply Hk|done].
Qed.

Lemma keeps_ret {A} (x : A) : keeps (ret x : act A).
Proof. by intros o s Ho. Qed.

Lemma keeps_raise {A} e : keeps (raise e : act A).
Proof. by intros o s Ho. Qed.

Lemma keeps_held : keeps (held : act Ops).
Proof. by intros o s Ho. Qed.

Lemma keeps_attempt {A} (m : act A) : keeps m -> keeps (attempt (E' := error) m).
Proof.
  intros Hm o s Ho. apply wp_attempt. eapply wp_mono; [|by apply Hm]. by intros [o' r] s'.
Qed.

(** The calls that neither write the operation nor restart the device. *)
Definition plain {X} (c : call X) : bool :=
  match c with PatchOps _ _ | RestartDevice _ => false | _ => true end.

Lemma keeps_tell {X} (c : call X) : plain c = true -> keeps (tell c : act X).
Proof.
  intros Hc o s (b & Hb & Hrest).
  assert (Hs : known o s) by by exists b.
  destruct c; try done; simpl; try (intros; by apply Hs).
  intros [o'|e] _; [|done]. exists b. split; [by right|done].
Qed.

Lemma after_patch_known b o o' s :
  o_ResourceVersion o = o_ResourceVersion o' -> ops_key o = ops_key o' ->
  o_Status o = o_Status o' -> began (o_Status o) -> known o' (after_patch b o s).
Proof. intros. exists o. split; [by left|done]. Qed.

Lemma keeps_writeStatus change :
  (forall st, recorded st = true -> recorded (change st) = true) ->
  (forall st, began st -> began (change st)) ->
  keeps (writeStatus DefaultRetry change).
Proof.
  intros Hm Hb.
  assert (Hpatch : forall o fresh s (Q : Ops * res api_error unit -> Token -> Prop),
    ops_key fresh = ops_key o -> known fresh s -> known o s ->
    (forall o' r s', known o' s' -> Q (o', r) s') ->
    wp (do r <- PatchOps fresh (with_status fresh
          (with_generation (change (o_Status fresh)) (o_Generation fresh)));
        match r with
        | Ok answered =>
            Ret (with_version (with_status o (o_Status answered)) (o_ResourceVersion answered), Ok ())
        | Err e => Ret (o, Err e)
        end) Q s).
  { intros o fresh s Q Hk (b & Hin & Hv & Hkb & Hst & Hbeg) Ho HQ. simpl.
    split; [|intros e; by apply HQ].
    exists b. rewrite Hst in Hbeg. split; [done|]. split; [done|]. split; [done|].
    split; [unfold restarted; rewrite Hst; intros [_ ?]%andb_true_iff; by apply Hm|].
    split; [by apply Hb|]. intros o' pruned Hst' Hk'.
    apply HQ. apply after_patch_known; [done| |done|].
    - rewrite Hk'. done.
    - rewrite Hst'. apply began_at_rest. by apply (Hb (o_Status fresh)). }
  assert (Honce : forall reread o s (Q : Ops * res api_error unit -> Token -> Prop),
    known o s -> (forall o' r s', known o' s' -> Q (o', r) s') ->
    wp (write_once reread change o) Q s).
  { intros [] o s Q Ho HQ; unfold write_once; [|by apply Hpatch].
    simpl. intros [fresh|e] Hr.
    - destruct (Hr fresh eq_refl) as [Hk Hbeg]. destruct Ho as (b & Hin & Hrest).
      apply Hpatch; [done| | |done].
      + exists fresh. split; [by left|done].
      + exists b. split; [by right|done].
    - apply HQ, Ho. }
  assert (Hall : forall retries reread o s, known o s ->
    wp (write_status retries reread change o) (fun '(o, _) s => known o s) s).
  { induction retries as [|retries IH]; intros reread o s Ho; cbn [write_status];
      apply wp_bind; apply Honce; try done; intros o' [x|[| |cause]] s' Ho'; try done.
    by apply IH. }
  intros o s Ho. apply wp_bind. eapply wp_mono; [|by apply Hall]. by intros [o' [x|e]] s' Ho'.
Qed.

Lemma keeps_once fire also :
  (forall st, recorded st = true -> recorded (also st) = true) ->
  (forall st, began st -> began (also st)) ->
  keeps fire -> keeps (once fire also).
Proof.
  intros Hm Hb Hfire o s (b & Hin & Hv & Hk & Hst & Hbeg). unfold once.
  apply wp_act. simpl. intros now.
  destruct (claim_held (Step (o_Status o)) now); [exists b; rewrite Hst in *; done|].
  simpl. rewrite Hst in Hbeg. split.
  - exists b. split; [done|]. split; [done|]. split; [done|].
    split; [unfold restarted; rewrite Hst; intros [_ ?]%andb_true_iff; by apply Hm|].
    split; [by apply Hb|].
    intros o' pruned Hst' Hk'.
    assert (Ho' : known o' (after_patch b o' s)).
    { apply after_patch_known; try done. rewrite Hst'. apply began_at_rest. by apply Hb. }
    destruct (stored _ _); [|done].
    apply (keeps_bind fire (fun _ => ret true)); [done|intros; apply keeps_ret|done].
  - assert (Ho : known o s) by (exists b; rewrite Hst; done).
    by intros [| |cause].
Qed.

Lemma keeps_if {A} (b : bool) (m n : act A) : keeps m -> keeps n -> keeps (if b then m else n).
Proof. by destruct b. Qed.

Lemma keeps_match {E A B} (r : res E A) (k : A -> act B) (h : E -> act B) :
  (forall x, keeps (k x)) -> (forall e, keeps (h e)) ->
  keeps (match r with Ok x => k x | Err e => h e end).
Proof. by destruct r. Qed.

End RestartOnce.

#[export] Hint Resolve keeps_ret keeps_raise keeps_held keeps_attempt keeps_tell : keeps.

(** Follows the shape of an act that keeps what is known. *)
Ltac keeping :=
  lazymatch goal with
  | |- keeps _ (mbind _ _) => apply keeps_bind; [|intros ?]; keeping
  | |- keeps _ (if _ then _ else _) => apply keeps_if; keeping
  | |- keeps _ (let '(_, _) := ?x in _) => destruct x; keeping
  | |- keeps _ (match ?r with _ => _ end) => destruct r; keeping
  | |- keeps _ (let x := _ in _) => cbv zeta; keeping
  | |- _ => auto with keeps
  end.

Section Acts.

Context (uid : string) (Quote : string -> string) (DefaultRetry : nat) (ctx : Context)
  (monitored : bool).

Abbreviation keeps := (keeps uid).

Lemma recorded_ended phase step message now st :
  recorded (ended phase step message now st) = recorded st.
Proof. done. Qed.

Lemma keeps_note message : keeps (note DefaultRetry message).
Proof. unfold note. keeping. by apply keeps_writeStatus. Qed.

Lemma keeps_event warning reason message : keeps (event warning reason message).
Proof. by apply keeps_tell. Qed.

Lemma keeps_api {A} doing (c : call (res api_error A)) : plain c = true -> keeps (api doing c).
Proof. intros Hc. unfold api. keeping. Qed.

Lemma keeps_target : keeps (target Quote).
Proof. unfold target. keeping. Qed.

Lemma keeps_releaseLock device : keeps (releaseLock device).
Proof. unfold releaseLock. keeping. by apply keeps_api. Qed.

Hint Resolve keeps_note keeps_event keeps_target keeps_releaseLock : keeps.

Lemma keeps_end phase step message now :
  (forall s, kube_State (step s) = Device.stepDeviceRequesting ->
     kube_State s = Device.stepDeviceRequesting) ->
  keeps (writeStatus DefaultRetry (ended phase step message now)).
Proof. intros Hs. apply keeps_writeStatus; [done|]. intros st Hb H. apply Hb, Hs, H. Qed.

Lemma keeps_fail message : keeps (fail Quote DefaultRetry message).
Proof. unfold fail. keeping. by apply keeps_end. Qed.

Lemma keeps_succeed device : keeps (succeed DefaultRetry device).
Proof. unfold succeed. keeping. by apply keeps_end. Qed.

Lemma keeps_abort device current : keeps (abort DefaultRetry device current).
Proof. unfold abort. keeping. by apply keeps_end. Qed.

Lemma keeps_begin device initial : keeps (begin DefaultRetry device initial).
Proof.
  unfold begin. keeping. apply keeps_writeStatus; [|done].
  intros st. unfold recorded. simpl. by intros [_ ?]%andb_true_iff.
Qed.

Lemma keeps_enter next deadline :
  next <> Device.stepDeviceRequesting -> keeps (enter DefaultRetry next deadline).
Proof. intros Hn. apply keeps_writeStatus; [done|]. intros st _ H. by destruct Hn. Qed.

Lemma keeps_checkHealth device : keeps (checkHealth DefaultRetry monitored device).
Proof. unfold checkHealth. keeping. Qed.

Lemma keeps_verb c refused : plain c = true -> keeps (verb c refused).
Proof. intros Hc. unfold verb. keeping. Qed.

Lemma keeps_deviceAddress device : keeps (deviceAddress device).
Proof. unfold deviceAddress. keeping. Qed.

Hint Resolve keeps_deviceAddress keeps_verb : keeps.

Lemma keeps_requestFailure device : keeps (requestFailure Quote device).
Proof. unfold requestFailure. keeping. apply keeps_once; auto with keeps. Qed.

Lemma keeps_await device : keeps (await Quote DefaultRetry device).
Proof. unfold await. keeping. Qed.

Lemma keeps_finalize : keeps (finalize Quote).
Proof. unfold finalize. keeping. by apply keeps_api. Qed.

End Acts.

Section Peeks.

Context (uid : string) (Quote : string -> string) (DefaultRetry : nat) (ctx : Context)
  (monitored : bool).

Abbreviation wp := (wp (H := token_rules uid)).
Abbreviation peeks := (peeks uid).
Abbreviation keeps := (keeps uid).

Lemma peeks_bind {A B} (m : act A) (k : A -> act B) (P : A -> Prop) (Q : B -> Prop) :
  peeks m P -> (forall x, P x -> peeks (k x) Q) -> peeks (m ≫= k) Q.
Proof.
  intros Hm Hk o0 o s Ho. apply wp_act. eapply wp_mono; [|by apply Hm].
  intros [o' [x|e]] s' [Ho' HP]; [by apply Hk; [apply HP|]|done].
Qed.

Lemma peeks_ret {A} (x : A) (Q : A -> Prop) : Q x -> peeks (ret x) Q.
Proof. intros HQ o0 o s Ho. split; [done|]. by intros ? [= <-]. Qed.

Lemma peeks_raise {A} e (Q : A -> Prop) : peeks (raise e) Q.
Proof. by intros o0 o s Ho. Qed.

Lemma peeks_attempt {A} (m : act A) (P : A -> Prop) :
  peeks m P -> peeks (attempt (E' := error) m) (fun r => forall x, r = Ok x -> P x).
Proof.
  intros Hm o0 o s Ho. apply wp_attempt. eapply wp_mono; [|by apply Hm].
  intros [o' r] s' [Ho' HP]. split; [done|]. by intros ? [= <-].
Qed.

(** What a call says of the device it answers. *)
Definition describes {X} (c : call X) : X -> Prop :=
  match c in call X return X -> Prop with
  | GetDevice _ => fun r => forall d, r = Ok d -> mirrored d
  | PatchDevice _ _ => fun r => forall d, r = Ok d -> mirrored d
  | _ => fun _ => True
  end.

Lemma peeks_tell {X} (c : call X) : plain c = true -> peeks (tell c) (describes c).
Proof.
  intros Hc o0 o s (-> & Hin & Hu & Hb). unfold as_read.
  destruct c; try done; simpl; intros; (split; [|by intros ? [= <-]]); try done.
  destruct r; [|done]. repeat split; try done. by right.
Qed.

(** What a handler does once it may write. *)
Definition starts {A} (m : act A) : Prop :=
  forall o0 o s, as_read uid o0 o s -> wp (m o) (fun '(o, _) s => known o s) s.

Lemma starts_keeps {A} (m : act A) : keeps m -> starts m.
Proof. intros Hm o0 o s Ho. by apply Hm, (as_read_known uid o0). Qed.

Lemma starts_bind {A B} (m : act A) (k : A -> act B) (P : A -> Prop) :
  peeks m P -> (forall x, P x -> starts (k x)) -> starts (m ≫= k).
Proof.
  intros Hm Hk o0 o s Ho. apply wp_act. eapply wp_mono; [|by apply Hm].
  intros [o' [x|e]] s' [Ho' HP]; [by apply (Hk x (HP _ eq_refl) o0)|by eapply as_read_known].
Qed.

Lemma starts_then {A B} (m : act A) (k : A -> act B) :
  starts m -> (forall x, keeps (k x)) -> starts (m ≫= k).
Proof.
  intros Hm Hk o0 o s Ho. apply wp_act. eapply wp_mono; [|by eapply Hm].
  intros [o' [x|e]] s' Ho'; [by apply Hk|done].
Qed.

Lemma starts_attempt {A} (m : act A) : starts m -> starts (attempt (E' := error) m).
Proof.
  intros Hm o0 o s Ho. apply wp_attempt. eapply wp_mono; [|by eapply Hm]. by intros [o' r] s'.
Qed.

(** The operation read is at hand until the first write. *)
Lemma starts_held {A} (k : Ops -> act A) :
  (forall o s, as_read uid o o s -> wp (k o o) (fun '(o, _) s => known o s) s) ->
  starts (held ≫= k).
Proof. intros Hk o0 o s Ho. apply wp_act. simpl. apply Hk. by destruct Ho as (-> & ?). Qed.

Lemma peeks_target : peeks (target Quote) mirrored.
Proof.
  intros o0 o s Ho. unfold target. apply wp_act. simpl. intros [d|e] Hd; simpl.
  - split; [done|]. intros ? [= <-]. by apply Hd.
  - by destruct e.
Qed.

Lemma peeks_lockIsStale namespace holder : peeks (lockIsStale namespace holder) (fun _ => True).
Proof.
  unfold lockIsStale. eapply peeks_bind; [by apply peeks_tell|].
  intros [o|[]] _; by (apply peeks_ret || apply peeks_raise).
Qed.

Lemma peeks_acquireLock device :
  mirrored device -> peeks (acquireLock device) (fun r => mirrored r.2).
Proof.
  intros Hd o0 o s Ho. unfold acquireLock. apply wp_act. simpl.
  destruct (String.eqb _ _); [simpl; split; [done|]; by intros ? [= <-]|].
  eapply (peeks_bind _ _ (fun _ => True)); [| |exact Ho].
  { destruct (String.eqb _ _); [by apply peeks_ret | apply peeks_lockIsStale]. }
  intros takeable _. destruct (negb takeable); [by apply peeks_ret|].
  eapply peeks_bind; [by apply peeks_tell|].
  intros [d|[]] Hr; try apply peeks_raise; apply peeks_ret; [by apply Hr|done].
Qed.

Lemma peeks_deviceAddress device :
  mirrored device -> peeks (deviceAddress device) (fun _ => d_DeviceStatus device <> "").
Proof.
  intros Hd. unfold deviceAddress. destruct (String.eqb_spec (d_ClusterID device) "") as [E|E];
    simpl; [apply peeks_raise|].
  destruct (_ || _); [apply peeks_raise|]. by apply peeks_ret, Hd.
Qed.

(** [request], in its step: the claim's patch is what makes the record. *)
Lemma request_starts device o s :
  mirrored device -> as_read uid o o s ->
  o_Action o = Device.actionDeviceRestart ->
  kube_State (Step (o_Status o)) = Device.stepDeviceRequesting ->
  wp (request device o) (fun '(o, _) s => known o s) s.
Proof.
  intros Hd Ho Ha Hstep. assert (Ho' := Ho). destruct Ho' as (_ & Hin & Hu & Hb).
  assert (Hk : known o s) by by eapply as_read_known.
  unfold request. apply wp_act. simpl.
  destruct (negb _ && negb _) eqn:Er; [done|]. unfold deviceAddress.
  destruct (String.eqb_spec (d_ClusterID device) "") as [E|E]; simpl; [done|].
  destruct (_ || _); [done|]. apply wp_act. simpl.
  unfold once. simpl. intros now.
  destruct (claim_held _ _); [done|]. simpl.
  split; [|by intros [| |cause]].
  assert (Hbeg : began (with_before (with_step (o_Status o)
    (claimed_snapshot (Step (o_Status o)) claimLease now)) (d_DeviceStatus device))) by done.
  assert (Hrec : recorded (with_before (with_step (o_Status o)
    (claimed_snapshot (Step (o_Status o)) claimLease now)) (d_DeviceStatus device)) = true).
  { unfold recorded. simpl. rewrite bool_decide_eq_false_2 by by apply Hb.
    destruct (String.eqb_spec (d_DeviceStatus device) "") as [Ed|]; [|done].
    by apply Hd in E. }
  exists o. repeat split; try done.
  intros o' pruned Hst Hkey.
  assert (Harm : arms uid o o' = true).
  { unfold arms. rewrite Hu, Ha, Hst, recorded_at_rest, Hrec, !String.eqb_refl.
    unfold recorded. by rewrite Er. }
  assert (Hk' : known o' (after_patch uid o o' s)).
  { apply after_patch_known; try done. rewrite Hst. by apply began_at_rest. }
  destruct (stored _ _); [|done]. simpl. rewrite Harm, orb_true_r. split; [done|].
  assert (Hlast : known o' (mkToken (o' :: seen s) false)).
  { destruct Hk' as (b & Hbin & Hrest). by exists b. }
  intros [u|cause]; [|done]. simpl. done.
Qed.

(** [removeFromDataPath] is a step of an operation that fails a device. *)
Lemma removeFromDataPath_starts device o s :
  as_read uid o o s -> o_Action o = Device.actionDeviceFail ->
  kube_State (Step (o_Status o)) = Device.stepDeviceRemoving ->
  wp (removeFromDataPath Quote DefaultRetry device o) (fun '(o, _) s => known o s) s.
Proof.
  intros Ho Ha Hstep. assert (Ho' := Ho). destruct Ho' as (_ & Hin & Hu & Hb).
  assert (Hk : known o s) by by eapply as_read_known.
  unfold removeFromDataPath. unfold deviceAddress.
  destruct (_ || _); [done|]. apply wp_act. simpl. intros [status|[]]; [|done..].
  destruct (deviceIsFailed status); [done|].
  destruct (String.eqb_spec status cpDeviceRemoved) as [->|Hne].
  { apply keeps_bind; [|intros; apply keeps_ret|done]. apply keeps_writeStatus; [|done].
    intros st. unfold recorded. simpl. by intros [-> _]%andb_true_iff. }
  apply wp_act. unfold once. apply wp_act. simpl. intros now.
  destruct (claim_held _ _); [done|]. simpl.
  split; [|by intros [| |cause]].
  exists o. repeat split; try done.
  { unfold restarted. by rewrite Ha. }
  intros o' pruned Hst Hkey.
  assert (Hk' : known o' (after_patch uid o o' s)).
  { apply after_patch_known; try done. rewrite Hst. apply began_at_rest. by unfold began; simpl; rewrite Hstep. }
  destruct (stored _ _); [|done]. simpl. intros [u|cause]; simpl; [intros _|]; exact Hk'.
Qed.

Lemma performStep_starts device o s (graph : Config string Time) :
  mirrored device -> as_read uid o o s ->
  Device.storageDeviceOpsGraphs !! o_Action o = Some graph ->
  is_Some (States graph !! kube_State (Step (o_Status o))) ->
  wp (performStep Quote DefaultRetry monitored device (kube_State (Step (o_Status o))) o)
    (fun '(o, _) s => known o s) s.
Proof.
  intros Hd Ho Hg [def Hdef]. unfold performStep. apply wp_act. simpl.
  apply deviceGraphs_inv in Hg as [[Ha Hs]|[[Ha Hs]|[Ha Hs]]].
  - destruct (Hs _ _ Hdef) as [[E _]|[E _]]; rewrite E, Ha; simpl.
    + by apply request_starts.
    + apply keeps_await. by eapply as_read_known.
  - destruct (Hs _ _ Hdef) as [[E _]|[[E _]|[E _]]]; rewrite E; simpl.
    + by apply removeFromDataPath_starts.
    + apply keeps_requestFailure. by eapply as_read_known.
    + apply keeps_await. by eapply as_read_known.
  - destruct (Hs _ _ Hdef) as [E _]; rewrite E, Ha; simpl.
    apply keeps_checkHealth. by eapply as_read_known.
Qed.

Lemma move_on_keeps device (machine : Machine string Time) (graph : Config string Time) action :
  Device.storageDeviceOpsGraphs !! action = Some graph -> m_states machine = States graph ->
  keeps (move_on Quote DefaultRetry ctx device machine).
Proof.
  intros Hg Hm. unfold move_on. destruct (IsTerminal machine) eqn:Et.
  { apply keeps_bind; [apply keeps_succeed | intros; apply keeps_ret]. }
  destruct (nextDeviceStep machine) as [next|] eqn:En.
  2: { apply keeps_bind; [apply keeps_fail | intros; apply keeps_ret]. }
  apply keeps_bind; [by apply keeps_tell|]. intros now.
  destruct (TransitionTo _ _ _ _ _) as [[machine' w] []]; try apply keeps_raise.
  apply keeps_bind; [|intros; apply keeps_ret]. apply keeps_enter.
  unfold nextDeviceStep, AllowedTransitions, exits in En. rewrite Hm in En.
  destruct (States graph !! m_current machine) as [def|] eqn:Ed; [|done].
  apply deviceGraphs_inv in Hg as [[_ Hs]|[[_ Hs]|[_ Hs]]]; apply Hs in Ed;
    destruct_or?; destruct_and?; simplify_eq/=; repeat match goal with H : To def = _ |- _ =>
      rewrite H in En; simpl in En; simplify_eq end; done.
Qed.

Lemma run_step_starts device machine o s (graph : Config string Time) :
  mirrored device -> as_read uid o o s ->
  Device.storageDeviceOpsGraphs !! o_Action o = Some graph ->
  is_Some (States graph !! kube_State (Step (o_Status o))) ->
  m_states machine = States graph -> m_current machine = kube_State (Step (o_Status o)) ->
  wp (run_step Quote DefaultRetry ctx monitored device machine o) (fun '(o, _) s => known o s) s.
Proof.
  intros Hd Ho Hg Hdef Hm Hc. assert (Hk : known o s) by by eapply as_read_known.
  unfold run_step. apply wp_act. simpl. intros now.
  destruct (TimeoutReached machine now).
  { simpl. intros _. apply (keeps_bind uid (fail _ _ _)); [apply keeps_fail|intros; apply keeps_ret|done]. }
  apply wp_act, wp_attempt. unfold CurrentState. rewrite Hc.
  eapply wp_mono; [|by apply (performStep_starts device o s graph)]. intros [o' r] s' Hk'.
  destruct r as [[]|[]]; try done.
  - by eapply move_on_keeps.
  - apply (keeps_bind uid (fail _ _ _)); [apply keeps_fail|intros; apply keeps_ret|done].
Qed.

Lemma abortBlocked_peeks device allows : peeks (abortBlocked Quote device allows) (fun _ => True).
Proof.
  intros o0 o s Ho. unfold abortBlocked. apply wp_act. simpl.
  destruct (negb allows); [done|]. destruct (negb _); [done|].
  apply wp_act, wp_attempt. unfold deviceAddress. destruct (_ || _); simpl; [done|].
  intros [status|[]]; try done. by destruct (deviceIsInService status).
Qed.

Lemma advance_starts device o s :
  mirrored device -> as_read uid o o s ->
  wp (advance Quote DefaultRetry ctx monitored device o) (fun '(o, _) s => known o s) s.
Proof.
  intros Hd Ho. assert (Hk : known o s) by by eapply as_read_known.
  unfold advance. apply wp_act. simpl.
  destruct (Device.storageDeviceOpsGraphs !! o_Action o) as [graph|] eqn:Hg.
  2: { apply (keeps_bind uid (fail _ _ _)); [apply keeps_fail|intros; apply keeps_ret|done]. }
  simpl. intros now. destruct (NewFromSnapshot _ _ _ _ _) as [machine|err] eqn:En.
  2: { apply (keeps_bind uid (fail _ _ _)); [apply keeps_fail|intros; apply keeps_ret|done]. }
  apply resumed_machine in En as (Hm & _ & _ & Hst).
  destruct (String.eqb_spec (kube_State (Step (o_Status o))) "") as [He|He].
  { by apply keeps_begin. }
  destruct (Hst He) as [Hc Hdef].
  destruct (o_Abort o); [|by eapply run_step_starts].
  apply wp_act. eapply wp_mono; [|by apply (abortBlocked_peeks device (CanAbort machine) o)].
  intros [o' [blocked|e]] s' [Ho' _]; [|by eapply as_read_known].
  assert (o' = o) as -> by apply Ho'.
  destruct (String.eqb blocked "").
  - apply (keeps_bind uid (abort _ _ _)); [apply keeps_abort|intros; apply keeps_ret|].
    by eapply as_read_known.
  - apply wp_act. simpl. intros _. by eapply run_step_starts.
Qed.

Lemma reconcile_starts o s :
  as_read uid o o s ->
  wp (reconcile Quote DefaultRetry ctx monitored o) (fun '(o, _) s => known o s) s.
Proof.
  intros Ho. assert (Hk : known o s) by by eapply as_read_known.
  unfold reconcile. apply wp_act. simpl. destruct (o_Deleting o).
  { apply keeps_bind; [apply keeps_finalize|intros; apply keeps_ret|done]. }
  destruct (negb (contains _ _)).
  { apply keeps_bind; [by apply keeps_api|intros; apply keeps_ret|done]. }
  destruct (terminal _); [done|].
  apply wp_act, wp_attempt. eapply wp_mono; [|by apply peeks_target].
  intros [o1 r] s1 [Ho1 Hd]. assert (o1 = o) as -> by apply Ho1.
  assert (Hk1 : known o s1) by by eapply as_read_known.
  destruct r as [device|[]]; try done.
  2: { apply keeps_bind; [apply keeps_fail|intros; apply keeps_ret|done]. }
  specialize (Hd device eq_refl). apply wp_act. simpl.
  intros [[name [] site]|[| |cause]]; try done.
  { apply keeps_bind; [apply keeps_fail|intros; apply keeps_ret|done]. }
  all: apply wp_act; (eapply wp_mono; [|by apply (peeks_acquireLock device Hd o)]);
    intros [o2 [[got device2]|e]] s2 [Ho2 Hd2]; [|by eapply as_read_known];
    assert (o2 = o) as -> by apply Ho2; destruct got; simpl;
    [apply advance_starts; [by apply (Hd2 _ eq_refl)|done]
    |apply (keeps_bind uid (note _ _)); [apply keeps_note|intros; apply keeps_ret|by eapply as_read_known]].
Qed.

End Peeks.

(** An operation that has the record of its restart keeps it, and one that is created has
    a UID of its own. *)
Definition continues (w w' : World) : Prop :=
  (forall key o, Some o ∈ versions (operations w') key ->
     Some o ∈ versions (operations w) key \/ began (o_Status o)) /\
  forall key o', latest (operations w') key = Some o' ->
    (exists o, latest (operations w) key = Some o /\ o_UID o = o_UID o' /\
       (restarted o = true -> restarted o' = true)) \/
    forall key2 o2, Some o2 ∈ versions (operations w) key2 -> o_UID o2 <> o_UID o'.

Lemma continues_refl w : continues w w.
Proof. split; [by left|]. intros key o' H. left. by exists o'. Qed.

Lemma continues_push_ops w key v :
  (forall o', v = Some o' -> Some o' ∈ versions (operations w) key \/ began (o_Status o')) ->
  (forall o', v = Some o' ->
    (exists o, latest (operations w) key = Some o /\ o_UID o = o_UID o' /\
       (restarted o = true -> restarted o' = true)) \/
    forall key2 o2, Some o2 ∈ versions (operations w) key2 -> o_UID o2 <> o_UID o') ->
  continues w (push_ops w key v).
Proof.
  intros Hb Hv. split; intros key' o'; simpl.
  - rewrite versions_push. case_decide; [subst|by left].
    intros [E|Hin]%elem_of_cons; [by apply Hb|by left].
  - rewrite latest_push. case_decide; [subst; apply Hv|]. intros H'. left. by exists o'.
Qed.

Definition all_began (w : World) : Prop :=
  forall key o, Some o ∈ versions (operations w) key -> began (o_Status o).

Lemma continues_began w w' : all_began w -> continues w w' -> all_began w'.
Proof. intros Hb [Hc _] key o Ho. destruct (Hc key o Ho); [by eapply Hb|done]. Qed.

(** A version that differs from the latest one outside of its status. *)
Lemma continues_same w key o o' :
  all_began w -> latest (operations w) key = Some o -> o_UID o' = o_UID o ->
  o_Action o' = o_Action o -> o_Status o' = o_Status o -> continues w (push_ops w key (Some o')).
Proof.
  intros Hb Ho Hu Ha Hst. apply continues_push_ops; intros ? [= <-].
  - right. rewrite Hst. eapply Hb. by apply latest_in.
  - left. exists o. split; [done|]. split; [done|]. unfold restarted. by rewrite Ha, Hst.
Qed.

Lemma apply_edit_continues reusing e w w' :
  all_began w -> apply_edit reusing e w = Some w' -> continues w w'.
Proof.
  intros Hb. destruct e as [o|key abort generation|key|d|d|key|]; simpl.
  - destruct (_ && _) eqn:E; [|done]. apply andb_true_iff in E as [_ Hfresh]. intros [= <-].
    apply continues_push_ops; intros o' [= <-]; right; [done|].
    intros key' o1. by apply fresh_uid.
  - destruct (latest (operations w) key) as [o|] eqn:Ho; [|done]. intros [= <-].
    by apply (continues_same w key o).
  - destruct (latest (operations w) key) as [o|] eqn:Ho; [|done]. intros [= <-].
    case_bool_decide; [by apply continues_push_ops|]. by apply (continues_same w key o).
  - destruct (free _ _ _); [|done]. intros [= <-]. exact (continues_refl w).
  - destruct (latest (devices w) (device_key d)) as [cur|]; [|done]. intros [= <-].
    exact (continues_refl w).
  - destruct (latest (devices w) key); [|done]. intros [= <-]. exact (continues_refl w).
  - intros [= <-]. exact (continues_refl w).
Qed.

(** *** The invariant *)

Lemma latest_push_in w key v key' o :
  latest (operations (push_ops w key v)) key' = Some o ->
  v = Some o /\ key' = key \/ latest (operations w) key' = Some o.
Proof. simpl. rewrite latest_push. case_decide; [subst|]; auto. Qed.

Section Once.

Abbreviation safe o p K :=
  (wp (H := token_rules (o_UID o)) p (fun _ _ => True) K).

(** A pass that has not read its operation, before and after the read. *)
Definition unread (key : string * string) (p : prog call (res error result)) : Prop :=
  match p with
  | Ret _ => True
  | Vis c k =>
      match c in call X return (X -> prog call (res error result)) -> Prop with
      | GetOps key' => fun k => key' = key /\ forall r,
          match r with
          | Ok o => ops_key o = key -> began (o_Status o) -> safe o (k r) (mkToken [o] false)
          | Err _ => exists x, k r = Ret x
          end
      | _ => fun _ => False
      end k
  end.

Definition pass_ok (w : World) (p : thread * Token) : Prop :=
  match t_read p.1 with
  | None => armed p.2 = false /\ unread (t_key p.1) (t_code p.1)
  | Some o =>
      Some o ∈ versions (operations w) (ops_key o) /\
      (forall b, b ∈ seen p.2 -> Some b ∈ versions (operations w) (ops_key b)) /\
      safe o (t_code p.1) p.2
  end.

Abbreviation is_restart uid := (fun i => i_verb i = Restarts /\ o_UID (i_ops i) = uid).
Abbreviation may_restart uid :=
  (fun p : thread * Token => armed p.2 = true /\ o_UID <$> t_read p.1 = Some uid).

(** The restarts of an operation that were issued, and those that still may be. *)
Definition tokens (uid : string) (iss : list issue) (ps : list (thread * Token)) : nat :=
  length (filter (is_restart uid) iss) + length (filter (may_restart uid) ps).

Record Good (s : System) (ps : list (thread * Token)) : Prop := {
  good_threads : threads s = ps.*1;
  good_world : world_ok (world s);
  good_began : all_began (world s);
  good_passes : Forall (pass_ok (world s)) ps;
  good_issues : Forall (fun i =>
    Some (i_ops i) ∈ versions (operations (world s)) (ops_key (i_ops i))) (issues s);
  good_once uid : tokens uid (issues s) ps <= 1;
  good_recorded uid key o : 1 <= tokens uid (issues s) ps ->
    latest (operations (world s)) key = Some o -> o_UID o = uid -> restarted o = true;
}.

Lemma pass_ok_grows w w' p : grows w w' -> pass_ok w p -> pass_ok w' p.
Proof.
  intros [Hg _]. unfold pass_ok. destruct (t_read p.1) as [o|]; [|done].
  intros (Ho & Hseen & Hp). repeat split; eauto.
Qed.

(** A token is an operation's the server knows. *)
Lemma tokens_known s ps uid :
  Good s ps -> 1 <= tokens uid (issues s) ps ->
  exists key o, Some o ∈ versions (operations (world s)) key /\ o_UID o = uid.
Proof.
  intros G. unfold tokens. intros Ht.
  destruct (filter (is_restart uid) (issues s)) as [|i l] eqn:Ei.
  - destruct (filter (may_restart uid) ps) as [|p l'] eqn:Ep; [simpl in Ht; lia|].
    assert (Hp : p ∈ filter (may_restart uid) ps) by (rewrite Ep; left).
    apply list_elem_of_filter in Hp as [[_ Hu] Hp].
    destruct (t_read p.1) as [o|] eqn:Eo; simplify_eq/=.
    pose proof (good_passes _ _ G) as Hall. rewrite Forall_forall in Hall.
    specialize (Hall p Hp). unfold pass_ok in Hall. rewrite Eo in Hall.
    exists (ops_key o), o. by destruct Hall as [Hin _].
  - assert (Hi : i ∈ filter (is_restart uid) (issues s)) by (rewrite Ei; left).
    apply list_elem_of_filter in Hi as [[_ Hu] Hi].
    pose proof (good_issues _ _ G) as Hall. rewrite Forall_forall in Hall.
    exists (ops_key (i_ops i)), (i_ops i). split; [by apply Hall|done].
Qed.

Lemma recorded_continues s ps w' uid key o' :
  Good s ps -> continues (world s) w' -> 1 <= tokens uid (issues s) ps ->
  latest (operations w') key = Some o' -> o_UID o' = uid -> restarted o' = true.
Proof.
  intros G [_ Hc] Ht Ho' Hu. destruct (Hc key o' Ho') as [(o & Ho & Huo & Hr)|Hfresh].
  - apply Hr. eapply good_recorded; [done..|congruence].
  - destruct (tokens_known s ps uid G Ht) as (key2 & o2 & Hin & Hu2).
    destruct (Hfresh key2 o2 Hin). congruence.
Qed.

(** One pass makes a step that leaves the tokens as they are. *)
Lemma Good_quiet s ps i t K t' K' w' is' :
  Good s ps -> ps !! i = Some (t, K) -> world_ok w' -> grows (world s) w' ->
  continues (world s) w' -> pass_ok w' (t', K') ->
  Forall (fun i => Some (i_ops i) ∈ versions (operations w') (ops_key (i_ops i))) is' ->
  (forall uid, length (filter (is_restart uid) is') +
     (if decide (may_restart uid (t', K')) then 1 else 0) =
     (if decide (may_restart uid (t, K)) then 1 else 0)) ->
  Good (mkSystem w' (<[i := t']> (threads s)) (issues s ++ is')) (<[i := (t', K')]> ps).
Proof.
  intros G Hi Hw Hg Hc Hp His Htok.
  assert (Heq : forall uid, tokens uid (issues s ++ is') (<[i := (t', K')]> ps) =
                            tokens uid (issues s) ps).
  { intros uid. unfold tokens. specialize (Htok uid). rewrite filter_app, length_app.
    pose proof (length_filter_insert (may_restart uid) ps i (t, K) (t', K') Hi). lia. }
  constructor; simpl.
  - by rewrite list_fmap_insert, (good_threads _ _ G).
  - done.
  - eapply continues_began; [apply (good_began _ _ G)|done].
  - apply Forall_insert; [|done]. eapply Forall_impl; [apply (good_passes _ _ G)|].
    intros p. by apply pass_ok_grows.
  - apply Forall_app. split; [|done]. eapply Forall_impl; [apply (good_issues _ _ G)|].
    simpl. intros j. apply Hg.
  - intros uid. rewrite Heq. apply (good_once _ _ G).
  - intros uid key o. rewrite Heq. by apply recorded_continues.
Qed.

(** A pass writes the record of its operation's restart: no other has a token then. *)
Lemma Good_arms s ps i t K t' K' w' o b after :
  Good s ps -> ps !! i = Some (t, K) -> world_ok w' -> grows (world s) w' ->
  continues (world s) w' -> pass_ok w' (t', K') -> t_read t = Some o -> t_read t' = Some o ->
  latest (operations (world s)) (ops_key b) = Some b ->
  latest (operations w') (ops_key b) = Some after -> o_UID after = o_UID b ->
  o_Action after = o_Action b -> arms (o_UID o) b after = true ->
  Good (mkSystem w' (<[i := t']> (threads s)) (issues s)) (<[i := (t', K')]> ps).
Proof.
  intros G Hi Hw Hg Hc Hp Ht Ht' Hb Hafter Huid Hact Harm.
  apply andb_true_iff in Harm as [[[Hu%String.eqb_eq Ha]%andb_true_iff Hn]%andb_true_iff Hr].
  assert (Hnone : tokens (o_UID o) (issues s) ps = 0).
  { destruct (tokens (o_UID o) (issues s) ps) eqn:E; [done|].
    assert (Hrec : restarted b = true) by (eapply (good_recorded _ _ G (o_UID o)); [lia|done..]).
    unfold restarted in Hrec. rewrite Ha in Hrec. simpl in Hrec. by rewrite Hrec in Hn. }
  assert (Hold : ~ may_restart (o_UID o) (t, K)).
  { intros Hm. unfold tokens in Hnone.
    pose proof (length_filter_insert (may_restart (o_UID o)) ps i (t, K) (t, K) Hi) as Hl.
    assert (Hpos : 0 < length (filter (may_restart (o_UID o)) ps)); [|lia].
    destruct (filter (may_restart (o_UID o)) ps) eqn:E; [|simpl; lia].
    assert (Hin : (t, K) ∈ filter (may_restart (o_UID o)) ps).
    { apply list_elem_of_filter. split; [done|]. by eapply list_elem_of_lookup_2. }
    rewrite E in Hin. by apply elem_of_nil in Hin. }
  assert (Hcount : forall uid, tokens uid (issues s) (<[i := (t', K')]> ps) =
    tokens uid (issues s) ps + (if decide (may_restart uid (t', K')) then 1 else 0) -
    (if decide (may_restart uid (t, K)) then 1 else 0)).
  { intros uid. unfold tokens.
    pose proof (length_filter_insert (may_restart uid) ps i (t, K) (t', K') Hi). lia. }
  assert (Hone : forall uid, uid = o_UID o \/
    tokens uid (issues s) (<[i := (t', K')]> ps) <= tokens uid (issues s) ps).
  { intros uid. destruct (decide (uid = o_UID o)) as [->|Hne]; [by left|right].
    rewrite Hcount. rewrite (decide_False (P := may_restart uid (t', K'))); [lia|].
    simpl. rewrite Ht'. simpl. intros [_ [= ?]]. congruence. }
  constructor; simpl.
  - by rewrite list_fmap_insert, (good_threads _ _ G).
  - done.
  - eapply continues_began; [apply (good_began _ _ G)|done].
  - apply Forall_insert; [|done]. eapply Forall_impl; [apply (good_passes _ _ G)|].
    intros p. by apply pass_ok_grows.
  - eapply Forall_impl; [apply (good_issues _ _ G)|]. simpl. intros j. apply Hg.
  - intros uid. destruct (Hone uid) as [->|Hle].
    + rewrite Hcount, Hnone. repeat case_decide; lia.
    + pose proof (good_once _ _ G uid). lia.
  - intros uid key o' Htok Ho' Hu'. destruct (Hone uid) as [->|Hle].
    + assert (key = ops_key b) as ->.
      { apply latest_in in Ho'. apply latest_in in Hafter as Hin.
        eapply (ops_uid w' Hw); [exact Ho'|exact Hin|congruence]. }
      rewrite Hafter in Ho'. injection Ho' as <-. unfold restarted.
      by rewrite Hact, Ha, Hr.
    + by apply (recorded_continues s ps w' uid key o'); [| |lia|..].
Qed.

Definition all_mirrored (w : World) : Prop :=
  forall key d, Some d ∈ versions (devices w) key -> mirrored d.

Lemma patch_device_answers w w' base new d :
  world_ok w -> patch_device base new w = (w', Ok d) -> exists key, Some d ∈ versions (devices w') key.
Proof.
  intros Hw H. exists (device_key base).
  destruct (patch_device_spec w w' base new _ Hw H) as [(-> & Hd & _)|(cur & _ & _ & -> & [= ->])].
  - by apply latest_in.
  - simpl. rewrite versions_push, decide_True by done. by left.
Qed.

(** What a call that is no status patch does to the world. *)
Lemma serve_plain {X} (c : call X) ch w w' x :
  plain c = true -> world_ok w -> all_began w -> serve c ch w = Some (w', x) ->
  world_ok w' /\ grows w w' /\ continues w w'.
Proof.
  intros Hc Hw Hb. destruct c; try done; simpl;
    try (by intros [-> _]%lookup_spec; auto using continues_refl);
    try (by destruct ch; try done; intros [= <- _]; auto using continues_refl).
  - intros (r & [Hr|[-> _]] & _)%write_spec; [|auto using continues_refl].
    destruct (update_ops_world w w' new r Hw (eq_sym Hr)) as [Hw' Hg]. split; [done|]. split; [done|].
    destruct (update_ops_spec w w' new r Hw (eq_sym Hr)) as [->|(cur & v & Hcur & _ & -> & Hv)];
      [apply continues_refl|].
    destruct Hv as [[-> _]| ->]; [by apply continues_push_ops|]. by apply (continues_same w _ cur).
  - intros (r & [Hr|[-> _]] & _)%write_spec; [|auto using continues_refl].
    destruct (patch_device_world w w' base new r Hw (eq_sym Hr)) as [Hw' Hg]. split; [done|].
    split; [done|]. destruct (patch_device_spec w w' base new r Hw (eq_sym Hr))
      as [[-> _]|(cur & _ & _ & -> & _)]; [apply continues_refl|exact (continues_refl w)].
Qed.

(** A plain call's answer is one its rule is for. *)
Lemma plain_rule {X} (c : call X) ch w w' x o (Q : X -> Token -> Prop) K :
  plain c = true -> world_ok w -> all_began w -> all_mirrored w' -> grows w w' ->
  serve c ch w = Some (w', x) ->
  token_rule (o_UID o) X c Q K ->
  (forall b, b ∈ seen K -> Some b ∈ versions (operations w) (ops_key b)) ->
  exists K', Q x K' /\ armed K' = armed K /\
    forall b, b ∈ seen K' -> Some b ∈ versions (operations w') (ops_key b).
Proof.
  intros Hc Hw Hb Hm [Hg Hgd] Hs HQ Hseen.
  assert (Hseen' : forall b, b ∈ seen K -> Some b ∈ versions (operations w') (ops_key b)) by eauto.
  destruct c; try done; simpl in *; try (exists K; split; [by apply HQ|by split]).
  - apply lookup_spec in Hs as [-> Hx]. eexists. split; [apply HQ; intros o' ->|destruct x as [o'|e]].
    + specialize (Hx o' eq_refl). split; [exact (version_key _ _ _ Hw Hx)|exact (Hb _ _ Hx)].
    + split; [done|]. intros b [->|Hin]%elem_of_cons; [|by apply Hseen].
      specialize (Hx o' eq_refl). by rewrite (version_key w key o' Hw Hx).
    + done.
  - exists K. split; [|done]. apply HQ. intros d ->. apply lookup_spec in Hs as [-> Hx]. eauto.
  - exists K. split; [|done]. apply HQ. intros d ->.
    apply write_spec in Hs as (r & Hr & Hx).
    destruct Hr as [Hr|[-> (e & ->)]]; [|by destruct Hx as [|[]]].
    destruct Hx as [<-|[]]; [|done].
    destruct (patch_device_answers w w' base new d Hw (eq_sym Hr)) as [key Hin]. eauto.
Qed.

Lemma Good_call s ps i key o X (c : call X) k ch w' x :
  Good s ps -> threads s !! i = Some (mkThread key o (Vis c k)) ->
  all_mirrored w' -> serve c ch (world s) = Some (w', x) ->
  exists ps', Good (mkSystem w' (<[i := mkThread key (note_read o c x) (k x)]> (threads s))
    (issues s ++ issue_of c o (world s))) ps'.
Proof.
  intros G Hi Hm Hs. assert (Hw := good_world _ _ G). assert (Hb := good_began _ _ G).
  rewrite (good_threads _ _ G), list_lookup_fmap in Hi.
  destruct (ps !! i) as [[t K]|] eqn:Hp; simplify_eq/=.
  pose proof (good_passes _ _ G) as Hok. rewrite Forall_forall in Hok.
  specialize (Hok (_, K) (list_elem_of_lookup_2 _ _ _ Hp)). unfold pass_ok in Hok. simpl in Hok.
  destruct o as [o|].
  - destruct Hok as (Ho & Hseen & Hsafe). simpl in Hsafe.
    destruct (plain c) eqn:Hc.
    + destruct (serve_plain c ch _ _ _ Hc Hw Hb Hs) as (Hw' & Hg & Hcont).
      destruct (plain_rule c ch _ _ _ o _ K Hc Hw Hb Hm Hg Hs Hsafe Hseen) as (K' & HQ & Harm & Hseen').
      exists (<[i := (mkThread key (note_read (Some o) c x) (k x), K')]> ps).
      assert (Hiss : Forall (fun j => i_ops j = o /\ i_verb j <> Restarts)
        (issue_of c (Some o) (world s))) by (by destruct c; try done; repeat constructor).
      eapply Good_quiet; [done..| | |].
      * simpl. split; [by apply Hg|]. by split.
      * eapply Forall_impl; [exact Hiss|]. simpl. intros j [-> _]. by apply Hg.
      * intros uid. simpl. rewrite Harm. rewrite (filter_none (is_restart uid)); [done|].
        intros j Hj [Hv _]. rewrite Forall_forall in Hiss. by apply Hiss in Hj as [_ ?].
    + destruct c; try done; simpl in *.
      * (* PatchOps *)
        destruct Hsafe as [(b & Hbin & Hv & Hk & Hr & Hbeg & Hok) Herr].
        apply write_spec in Hs as (r & Hpatch & Hx). rewrite app_nil_r.
        assert (Hinb := Hseen b Hbin).
        assert (Hcase : world_ok w' /\ grows (world s) w' /\ continues (world s) w').
        { destruct Hpatch as [Hpatch|[-> _]]; [|auto using continues_refl].
          destruct (patch_ops_world _ _ base new r b Hw Hinb Hv Hk (eq_sym Hpatch)).
          split; [done|]. split; [done|].
          destruct (patch_ops_spec _ _ base new r b Hw Hinb Hv Hk (eq_sym Hpatch))
            as [[-> _]|(Hlat & o' & _ & Hst & _ & Huid & Hact & _ & _ & [[-> _]|[-> _]])];
            [apply continues_refl..|]. apply continues_push_ops; intros o2 [= <-].
          { right. rewrite Hst. by apply began_at_rest. }
          left. exists b. split; [done|]. split; [done|]. intros Hrb. specialize (Hr Hrb).
          unfold restarted in *. apply andb_true_iff in Hrb as [Hab _].
          by rewrite Hact, Hab, Hst, recorded_at_rest. }
        destruct Hcase as (Hw' & Hg & Hcont).
        assert (Hquiet : (exists e, x = Err e) -> exists ps', Good (mkSystem w'
          (<[i := mkThread key (Some o) (k x)]> (threads s)) (issues s)) ps').
        { intros [e ->]. exists (<[i := (mkThread key (Some o) (k (Err e)), K)]> ps).
          rewrite <- (app_nil_r (issues s)).
          eapply Good_quiet; [done..| |constructor|done].
          split; [by apply Hg|]. split; [|apply Herr]. intros b' Hb'. by apply Hg, Hseen. }
        destruct Hx as [->|[cause He]]; [|by apply Hquiet; eexists].
        destruct Hpatch as [Hpatch|[_ He]]; [|by apply Hquiet].
        destruct (patch_ops_spec _ _ base new r b Hw Hinb Hv Hk (eq_sym Hpatch))
          as [[_ He]|(Hlat & o' & -> & Hst & Hko & Huid & Hact & _ & _ & Hw2)]; [by apply Hquiet|].
        assert (Hlat' : latest (operations w') (ops_key b) = Some o').
        { destruct Hw2 as [[-> ->]|[-> _]]; [done|]. simpl. by rewrite latest_push, decide_True. }
        specialize (Hok o' (prunes (world s)) Hst ltac:(congruence)).
        assert (Hpass : pass_ok w' (mkThread key (Some o) (k (Ok o')), after_patch (o_UID o) b o' K)).
        { split; [by apply Hg|]. split; [|done].
          intros b' [->|Hb']%elem_of_cons; [|by apply Hg, Hseen].
          rewrite Hko. by apply latest_in. }
        eexists (<[i := (_, after_patch (o_UID o) b o' K)]> ps).
        destruct (arms (o_UID o) b o') eqn:Harm.
        -- exact (Good_arms s ps i _ K _ _ w' o b o' G Hp Hw' Hg Hcont Hpass eq_refl eq_refl Hlat Hlat' Huid Hact Harm).
        -- rewrite <- (app_nil_r (issues s)). eapply Good_quiet; [done..|constructor|].
           intros uid. simpl. by rewrite Harm, orb_false_r.
      * (* RestartDevice *)
        destruct Hsafe as [Harm HQ]. destruct ch; try done. injection Hs as <- <-.
        exists (<[i := (mkThread key (Some o) (k r), mkToken (seen K) false)]> ps).
        eapply Good_quiet; [exact G|exact Hp|exact Hw|apply grows_refl|apply continues_refl| | |].
        -- split; [exact Ho|]. split; [exact Hseen|apply HQ].
        -- by constructor.
        -- intros uid. simpl. rewrite Harm. unfold issue_of. simpl. rewrite filter_cons. simpl.
           repeat case_decide; simpl; naive_solver.
  - destruct Hok as [Harm Hun]. simpl in Hun. destruct c; try done. destruct Hun as [-> Hun].
    simpl in Hs. apply lookup_spec in Hs as [-> Hx]. specialize (Hun x). rewrite app_nil_r.
    destruct x as [o|e]; simpl.
    + specialize (Hx o eq_refl). assert (Hk := version_key _ _ _ Hw Hx).
      exists (<[i := (mkThread key (Some o) (k (Ok o)), mkToken [o] false)]> ps).
      rewrite <- (app_nil_r (issues s)).
      eapply Good_quiet; [exact G|exact Hp|exact Hw|apply grows_refl|apply continues_refl| |constructor|].
      * split; simpl; [by rewrite Hk|]. split; [|apply Hun; [done|exact (Hb _ _ Hx)]].
        intros b [->|Hin]%elem_of_cons; [by rewrite Hk|by apply elem_of_nil in Hin].
      * intros uid. simpl. repeat case_decide; naive_solver.
    + exists (<[i := (mkThread key None (k (Err e)), K)]> ps).
      rewrite <- (app_nil_r (issues s)).
      eapply Good_quiet; [exact G|exact Hp|exact Hw|apply grows_refl|apply continues_refl| |constructor|done].
      split; [done|]. simpl. destruct Hun as [y ->]. done.
Qed.

Context (Quote : string -> string) (DefaultRetry : nat) (ctx : Context) (monitored : bool).
Context (g : Regime).

Abbreviation Reconcile := (Reconcile Quote DefaultRetry ctx monitored).

Lemma Reconcile_unread key : unread key (Reconcile key).
Proof.
  simpl. split; [done|]. intros [o|[| |cause]]; try by eexists.
  intros Hk Hb. apply wp_bind. eapply wp_mono; [|apply (reconcile_starts _ _ _ _ _ o)].
  - by intros [o' r] K.
  - by split; [|split; [left|]].
Qed.

Lemma Good_take s ps t s' :
  Good s ps -> all_mirrored (world s') -> take Quote DefaultRetry ctx monitored g s t = Some s' ->
  exists ps', Good s' ps'.
Proof.
  intros G Hm. assert (Hw := good_world _ _ G). destruct t as [e|key|i ch|i]; simpl.
  - destruct (apply_edit (reusing g) e (world s)) as [w'|] eqn:He; [|done]. intros [= <-].
    assert (Hw' := apply_edit_world _ _ _ _ Hw He). assert (Hg := apply_edit_grows _ _ _ _ He).
    assert (Hc := apply_edit_continues _ _ _ _ (good_began _ _ G) He).
    exists ps. constructor; simpl.
    + apply (good_threads _ _ G).
    + done.
    + eapply continues_began; [apply (good_began _ _ G)|done].
    + eapply Forall_impl; [apply (good_passes _ _ G)|]. intros p. by apply pass_ok_grows.
    + eapply Forall_impl; [apply (good_issues _ _ G)|]. simpl. intros j. apply Hg.
    + apply (good_once _ _ G).
    + intros uid key o. by apply recorded_continues.
  - destruct (_ || _); [|done]. intros [= <-].
    exists (ps ++ [(mkThread key None (Reconcile key), mkToken [] false)])%list.
    assert (Heq : forall uid, tokens uid (issues s)
        (ps ++ [(mkThread key None (Reconcile key), mkToken [] false)])%list = tokens uid (issues s) ps).
    { intros uid. unfold tokens. rewrite filter_app, length_app. simpl. lia. }
    constructor; simpl.
    + by rewrite fmap_app, (good_threads _ _ G).
    + done.
    + apply (good_began _ _ G).
    + apply Forall_app. split; [apply (good_passes _ _ G)|]. constructor; [|constructor].
      split; [done|]. apply Reconcile_unread.
    + apply (good_issues _ _ G).
    + intros uid. rewrite Heq. apply (good_once _ _ G).
    + intros uid key' o. rewrite Heq. apply (good_recorded _ _ G).
  - destruct (threads s !! i) as [[key o [x|X c k]]|] eqn:Hi; try done.
    destruct (admissible g ch); [|done].
    destruct (serve c ch (world s)) as [[w x]|] eqn:Hs; [|done]. intros [= <-].
    by eapply Good_call.
  - destruct (threads s !! i) as [[key o p]|] eqn:Hi; [|done]. intros [= <-].
    rewrite (good_threads _ _ G), list_lookup_fmap in Hi.
    destruct (ps !! i) as [[t K]|] eqn:Hp; simplify_eq/=.
    pose proof (good_passes _ _ G) as Hok. rewrite Forall_forall in Hok.
    specialize (Hok (_, K) (list_elem_of_lookup_2 _ _ _ Hp)).
    eexists (<[i := (_, K)]> ps). rewrite <- (app_nil_r (issues s)).
    eapply Good_quiet; [exact G|exact Hp|exact Hw|apply grows_refl|apply continues_refl| |constructor|done].
    unfold pass_ok in *. simpl in *. destruct o; naive_solver.
Qed.

Lemma Good_empty pruning : Good (empty pruning) [].
Proof.
  constructor; simpl; try done.
  - constructor; simpl; try (by apply ordered_empty).
    intros key key' o o' Hin. by apply elem_of_nil in Hin.
  - intros key o Hin. by apply elem_of_nil in Hin.
  - intros uid. unfold tokens. simpl. lia.
Qed.

Lemma reachable_Good s :
  reachable Quote DefaultRetry ctx monitored g s -> all_mirrored (world s) -> exists ps, Good s ps.
Proof.
  intros [pruning Hs].
  refine (rtc_ind_r (fun s => all_mirrored (world s) -> exists ps, Good s ps) _ _ _ s Hs).
  - intros _. exists []. apply Good_empty.
  - intros s1 s2 _ [t Ht] IH Hm. destruct IH as [ps G]; [|by eapply Good_take].
    intros key d Hd. eapply Hm. by eapply (take_grows _ _ _ _ _ _ _ _ Ht).
Qed.

(** The restarts issued for an operation. *)
Definition restarts (uid : string) (s : System) : nat :=
  length (filter (is_restart uid) (issues s)).

(** C1. However passes interleave, lag, lose their answers and stop, no operation has
    its device restarted twice, as long as a mirror that says which device it is says in
    which status the device was. *)
Theorem restart_issued_once s uid :
  reachable Quote DefaultRetry ctx monitored g s ->
  all_mirrored (world s) ->
  restarts uid s <= 1.
Proof.
  intros Hs Hm. destruct (reachable_Good s Hs Hm) as [ps G].
  pose proof (good_once _ _ G uid) as H. unfold tokens in H. unfold restarts. lia.
Qed.

End Once.

(** ** Runs *)

Section Runs.

Import DeviceOps.Runs.

Definition check_mirrored (w : World) : bool :=
  forallb (fun kv => forallb (fun v =>
    match v with
    | Some d => String.eqb (d_ClusterID d) "" || negb (String.eqb (d_DeviceStatus d) "")
    | None => true
    end) kv.2) (map_to_list (devices w)).

Lemma check_mirrored_all w : check_mirrored w = true -> all_mirrored w.
Proof.
  unfold check_mirrored. rewrite forallb_forall. intros H key d Hd Hc. unfold versions in Hd.
  destruct (devices w !! key) as [l|] eqn:E; simpl in Hd; [|by apply elem_of_nil in Hd].
  specialize (H (key, l)). rewrite forallb_forall in H.
  apply elem_of_map_to_list, list_elem_of_In in E. specialize (H E (Some d)). simpl in H.
  apply list_elem_of_In in Hd. specialize (H Hd).
  apply orb_true_iff in H as [H|H]; [by apply String.eqb_eq in H|].
  by apply negb_true_iff, String.eqb_neq in H.
Qed.

(** A pass restarts the device and moves on; another, whose cache is two versions behind,
    comes to the same step. *)
Definition twice : list turn :=
  (beginning ++
   pass_of 2 (reads ++ [At t0; served; Obeys (Ok ()); Recorded; At t0; served]) ++
   pass_of 3 [Served 2; served; ours; At t0; At t0; At t0; served])%list.

Lemma restart_issued_once_witness :
  exists s, reachable quote 4 Background true anything s /\ all_mirrored (world s) /\
    restarts "uid-a" s = 1 /\ restarts "uid-a" s <= 1.
Proof.
  destruct (play_all anything false twice) as [s|] eqn:E; [|exfalso; vm_compute in E; discriminate E].
  exists s.
  assert (Hr : restarts "uid-a" <$> play_all anything false twice = Some 1) by (vm_compute; reflexivity).
  assert (Hm : check_mirrored <$> (world <$> play_all anything false twice) = Some true)
    by (vm_compute; reflexivity).
  rewrite E in Hr, Hm. injection Hr as Hr. injection Hm as Hm.
  assert (Hreach : reachable quote 4 Background true anything s) by by eapply play_all_reachable.
  assert (Hall : all_mirrored (world s)) by by apply check_mirrored_all.
  split; [exact Hreach|]. split; [exact Hall|]. split; [exact Hr|].
  exact (restart_issued_once quote 4 Background true anything s "uid-a" Hreach Hall).
Defined.

(** The record of a restart is written ahead of the call, and is all that is looked at
    afterwards: where the pass stops between the two, the operation goes on, waits for a
    device that never left, and says that it was restarted. *)
Definition stopped_at_the_call : list turn :=
  (beginning ++
   pass_of 2 (reads ++ [At t0; served]) ++ [Stops 2] ++
   pass_of 3 (reads ++ [At t0; served]) ++
   pass_of 4 (reads ++ [Reports (Ok cpDeviceOnline); served; served; Recorded; At t0; served]))%list.

Lemma a_restart_never_issued_succeeds :
  (fun s => (restarts "uid-a" s, (fun st => (Phase st, Message st)) <$> status_of s)) <$>
    play_all calm false stopped_at_the_call =
  Some (0, Some (PhaseSucceeded, "device disk was restarted and is back in service")).
Proof. vm_compute. reflexivity. Qed.

(** The same where the installed schema prunes the claim, whose patch has put the record
    down by then: the call is not held until the schema is upgraded. *)
Definition pruned_claim : list turn :=
  (beginning ++
   pass_of 2 (reads ++ [At t0; served]) ++
   pass_of 3 (reads ++ [At t0; served]) ++
   pass_of 4 (reads ++ [Reports (Ok cpDeviceOnline); served; served; Recorded; At t0; served]))%list.

Lemma a_pruned_claim_skips_the_restart :
  (fun s => (restarts "uid-a" s, (fun t => match t_code t with Ret r => Some r | _ => None end) <$>
      threads s !! 2, Phase <$> status_of s)) <$> play_all calm true pruned_claim =
  Some (0, Some (Some (Err ErrClaimNotStored)), Some PhaseSucceeded).
Proof. vm_compute. reflexivity. Qed.

(** What the wait asks is where the device is now, not whether it has been away: a device
    that is still reported as it was before the restart ends the operation. *)
Definition never_gone : list turn :=
  (beginning ++
   pass_of 2 (reads ++ [At t0; served; Obeys (Ok ()); Recorded; At t0; served]) ++
   pass_of 3 (reads ++ [Reports (Ok cpDeviceOnline); served; served; Recorded; At t0; served]))%list.

Lemma a_device_that_never_left_is_back :
  (fun s => (restarts "uid-a" s, (fun st => (DeviceStatusBefore st, Phase st)) <$> status_of s)) <$>
    play_all calm false never_gone =
  Some (1, Some (cpDeviceOnline, PhaseSucceeded)).
Proof. vm_compute. reflexivity. Qed.

(** A pass that reads the operation as it was created begins it again after it ended. *)
Definition began_again : list turn :=
  (never_gone ++
   pass_of 4 [Served 4; served; ours; served; At t0; At t0; Recorded; served; served; served])%list.

Lemma a_finished_operation_begins_again :
  (fun s => Phase <$> status_of s) <$> play_all (mkRegime true false false) false never_gone =
    Some (Some PhaseSucceeded) /\
  (fun s => Phase <$> status_of s) <$> play_all (mkRegime true false false) false began_again =
    Some (Some PhaseRunning).
Proof. split; vm_compute; reflexivity. Qed.

(** An attempt at the lock that lost a race names the operation itself as what it waits
    for. *)
Definition lost_race : list turn :=
  ([Edits (CreateOps the_ops); Edits (CreateDevice the_device)] ++
   pass_of 0 [served; served] ++
   pass_of 1 [served; served; ours] ++ [Edits (Mirror the_device)] ++ (Calls 1 <$> [served; served]))%list.

Lemma a_lost_race_waits_for_itself :
  (fun s => Message <$> status_of s) <$> play_all calm false lost_race =
  Some (Some "waiting for restart-a to finish with device disk").
Proof. vm_compute. reflexivity. Qed.

End Runs.

End DeviceRestart.
