(* ===== verification/DeviceLock.v ===== *)
(** One operation at a time on a device, and where an operation may go.

    Without lagging caches, overlapping passes of one operation and names that are
    used again, a pass knows more of the server than it was answered with: what it
    learned of its own operation, of the lock it took and of holders that ended stays
    true while it runs.  [Know] is that knowledge, [lock_rule] what each call needs
    of it and adds to it, [holds] what it means of the server, and [Calm] the
    invariant of the interleaved system.  A verb is only issued by the holder of the
    device's lock, and every version of an operation follows the one before it along
    [moves], the operation's phases over its graph.

    With all of these, a pass knows what it was told: [told_held] is what the API server
    last said of the lock, and a pass makes its verbs only where it said that the lock is
    the operation's ([reconcile_verb]). *)

From Stdlib Require Import Ascii String.
From S2P Require Import Prelude.
From S2P Require Import Programs.
From S2P Require Import StateMachine.
From S2P Require Import OpsGraphs.
From S2P Require Import GoStrings.
From S2P Require Import DeviceOps.
From S2P Require Import DeviceRestart.

#[local] Open Scope string_scope.

Module DeviceLock.

Import DeviceOps.

(** ** Where an operation may go *)

Definition state_of (st : Status) : string := kube_State (Step st).

(** A move of an operation of [action]: it begins at the start of its graph, follows an
    edge, ends where the graph ends, is aborted where the graph allows it, or fails; an
    operation that ended does not move. *)
Inductive moves (action : string) (st st' : Status) : Prop :=
| moves_begins (graph : Config string Time) :
    terminal (Phase st) = false -> state_of st = "" ->
    Device.storageDeviceOpsGraphs !! action = Some graph ->
    Phase st' = PhaseRunning -> state_of st' = Initial graph -> moves action st st'
| moves_on (graph : Config string Time) def :
    terminal (Phase st) = false ->
    Device.storageDeviceOpsGraphs !! action = Some graph ->
    States graph !! state_of st = Some def -> state_of st' ∈ To def ->
    Phase st' = Phase st -> moves action st st'
| moves_succeeds (graph : Config string Time) def :
    terminal (Phase st) = false ->
    Device.storageDeviceOpsGraphs !! action = Some graph ->
    States graph !! state_of st = Some def -> To def = [] ->
    Phase st' = PhaseSucceeded -> state_of st' = StepCompleted -> moves action st st'
| moves_aborts (graph : Config string Time) def :
    terminal (Phase st) = false ->
    Device.storageDeviceOpsGraphs !! action = Some graph ->
    States graph !! state_of st = Some def -> Abortable def = true ->
    Phase st' = PhaseAborted -> state_of st' = state_of st -> moves action st st'
| moves_fails :
    terminal (Phase st) = false ->
    Phase st' = PhaseFailed -> state_of st' = state_of st -> moves action st st'
| moves_stays :
    terminal (Phase st) = false ->
    Phase st' = Phase st -> state_of st' = state_of st -> moves action st st'.

Lemma moves_live action st st' : moves action st st' -> terminal (Phase st) = false.
Proof. by destruct 1. Qed.

(** Only the phase and the state matter. *)
Lemma moves_proper action st1 st1' st2 st2' :
  Phase st1 = Phase st2 -> state_of st1 = state_of st2 ->
  Phase st1' = Phase st2' -> state_of st1' = state_of st2' ->
  moves action st1 st1' -> moves action st2 st2'.
Proof.
  intros E1 E2 E3 E4. destruct 1; rewrite E1 in *; rewrite ?E2, ?E3, ?E4 in *.
  - by eapply moves_begins.
  - eapply moves_on; eauto; congruence.
  - by eapply moves_succeeds.
  - by eapply moves_aborts.
  - by eapply moves_fails.
  - eapply moves_stays; congruence.
Qed.

Lemma moves_at_rest action pruned st st' :
  moves action st st' -> moves action st (at_rest pruned st').
Proof. by apply moves_proper. Qed.

(** ** What a pass knows *)

Section Knows.

(** The operation the pass is for, as it read it first. *)
Context (o0 : Ops).

Definition dev_key : string * string := (o_Namespace o0, o_DeviceRef o0).

Record Know := mkKnow {
  k_status : option Status;
  k_lock : bool;
  k_ops : list Ops;
  k_devices : list Device;
  k_ended : list string;
}.

(** The operation is known to run. *)
Definition runs (k : Know) : bool :=
  match k_status k with Some st => negb (terminal (Phase st)) | None => false end.

Definition saw_ops (o : Ops) (k : Know) : Know :=
  mkKnow (k_status k) (k_lock k) (o :: k_ops k) (k_devices k) (k_ended k).
Definition saw_end (name : string) (k : Know) : Know :=
  mkKnow (k_status k) (k_lock k) (k_ops k) (k_devices k) (name :: k_ended k).
(** A device that says the operation holds it is held while the operation runs. *)
Definition saw_device (d : Device) (k : Know) : Know :=
  mkKnow (k_status k)
    (k_lock k || (bool_decide (device_key d = dev_key) &&
       String.eqb (d_ActiveOpsRef d) (o_Name o0) && runs k))
    (k_ops k) (d :: k_devices k) (k_ended k).
Definition wrote (st : option Status) (k : Know) : Know :=
  mkKnow st (k_lock k && runs (mkKnow st false [] [] [])) (k_ops k) (k_devices k) (k_ended k).
Definition locked (b : bool) (k : Know) : Know :=
  mkKnow (k_status k) b (k_ops k) (k_devices k) (k_ended k).

(** The base of a write is a version the pass was answered with. *)
Definition based (k : Know) (base : Ops) : Prop :=
  exists b, b ∈ k_ops k /\ o_ResourceVersion b = o_ResourceVersion base /\
    ops_key b = ops_key base /\ o_Status b = o_Status base.

Definition lock_rule X (c : call X) : (X -> Know -> Prop) -> Know -> Prop :=
  match c in call X return (X -> Know -> Prop) -> Know -> Prop with
  | GetOps key => fun Q k =>
      if decide (key = ops_key o0) then
        forall r, (forall o, r = Ok o -> ops_key o = key /\
            forall st, k_status k = Some st -> o_Status o = st) ->
          Q r (match r with Ok o => saw_ops o k | Err _ => k end)
      else
        (key.1 = o_Namespace o0 /\ key.2 <> "" /\
           exists d, d ∈ k_devices k /\ d_Namespace d = key.1 /\ d_ActiveOpsRef d = key.2) /\
        forall r,
          Q r (match r with
               | Ok o => if terminal (Phase (o_Status o)) then saw_end key.2 k else k
               | Err NotFound => saw_end key.2 k
               | Err _ => k
               end)
  | GetDevice key => fun Q k => forall r, (forall d, r = Ok d -> device_key d = key) ->
      Q r (match r with Ok d => saw_device d k | Err _ => k end)
  | PatchDevice base new => fun Q k =>
      device_key base = dev_key /\
      (exists d, d ∈ k_devices k /\ d_ResourceVersion d = d_ResourceVersion base /\
         device_key d = device_key base /\ d_ActiveOpsRef d = d_ActiveOpsRef base) /\
      ((d_ActiveOpsRef new = o_Name o0 /\ runs k = true /\
        (d_ActiveOpsRef base = "" \/ d_ActiveOpsRef base ∈ k_ended k) /\
        forall r, (forall d, r = Ok d -> device_key d = dev_key) ->
          Q r (match r with Ok _ => locked true k | Err _ => k end)) \/
       (d_ActiveOpsRef new = "" /\ d_ActiveOpsRef base = o_Name o0 /\
        forall r, Q r (locked false k)))
  | PatchOps base new => fun Q k =>
      ops_key base = ops_key o0 /\ is_Some (k_status k) /\ based k base /\
      moves (o_Action o0) (o_Status base) (o_Status new) /\
      (forall o pruned, o_Status o = at_rest pruned (o_Status new) -> ops_key o = ops_key o0 ->
         o_DeviceRef o = o_DeviceRef o0 -> o_Action o = o_Action o0 ->
         Q (Ok o) (saw_ops o (wrote (Some (o_Status o)) k))) /\
      Q (Err Conflict) k /\
      forall e, e <> Conflict -> Q (Err e) (wrote None k)
  | UpdateOps new => fun Q k => ops_key new = ops_key o0 /\ forall r, Q r (wrote None k)
  | RestartDevice _ => fun Q k => k_lock k = true /\ forall r, Q r k
  | RemoveDevice _ => fun Q k => k_lock k = true /\ forall r, Q r k
  | FailDevice _ => fun Q k => k_lock k = true /\ forall r, Q r k
  | _ => fun Q k => forall r, Q r k
  end.

#[local] Program Instance lock_rules : Rule call Know := {| rule := lock_rule |}.
Next Obligation.
  intros X c P Q k HPQ. destruct c; simpl; try (by auto); try (by intros [? ?]; auto).
  - destruct (decide _); [by auto|]. intros [? ?]. split; auto.
  - intros (Hk & Hs & Hb & Hm & Ho & Hc & He). split; [done|]. split; [done|]. split; [done|].
    split; [done|].
    split; [intros o pruned H1 H2 H3 H4; by eapply HPQ, Ho|]. split; [auto|]. intros e H1. by apply HPQ, He.
  - intros (? & ? & [(? & ? & ? & ?)|(? & ? & ?)]); (split; [done|]); (split; [done|]);
      [left|right]; repeat split; auto.
Qed.

(** *** What stays known *)

Definition extends (k k' : Know) : Prop :=
  k_status k' = k_status k /\ (forall o, o ∈ k_ops k -> o ∈ k_ops k') /\
  (forall d, d ∈ k_devices k -> d ∈ k_devices k') /\ (forall n, n ∈ k_ended k -> n ∈ k_ended k').

Lemma extends_refl k : extends k k.
Proof. by repeat split. Qed.

Lemma extends_trans k1 k2 k3 : extends k1 k2 -> extends k2 k3 -> extends k1 k3.
Proof.
  intros (E1 & O1 & D1 & N1) (E2 & O2 & D2 & N2). split; [congruence|]. repeat split; auto.
Qed.

Lemma extends_device d k : extends k (saw_device d k).
Proof. repeat split; simpl; try done. intros d'. by right. Qed.

Lemma extends_end n k : extends k (saw_end n k).
Proof. repeat split; simpl; try done. intros n'. by right. Qed.

Lemma extends_locked b k : extends k (locked b k).
Proof. done. Qed.

(** The object a running pass works on has the status the operation has. *)
Record running (o : Ops) (k : Know) : Prop := {
  running_status : k_status k = Some (o_Status o);
  running_live : terminal (Phase (o_Status o)) = false;
  running_key : ops_key o = ops_key o0;
  running_device : o_DeviceRef o = o_DeviceRef o0;
  running_action : o_Action o = o_Action o0;
  running_based : based k o;
}.

Lemma running_runs o k : running o k -> runs k = true.
Proof. intros [E L _ _ _ _]. unfold runs. by rewrite E, L. Qed.

Lemma running_extends o k k' : extends k k' -> running o k -> running o k'.
Proof.
  intros (E & O & _ & _) [Es L K D A (b & Hb & Hrest)].
  constructor; try done; [congruence|]. exists b. auto.
Qed.

(** A device that was read, and what it says of the lock. *)
Definition read_device (d : Device) (k : Know) : Prop :=
  device_key d = dev_key /\ d ∈ k_devices k /\
  (d_ActiveOpsRef d = o_Name o0 -> runs k = true -> k_lock k = true).

Lemma saw_device_read d k : device_key d = dev_key -> read_device d (saw_device d k).
Proof.
  intros Hk. split; [done|]. split; [by left|]. intros Hn Hr. simpl.
  change (runs k = true) in Hr.
  by rewrite Hr, Hn, String.eqb_refl, bool_decide_eq_true_2, orb_true_r.
Qed.

Context (Quote : string -> string) (DefaultRetry : nat) (ctx : Context) (monitored : bool).

Lemma target_wp o k (Q : Ops * res error Device -> Know -> Prop) :
  ops_key o = ops_key o0 -> o_DeviceRef o = o_DeviceRef o0 ->
  (forall e k', extends k k' -> k_lock k' = k_lock k -> Q (o, Err e) k') ->
  (forall d k', extends k k' -> (k_lock k = true -> k_lock k' = true) -> read_device d k' ->
     Q (o, Ok d) k') ->
  wp (target Quote o) Q k.
Proof.
  intros Hk Hd He Hok. unfold target. apply wp_act. simpl. intros [d|e] Hdev; simpl.
  - apply Hok; [apply extends_device|simpl; by intros ->|]. apply saw_device_read.
    rewrite (Hdev d eq_refl). unfold dev_key. injection Hk as <- _. by rewrite Hd.
  - destruct e; simpl; by apply He.
Qed.

Lemma releaseLock_wp device o k (Q : Ops * res error unit -> Know -> Prop) :
  device_key device = dev_key -> o_Name o = o_Name o0 ->
  (forall r k', extends k k' -> Q (o, r) k') ->
  wp (releaseLock device o) Q k.
Proof.
  intros Hk Hn HQ. unfold releaseLock. apply wp_act. simpl. intros [fresh|[]] Hdev; simpl;
    try (by apply HQ).
  specialize (Hdev fresh eq_refl). rewrite Hn.
  destruct (String.eqb_spec (d_ActiveOpsRef fresh) (o_Name o0)) as [E|E]; simpl.
  - split; [congruence|]. split.
    { exists fresh. split; [by left|done]. }
    right. split; [done|]. split; [done|].
    intros [d|e]; simpl; apply HQ; (eapply extends_trans; [apply extends_device|apply extends_locked]).
  - apply HQ, extends_device.
Qed.

(** *** Writing the status *)

Lemma moves_generation action st st' generation :
  moves action st st' -> moves action st (with_generation st' generation).
Proof. by apply moves_proper. Qed.

(** The status after a write of [change] to it. *)
Definition written (change : Status -> Status) (st st' : Status) : Prop :=
  exists pruned generation, st' = at_rest pruned (with_generation (change st) generation).

Lemma writeStatus_wp change o k (Q : Ops * res error unit -> Know -> Prop) :
  running o k -> moves (o_Action o0) (o_Status o) (change (o_Status o)) ->
  (forall o' e k', (forall m, e <> Refusal m) -> Q (o', Err e) k') ->
  (forall o' k', written change (o_Status o) (o_Status o') ->
     k_status k' = Some (o_Status o') -> ops_key o' = ops_key o0 ->
     o_DeviceRef o' = o_DeviceRef o0 -> o_Action o' = o_Action o0 -> based k' o' ->
     (k_lock k = true -> runs k' = true -> k_lock k' = true) -> k_devices k' = k_devices k ->
     Q (o', Ok ()) k') ->
  wp (writeStatus DefaultRetry change o) Q k.
Proof.
  intros Hrun Hmoves He Hok.
  set (P := fun (r : Ops * res api_error unit) (k' : Know) =>
    match r.2 with
    | Ok _ => written change (o_Status o) (o_Status r.1) /\
        k_status k' = Some (o_Status r.1) /\ ops_key r.1 = ops_key o0 /\
        o_DeviceRef r.1 = o_DeviceRef o0 /\ o_Action r.1 = o_Action o0 /\ based k' r.1 /\
        (k_lock k = true -> runs k' = true -> k_lock k' = true) /\ k_devices k' = k_devices k
    | Err Conflict => r.1 = o /\ running o k' /\ (k_lock k = true -> k_lock k' = true) /\
        k_devices k' = k_devices k
    | Err _ => True
    end).
  assert (Hpatch : forall fresh k1, running o k1 -> (k_lock k = true -> k_lock k1 = true) ->
    k_devices k1 = k_devices k -> based k1 fresh -> ops_key fresh = ops_key o0 ->
    o_Status fresh = o_Status o ->
    wp (do r <- PatchOps fresh (with_status fresh
          (with_generation (change (o_Status fresh)) (o_Generation fresh)));
        match r with
        | Ok answered =>
            Ret (with_version (with_status o (o_Status answered)) (o_ResourceVersion answered), Ok ())
        | Err e => Ret (o, Err e)
        end) P k1).
  { intros fresh k1 Hr1 Hl Hdev Hb Hk Hst. simpl. split; [done|].
    split; [rewrite (running_status _ _ Hr1); by eexists|]. split; [done|]. rewrite Hst. split; [by apply moves_generation|].
    split; [|split; [done|intros [| |cause] Hne; done]].
    intros answered pruned Ha Hka _ _. unfold P. simpl.
    split; [by exists pruned, (o_Generation fresh)|]. split; [done|].
    split; [apply (running_key _ _ Hr1)|]. split; [apply (running_device _ _ Hr1)|].
    split; [apply (running_action _ _ Hr1)|].
    split; [|split; [|done]].
    - exists answered. split; [by left|]. split; [done|].
      split; [rewrite Hka; symmetry; apply (running_key _ _ Hr1)|done].
    - intros Hlk Hrn. rewrite (Hl Hlk). exact Hrn. }
  assert (Honce : forall reread k1, running o k1 -> (k_lock k = true -> k_lock k1 = true) ->
    k_devices k1 = k_devices k -> wp (write_once reread change o) P k1).
  { intros [] k1 Hr1 Hl Hdev; unfold write_once.
    - simpl. rewrite decide_True by apply (running_key _ _ Hr1).
      intros [fresh|e] Hfresh.
      + destruct (Hfresh fresh eq_refl) as [Hk Hst].
        apply Hpatch; try done.
        * eapply running_extends; [|done]. repeat split; simpl; try done. intros o'. by right.
        * exists fresh. split; [by left|done].
        * rewrite Hk. apply (running_key _ _ Hr1).
        * apply Hst, (running_status _ _ Hr1).
      + simpl. unfold P. simpl. by destruct e.
    - apply Hpatch; try done; [apply (running_based _ _ Hr1)|apply (running_key _ _ Hr1)]. }
  assert (Hall : forall retries reread k1, running o k1 -> (k_lock k = true -> k_lock k1 = true) ->
    k_devices k1 = k_devices k -> wp (write_status retries reread change o) P k1).
  { induction retries as [|retries IH]; intros reread k1 Hr1 Hl Hdev; cbn [write_status];
      apply wp_bind; (eapply wp_mono; [|by apply Honce]); intros [o' [x|[| |cause]]] k2 H; try done.
    destruct H as (Ho & Hr2 & Hl2 & Hd2). simpl in Ho. subst o'. by apply IH. }
  unfold writeStatus. apply wp_bind. eapply wp_mono; [|by apply Hall].
  intros [o' [[]|e]] k' H; [|by apply He].
  destruct H as (? & ? & ? & ? & ? & ? & ? & ?). by apply Hok.
Qed.

(** *** A step *)

(** Between taking the lock and moving on: the operation runs in the state it was read
    in, and its device is its own. *)
Definition going (state : string) (o : Ops) (k : Know) : Prop :=
  running o k /\ state_of (o_Status o) = state /\ k_lock k = true.

(** Acts of a step; an error that does not end the operation ends the pass. *)
Definition goes (state : string) {A} (m : act A) : Prop :=
  forall o k, going state o k ->
    wp (m o) (fun '(o, r) k =>
      match r with Ok _ | Err (Refusal _) => going state o k | Err _ => True end) k.

Lemma goes_bind state {A B} (m : act A) (f : A -> act B) :
  goes state m -> (forall x, goes state (f x)) -> goes state (m ≫= f).
Proof.
  intros Hm Hf o k Ho. apply wp_act. eapply wp_mono; [|by apply Hm].
  intros [o' [x|[]]] k' H; try done. by apply Hf.
Qed.

Lemma goes_ret state {A} (x : A) : goes state (ret x : act A).
Proof. by intros o k Ho. Qed.

Lemma goes_raise state {A} e : goes state (raise e : act A).
Proof. intros o k Ho. simpl. by destruct e. Qed.

Lemma goes_held state : goes state (held : act Ops).
Proof. by intros o k Ho. Qed.

(** What a step calls besides writing its status. *)
Definition steps_with {X} (c : call X) : bool :=
  match c with
  | RestartDevice _ | RemoveDevice _ | FailDevice _ | ReadDevice _ | CheckHealth _ | Now
  | Event _ _ _ => true
  | _ => false
  end.

Lemma goes_tell state {X} (c : call X) : steps_with c = true -> goes state (tell c : act X).
Proof.
  intros Hc o k Ho. assert (Hl : k_lock k = true) by apply Ho.
  destruct c; try done; simpl; try (split; [done|]); by intros.
Qed.

(** A write that leaves the operation in its phase and state. *)
Lemma goes_writeStatus state change :
  (forall st, Phase (change st) = Phase st /\ state_of (change st) = state_of st) ->
  goes state (writeStatus DefaultRetry change).
Proof.
  intros Hc o k (Hr & Hst & Hl). destruct (Hc (o_Status o)) as [Hp Hs].
  assert (Hlive := running_live _ _ Hr).
  apply writeStatus_wp; [done|by apply moves_stays| |].
  - intros o' e k' He. destruct e; try done. by destruct (He message).
  - intros o' k' (pruned & generation & Ew) Hks Hko Hd Ha Hb Hlock Hdev.
    assert (Hp' : Phase (o_Status o') = Phase (o_Status o)) by by rewrite Ew.
    assert (Hrun : running o' k') by (constructor; congruence).
    split; [done|]. split; [rewrite Ew; unfold state_of in *; simpl; congruence|].
    apply Hlock; [done|]. by eapply running_runs.
Qed.

Lemma goes_note state message : goes state (note DefaultRetry message).
Proof.
  unfold note. apply goes_bind; [apply goes_held|]. intros o.
  destruct (String.eqb _ _); [apply goes_ret|]. by apply goes_writeStatus.
Qed.

Lemma goes_once state fire also :
  (forall st, Phase (also st) = Phase st /\ state_of (also st) = state_of st) ->
  goes state fire -> goes state (once fire also).
Proof.
  intros Ha Hfire o k Ho. unfold once. apply wp_act. simpl. intros now.
  destruct (claim_held _ _); [done|]. destruct Ho as (Hr & Hst & Hl). simpl.
  split; [apply (running_key _ _ Hr)|].
  split; [rewrite (running_status _ _ Hr); by eexists|]. split; [apply (running_based _ _ Hr)|].
  destruct (Ha (with_step (o_Status o) (claimed_snapshot (Step (o_Status o)) claimLease now)))
    as [Hp Hs].
  assert (Hlive := running_live _ _ Hr).
  split; [by apply moves_stays|].
  split; [|split; [by split; [|split]|intros [| |cause] Hne; done]].
  intros answered pruned Hsta Hka Hd Hact.
  assert (Hgo : going state answered (saw_ops answered (wrote (Some (o_Status answered)) k))).
  { assert (Hphase : Phase (o_Status answered) = Phase (o_Status o)) by by rewrite Hsta.
    split; [constructor; try done; [congruence|]|split].
    - exists answered. split; [by left|done].
    - rewrite Hsta. unfold state_of in *. simpl in *. congruence.
    - simpl. unfold runs. simpl. by rewrite Hl, Hphase, Hlive. }
  destruct (stored _ _); [|done].
  by apply (goes_bind state fire (fun _ => ret true)); [|intros; apply goes_ret|].
Qed.

Lemma goes_match state {E A B} (r : res E A) (f : A -> act B) (h : E -> act B) :
  (forall x, goes state (f x)) -> (forall e, goes state (h e)) ->
  goes state (match r with Ok x => f x | Err e => h e end).
Proof. by destruct r. Qed.

Lemma goes_if state {A} (b : bool) (m n : act A) :
  goes state m -> goes state n -> goes state (if b then m else n).
Proof. by destruct b. Qed.

End Knows.

#[export] Hint Resolve goes_ret goes_raise goes_held goes_tell goes_note : goes.

(** Follows the shape of an act of a step. *)
Ltac going :=
  lazymatch goal with
  | |- goes _ _ (mbind _ _) => apply goes_bind; [|intros ?]; going
  | |- goes _ _ (if _ then _ else _) => apply goes_if; going
  | |- goes _ _ (match ?r with _ => _ end) => destruct r; going
  | |- goes _ _ (let x := _ in _) => cbv zeta; going
  | |- _ => auto with goes
  end.

Section Steps.

Context (o0 : Ops).
Context (Quote : string -> string) (DefaultRetry : nat) (ctx : Context) (monitored : bool).

Abbreviation wp := (wp (H := lock_rules o0)).
Abbreviation goes := (goes o0).
Abbreviation going := (going o0).
Abbreviation running := (running o0).

Lemma goes_event state warning reason message : goes state (event warning reason message).
Proof. by apply goes_tell. Qed.

Lemma goes_verb state c refused : steps_with c = true -> goes state (verb c refused).
Proof. intros Hc. unfold verb. going. Qed.

Lemma goes_deviceAddress state device : goes state (deviceAddress device).
Proof. unfold deviceAddress. going. Qed.

Hint Resolve goes_event goes_verb goes_deviceAddress : goes.

Lemma goes_request state device : goes state (request device).
Proof. unfold request. going. apply goes_once; auto with goes. Qed.

Lemma goes_removeFromDataPath state device :
  goes state (removeFromDataPath Quote DefaultRetry device).
Proof.
  unfold removeFromDataPath. going; [by apply goes_writeStatus|]. apply goes_once; auto with goes.
Qed.

Lemma goes_requestFailure state device : goes state (requestFailure Quote device).
Proof. unfold requestFailure. going. apply goes_once; auto with goes. Qed.

Lemma goes_await state device : goes state (await Quote DefaultRetry device).
Proof. unfold await. going. Qed.

Lemma goes_checkHealth state device : goes state (checkHealth DefaultRetry monitored device).
Proof. unfold checkHealth. going. Qed.

Hint Resolve goes_request goes_removeFromDataPath goes_requestFailure goes_await
  goes_checkHealth : goes.

Lemma goes_performStep state device current :
  goes state (performStep Quote DefaultRetry monitored device current).
Proof. unfold performStep. going. Qed.

(** *** The ends of a pass *)

(** Anything may follow the last write. *)
Abbreviation last m o k := (wp (m o) (fun _ _ => True) k).

Lemma last_writeStatus change o k {A} (f : unit -> act A) :
  running o k -> moves (o_Action o0) (o_Status o) (change (o_Status o)) ->
  (forall x o' k', last (f x) o' k') ->
  last (writeStatus DefaultRetry change ≫= f) o k.
Proof. intros Hr Hm Hf. apply wp_act. apply writeStatus_wp; [done|done|done|]. intros. apply Hf. Qed.

Lemma last_ret {A} (x : A) o k : last (ret x : act A) o k.
Proof. done. Qed.

Lemma last_write change o k :
  running o k -> moves (o_Action o0) (o_Status o) (change (o_Status o)) ->
  last (writeStatus DefaultRetry change) o k.
Proof. intros Hr Hm. by apply writeStatus_wp. Qed.

Lemma running_name o k : running o k -> o_Name o = o_Name o0.
Proof. intros Hr. pose proof (running_key _ _ _ Hr) as E. by injection E. Qed.

Lemma last_fail message o k : running o k -> last (fail Quote DefaultRetry message) o k.
Proof.
  intros Hr. unfold fail.
  assert (Hend : forall k', running o k' -> last (_ ← event true "OperationFailed" message;
      now ← tell Now;
      writeStatus DefaultRetry (ended PhaseFailed without_deadline message now)) o k').
  { intros k' Hr'. apply wp_act. simpl. intros _ now. apply last_write; [done|].
    apply moves_fails; [apply (running_live _ _ _ Hr')|done|done]. }
  apply wp_act, wp_attempt, target_wp.
  - apply (running_key _ _ _ Hr).
  - apply (running_device _ _ _ Hr).
  - intros e k' Hx _. apply wp_act. simpl. by apply Hend, (running_extends o0 o k).
  - intros d k' Hx _ (Hd & _). apply wp_act. apply wp_act, wp_attempt, releaseLock_wp; [done| |].
    + by eapply running_name.
    + intros r k2 Hx2. simpl. apply Hend, (running_extends o0 o k'); [done|].
      by apply (running_extends o0 o k).
Qed.

Lemma last_succeed device o k (graph : Config string Time) def :
  device_key device = dev_key o0 -> running o k ->
  Device.storageDeviceOpsGraphs !! o_Action o0 = Some graph ->
  States graph !! state_of (o_Status o) = Some def -> To def = [] ->
  last (succeed DefaultRetry device) o k.
Proof.
  intros Hd Hr Hg Hdef Hto. unfold succeed. apply wp_act, releaseLock_wp; [done| |].
  { by eapply running_name. }
  intros [[]|e] k' Hx; [|done]. assert (Hr' := running_extends o0 o k k' Hx Hr).
  apply wp_act. simpl. intros _ now. apply last_write; [done|].
  eapply moves_succeeds; [apply (running_live _ _ _ Hr)|done..].
Qed.

Lemma last_abort device current o k (graph : Config string Time) def :
  device_key device = dev_key o0 -> running o k ->
  Device.storageDeviceOpsGraphs !! o_Action o0 = Some graph ->
  States graph !! state_of (o_Status o) = Some def -> Abortable def = true ->
  last (abort DefaultRetry device current) o k.
Proof.
  intros Hd Hr Hg Hdef Hab. unfold abort. apply wp_act, releaseLock_wp; [done| |].
  { by eapply running_name. }
  intros [[]|e] k' Hx; [|done]. assert (Hr' := running_extends o0 o k k' Hx Hr).
  simpl. intros _ now. apply last_write; [done|].
  eapply moves_aborts; [apply (running_live _ _ _ Hr)|done..].
Qed.

Lemma last_then {A} (m : act A) (x : result) o k : last m o k -> last (_ ← m; ret x) o k.
Proof. intros Hm. apply wp_act. revert Hm. apply wp_mono. by intros [o' []] k'. Qed.

Lemma last_move_on device (machine : Machine string Time) o k (graph : Config string Time) def :
  device_key device = dev_key o0 -> running o k ->
  Device.storageDeviceOpsGraphs !! o_Action o0 = Some graph ->
  m_states machine = States graph -> m_current machine = state_of (o_Status o) ->
  States graph !! state_of (o_Status o) = Some def ->
  last (move_on Quote DefaultRetry ctx device machine) o k.
Proof.
  intros Hd Hr Hg Hm Hc Hdef. unfold move_on, IsTerminal, nextDeviceStep, AllowedTransitions.
  assert (Hexits : exits machine = To def) by (unfold exits; by rewrite Hm, Hc, Hdef).
  rewrite Hexits. destruct (To def) as [|next rest] eqn:Hto; cbn [length Nat.eqb head].
  { apply last_then. by eapply last_succeed. }
  apply wp_act. simpl. intros now. destruct (TransitionTo _ _ _ _ _) as [[machine' w] []]; simpl; try done.
  apply last_then. unfold enter. apply last_write; [done|].
  eapply moves_on; [apply (running_live _ _ _ Hr)|done|done| |done].
  unfold state_of. simpl. rewrite Hto. left.
Qed.

Lemma last_run_step device (machine : Machine string Time) o k (graph : Config string Time) def :
  device_key device = dev_key o0 -> running o k -> k_lock k = true ->
  Device.storageDeviceOpsGraphs !! o_Action o0 = Some graph ->
  m_states machine = States graph -> m_current machine = state_of (o_Status o) ->
  States graph !! state_of (o_Status o) = Some def ->
  last (run_step Quote DefaultRetry ctx monitored device machine) o k.
Proof.
  intros Hd Hr Hl Hg Hm Hc Hdef. unfold run_step. apply wp_act. simpl. intros now.
  destruct (TimeoutReached machine now).
  { apply wp_act. intros []. cbn beta iota. by apply last_then, last_fail. }
  apply wp_act, wp_attempt.
  eapply wp_mono; [|apply (goes_performStep (state_of (o_Status o))); by split].
  intros [o' [[]|[]]] k' H; try done.
  - destruct H as (Hr' & Hst & _). by eapply last_move_on; rewrite ?Hst.
  - destruct H as (Hr' & _). by apply last_then, last_fail.
Qed.

Lemma abortBlocked_wp device allows o k (Q : Ops * res error string -> Know -> Prop) :
  (forall r, (r = Ok "" -> allows = true) -> Q (o, r) k) ->
  wp (abortBlocked Quote device allows o) Q k.
Proof.
  intros HQ. unfold abortBlocked. apply wp_act. simpl. destruct allows; simpl.
  - destruct (negb _); [by apply HQ|]. apply wp_act, wp_attempt. unfold deviceAddress.
    destruct (_ || _); simpl; [by apply HQ|]. intros [status|[]]; try by apply HQ.
    destruct (deviceIsInService status); by apply HQ.
  - apply HQ. intros [= E]. unfold deviceAbortRefusal in E. by destruct (String.eqb _ _).
Qed.

Lemma last_advance device o k :
  device_key device = dev_key o0 -> running o k -> k_lock k = true ->
  last (advance Quote DefaultRetry ctx monitored device) o k.
Proof.
  intros Hd Hr Hl. unfold advance. apply wp_act. simpl. rewrite (running_action _ _ _ Hr).
  destruct (Device.storageDeviceOpsGraphs !! o_Action o0) as [graph|] eqn:Hg.
  2: { by apply last_then, last_fail. }
  simpl. intros now. destruct (NewFromSnapshot _ _ _ _ _) as [machine|err] eqn:En.
  2: { by apply last_then, last_fail. }
  apply resumed_machine in En as (Hm & _ & Hinit & Hst).
  destruct (String.eqb_spec (kube_State (Step (o_Status o))) "") as [He|He].
  { unfold begin. apply wp_act. simpl. intros now' _. apply last_writeStatus; [done| |done].
    apply (moves_begins _ _ _ graph); [apply (running_live _ _ _ Hr)|done|done|done|].
    unfold state_of. simpl. apply Hinit; [done|].
    apply deviceGraphs_inv in Hg as [[_ Hs]|[[_ Hs]|[_ Hs]]];
      destruct (States graph !! "") as [def|] eqn:Hdef; try done; apply Hs in Hdef; naive_solver. }
  destruct (Hst He) as [Hc [def Hdef]].
  destruct (o_Abort o); [|by eapply last_run_step].
  apply wp_act, abortBlocked_wp. intros [blocked|e] Hb; [|done].
  destruct (String.eqb_spec blocked "") as [->|Hne].
  - apply last_then. eapply last_abort; [done..|].
    specialize (Hb eq_refl). unfold CanAbort in Hb. by rewrite Hm, Hc, Hdef in Hb.
  - apply wp_act. simpl. intros _. by eapply last_run_step.
Qed.

Lemma acquireLock_wp device o k (Q : Ops * res error (bool * Device) -> Know -> Prop) :
  running o k -> read_device o0 device k ->
  (forall e k', Q (o, Err e) k') ->
  (forall d k', extends k k' -> device_key d = dev_key o0 -> k_lock k' = true -> Q (o, Ok (true, d)) k') ->
  (forall d k', extends k k' -> Q (o, Ok (false, d)) k') ->
  wp (acquireLock device o) Q k.
Proof.
  intros Hr (Hd & Hin & Hlock) He Hheld Hfree. assert (Hn := running_name _ _ Hr).
  assert (Hruns := running_runs _ _ _ Hr). unfold acquireLock. apply wp_act. simpl.
  destruct (String.eqb_spec (d_ActiveOpsRef device) (o_Name o)) as [E|E].
  { simpl. apply Hheld; [apply extends_refl|done|]. apply Hlock; [congruence|done]. }
  assert (Htake : forall k', extends k k' ->
    (d_ActiveOpsRef device = "" \/ d_ActiveOpsRef device ∈ k_ended k') ->
    wp ((r ← tell (PatchDevice device (with_lock device (o_Name o) (d_ResourceVersion device)));
      match r with
      | Ok answered => ret (true, answered)
      | Err Conflict => ret (false, with_lock device (o_Name o) (d_ResourceVersion device))
      | Err e => raise (ErrApi ("take the lock on device " ++ d_Name device) e)
      end : act (bool * Device)) o) Q k').
  { intros k' Hx Hfreed. simpl. split; [done|]. split; [exists device; split; [by apply Hx|done]|].
    left. split; [done|]. split; [unfold runs; destruct Hx as [-> _]; exact Hruns|].
    split; [done|]. intros [d|[]] Hdk; simpl.
    - apply Hheld; [eapply extends_trans; [done|apply extends_locked]|by apply Hdk|done].
    - apply He.
    - by apply Hfree.
    - apply He. }
  destruct (String.eqb_spec (d_ActiveOpsRef device) "") as [E'|E'].
  { apply wp_act. exact (Htake k (extends_refl k) (or_introl E')). }
  apply wp_act. unfold lockIsStale. apply wp_act. simpl.
  assert (Hns : d_Namespace device = o_Namespace o).
  { pose proof (running_key _ _ _ Hr) as Hk. unfold ops_key in Hk. unfold device_key, dev_key in Hd.
    congruence. }
  rewrite decide_False.
  2: { intros Hk. unfold ops_key in Hk. injection Hk as _ Hk. congruence. }
  split; [split; [simpl; pose proof (running_key _ _ _ Hr) as Hk; by injection Hk|]; split; [done|];
    by exists device|].
  assert (Hended : d_ActiveOpsRef device ∈ k_ended (saw_end (d_ActiveOpsRef device) k)) by left.
  intros [other|[]].
  - destruct (terminal (Phase (o_Status other))); [|apply Hfree, extends_refl].
    exact (Htake _ (extends_end _ k) (or_intror Hended)).
  - exact (Htake _ (extends_end _ k) (or_intror Hended)).
  - apply He.
  - apply He.
Qed.

Lemma last_note message o k : running o k -> last (note DefaultRetry message) o k.
Proof.
  intros Hr. unfold note. apply wp_act. simpl. destruct (String.eqb _ _); [done|].
  apply last_write; [done|]. by apply moves_stays; [apply (running_live _ _ _ Hr)|..].
Qed.

(** What the first read tells. *)
Definition know0 : Know :=
  mkKnow (if contains (o_Finalizers o0) deviceOpsFinalizer then Some (o_Status o0) else None)
    false [o0] [] [].

Lemma last_finalize k : last (finalize Quote) o0 k.
Proof.
  unfold finalize. apply wp_act. simpl. destruct (negb _); [done|].
  assert (Hup : forall o k', wp (api "" (UpdateOps (with_finalizers o0 (List.filter (fun f =>
      negb (String.eqb f deviceOpsFinalizer)) (o_Finalizers o0)))) o) (fun _ _ => True) k').
  { intros o k'. simpl. split; [done|]. by intros [[]|e]. }
  apply wp_act, wp_attempt, target_wp; [done|done| |].
  - intros e k' _ _. apply wp_act. apply Hup.
  - intros d k' _ _ (Hd & _). apply wp_act, releaseLock_wp; [done|done|].
    intros [[]|e] k2 _; [apply Hup|done].
Qed.

Lemma last_reconcile : last (reconcile Quote DefaultRetry ctx monitored) o0 know0.
Proof.
  unfold reconcile. apply wp_held. destruct (o_Deleting o0).
  { apply last_then, last_finalize. }
  destruct (contains (o_Finalizers o0) deviceOpsFinalizer) eqn:Hf; cbn [negb].
  2: { apply last_then. simpl. split; [done|]. by intros [[]|e]. }
  destruct (terminal (Phase (o_Status o0))) eqn:Ht; [done|].
  assert (Hr : running o0 know0).
  { constructor; try done; [unfold know0; by rewrite Hf|]. exists o0. split; [left|done]. }
  apply wp_act, wp_attempt, target_wp; [done|done| |].
  { intros [] k' Hx _; try done. apply last_then, last_fail. by eapply running_extends. }
  intros d k' Hx _ Hd. assert (Hr' := running_extends o0 o0 know0 k' Hx Hr).
  apply wp_act. intros [[name [] site]|[| |cause]]; try done.
  { apply last_then. by apply last_fail. }
  all: apply wp_act, acquireLock_wp; try done.
  all: intros d2 k2 Hx2; try (intros Hd2 Hl2; cbn beta iota; apply last_advance; [done| |done];
    by eapply running_extends).
  all: cbn beta iota; apply last_then, last_note; by eapply running_extends.
Qed.

End Steps.

(** ** What the server keeps when nothing lags, overlaps or is used again *)

(** An operation's version follows the one before it. *)
Definition follows (old new : Ops) : Prop :=
  o_Status new = o_Status old \/ moves (o_Action old) (o_Status old) (o_Status new).

Record calm_world (w : World) : Prop := {
  calm_ok : world_ok w;
  calm_names key o : Some o ∈ versions (operations w) key -> o_Name o <> "";
  calm_holders key d : Some d ∈ versions (devices w) key -> d_ActiveOpsRef d <> "" ->
    versions (operations w) (key.1, d_ActiveOpsRef d) <> [];
  calm_objects key o o' : Some o ∈ versions (operations w) key ->
    Some o' ∈ versions (operations w) key ->
    o_Action o = o_Action o' /\ o_DeviceRef o = o_DeviceRef o';
  calm_follows key i old new : versions (operations w) key !! i = Some (Some new) ->
    versions (operations w) key !! S i = Some (Some old) -> follows old new;
}.

Record holds (w : World) (o0 : Ops) (k : Know) : Prop := {
  holds_read : Some o0 ∈ versions (operations w) (ops_key o0);
  holds_status st : k_status k = Some st ->
    exists o, latest (operations w) (ops_key o0) = Some o /\ o_Status o = st /\
      contains (o_Finalizers o) deviceOpsFinalizer = true;
  holds_lock : k_lock k = true -> runs k = true /\ versions (devices w) (dev_key o0) <> [] /\
    forall d, latest (devices w) (dev_key o0) = Some d -> d_ActiveOpsRef d = o_Name o0;
  holds_ops o : o ∈ k_ops k -> Some o ∈ versions (operations w) (ops_key o0);
  holds_devices d : d ∈ k_devices k -> Some d ∈ versions (devices w) (device_key d);
  holds_ended n : n ∈ k_ended k -> versions (operations w) (o_Namespace o0, n) <> [] /\
    forall o, latest (operations w) (o_Namespace o0, n) = Some o -> terminal (Phase (o_Status o)) = true;
}.

Lemma versions_push_nil {A} key (v : option A) m key' :
  versions m key' <> [] -> versions (push key v m) key' <> [].
Proof. intros H. rewrite versions_push. by case_decide. Qed.

Lemma holds_push_ops w key v o0 k :
  holds w o0 k ->
  (key = ops_key o0 -> forall st, k_status k = Some st ->
     exists o, v = Some o /\ o_Status o = st /\
       contains (o_Finalizers o) deviceOpsFinalizer = true) ->
  (forall n o, key = (o_Namespace o0, n) -> n ∈ k_ended k -> v = Some o ->
     terminal (Phase (o_Status o)) = true) ->
  holds (push_ops w key v) o0 k.
Proof.
  intros [Hr Hst Hl Ho Hd He] Hown Hend.
  assert (Hin : forall key' o, Some o ∈ versions (operations w) key' ->
    Some o ∈ versions (operations (push_ops w key v)) key').
  { intros key' o. apply (grows_push_ops w key v). }
  constructor; auto.
  - intros st Hk. simpl. rewrite latest_push. case_decide; [|by apply Hst].
    by apply (Hown ltac:(done) st Hk).
  - intros n Hn. destruct (He n Hn) as [Hv Hlat]. split; [by apply versions_push_nil|].
    intros o. simpl. rewrite latest_push. case_decide as Hk; [|by apply Hlat].
    intros ->. by eapply Hend.
Qed.

Lemma holds_push_device w key v o0 k :
  holds w o0 k ->
  (key = dev_key o0 -> k_lock k = true -> forall d, v = Some d -> d_ActiveOpsRef d = o_Name o0) ->
  holds (push_device w key v) o0 k.
Proof.
  intros [Hr Hst Hl Ho Hd He] Hlock. constructor; auto.
  - intros Hk. destruct (Hl Hk) as (Hrun & Hv & Hlat). split; [done|].
    split; [by apply versions_push_nil|]. intros d. simpl. rewrite latest_push.
    case_decide; [|by apply Hlat]. by apply Hlock.
  - intros d Hin. by apply (grows_push_device w key v), Hd.
Qed.

Lemma calm_push_device w key v :
  calm_world w -> (forall d, v = Some d -> device_key d = key /\ d_ResourceVersion d = revision w /\
    (d_ActiveOpsRef d <> "" -> versions (operations w) (key.1, d_ActiveOpsRef d) <> [])) ->
  calm_world (push_device w key v).
Proof.
  intros [Hok Hn Hh Ho Hf] Hv. constructor; simpl; try done.
  - apply world_ok_push_device; [done|]. intros d Hd. destruct (Hv d Hd) as (? & ? & _). done.
  - intros key' d. rewrite versions_push. case_decide; [subst|by apply Hh].
    intros [Hd|Hin]%elem_of_cons; [|by apply Hh]. by destruct (Hv d (eq_sym Hd)) as (_ & _ & ?).
Qed.

Lemma latest_versions {A} (m : gmap (string * string) (list (option A))) key x :
  latest m key = Some x -> exists l, versions m key = Some x :: l.
Proof.
  intros H%back_Some. destruct (versions m key) as [|v l]; [done|]. injection H as ->. by exists l.
Qed.

(** The next version of an operation. *)
Lemma calm_push_ops w key cur v :
  calm_world w -> latest (operations w) key = Some cur ->
  (forall o, v = Some o -> ops_key o = key /\ o_ResourceVersion o = revision w /\
     o_UID o = o_UID cur /\ o_Action o = o_Action cur /\ o_DeviceRef o = o_DeviceRef cur /\
     follows cur o) ->
  calm_world (push_ops w key v).
Proof.
  intros [Hok Hn Hh Ho Hf] Hcur Hv. assert (Hin := latest_in _ _ _ Hcur).
  assert (Hold : forall o, v = Some o -> forall o', Some o' ∈ versions (operations w) key ->
    o_Action o = o_Action o' /\ o_DeviceRef o = o_DeviceRef o').
  { intros o E o' Hin'. destruct (Hv o E) as (_ & _ & _ & Ha & Hd & _).
    destruct (Ho key cur o' Hin Hin'). split; congruence. }
  constructor; simpl.
  - apply world_ok_push_ops; [done|]. intros o E. destruct (Hv o E) as (? & ? & ? & _).
    split; [done|]. split; [done|]. left. by exists cur.
  - intros key' o. rewrite versions_push. case_decide; [subst|by apply Hn].
    intros [E|Hin']%elem_of_cons; [|by eapply Hn]. destruct (Hv o (eq_sym E)) as (Hk & _).
    assert (Hnc := Hn _ _ Hin). assert (Hkc := version_key w _ cur Hok Hin).
    unfold ops_key in *. congruence.
  - intros key' d Hd Hne. apply versions_push_nil. by eapply Hh.
  - intros key' o o'. rewrite !versions_push. case_decide; [subst|by apply Ho].
    intros [E|Hi]%elem_of_cons [E'|Hi']%elem_of_cons; [by simplify_eq| | |by eapply Ho].
    + by eapply Hold.
    + destruct (Hold o' (eq_sym E') o Hi). done.
  - intros key' j old new. rewrite versions_push. case_decide; [subst|by apply Hf].
    destruct j as [|j]; simpl; [|by apply Hf]. intros [= E] Hold'.
    destruct (latest_versions _ _ _ Hcur) as [l El]. rewrite El in Hold'. injection Hold' as <-.
    by apply (Hv new E).
Qed.

(** Edits of others leave what a pass knows. *)
Lemma edit_calm e w w' :
  calm_world w -> apply_edit false e w = Some w' ->
  calm_world w' /\ forall o0 k, holds w o0 k -> holds w' o0 k.
Proof.
  intros Hc. assert (Hok := calm_ok _ Hc). destruct e as [o|key abort generation|key|d|d|key|]; simpl.
  - destruct (_ && _) eqn:E; [|done].
    apply andb_true_iff in E as [[Hfree Hname]%andb_true_iff Hfresh].
    apply andb_true_iff in Hfree as [Hnone%bool_decide_eq_true Hnil%bool_decide_eq_true].
    apply negb_true_iff, String.eqb_neq in Hname.
    intros [= <-]. split.
    + destruct Hc as [_ Hn Hh Ho Hf]. constructor; simpl.
      * eapply (apply_edit_world false (CreateOps o) w); [done|]. simpl. unfold free.
        rewrite Hnone, Hnil, !bool_decide_eq_true_2, Hfresh by done.
        destruct (String.eqb_spec (o_Name o) ""); [done|]. reflexivity.
      * intros key' o'. rewrite versions_push. case_decide; [subst|by apply Hn].
        intros [[= ->]|Hin]%elem_of_cons; [done|by eapply Hn].
      * intros key' d Hd Hne. apply versions_push_nil. by eapply Hh.
      * intros key' o1 o2. rewrite !versions_push. case_decide; [subst|by apply Ho].
        rewrite Hnil. rewrite !list_elem_of_singleton. intros [= ->] [= ->]. done.
      * intros key' j old new. rewrite versions_push. case_decide; [subst|by apply Hf].
        rewrite Hnil. by destruct j.
    + intros o0 k Hk. apply holds_push_ops; [done| |].
      * intros Heq st Hst. destruct (holds_status _ _ _ Hk st Hst) as (o1 & Ho1 & _). congruence.
      * intros n o1 Hkey Hn _. destruct (holds_ended _ _ _ Hk n Hn) as [Hne _]. congruence.
  - destruct (latest (operations w) key) as [o|] eqn:Ho; [|done]. intros [= <-].
    assert (Hin := latest_in _ _ _ Ho). split.
    + apply (calm_push_ops w key o); [done..|]. intros o' [= <-].
      split; [exact (version_key w key o Hok Hin)|]. repeat split. by left.
    + intros o0 k Hk. apply holds_push_ops; [done| |].
      * intros -> st Hst. destruct (holds_status _ _ _ Hk st Hst) as (o1 & Ho1 & Hs1 & Hf1).
        rewrite Ho in Ho1. injection Ho1 as <-. eexists. split; [reflexivity|]. by split.
      * intros n o1 -> Hn [= <-]. destruct (holds_ended _ _ _ Hk n Hn) as [_ Hend]. exact (Hend o Ho).
  - destruct (latest (operations w) key) as [o|] eqn:Ho; [|done]. intros [= <-].
    assert (Hin := latest_in _ _ _ Ho). split.
    + apply (calm_push_ops w key o); [done..|]. intros o'. case_bool_decide; [done|]. intros [= <-].
      split; [exact (version_key w key o Hok Hin)|]. repeat split. by left.
    + intros o0 k Hk. apply holds_push_ops; [done| |].
      * intros -> st Hst. destruct (holds_status _ _ _ Hk st Hst) as (o1 & Ho1 & Hs1 & Hf1).
        rewrite Ho in Ho1. injection Ho1 as <-. rewrite bool_decide_eq_false_2.
        -- eexists. split; [reflexivity|]. by split.
        -- intros E. by rewrite E in Hf1.
      * intros n o1 -> Hn. case_bool_decide; [done|]. intros [= <-].
        destruct (holds_ended _ _ _ Hk n Hn) as [_ Hend]. exact (Hend o Ho).
  - destruct (free _ _ _) eqn:E; [|done].
    apply andb_true_iff in E as [_ Hnil%bool_decide_eq_true]. intros [= <-]. split.
    + apply calm_push_device; [done|]. by intros d' [= <-].
    + intros o0 k Hk. apply holds_push_device; [done|]. intros Heq Hl.
      destruct (holds_lock _ _ _ Hk Hl) as (_ & Hne & _). congruence.
  - destruct (latest (devices w) (device_key d)) as [cur|] eqn:Hcur; [|done]. intros [= <-].
    assert (Hin := latest_in _ _ _ Hcur). split.
    + apply calm_push_device; [done|]. intros d' [= <-]. split; [done|]. split; [done|]. simpl.
      intros Hne. by eapply calm_holders in Hin.
    + intros o0 k Hk. apply holds_push_device; [done|]. intros Heq Hl d' [= <-]. simpl.
      destruct (holds_lock _ _ _ Hk Hl) as (_ & _ & Hlat). rewrite <- Heq in Hlat. by apply Hlat.
  - destruct (latest (devices w) key); [|done]. intros [= <-]. split.
    + by apply calm_push_device.
    + intros o0 k Hk. by apply holds_push_device.
  - intros [= <-]. split; [|intros o0 k []; by constructor].
    destruct Hc as [[]]. by constructor.
Qed.

(** *** A call of one pass *)

Section Call.

Context (o0 : Ops) (w : World) (Hw : calm_world w) (k : Know) (Hk : holds w o0 k).

Definition others_hold (w' : World) : Prop :=
  forall o1 k1, ops_key o1 <> ops_key o0 -> holds w o1 k1 -> holds w' o1 k1.

Lemma holds_name : o_Name o0 <> "".
Proof using Hw Hk. eapply calm_names; [exact Hw|apply (holds_read _ _ _ Hk)]. Qed.

(** An operation that a pass runs is not one another pass saw ended. *)
Lemma running_not_ended o1 k1 o2 k2 :
  holds w o1 k1 -> runs k1 = true -> holds w o2 k2 -> o_Namespace o2 = o_Namespace o1 ->
  o_Name o1 ∈ k_ended k2 -> False.
Proof using Hw Hk.
  intros H1 Hr H2 Hns Hin. unfold runs in Hr.
  destruct (k_status k1) as [st|] eqn:Hst; [|done].
  destruct (holds_status _ _ _ H1 st Hst) as (o & Ho & Es & _).
  destruct (holds_ended _ _ _ H2 _ Hin) as [_ Hend]. rewrite Hns in Hend.
  specialize (Hend o Ho). rewrite Es in Hend. by rewrite Hend in Hr.
Qed.

Lemma call_patch_device base new w' r d :
  device_key base = dev_key o0 -> d ∈ k_devices k -> d_ResourceVersion d = d_ResourceVersion base ->
  device_key d = device_key base -> d_ActiveOpsRef d = d_ActiveOpsRef base ->
  (d_ActiveOpsRef new = o_Name o0 /\ runs k = true /\
     (d_ActiveOpsRef base = "" \/ d_ActiveOpsRef base ∈ k_ended k)) \/
  (d_ActiveOpsRef new = "" /\ d_ActiveOpsRef base = o_Name o0) ->
  patch_device base new w = (w', r) ->
  calm_world w' /\ others_hold w' /\
  (d_ActiveOpsRef new = o_Name o0 -> holds w' o0 k) /\ holds w' o0 (locked false k) /\
  (forall d', r = Ok d' -> device_key d' = dev_key o0) /\
  (forall d', r = Ok d' -> d_ActiveOpsRef new = o_Name o0 -> runs k = true ->
     holds w' o0 (locked true k)).
Proof using Hw Hk.
  intros Hbase Hd Hv Hkey Hlock Hcase Hp.
  assert (Hfree : holds w o0 (locked false k)) by (destruct Hk; by constructor).
  destruct (patch_device_spec w w' base new r (calm_ok _ Hw) Hp)
    as [(-> & Hr)|(cur & Hcur & Hrv & -> & ->)].
  - split; [done|]. split; [by intros o1 k1|]. split; [done|]. split; [done|].
    split.
    + intros d' ->. destruct Hr as (Hlat & _). apply latest_in in Hlat.
      rewrite <- Hbase. exact (device_version_key w _ d' (calm_ok _ Hw) Hlat).
    + intros d' -> Hnew Hrun. destruct Hr as (Hlat & _ & Hl). rewrite Hbase in Hlat.
      destruct Hk. constructor; try done. intros _. split; [done|]. split.
      * destruct (latest_versions _ _ _ Hlat) as [l ->]. done.
      * intros d2. rewrite Hlat. intros [= <-]. congruence.
  - assert (Hcurd : d = cur).
    { apply (ordered_latest device_key d_ResourceVersion (revision w) (devices w) (device_key base));
        [apply (calm_ok _ Hw)|done| |congruence]. rewrite <- Hkey. by apply (holds_devices _ _ _ Hk). }
    subst cur.
    assert (Hpush : forall o1 k1, holds w o1 k1 ->
      (dev_key o1 = dev_key o0 -> k_lock k1 = true -> d_ActiveOpsRef new = o_Name o1) ->
      holds (push_device w (device_key base)
        (Some (with_lock d (d_ActiveOpsRef new) (revision w)))) o1 k1).
    { intros o1 k1 H1 Hn. apply holds_push_device; [done|]. intros E Hl d' [= <-]. simpl.
      apply Hn; congruence. }
    split; [|split; [|split; [|split; [|split]]]].
    + apply calm_push_device; [done|]. intros d' [= <-]. split; [done|]. split; [done|]. simpl.
      intros Hne. destruct Hcase as [(E & _)|(E & _)]; [|by rewrite E in Hne]. rewrite E.
      pose proof (holds_read _ _ _ Hk) as Hin. unfold ops_key in Hin. intros Hnil.
      assert (Hns : d_Namespace base = o_Namespace o0) by by injection Hbase.
      rewrite Hns in Hnil. rewrite Hnil in Hin. by apply elem_of_nil in Hin.
    + intros o1 k1 Hne H1. apply Hpush; [done|]. intros Hdev Hl. exfalso.
      destruct (holds_lock _ _ _ H1 Hl) as (Hrun & _ & Hlat). rewrite Hdev, <- Hbase in Hlat.
      specialize (Hlat d Hcur).
      assert (Hns : o_Namespace o1 = o_Namespace o0) by by injection Hdev.
      destruct Hcase as [(_ & _ & [E|E])|(_ & E)].
      * assert (Hn1 : o_Name o1 <> "") by (eapply calm_names; [exact Hw|apply (holds_read _ _ _ H1)]).
        congruence.
      * eapply (running_not_ended o1 k1 o0 k); [done..|]. by rewrite <- Hlat, Hlock.
      * apply Hne. unfold ops_key. congruence.
    + intros Hnew. by apply Hpush.
    + by apply Hpush.
    + intros d' [= <-]. change (device_key d = dev_key o0). congruence.
    + intros d' _ Hnew Hrun. destruct (Hpush o0 (locked false k) Hfree ltac:(done)). constructor; try done.
      intros _. split; [done|]. simpl. rewrite <- Hbase, versions_push, decide_True by done.
      split; [done|]. intros d2. rewrite latest_push, decide_True by done. by intros [= <-].
Qed.

(** A new version of the operation itself. *)
Lemma call_push_own cur v k' :
  latest (operations w) (ops_key o0) = Some cur ->
  (forall o, v = Some o -> ops_key o = ops_key o0 /\ o_ResourceVersion o = revision w /\
     o_UID o = o_UID cur /\ o_Action o = o_Action cur /\ o_DeviceRef o = o_DeviceRef cur /\
     follows cur o) ->
  (forall st, k_status k' = Some st -> exists o, v = Some o /\ o_Status o = st /\
     contains (o_Finalizers o) deviceOpsFinalizer = true) ->
  (k_lock k' = true -> k_lock k = true /\ runs k' = true) ->
  (forall o, o ∈ k_ops k' -> o ∈ k_ops k \/ v = Some o) ->
  k_devices k' = k_devices k -> k_ended k' = k_ended k ->
  calm_world (push_ops w (ops_key o0) v) /\ others_hold (push_ops w (ops_key o0) v) /\
  holds (push_ops w (ops_key o0) v) o0 k'.
Proof using Hw Hk.
  intros Hcur Hv Hst Hl Ho Hd He.
  assert (Hterm : forall o, v = Some o -> terminal (Phase (o_Status cur)) = true ->
    terminal (Phase (o_Status o)) = true).
  { intros o E Ht. destruct (Hv o E) as (_ & _ & _ & _ & _ & [Es|Hm]); [by rewrite Es|].
    apply moves_live in Hm. congruence. }
  assert (Hend : forall o1 k1, holds w o1 k1 -> forall n o, ops_key o0 = (o_Namespace o1, n) ->
    n ∈ k_ended k1 -> v = Some o -> terminal (Phase (o_Status o)) = true).
  { intros o1 k1 H1 n o Ek Hn E. apply Hterm; [done|].
    destruct (holds_ended _ _ _ H1 n Hn) as [_ Hlat]. apply Hlat. by rewrite <- Ek. }
  split; [by eapply calm_push_ops|]. split.
  - intros o1 k1 Hne H1. apply holds_push_ops; [done| |].
    + intros E. by destruct Hne.
    + intros n o Ek Hn. by eapply Hend.
  - assert (Hnone : holds w o0 (mkKnow None false (k_ops k) (k_devices k) (k_ended k))).
    { destruct Hk. by constructor. }
    destruct (holds_push_ops w (ops_key o0) v o0 _ Hnone) as [H1 H2 H3 H4 H5 H6]; [done| |].
    { intros n o Ek Hn. by eapply Hend. }
    constructor; [done| | | | |].
    + intros st E. simpl. rewrite latest_push, decide_True by done.
      destruct (Hst st E) as (o & -> & ?). by exists o.
    + intros E. destruct (Hl E) as [El Hr]. destruct (holds_lock _ _ _ Hk El) as (_ & ? & ?). done.
    + intros o Hin. destruct (Ho o Hin) as [Hin'| ->]; [by apply H4|]. simpl.
      rewrite versions_push, decide_True by done. by left.
    + rewrite Hd. exact H5.
    + rewrite He. exact H6.
Qed.

Lemma call_patch_ops base new w' x ch (Q : res api_error Ops -> Know -> Prop) :
  write (patch_ops base new) ch w = Some (w', x) ->
  lock_rule o0 _ (PatchOps base new) Q k ->
  calm_world w' /\ others_hold w' /\ exists k', Q x k' /\ holds w' o0 k'.
Proof using Hw Hk.
  intros (r & Hpatch & Hx)%write_spec (Hkey & [st0 Hst0] & (b & Hb & Hv & Hkb & Hsb) & Hmoves & Hok & Hconf & Herr).
  assert (Hin := holds_ops _ _ _ Hk b Hb).
  assert (Hkb0 : ops_key b = ops_key o0) by congruence.
  assert (Hin' : Some b ∈ versions (operations w) (ops_key b)) by by rewrite Hkb0.
  assert (Hnone : holds w o0 (wrote None k)).
  { destruct Hk. constructor; try done. simpl. by rewrite andb_false_r. }
  assert (Hsame : w' = w -> (exists e, x = Err e) ->
    calm_world w' /\ others_hold w' /\ exists k', Q x k' /\ holds w' o0 k').
  { intros -> [e ->]. split; [done|]. split; [by intros o1 k1|].
    destruct e as [| |cause]; [exists (wrote None k)|exists k|exists (wrote None k)]; split; try done;
      by apply Herr. }
  destruct Hpatch as [Hpatch|[-> He]].
  2: { apply Hsame; [done|]. destruct He as [e ->]. destruct Hx as [->|[cause ->]]; eauto. }
  destruct (patch_ops_spec w w' base new r b (calm_ok _ Hw) Hin' Hv Hkb (eq_sym Hpatch))
    as [[-> He]|(Hlat & o & -> & Hst & Hko & Hu & Ha & Hf & Hd & Hw')].
  { apply Hsame; [done|]. destruct He as [e ->]. destruct Hx as [->|[cause ->]]; eauto. }
  rewrite Hkb0 in Hlat.
  destruct (calm_objects _ Hw _ b o0 Hin (holds_read _ _ _ Hk)) as [Hab Hdb].
  assert (Hfol : follows b o).
  { right. rewrite Hst, Hab, Hsb. by apply moves_at_rest. }
  set (k1 := saw_ops o (wrote (Some (o_Status o)) k)).
  assert (HQ : Q (Ok o) k1) by (apply (Hok o (prunes w)); congruence).
  assert (Hfin : contains (o_Finalizers o) deviceOpsFinalizer = true).
  { destruct (holds_status _ _ _ Hk st0 Hst0) as (o1 & E1 & _ & E2). rewrite Hf. congruence. }
  assert (Hlate : forall v, v = latest (operations w') (ops_key o0) -> v = Some o).
  { intros v ->. destruct Hw' as [[-> ->]|[-> _]]; [done|]. simpl.
    rewrite Hkb0. by rewrite latest_push, decide_True. }
  destruct Hw' as [[-> ->]|[-> Hrv]].
  - (* nothing changed *)
    assert (Hk1 : holds w o0 k1).
    { destruct Hk as [G1 G2 G3 G4 G5 G6]. constructor; try done.
      - intros st [= <-]. by exists b.
      - intros [El Er]%andb_true_iff. destruct (G3 El) as (_ & ? & ?). done.
      - intros o' [->|Ho']%elem_of_cons; [done|by apply G4]. }
    destruct Hx as [->|[cause ->]].
    + split; [done|]. split; [by intros o1 k2|]. by exists k1.
    + by apply Hsame; [|eexists].
  - rewrite Hkb0 in *.
    assert (Hnew : forall o2, Some o = Some o2 -> ops_key o2 = ops_key o0 /\
      o_ResourceVersion o2 = revision w /\ o_UID o2 = o_UID b /\ o_Action o2 = o_Action b /\
      o_DeviceRef o2 = o_DeviceRef b /\ follows b o2) by by intros o2 [= <-].
    destruct Hx as [->|[cause ->]].
    + destruct (call_push_own b (Some o) k1 Hlat Hnew) as (? & ? & ?); try done.
      * intros st [= <-]. by exists o.
      * intros [El Er]%andb_true_iff. done.
      * intros o' [->|Ho']%elem_of_cons; [by right|by left].
      * split; [done|]. split; [done|]. by exists k1.
    + destruct (call_push_own b (Some o) (wrote None k) Hlat Hnew) as (? & ? & ?); try done.
      * simpl. by rewrite andb_false_r.
      * by left.
      * split; [done|]. split; [done|]. exists (wrote None k). split; [|done].
        by apply Herr.
Qed.

Lemma call_update_ops new w' x ch (Q : res api_error unit -> Know -> Prop) :
  write (update_ops new) ch w = Some (w', x) ->
  lock_rule o0 _ (UpdateOps new) Q k ->
  calm_world w' /\ others_hold w' /\ exists k', Q x k' /\ holds w' o0 k'.
Proof using Hw Hk.
  intros (r & Hup & Hx)%write_spec (Hkey & HQ).
  assert (Hnone : holds w o0 (wrote None k)).
  { destruct Hk. constructor; try done. simpl. by rewrite andb_false_r. }
  assert (Hres : calm_world w' /\ others_hold w' /\ holds w' o0 (wrote None k));
    [|destruct Hres as (? & ? & ?); split; [done|]; split; [done|]; by exists (wrote None k)].
  destruct Hup as [Hup|[-> _]]; [|by split; [|split; [by intros o1 k1|]]].
  destruct (update_ops_spec w w' new r (calm_ok _ Hw) (eq_sym Hup))
    as [->|(cur & v & Hcur & _ & -> & Hv)]; [by split; [|split; [by intros o1 k1|]]|].
  rewrite Hkey in *. apply (call_push_own cur v (wrote None k)); try done.
  - intros o ->. destruct Hv as [[? _]|[= ->]]; [done|].
    split; [exact (version_key w _ cur (calm_ok _ Hw) (latest_in _ _ _ Hcur))|].
    repeat split. by left.
  - simpl. by rewrite andb_false_r.
  - by left.
Qed.

Lemma call_get_ops key w' x ch (Q : res api_error Ops -> Know -> Prop) :
  admissible Runs.calm ch = true -> lookup (operations w) key ch w = Some (w', x) ->
  lock_rule o0 _ (GetOps key) Q k ->
  w' = w /\ exists k', Q x k' /\ holds w o0 k'.
Proof using Hw Hk.
  intros Hch Hs HQ.
  assert (Hx : w' = w /\ (x = answer_read (latest (operations w) key) \/ exists cause, x = Err (Failure cause))).
  { destruct ch as [[|n]|landed cause| | | | | |]; try done; injection Hs as <- <-; eauto. }
  destruct Hx as [-> Hx]. split; [done|]. simpl in HQ.
  destruct (decide (key = ops_key o0)) as [->|Hne].
  - eexists. split; [apply HQ|].
    + intros o ->. destruct Hx as [Hx|[]]; [|done]. unfold answer_read in Hx.
      destruct (latest _ _) as [o'|] eqn:Hlat; simplify_eq.
      split; [exact (version_key w _ o' (calm_ok _ Hw) (latest_in _ _ _ Hlat))|].
      intros st Hst. destruct (holds_status _ _ _ Hk st Hst) as (o1 & E & <- & _). congruence.
    + destruct x as [o|e]; [|done]. destruct Hx as [Hx|[]]; [|done]. unfold answer_read in Hx.
      destruct (latest _ _) as [o'|] eqn:Hlat; simplify_eq.
      destruct Hk as [G1 G2 G3 G4 G5 G6]. constructor; try done.
      intros o1 [->|Ho]%elem_of_cons; [by apply latest_in|by apply G4].
  - destruct HQ as [(Hns & Hn & d & Hd & Hdns & Hdl) HQ]. eexists. split; [apply HQ|].
    assert (Hversions : versions (operations w) (o_Namespace o0, key.2) <> []).
    { rewrite <- Hns, <- Hdns, <- Hdl. apply (calm_holders _ Hw (device_key d)).
      - by apply (holds_devices _ _ _ Hk).
      - congruence. }
    assert (Hend : (forall o, latest (operations w) (o_Namespace o0, key.2) = Some o ->
      terminal (Phase (o_Status o)) = true) -> holds w o0 (saw_end key.2 k)).
    { intros Hlat. destruct Hk as [G1 G2 G3 G4 G5 G6]. constructor; try done.
      intros n [->|Hin]%elem_of_cons; [done|by apply G6]. }
    assert (Hkey : key = (o_Namespace o0, key.2)) by (destruct key; simpl in *; congruence).
    destruct Hx as [->|[cause ->]]; [|done]. rewrite <- Hkey in Hend.
    destruct (latest (operations w) key) as [o|] eqn:Hlat; simpl.
    + destruct (terminal (Phase (o_Status o))) eqn:Ht; [|done]. apply Hend. by intros o' [= <-].
    + by apply Hend.
Qed.

Lemma call_get_device key w' x ch (Q : res api_error Device -> Know -> Prop) :
  admissible Runs.calm ch = true -> lookup (devices w) key ch w = Some (w', x) ->
  lock_rule o0 _ (GetDevice key) Q k ->
  w' = w /\ exists k', Q x k' /\ holds w o0 k'.
Proof using Hw Hk.
  intros Hch Hs HQ.
  assert (Hx : w' = w /\ (x = answer_read (latest (devices w) key) \/ exists cause, x = Err (Failure cause))).
  { destruct ch as [[|n]|landed cause| | | | | |]; try done; injection Hs as <- <-; eauto. }
  destruct Hx as [-> Hx]. split; [done|]. simpl in HQ.
  destruct Hx as [->|[cause ->]]; [|exists k; split; [by apply HQ|done]].
  destruct (latest (devices w) key) as [d|] eqn:Hlat; simpl in *;
    [|exists k; split; [by apply (HQ (Err NotFound))|done]].
  assert (Hdk : device_key d = key) by exact (device_version_key w _ d (calm_ok _ Hw) (latest_in _ _ _ Hlat)).
  exists (saw_device o0 d k). split; [apply (HQ (Ok d)); by intros d' [= <-]|].
  destruct Hk as [G1 G2 G3 G4 G5 G6]. constructor; try done.
  - simpl. intros [El|[[Ed%bool_decide_eq_true En%String.eqb_eq]%andb_true_iff Er]%andb_true_iff]%orb_true_iff;
      [by apply G3|]. split; [done|]. rewrite <- Ed, Hdk.
    destruct (latest_versions _ _ _ Hlat) as [l El]. split; [by rewrite El|].
    intros d' Hd'. congruence.
  - intros d' [->|Hin]%elem_of_cons; [rewrite Hdk; by apply latest_in|by apply G5].
Qed.

Lemma call_calm X (c : call X) ch w' x (Q : X -> Know -> Prop) :
  admissible Runs.calm ch = true -> serve c ch w = Some (w', x) -> lock_rule o0 X c Q k ->
  calm_world w' /\ others_hold w' /\ (exists k', Q x k' /\ holds w' o0 k') /\
  (is_Some (verb_of c) -> k_lock k = true).
Proof using Hw Hk.
  intros Hch Hs HQ. assert (Hid : others_hold w) by by intros o1 k1.
  destruct c; simpl in Hs;
    try (destruct ch; try done; injection Hs as <- <-; split; [done|]; split; [done|];
      split; [exists k; by split; [apply HQ|]|intros [? [=]]; apply HQ]).
  - destruct (call_get_ops _ _ _ _ _ Hch Hs HQ) as [-> Hres].
    split; [done|]. split; [done|]. split; [done|]. by intros [? [=]].
  - destruct (call_get_device _ _ _ _ _ Hch Hs HQ) as [-> Hres].
    split; [done|]. split; [done|]. split; [done|]. by intros [? [=]].
  - destruct (call_patch_ops _ _ _ _ _ _ Hs HQ) as (? & ? & ?).
    split; [done|]. split; [done|]. split; [done|]. by intros [? [=]].
  - destruct (call_update_ops _ _ _ _ _ Hs HQ) as (? & ? & ?).
    split; [done|]. split; [done|]. split; [done|]. by intros [? [=]].
  - apply write_spec in Hs as (r & Hp & Hx). simpl in HQ.
    destruct HQ as (Hbase & (d & Hd & Hv & Hkey & Hlock) & Hcase).
    assert (Hsame : holds w o0 (locked false k)) by (destruct Hk; by constructor).
    assert (Hres : calm_world w' /\ others_hold w' /\ exists k', Q x k' /\ holds w' o0 k');
      [|destruct Hres as (? & ? & ?); split; [done|]; split; [done|]; split; [done|];
        by intros [? [=]]].
    destruct Hp as [Hp|[-> [e ->]]].
    + destruct (call_patch_device base new w' r d) as (Hw' & Hoth & Hkeep & Hrel & Hdk & Hgot); try done.
      { destruct Hcase as [(? & ? & ? & _)|(? & ? & _)]; [left|right]; done. }
      split; [done|]. split; [done|].
      destruct Hcase as [(Hnew & Hrun & _ & HQ)|(_ & _ & HQ)].
      * destruct Hx as [->|[cause ->]].
        -- destruct r as [d'|e].
           ++ exists (locked true k). split; [apply (HQ (Ok d')), Hdk|by eapply Hgot].
           ++ exists k. split; [by apply (HQ (Err e))|by apply Hkeep].
        -- exists k. split; [by apply (HQ (Err (Failure cause)))|by apply Hkeep].
      * exists (locked false k). split; [apply HQ|done].
    + split; [done|]. split; [done|].
      assert (He : exists e', x = Err e') by (destruct Hx as [->|[cause ->]]; by eexists).
      destruct He as [e' ->].
      destruct Hcase as [(_ & _ & _ & HQ)|(_ & _ & HQ)].
      * exists k. split; [by apply (HQ (Err e'))|done].
      * exists (locked false k). split; [apply HQ|done].
Qed.

End Call.

(** ** What a pass is told of the lock *)

(** A pass as it runs under any interleaving: the reads may be stale and the operation may have
    another pass, so all that is certain of the lock is what the API server said of it last. *)
Section Told.

(** The operation, as the pass read it. *)
Context (o0 : Ops).

(** Whether the API server, by its last answer that concerns the operation's device, said that
    the operation holds its lock.  A patch that is answered with an error says nothing. *)
Definition says_held X (c : call X) : X -> bool -> bool :=
  match c in call X return X -> bool -> bool with
  | GetDevice key => fun r told =>
      match r with
      | Ok d => if decide (key = dev_key o0) then String.eqb (d_ActiveOpsRef d) (o_Name o0) else told
      | Err _ => told
      end
  | PatchDevice base new => fun r _ =>
      match r with
      | Ok _ => bool_decide (device_key base = dev_key o0) && String.eqb (d_ActiveOpsRef new) (o_Name o0)
      | Err _ => false
      end
  | _ => fun _ told => told
  end.

Definition told_held (tr : list (Programs.event call)) : bool := learned says_held tr false.

Definition verb_needs X (c : call X) (told : bool) : Prop :=
  match verb_of c with Some _ => told = true | None => True end.

(** A device that is read is the one that was asked for. *)
Definition named_device X (c : call X) : X -> Prop :=
  match c in call X return X -> Prop with
  | GetDevice key => fun r => forall d, r = Ok d -> device_key d = key
  | _ => fun _ => True
  end.

#[local] Instance told_rule : Rule call bool := watched verb_needs says_held named_device.

(** Parts that make no verb; that make no verb and do not touch the device; and that keep the
    lock that was told. *)
Definition verbless {A} (m : act A) : Prop := forall o told, wp (m o) (fun _ _ => True) told.
Definition neutral {A} (m : act A) : Prop := forall o told, wp (m o) (fun _ told' => told' = told) told.
Definition stays {A} (m : act A) : Prop := forall o, wp (m o) (fun _ told => told = true) true.

Lemma neutral_stays {A} (m : act A) : neutral m -> stays m.
Proof. intros H o. apply H. Qed.
Lemma neutral_verbless {A} (m : act A) : neutral m -> verbless m.
Proof. intros H o told. eapply wp_mono; [|apply H]. done. Qed.
Lemma stays_bind {A B} (m : act A) (f : A -> act B) : stays m -> (forall x, stays (f x)) -> stays (m ≫= f).
Proof.
  intros Hm Hf o. apply wp_act. eapply wp_mono; [|apply Hm]. intros [o' [x|e]] told ->; [apply Hf|done].
Qed.
Lemma neutral_bind {A B} (m : act A) (f : A -> act B) :
  neutral m -> (forall x, neutral (f x)) -> neutral (m ≫= f).
Proof.
  intros Hm Hf o told. apply wp_act. eapply wp_mono; [|apply Hm]. intros [o' [x|e]] told' ->; [apply Hf|done].
Qed.
Lemma verbless_bind {A B} (m : act A) (f : A -> act B) :
  verbless m -> (forall x, verbless (f x)) -> verbless (m ≫= f).
Proof.
  intros Hm Hf o told. apply wp_act. eapply wp_mono; [|apply Hm]. intros [o' [x|e]] told' _; [apply Hf|done].
Qed.
Lemma verbless_attempt {A} (m : act A) : verbless m -> verbless (attempt (E' := error) m).
Proof.
  intros Hm o told. apply wp_attempt. eapply wp_mono; [|apply Hm]. by intros [o' r].
Qed.
Lemma neutral_tell {X} (c : call X) :
  verb_of c = None -> (forall x told, says_held X c x told = told) -> neutral (tell c : act X).
Proof.
  intros Hv Hs o told. split; [unfold verb_needs; by rewrite Hv|]. intros x _. apply Hs.
Qed.
Lemma verbless_tell {X} (c : call X) : verb_of c = None -> verbless (tell c : act X).
Proof. intros Hv o told. split; [unfold verb_needs; by rewrite Hv|done]. Qed.
Lemma stays_tell {X} (c : call X) : steps_with c = true -> stays (tell c : act X).
Proof. intros Hc o. destruct c; try done; by split. Qed.
Lemma stays_hold s : stays (hold s).
Proof. done. Qed.

(** The writes of a status concern the operation only. *)
Lemma neutral_write_status retries reread change o told :
  wp (write_status retries reread change o) (fun _ told' => told' = told) told.
Proof.
  assert (Hp : forall (fresh base : Ops) (k : res api_error Ops -> prog call (Ops * res api_error unit)),
    (forall r, exists x, k r = Ret x) -> wp (Vis (PatchOps fresh base) k) (fun _ told' => told' = told) told).
  { intros fresh base k Hk. split; [done|]. intros r _. by destruct (Hk r) as [x ->]. }
  assert (Honce : forall reread o, wp (write_once reread change o) (fun _ told' => told' = told) told).
  { intros [] o'; unfold write_once; [split; [done|]; intros [fresh|e] _; [|done]|];
      apply Hp; intros [?|?]; by eexists. }
  revert reread o. induction retries as [|n IH]; intros reread o; cbn [write_status]; apply wp_bind;
    (eapply wp_mono; [|apply Honce]); intros [o' [x|[]]] told' ->; first [done|apply IH].
Qed.
Lemma neutral_writeStatus retries change : neutral (writeStatus retries change).
Proof.
  intros o told. unfold writeStatus. apply wp_bind. eapply wp_mono; [|apply neutral_write_status].
  by intros [o' [x|e]] told' ->.
Qed.

Lemma stays_once fire also : stays fire -> stays (once fire also).
Proof.
  intros Hf o. unfold once. apply wp_held. apply wp_act. split; [done|]. intros now _.
  cbn [wp says_held]. destruct (claim_held (Step (o_Status o)) now); [done|]. cbv zeta. apply wp_act.
  split; [done|]. intros [answered|[]] _; try done. cbn [wp says_held]. apply wp_act. cbn [wp hold].
  case_match; [|done]. apply (stays_bind fire (fun _ => ret true)); [done|]. by intros ? ?.
Qed.

Lemma stays_attempt {A} (m : act A) : stays m -> stays (attempt (E' := error) m).
Proof.
  intros Hm o. apply wp_attempt. eapply wp_mono; [|apply Hm]. by intros [o' r].
Qed.
(** Run through one part after another. *)
Ltac stays :=
  repeat lazymatch goal with
  | |- stays (_ ≫= _) => apply stays_bind; [|intros ?]
  | |- stays (match ?x with _ => _ end) => destruct x
  | |- stays (writeStatus _ _) => apply neutral_stays, neutral_writeStatus
  | |- stays (tell _) => by apply stays_tell
  | |- stays (event _ _ _) => by apply stays_tell
  | |- stays (once _ _) => apply stays_once
  | |- stays (verb _ _) => unfold verb
  | |- stays (deviceAddress _) => unfold deviceAddress
  | |- stays (note _ _) => unfold note
  | |- stays _ => by intros ?
  end.

Ltac verbless :=
  repeat lazymatch goal with
  | |- verbless (_ ≫= _) => apply verbless_bind; [|intros ?]
  | |- verbless (attempt _) => apply verbless_attempt
  | |- verbless (match ?x with _ => _ end) => destruct x
  | |- verbless (writeStatus _ _) => apply neutral_verbless, neutral_writeStatus
  | |- verbless (tell _) => by apply verbless_tell
  | |- verbless (event _ _ _) => by apply verbless_tell
  | |- verbless (api _ _) => unfold api
  | |- verbless (target _) => unfold target
  | |- verbless (releaseLock _) => unfold releaseLock
  | |- verbless (fail _ _ _) => unfold fail
  | |- verbless (note _ _) => unfold note
  | |- verbless _ => by intros ? ?
  end.

(** The rest makes no verb. *)
Ltac no_verb :=
  cbn beta iota; cbn [negb];
  match goal with
  | |- @Programs.wp _ _ _ _ (?m ?o) _ ?told =>
      let H := fresh in
      assert (H : verbless m) by (unfold succeed, abort, finalize, begin, enter; verbless); exact (H o told)
  end.

(** A call that is no verb, with any answer. *)
Ltac answers x := apply wp_act; split; [done|]; intros x _; cbn beta iota; cbn [Programs.wp says_held].

Context (Quote : string -> string) (DefaultRetry : nat) (ctx : Context) (monitored : bool).

Lemma verbless_fail message : verbless (fail Quote DefaultRetry message).
Proof. verbless. Qed.
Lemma verbless_succeed device : verbless (succeed DefaultRetry device).
Proof. unfold succeed. verbless. Qed.
Lemma verbless_abort device current : verbless (abort DefaultRetry device current).
Proof. unfold abort. verbless. Qed.
Lemma verbless_finalize : verbless (finalize Quote).
Proof. unfold finalize. verbless. Qed.
Lemma verbless_move_on device machine : verbless (move_on Quote DefaultRetry ctx device machine).
Proof. unfold move_on, succeed, enter. cbv zeta. verbless. Qed.

(** A step that makes a verb makes it under the lock that was told, and leaves that. *)
Lemma stays_performStep device current : stays (performStep Quote DefaultRetry monitored device current).
Proof.
  unfold performStep, checkHealth, request, removeFromDataPath, requestFailure, await. stays.
Qed.

Abbreviation told_wp m o := (wp (m o) (fun _ _ => True) true).

Lemma run_step_told device machine o :
  told_wp (run_step Quote DefaultRetry ctx monitored device machine) o.
Proof.
  unfold run_step. apply wp_held. answers now. destruct (TimeoutReached machine now); [no_verb|].
  apply wp_act, wp_attempt. eapply wp_mono; [|apply stays_performStep].
  intros [o' [[]|[]]] told Ht; cbn beta iota; try done; [apply verbless_move_on|no_verb].
Qed.

Lemma advance_told device o : told_wp (advance Quote DefaultRetry ctx monitored device) o.
Proof.
  unfold advance. apply wp_held.
  destruct (Device.storageDeviceOpsGraphs !! o_Action o) as [graph|]; [|no_verb].
  answers now. destruct (NewFromSnapshot _ _ _ _ _) as [machine|err]; [|no_verb].
  destruct (String.eqb _ _); [no_verb|]. destruct (o_Abort o); [|apply run_step_told].
  assert (Hb : stays (abortBlocked Quote device (CanAbort machine))).
  { unfold abortBlocked. stays. apply stays_attempt. stays. }
  apply wp_act. eapply wp_mono; [|apply Hb]. intros [o' [blocked|e]] told ->; [|done].
  destruct (String.eqb _ _); [no_verb|]. answers x. apply run_step_told.
Qed.

(** The lock is held where the API server said so: in the device that was read, or in the
    answer to the patch that took it. *)
Lemma acquireLock_told device told :
  device_key device = dev_key o0 ->
  told = String.eqb (d_ActiveOpsRef device) (o_Name o0) ->
  wp (acquireLock device o0) (fun '(o, r) told =>
    match r with Ok (true, _) => told = true | _ => True end) told.
Proof.
  intros Hd ->. unfold acquireLock. apply wp_held. cbv zeta.
  destruct (String.eqb_spec (d_ActiveOpsRef device) (o_Name o0)) as [E|E]; [done|].
  assert (Htake : forall told,
    wp ((r ← tell (PatchDevice device (with_lock device (o_Name o0) (d_ResourceVersion device)));
      match r with
      | Ok answered => ret (true, answered)
      | Err Conflict => ret (false, with_lock device (o_Name o0) (d_ResourceVersion device))
      | Err e => raise (ErrApi ("take the lock on device " ++ d_Name device) e)
      end : act (bool * Device)) o0) (fun '(o, r) told =>
        match r with Ok (true, _) => told = true | _ => True end) told).
  { intros told. answers r. destruct r as [d|[]]; try done.
    cbn. by rewrite bool_decide_eq_true_2, String.eqb_refl. }
  apply wp_act. destruct (String.eqb_spec (d_ActiveOpsRef device) ""); [apply Htake|].
  unfold lockIsStale. answers r. destruct r as [other|[]]; try done; [|apply Htake].
  cbn beta iota. cbn [Programs.wp ret act_ret]. destruct (terminal _); [apply Htake|done].
Qed.

Lemma reconcile_told : wp (reconcile Quote DefaultRetry ctx monitored o0) (fun _ _ => True) false.
Proof.
  unfold reconcile. apply wp_held. destruct (o_Deleting o0); [no_verb|].
  destruct (negb _); [no_verb|]. destruct (terminal _); [done|].
  apply wp_act, wp_attempt. unfold target. apply wp_held. apply wp_act. split; [done|].
  intros [device|[| |cause]] Hdev; try done; [|cbn [Programs.wp raise]; no_verb].
  specialize (Hdev device eq_refl). cbn [Programs.wp ret act_ret says_held].
  rewrite decide_True by done. answers r.
  assert (Hgo : wp (('(held_, device) ← acquireLock device;
      if negb held_ then
        _ ← note DefaultRetry ("waiting for " ++ d_ActiveOpsRef device ++ " to finish with device " ++
              d_Name device);
        ret (Some deviceOpsRetry)
      else advance Quote DefaultRetry ctx monitored device : act result) o0) (fun _ _ => True)
      (String.eqb (d_ActiveOpsRef device) (o_Name o0))).
  { apply wp_act. eapply wp_mono; [|by apply acquireLock_told].
    intros [o [[[] d]|e]] told H; [subst told; apply advance_told|no_verb|done]. }
  destruct r as [[name [] site]|[| |cause]]; try done; [no_verb|exact Hgo..].
Qed.

(** A pass makes a verb only when the API server's last answer about the device said that the
    operation, which it read as one that runs, holds its lock. *)
Lemma reconcile_verb pre X (c : call X) x post r :
  does (reconcile Quote DefaultRetry ctx monitored o0) (pre ++ Ev c x :: post) r ->
  Forall (possibly named_device) (pre ++ Ev c x :: post) -> is_Some (verb_of c) ->
  told_held pre = true.
Proof.
  intros Hd Hp [v Hv]. destruct (watched_sound _ _ _ _ _ _ _ _ reconcile_told Hd Hp) as [Hh _].
  apply heeded_app in Hh as [_ [Ha _]]. unfold verb_needs in Ha. by rewrite Hv in Ha.
Qed.

End Told.

(** ** The invariant *)

(** A verb that was issued while its operation held the device's lock, or while the device
    was gone from the API. *)
Definition under_its_lock (i : issue) : Prop :=
  i_holder i = None \/ i_holder i = Some (o_Name (i_ops i)).

Section Calm.

Context (Quote : string -> string) (DefaultRetry : nat) (ctx : Context) (monitored : bool).

Abbreviation Reconcile := (Reconcile Quote DefaultRetry ctx monitored).
Abbreviation safe o p k := (wp (H := lock_rules o) p (fun _ _ => True) k).

(** A pass that has not read its operation. *)
Definition unread (key : string * string) (p : prog call (res error result)) : Prop :=
  match p with
  | Ret _ => True
  | Vis c k =>
      match c in call X return (X -> prog call (res error result)) -> Prop with
      | GetOps key' => fun k => key' = key /\ forall r,
          match r with
          | Ok o => safe o (k r) (know0 o)
          | Err _ => exists x, k r = Ret x
          end
      | _ => fun _ => False
      end k
  end.

Lemma Reconcile_unread_lock key : unread key (Reconcile key).
Proof.
  simpl. split; [done|]. intros [o|[| |cause]]; try by eexists.
  apply wp_bind. eapply wp_mono; [|apply (last_reconcile o)]. by intros [o' r] k _.
Qed.

Definition pass_ok (w : World) (p : thread * Know) : Prop :=
  finished p.1 = true \/
  match t_read p.1 with
  | None => unread (t_key p.1) (t_code p.1)
  | Some o => ops_key o = t_key p.1 /\ holds w o p.2 /\ safe o (t_code p.1) p.2
  end.

Record Calm (s : System) (ps : list (thread * Know)) : Prop := {
  calm_threads : threads s = ps.*1;
  calm_passes : Forall (pass_ok (world s)) ps;
  calm_state : calm_world (world s);
  calm_serial i j t t' : threads s !! i = Some t -> threads s !! j = Some t' -> i <> j ->
    finished t = false -> finished t' = false -> t_key t <> t_key t';
  calm_issues : Forall under_its_lock (issues s);
}.

Lemma holds_know0 w o :
  calm_world w -> latest (operations w) (ops_key o) = Some o -> holds w o (know0 o).
Proof.
  intros Hw Ho. constructor; simpl; try done.
  - by apply latest_in.
  - destruct (contains _ _) eqn:E; [|done]. intros st [= <-]. by exists o.
  - intros o' [->|Hin]%elem_of_cons; [by apply latest_in|by apply elem_of_nil in Hin].
  - intros d Hin. by apply elem_of_nil in Hin.
  - intros n Hin. by apply elem_of_nil in Hin.
Qed.

(** One pass makes a step; the others are for other operations. *)
Lemma Calm_pass s ps i t k t' k' w' is' :
  Calm s ps -> ps !! i = Some (t, k) -> finished t = false -> t_key t' = t_key t ->
  calm_world w' -> pass_ok w' (t', k') ->
  (forall o1 k1, ops_key o1 <> t_key t -> holds (world s) o1 k1 -> holds w' o1 k1) ->
  Forall under_its_lock is' ->
  Calm (mkSystem w' (<[i := t']> (threads s)) (issues s ++ is')) (<[i := (t', k')]> ps).
Proof.
  intros C Hi Hf Hkey Hw Hp Hoth His.
  assert (Hti : threads s !! i = Some t).
  { by rewrite (calm_threads _ _ C), list_lookup_fmap, Hi. }
  constructor; simpl.
  - by rewrite list_fmap_insert, (calm_threads _ _ C).
  - apply Forall_lookup. intros j [t1 k1]. rewrite list_lookup_insert_Some.
    intros [(-> & [= <- <-] & _)|(Hne & Hj)]; [done|].
    pose proof (calm_passes _ _ C) as Hall. rewrite Forall_lookup in Hall.
    destruct (Hall j (t1, k1) Hj) as [Hfin|Hok]; [by left|].
    destruct (finished t1) eqn:Hf1; [by left|right]. simpl in *.
    destruct (t_read t1) as [o1|]; [|done]. destruct Hok as (Hk1 & Hh & Hsafe).
    split; [done|]. split; [|done]. apply Hoth; [|done]. rewrite Hk1.
    eapply (calm_serial _ _ C j i); [|done..]. by rewrite (calm_threads _ _ C), list_lookup_fmap, Hj.
  - done.
  - intros j1 j2 t1 t2 H1 H2 Hne F1 F2.
    assert (Hof : forall j t1, <[i:=t']> (threads s) !! j = Some t1 -> finished t1 = false ->
      exists t0, threads s !! j = Some t0 /\ finished t0 = false /\ t_key t1 = t_key t0).
    { intros j t0. rewrite list_lookup_insert_Some.
      intros [(-> & <- & _)|(_ & Hj)] Ht0; [by exists t|by exists t0]. }
    destruct (Hof j1 t1 H1 F1) as (u1 & U1 & V1 & ->).
    destruct (Hof j2 t2 H2 F2) as (u2 & U2 & V2 & ->).
    by eapply (calm_serial _ _ C j1 j2).
  - apply Forall_app. by split; [apply (calm_issues _ _ C)|].
Qed.

Lemma Calm_take s ps t s' :
  Calm s ps -> take Quote DefaultRetry ctx monitored Runs.calm s t = Some s' ->
  exists ps', Calm s' ps'.
Proof.
  intros C. assert (Hw := calm_state _ _ C). destruct t as [e|key|i ch|i].
  - simpl. destruct (apply_edit false e (world s)) as [w'|] eqn:He; [|done]. intros [= <-].
    destruct (edit_calm e _ _ Hw He) as [Hw' Hh]. exists ps. constructor; simpl; try apply C; [|done].
    eapply Forall_impl; [apply (calm_passes _ _ C)|]. intros p [Hf|Hp]; [by left|right].
    destruct (t_read p.1) as [o|]; [|done]. destruct Hp as (? & ? & ?). auto.
  - cbn [take]. destruct (_ || _) eqn:E; [|done]. intros [= <-]. simpl in E.
    exists (ps ++ [(mkThread key None (Reconcile key), mkKnow None false [] [] [])])%list.
    constructor; simpl; try apply C.
    + by rewrite fmap_app, (calm_threads _ _ C).
    + apply Forall_app. split; [apply (calm_passes _ _ C)|]. constructor; [|constructor].
      right. apply Reconcile_unread_lock.
    + assert (Hkeys : forall j t, threads s !! j = Some t -> finished t = false -> t_key t <> key).
      { intros j t Hj Hf. rewrite forallb_forall in E.
        specialize (E t (proj1 (list_elem_of_In _ _) (list_elem_of_lookup_2 _ _ _ Hj))).
        rewrite Hf in E. simpl in E. by apply negb_true_iff, bool_decide_eq_false in E. }
      intros j1 j2 t1 t2. rewrite !lookup_app_Some, !list_lookup_singleton_Some.
      intros [H1|[L1 [E1 <-]]] [H2|[L2 [E2 <-]]] Hne F1 F2.
      * by eapply (calm_serial _ _ C j1 j2).
      * by eapply Hkeys.
      * apply not_eq_sym. by eapply Hkeys.
      * lia.
  - cbn [take]. destruct (threads s !! i) as [[key o [x|X c kk]]|] eqn:Hi; try done.
    destruct (admissible Runs.calm ch) eqn:Hch; [|done].
    destruct (serve c ch (world s)) as [[w' x]|] eqn:Hs; [|done]. intros [= <-].
    assert (Hti := Hi). rewrite (calm_threads _ _ C), list_lookup_fmap in Hi.
    destruct (ps !! i) as [[t k]|] eqn:Hp; simplify_eq/=.
    pose proof (calm_passes _ _ C) as Hall. rewrite Forall_lookup in Hall.
    destruct (Hall i _ Hp) as [Hf|Hok]; [done|]. simpl in Hok.
    destruct o as [o|].
    + destruct Hok as (Hk & Hh & Hsafe). simpl in Hsafe.
      destruct (call_calm o (world s) Hw k Hh X c ch w' x _ Hch Hs Hsafe)
        as (Hw' & Hoth & (k' & HQ & Hh') & Hverb).
      exists (<[i := (mkThread key (note_read (Some o) c x) (kk x), k')]> ps).
      eapply Calm_pass; [exact C|exact Hp|done|done|done| | |].
      * right. simpl. done.
      * simpl. intros o1 k1 Hne. apply Hoth. congruence.
      * unfold issue_of. destruct (verb_of c) as [[v a]|] eqn:Ev; [|constructor].
        constructor; [|constructor]. simpl.
        destruct (holds_lock _ _ _ Hh (Hverb ltac:(by eexists))) as (_ & _ & Hlat).
        fold (dev_key o). destruct (latest (devices (world s)) (dev_key o)) as [d|]; [|by left].
        right. simpl. f_equal. by apply Hlat.
    + simpl in Hok. destruct c; try done. destruct Hok as [-> Hun]. simpl in Hs.
      assert (Hx : w' = world s /\ (x = answer_read (latest (operations (world s)) key) \/
        exists cause, x = Err (Failure cause))).
      { destruct ch as [[|n]|landed cause| | | | | |]; try done; injection Hs as <- <-; eauto. }
      destruct Hx as [-> Hx]. specialize (Hun x). unfold issue_of. simpl.
      exists (<[i := (mkThread key (note_read None (GetOps key) x) (kk x),
        match x with Ok o => know0 o | Err _ => k end)]> ps).
      eapply Calm_pass; [exact C|exact Hp|done|done|done| |done|constructor].
      destruct x as [o|e].
      * right. destruct Hx as [Hx|[]]; [|done]. unfold answer_read in Hx.
        destruct (latest (operations (world s)) key) as [o'|] eqn:Hlat; simplify_eq.
        assert (Hk := version_key _ _ _ (calm_ok _ Hw) (latest_in _ _ _ Hlat)).
        simpl. split; [done|]. split; [|done]. apply holds_know0; [done|]. by rewrite Hk.
      * left. destruct Hun as [y Hy]. unfold finished. simpl. by rewrite Hy.
  - cbn [take]. destruct (threads s !! i) as [[key o p]|] eqn:Hi; [|done]. intros [= <-].
    assert (Hti := Hi). rewrite (calm_threads _ _ C), list_lookup_fmap in Hi.
    destruct (ps !! i) as [[t k]|] eqn:Hp; simplify_eq/=.
    destruct (finished (mkThread key o p)) eqn:Hf.
    + exists (<[i := (mkThread key o (Ret (Ok None)), k)]> ps). constructor; simpl.
      * by rewrite list_fmap_insert, (calm_threads _ _ C).
      * apply Forall_insert; [apply (calm_passes _ _ C)|by left].
      * done.
      * intros j1 j2 t1 t2. rewrite !list_lookup_insert_Some.
        intros [(-> & <- & _)|(_ & H1)] [(-> & <- & _)|(_ & H2)] Hne F1 F2; try done.
        by eapply (calm_serial _ _ C j1 j2).
      * apply (calm_issues _ _ C).
    + exists (<[i := (mkThread key o (Ret (Ok None)), k)]> ps).
      rewrite <- (app_nil_r (issues s)).
      eapply Calm_pass; [exact C|exact Hp|done|done|done|by left|done|constructor].
Qed.

Lemma reachable_Calm s :
  reachable Quote DefaultRetry ctx monitored Runs.calm s -> exists ps, Calm s ps.
Proof.
  intros [pruning Hs].
  refine (rtc_ind_r (fun s => exists ps, Calm s ps) _ _ _ s Hs).
  - exists []. constructor; simpl; try done. constructor; simpl.
    + constructor; simpl; try (by apply ordered_empty).
      intros key key' o o' Hin. by apply elem_of_nil in Hin.
    + intros key o Hin. by apply elem_of_nil in Hin.
    + intros key d Hin. by apply elem_of_nil in Hin.
    + intros key o o' Hin. by apply elem_of_nil in Hin.
    + done.
  - intros s1 s2 _ [t Ht] [ps C]. by eapply Calm_take.
Qed.

(** C9. A pass restarts, removes or fails a device only when the last the API server told it of
    that device, in a read of it or in the answer to the patch that takes its lock, is that the
    operation the pass read holds the lock; this is of every pass, whatever its calls are
    answered, so under any interleaving and however old its reads are.  And in runs in which no
    read lags, no two passes of one operation overlap, and no name is used again, while passes of
    different operations interleave call by call, any call fails, a write may have landed all the
    same, a pass stops anywhere, and users create, abort and delete operations and devices, the
    operation holds the lock at the moment the verb is issued, unless the device is gone from the
    API.  Where a read lags, that second part is not claimed: a pass may act on a lock that has
    passed on since. *)
Theorem verbs_under_the_lock :
  (forall key pre X (c : call X) x post r,
     does (Reconcile key) (pre ++ Ev c x :: post) r ->
     Forall (possibly named_device) (pre ++ Ev c x :: post) -> is_Some (verb_of c) ->
     exists o read, pre = Ev (GetOps key) (Ok o) :: read /\ told_held o read = true) /\
  (forall s i,
     reachable Quote DefaultRetry ctx monitored Runs.calm s -> i ∈ issues s -> under_its_lock i).
Proof.
  split.
  - intros key pre X c x post r Hd Hp Hv. destruct pre as [|e read]; simpl in Hd.
    { destruct Hd as (x' & E & _).
      apply (f_equal (fun e => match e with Ev c' _ => verb_of c' end)) in E. simpl in E.
      rewrite E in Hv. by destruct Hv. }
    destruct Hd as (r0 & -> & Hd). apply Forall_cons in Hp as [_ Hp].
    destruct r0 as [o|[| |cause]]; try (by destruct Hd as [Hn _]; destruct read).
    exists o, read. split; [done|]. apply does_bind in Hd as (tr1 & tr2 & [o' r'] & E & Hd & [-> _]).
    rewrite app_nil_r in E. rewrite <- E in Hd. by eapply reconcile_verb.
  - intros s i Hs Hi. destruct (reachable_Calm s Hs) as [ps C].
    pose proof (calm_issues _ _ C) as Hall. rewrite Forall_forall in Hall. by apply Hall.
Qed.

(** C20. In runs in which no read lags, no two passes of one operation overlap, and no name is
    used again, while passes of different operations interleave call by call, any call fails, a
    write may have landed all the same, a pass stops anywhere, and users create, abort and delete
    operations and devices: every version of an operation follows the one before it.  Its status
    is the same, or it made one move of its graph; an operation that ended is never moved again.
    Where a read lags it is not so: a pass that read an ended operation from before it began
    begins it again. *)
Theorem operations_follow_their_graph s key i old new :
  reachable Quote DefaultRetry ctx monitored Runs.calm s ->
  versions (operations (world s)) key !! i = Some (Some new) ->
  versions (operations (world s)) key !! S i = Some (Some old) ->
  o_Status new = o_Status old \/ moves (o_Action old) (o_Status old) (o_Status new).
Proof.
  intros Hs. destruct (reachable_Calm s Hs) as [ps C]. apply (calm_follows _ (calm_state _ _ C)).
Qed.

End Calm.

(** ** Runs *)

Section Runs.

Import DeviceOps.Runs.

(** A pass of the operation in its first step, over an API server that shows the device as its
    own. *)
Definition requesting : Ops :=
  mkOps "ns" "restart-a" "uid-a" 1 1 false [deviceOpsFinalizer] "disk" Device.actionDeviceRestart false
    (mkStatus PhaseRunning (mkKube Device.stepDeviceRequesting None None) "" "" 0 None None).
Definition mine : Device := with_lock the_device "restart-a" 1.
Definition agreeing (X : Type) (c : call X) (s : unit) : unit * X :=
  (s, match c in call X return X with
      | GetOps _ => Ok requesting
      | GetDevice _ => Ok mine
      | GetNode _ => Ok (mkNode "node" false "")
      | PatchOps _ new => Ok new
      | UpdateOps _ => Ok ()
      | PatchDevice _ new => Ok new
      | ReadDevice _ => Ok cpDeviceOnline
      | RestartDevice _ | RemoveDevice _ | FailDevice _ => Ok ()
      | CheckHealth _ => Ok ("", "")
      | Now => t0
      | Event _ _ _ => ()
      end).

Definition agreed := (traced agreeing (Reconcile quote 4 Background true (ops_key requesting)) ()).2.
Definition before_restart : list (Programs.event call) := firstn 7%nat agreed.1.

Lemma agreed_restarts :
  agreed.1 = (before_restart ++
    Ev (RestartDevice (mkAddress "cluster-1" "node-1" "dev-1")) (Ok ()) :: skipn 8%nat agreed.1)%list.
Proof. vm_compute. reflexivity. Qed.

Lemma verbs_under_the_lock_witness :
  (exists o read, before_restart = Ev (GetOps (ops_key requesting)) (Ok o) :: read /\
     told_held o read = true) /\
  exists s i, reachable quote 4 Background true calm s /\ i ∈ issues s /\
    i_holder i = Some "restart-a" /\ under_its_lock i.
Proof.
  split.
  { refine (proj1 (verbs_under_the_lock quote 4 Background true) (ops_key requesting) before_restart _
      (RestartDevice (mkAddress "cluster-1" "node-1" "dev-1")) (Ok ()) (skipn 8%nat agreed.1) agreed.2 _ _ _).
    - rewrite <- agreed_restarts. apply traced_does.
    - rewrite <- agreed_restarts. unfold agreed. vm_compute. repeat constructor; by intros d [= <-].
    - by eexists. }
  destruct (play_all calm false DeviceRestart.never_gone) as [s|] eqn:E;
    [|exfalso; vm_compute in E; discriminate E].
  exists s.
  assert (Hi : (fun s => i_holder <$> issues s) <$> play_all calm false DeviceRestart.never_gone =
    Some [Some "restart-a"]) by (vm_compute; reflexivity).
  rewrite E in Hi. injection Hi as Hi.
  destruct (issues s) as [|i [|]] eqn:Eis; try discriminate Hi. injection Hi as Hi.
  assert (Hreach : reachable quote 4 Background true calm s) by by eapply play_all_reachable.
  assert (Hin : i ∈ issues s) by (rewrite Eis; by left).
  exists i. split; [exact Hreach|]. split; [by left|]. split; [exact Hi|].
  exact (proj2 (verbs_under_the_lock quote 4 Background true) s i Hreach Hin).
Defined.

(** The states of the operation's last two versions, the latest first. *)
Definition last_states (s : System) : list (option string) :=
  map (option_map (fun o => state_of (o_Status o)))
    (firstn 2%nat (versions (operations (world s)) (ops_key the_ops))).

Lemma operations_follow_their_graph_witness :
  exists s old new, reachable quote 4 Background true calm s /\
    state_of (o_Status old) = Device.stepDeviceAwaiting /\
    state_of (o_Status new) = StepCompleted /\
    (o_Status new = o_Status old \/ moves (o_Action old) (o_Status old) (o_Status new)).
Proof.
  destruct (play_all calm false DeviceRestart.never_gone) as [s|] eqn:E;
    [|exfalso; vm_compute in E; discriminate E].
  exists s.
  assert (Hv : last_states <$> play_all calm false DeviceRestart.never_gone =
    Some [Some StepCompleted; Some Device.stepDeviceAwaiting]) by (vm_compute; reflexivity).
  unfold last_states in Hv.
  rewrite E in Hv. injection Hv as Hv.
  destruct (versions (operations (world s)) (ops_key the_ops)) as [|[new|] [|[old|] rest]] eqn:Ev;
    try discriminate Hv.
  injection Hv as Hn Ho. exists old, new.
  assert (Hreach : reachable quote 4 Background true calm s) by by eapply play_all_reachable.
  split; [exact Hreach|]. split; [exact Ho|]. split; [exact Hn|].
  apply (operations_follow_their_graph quote 4 Background true s (ops_key the_ops) O old new Hreach);
    by rewrite Ev.
Defined.

End Runs.

End DeviceLock.
