(* ===== verification/Kube.v ===== *)
(** Kubernetes names, keys and parameters: [derived.go], [workloadnames.go], [keys.go],
    [qos.go], [params.go], [storageclass.go], [identity.go] and [normalized.go] of
    [atlas-lib/kube].

    The digest of [crypto/sha256] and the API server's own validators are parameters
    ([Library]); what a name is checked against is written out as [legal].  Annotations,
    labels and class parameters are maps of strings. *)

From Stdlib Require Import Ascii String.
From S2P Require Import Prelude.
From S2P Require Import GoStrings.
From S2P Require Import Handles.

#[local] Open Scope string_scope.
#[local] Unset Default Proof Using.

(** The hexadecimal digest, and what the validators of [apimachinery] find wrong with a
    value. *)
Class Library := {
  sha256_hex : string -> string;
  IsDNS1123Label : string -> list string;
  IsDNS1123Subdomain : string -> list string;
  IsQualifiedName : string -> list string;
  IsValidLabelValue : string -> list string;
}.

(** A SHA-256 is sixty-four hexadecimal digits, in lower case. *)
Definition hex_digit (a : ascii) : bool := in_range 48 57 (code a) || in_range 97 102 (code a).

Class LibraryLaws `{!Library} : Prop := {
  sha256_length s : String.length (sha256_hex s) = 64%nat;
  sha256_digits s : forallb hex_digit (to_bytes (sha256_hex s)) = true;
}.

Module Kube.

Abbreviation StringMap := (gmap string string) (only parsing).

(** The first bytes of a string: Go's [s[:n]]. *)
Definition slice (n : nat) (s : string) : string := of_bytes (List.firstn n (to_bytes s)).

(** [strings.TrimRight] and [strings.Trim], the cutset a predicate on bytes. *)
Definition TrimRightSet (cut : ascii -> bool) (s : string) : string :=
  of_bytes (rev (drop_while cut (rev (to_bytes s)))).
Definition TrimSet (cut : ascii -> bool) (s : string) : string :=
  of_bytes (drop_while cut (to_bytes (TrimRightSet cut s))).

(** ** Derived identifiers ([derived.go]) *)

Definition MaxLabelValueLength : nat := 63.
Definition MaxObjectNameLength : nat := 253.
Definition digestLength : nat := 8.

Inductive Kind := ObjectName | LabelValue | LabelKeyName | DNSLabel.

Definition limit (k : Kind) : nat :=
  match k with ObjectName => MaxObjectNameLength | _ => MaxLabelValueLength end.

Definition is_lower (a : ascii) : bool := in_range 97 122 (code a).
Definition is_upper (a : ascii) : bool := in_range 65 90 (code a).
Definition is_digit (a : ascii) : bool := in_range 48 57 (code a).
Definition is_dot (a : ascii) : bool := Ascii.eqb a ".".
Definition is_dash (a : ascii) : bool := Ascii.eqb a "-".
Definition is_underscore (a : ascii) : bool := Ascii.eqb a "_".

(** What the three patterns let through, and what may not end a value of the kind. *)
Definition safe (k : Kind) (a : ascii) : bool :=
  match k with
  | ObjectName => is_lower a || is_digit a || is_dot a || is_dash a
  | DNSLabel => is_lower a || is_digit a || is_dash a
  | _ => is_upper a || is_lower a || is_digit a || is_dot a || is_underscore a || is_dash a
  end.
Definition separator (k : Kind) (a : ascii) : bool :=
  match k with
  | ObjectName => is_dot a || is_dash a
  | DNSLabel => is_dash a
  | _ => is_dot a || is_underscore a || is_dash a
  end.

(** [ReplaceAllString(s, "-")]: every longest run of unsafe bytes becomes one dash. *)
Fixpoint replace_runs (safe : ascii -> bool) (within : bool) (l : list ascii) : list ascii :=
  match l with
  | [] => []
  | a :: l =>
      if safe a then a :: replace_runs safe false l
      else if within then replace_runs safe true l
      else "-"%char :: replace_runs safe true l
  end.

Definition ReplaceAllString (safe : ascii -> bool) (s : string) : string :=
  of_bytes (replace_runs safe false (to_bytes s)).

Definition cuts (a : ascii) : bool := is_dot a || is_underscore a || is_dash a.

Record Formula := mkFormula {
  Prefix : string;
  Suffix : string;
  Separator : string;
  f_Kind : Kind;
  Limit : Z;
  AlwaysDigest : bool;
}.

Record Derived := mkDerived {
  Value : string;
  Natural : string;
  Digest : string;
  d_Limit : Z;
  Truncated : bool;
  d_Kind : Kind;
}.

Section Derive.

Context `{!Text} `{!Library}.

Definition sanitize (k : Kind) (s : string) : string :=
  TrimSet (separator k)
    (ReplaceAllString (safe k) match k with ObjectName | DNSLabel => ToLower s | _ => s end).

Definition Validate (k : Kind) (s : string) : list string :=
  match k with
  | ObjectName => IsDNS1123Subdomain s
  | LabelKeyName => IsQualifiedName s
  | DNSLabel => IsDNS1123Label s
  | LabelValue => IsValidLabelValue s
  end.

(** [digestOf]: over the parts as they were handed in, NUL between them. *)
Definition digestOf (parts : list string) : string := slice digestLength (sha256_hex (Join parts "000")).

Definition Fits (d : Derived) : bool := negb (Truncated d).
Definition Errors (d : Derived) : list string := Validate (d_Kind d) (Value d).

Definition stem (f : Formula) (parts : list string) : string :=
  String.concat (if String.eqb (Separator f) "" then "-" else Separator f)
    (map (sanitize (f_Kind f)) parts).

Definition bound (f : Formula) : Z :=
  if (0 <? Limit f)%Z then Limit f else Z.of_nat (limit (f_Kind f)).

Definition natural (f : Formula) (parts : list string) : string :=
  if AlwaysDigest f then Prefix f ++ stem f parts ++ "-" ++ digestOf parts ++ Suffix f
  else Prefix f ++ stem f parts ++ Suffix f.

(** What is left of the limit for the stem of a value that is cut. *)
Definition room (f : Formula) : nat :=
  Z.to_nat (bound f - Z.of_nat (String.length (Prefix f)) - Z.of_nat (String.length (Suffix f)) -
            Z.of_nat digestLength - 1).

Definition Derive (f : Formula) (parts : list string) : Derived :=
  let natural := natural f parts in
  if (Z.of_nat (String.length natural) <=? bound f)%Z then
    mkDerived natural natural (digestOf parts) (bound f) false (f_Kind f)
  else
    mkDerived (Prefix f ++ TrimRightSet cuts (slice (room f) (stem f parts)) ++ "-" ++ digestOf parts ++
               Suffix f)
      natural (digestOf parts) (bound f) true (f_Kind f).

(** ** Workload names ([workloadnames.go]) *)

Definition ConstantNodeAPIService : string := "simplyblock-storage-node-api".
Definition ConstantSpdkProxyService : string := "simplyblock-spdk-proxy".
Definition tlsSecretSuffix : string := "-tls".
Definition maxHostnameLength : nat := MaxLabelValueLength.
Definition memberSuffixLength : nat := 3.

Definition derivedNodeAPIService : Formula := mkFormula "sb-" "-node-api" "" DNSLabel 0 false.
Definition derivedSpdkProxyService : Formula := mkFormula "sb-" "-spdk-proxy" "" DNSLabel 0 false.

Definition with_AlwaysDigest (f : Formula) : Formula :=
  mkFormula (Prefix f) (Suffix f) (Separator f) (f_Kind f) (Limit f) true.

Record WorkloadNames := mkNames {
  NodeAPIService : string;
  NodeAPITLSSecret : string;
  SpdkProxyService : string;
  SpdkProxyTLSSecret : string;
  NodeLabelSuffix : string;
}.

#[global] Instance WorkloadNames_eq_dec : EqDecision WorkloadNames.
Proof. solve_decision. Defined.

Definition servedBy (nodeAPIService spdkProxyService : string) : WorkloadNames :=
  mkNames nodeAPIService (nodeAPIService ++ tlsSecretSuffix) spdkProxyService
    (spdkProxyService ++ tlsSecretSuffix) "".

Definition ConstantWorkloadNames : WorkloadNames :=
  servedBy ConstantNodeAPIService ConstantSpdkProxyService.

Definition DerivedWorkloadNames (cluster : string) : WorkloadNames :=
  let digested f := if negb (String.eqb (sanitize DNSLabel cluster) cluster) then with_AlwaysDigest f else f in
  servedBy (Value (Derive (digested derivedNodeAPIService) [cluster]))
    (Value (Derive (digested derivedSpdkProxyService) [cluster])).

Definition IsConstant (n : WorkloadNames) : bool := bool_decide (n = ConstantWorkloadNames).

Definition Hostname (n : WorkloadNames) (worker : string) : string :=
  let label := (Cut worker ".").1.1 in
  let suffix := NodeLabelSuffix n in
  if Nat.leb (String.length label + String.length suffix) maxHostnameLength then label ++ suffix
  else
    let keep := (maxHostnameLength - String.length suffix - digestLength - 1)%nat in
    TrimRightSet is_dash (slice keep label) ++ "-" ++ digestOf [label] ++ suffix.

(** The submatch of [drawnSuffix], [-([a-z]{3})$]. *)
Definition drawnSuffix (member : string) : option string :=
  match rev (to_bytes member) with
  | c :: b :: a :: dash :: _ =>
      if is_lower a && is_lower b && is_lower c && is_dash dash then Some (of_bytes [a; b; c]) else None
  | _ => None
  end.

Definition memberSuffix (member : string) : string :=
  match drawnSuffix member with
  | Some suffix => suffix
  | None => slice memberSuffixLength (digestOf [member])
  end.

Definition MemberWorkloadNames (supercluster member : string) : WorkloadNames :=
  let names := DerivedWorkloadNames supercluster in
  mkNames (NodeAPIService names) (NodeAPITLSSecret names) (SpdkProxyService names)
    (SpdkProxyTLSSecret names) ("-" ++ memberSuffix member).

End Derive.

(** ** Keys ([keys.go]) *)

Definition GroupPrefix : string := "storage.simplyblock.io/".
Definition BarePrefix : string := "simplyblock.io/".
Definition LegacyPrefix : string := "simplybk/".

(** Every spelling of a key, newest first. *)
Definition Key : Type := list string.

Definition key_String (k : Key) : string := match k with [] => "" | spelling :: _ => spelling end.

Fixpoint Get (k : Key) (values : StringMap) : option string :=
  match k with
  | [] => None
  | spelling :: k => match values !! spelling with Some v => Some v | None => Get k values end
  end.

(** The value, which is empty where no spelling is carried. *)
Definition get (k : Key) (values : StringMap) : string := default "" (Get k values).

Definition Has (k : Key) (values : StringMap) : bool :=
  match Get k values with Some _ => true | None => false end.

Definition Delete (k : Key) (values : StringMap) : StringMap :=
  foldl (fun m spelling => delete spelling m) values k.

Definition Set_ (k : Key) (values : StringMap) (value : string) : StringMap :=
  let values := Delete k values in
  if String.eqb (key_String k) "" then values else <[key_String k := value]> values.

Definition Spellings (keys : list Key) : list string := concat keys.

Definition moved (name : string) : Key := [GroupPrefix ++ name; BarePrefix ++ name].
Definition KeyVolumeHandle : Key := moved "volume-handle".
Definition KeyPool : Key := moved "pool".
Definition KeySelectedStorageNode : Key := moved "selected-storage-node".
Definition KeySelectedStorageNodeApplied : Key := moved "selected-storage-node-applied".
Definition KeySelectedStorageNodeRejected : Key := moved "selected-storage-node-rejected".
Definition KeyPlacementHint : Key := moved "placement-hint".
Definition KeyHostID : Key := (moved "host-id" ++ [(LegacyPrefix ++ "host-id")%string])%list.
Definition KeyFinalizer : Key := moved "lvol-protection".

Definition MovedKeys : list Key :=
  [KeyVolumeHandle; KeyPool; KeySelectedStorageNode; KeySelectedStorageNodeApplied;
   KeySelectedStorageNodeRejected; KeyPlacementHint; KeyHostID; KeyFinalizer].

(** ** Pins ([identity.go]) *)

Definition DriverName : string := "csi.simplyblock.io".

Definition PinnedNode (annotations : StringMap) : string :=
  let v := get KeySelectedStorageNode annotations in
  if negb (String.eqb v "") then v else get KeyHostID annotations.

Definition IsPinnedVolume (annotations : StringMap) : bool :=
  negb (String.eqb (PinnedNode annotations) "").

Definition PendingPin (annotations : StringMap) : option string :=
  let target := PinnedNode annotations in
  if String.eqb target "" || String.eqb target (get KeySelectedStorageNodeApplied annotations) then None
  else Some target.

Definition PinRejected (annotations : StringMap) (target : string) : bool :=
  negb (String.eqb target "") && String.eqb (get KeySelectedStorageNodeRejected annotations) target.

(** A PersistentVolume, as far as it is read: its CSI source, its class, its claim. *)
Record CSISource := mkCSI {
  csi_Driver : string;
  csi_VolumeHandle : string;
  csi_VolumeAttributes : StringMap;
}.
Record PersistentVolume := mkPV {
  pv_Name : string;
  pv_Annotations : StringMap;
  pv_CSI : option CSISource;
  pv_StorageClassName : string;
  pv_ClaimRef : option (string * string);
}.

(** The driver's source of a volume, if it is the driver's. *)
Definition managed (pv : option PersistentVolume) : option CSISource :=
  match pv with
  | Some pv => match pv_CSI pv with
               | Some csi => if String.eqb (csi_Driver csi) DriverName then Some csi else None
               | None => None
               end
  | None => None
  end.
Definition IsManaged (pv : option PersistentVolume) : bool :=
  match managed pv with Some _ => true | None => false end.

Section Volumes.

(** [uuid.Validate], of [google/uuid]. *)
Context `{!Text} (uuid_Validate : string -> bool).

Definition ErrUnsupported : string := "unsupported".
Definition ErrNotFound : string := "not found".

Definition pvName (pv : option PersistentVolume) : string :=
  match pv with Some pv => pv_Name pv | None => "<nil>" end.

Definition VolumeHandleFromPV (pv : option PersistentVolume) : res string VolumeHandle :=
  match managed pv with
  | Some csi => Ok (csi_VolumeHandle csi)
  | None => Err ("pv " ++ Quote (pvName pv) ++ ": " ++ ErrUnsupported)
  end.

Definition VolumeContextFromPV (pv : option PersistentVolume) : option StringMap :=
  option_map csi_VolumeAttributes (managed pv).

Definition ClaimRefFromPV (pv : option PersistentVolume) : option (string * string) :=
  match pv with Some pv => pv_ClaimRef pv | None => None end.

(** [NormalizedHandle] and [NormalizedVolumeHandleFromPV] ([normalized.go]). *)
Definition NormalizedHandle (field : VolumeHandle) (annotations : StringMap) : option Normalized :=
  NormalizeHandle uuid_Validate field (get KeyVolumeHandle annotations).

Definition NormalizedVolumeHandleFromPV (pv : option PersistentVolume) : res string Normalized :=
  match VolumeHandleFromPV pv with
  | Err e => Err e
  | Ok raw =>
      match NormalizedHandle raw (match pv with Some pv => pv_Annotations pv | None => ∅ end) with
      | Some n => Ok n
      | None => Err ("pv " ++ Quote (pvName pv) ++ " carries the handle " ++ Quote raw ++
                     ", which is not well formed: " ++ ErrUnsupported)
      end
  end.

(** ** Parameters ([params.go]) *)

(** The value of a key, where it is there and not empty. *)
Definition set_value (params : StringMap) (key : string) : option string :=
  match params !! key with
  | Some v => if String.eqb v "" then None else Some v
  | None => None
  end.

Definition StringParam (params : StringMap) (key def : string) : string :=
  default def (set_value params key).

Definition parameter_error {A} (key cause : string) : res string A :=
  Err ("parameter " ++ Quote key ++ ": " ++ cause).

(** What [strconv] says of a value it cannot parse. *)
Context (num_error : string -> string -> string).

Definition IntParam (params : StringMap) (key : string) (def : Z) : res string Z :=
  match set_value params key with
  | None => Ok def
  | Some v => match Atoi v with
              | Some n => Ok n
              | None => parameter_error key (num_error "Atoi" v)
              end
  end.

(** [strconv.ParseBool]. *)
Definition ParseBool (s : string) : option bool :=
  if existsb (String.eqb s) ["1"; "t"; "T"; "TRUE"; "true"; "True"] then Some true
  else if existsb (String.eqb s) ["0"; "f"; "F"; "FALSE"; "false"; "False"] then Some false
  else None.

Definition BoolParam (params : StringMap) (key : string) (def : bool) : res string bool :=
  match set_value params key with
  | None => Ok def
  | Some v => match ParseBool v with
              | Some b => Ok b
              | None => parameter_error key (num_error "ParseBool" v)
              end
  end.

(** ** Ceilings ([qos.go]) *)

Inductive QoSCeiling := CeilingIOPS | CeilingMBytesPerSec | CeilingReadMBytesPerSec | CeilingWriteMBytesPerSec.

Definition QoSParamKeys (c : QoSCeiling) : list string :=
  match c with
  | CeilingIOPS => ["max_iops"; "qos_rw_iops"]
  | CeilingMBytesPerSec => ["max_mbytes_per_sec"; "qos_rw_mbytes"]
  | CeilingReadMBytesPerSec => ["max_read_mbytes_per_sec"; "qos_r_mbytes"]
  | CeilingWriteMBytesPerSec => ["max_write_mbytes_per_sec"; "qos_w_mbytes"]
  end.

Definition QoSAnnotationKeys (c : QoSCeiling) : list string :=
  match c with
  | CeilingIOPS => ["storage.simplyblock.io/max-iops"; "simplyblock.io/qos-rw-iops"; "simplybk/qos-rw-iops"]
  | CeilingMBytesPerSec =>
      ["storage.simplyblock.io/max-mbytes-per-sec"; "simplyblock.io/qos-rw-mbps"; "simplybk/qos-rw-mbytes"]
  | CeilingReadMBytesPerSec =>
      ["storage.simplyblock.io/max-read-mbytes-per-sec"; "simplyblock.io/qos-r-mbps"; "simplybk/qos-r-mbytes"]
  | CeilingWriteMBytesPerSec =>
      ["storage.simplyblock.io/max-write-mbytes-per-sec"; "simplyblock.io/qos-w-mbps"; "simplybk/qos-w-mbytes"]
  end.

Definition QoSCeilings : list QoSCeiling :=
  [CeilingIOPS; CeilingMBytesPerSec; CeilingReadMBytesPerSec; CeilingWriteMBytesPerSec].

(** The keys of a list that are set, in its order. *)
Definition set_keys (m : StringMap) (keys : list string) : list string :=
  List.filter (fun k => match set_value m k with Some _ => true | None => false end) keys.

Fixpoint FirstSet (m : StringMap) (keys : list string) : string :=
  match keys with
  | [] => ""
  | k :: keys => match set_value m k with Some v => v | None => FirstSet m keys end
  end.

Definition QoSParam (params : StringMap) (c : QoSCeiling) : string := FirstSet params (QoSParamKeys c).
Definition QoSAnnotation (annotations : StringMap) (c : QoSCeiling) : string :=
  FirstSet annotations (QoSAnnotationKeys c).

Definition QoSParamConflicts (params : StringMap) : list (list string) :=
  List.filter (fun set => Nat.ltb 1 (length set)) (map (fun c => set_keys params (QoSParamKeys c)) QoSCeilings).

(** ** Storage classes ([storageclass.go]) *)

Record QoSLimits := mkLimits { RWIOPS : Z; RWMBytes : Z; RMBytes : Z; WMBytes : Z }.

Record Properties := mkProperties {
  Pool : string;
  Fabric : string;
  pr_ClusterID : string;
  MaxSize : string;
  MaxNamespacePerSubsys : Z;
  Encryption : bool;
  ClientCompression : bool;
  ClientDeduplication : bool;
  QoS : QoSLimits;
}.

Record StorageClass := mkClass { Provisioner : string; Parameters : StringMap }.

Definition WantsVDO (p : Properties) : bool := ClientCompression p || ClientDeduplication p.
Definition IsMultiNamespace (p : Properties) : bool := (1 <? MaxNamespacePerSubsys p)%Z.

Definition qosCeilingFromParams (params : StringMap) (c : QoSCeiling) : res string Z :=
  match set_keys params (QoSParamKeys c) with
  | [] => Ok 0%Z
  | key :: _ => IntParam params key 0
  end.

Definition qosFromParams (params : StringMap) : res string QoSLimits :=
  rwIOPS <-- qosCeilingFromParams params CeilingIOPS ;;
  rwMB <-- qosCeilingFromParams params CeilingMBytesPerSec ;;
  rMB <-- qosCeilingFromParams params CeilingReadMBytesPerSec ;;
  wMB <-- qosCeilingFromParams params CeilingWriteMBytesPerSec ;;
  Ok (mkLimits rwIOPS rwMB rMB wMB).

Definition PropertiesFromStorageClass (sc : option StorageClass) : res string Properties :=
  match sc with
  | None => Err ("storageclass: " ++ ErrUnsupported)
  | Some sc =>
      if negb (String.eqb (Provisioner sc) DriverName) then Err ("storageclass: " ++ ErrUnsupported)
      else
        let p := Parameters sc in
        maxNS <-- IntParam p "max_namespace_per_subsys" 1 ;;
        encryption <-- BoolParam p "encryption" false ;;
        compression <-- BoolParam p "client_compression" false ;;
        deduplication <-- BoolParam p "client_deduplication" false ;;
        qos <-- qosFromParams p ;;
        Ok (mkProperties (StringParam p "pool_name" "") (StringParam p "fabric" "")
              (StringParam p "cluster_id" "") (StringParam p "max_size" "") maxNS encryption compression
              deduplication qos)
  end.

Definition StorageClassNameFromPV (pv : option PersistentVolume) : option string :=
  match pv with
  | None => None
  | Some pv =>
      if negb (String.eqb (pv_StorageClassName pv) "") then Some (pv_StorageClassName pv)
      else
        let name := default "" (pv_Annotations pv !! "volume.beta.kubernetes.io/storage-class") in
        if negb (String.eqb name "") then Some name else None
  end.

(** [ResolvePropertiesForPV]; the resolver is an interface. *)
Definition ResolvePropertiesForPV (StorageClassByName : string -> res string (option StorageClass))
    (pv : option PersistentVolume) : res string Properties :=
  if negb (IsManaged pv) then Err ("pv " ++ Quote (pvName pv) ++ ": " ++ ErrUnsupported)
  else
    match StorageClassNameFromPV pv with
    | None => Err ("pv " ++ Quote (pvName pv) ++ ": no storage class: " ++ ErrNotFound)
    | Some name =>
        let in_class {A} (e : string) : res string A :=
          Err ("pv " ++ Quote (pvName pv) ++ ": storage class " ++ Quote name ++ ": " ++ e) in
        match StorageClassByName name with
        | Err e => in_class e
        | Ok sc => match PropertiesFromStorageClass sc with Err e => in_class e | Ok p => Ok p end
        end
    end.

End Volumes.

(** ** What a derived identifier holds to *)

(** A byte-wise property of a string. *)
Definition each (p : ascii -> bool) (s : string) : Prop := Forall (fun a => p a = true) (to_bytes s).

Lemma each_append p s t : each p (s ++ t) <-> each p s /\ each p t.
Proof. unfold each. by rewrite to_bytes_app, Forall_app. Qed.

Lemma each_weaken (p q : ascii -> bool) s : (forall a, p a = true -> q a = true) -> each p s -> each q s.
Proof. intros Hpq Hs. eapply Forall_impl; [exact Hs|]. auto. Qed.

Lemma each_concat p sep l : each p sep -> Forall (each p) l -> each p (String.concat sep l).
Proof.
  intros Hs Hl. induction Hl as [|s l Hp Hl IH]; [constructor|].
  destruct l as [|t l]; [done|]. change (each p (s ++ sep ++ String.concat sep (t :: l))).
  by rewrite !each_append.
Qed.

Lemma drop_while_suffix {A} (p : A -> bool) l : exists k, l = (k ++ drop_while p l)%list.
Proof.
  induction l as [|x l [k Hk]]; simpl; [by exists []|].
  destruct (p x); [exists (x :: k); simpl; congruence|by exists []].
Qed.

Lemma drop_while_head {A} (p : A -> bool) l x l' : drop_while p l = x :: l' -> p x = false.
Proof.
  induction l as [|y l IH]; simpl; [done|]. destruct (p y) eqn:E; [done|]. by intros [= <- <-].
Qed.

(** What trimming leaves is a part of the string, and it ends where it should. *)
Lemma TrimRightSet_prefix cut s : exists k, to_bytes s = (to_bytes (TrimRightSet cut s) ++ k)%list.
Proof.
  unfold TrimRightSet. rewrite to_of_bytes. destruct (drop_while_suffix cut (rev (to_bytes s))) as [k Hk].
  exists (rev k). rewrite <- rev_app_distr, <- Hk. by rewrite rev_involutive.
Qed.

Lemma TrimRightSet_length cut s : (String.length (TrimRightSet cut s) <= String.length s)%nat.
Proof.
  destruct (TrimRightSet_prefix cut s) as [k Hk].
  rewrite <- !length_to_bytes, Hk, length_app. lia.
Qed.

Lemma TrimRightSet_each cut p s : each p s -> each p (TrimRightSet cut s).
Proof.
  destruct (TrimRightSet_prefix cut s) as [k Hk]. unfold each. rewrite Hk at 1. rewrite Forall_app. tauto.
Qed.

Lemma TrimRightSet_last cut s a : last (to_bytes (TrimRightSet cut s)) = Some a -> cut a = false.
Proof.
  unfold TrimRightSet. rewrite to_of_bytes.
  destruct (drop_while cut (rev (to_bytes s))) as [|b l] eqn:E; [done|]. simpl.
  rewrite last_snoc. intros [= <-]. by eapply drop_while_head.
Qed.

(** A string whose first byte is kept keeps it. *)
Lemma TrimRightSet_head cut s a l :
  to_bytes s = a :: l -> cut a = false -> exists l', to_bytes (TrimRightSet cut s) = a :: l'.
Proof.
  intros Hs Ha. unfold TrimRightSet. rewrite to_of_bytes, Hs. simpl.
  assert (Hd : forall k : list ascii, exists k', drop_while cut (k ++ [a])%list = (k' ++ [a])%list).
  { induction k as [|x k [k' IH]]; simpl; [rewrite Ha; by exists []|].
    destruct (cut x); [by exists k'|]. by exists (x :: k). }
  destruct (Hd (rev l)) as [k' ->]. rewrite rev_app_distr. by exists (rev k').
Qed.

Lemma TrimSet_ends cut s a :
  head (to_bytes (TrimSet cut s)) = Some a \/ last (to_bytes (TrimSet cut s)) = Some a -> cut a = false.
Proof.
  unfold TrimSet. rewrite to_of_bytes.
  destruct (drop_while cut (to_bytes (TrimRightSet cut s))) as [|b l] eqn:E; [by intros [?|?]|].
  intros [[= <-]|Hl]; [by eapply drop_while_head|].
  apply (TrimRightSet_last cut s). destruct (drop_while_suffix cut (to_bytes (TrimRightSet cut s))) as [k Hk].
  rewrite Hk, E, last_app. rewrite Hl. done.
Qed.

Lemma TrimSet_each cut p s : each p s -> each p (TrimSet cut s).
Proof.
  intros Hs. apply (TrimRightSet_each cut) in Hs. unfold TrimSet, each in *. rewrite to_of_bytes.
  destruct (drop_while_suffix cut (to_bytes (TrimRightSet cut s))) as [k Hk]. rewrite Hk in Hs.
  by apply Forall_app in Hs as [_ Hs].
Qed.

Lemma slice_length n s : (String.length (slice n s) <= n)%nat.
Proof. unfold slice. rewrite length_of_bytes. apply firstn_le_length. Qed.

Lemma slice_each p n s : each p s -> each p (slice n s).
Proof. unfold each, slice. rewrite to_of_bytes. intros H. by apply Forall_take. Qed.

Lemma replace_runs_safe safe within l :
  safe "-"%char = true -> Forall (fun a => safe a = true) (replace_runs safe within l).
Proof.
  intros Hd. revert within. induction l as [|a l IH]; intros within; simpl; [constructor|].
  destruct (safe a) eqn:E; [by constructor|]. destruct within; [done|]. by constructor.
Qed.

Lemma safe_dash k : safe k "-"%char = true.
Proof. by destruct k. Qed.

Section Laws.

Context `{T : !Text} `{L : !Library} `{LL : !LibraryLaws}.

Lemma sanitize_safe k s : each (safe k) (sanitize k s).
Proof. apply TrimSet_each. unfold each, ReplaceAllString. rewrite to_of_bytes. apply replace_runs_safe, safe_dash. Qed.

Lemma sanitize_ends k s a :
  head (to_bytes (sanitize k s)) = Some a \/ last (to_bytes (sanitize k s)) = Some a ->
  separator k a = false.
Proof. apply TrimSet_ends. Qed.

Lemma digest_length parts : String.length (digestOf parts) = digestLength.
Proof.
  unfold digestOf, slice. rewrite length_of_bytes, firstn_length_le; [done|].
  rewrite length_to_bytes, sha256_length. unfold digestLength. lia.
Qed.

Lemma digest_hex parts : each hex_digit (digestOf parts).
Proof.
  apply slice_each. unfold each. apply Forall_forall. intros a Ha.
  pose proof (sha256_digits (Join parts "000")) as H. rewrite forallb_forall in H.
  apply H. by apply list_elem_of_In. Qed.

Lemma hex_digit_safe k a : hex_digit a = true -> safe k a = true /\ separator k a = false.
Proof.
  intros H. destruct k; simpl;
    destruct a as [[] [] [] [] [] [] [] []]; vm_compute in H |- *; try discriminate; by split.
Qed.

(** A name fits its limit, and is the natural one wherever that fits. *)
Lemma Derive_bounded f parts :
  (Z.of_nat (String.length (Prefix f) + String.length (Suffix f) + digestLength + 1) <= bound f)%Z ->
  (Z.of_nat (String.length (Value (Derive f parts))) <= bound f)%Z.
Proof.
  intros Hb. unfold Derive. destruct (Z.leb_spec (Z.of_nat (String.length (natural f parts))) (bound f)); [done|].
  cbn [Value]. rewrite !string_length_app, digest_length.
  pose proof (TrimRightSet_length cuts (slice (room f) (stem f parts))).
  pose proof (slice_length (room f) (stem f parts)). unfold room, digestLength in *.
  change (String.length "-") with 1%nat. lia.
Qed.

End Laws.
Section Legal.

Context `{T : !Text} `{L : !Library} `{LL : !LibraryLaws}.

(** What the API server takes as a label, a label key's name, or a DNS label: not empty,
    within its limit, of the bytes the kind allows, no separator at either end.  Each segment
    of an object name between two dots is such a label of its own. *)
Definition starts (k : Kind) (v : string) : Prop :=
  exists a, head (to_bytes v) = Some a /\ separator k a = false.
Definition ends (k : Kind) (v : string) : Prop :=
  exists a, last (to_bytes v) = Some a /\ separator k a = false.
Definition loose (l : list ascii) : Prop :=
  Forall (fun a => safe DNSLabel a = true) l /\ (forall a, last l = Some a -> is_dash a = false).
Definition segment (l : list ascii) : Prop :=
  loose l /\ exists a, head l = Some a /\ is_dash a = false.
Definition legal (k : Kind) (v : string) : Prop :=
  each (safe k) v /\ (String.length v <= limit k)%nat /\ starts k v /\ ends k v /\
  (k = ObjectName -> Forall segment (split_on "."%char (to_bytes v))).

(** No dot stands next to a separator of an object name. *)
Definition close (a b : ascii) : bool :=
  is_dot a && separator ObjectName b || separator ObjectName a && is_dot b.
Fixpoint tidy (l : list ascii) : bool :=
  match l with
  | a :: (b :: _) as r => negb (close a b) && tidy r
  | _ => true
  end.

(** A formula whose own text is legal, and leaves room for a byte of a stem and the
    digest. *)
Definition sound (f : Formula) : Prop :=
  each (safe (f_Kind f)) (Prefix f) /\ each (safe (f_Kind f)) (Suffix f) /\
  each (safe (f_Kind f)) (Separator f) /\
  (Prefix f = "" \/ starts (f_Kind f) (Prefix f)) /\ (Suffix f = "" \/ ends (f_Kind f) (Suffix f)) /\
  (Z.of_nat (String.length (Prefix f) + String.length (Suffix f) + 10) <= bound f <=
   Z.of_nat (limit (f_Kind f)))%Z /\
  Forall (fun s => tidy (to_bytes s) = true) [Prefix f; Suffix f; Separator f].

(** Every part leaves something of it. *)
Definition spelled (f : Formula) (parts : list string) : Prop :=
  parts <> [] /\ Forall (fun p => sanitize (f_Kind f) p <> "") parts.

(** No part leaves a dot next to another separator. *)
Definition dotted (f : Formula) (parts : list string) : Prop :=
  Forall (fun p => tidy (to_bytes (sanitize (f_Kind f) p)) = true) parts.

Lemma undotted a : safe ObjectName a = true -> is_dot a = false -> safe DNSLabel a = true.
Proof. cbn [safe]. intros Ha Hd. by rewrite Hd, orb_false_r in Ha. Qed.

Lemma unseparated a : separator ObjectName a = false -> is_dot a = false /\ is_dash a = false.
Proof. cbn [separator]. apply orb_false_iff. Qed.

Lemma tidy_loose l : Forall (fun a => safe ObjectName a = true) l ->
  (exists a, last l = Some a /\ separator ObjectName a = false) ->
  match split_on "."%char l with
  | p :: ps => tidy l = true <-> loose p /\ Forall segment ps
  | [] => False
  end.
Proof.
  induction l as [|a l IH]; intros Hs (z & Hz & Hn); [done|].
  apply Forall_cons in Hs as [Ha Hs]. destruct l as [|b l].
  - injection Hz as ->. apply unseparated in Hn as [Hd Hn]. cbn [split_on]. unfold is_dot in Hd. rewrite Hd.
    split; [|done]. intros _. split; [|constructor]. split; [constructor; [by apply undotted|constructor]|].
    by intros x [= <-].
  - assert (exists z, last (b :: l) = Some z /\ separator ObjectName z = false) as Hl by by exists z.
    specialize (IH Hs Hl).
    assert (tidy (a :: b :: l) = true <-> close a b = false /\ tidy (b :: l) = true) as Ht
      by (by rewrite <- negb_true_iff, <- andb_true_iff).
    unfold close in Ht.
    change (split_on "."%char (a :: b :: l)) with
      (if Ascii.eqb a "."%char then [] :: split_on "."%char (b :: l)
       else match split_on "."%char (b :: l) with [] => [[a]] | p :: ps => (a :: p) :: ps end).
    destruct (split_on "."%char (b :: l)) as [|p ps] eqn:Eb; [done|]. fold (is_dot a). rewrite IH in Ht.
    assert (if is_dot b then p = [] else exists p', p = b :: p') as Hp.
    { cbn [split_on] in Eb. fold (is_dot b) in Eb. destruct (is_dot b); [by injection Eb as <- _|].
      destruct (split_on _ l) as [|q qs]; injection Eb as <- _; by eexists. }
    destruct (is_dot a) eqn:Ea.
    + rewrite Ht, Forall_cons. cbn [separator]. rewrite Ea. simpl. split.
      * intros (Hd & Hloose & Hps). split; [by split|]. split; [|done]. split; [done|].
        apply orb_false_iff in Hd as [[Hd1 Hd2]%orb_false_iff _]. rewrite Hd1 in Hp. destruct Hp as [p' ->].
        by exists b.
      * intros (_ & (Hloose & x & Hx & Hx') & Hps). split; [|done].
        destruct (is_dot b); [by subst|]. destruct Hp as [p' ->]. injection Hx as ->. by rewrite Hx'.
    + rewrite Ht. cbn [separator]. rewrite Ea. simpl. unfold loose. rewrite Forall_cons. split.
      * intros (Hd & (Hf & Hlast) & Hps). split; [|done]. split; [split; [by apply undotted|done]|].
        intros x Hx. destruct (is_dot b); [|by destruct Hp as [p' ->]; apply Hlast].
        subst p. injection Hx as <-. by rewrite andb_true_r in Hd.
      * intros (((_ & Hf) & Hlast) & Hps). split.
        -- destruct (is_dot b); [|by rewrite andb_false_r]. subst p. by rewrite (Hlast a).
        -- split; [|done]. split; [done|]. intros x Hx. apply Hlast. by destruct p.
Qed.

(** The rule of the API server, and the one that is kept. *)
Lemma tidy_segments v : each (safe ObjectName) v -> starts ObjectName v -> ends ObjectName v ->
  tidy (to_bytes v) = true <-> Forall segment (split_on "."%char (to_bytes v)).
Proof.
  intros Hs (a & Ha & Hn) He. pose proof (tidy_loose _ Hs He) as H.
  destruct (to_bytes v) as [|b l]; [done|]. simplify_eq/=. apply orb_false_iff in Hn as [Hd Hn].
  unfold is_dot in Hd. rewrite Hd in *.
  destruct (split_on "."%char l) as [|p ps]; rewrite H; rewrite Forall_cons; unfold segment at 2; split;
    (intros [H1 H2]; split; [|done]); [..|by destruct H1]; try by destruct H1.
  all: split; [done|]; by exists a.
Qed.

Lemma tidy_app l r : (l = [] \/ r = [] \/ (exists a, last l = Some a /\ separator ObjectName a = false) \/
    (exists b, head r = Some b /\ separator ObjectName b = false)) ->
  tidy (l ++ r) = tidy l && tidy r.
Proof.
  intros H. induction l as [|a l IH]; [done|]. destruct l as [|b l].
  - destruct r as [|c r]; [done|]. change (negb (close a c) && tidy (c :: r) = true && tidy (c :: r)).
    assert (close a c = false) as ->; [|done]. unfold close.
    destruct H as [[=]|[[=]|[(x & [= <-] & Hx)|(x & [= <-] & Hx)]]]; cbn [separator] in *.
    + rewrite Hx. by apply orb_false_iff in Hx as [-> _].
    + rewrite Hx, andb_false_r. apply orb_false_iff in Hx as [-> _]. by rewrite andb_false_r.
  - change (negb (close a b) && tidy ((b :: l) ++ r) = negb (close a b) && tidy (b :: l) && tidy r).
    rewrite IH; [by rewrite andb_assoc|]. destruct H as [[=]|[->|[Hx|Hx]]]; [by right; left|..]; right; right; [by left|by right].
Qed.

Lemma tidy_prefix l r : tidy (l ++ r) = true -> tidy l = true.
Proof.
  induction l as [|a l IH]; [done|]. destruct l as [|b l]; [done|].
  change (negb (close a b) && tidy ((b :: l) ++ r) = true -> negb (close a b) && tidy (b :: l) = true).
  rewrite !andb_true_iff. naive_solver.
Qed.

Lemma starts_append k s t : starts k s -> starts k (s ++ t).
Proof.
  intros (a & Ha & Hs). exists a. split; [|done]. rewrite to_bytes_app.
  destruct (to_bytes s); [done|]. by simplify_eq/=.
Qed.

Lemma ends_append k s t : ends k t -> ends k (s ++ t).
Proof. intros (a & Ha & Hs). exists a. split; [|done]. by rewrite to_bytes_app, last_app, Ha. Qed.

Lemma to_bytes_nil s : to_bytes s = [] -> s = "".
Proof. by destruct s. Qed.

Lemma sanitize_starts k p : sanitize k p <> "" -> starts k (sanitize k p).
Proof.
  intros Hp. destruct (head (to_bytes (sanitize k p))) as [a|] eqn:E.
  - exists a. split; [done|]. eapply sanitize_ends. by left.
  - destruct (to_bytes (sanitize k p)) eqn:E'; [by apply to_bytes_nil in E'|done].
Qed.

Lemma sanitize_ends' k p : sanitize k p <> "" -> ends k (sanitize k p).
Proof.
  intros Hp. destruct (last (to_bytes (sanitize k p))) as [a|] eqn:E.
  - exists a. split; [done|]. eapply sanitize_ends. by right.
  - apply last_None in E. by apply to_bytes_nil in E.
Qed.

Lemma concat_starts k sep s l : starts k s -> starts k (String.concat sep (s :: l)).
Proof.
  intros Hs. destruct l as [|t l]; [done|].
  change (starts k (s ++ sep ++ String.concat sep (t :: l))). by apply starts_append.
Qed.

Lemma concat_ends k sep l : l <> [] -> Forall (ends k) l -> ends k (String.concat sep l).
Proof.
  intros Hn Hl. induction Hl as [|s l Hs Hl IH]; [done|]. destruct l as [|t l]; [done|].
  change (ends k (s ++ sep ++ String.concat sep (t :: l))).
  apply ends_append, ends_append, IH. done.
Qed.

Lemma stem_legal f parts : sound f -> spelled f parts ->
  each (safe (f_Kind f)) (stem f parts) /\ starts (f_Kind f) (stem f parts) /\
  ends (f_Kind f) (stem f parts).
Proof.
  intros (_ & _ & Hsep & _) [Hne Hp]. unfold stem. repeat apply conj.
  - apply each_concat.
    + destruct (String.eqb_spec (Separator f) ""); [|done]. repeat constructor. apply safe_dash.
    + apply Forall_map, Forall_true. intros p. apply sanitize_safe.
  - destruct Hp as [|p parts Hp _]; [done|]. apply concat_starts, sanitize_starts, Hp.
  - apply concat_ends; [by destruct parts|]. apply Forall_map. eapply Forall_impl; [exact Hp|].
    intros p. apply sanitize_ends'.
Qed.

Lemma safe_cuts k a : safe k a = true -> separator k a = false -> cuts a = false.
Proof.
  destruct k; destruct a as [[] [] [] [] [] [] [] []]; vm_compute; try done; discriminate.
Qed.

(** What is left of a stem that is cut. *)
Lemma cut_legal f s : (0 < room f)%nat -> each (safe (f_Kind f)) s -> starts (f_Kind f) s ->
  starts (f_Kind f) (TrimRightSet cuts (slice (room f) s)) /\
  each (safe (f_Kind f)) (TrimRightSet cuts (slice (room f) s)).
Proof.
  intros Hr Hs (a & Ha & Hn). split; [|by apply TrimRightSet_each, slice_each].
  destruct (to_bytes s) as [|b l] eqn:E; [done|]. simplify_eq/=.
  destruct (TrimRightSet_head cuts (slice (room f) s) a (List.firstn (pred (room f)) l)) as [l' Hl'].
  - unfold slice. rewrite to_of_bytes, E. by destruct (room f); [lia|].
  - unfold each in Hs. rewrite E in Hs. inversion Hs; subst. by eapply safe_cuts.
  - exists a. by rewrite Hl'.
Qed.

Lemma digest_ends k parts : ends k (digestOf parts) /\ each (safe k) (digestOf parts).
Proof.
  pose proof (digest_hex parts) as Hh. split.
  - destruct (last (to_bytes (digestOf parts))) as [a|] eqn:E.
    + exists a. split; [done|]. apply last_Some in E as [l E].
      unfold each in Hh. rewrite E, Forall_app in Hh. destruct Hh as [_ Hh]. inversion Hh; subst.
      by apply (hex_digit_safe k).
    + apply last_None, to_bytes_nil in E. pose proof (digest_length parts) as Hl. by rewrite E in Hl.
  - eapply each_weaken; [|exact Hh]. intros a Ha. by apply hex_digit_safe.
Qed.

Lemma prefix_starts k p s : p = "" \/ starts k p -> starts k s -> starts k (p ++ s).
Proof. intros [->|Hp] Hs; [done|]. by apply starts_append. Qed.

Lemma suffix_ends k s x : x = "" \/ ends k x -> ends k s -> ends k (s ++ x).
Proof.
  intros [->|Hx] Hs; [|by apply ends_append].
  destruct Hs as (a & Ha & Hn). exists a. split; [|done]. rewrite to_bytes_app, app_nil_r. done.
Qed.

(** The text of a value that ends with its digest. *)
Lemma digested_legal f s parts : sound f -> each (safe (f_Kind f)) s -> starts (f_Kind f) s ->
  each (safe (f_Kind f)) (Prefix f ++ s ++ "-" ++ digestOf parts ++ Suffix f) /\
  starts (f_Kind f) (Prefix f ++ s ++ "-" ++ digestOf parts ++ Suffix f) /\
  ends (f_Kind f) (Prefix f ++ s ++ "-" ++ digestOf parts ++ Suffix f).
Proof.
  intros (Hp & Hx & _ & Hps & Hxe & _ & _) Hs Hst. pose proof (digest_ends (f_Kind f) parts) as [He Hd].
  split; [|split].
  - rewrite !each_append. repeat split; try done. repeat constructor. apply safe_dash.
  - apply prefix_starts; [done|]. by apply starts_append.
  - apply ends_append, ends_append, ends_append. by apply suffix_ends.
Qed.

Lemma natural_legal f parts : sound f -> spelled f parts ->
  each (safe (f_Kind f)) (natural f parts) /\ starts (f_Kind f) (natural f parts) /\
  ends (f_Kind f) (natural f parts).
Proof.
  intros Hf Hp. destruct (stem_legal f parts Hf Hp) as (Hs & Hst & He). unfold natural.
  destruct (AlwaysDigest f); [by apply digested_legal|].
  destruct Hf as (Hpre & Hx & _ & Hps & Hxe & _). split; [|split].
  - by rewrite !each_append.
  - apply prefix_starts; [done|]. by apply starts_append.
  - apply ends_append. by apply suffix_ends.
Qed.

Lemma tidy_plain l : Forall (fun a => separator ObjectName a = false) l -> tidy l = true.
Proof.
  induction 1 as [|a l Ha Hl IH]; [done|]. destruct l as [|b l]; [done|].
  change (negb (close a b) && tidy (b :: l) = true). rewrite IH. unfold close. rewrite Ha.
  apply unseparated in Ha as [-> _]. done.
Qed.

Lemma tidy_infix l m r : tidy (l ++ m ++ r) = true -> tidy m = true.
Proof.
  intros H. apply tidy_prefix with r. induction l as [|a l IH]; [done|]. apply IH. simpl app in H.
  destruct (l ++ m ++ r)%list as [|b k]; [done|]. by apply andb_true_iff in H as [_ H].
Qed.

Lemma tidy_append s t : (s = "" \/ t = "" \/ ends ObjectName s \/ starts ObjectName t) ->
  tidy (to_bytes s) = true -> tidy (to_bytes t) = true -> tidy (to_bytes (s ++ t)) = true.
Proof.
  intros H Hs Ht. rewrite to_bytes_app, tidy_app; [by rewrite Hs, Ht|].
  destruct H as [->|[->|H]]; [by left|by right; left|by right; right].
Qed.

Lemma concat_tidy sep l : tidy (to_bytes sep) = true ->
  Forall (fun s => tidy (to_bytes s) = true) l -> Forall (starts ObjectName) l -> Forall (ends ObjectName) l ->
  tidy (to_bytes (String.concat sep l)) = true.
Proof.
  intros Hsep. induction l as [|s l IH]; intros Ht Hs He; [done|].
  apply Forall_cons in Ht as [Ht1 Ht], Hs as [Hs1 Hs], He as [He1 He].
  destruct l as [|t l]; [done|].
  change (tidy (to_bytes (s ++ sep ++ String.concat sep (t :: l))) = true).
  apply tidy_append; [by right; right; left|done|]. apply tidy_append; [|done|by apply IH].
  right. right. right. apply concat_starts. by apply Forall_cons in Hs as [].
Qed.

Lemma concat_infix sep l s : s ∈ l -> exists x y, String.concat sep l = x ++ s ++ y.
Proof.
  induction l as [|t l IH]; [by intros ?%not_elem_of_nil|]. intros [->|Hin]%elem_of_cons.
  - destruct l as [|u l]; [exists "", ""|exists "", (sep ++ String.concat sep (u :: l))]; [|done].
    change (t = t ++ ""). apply to_bytes_inj. by rewrite to_bytes_app, app_nil_r.
  - destruct (IH Hin) as (x & y & E). destruct l as [|u l]; [by apply not_elem_of_nil in Hin|].
    exists (t ++ sep ++ x), y.
    change (t ++ sep ++ String.concat sep (u :: l) = (t ++ sep ++ x) ++ s ++ y).
    by rewrite E, !string_append_assoc.
Qed.

(** The name around a stem. *)
Lemma framed_tidy f s : sound f -> tidy (to_bytes s) = true -> starts ObjectName s -> ends ObjectName s ->
  tidy (to_bytes (Prefix f ++ s ++ Suffix f)) = true.
Proof.
  intros (_ & _ & _ & _ & _ & _ & Ht) Hs Hst He.
  apply Forall_cons in Ht as [Hp Ht]. apply Forall_cons in Ht as [Hx _].
  apply tidy_append; [|done|apply tidy_append; [|done..]].
  - right. right. right. by apply starts_append.
  - right. right. by left.
Qed.

Lemma digested_tidy f s parts : sound f -> tidy (to_bytes s) = true -> starts ObjectName s -> ends ObjectName s ->
  tidy (to_bytes (Prefix f ++ s ++ "-" ++ digestOf parts ++ Suffix f)) = true.
Proof.
  intros Hf Hs Hst He. pose proof (digest_ends ObjectName parts) as [Hd _].
  assert (Prefix f ++ s ++ "-" ++ digestOf parts ++ Suffix f =
          Prefix f ++ (s ++ "-" ++ digestOf parts) ++ Suffix f) as ->
    by by rewrite !string_append_assoc.
  assert (Forall (fun a => separator ObjectName a = false) (to_bytes (digestOf parts))) as Hplain.
  { eapply Forall_impl; [apply digest_hex|]. intros a Ha. by apply hex_digit_safe. }
  apply framed_tidy; [done| |by apply starts_append|by apply ends_append, ends_append].
  apply tidy_append; [by right; right; left|done|]. apply tidy_append; [|done|by apply tidy_plain].
  right. right. right. destruct (to_bytes (digestOf parts)) as [|a l] eqn:E.
  - apply to_bytes_nil in E. pose proof (digest_length parts) as Hl. by rewrite E in Hl.
  - exists a. rewrite E. split; [done|]. by inversion Hplain.
Qed.

Lemma stem_tidy f parts : f_Kind f = ObjectName -> sound f -> spelled f parts -> dotted f parts ->
  tidy (to_bytes (stem f parts)) = true.
Proof.
  intros Hk (_ & _ & _ & _ & _ & _ & Ht) [_ Hp] Hd. unfold stem, dotted in *. rewrite Hk in *.
  apply Forall_cons in Ht as [_ Ht]. apply Forall_cons in Ht as [_ Ht]. apply Forall_cons in Ht as [Ht _].
  apply concat_tidy; [by destruct (String.eqb_spec (Separator f) "")|apply Forall_map..]; [exact Hd| |];
    (eapply Forall_impl; [exact Hp|]); intros p; [apply sanitize_starts|apply sanitize_ends'].
Qed.

Lemma cut_tidy f parts : f_Kind f = ObjectName -> sound f -> spelled f parts -> dotted f parts ->
  starts ObjectName (TrimRightSet cuts (slice (room f) (stem f parts))) ->
  tidy (to_bytes (TrimRightSet cuts (slice (room f) (stem f parts)))) = true /\
  ends ObjectName (TrimRightSet cuts (slice (room f) (stem f parts))).
Proof.
  intros Hk Hf Hp Hd (a & Ha & _). split.
  - destruct (TrimRightSet_prefix cuts (slice (room f) (stem f parts))) as [k Hk1].
    apply tidy_prefix with k. rewrite <- Hk1. unfold slice. rewrite to_of_bytes.
    apply tidy_prefix with (skipn (room f) (to_bytes (stem f parts))). rewrite firstn_skipn.
    by apply stem_tidy.
  - destruct (last (to_bytes (TrimRightSet cuts (slice (room f) (stem f parts))))) as [z|] eqn:E.
    + exists z. split; [done|]. apply TrimRightSet_last in E. unfold cuts in E.
      apply orb_false_iff in E as [[E1 _]%orb_false_iff E2]. cbn [separator]. by rewrite E1, E2.
    + apply last_None in E. by rewrite E in Ha.
Qed.

Lemma value_tidy f parts : f_Kind f = ObjectName -> sound f -> spelled f parts -> dotted f parts ->
  tidy (to_bytes (Value (Derive f parts))) = true.
Proof.
  intros Hk Hf Hp Hd. pose proof (stem_tidy f parts Hk Hf Hp Hd) as Hs.
  destruct (stem_legal f parts Hf Hp) as (H1 & H2 & H3). rewrite Hk in *. unfold Derive, natural.
  destruct (_ <=? bound f)%Z; cbn [Value].
  - destruct (AlwaysDigest f); [by apply digested_tidy|by apply framed_tidy].
  - pose proof Hf as (_ & _ & _ & _ & _ & [Hb1 Hb2] & _).
    destruct (cut_legal f (stem f parts)) as [H4 _]; rewrite ?Hk; [unfold room, digestLength; lia|done|done|].
    rewrite Hk in H4. destruct (cut_tidy f parts Hk Hf Hp Hd H4) as [H5 H6]. by apply digested_tidy.
Qed.

Lemma natural_dotted f parts : tidy (to_bytes (natural f parts)) = true -> dotted f parts.
Proof.
  intros H. assert (tidy (to_bytes (stem f parts)) = true) as Hs.
  { unfold natural in H. by destruct (AlwaysDigest f); rewrite !to_bytes_app in H; apply tidy_infix in H. }
  apply Forall_forall. intros p Hp. unfold stem in Hs.
  destruct (concat_infix (if String.eqb (Separator f) "" then "-" else Separator f)
    (map (sanitize (f_Kind f)) parts) (sanitize (f_Kind f) p)) as (x & y & E).
  { apply list_elem_of_In, in_map, list_elem_of_In, Hp. }
  rewrite E, !to_bytes_app in Hs. by apply tidy_infix in Hs.
Qed.

(** C34. A derived identifier against the API server's rules, for a formula whose own text is
    legal and leaves room for a digest, and parts of which something is left each.  It keeps its
    limit, and is the natural name wherever that one fits.  A label value, a label key's name
    and a DNS label are always taken.  An object name is taken where no part leaves a dot next
    to another separator; and one that was not cut is taken only there, so that [Derive] does
    not make a legal name of every part. *)
Theorem derived_is_legal f parts : sound f -> spelled f parts ->
  ((f_Kind f = ObjectName -> dotted f parts) -> legal (f_Kind f) (Value (Derive f parts))) /\
  (f_Kind f = ObjectName -> Fits (Derive f parts) = true ->
     legal (f_Kind f) (Value (Derive f parts)) -> dotted f parts) /\
  (Z.of_nat (String.length (Value (Derive f parts))) <= bound f)%Z /\
  Natural (Derive f parts) = natural f parts /\
  (Fits (Derive f parts) = true <-> (Z.of_nat (String.length (natural f parts)) <= bound f)%Z) /\
  (Fits (Derive f parts) = true -> Value (Derive f parts) = Natural (Derive f parts)).
Proof.
  intros Hf Hp. pose proof Hf as (_ & _ & _ & _ & _ & [Hb1 Hb2] & _).
  assert (Z.of_nat (String.length (Value (Derive f parts))) <= bound f)%Z as Hlen.
  { apply Derive_bounded. unfold digestLength. lia. }
  assert (each (safe (f_Kind f)) (Value (Derive f parts)) /\ starts (f_Kind f) (Value (Derive f parts)) /\
          ends (f_Kind f) (Value (Derive f parts))) as (He & Hs & Hn).
  { unfold Derive. destruct (_ <=? bound f)%Z; [by apply natural_legal|].
    destruct (stem_legal f parts Hf Hp) as (H1 & H2 & _).
    destruct (cut_legal f (stem f parts)) as [H3 H4]; [unfold room, digestLength; lia|done|done|].
    by apply digested_legal. }
  split; [|split; [|split; [done|]]].
  - intros Hd. repeat split; try done; [lia|]. intros Hk. rewrite Hk in He, Hs, Hn.
    apply tidy_segments; [done..|]. by apply value_tidy; auto.
  - intros Hk Hfit (_ & _ & _ & _ & Hseg). apply natural_dotted. rewrite Hk in He, Hs, Hn.
    specialize (Hseg Hk). apply tidy_segments in Hseg; [|done..]. unfold Derive, Fits in *.
    by destruct (_ <=? bound f)%Z.
  - unfold Derive, Fits. destruct (Z.leb_spec (Z.of_nat (String.length (natural f parts))) (bound f)); simpl;
      (split; [done|]); (split; [|done]); split; try done; lia.
Qed.

Lemma app_tail_inj (a b c d x : string) :
  String.length c = String.length d -> a ++ c ++ x = b ++ d ++ x -> c = d.
Proof.
  intros Hl He. apply (f_equal to_bytes) in He. rewrite !to_bytes_app in He.
  rewrite !app_assoc in He. apply app_inv_tail, app_inj_2 in He as [_ He].
  - by apply to_bytes_inj.
  - by rewrite !length_to_bytes.
Qed.

(** With [AlwaysDigest] two inputs come to one value only where their digests agree; and so
    do any two that were cut. *)
Theorem digest_separates f p q :
  AlwaysDigest f = true \/ (Fits (Derive f p) = false /\ Fits (Derive f q) = false) ->
  Value (Derive f p) = Value (Derive f q) -> digestOf p = digestOf q.
Proof.
  intros Hd.
  assert (forall r, AlwaysDigest f = true \/ Fits (Derive f r) = false ->
    exists s, Value (Derive f r) = s ++ digestOf r ++ Suffix f) as Hform.
  { intros r. unfold Derive, Fits. destruct (_ <=? bound f)%Z; simpl; intros Hr.
    - destruct Hr as [Hr|]; [|done]. unfold natural. rewrite Hr.
      exists (Prefix f ++ stem f r ++ "-"). by rewrite !string_append_assoc.
    - exists (Prefix f ++ TrimRightSet cuts (slice (room f) (stem f r)) ++ "-"). by rewrite !string_append_assoc. }
  destruct (Hform p) as [s Hs]; [naive_solver|]. destruct (Hform q) as [t Ht]; [naive_solver|].
  rewrite Hs, Ht. apply app_tail_inj. by rewrite !digest_length.
Qed.

End Legal.
(** ** Keys in every spelling *)

Lemma Delete_lookup k values s : Delete k values !! s = if decide (s ∈ k) then None else values !! s.
Proof.
  unfold Delete. revert values. induction k as [|t k IH]; intros values; simpl; [done|].
  rewrite IH. destruct (decide (s = t)) as [->|Hne].
  - rewrite lookup_delete_eq. repeat case_decide; first [done|set_solver].
  - rewrite lookup_delete_ne by done. repeat case_decide; first [done|set_solver].
Qed.

Lemma Get_None k values : Get k values = None <-> forall s, s ∈ k -> values !! s = None.
Proof.
  induction k as [|t k IH]; simpl.
  - split; [|done]. intros _ s Hs. by apply not_elem_of_nil in Hs.
  - destruct (values !! t) as [v|] eqn:E.
    + split; [done|]. intros H. rewrite (H t) in E; [done|by left].
    + rewrite IH. split; intros H s; [intros [->|Hs]%elem_of_cons; auto|intros Hs; apply H; by right].
Qed.

(** Writing a key leaves one spelling of it, the current one, and everything else as it
    was; removing it leaves none. *)
Theorem one_spelling_is_written k values v s :
  key_String k <> "" ->
  Get k (Set_ k values v) = Some v /\ Has k (Delete k values) = false /\
  (s ∈ k -> s <> key_String k -> Set_ k values v !! s = None) /\
  (s ∉ k -> Set_ k values v !! s = values !! s /\ Delete k values !! s = values !! s).
Proof.
  intros Hk. destruct k as [|t k]; [done|]. unfold Set_. simpl in Hk.
  destruct (String.eqb_spec (key_String (t :: k)) ""); [done|]. cbn [key_String] in *. repeat apply conj.
  - simpl. by rewrite lookup_insert_eq.
  - unfold Has. destruct (Get _ _) eqn:E; [|done].
    assert (Get (t :: k) (Delete (t :: k) values) = None) as H; [|congruence].
    apply Get_None. intros x Hx. rewrite Delete_lookup. by rewrite decide_True.
  - intros Hs Hne. rewrite lookup_insert_ne by done. rewrite Delete_lookup. by rewrite decide_True.
  - intros Hs. rewrite lookup_insert_ne by (intros ->; apply Hs; left). rewrite !Delete_lookup.
    by rewrite decide_False.
Qed.

(** A pin is acted on once: recorded as applied, it is the pin still and no longer
    pending. *)
Theorem applied_pin_is_settled annotations target :
  PendingPin annotations = Some target ->
  let written := Set_ KeySelectedStorageNodeApplied annotations target in
  PinnedNode written = target /\ PendingPin written = None /\
  PinRejected written target = PinRejected annotations target.
Proof.
  intros Hp written.
  assert (forall key, KeySelectedStorageNodeApplied ## key -> get key written = get key annotations) as Hget.
  { intros key Hd. unfold get. f_equal. induction key as [|s key IH]; [done|]. simpl.
    assert (written !! s = annotations !! s) as ->.
    { unfold written. apply (one_spelling_is_written _ _ target s); [done|].
      intros Hs. apply (Hd s Hs). by left. }
    destruct (annotations !! s); [done|]. apply IH. intros x H1 H2. apply (Hd x H1). by right. }
  assert (PinnedNode written = PinnedNode annotations) as Hpin.
  { unfold PinnedNode. rewrite !Hget; [done|..]; intros x; cbv; set_solver. }
  unfold PendingPin in *. destruct (_ || _) eqn:E in Hp; [done|]. injection Hp as <-.
  split; [done|]. split.
  - rewrite Hpin. unfold get, written.
    assert (key_String KeySelectedStorageNodeApplied <> "") as Hk by done.
    rewrite (proj1 (one_spelling_is_written _ annotations (PinnedNode annotations) "" Hk)). simpl. rewrite String.eqb_refl. by rewrite orb_true_r.
  - unfold PinRejected. rewrite Hget; [done|]. intros x; cbv; set_solver.
Qed.
(** ** Ceilings and hostnames *)

Section Spelled.

Context `{T : !Text} (num_error : string -> string -> string).

Lemma FirstSet_keys m keys :
  FirstSet m keys = match set_keys m keys with [] => "" | k :: _ => default "" (set_value m k) end.
Proof.
  induction keys as [|k keys IH]; [done|]. simpl. unfold set_keys in *. simpl.
  by destruct (set_value m k) eqn:E; simpl; rewrite ?E.
Qed.

Lemma set_value_nonempty m k v : set_value m k = Some v -> v <> "".
Proof.
  unfold set_value. destruct (m !! k) as [w|]; [|done]. destruct (String.eqb_spec w ""); [done|].
  by intros [= <-].
Qed.

(** A ceiling is read from its newest spelling that is set, whichever reader asks; a value
    that is no number is reported under the key it stands at, and two spellings of one
    ceiling are reported. *)
Theorem ceilings_are_read_alike params c :
  qosCeilingFromParams num_error params c =
    (if String.eqb (QoSParam params c) "" then Ok 0%Z
     else match Atoi (QoSParam params c) with
          | Some n => Ok n
          | None => parameter_error (default "" (head (set_keys params (QoSParamKeys c))))
                      (num_error "Atoi" (QoSParam params c))
          end) /\
  (set_keys params (QoSParamKeys c) ∈ QoSParamConflicts params <->
   (2 <= length (set_keys params (QoSParamKeys c)))%nat).
Proof.
  split.
  - unfold qosCeilingFromParams, QoSParam. rewrite FirstSet_keys.
    destruct (set_keys params (QoSParamKeys c)) as [|k keys] eqn:E; [done|]. unfold IntParam. simpl.
    assert (k ∈ set_keys params (QoSParamKeys c)) as Hk by (rewrite E; left).
    unfold set_keys in Hk. apply list_elem_of_In, List.filter_In in Hk as [_ Hk].
    destruct (set_value params k) as [v|] eqn:Ev; [|done]. simpl.
    apply set_value_nonempty in Ev. by destruct (String.eqb_spec v "").
  - unfold QoSParamConflicts. rewrite filter_elem, Nat.ltb_lt, map_elem. split; [tauto|].
    intros Hl. split; [|lia]. exists c. split; [done|]. destruct c; cbv; set_solver.
Qed.

End Spelled.

Section Hostnames.

Context `{T : !Text} `{L : !Library} `{LL : !LibraryLaws}.

(** A worker's hostname in a cluster's Services is one label of sixty-three bytes at most,
    and of two workers whose labels were cut only those with equal digests share one. *)
Theorem hostname_fits n worker other :
  (String.length (NodeLabelSuffix n) <= 54)%nat ->
  (String.length (Hostname n worker) <= maxHostnameLength)%nat /\
  ((maxHostnameLength < String.length (Cut worker ".").1.1 + String.length (NodeLabelSuffix n))%nat ->
   (maxHostnameLength < String.length (Cut other ".").1.1 + String.length (NodeLabelSuffix n))%nat ->
   Hostname n worker = Hostname n other -> digestOf [(Cut worker ".").1.1] = digestOf [(Cut other ".").1.1]).
Proof.
  intros Hn. unfold Hostname. split.
  - destruct (Nat.leb_spec (String.length (Cut worker ".").1.1 + String.length (NodeLabelSuffix n))
                maxHostnameLength) as [Hl|Hl]; [by rewrite string_length_app|].
    rewrite !string_length_app, digest_length.
    match goal with |- context [TrimRightSet is_dash ?s] => pose proof (TrimRightSet_length is_dash s) end.
    match goal with H : context [slice ?k ?s] |- _ => pose proof (slice_length k s) end.
    unfold maxHostnameLength, MaxLabelValueLength, digestLength in *.
    change (String.length "-") with 1%nat. lia.
  - intros Hw Ho. rewrite !(proj2 (Nat.leb_gt _ _)) by done. intros He.
    rewrite <- !string_append_assoc in He. rewrite !(string_append_assoc _ _ (NodeLabelSuffix n)) in He.
    apply app_tail_inj in He; [done|]. by rewrite !digest_length.
Qed.

End Hostnames.

(** *** Where the comments promise more *)

Module Names.

Definition hex (z : Z) : ascii := ascii_of_N (Z.to_N (if (z <? 10)%Z then 48 + z else 87 + z)).

(** A digest that can be computed: the bytes in hexadecimal, padded to its length. *)
#[export] Instance padded : Library := {|
  sha256_hex := fun s =>
    of_bytes (List.firstn 64 (flat_map (fun c => [hex (code c / 16); hex (code c mod 16)]) (to_bytes s) ++
                              repeat "0"%char 64));
  IsDNS1123Label := fun s => if String.eqb s "" then ["empty"] else [];
  IsDNS1123Subdomain := fun s => if String.eqb s "" then ["empty"] else [];
  IsQualifiedName := fun s => if String.eqb s "" then ["empty"] else [];
  IsValidLabelValue := fun _ => [];
|}.

Lemma hex_byte (a : ascii) : hex_digit (hex (code a / 16)) = true /\ hex_digit (hex (code a mod 16)) = true.
Proof. destruct a as [[] [] [] [] [] [] [] []]; by vm_compute. Qed.

#[export] Instance padded_laws : LibraryLaws.
Proof.
  split; intros s; unfold sha256_hex, padded.
  - rewrite length_of_bytes, firstn_length_le; [done|]. rewrite length_app, repeat_length. lia.
  - rewrite to_of_bytes. apply forallb_forall. intros a Ha.
    assert (forall l : list ascii, In a (List.firstn 64 l) -> In a l) as Htake.
    { intros l. rewrite <- (firstn_skipn 64 l) at 2. rewrite in_app_iff. tauto. }
    apply Htake, in_app_or in Ha as [Ha|Ha].
    + apply in_flat_map in Ha as (b & _ & [<-|[<-|[]]]); apply hex_byte.
    + apply repeat_spec in Ha. by subst.
Qed.

(** A Text of ASCII. *)
#[export] Instance ascii_only : Text := {|
  unicode_ToLower := fun s => s;
  unicode_ToUpper := fun s => s;
  unicode_EqualFold := String.eqb;
  Quote := fun s => String "034" (s ++ String "034" "");
|}.

Definition object : Formula := mkFormula "" "" "" ObjectName 0 false.

(** Two inputs, each within the limit, and one name: the digest is not in it. *)
Example dashes_join : Value (Derive object ["a-b"; "c"]) = Value (Derive object ["a"; "b-c"]).
Proof. vm_compute. reflexivity. Qed.

(** A part of nothing a name can carry leaves an empty name, which is refused. *)
Example nothing_left : Value (Derive object ["___"]) = "" /\ Errors (Derive object ["___"]) <> [].
Proof. split; [vm_compute; reflexivity|vm_compute; discriminate]. Qed.

(** A dot of a part may come to stand next to the dash its neighbour is replaced by, and then
    the name is not one the API server takes, although nothing was cut. *)
Lemma a_dot_is_left_next_to_a_dash :
  Value (Derive object ["a._b"]) = "a.-b" /\ Fits (Derive object ["a._b"]) = true /\
  ~ legal ObjectName (Value (Derive object ["a._b"])).
Proof.
  split; [vm_compute; reflexivity|]. split; [vm_compute; reflexivity|].
  intros (_ & _ & _ & _ & H). specialize (H eq_refl). vm_compute in H.
  apply Forall_cons in H as [_ [[_ (a & [= <-] & [=])] _]%Forall_cons].
Qed.

(** Two workers of one name up to the first dot share a hostname. *)
Example one_label_one_hostname n : Hostname n "node1.rack1" = Hostname n "node1.rack2".
Proof. reflexivity. Qed.

End Names.
#[local] Existing Instance Names.padded.
#[local] Existing Instance Names.padded_laws.
#[local] Existing Instance Names.ascii_only.

Lemma derived_is_legal_witness :
  let f := mkFormula "drain-" "" "" ObjectName 40 false in
  let parts := ["IP-10-0-1-23.EU_Central-1.compute.internal"] in
  Value (Derive f parts) = "drain-ip-10-0-1-23.eu-central-1-49502d31" /\
  legal ObjectName (Value (Derive f parts)).
Proof.
  intros f parts. split; [vm_compute; reflexivity|]. refine (proj1 (derived_is_legal f parts _ _) _).
  - repeat apply conj; try (vm_compute; repeat constructor; fail).
    + right. exists "d"%char. split; reflexivity.
    + vm_compute. discriminate.
    + vm_compute. discriminate.
  - split; [discriminate|]. constructor; [vm_compute; discriminate|constructor].
  - intros _. constructor; [vm_compute; reflexivity|constructor].
Defined.

Lemma one_spelling_is_written_witness :
  Get KeyHostID (Set_ KeyHostID {["simplybk/host-id" := "a"]} "b") = Some "b" /\
  Set_ KeyHostID {["simplybk/host-id" := "a"]} "b" !! "simplybk/host-id" = None.
Proof.
  refine ((fun H => conj (proj1 H) (proj1 (proj2 (proj2 H)) _ _))
    (one_spelling_is_written KeyHostID {["simplybk/host-id" := "a"]} "b" "simplybk/host-id" _));
    [right; right; left|discriminate|discriminate].
Defined.

Lemma applied_pin_is_settled_witness :
  PendingPin (Set_ KeySelectedStorageNodeApplied {["simplyblock.io/host-id" := "n1"]} "n1") = None.
Proof. refine (proj1 (proj2 (applied_pin_is_settled {["simplyblock.io/host-id" := "n1"]} "n1" _))). reflexivity. Defined.

Lemma digest_separates_witness :
  let f := mkFormula "" "" "" ObjectName 0 true in
  Value (Derive f ["a-b"; "c"]) <> Value (Derive f ["a"; "b-c"]).
Proof.
  intros f He. apply (digest_separates f) in He; [|left; reflexivity]. vm_compute in He. discriminate He.
Defined.

Lemma hostname_fits_witness :
  (String.length (Hostname (MemberWorkloadNames "prod" "prod-fast-xyz")
     "ip-10-0-1-23-with-a-name-of-more-than-sixty-bytes-in-its-first-segment.eu") <= 63)%nat.
Proof. refine (proj1 (hostname_fits (MemberWorkloadNames "prod" "prod-fast-xyz") _ "" _)). vm_compute. lia. Defined.

End Kube.
