(* ===== verification/Discovery.v ===== *)
(** Which devices and workers a discovery run takes: the rules of
    [operator/internal/discovery] ([rules.go], [iscsi.go], [simplyblock.go], the
    rule pipeline and the sizes of [plan.go], [placement.go]), over the reports of
    [operator/internal/nodeprobe].

    [DeviceRule] and [WorkerRule] are the interfaces of the pipeline, and
    [Placement] the one that chooses among a worker's devices. *)

From Stdlib Require Import Ascii String.
From S2P Require Import Prelude.
From S2P Require Import GoStrings.
From S2P Require Import Handles.

#[local] Open Scope string_scope.

Module Discovery.

(** ** Reports ([nodeprobe/report.go]), as far as discovery reads them *)

Record Rejection := mkRejection { rj_Reason : string; rj_Detail : string }.

Record Device := mkDevice {
  d_Name : string;
  d_Path : string;
  d_StablePath : string;
  d_PCIAddress : string;
  d_SizeBytes : Z;
  d_Kind : string;
  d_Transport : string;
  d_Model : string;
  d_NUMANode : Z;
  d_SubsystemNQN : string;
  d_Available : bool;
  d_Content : string;
  d_Rejections : list Rejection;
}.

(** [InUse] is absent for a controller that could not be checked. *)
Record Controller := mkController {
  c_Address : string;
  c_Driver : string;
  c_NUMANode : Z;
  c_InUse : option bool;
}.

Record NUMACPUs := mkCPUs { n_Node : Z; n_OnlineCPUs : list Z; n_PhysicalCores : Z }.
Record NUMAHugePages := mkShare { s_Node : Z; s_Free : Z }.
Record HugePagePool := mkPool { hp_SizeBytes : Z; hp_NUMANodes : list NUMAHugePages }.

Record Interface := mkInterface {
  i_Name : string;
  i_SpeedMbps : Z;
  i_MTU : Z;
  i_State : string;
  i_Driver : string;
  i_PCIAddress : string;
  i_NUMANode : Z;
  i_Virtual : bool;
  i_Peered : bool;
  i_Loopback : bool;
  i_Bridge : bool;
  i_Kind : string;
  i_Lower : list string;
  i_Addresses : list string;
}.

Record NetworkAttachment := mkAttachment {
  na_Name : string;
  na_Type : string;
  na_HostInterface : string;
  na_PCIAddress : string;
}.
Record NetworkAttachments := mkAttachments {
  nas_State : string;
  nas_Detail : string;
  nas_Namespace : string;
  nas_Definitions : list NetworkAttachment;
}.

Record Kernel := mkKernel {
  k_Release : string;
  k_MultipathState : string;
  k_MultipathDetail : string;
}.
Record HostOS := mkHostOS { os_Distro : string; os_Family : string; os_Kernel : Kernel }.

Record Report := mkReport {
  r_Node : string;
  r_NUMANodes : list NUMACPUs;
  r_HugePages : list HugePagePool;
  r_Interfaces : list Interface;
  r_Devices : list Device;
  r_HostOS : HostOS;
  r_NVMeControllers : list Controller;
  r_NetworkAttachments : option NetworkAttachments;
  r_Unreadable : list string;
}.

Definition with_Devices (r : Report) (devices : list Device) : Report :=
  mkReport (r_Node r) (r_NUMANodes r) (r_HugePages r) (r_Interfaces r) devices (r_HostOS r)
    (r_NVMeControllers r) (r_NetworkAttachments r) (r_Unreadable r).

Definition NUMANodeUnknown : Z := (-1)%Z.

Definition DriverUIOGeneric : string := "uio_pci_generic".
Definition DriverVFIO : string := "vfio-pci".

Definition Held (c : Controller) : bool :=
  match c_InUse c with Some used => used | None => false end.
Definition Free (c : Controller) : bool :=
  match c_InUse c with Some used => negb used | None => false end.
Definition HasDriver (c : Controller) : bool := negb (String.eqb (c_Driver c) "").
Definition BoundToUserspace (c : Controller) : bool :=
  String.eqb (c_Driver c) DriverUIOGeneric || String.eqb (c_Driver c) DriverVFIO.
Definition ControllersBoundToUserspace (r : Report) : list Controller :=
  List.filter BoundToUserspace (r_NVMeControllers r).

(** [OnlyRejectedFor] of one reason. *)
Definition OnlyRejectedFor (d : Device) (reason : string) : bool :=
  if d_Available d || bool_decide (d_Rejections d = []) then false
  else forallb (fun r => String.eqb (rj_Reason r) reason) (d_Rejections d).

(** [Report.NetworkAttachment]. *)
Definition find_attachment (r : Report) (name : string) : option NetworkAttachment :=
  match r_NetworkAttachments r with
  | None => None
  | Some nas => find_first (fun d => String.eqb (na_Name d) name) (nas_Definitions nas)
  end.

(** The spellings of [atlas-lib/blockdev]. *)
Definition KindDisk : string := "Disk".
Definition KindPartition : string := "Partition".
Definition TransportNVMe : string := "NVMe".
Definition TransportNVMeFabric : string := "NVMeFabric".
Definition TransportISCSI : string := "iSCSI".
Definition ReasonPartitioned : string := "Partitioned".
Definition ReasonNotAWholeDisk : string := "NotAWholeDisk".
Definition ContentBlank : string := "Blank".
Definition ContentReleased : string := "Released".

(** ** The run ([v1alpha2.DiscoverSpec]) *)

Record DeviceFilter := mkFilter {
  PcieAllowList : list string;
  PcieDenyList : list string;
  PcieModel : string;
  BlockAllowList : list string;
  BlockDenyList : list string;
  DriveSizeRange : string;
}.

(** [NetworkAttachmentSelection]. *)
Record Attachment := mkSelection { at_Management : string; at_Data : string }.

#[global] Instance Attachment_eq_dec : EqDecision Attachment.
Proof. solve_decision. Defined.

Record DiscoverSpec := mkSpec {
  EnableLogicalBlockDevices : option bool;
  EnablePartitionedDevices : option bool;
  spec_DeviceFilter : option DeviceFilter;
  spec_NetworkAttachment : option Attachment;
  FailureDomainLabel : string;
}.

(** ** Device classes ([rules.go]) *)

Definition DeviceClass : Type := string.
Definition ClassNVMe : DeviceClass := "nvme".
Definition ClassBlock : DeviceClass := "block".

Definition is_true (b : option bool) : bool := match b with Some true => true | _ => false end.

Definition ClassOf (run : option DiscoverSpec) : DeviceClass :=
  match run with
  | Some run => if is_true (EnableLogicalBlockDevices run) then ClassBlock else ClassNVMe
  | None => ClassNVMe
  end.

(** [DeviceClass.Address]: how the draft names a device. *)
Definition Address (c : DeviceClass) (d : Device) : string :=
  if String.eqb c ClassBlock then
    if negb (String.eqb (d_StablePath d) "") then d_StablePath d else d_Path d
  else d_PCIAddress d.

(** ** Refusals *)

Record Refusal := mkRefusal {
  ref_Worker : string;
  ref_Device : string;
  ref_Rule : string;
  ref_Reason : string;
  ref_PreFilter : bool;
}.

#[global] Instance Refusal_eq_dec : EqDecision Refusal.
Proof. solve_decision. Defined.

Definition Refusal_String (r : Refusal) : string :=
  if String.eqb (ref_Device r) "" then
    ref_Worker r ++ ": declined by " ++ ref_Rule r ++ " because " ++ ref_Reason r
  else
    ref_Worker r ++ "/" ++ ref_Device r ++ ": declined by " ++ ref_Rule r ++ " because " ++
      ref_Reason r.

(** A rule admits with the flag, and says why it does not; [PreFilter] is false for a
    rule that does not say. *)
Record DeviceRule := mkDeviceRule {
  rule_Name : string;
  rule_Admit : Report -> Device -> bool * string;
  rule_PreFilter : bool;
}.

Record WorkerRule := mkWorkerRule {
  worker_rule_Name : string;
  worker_rule_Admit : Report -> list Device -> bool * string;
}.

(** ** Sizes *)

Definition wrapU64 (z : Z) : Z := (z mod 2 ^ 64)%Z.

(** The two decimals of [%02d], less the zeros they end with. *)
Definition two_decimals (hundredths : Z) : string :=
  TrimRight ((if (hundredths <? 10)%Z then "0" else "") ++ Itoa hundredths) "0".

Definition unit_text (bytes size : Z) (suffix : string) : string :=
  if Z.eqb (bytes mod size)%Z 0 then Itoa (bytes / size) ++ suffix
  else
    let decimals := two_decimals ((bytes mod size * 100) / size) in
    if String.eqb decimals "" then Itoa (bytes / size) ++ suffix
    else Itoa (bytes / size) ++ "." ++ decimals ++ suffix.

Definition humanBytes (bytes : Z) : string :=
  if (2 ^ 40 <=? bytes)%Z then unit_text bytes (2 ^ 40) "T"
  else if (2 ^ 30 <=? bytes)%Z then unit_text bytes (2 ^ 30) "G"
  else if (2 ^ 20 <=? bytes)%Z then unit_text bytes (2 ^ 20) "M"
  else Itoa bytes ++ "B".

Section Sizes.

Context `{!Text}.

(** The suffixes [ParseSize] knows. *)
Definition size_units : list (string * Z) :=
  [("T", 2 ^ 40); ("TI", 2 ^ 40); ("TB", 2 ^ 40); ("TIB", 2 ^ 40);
   ("G", 2 ^ 30); ("GI", 2 ^ 30); ("GB", 2 ^ 30); ("GIB", 2 ^ 30);
   ("M", 2 ^ 20); ("MI", 2 ^ 20); ("MB", 2 ^ 20); ("MIB", 2 ^ 20)]%Z.

(** One turn of the loop over them: the longest suffix so far stays. *)
Definition size_unit (text : string) (acc : string * Z) (entry : string * Z) : string * Z :=
  let '(digits, unit) := acc in
  match CutSuffix (ToUpper text) entry.1 with
  | Some rest =>
      if negb (String.eqb rest "") && Nat.ltb (String.length rest) (String.length digits)
      then (rest, entry.2)
      else acc
  | None => acc
  end.

Fixpoint take_while {A} (p : A -> bool) (l : list A) : list A :=
  match l with
  | [] => []
  | x :: l => if p x then x :: take_while p l else []
  end.

(** [fmt.Sscanf] with [%d] into a [uint64]. *)
Definition scan_uint (s : string) : option Z :=
  match take_while digit (to_bytes s) with
  | [] => None
  | run =>
      match atoi_unsigned (of_bytes run) with
      | Some v => if (v <? 2 ^ 64)%Z then Some v else None
      | None => None
      end
  end.

(** The map is iterated in an order of its own: [units] is any order of
    [size_units]. *)
Definition ParseSize_in (units : list (string * Z)) (text : string) : res string Z :=
  let text := TrimSpace text in
  if String.eqb text "" then Err "a size needs a value"
  else
    let '(digits, unit) := foldl (size_unit text) (text, (2 ^ 30)%Z) units in
    match scan_uint digits with
    | None => Err (Quote text ++ " is not a size")
    | Some value =>
        if negb (String.eqb (Itoa value) (TrimSpace digits)) then Err (Quote text ++ " is not a size")
        else Ok (wrapU64 (value * unit))
    end.

Definition ParseSize : string -> res string Z := ParseSize_in size_units.

Definition ParseSizeRange (spec : string) : res string (Z * Z) :=
  let spec := TrimSpace spec in
  if String.eqb spec "" then Err "a size range needs a value"
  else
    match Cut spec "-" with
    | (low, _, false) => size <-- ParseSize low ;; Ok (size, size)
    | (low, high, true) =>
        min <-- (if String.eqb (TrimSpace low) "" then Ok 0%Z else ParseSize low) ;;
        max <-- (if String.eqb (TrimSpace high) "" then Ok 0%Z else ParseSize high) ;;
        if (0 <? max)%Z && (max <? min)%Z
        then Err ("the size range " ++ Quote spec ++ " counts backward")
        else Ok (min, max)
    end.

End Sizes.

(** ** The device rules *)

Section Rules.

Context `{!Text}.

Definition takes : bool * string := (true, "").
Definition refuse (why : string) : bool * string := (false, why).

(** [Names]: an entry of a filter list refers to the device. *)
Definition Names (c : DeviceClass) (d : Device) (entry : string) : bool :=
  if negb (String.eqb c ClassBlock) then EqualFold (d_PCIAddress d) entry
  else (negb (String.eqb (d_Path d) "") && EqualFold (d_Path d) entry) ||
       (negb (String.eqb (d_StablePath d) "") && EqualFold (d_StablePath d) entry).

Definition emptyPartition (d : Device) : bool :=
  String.eqb (d_Kind d) KindPartition && OnlyRejectedFor d ReasonNotAWholeDisk &&
  (String.eqb (d_Content d) ContentBlank || String.eqb (d_Content d) ContentReleased).

Definition AvailableRule (AllowPartitioned AllowPartitions : bool) : DeviceRule :=
  mkDeviceRule "available" (fun _ d =>
    if d_Available d then takes
    else if AllowPartitioned && OnlyRejectedFor d ReasonPartitioned then takes
    else if AllowPartitions && emptyPartition d then takes
    else
      match d_Rejections d with
      | [] => refuse "the probe did not report it as available and gave no reason"
      | rejections => refuse ("the probe refused it: " ++ String.concat ", " (map rj_Reason rejections))
      end) false.

Definition transportOrNone (transport : string) : string :=
  if String.eqb transport "" then "no bus this scan could name" else transport.
Definition addressKind (class : DeviceClass) : string :=
  if String.eqb class ClassBlock then "device path" else "PCI address".

Definition ClassRule (class : DeviceClass) : DeviceRule :=
  mkDeviceRule "device class" (fun _ d =>
    if String.eqb class ClassNVMe && negb (String.eqb (d_Transport d) TransportNVMe) then
      refuse ("this run scans NVMe devices and the device is on " ++ transportOrNone (d_Transport d))
    else if String.eqb class ClassBlock && String.eqb (d_Transport d) TransportNVMeFabric then
      refuse ("this run scans logical block devices and the device is on " ++
        transportOrNone (d_Transport d) ++
        ", which is a volume something else exported rather than a disk this machine has")
    else if String.eqb (Address class d) "" then
      refuse ("it has no " ++ addressKind class ++ " to name it by")
    else takes) true.

Definition WholeDiskRule (class : DeviceClass) : DeviceRule :=
  mkDeviceRule "whole disk" (fun _ d =>
    if String.eqb (d_Kind d) KindDisk then takes
    else if String.eqb class ClassBlock && String.eqb (d_Kind d) KindPartition then takes
    else refuse ("it is a " ++ d_Kind d ++ " rather than a whole disk")) true.

Definition AllowDenyRule (class : DeviceClass) (Allow Deny : list string) : DeviceRule :=
  mkDeviceRule "allow and deny lists" (fun _ d =>
    if existsb (Names class d) Deny then refuse "it is in the deny list"
    else if bool_decide (Allow = []) then takes
    else if existsb (Names class d) Allow then takes
    else refuse "it is not in the allow list") false.

Definition ModelRule (Model : string) : DeviceRule :=
  mkDeviceRule "model" (fun _ d =>
    if String.eqb Model "" then takes
    else if Contains (ToLower (d_Model d)) (ToLower Model) then takes
    else refuse ("its model " ++ Quote (d_Model d) ++ " does not contain " ++ Quote Model)) false.

Definition describeRange (Spec : string) (bound : Z) : string :=
  if negb (String.eqb Spec "") then Spec else humanBytes bound.

Definition SizeRule (Min Max : Z) (Spec : string) : DeviceRule :=
  mkDeviceRule "size range" (fun _ d =>
    if (d_SizeBytes d <? Min)%Z then
      refuse ("it is " ++ humanBytes (d_SizeBytes d) ++ " and the range " ++ describeRange Spec Min ++
        " starts above it")
    else if (0 <? Max)%Z && (Max <? d_SizeBytes d)%Z then
      refuse ("it is " ++ humanBytes (d_SizeBytes d) ++ " and the range " ++ describeRange Spec Max ++
        " ends below it")
    else takes) false.

Definition describeAllowList (allow : list string) : string :=
  match allow with [] => "nothing" | _ => String.concat ", " allow end.

Definition ISCSIRule (class : DeviceClass) (Allow : list string) : DeviceRule :=
  mkDeviceRule "iSCSI" (fun _ d =>
    if negb (String.eqb (d_Transport d) TransportISCSI) then takes
    else if existsb (Names class d) Allow then takes
    else refuse ("it is an iSCSI LUN, which is storage on the other side of a network, so a run " ++
      "takes one only where the allow list names it and this one names " ++
      describeAllowList Allow)) false.

Definition SimplyblockVolumeRule : DeviceRule :=
  mkDeviceRule "simplyblock volume" (fun _ d =>
    if String.eqb (d_SubsystemNQN d) "" then takes
    else
      match nqn_Parse (d_SubsystemNQN d) with
      | (subsystem, true) =>
          refuse ("it is a simplyblock logical volume of cluster " ++ s_ClusterID subsystem ++
            ", which this fleet already serves")
      | (_, false) => takes
      end) false.

(** ** The worker rules *)

Definition describeControllers (controllers : list Controller) : string :=
  String.concat ", " (map (fun c => c_Address c ++ " on " ++ c_Driver c) controllers).

Definition Count {A} (l : list A) : string := Itoa (Z.of_nat (length l)).

Definition WorkerHasDevices : WorkerRule :=
  mkWorkerRule "has devices" (fun report admitted =>
    match admitted with
    | _ :: _ => takes
    | [] =>
        match ControllersBoundToUserspace report with
        | [] => refuse "no device of it survived the device rules"
        | bound =>
            let busy := List.filter Held bound in
            let unchecked := List.filter (fun c => negb (Held c) && negb (Free c)) bound in
            match busy, unchecked with
            | [], _ :: _ =>
                refuse ("it presents no usable block device, and whether anything is driving " ++
                  Count unchecked ++ " of its NVMe controllers (" ++ describeControllers unchecked ++
                  ") could not be established, so they are not offered")
            | _ :: _, _ =>
                refuse ("it presents no usable block device, and " ++ Count busy ++
                  " of its NVMe controllers (" ++ describeControllers busy ++
                  ") are bound to a userspace driver and in use, so something is driving its disks")
            | [], [] =>
                refuse ("it presents no usable block device, and " ++ Count bound ++
                  " of its NVMe controllers (" ++ describeControllers bound ++
                  ") are bound to a userspace driver and nothing is using them, so the disks are " ++
                  "there to be reclaimed")
            end
        end
    end).

Definition WorkerWasReadable : WorkerRule :=
  mkWorkerRule "fully readable" (fun report _ =>
    match r_Unreadable report with
    | [] => takes
    | unreadable =>
        refuse ("the probe could not read " ++ Count unreadable ++ " of its readings: " ++
          String.concat "; " unreadable)
    end).

(** ** The pipeline of a run ([plan.go]) *)

Definition allowListFor (class : DeviceClass) (filter : DeviceFilter) : list string :=
  if String.eqb class ClassBlock then BlockAllowList filter else PcieAllowList filter.

Definition nonempty {A} (l : list A) : bool := match l with [] => false | _ => true end.

(** The rules a filter adds, past the one for iSCSI. *)
Definition filter_rules (class : DeviceClass) (filter : DeviceFilter) : list DeviceRule :=
  ((if String.eqb class ClassNVMe then
      (if nonempty (PcieAllowList filter) || nonempty (PcieDenyList filter)
       then [AllowDenyRule class (PcieAllowList filter) (PcieDenyList filter)] else []) ++
      (if negb (String.eqb (PcieModel filter) "") then [ModelRule (PcieModel filter)] else [])
    else if nonempty (BlockAllowList filter) || nonempty (BlockDenyList filter)
    then [AllowDenyRule class (BlockAllowList filter) (BlockDenyList filter)] else []) ++
   (if negb (String.eqb (DriveSizeRange filter) "") then
      match ParseSizeRange (DriveSizeRange filter) with
      | Ok (min, max) => [SizeRule min max (DriveSizeRange filter)]
      | Err _ => []
      end
    else []))%list.

Definition BasicDeviceRules (run : option DiscoverSpec) : list DeviceRule :=
  let class := ClassOf run in
  let allowPartitioned := match run with Some run => is_true (EnablePartitionedDevices run) | None => false end in
  let rules := [WholeDiskRule class; SimplyblockVolumeRule; ClassRule class;
                AvailableRule allowPartitioned (String.eqb class ClassBlock)] in
  match run with
  | Some (mkSpec _ _ (Some filter) _ _) =>
      (rules ++ [ISCSIRule class (allowListFor class filter)] ++ filter_rules class filter)%list
  | _ => (rules ++ [ISCSIRule class []])%list
  end.

Definition claimable (c : Controller) : bool :=
  if negb (HasDriver c) then true else BoundToUserspace c && Free c.

(** The device a controller without one is offered as. *)
Definition controller_device (c : Controller) : Device :=
  mkDevice (c_Address c) "" "" (c_Address c) 0 KindDisk TransportNVMe "" (c_NUMANode c) "" true "" [].

Definition claimableControllers (report : Report) (class : DeviceClass) : list Device :=
  if negb (String.eqb class ClassNVMe) then []
  else
    let presented := List.filter (fun a => negb (String.eqb a "")) (map d_PCIAddress (r_Devices report)) in
    map controller_device
      (List.filter (fun c => claimable c && negb (contains presented (c_Address c)))
         (r_NVMeControllers report)).

(** The first rule that declines a device. *)
Fixpoint first_refusal (report : Report) (d : Device) (rules : list DeviceRule)
    : option (string * string * bool) :=
  match rules with
  | [] => None
  | r :: rules =>
      match rule_Admit r report d with
      | (true, _) => first_refusal report d rules
      | (false, why) => Some (rule_Name r, why, rule_PreFilter r)
      end
  end.

(** [admitDevices]. *)
Fixpoint admit_each (report : Report) (rules : list DeviceRule) (devices : list Device)
    : list Device * list Refusal :=
  match devices with
  | [] => ([], [])
  | d :: devices =>
      let '(admitted, refusals) := admit_each report rules devices in
      match first_refusal report d rules with
      | None => (d :: admitted, refusals)
      | Some (rule, reason, pre) =>
          (admitted, mkRefusal (r_Node report) (d_Name d) rule reason pre :: refusals)
      end
  end.
Definition admitDevices (report : Report) (rules : list DeviceRule) : list Device * list Refusal :=
  admit_each report rules (r_Devices report).

(** [refuseWorker]: the first rule that declines it, and why; no name where none does. *)
Fixpoint refuseWorker (report : Report) (admitted : list Device) (rules : list WorkerRule)
    : string * string :=
  match rules with
  | [] => ("", "")
  | r :: rules =>
      match worker_rule_Admit r report admitted with
      | (true, _) => refuseWorker report admitted rules
      | (false, why) => (worker_rule_Name r, why)
      end
  end.

End Rules.

(** ** The choice among a worker's devices ([placement.go]) *)

Record Placement := mkPlacement {
  placement_Name : string;
  Choose : Report -> list Device -> list Device * string;
}.

(** What the plan relies on: the devices chosen are devices that were admitted. *)
Class PlacementLaws (p : Placement) : Prop := {
  chosen_admitted report admitted : (Choose p report admitted).1 `sublist_of` admitted;
}.

Record NUMANodeResources := mkResources {
  nr_Node : Z;
  nr_Devices : list Device;
  nr_DeviceBytes : Z;
  nr_OnlineCPUs : Z;
  nr_PhysicalCores : Z;
  nr_FreeHugePageBytes : Z;
  nr_FastestNICMbps : Z;
}.

(** Sums of [uint64]. *)
Definition sumU64 (l : list Z) : Z := foldl (fun acc v => wrapU64 (acc + v)) 0%Z l.

(** The last entry of the node, if any. *)
Definition last_cpus (report : Report) (node : Z) : option NUMACPUs :=
  last (List.filter (fun c => Z.eqb (n_Node c) node) (r_NUMANodes report)).

Definition free_huge_pages (report : Report) (node : Z) : Z :=
  sumU64 (flat_map (fun pool =>
    map (fun share => wrapU64 (s_Free share * hp_SizeBytes pool))
      (List.filter (fun share => Z.eqb (s_Node share) node) (hp_NUMANodes pool)))
    (r_HugePages report)).

Definition fastest_nic (report : Report) (node : Z) : Z :=
  foldl (fun acc i => if Z.eqb (i_NUMANode i) node && (acc <? i_SpeedMbps i)%Z
                      then i_SpeedMbps i else acc) 0%Z (r_Interfaces report).

Definition NUMANodeBreakdown (report : Report) (admitted : list Device) : list NUMANodeResources :=
  map (fun '(id, devices) =>
    mkResources id devices (sumU64 (map d_SizeBytes devices))
      (match last_cpus report id with Some c => Z.of_nat (length (n_OnlineCPUs c)) | None => 0 end)
      (match last_cpus report id with Some c => n_PhysicalCores c | None => 0 end)
      (free_huge_pages report id) (fastest_nic report id))
    (sort_by (fun g => ([g.1], "")) (group_by d_NUMANode admitted)).

Definition rank (node : Z) : Z := if Z.eqb node NUMANodeUnknown then 1%Z else 0%Z.

Definition describeNode (id : Z) : string :=
  if Z.eqb id NUMANodeUnknown then "no memory node in particular" else "NUMA node " ++ Itoa id.

(** The keys the nodes are compared by, the best first. *)
Definition resources_key (n : NUMANodeResources) : list Z * string :=
  ([- Z.of_nat (length (nr_Devices n)); - nr_DeviceBytes n; - nr_PhysicalCores n;
    rank (nr_Node n); nr_Node n]%Z, "").

Definition MostAvailableNUMANode : Placement :=
  mkPlacement "most available NUMA node" (fun report admitted =>
    match NUMANodeBreakdown report admitted with
    | [] => ([], "no memory node of it carries an unclaimed device")
    | [only] =>
        (nr_Devices only, "every unclaimed device is on " ++ describeNode (nr_Node only) ++
          ", so there was nothing to choose")
    | nodes =>
        match sort_by resources_key nodes with
        | best :: runnerUp :: _ =>
            (nr_Devices best, describeNode (nr_Node best) ++ " carries " ++ Count (nr_Devices best) ++
              " unclaimed devices (" ++ humanBytes (nr_DeviceBytes best) ++ ") against " ++
              Count (nr_Devices runnerUp) ++ " (" ++ humanBytes (nr_DeviceBytes runnerUp) ++ ") on " ++
              describeNode (nr_Node runnerUp) ++ ", so it was chosen")
        | _ => ([], "")
        end
    end).

Definition AllDevices : Placement :=
  mkPlacement "all devices" (fun _ admitted =>
    (admitted, "every unclaimed device was used, without regard to its memory node")).


(** ** The choice of a memory node *)

Lemma breakdown_devices report admitted n : n ∈ NUMANodeBreakdown report admitted ->
  nr_Devices n = filter (fun d => d_NUMANode d = nr_Node n) admitted /\ nr_Devices n <> [].
Proof.
  unfold NUMANodeBreakdown. intros ([id devices] & -> & Hin)%map_elem. cbn [nr_Devices nr_Node].
  apply sort_by_elem in Hin. by apply group_by_elem in Hin.
Qed.

Lemma breakdown_some report admitted d : d ∈ admitted -> exists n,
  n ∈ NUMANodeBreakdown report admitted /\ nr_Node n = d_NUMANode d.
Proof.
  intros Hd. apply (group_by_key d_NUMANode), list_elem_of_fmap in Hd as ([id devices] & E & Hin).
  unfold NUMANodeBreakdown. eexists. split; [apply map_elem; exists (id, devices); split; [done|]|].
  - by apply sort_by_elem.
  - by rewrite E.
Qed.

Lemma resources_key_le a b : by_key resources_key a b -> (length (nr_Devices b) <= length (nr_Devices a))%nat.
Proof.
  unfold by_key, key_le, resources_key. cbn [fst snd]. intros [[Hl _]|[He _]].
  - cbn [lex_le] in Hl. apply orb_true_iff in Hl as [Hl|Hl]; [lia|]. apply andb_true_iff in Hl as [Hl _]. lia.
  - injection He. lia.
Qed.

(** What is chosen is on the node with the most devices. *)
Lemma most_available report admitted :
  (admitted = [] /\ (Choose MostAvailableNUMANode report admitted).1 = []) \/
  exists best, best ∈ NUMANodeBreakdown report admitted /\
    (Choose MostAvailableNUMANode report admitted).1 = nr_Devices best /\
    forall n, n ∈ NUMANodeBreakdown report admitted -> (length (nr_Devices n) <= length (nr_Devices best))%nat.
Proof.
  simpl. destruct (NUMANodeBreakdown report admitted) as [|n [|n' ns]] eqn:E.
  - left. split; [|done]. destruct admitted as [|d ds]; [done|].
    destruct (breakdown_some report (d :: ds) d ltac:(by left)) as (n & Hn & _).
    rewrite E in Hn. by apply not_elem_of_nil in Hn.
  - right. exists n. split; [by left|]. split; [done|]. by intros m ->%list_elem_of_singleton.
  - right. assert (Hs := sort_by_sorted resources_key (n :: n' :: ns)).
    assert (Hp := sort_by_perm resources_key (n :: n' :: ns)).
    destruct (sort_by resources_key (n :: n' :: ns)) as [|best [|second rest]];
      [by apply Permutation_length in Hp..|].
    exists best. split; [rewrite <- Hp; by left|]. split; [done|]. intros m Hm. rewrite <- Hp in Hm.
    apply elem_of_cons in Hm as [->|Hm]; [done|]. apply StronglySorted_inv in Hs as [_ Hs].
    rewrite Forall_forall in Hs. by apply resources_key_le, Hs.
Qed.

#[export] Instance MostAvailableNUMANode_laws : PlacementLaws MostAvailableNUMANode.
Proof.
  split. intros report admitted.
  destruct (most_available report admitted) as [[-> ->]|(best & Hin & -> & _)]; [done|].
  destruct (breakdown_devices _ _ _ Hin) as [-> _]. apply sublist_filter.
Qed.

#[export] Instance AllDevices_laws : PlacementLaws AllDevices.
Proof. by split. Qed.

(** [MostAvailableNUMANode] takes every admitted device of one memory node and no
    other, nothing only where nothing was admitted, and no other node has more of them. *)
Theorem placement_takes_one_node report admitted :
  let chosen := (Choose MostAvailableNUMANode report admitted).1 in
  (admitted = [] -> chosen = []) /\
  (admitted <> [] -> exists d, d ∈ admitted /\ chosen = filter (fun c => d_NUMANode c = d_NUMANode d) admitted) /\
  (forall node, (length (filter (fun c => d_NUMANode c = node) admitted) <= length chosen)%nat).
Proof.
  cbn zeta. destruct (most_available report admitted) as [[-> ->]|(best & Hin & -> & Hmost)].
  { split; [done|]. split; [done|]. intros node. simpl. lia. }
  destruct (breakdown_devices _ _ _ Hin) as [Hf Hne].
  assert (Hd : exists d, d ∈ nr_Devices best) by (destruct (nr_Devices best) as [|d ds]; [done|exists d; by left]).
  destruct Hd as [d Hd]. rewrite Hf in Hd. apply list_elem_of_filter in Hd as [Ed Hd]. split_and!.
  - intros ->. by apply not_elem_of_nil in Hd.
  - intros _. exists d. by rewrite Ed.
  - intros node. destruct (filter (fun c => d_NUMANode c = node) admitted) as [|c cs] eqn:Ef; [simpl; lia|].
    assert (Hc : c ∈ filter (fun c => d_NUMANode c = node) admitted) by (rewrite Ef; by left).
    apply list_elem_of_filter in Hc as [En Hc]. destruct (breakdown_some report admitted c Hc) as (n & Hn & En').
    destruct (breakdown_devices _ _ _ Hn) as [Hf' _]. rewrite <- Ef, <- En, <- En', <- Hf'. by apply Hmost.
Qed.

(** ** Sizes *)

Section SizeLemmas.

Context `{!Text}.

Lemma CutSuffix_Some s suffix r : CutSuffix s suffix = Some r -> s = r ++ suffix.
Proof.
  unfold CutSuffix. intros (rest & E & ->)%fmap_Some. apply after_prefix_Some in E.
  apply to_bytes_inj. rewrite to_bytes_app, to_of_bytes.
  by rewrite <- (rev_involutive (to_bytes s)), E, rev_app_distr, rev_involutive.
Qed.

Lemma append_length_inj a b x y : a ++ x = b ++ y -> String.length a = String.length b -> x = y.
Proof.
  revert b. induction a as [|c a IH]; intros [|d b]; simpl; intros E Hl; simplify_eq; [done|]. by eapply IH.
Qed.

(** Two suffixes taken from one text leave different lengths. *)
Lemma size_units_commute text acc a b : a ∈ size_units -> b ∈ size_units ->
  size_unit text (size_unit text acc a) b = size_unit text (size_unit text acc b) a.
Proof.
  intros Ha Hb. destruct acc as [digits unit]. unfold size_unit.
  assert (Hsame : a.1 = b.1 -> a = b).
  { intros E. assert (Hnd : NoDup size_units.*1) by (by apply (bool_decide_unpack _); vm_compute).
    apply list_elem_of_lookup in Ha as [i Hi], Hb as [j Hj].
    assert (i = j) as ->; [|congruence]. eapply NoDup_lookup; [exact Hnd| |]; rewrite list_lookup_fmap.
    - by rewrite Hi.
    - by rewrite Hj, E. }
  destruct (CutSuffix (ToUpper text) a.1) as [ra|] eqn:Ea, (CutSuffix (ToUpper text) b.1) as [rb|] eqn:Eb;
    [|by repeat case_match..].
  assert (Ta := CutSuffix_Some _ _ _ Ea). assert (Tb := CutSuffix_Some _ _ _ Eb).
  destruct (decide (String.length ra = String.length rb)) as [El|Nl].
  { assert (a = b) as <-; [|by simplify_eq].
    apply Hsame. rewrite Ta in Tb. by eapply append_length_inj. }
  destruct (String.eqb ra ""), (String.eqb rb ""); cbn [negb andb];
    repeat match goal with |- context [Nat.ltb ?x ?y] => destruct (Nat.ltb_spec x y) end; cbn [fst snd] in *;
    try done; lia.
Qed.

(** [ParseSize] reads a size the same in whatever order the map of its suffixes is
    iterated. *)
Theorem parse_size_any_order units text (Hu : units ≡ₚ size_units) :
  ParseSize_in units text = ParseSize text.
Proof.
  unfold ParseSize, ParseSize_in. case_match; [done|].
  rewrite (foldl_perm (size_unit (TrimSpace text)) units size_units); [done| |done].
  intros a b acc. rewrite Hu. apply size_units_commute.
Qed.

Lemma atoi_unsigned_Itoa n : (0 <= n)%Z -> atoi_unsigned (Itoa n) = Some n.
Proof.
  intros Hn. assert (Hu : atoi_unsigned (DecimalString.NilZero.string_of_uint (N.to_uint (Z.to_N n))) = Some n).
  { unfold atoi_unsigned. rewrite DecimalString.NilZero.usu.
    - rewrite DecimalN.Unsigned.of_to. f_equal. lia.
    - destruct (Z.to_N n); [done|]. apply DecimalPos.Unsigned.to_uint_nonnil. }
  by destruct n; [..|lia].
Qed.

Lemma take_while_all {A} (p : A -> bool) l : Forall (fun x => p x = true) l -> take_while p l = l.
Proof. induction 1 as [|x l Hx _ IH]; [done|]. simpl. by rewrite Hx, IH. Qed.

Lemma scan_uint_Itoa n : (0 <= n < 2 ^ 64)%Z -> scan_uint (Itoa n) = Some n.
Proof.
  intros Hn. unfold scan_uint. rewrite take_while_all.
  - destruct (to_bytes (Itoa n)) eqn:E; [by destruct (Itoa_nonempty n ltac:(lia))|].
    rewrite <- E, of_to_bytes, atoi_unsigned_Itoa by lia. by rewrite (proj2 (Z.ltb_lt n (2 ^ 64))) by lia.
  - apply Forall_forall. intros b. apply Itoa_digits. lia.
Qed.

(** A number with one of the units [humanBytes] writes. *)
Definition unit_letter (c : ascii) (unit : Z) : Prop :=
  (c = "T" /\ unit = 2 ^ 40)%Z%char \/ (c = "G" /\ unit = 2 ^ 30)%Z%char \/ (c = "M" /\ unit = 2 ^ 20)%Z%char.

Lemma ParseSize_unit n c unit : (0 <= n < 2 ^ 64)%Z -> unit_letter c unit ->
  ParseSize (Itoa n ++ String c "") = Ok (wrapU64 (n * unit)).
Proof.
  intros Hn Hc. set (text := Itoa n ++ String c "").
  assert (Hb : to_bytes text = (to_bytes (Itoa n) ++ [c])%list) by (unfold text; by rewrite to_bytes_app).
  assert (Hcv : visible c) by (destruct Hc as [[-> _]|[[-> _]|[-> _]]]; done).
  assert (Hdig : forall b, b ∈ to_bytes (Itoa n) -> digit b = true) by (intros b; apply Itoa_digits; lia).
  destruct (to_bytes (Itoa n)) as [|d ds] eqn:Ed; [by destruct (Itoa_nonempty n ltac:(lia))|].
  assert (Htrim : TrimSpace text = text).
  { apply TrimSpace_visible. unfold visible_ends. rewrite Hb, last_snoc. simpl.
    split; [|done]. apply digit_visible, Hdig. by left. }
  assert (Hup : ToUpper text = text).
  { unfold ToUpper. destruct (is_ascii text) eqn:Ea.
    - apply to_bytes_inj. rewrite to_of_bytes, Hb, fmap_app. f_equal.
      + rewrite <- (list_fmap_id (d :: ds)) at 2. apply Forall_fmap_ext, Forall_forall. intros b Hin.
        specialize (Hdig b Hin). clear -Hdig. destruct b as [[] [] [] [] [] [] [] []]; revert Hdig; vm_compute; done.
      + by destruct Hc as [[-> _]|[[-> _]|[-> _]]].
    - exfalso. enough (is_ascii text = true) by congruence. unfold is_ascii. rewrite Hb. apply forallb_forall.
      intros b Hin. apply list_elem_of_In, elem_of_app in Hin as [Hin|Hin].
      + specialize (Hdig b Hin). clear -Hdig. destruct b as [[] [] [] [] [] [] [] []]; revert Hdig; vm_compute; done.
      + apply list_elem_of_singleton in Hin as ->. by destruct Hc as [[-> _]|[[-> _]|[-> _]]]. }
  assert (Hcut : forall suffix, CutSuffix text suffix =
    (fun rest => of_bytes (rev rest)) <$> after_prefix (rev (to_bytes suffix)) (c :: rev (to_bytes (Itoa n)))).
  { intros suffix. unfold CutSuffix. by rewrite Hb, Ed, rev_app_distr. }
  assert (Hlen : Nat.ltb (String.length (Itoa n)) (String.length text) = true).
  { apply Nat.ltb_lt. unfold text. rewrite string_length_app. simpl. lia. }
  assert (Hne : String.eqb (Itoa n) "" = false) by (by destruct (Itoa n)).
  assert (Hskip : forall suffix scale acc,
    after_prefix (rev (to_bytes suffix)) (c :: rev (to_bytes (Itoa n))) = None ->
    size_unit text acc (suffix, scale) = acc).
  { intros suffix scale [digits u] E. unfold size_unit. cbn [fst]. by rewrite Hup, Hcut, E. }
  assert (Hhit : forall suffix scale u,
    after_prefix (rev (to_bytes suffix)) (c :: rev (to_bytes (Itoa n))) = Some (rev (to_bytes (Itoa n))) ->
    size_unit text (text, u) (suffix, scale) = (Itoa n, scale)).
  { intros suffix scale u E. unfold size_unit. cbn [fst snd]. rewrite Hup, Hcut, E.
    cbn [fmap option_fmap option_map]. by rewrite rev_involutive, of_to_bytes, Hne, Hlen. }
  assert (Hfold : foldl (size_unit text) (text, 2 ^ 30)%Z size_units = (Itoa n, unit)).
  { unfold size_units. cbn [foldl]. destruct Hc as [[-> ->]|[[-> ->]|[-> ->]]];
      let turn s := first [rewrite (Hskip s) by reflexivity | rewrite (Hhit s) by reflexivity] in
      turn "T"; turn "TI"; turn "TB"; turn "TIB"; turn "G"; turn "GI"; turn "GB"; turn "GIB";
      turn "M"; turn "MI"; turn "MB"; turn "MIB"; reflexivity. }
  unfold ParseSize, ParseSize_in. rewrite Htrim, Hfold.
  rewrite (proj2 (String.eqb_neq text "")) by (intros E; rewrite E in Hb; by destruct ds).
  rewrite scan_uint_Itoa by done. rewrite TrimSpace_visible, String.eqb_refl; [done|].
  unfold visible_ends. destruct (Itoa_last n ltac:(lia)) as (b & -> & Hbv). rewrite Ed. simpl.
  split; [|done]. apply digit_visible, Hdig. by left.
Qed.

Definition unit_of (bytes : Z) : Z :=
  if (2 ^ 40 <=? bytes)%Z then 2 ^ 40 else if (2 ^ 30 <=? bytes)%Z then 2 ^ 30 else 2 ^ 20.

(** A round size reads as it is meant and parses back to the byte it came from. *)
Theorem round_sizes_round_trip bytes (Hb : (2 ^ 20 <= bytes < 2 ^ 64)%Z)
    (Hround : (bytes mod unit_of bytes = 0)%Z) : ParseSize (humanBytes bytes) = Ok bytes.
Proof.
  assert (Hu : forall c unit, unit_letter c unit -> (bytes mod unit = 0)%Z -> (1 <= unit)%Z ->
    ParseSize (unit_text bytes unit (String c "")) = Ok bytes).
  { intros c unit Hc Hm H1. unfold unit_text. rewrite Hm. simpl Z.eqb. cbn iota.
    assert (Hq := Z.div_mod bytes unit ltac:(lia)). assert (0 <= bytes / unit <= bytes)%Z by nia.
    rewrite (ParseSize_unit _ c unit) by (done || lia). unfold wrapU64. f_equal.
    rewrite Z.mod_small; lia. }
  unfold humanBytes, unit_of in *. destruct (2 ^ 40 <=? bytes)%Z; [|destruct (2 ^ 30 <=? bytes)%Z].
  - apply (Hu "T"%char); [by left|done|lia].
  - apply (Hu "G"%char); [by right; left|done|lia].
  - rewrite (proj2 (Z.leb_le (2 ^ 20) bytes)) by lia. apply (Hu "M"%char); [by right; right|done|lia].
Qed.

End SizeLemmas.

(** ** What the rules let through *)

Section Usable.

Context `{!Text}.

Lemma first_refusal_None report d rules : first_refusal report d rules = None ->
  forall r, r ∈ rules -> (rule_Admit r report d).1 = true.
Proof.
  induction rules as [|r rules IH]; [by intros _ ? ?%not_elem_of_nil|]. simpl.
  destruct (rule_Admit r report d) as [[] why] eqn:E; [|done]. intros Hn r' [->|Hr]%elem_of_cons; [by rewrite E|].
  by apply IH.
Qed.

(** What the run may use a device for storage on, field by field. *)
Definition deny_list (class : DeviceClass) (f : DeviceFilter) : list string :=
  if String.eqb class ClassBlock then BlockDenyList f else PcieDenyList f.
Definition filter_of (run : option DiscoverSpec) : option DeviceFilter :=
  match run with Some r => spec_DeviceFilter r | None => None end.

Record usable (run : option DiscoverSpec) (d : Device) : Prop := mkUsable {
  usable_free :
    d_Available d = true \/
    (match run with Some r => is_true (EnablePartitionedDevices r) | None => false end = true /\
     OnlyRejectedFor d ReasonPartitioned = true) \/
    (ClassOf run = ClassBlock /\ emptyPartition d = true);
  usable_foreign : d_SubsystemNQN d = "" \/ (nqn_Parse (d_SubsystemNQN d)).2 = false;
  usable_named : Address (ClassOf run) d <> "";
  usable_local : ClassOf run = ClassNVMe /\ d_Transport d = TransportNVMe \/
                 ClassOf run = ClassBlock /\ d_Transport d <> TransportNVMeFabric;
  usable_whole : d_Kind d = KindDisk \/ ClassOf run = ClassBlock /\ d_Kind d = KindPartition;
  usable_iSCSI : d_Transport d = TransportISCSI -> exists f, filter_of run = Some f /\
    existsb (Names (ClassOf run) d) (allowListFor (ClassOf run) f) = true;
  usable_filter f : filter_of run = Some f ->
    existsb (Names (ClassOf run) d) (deny_list (ClassOf run) f) = false /\
    (allowListFor (ClassOf run) f = [] \/
     existsb (Names (ClassOf run) d) (allowListFor (ClassOf run) f) = true) /\
    forall min max, DriveSizeRange f <> "" -> ParseSizeRange (DriveSizeRange f) = Ok (min, max) ->
      (min <= d_SizeBytes d)%Z /\ ((0 < max)%Z -> (d_SizeBytes d <= max)%Z);
}.

Lemma class_cases run : ClassOf run = ClassNVMe \/ ClassOf run = ClassBlock.
Proof. unfold ClassOf. destruct run as [r|]; [|by left]. destruct (is_true _); [by right|by left]. Qed.

(** What the rules of a filter let through. *)
Lemma filter_lets_through report class f d : class = ClassNVMe \/ class = ClassBlock ->
  (forall r, r ∈ filter_rules class f -> (rule_Admit r report d).1 = true) ->
  existsb (Names class d) (deny_list class f) = false /\
  (allowListFor class f = [] \/ existsb (Names class d) (allowListFor class f) = true) /\
  forall min max, DriveSizeRange f <> "" -> ParseSizeRange (DriveSizeRange f) = Ok (min, max) ->
    (min <= d_SizeBytes d)%Z /\ ((0 < max)%Z -> (d_SizeBytes d <= max)%Z).
Proof.
  intros Hcl Hrules. unfold filter_rules in Hrules.
  assert (Hlists : nonempty (allowListFor class f) || nonempty (deny_list class f) = true ->
    (rule_Admit (AllowDenyRule class (allowListFor class f) (deny_list class f)) report d).1 = true).
    { intros Hne. apply Hrules, elem_of_app. left. unfold allowListFor, deny_list in *.
    destruct Hcl as [Ecl|Ecl]; rewrite Ecl in Hne |- *; simpl in Hne |- *; rewrite Hne.
    - apply elem_of_app. left. by left.
    - by left. }
  split; [|split].
  - destruct (deny_list class f) as [|e l]; [done|]. rewrite orb_true_r in Hlists.
    specialize (Hlists eq_refl). simpl in Hlists. simpl. by destruct (Names class d e || existsb (Names class d) l).
  - destruct (allowListFor class f) as [|e l]; [by left|right]. specialize (Hlists eq_refl).
    unfold AllowDenyRule in Hlists. cbn [rule_Admit] in Hlists.
    destruct (existsb _ (deny_list class f)); [done|]. rewrite bool_decide_eq_false_2 in Hlists by done.
    by destruct (existsb _ (e :: l)).
  - intros min max Hne Hparse.
    assert (Hsize : (rule_Admit (SizeRule min max (DriveSizeRange f)) report d).1 = true).
    { apply Hrules, elem_of_app. right. rewrite (proj2 (String.eqb_neq _ _) Hne), Hparse. by left. }
    simpl in Hsize. destruct (Z.ltb_spec (d_SizeBytes d) min); [done|]. split; [done|]. intros Hmax.
    rewrite (proj2 (Z.ltb_lt 0 max) Hmax) in Hsize. simpl in Hsize. by destruct (Z.ltb_spec max (d_SizeBytes d)).
Qed.

Lemma taken_usable report run d : first_refusal report d (BasicDeviceRules run) = None -> usable run d.
Proof.
  intros Hnone. assert (Hr := first_refusal_None _ _ _ Hnone).
  set (class := ClassOf run) in *.
  assert (Hbase : forall r, r ∈ [WholeDiskRule class; SimplyblockVolumeRule; ClassRule class;
      AvailableRule (match run with Some r => is_true (EnablePartitionedDevices r) | None => false end)
        (String.eqb class ClassBlock)] -> (rule_Admit r report d).1 = true).
  { intros r Hin. apply Hr. unfold BasicDeviceRules. fold class.
    destruct run as [[? ? [f|] ? ?]|]; apply elem_of_app; by left. }
  assert (Hiscsi : match filter_of run with
                   | Some f => forall r, r ∈ ISCSIRule class (allowListFor class f) :: filter_rules class f ->
                                 (rule_Admit r report d).1 = true
                   | None => (rule_Admit (ISCSIRule class []) report d).1 = true
                   end).
  { unfold BasicDeviceRules in Hr. fold class in Hr. destruct run as [[? ? [f|] ? ?]|]; cbn [filter_of spec_DeviceFilter].
    - intros r Hin. apply Hr, elem_of_app. by right.
    - apply Hr, elem_of_app. right. by left.
    - apply Hr, elem_of_app. right. by left. }
  clear Hr Hnone. assert (Hcl := class_cases run). fold class in Hcl.
  assert (Hw := Hbase (WholeDiskRule class) ltac:(set_solver)).
  assert (Hs := Hbase SimplyblockVolumeRule ltac:(set_solver)).
  assert (Hc := Hbase (ClassRule class) ltac:(set_solver)).
  assert (Ha := Hbase _ ltac:(right; right; right; left)). clear Hbase.
  constructor.
  - simpl in Ha. destruct (d_Available d); [by left|]. right.
    destruct (_ && OnlyRejectedFor d ReasonPartitioned) eqn:E1; [left; by apply andb_true_iff in E1|].
    destruct (_ && emptyPartition d) eqn:E2; [right|by destruct (d_Rejections d)].
    by apply andb_true_iff in E2 as [?%String.eqb_eq ?].
  - simpl in Hs. destruct (String.eqb_spec (d_SubsystemNQN d) ""); [by left|right].
    by destruct (nqn_Parse _) as [? []].
  - simpl in Hc. intros E. fold class in E. rewrite E in Hc. by repeat case_match.
  - simpl in Hc. fold class. destruct Hcl as [Ecl|Ecl]; [left|right]; (split; [done|]); rewrite Ecl in Hc; simpl in Hc.
    + by destruct (String.eqb_spec (d_Transport d) TransportNVMe).
    + by destruct (String.eqb_spec (d_Transport d) TransportNVMeFabric).
  - simpl in Hw. fold class. destruct (String.eqb_spec (d_Kind d) KindDisk); [by left|right].
    destruct (_ && _) eqn:E; [|done]. by apply andb_true_iff in E as [?%String.eqb_eq ?%String.eqb_eq].
  - intros Et. fold class. destruct (filter_of run) as [f|].
    + exists f. split; [done|]. specialize (Hiscsi (ISCSIRule class (allowListFor class f)) ltac:(by left)).
      simpl in Hiscsi. rewrite Et in Hiscsi. simpl in Hiscsi. by destruct (existsb _ _).
    + simpl in Hiscsi. by rewrite Et in Hiscsi.
  - intros f Hf. fold class. rewrite Hf in Hiscsi. apply (filter_lets_through report); [done|].
    intros r Hin. apply Hiscsi. by right.
Qed.

End Usable.

(** ** Instances *)

Module Sizes.

Definition quote : string := String "034" EmptyString.
Definition ascii_text : Text := {|
  unicode_ToLower := fun s => s;
  unicode_ToUpper := fun s => s;
  unicode_EqualFold := String.eqb;
  Quote := fun s => quote ++ s ++ quote;
|}.

End Sizes.

#[local] Existing Instance Sizes.ascii_text.

Lemma parse_size_any_order_witness : ParseSize_in (rev size_units) "4TiB" = Ok (2 ^ 42)%Z.
Proof.
  assert (E : ParseSize "4TiB" = Ok (2 ^ 42)%Z) by (vm_compute; reflexivity). rewrite <- E.
  apply (parse_size_any_order (rev size_units) "4TiB"). symmetry. apply Permutation_rev.
Defined.

Lemma round_sizes_round_trip_witness : humanBytes (3 * 2 ^ 40) = "3T" /\
  ParseSize (humanBytes (3 * 2 ^ 40)) = Ok (3 * 2 ^ 40)%Z.
Proof.
  split; [vm_compute; reflexivity|].
  apply (round_sizes_round_trip (3 * 2 ^ 40)); [lia|vm_compute; reflexivity].
Defined.

(** A size of 64 bits is multiplied by its unit in 64 bits. *)
Lemma size_wraps : ParseSize "16777216T" = Ok 0%Z /\ ParseSizeRange "16777216T-" = Ok (0, 0)%Z.
Proof. eval_eq. Qed.

End Discovery.
