(* ===== verification/DiscoveryNet.v ===== *)
(** The workers of a discovery run and their networks: [netstack.go],
    [mgmtiface.go], [dataiface.go], [netattach.go] and [netalign.go] of
    [operator/internal/discovery], and what is read of a Kubernetes node
    ([kubenode.go], [noderole.go]).

    The walks down a stack of interfaces remember where they have been; they recurse
    on fuel, one more than there are interfaces ([effective_speed_enough],
    [physicalUnder_reaches]). *)

From Stdlib Require Import Ascii String.
From S2P Require Import Prelude.
From S2P Require Import GoStrings.
From S2P Require Import Net.
From S2P Require Import Discovery.

#[local] Open Scope string_scope.

Module DiscoveryNet.

Import Net Discovery.

(** ** The stack of interfaces ([netstack.go]) *)

(** The kinds of [inventory.LinkKind]. *)
Definition LinkPhysical : string := "physical".
Definition LinkLoopback : string := "loopback".
Definition LinkBridge : string := "bridge".
Definition LinkBond : string := "bond".
Definition LinkTeam : string := "team".
Definition LinkVLAN : string := "vlan".
Definition LinkVXLAN : string := "vxlan".
Definition LinkMACVLAN : string := "macvlan".
Definition LinkIPVLAN : string := "ipvlan".
Definition LinkVirtual : string := "virtual".

Definition Bindable (kind : string) : bool :=
  contains [LinkPhysical; LinkBond; LinkTeam; LinkVLAN; LinkVXLAN; LinkMACVLAN; LinkIPVLAN; LinkBridge]
    kind.
Definition Aggregate (kind : string) : bool :=
  String.eqb kind LinkBridge || String.eqb kind LinkBond || String.eqb kind LinkTeam.

Definition interfaceKind (i : Interface) : string :=
  if negb (String.eqb (i_Kind i) "") then i_Kind i
  else if i_Loopback i then LinkLoopback
  else if i_Bridge i then LinkBridge
  else if i_Virtual i then LinkVirtual
  else LinkPhysical.

Abbreviation index_of := (gmap string Interface).

(** [interfacesByName]: of two of one name, the later. *)
Definition interfacesByName (r : Report) : index_of :=
  foldl (fun m i => <[i_Name i := i]> m) ∅ (r_Interfaces r).

Section Walks.

Context (index : index_of).

(** The turns of its two loops, over the walk of one interface. *)
Definition add_member (walk : string -> gset string -> Z * gset string) (acc : Z * gset string)
    (member : string) : Z * gset string :=
  let '(v, seen) := walk member acc.2 in (wrap64 (acc.1 + v), seen).
Definition first_speed (walk : string -> gset string -> Z * gset string) (acc : Z * gset string)
    (parent : string) : Z * gset string :=
  if (0 <? acc.1)%Z then acc else walk parent acc.2.

(** [effectiveSpeed], with the names it has seen. *)
Fixpoint effective_speed (fuel : nat) (name : string) (seen : gset string) : Z * gset string :=
  match fuel with
  | O => (0%Z, seen)
  | S fuel =>
      match index !! name with
      | None => (0%Z, seen)
      | Some i =>
          if decide (name ∈ seen) then (0%Z, seen)
          else
            let seen := {[name]} ∪ seen in
            if (0 <? i_SpeedMbps i)%Z then (i_SpeedMbps i, seen)
            else if Aggregate (interfaceKind i) then
              foldl (add_member (effective_speed fuel)) (0%Z, seen) (i_Lower i)
            else
              let '(v, seen) := foldl (first_speed (effective_speed fuel)) (0%Z, seen) (i_Lower i) in
              (if (0 <? v)%Z then v else 0%Z, seen)
      end
  end.

Fixpoint compact (l : list string) : list string :=
  match l with
  | x :: (y :: _) as l' => if String.eqb x y then compact l' else x :: compact l'
  | _ => l
  end.

(** [physicalUnder], with the names it has seen. *)
Fixpoint physical_under (fuel : nat) (names : list string) (seen : gset string)
    : list string * gset string :=
  match fuel with
  | O => ([], seen)
  | S fuel =>
      let '(out, seen) :=
        foldl (fun acc name =>
          match index !! name with
          | None => acc
          | Some i =>
              if decide (name ∈ acc.2) then acc
              else
                let seen := {[name]} ∪ acc.2 in
                if String.eqb (interfaceKind i) LinkPhysical then ((acc.1 ++ [i_Name i])%list, seen)
                else
                  let '(below, seen) := physical_under fuel (i_Lower i) seen in
                  ((acc.1 ++ below)%list, seen)
          end) ([], seen) names in
      (compact (sort_strings out), seen)
  end.

Definition walk_fuel : nat := S (size index).

Definition effectiveSpeed (name : string) : Z := (effective_speed walk_fuel name ∅).1.
Definition physicalUnder (names : list string) : list string := (physical_under walk_fuel names ∅).1.

(** [numaNodeOf]: the memory node the interfaces agree on. *)
Fixpoint numa_node (node : Z) (names : list string) : Z :=
  match names with
  | [] => node
  | name :: names =>
      match index !! name with
      | None => numa_node node names
      | Some i =>
          if Z.eqb (i_NUMANode i) NUMANodeUnknown then NUMANodeUnknown
          else if Z.eqb node NUMANodeUnknown then numa_node (i_NUMANode i) names
          else if negb (Z.eqb node (i_NUMANode i)) then NUMANodeUnknown
          else numa_node node names
      end
  end.
Definition numaNodeOf (names : list string) : Z := numa_node NUMANodeUnknown names.

(** [hardwareOf] and [sharesHardware]; no set is the empty one. *)
Definition hardwareOf (names : list string) : list string :=
  flat_map (fun name =>
    name :: match index !! name with Some i => physicalUnder (i_Lower i) | None => [] end) names.

Definition sharesHardware (name : string) (set : list string) : bool :=
  contains set name ||
  existsb (contains set) (match index !! name with Some i => physicalUnder (i_Lower i) | None => [] end).

End Walks.

(** ** The management interface ([mgmtiface.go]) *)

Record Management := mkManagement {
  m_Name : string;
  m_Kind : string;
  m_Members : list string;
  m_SpeedMbps : Z;
  m_NUMANode : Z;
  m_Reason : string;
}.

(** [ipOf] and [reachable]. *)
Definition ipOf (address : string) : option Z :=
  match ParseCIDR address with Some ip => Some ip | None => ParseIP address end.

Definition reachable (address : string) : bool :=
  match ipOf address with
  | None => false
  | Some ip =>
      negb (IsLinkLocalUnicast ip) && negb (IsLinkLocalMulticast ip) && negb (IsLoopback ip) &&
      negb (IsUnspecified ip)
  end.

Definition holdsAddress (i : Interface) (address : string) : bool :=
  match ParseIP address with
  | None => false
  | Some want => existsb (fun held => bool_decide (ipOf held = Some want)) (i_Addresses i)
  end.

Definition link_up (i : Interface) : bool := contains [""; "up"; "unknown"] (i_State i).

Definition servesManagement (i : Interface) (holdsNodeAddress : bool) : bool :=
  let kind := interfaceKind i in
  if negb (link_up i) then false
  else if holdsNodeAddress then
    negb (String.eqb kind LinkLoopback) && negb (String.eqb kind LinkVirtual && i_Peered i)
  else if negb (Bindable kind) then false
  else if String.eqb kind LinkBridge || String.eqb kind LinkVXLAN then false
  else existsb reachable (i_Addresses i).

Definition simplicity (kind : string) : Z :=
  if String.eqb kind LinkPhysical then 0
  else if contains [LinkBond; LinkTeam] kind then 1
  else if contains [LinkVLAN; LinkMACVLAN; LinkIPVLAN] kind then 2
  else 3.

Definition describeKind (kind : string) (members : list string) : string :=
  if String.eqb kind LinkPhysical then "a physical interface"
  else if negb (nonempty members) then "a " ++ kind ++ " interface"
  else "a " ++ kind ++ " interface over " ++ String.concat " and " members.

Definition resolve (i : Interface) (index : index_of) (why : string) : Management :=
  let kind := interfaceKind i in
  let members := physicalUnder index (i_Lower i) in
  mkManagement (i_Name i) kind members (effectiveSpeed index (i_Name i))
    (if nonempty members then numaNodeOf index members else i_NUMANode i)
    (i_Name i ++ " is " ++ describeKind kind members ++ " and " ++ why).

Definition no_management : Management := mkManagement "" "" [] 0 NUMANodeUnknown "".

(** The order of the ladder: the fastest, then the simpler kind, then the name. *)
Definition management_key (index : index_of) (i : Interface) : list Z * string :=
  ([- effectiveSpeed index (i_Name i); simplicity (interfaceKind i)]%Z, i_Name i).

(** [managementOf], passing over what shares hardware with [avoid]. *)
Definition managementOf (r : Report) (nodeAddress : string) (avoid : list string) : Management :=
  let index := interfacesByName r in
  let holds i := holdsAddress i nodeAddress in
  match find_first (fun i => holds i && servesManagement i true) (r_Interfaces r) with
  | Some i =>
      resolve i index ("it holds " ++ nodeAddress ++ ", the address the cluster reaches the machine on")
  | None =>
      let candidates :=
        List.filter (fun i => negb (holds i) && servesManagement i false &&
          negb (sharesHardware index (i_Name i) avoid)) (r_Interfaces r) in
      match sort_by (management_key index) candidates with
      | [] => no_management
      | best :: rest =>
          resolve best index
            (match rest with
             | [] => "it is the only interface holding a reachable address"
             | _ => "it is the fastest interface holding a reachable address, at " ++
                      Itoa (effectiveSpeed index (i_Name best)) ++ " Mbps"
             end)
      end
  end.

Definition ManagementOf (r : Report) (nodeAddress : string) : Management :=
  managementOf r nodeAddress [].
Definition ManagementInterface (r : Report) (nodeAddress : string) : string :=
  m_Name (ManagementOf r nodeAddress).

(** ** The data interfaces ([dataiface.go]) *)

Definition JumboMTU : Z := 9000.
Definition MinDataSpeedMbps : Z := 10000.

(** [firstIPv4]. *)
Definition firstIPv4 (i : Interface) : option string :=
  find_first (fun address =>
    match ipOf address with
    | Some ip => match To4 ip with Some _ => true | None => false end
    | None => false
    end) (i_Addresses i).

Definition servesData (i : Interface) : bool :=
  contains [LinkPhysical; LinkBond; LinkTeam] (interfaceKind i) && link_up i &&
  match firstIPv4 i with Some first => reachable first | None => false end.

(** The driver the members agree on. *)
Fixpoint agreed_driver (index : index_of) (driver : string) (members : list string) : string :=
  match members with
  | [] => driver
  | member :: members =>
      let memberDriver := match index !! member with Some i => i_Driver i | None => "" end in
      if negb (String.eqb driver "") && negb (String.eqb memberDriver driver) then ""
      else agreed_driver index memberDriver members
  end.
Definition driverOf (i : Interface) (index : index_of) : string :=
  if negb (String.eqb (i_Driver i) "") then i_Driver i
  else agreed_driver index "" (physicalUnder index (i_Lower i)).

Definition mellanox (driver : string) : bool := HasPrefix driver "mlx".

Record dataCandidate := mkCandidate {
  dc_name : string;
  dc_speedMbps : Z;
  dc_mtu : Z;
  dc_driver : string;
  dc_aggregate : bool;
}.

(** True before false. *)
Definition true_first (b : bool) : Z := if b then 0%Z else 1%Z.

Definition candidate_key (c : dataCandidate) : list Z * string :=
  ([true_first (JumboMTU <=? dc_mtu c)%Z; - dc_speedMbps c; true_first (dc_aggregate c);
    true_first (mellanox (dc_driver c))]%Z, dc_name c).

Definition like (best c : dataCandidate) : bool :=
  Z.eqb (dc_mtu c) (dc_mtu best) && Z.eqb (dc_speedMbps c) (dc_speedMbps best) &&
  String.eqb (dc_driver c) (dc_driver best) && Bool.eqb (dc_aggregate c) (dc_aggregate best).

Definition data_candidate (index : index_of) (i : Interface) : dataCandidate :=
  mkCandidate (i_Name i) (effectiveSpeed index (i_Name i)) (i_MTU i) (driverOf i index)
    (Aggregate (interfaceKind i)).

Definition dataInterfaces (r : Report) (index : index_of) (avoid : list string) : list string :=
  let candidates :=
    List.filter (fun c => (MinDataSpeedMbps <=? dc_speedMbps c)%Z)
      (map (data_candidate index)
        (List.filter (fun i => servesData i && negb (sharesHardware index (i_Name i) avoid))
          (r_Interfaces r))) in
  match sort_by candidate_key candidates with
  | [] => []
  | (best :: _) as sorted => sort_strings (map dc_name (List.filter (like best) sorted))
  end.

(** [holderOf]. *)
Definition holderOf (r : Report) (nodeAddress : string) : option Interface :=
  if String.eqb nodeAddress "" then None
  else find_first (fun i => holdsAddress i nodeAddress && servesManagement i true) (r_Interfaces r).

Definition Planes (r : Report) (nodeAddress : string) : Management * list string :=
  let index := interfacesByName r in
  match holderOf r nodeAddress with
  | Some pinned =>
      (ManagementOf r nodeAddress, dataInterfaces r index (hardwareOf index [i_Name pinned]))
  | None =>
      let data := dataInterfaces r index [] in
      let mgmt := managementOf r nodeAddress (hardwareOf index data) in
      if negb (String.eqb (m_Name mgmt) "") then (mgmt, data)
      else
        let mgmt := ManagementOf r nodeAddress in
        let taken := hardwareOf index [m_Name mgmt] in
        (mgmt, List.filter (fun name => negb (sharesHardware index name taken)) data)
  end.

(** ** Network attachments ([netattach.go]) *)

Definition NetworkAttachmentRule : string := "network attachment".
Definition NetworkAttachmentsUnavailable : string := "NetworkAttachmentsUnavailable".
Definition attachmentsServed : string := "Served".
Definition attachmentsNotServed : string := "NotServed".

Record Finding := mkFinding { f_Reason : string; f_Message : string }.

Definition attachmentNames (s : Attachment) : list string :=
  at_Management s ::
    (if negb (String.eqb (at_Data s) "") && negb (String.eqb (at_Data s) (at_Management s))
     then [at_Data s] else []).

(** The reports whose probe found the definitions in a state. *)
Definition in_state (state : string) (reports : list Report) : list Report :=
  List.filter (fun r => match r_NetworkAttachments r with
                        | Some nas => String.eqb (nas_State nas) state
                        | None => false
                        end) reports.

Definition NetworkingOf (run : option DiscoverSpec) (reports : list Report)
    : option Attachment * list Finding :=
  match run with
  | Some (mkSpec _ _ _ (Some selection) _) =>
      if negb (nonempty (in_state attachmentsServed reports)) &&
         nonempty (in_state attachmentsNotServed reports) then
        (None, [mkFinding NetworkAttachmentsUnavailable
          ("spec.discover.networkAttachment names " ++
           String.concat " and " (attachmentNames selection) ++
           ", but the cluster does not serve NetworkAttachmentDefinitions (Multus is not installed)" ++
           ", so the draft keeps host networking")])
      else (Some selection, [])
  | _ => (None, [])
  end.

Definition hostCarries (r : Report) (d : NetworkAttachment) : bool * string :=
  if String.eqb (na_Type d) "bridge" then takes
  else if negb (String.eqb (na_HostInterface d) "") then
    if existsb (fun i => String.eqb (i_Name i) (na_HostInterface d)) (r_Interfaces r) then takes
    else refuse ("the NetworkAttachmentDefinition " ++ na_Name d ++ " (" ++ na_Type d ++
      ") builds on " ++ na_HostInterface d ++ ", which this worker does not have")
  else if negb (String.eqb (na_PCIAddress d) "") then
    if existsb (fun i => String.eqb (i_PCIAddress i) (na_PCIAddress d)) (r_Interfaces r) then takes
    else refuse ("the NetworkAttachmentDefinition " ++ na_Name d ++ " moves the NIC at " ++
      na_PCIAddress d ++ " into the pod, and this worker has none there")
  else takes.

Definition orNone (value unknown : string) : string :=
  if String.eqb value "" then unknown else value.

Definition heldDefinitions (nas : NetworkAttachments) : string :=
  String.concat ", " (sort_strings (map na_Name (nas_Definitions nas))).

(** One definition of the selection. *)
Definition attaches (r : Report) (nas : NetworkAttachments) (name : string) : bool * string :=
  match find_attachment r name with
  | Some d => hostCarries r d
  | None =>
      let namespace := orNone (nas_Namespace nas) "of the run" in
      if negb (nonempty (nas_Definitions nas)) then
        refuse ("the namespace " ++ namespace ++ " holds no NetworkAttachmentDefinition " ++ name ++
          ", and holds none at all")
      else
        refuse ("the namespace " ++ namespace ++ " holds no NetworkAttachmentDefinition " ++ name ++
          ", only " ++ heldDefinitions nas)
  end.

Fixpoint attaches_all (r : Report) (nas : NetworkAttachments) (names : list string) : bool * string :=
  match names with
  | [] => takes
  | name :: names =>
      match attaches r nas name with
      | (true, _) => attaches_all r nas names
      | refused => refused
      end
  end.

Definition AdmitAttachment (r : Report) (selection : Attachment) : bool * string :=
  match r_NetworkAttachments r with
  | None =>
      refuse "the probe did not read the NetworkAttachmentDefinitions, so the attachment cannot be checked"
  | Some nas =>
      if negb (String.eqb (nas_State nas) attachmentsServed) then
        refuse ("the probe could not read the NetworkAttachmentDefinitions (" ++ nas_State nas ++
          "): " ++ nas_Detail nas)
      else attaches_all r nas (attachmentNames selection)
  end.

(** ** What Kubernetes says of a worker ([kubenode.go], [noderole.go]) *)

Definition NodeRole : Type := string.
Definition NodeRoleWorker : NodeRole := "Worker".
Definition NodeRoleControlPlane : NodeRole := "ControlPlane".
Definition NodeRoleInfra : NodeRole := "Infra".

Definition roleLabelPrefix : string := "node-role.kubernetes.io/".

(** The role a label names, if it is one this product knows. *)
Definition role_of_label (key : string) : option NodeRole :=
  match CutPrefix key roleLabelPrefix with
  | Some name =>
      if contains ["control-plane"; "master"] name then Some NodeRoleControlPlane
      else if String.eqb name "infra" then Some NodeRoleInfra
      else if String.eqb name "worker" then Some NodeRoleWorker
      else None
  | None => None
  end.

Definition RolesOf (labels : gmap string string) : list NodeRole :=
  match remove_dups (omap role_of_label (map fst (map_to_list labels))) with
  | [] => [NodeRoleWorker]
  | seen => sort_strings seen
  end.

Definition RoleOf (labels : gmap string string) : NodeRole :=
  let roles := RolesOf labels in
  if contains roles NodeRoleControlPlane then NodeRoleControlPlane
  else if contains roles NodeRoleInfra then NodeRoleInfra
  else NodeRoleWorker.

Definition HoldsStorageNodes (r : NodeRole) : bool :=
  String.eqb r NodeRoleWorker || String.eqb r NodeRoleInfra.

Definition Preference (r : NodeRole) : Z :=
  if String.eqb r NodeRoleInfra then 0 else if String.eqb r NodeRoleWorker then 1 else 2.

Definition DefaultNodeSetName : string := "discovered".

Definition NodeSetName (r : NodeRole) : string :=
  if String.eqb r NodeRoleInfra then "infra"
  else if String.eqb r NodeRoleControlPlane then "control-plane"
  else DefaultNodeSetName.

(** A [corev1.Node], as far as it is read, and [KubeNode]. *)
Record Node := mkNode {
  node_Name : string;
  node_Labels : gmap string string;
  node_Addresses : list (string * string);
}.

Record KubeNode := mkKube {
  kn_InternalIP : string;
  kn_Role : NodeRole;
  kn_Labels : gmap string string;
}.

Definition no_kube : KubeNode := mkKube "" "" ∅.

Definition KubeNodeOf (n : Node) : KubeNode :=
  mkKube
    (match find_first (fun a => String.eqb a.1 "InternalIP") (node_Addresses n) with
     | Some a => a.2
     | None => ""
     end) (RoleOf (node_Labels n)) (node_Labels n).

Definition KubeNodesOf (nodes : list Node) : gmap string KubeNode :=
  foldl (fun m n => <[node_Name n := KubeNodeOf n]> m) ∅ nodes.

(** A label, empty where the node does not carry it. *)
Definition label (k : KubeNode) (key : string) : string := default "" (kn_Labels k !! key).

(** ** Workers ([grouping.go]) *)

Record Worker := mkWorker {
  w_Name : string;
  w_Report : Report;
  w_Devices : list Device;
  w_Class : DeviceClass;
  w_PlacementReason : string;
  w_Kube : KubeNode;
  w_Mgmt : Management;
  w_Data : list string;
  w_Attachment : option Attachment;
  w_FailureDomain : string;
}.

Definition with_Data (w : Worker) (data : list string) : Worker :=
  mkWorker (w_Name w) (w_Report w) (w_Devices w) (w_Class w) (w_PlacementReason w) (w_Kube w)
    (w_Mgmt w) data (w_Attachment w) (w_FailureDomain w).
Definition with_FailureDomain (w : Worker) (domain : string) : Worker :=
  mkWorker (w_Name w) (w_Report w) (w_Devices w) (w_Class w) (w_PlacementReason w) (w_Kube w)
    (w_Mgmt w) (w_Data w) (w_Attachment w) domain.

(** ** One network for the fleet ([netalign.go]) *)

Definition ManagementNetworkRule : string := "management network".
Definition DataNetworkRule : string := "data network".
Definition maxDataNetworks : nat := 8.

(** [networkOf]. *)
Definition networkOf (address : string) : option Prefix :=
  match ParsePrefix address with
  | Some prefix =>
      if negb (reachable address) || IsSingleIP prefix then None else Some (Masked prefix)
  | None => None
  end.

Definition joinPrefixes (networks : list Prefix) : string :=
  String.concat ", " (map Prefix_String networks).

Fixpoint compact_prefixes (l : list Prefix) : list Prefix :=
  match l with
  | x :: (y :: _) as l' => if decide (x = y) then compact_prefixes l' else x :: compact_prefixes l'
  | _ => l
  end.

(** Sorted by [comparePrefixes], without repeats. *)
Definition network_set (networks : list Prefix) : list Prefix :=
  compact_prefixes (sort_by (fun p => (prefix_key p, "")) networks).

Definition networksOf (i : Interface) : list Prefix := network_set (omap networkOf (i_Addresses i)).

Definition dataNetworkOf (i : Interface) : list Prefix :=
  match firstIPv4 i with
  | Some first => option_list (networkOf first)
  | None => []
  end.

(** The networks of the interfaces of a worker, by name; none of one it does not have. *)
Definition networks_by {A} (f : Interface -> list A) (w : Worker) (name : string) : list A :=
  match interfacesByName (w_Report w) !! name with Some i => f i | None => [] end.

Definition dataNetworksOf (w : Worker) : list Prefix :=
  network_set (flat_map (networks_by dataNetworkOf w) (w_Data w)).

Definition onNetworks (w : Worker) (networks : list Prefix) : list string :=
  List.filter (fun name =>
    let held := networks_by dataNetworkOf w name in
    negb (nonempty held) || existsb (contains networks) held) (w_Data w).

(** How many of a list are a given one, with those that are. *)
Definition support (networks : list Prefix) : list (Prefix * nat) :=
  map (fun g => (g.1, length g.2)) (group_by id networks).

Definition management_networks (w : Worker) : list Prefix :=
  networks_by networksOf w (m_Name (w_Mgmt w)).

Definition alignManagement (workers : list Worker) : list Worker * list Refusal :=
  match sort_by (fun s => (- Z.of_nat s.2 :: prefix_key s.1, ""))%Z
          (support (flat_map management_networks workers)) with
  | [] => (workers, [])
  | (fleet, held) :: _ =>
      let agrees w := negb (nonempty (management_networks w)) || contains (management_networks w) fleet in
      (List.filter agrees workers,
       map (fun w => mkRefusal (w_Name w) "" ManagementNetworkRule
              (m_Name (w_Mgmt w) ++ " is on " ++ joinPrefixes (management_networks w) ++
               ", and the fleet's management network is " ++ Prefix_String fleet ++ ", held by " ++
               Itoa (Z.of_nat held) ++ " of its " ++ Count workers ++ " workers") false)
         (List.filter (fun w => negb (agrees w)) workers))
  end.

(** Every nonempty subset of the first networks, by the bits of a mask. *)
Definition subset_of (networks : list Prefix) (mask : nat) : list Prefix :=
  (List.filter (fun ix => Nat.testbit mask ix.1) (imap pair networks)).*2.
Definition subsetsOf (networks : list Prefix) : list (list Prefix) :=
  let networks := firstn maxDataNetworks networks in
  map (subset_of networks) (seq 1 (2 ^ length networks - 1)).

(** A set of networks, as the loop over the sets compares them: how many hold it, and
    how large it is, and its text. *)
Definition better (a b : string * list (list Prefix)) : bool :=
  let size g := length (default [] (last g.2)) in
  if negb (Nat.eqb (length a.2) (length b.2)) then Nat.ltb (length b.2) (length a.2)
  else if negb (Nat.eqb (size a) (size b)) then Nat.ltb (size b) (size a)
  else bool_decide (String.le a.1 b.1) && negb (String.eqb a.1 b.1).

(** [majoritySet]: of the sets more than half of the fleet holds, the best. *)
Definition majoritySet (held : list (list Prefix)) (fleetSize : nat) : list Prefix * nat :=
  match
    foldl (fun best g =>
      if Nat.leb (2 * length g.2) fleetSize then best
      else match best with
           | None => Some g
           | Some b => if better g b then Some g else best
           end) None (group_by joinPrefixes (flat_map subsetsOf held))
  with
  | None => ([], O)
  | Some g => (default [] (last g.2), length g.2)
  end.

(** What becomes of one worker: kept with the interfaces it names, or refused. *)
Definition align_worker (fleet : list Prefix) (held : nat) (fleetSize : nat) (w : Worker)
    : Worker + Refusal :=
  let networks := dataNetworksOf w in
  if negb (nonempty networks) && nonempty (w_Data w) then inl w
  else
    match List.filter (fun n => negb (contains networks n)) fleet with
    | [] => inl (with_Data w (onNetworks w fleet))
    | missing =>
        inr (mkRefusal (w_Name w) "" DataNetworkRule
          ("it holds no data interface on " ++ joinPrefixes missing ++
           ", and the fleet's data networks are " ++ joinPrefixes fleet ++ ", held by " ++
           Itoa (Z.of_nat held) ++ " of its " ++ Itoa (Z.of_nat fleetSize) ++ " workers") false)
    end.

Definition lefts {A B} (l : list (A + B)) : list A :=
  omap (fun x => match x with inl a => Some a | inr _ => None end) l.
Definition rights {A B} (l : list (A + B)) : list B :=
  omap (fun x => match x with inl _ => None | inr b => Some b end) l.

Definition alignData (workers : list Worker) : list Worker * list Refusal :=
  let '(fleet, held) := majoritySet (map dataNetworksOf workers) (length workers) in
  let aligned := map (align_worker fleet held (length workers)) workers in
  let kept := lefts aligned in
  (if existsb (fun w => negb (nonempty (w_Data w))) kept
   then map (fun w => with_Data w []) kept else kept,
   rights aligned).

Definition alignNetworks (workers : list Worker) : list Worker * list Refusal :=
  let '(workers, refusals) := alignManagement workers in
  let '(workers, dataRefusals) := alignData workers in
  (workers, (refusals ++ dataRefusals)%list).


(** ** The fleet's networks *)

(** Every worker is kept or refused, once. *)
Definition accounted (before after : list Worker) (refusals : list Refusal) : Prop :=
  (map w_Name after ++ map ref_Worker refusals ≡ₚ map w_Name before)%list /\
  Forall (fun r => ref_Device r = "") refusals.

Lemma alignManagement_accounted workers :
  accounted workers (alignManagement workers).1 (alignManagement workers).2.
Proof.
  unfold alignManagement. destruct (sort_by _ _) as [|[fleet held] _rest].
  - split; [by rewrite app_nil_r|constructor].
  - split.
    + cbn [fst snd]. rewrite map_map. cbn [ref_Worker]. rewrite <- map_app.
      apply Permutation_map, filter_split.
    + apply Forall_forall. by intros r (w & -> & _)%map_elem.
Qed.

Lemma alignManagement_kept workers : exists fleet, forall w, w ∈ (alignManagement workers).1 ->
  w ∈ workers /\ (management_networks w = [] \/ fleet ∈ management_networks w).
Proof.
  unfold alignManagement. destruct (sort_by _ _) as [|[fleet held] rest] eqn:E.
  - exists (mkPrefix (V4 0) 0). cbn [fst]. intros w Hw. split; [done|]. left.
    destruct (management_networks w) as [|p ps] eqn:Ep; [done|]. exfalso.
    assert (Hin : p ∈ (group_by id (flat_map management_networks workers)).*1).
    { apply (group_by_key id), flat_map_elem. exists w. rewrite Ep. split; [by left|done]. }
    apply list_elem_of_fmap in Hin as (g & _ & Hg).
    assert (Hs : (g.1, length g.2) ∈ support (flat_map management_networks workers)).
    { apply map_elem. by exists g. }
    apply (sort_by_elem (fun s => (- Z.of_nat s.2 :: prefix_key s.1, ""))%Z) in Hs. rewrite E in Hs.
    by apply not_elem_of_nil in Hs.
  - exists fleet. cbn [fst]. intros w [Hw Ha]%filter_elem. split; [done|].
    apply orb_true_iff in Ha as [Ha|Ha%contains_true]; [left|by right].
    by destruct (management_networks w).
Qed.

Lemma lefts_rights_accounted (f : Worker -> Worker + Refusal) workers :
  (forall w, match f w with inl w' => w_Name w' = w_Name w
                       | inr r => ref_Worker r = w_Name w /\ ref_Device r = "" end) ->
  accounted workers (lefts (map f workers)) (rights (map f workers)).
Proof.
  intros Hf. unfold accounted. induction workers as [|w workers [IH1 IH2]]; [done|].
  specialize (Hf w). unfold lefts, rights in *. cbn [map]. csimpl. destruct (f w) as [w'|r]; csimpl.
  - split; [|done]. by rewrite IH1, Hf.
  - destruct Hf as [-> ?]. split; [|by constructor]. by rewrite <- Permutation_middle, IH1.
Qed.

Lemma alignData_accounted workers : accounted workers (alignData workers).1 (alignData workers).2.
Proof.
  unfold alignData. destruct (majoritySet _ _) as [fleet held].
  destruct (lefts_rights_accounted (align_worker fleet held (length workers)) workers) as [H1 H2].
  { intros w. unfold align_worker. by destruct (_ && _); [|destruct (List.filter _ _)]. }
  split; [|done]. case_match; [|done]. cbn [fst snd]. by rewrite map_map.
Qed.

Lemma alignNetworks_accounted workers :
  accounted workers (alignNetworks workers).1 (alignNetworks workers).2.
Proof.
  unfold alignNetworks. destruct (alignManagement_accounted workers) as [H1 H2].
  destruct (alignManagement workers) as [kept refusals]. destruct (alignData_accounted kept) as [H3 H4].
  destruct (alignData kept) as [kept' more]. simpl in *. split; [|by apply Forall_app].
  rewrite map_app, <- H1, <- H3. rewrite <- !app_assoc. f_equiv. apply Permutation_app_comm.
Qed.

Lemma compact_prefixes_elem p l : p ∈ compact_prefixes l <-> p ∈ l.
Proof.
  induction l as [|x [|y l] IH]; [done|done|]. change (compact_prefixes (x :: y :: l)) with
    (if decide (x = y) then compact_prefixes (y :: l) else x :: compact_prefixes (y :: l)).
  case_decide as E; [subst; rewrite IH; set_solver|]. rewrite !(elem_of_cons _ _ x), IH. done.
Qed.

Lemma network_set_elem p l : p ∈ network_set l <-> p ∈ l.
Proof. unfold network_set. by rewrite compact_prefixes_elem, sort_by_elem. Qed.

Lemma dataNetworksOf_elem w p :
  p ∈ dataNetworksOf w <-> exists name, name ∈ w_Data w /\ p ∈ networks_by dataNetworkOf w name.
Proof. unfold dataNetworksOf. rewrite network_set_elem, flat_map_elem. naive_solver. Qed.

(** An interface has one data network at most. *)
Lemma data_network_unique w name p q :
  p ∈ networks_by dataNetworkOf w name -> q ∈ networks_by dataNetworkOf w name -> p = q.
Proof.
  unfold networks_by, dataNetworkOf. case_match; [|by intros ?%not_elem_of_nil].
  case_match; [|by intros ?%not_elem_of_nil]. destruct (networkOf _); simpl.
  - by rewrite !list_elem_of_singleton; intros -> ->.
  - by intros ?%not_elem_of_nil.
Qed.

Definition same_networks (l k : list Prefix) : Prop := forall p, p ∈ l <-> p ∈ k.

(** What becomes of one worker: it serves data on the fleet's networks, or on none that
    can be compared. *)
Lemma align_worker_kept fleet held size w w' : align_worker fleet held size w = inl w' ->
  w_Data w' `sublist_of` w_Data w /\
  (w' = with_Data w (w_Data w')) /\
  (dataNetworksOf w' = [] \/ same_networks (dataNetworksOf w') fleet).
Proof.
  unfold align_worker. destruct (_ && _) eqn:E; [|destruct (List.filter _ _) as [|m ms] eqn:Em]; [| |done];
    intros [= <-].
  - apply andb_true_iff in E as [E _]. split; [done|]. split; [by destruct w|]. left.
    by destruct (dataNetworksOf w).
  - split; [unfold onNetworks; simpl; rewrite filter_bool; apply sublist_filter|]. split; [done|].
    right. intros p. rewrite dataNetworksOf_elem. cbn [w_Data with_Data]. split.
    + intros (name & Hn & Hp). unfold onNetworks in Hn. apply filter_elem in Hn as [_ Hn].
      change (networks_by dataNetworkOf (with_Data w (onNetworks w fleet)) name)
        with (networks_by dataNetworkOf w name) in Hp.
      apply orb_true_iff in Hn as [Hn|(q & Hq & Hin%contains_true)%existsb_exists].
      * destruct (networks_by dataNetworkOf w name); [by apply not_elem_of_nil in Hp|done].
      * apply list_elem_of_In in Hq. by rewrite (data_network_unique w name p q).
    + intros Hp. assert (Hw : p ∈ dataNetworksOf w).
      { destruct (contains (dataNetworksOf w) p) eqn:Ec; [by apply contains_true|]. exfalso.
        assert (Hin : p ∈ List.filter (fun n => negb (contains (dataNetworksOf w) n)) fleet)
          by (apply filter_elem; by rewrite Ec).
        rewrite Em in Hin. by apply not_elem_of_nil in Hin. }
      apply dataNetworksOf_elem in Hw as (name & Hn & Hp'). exists name. split; [|done].
      apply filter_elem. split; [done|]. apply orb_true_iff. right. apply existsb_exists. exists p.
      split; [by apply list_elem_of_In|]. by apply contains_true.
Qed.

Lemma lefts_elem {A B} (a : A) (l : list (A + B)) : a ∈ lefts l <-> inl a ∈ l.
Proof.
  unfold lefts. rewrite list_elem_of_omap. split.
  - intros ([a'|b] & Hin & E); by simplify_eq.
  - intros Hin. by exists (inl a).
Qed.

(** Each worker is kept, with its devices, or refused. *)
Lemma alignNetworks_fate workers w : w ∈ workers ->
  (exists w', w' ∈ (alignNetworks workers).1 /\ w_Name w' = w_Name w /\ w_Devices w' = w_Devices w) \/
  exists r, r ∈ (alignNetworks workers).2 /\ ref_Worker r = w_Name w /\ ref_Device r = "".
Proof.
  intros Hw. unfold alignNetworks.
  assert (Hm : w ∈ (alignManagement workers).1 \/
    exists r, r ∈ (alignManagement workers).2 /\ ref_Worker r = w_Name w /\ ref_Device r = "").
  { unfold alignManagement. destruct (sort_by _ _) as [|[fleet held] _rest]; [by left|]. cbn [fst snd].
    destruct (negb (nonempty (management_networks w)) || contains (management_networks w) fleet) eqn:E.
    - left. by apply filter_elem.
    - right. eexists. split; [apply map_elem; exists w; split; [reflexivity|]|done].
      apply filter_elem. split; [done|]. apply (f_equal negb) in E. exact E. }
  destruct (alignManagement workers) as [aligned refusals]. cbn [fst snd] in Hm.
  unfold alignData. destruct (majoritySet _ _) as [fleet held].
  destruct Hm as [Hm|(r & Hr & Hrest)].
  2: { right. exists r. split; [|done]. cbn [snd]. apply elem_of_app. by left. }
  destruct (align_worker fleet held (length aligned) w) as [w'|r] eqn:E.
  - left. apply align_worker_kept in E as E'. destruct E' as (_ & Hb & _).
    assert (Hin : w' ∈ lefts (map (align_worker fleet held (length aligned)) aligned)).
    { apply lefts_elem, map_elem. by exists w. }
    cbn [fst]. destruct (existsb _ _); [exists (with_Data w' []); split; [apply map_elem; by exists w'|]|exists w'; split; [done|]];
      by rewrite Hb.
  - right. exists r. cbn [snd]. split; [apply elem_of_app; right|].
    + unfold rights. apply list_elem_of_omap. exists (inr r). split; [|done]. apply map_elem. by exists w.
    + revert E. unfold align_worker. destruct (_ && _); [done|]. destruct (List.filter _ _); [done|]. by intros [= <-].
Qed.

(** A kept worker is one that was given, on some of its data interfaces. *)
Lemma alignNetworks_from workers w : w ∈ (alignNetworks workers).1 -> exists before,
  before ∈ workers /\ w = with_Data before (w_Data w) /\ w_Data w `sublist_of` w_Data before.
Proof.
  unfold alignNetworks. destruct (alignManagement_kept workers) as [mgmt Hm].
  destruct (alignManagement workers) as [aligned refusals]. cbn [fst] in Hm.
  unfold alignData. destruct (majoritySet _ _) as [fleet held].
  assert (Hk : forall w, w ∈ lefts (map (align_worker fleet held (length aligned)) aligned) ->
    exists before, before ∈ workers /\ w = with_Data before (w_Data w) /\ w_Data w `sublist_of` w_Data before).
  { intros v (before & E & Hin)%lefts_elem%map_elem. symmetry in E. apply align_worker_kept in E.
    exists before. split; [by apply Hm|]. tauto. }
  cbn [fst]. destruct (existsb _ _); [|apply Hk].
  intros (v & -> & Hv)%map_elem. destruct (Hk v Hv) as (before & Hin & -> & _). exists before.
  split; [done|]. split; [done|]. apply sublist_nil_l.
Qed.

(** The workers a run keeps can be one cluster: the management interfaces that hold a
    comparable network share one; the data interfaces of each hold exactly the fleet's data
    networks, or none that can be compared; and either every worker names a data interface
    or none does.  Nobody's interfaces are invented: a worker keeps the rest of what it came
    with, and serves data on some of the interfaces it came with. *)
Theorem fleet_shares_networks workers :
  let kept := (alignNetworks workers).1 in
  (exists fleet, forall w, w ∈ kept -> management_networks w = [] \/ fleet ∈ management_networks w) /\
  (exists fleet, forall w, w ∈ kept ->
     dataNetworksOf w = [] \/ same_networks (dataNetworksOf w) fleet) /\
  ((forall w, w ∈ kept -> w_Data w <> []) \/ (forall w, w ∈ kept -> w_Data w = [])) /\
  (forall w, w ∈ kept -> exists before, before ∈ workers /\
     w = with_Data before (w_Data w) /\ w_Data w `sublist_of` w_Data before).
Proof.
  cbn zeta. assert (Hfrom := alignNetworks_from workers). revert Hfrom. unfold alignNetworks. destruct (alignManagement_kept workers) as [mgmt Hm].
  destruct (alignManagement workers) as [aligned refusals]. cbn [fst] in Hm.
  unfold alignData. destruct (majoritySet _ _) as [fleet held].
  set (kept := lefts (map (align_worker fleet held (length aligned)) aligned)).
  assert (Hk : forall w, w ∈ kept -> exists before, before ∈ aligned /\
    w_Data w `sublist_of` w_Data before /\ w = with_Data before (w_Data w) /\
    (dataNetworksOf w = [] \/ same_networks (dataNetworksOf w) fleet)).
  { intros w Hw. apply lefts_elem, map_elem in Hw as (before & E & Hin). symmetry in E.
    apply align_worker_kept in E. naive_solver. }
  assert (Hmgmt : forall before data, management_networks (with_Data before data) = management_networks before)
    by done.
  destruct (existsb (fun w => negb (nonempty (w_Data w))) kept) eqn:E; cbn [fst]; intros Hfrom.
  - assert (Hk' : forall w, w ∈ map (fun w => with_Data w []) kept -> exists before, before ∈ aligned /\
      w = with_Data before []).
    { intros w (v & -> & Hv)%map_elem. destruct (Hk v Hv) as (before & Hin & _ & -> & _). by exists before. }
    split_and!.
    + exists mgmt. intros w (before & Hin & ->)%Hk'. rewrite Hmgmt. by apply Hm.
    + exists fleet. intros w (before & _ & ->)%Hk'. by left.
    + right. by intros w (before & _ & ->)%Hk'.
    + done.
  - split_and!.
    + exists mgmt. intros w Hw. destruct (Hk w Hw) as (before & Hin & _ & -> & _). rewrite Hmgmt. by apply Hm.
    + exists fleet. intros w Hw. by destruct (Hk w Hw) as (? & _ & _ & _ & ?).
    + left. intros w Hw Hd. assert (existsb (fun w => negb (nonempty (w_Data w))) kept = true); [|congruence].
      apply existsb_exists. exists w. split; [by apply list_elem_of_In|]. by rewrite Hd.
    + done.
Qed.

(** ** The walks end, and what they find *)

Section Reach.

Context (index : index_of).

(** The physical interfaces reachable downward from a name, through what is built on
    others. *)
Inductive under : string -> string -> Prop :=
| under_physical name i :
    index !! name = Some i -> interfaceKind i = LinkPhysical -> under name (i_Name i)
| under_lower name i member p :
    index !! name = Some i -> interfaceKind i <> LinkPhysical -> member ∈ i_Lower i ->
    under member p -> under name p.

(** What a name that was visited is owed: its own name, or a visit to what it is built on. *)
Definition visited (out : list string) (seen : gset string) (name : string) : Prop :=
  forall i, index !! name = Some i ->
    (interfaceKind i = LinkPhysical -> i_Name i ∈ out) /\
    (interfaceKind i <> LinkPhysical -> forall member, member ∈ i_Lower i ->
       is_Some (index !! member) -> member ∈ seen).

(** What a walk from [names] that had seen [seen] returns. *)
Record walked (names : list string) (seen : gset string) (out : list string) (seen' : gset string)
    : Prop := mkWalked {
  walked_more : seen ⊆ seen';
  walked_in : seen' ⊆ dom index;
  walked_names name : name ∈ names -> is_Some (index !! name) -> name ∈ seen';
  walked_sound p : p ∈ out -> exists name, name ∈ names /\ under name p;
  walked_all name : name ∈ seen' -> name ∉ seen -> visited out seen' name;
}.

Lemma compact_elem x l : x ∈ compact l <-> x ∈ l.
Proof.
  induction l as [|y [|z l] IH]; [done|done|]. change (compact (y :: z :: l)) with
    (if String.eqb y z then compact (z :: l) else y :: compact (z :: l)).
  destruct (String.eqb_spec y z) as [->|N]; [rewrite IH; set_solver|].
  by rewrite !(elem_of_cons _ _ y), IH.
Qed.

Lemma walked_seen names seen out seen' : walked names seen out seen' -> size seen <= size seen' /\ size seen' <= size index.
Proof.
  intros [H1 H2 _ _ _]. split; [by apply subseteq_size|]. rewrite <- size_dom. by apply subseteq_size.
Qed.

Lemma visited_mono out out' seen seen' name : (forall p, p ∈ out -> p ∈ out') -> seen ⊆ seen' ->
  visited out seen name -> visited out' seen' name.
Proof. intros Ho Hs Hv i Hi. destruct (Hv i Hi). split; set_solver. Qed.

(** A walk of one list after another. *)
Lemma walked_app names names' seen out seen1 out' seen2 :
  walked names seen out seen1 -> walked names' seen1 out' seen2 ->
  walked (names ++ names') seen (out ++ out') seen2.
Proof.
  intros [A1 A2 A3 A4 A5] [B1 B2 B3 B4 B5]. constructor.
  - set_solver.
  - done.
  - intros name [Hn|Hn]%elem_of_app Hi; [apply B1; by apply A3|by apply B3].
  - intros p [Hp|Hp]%elem_of_app; [destruct (A4 p Hp) as (n & ? & ?)|destruct (B4 p Hp) as (n & ? & ?)];
      exists n; set_solver.
  - intros name Hn Hs. destruct (decide (name ∈ seen1)) as [H1|N].
    + eapply visited_mono; [| |by apply A5]; set_solver.
    + eapply visited_mono; [| |by apply B5]; set_solver.
Qed.

Lemma walked_skip name seen : seen ⊆ dom index -> (is_Some (index !! name) -> name ∈ seen) ->
  walked [name] seen [] seen.
Proof.
  intros Hd Hs. constructor; try done.
  - intros n ->%list_elem_of_singleton. done.
  - by intros p ?%not_elem_of_nil.
Qed.

Lemma walked_physical name i seen : seen ⊆ dom index -> index !! name = Some i ->
  interfaceKind i = LinkPhysical -> walked [name] seen [i_Name i] ({[name]} ∪ seen).
Proof.
  intros Hd Hi Hk. constructor.
  - set_solver.
  - intros n [->%elem_of_singleton|Hn]%elem_of_union; [|by apply Hd]. by apply elem_of_dom.
  - intros n ->%list_elem_of_singleton. set_solver.
  - intros p ->%list_elem_of_singleton. exists name. split; [by left|by constructor].
  - intros n Hn Hs. assert (n = name) as -> by set_solver. intros j Hj.
    rewrite Hi in Hj. injection Hj as <-. split; [intros _; by left|done].
Qed.

Lemma walked_below name i seen out seen' : index !! name = Some i -> interfaceKind i <> LinkPhysical ->
  walked (i_Lower i) ({[name]} ∪ seen) out seen' -> walked [name] seen out seen'.
Proof.
  intros Hi Hk [A1 A2 A3 A4 A5]. constructor.
  - set_solver.
  - done.
  - intros n ->%list_elem_of_singleton _. apply A1. set_solver.
  - intros p Hp. destruct (A4 p Hp) as (m & Hm & Hu). exists name. split; [by left|]. by eapply under_lower.
  - intros n Hn Hs. destruct (decide (n = name)) as [->|N].
    + intros j Hj. rewrite Hi in Hj. injection Hj as <-. split; [done|]. intros _ m Hm Hin. by apply A3.
    + apply A5; set_solver.
Qed.

Lemma walked_out names seen out out' seen' : (forall p, p ∈ out <-> p ∈ out') ->
  walked names seen out seen' -> walked names seen out' seen'.
Proof.
  intros Ho [A1 A2 A3 A4 A5]. constructor; try done.
  - intros p Hp. by apply A4, Ho.
  - intros n Hn Hs. eapply visited_mono; [| |by apply A5]; [|done]. intros p. by rewrite Ho.
Qed.

(** With fuel for every interface not seen yet, the walk is complete. *)
Lemma physical_under_walked fuel names seen : seen ⊆ dom index -> size index < fuel + size seen ->
  walked names seen (physical_under index fuel names seen).1 (physical_under index fuel names seen).2.
Proof.
  revert names seen. induction fuel as [|fuel IH]; intros names seen Hd Hf.
  { apply subseteq_size in Hd. rewrite size_dom in Hd. lia. }
  cbn [physical_under]. set (turn := fun acc name => _).
  assert (Hturns : forall names acc done_names, walked done_names seen acc.1 acc.2 ->
    walked (done_names ++ names) seen (foldl turn acc names).1 (foldl turn acc names).2).
  { clear names. induction names as [|name names IHn]; intros acc done_names Hacc; simpl; [by rewrite app_nil_r|].
    rewrite cons_middle, app_assoc. apply IHn. destruct (walked_seen _ _ _ _ Hacc) as [Hs1 Hs2].
    assert (Hin := walked_in _ _ _ _ Hacc). unfold turn.
    destruct (index !! name) as [i|] eqn:Hi; [destruct (decide (name ∈ acc.2)) as [Hseen|Hnew]|].
    - rewrite <- (app_nil_r acc.1). eapply walked_app; [done|]. by apply walked_skip.
    - destruct (String.eqb_spec (interfaceKind i) LinkPhysical) as [Hk|Hk].
      + simpl. eapply walked_app; [done|]. by apply walked_physical.
      + assert (Hd' : {[name]} ∪ acc.2 ⊆ dom index).
        { intros n [->%elem_of_singleton|Hn]%elem_of_union; [by apply elem_of_dom|by apply Hin]. }
        assert (Hsz : size ({[name]} ∪ acc.2) = S (size acc.2)).
        { rewrite size_union by set_solver. by rewrite size_singleton. }
        specialize (IH (i_Lower i) ({[name]} ∪ acc.2) Hd' ltac:(lia)).
        destruct (physical_under index fuel (i_Lower i) ({[name]} ∪ acc.2)) as [below seen'].
        simpl. eapply walked_app; [done|]. by eapply walked_below.
    - rewrite <- (app_nil_r acc.1). eapply walked_app; [done|]. apply walked_skip; [done|].
      rewrite Hi. by intros [? ?]. }
  specialize (Hturns names ([], seen) []). destruct (foldl turn ([], seen) names) as [out seen'].
  simpl in *. eapply walked_out; [|apply Hturns].
  - intros p. by rewrite compact_elem, sort_strings_elem.
  - constructor; try done; by intros n ?%not_elem_of_nil.
Qed.

Lemma compact_sorted l : StronglySorted String.le l ->
  StronglySorted (fun a b => String.le a b /\ a <> b) (compact l).
Proof.
  induction l as [|x [|y l] IH]; intros Hs; [constructor|by repeat constructor|].
  apply StronglySorted_inv in Hs as [Hs Hx]. specialize (IH Hs).
  change (compact (x :: y :: l)) with (if String.eqb x y then compact (y :: l) else x :: compact (y :: l)).
  destruct (String.eqb_spec x y) as [->|N]; [done|]. constructor; [done|]. apply Forall_forall.
  intros z Hz. apply (proj1 (compact_elem _ _)) in Hz. rewrite Forall_forall in Hx. split; [by apply Hx|].
  intros ->. apply N. apply (anti_symm String.le); [apply Hx; by left|].
  apply StronglySorted_inv in Hs as [_ Hy]. rewrite Forall_forall in Hy.
  apply elem_of_cons in Hz as [->|Hz]; [by apply (reflexivity (R := String.le))|by apply Hy].
Qed.

(** [physicalUnder] ends, on any stack of interfaces, a circular one included, and
    finds exactly the physical interfaces reachable downward from the names, ascending and
    without repeats. *)
Theorem physicalUnder_reaches names :
  (forall p, p ∈ physicalUnder index names <-> exists name, name ∈ names /\ under name p) /\
  StronglySorted (fun a b => String.le a b /\ a <> b) (physicalUnder index names).
Proof.
  unfold physicalUnder. split.
  - destruct (physical_under_walked (walk_fuel index) names ∅) as [_ Hd Hn Hs Ha];
      [set_solver|unfold walk_fuel; rewrite size_empty; lia|].
    intros p. split; [apply Hs|]. intros (name & Hin & Hu).
    assert (Hseen : name ∈ (physical_under index (walk_fuel index) names ∅).2).
    { apply Hn; [done|]. by inversion Hu; subst. }
    clear Hin. induction Hu as [name i Hi Hk|name i m p Hi Hk Hm Hu IH].
    + by apply (Ha name Hseen ltac:(set_solver) i Hi).
    + apply IH. apply (Ha name Hseen ltac:(set_solver) i Hi); [done|done|]. by inversion Hu; subst.
  - unfold walk_fuel. cbn [physical_under]. destruct (foldl _ _ _) as [out seen]. simpl.
    apply compact_sorted, sort_strings_sorted.
Qed.

End Reach.

(** Two loops whose turns agree on every state met agree. *)
Lemma foldl_agree {A B} (Inv : B -> Prop) (f g : B -> A -> B) l b :
  (forall c x, Inv c -> f c x = g c x /\ Inv (f c x)) -> Inv b ->
  foldl f b l = foldl g b l /\ Inv (foldl f b l).
Proof.
  intros Hfg. revert b. induction l as [|x l IH]; intros b Hb; simpl; [done|].
  destruct (Hfg b x Hb) as [<- Hi]. by apply IH.
Qed.

(** [effectiveSpeed] ends on any stack of interfaces: any more fuel than the model
    gives it returns the same. *)
Theorem effective_speed_enough (index : index_of) fuel fuel' name seen
    (Hd : seen ⊆ dom index) (Hf : size index < fuel + size seen)
    (Hf' : size index < fuel' + size seen) :
  effective_speed index fuel name seen = effective_speed index fuel' name seen /\
  seen ⊆ (effective_speed index fuel name seen).2 ⊆ dom index.
Proof.
  revert fuel' name seen Hd Hf Hf'. induction fuel as [|fuel IH]; intros fuel' name seen Hd Hf Hf'.
  { apply subseteq_size in Hd. rewrite size_dom in Hd. lia. }
  destruct fuel' as [|fuel']; [apply subseteq_size in Hd; rewrite size_dom in Hd; lia|].
  cbn [effective_speed]. destruct (index !! name) as [i|] eqn:Hi; [|done].
  destruct (decide (name ∈ seen)) as [Hs|Hs]; [done|].
  assert (Hd' : {[name]} ∪ seen ⊆ dom index).
  { intros n [->%elem_of_singleton|Hn]%elem_of_union; [by apply elem_of_dom|by apply Hd]. }
  assert (Hsz : size ({[name]} ∪ seen) = S (size seen)).
  { rewrite size_union by set_solver. by rewrite size_singleton. }
  case_match; [split; [done|set_solver]|].
  set (Inv := fun acc : Z * gset string => {[name]} ∪ seen ⊆ acc.2 /\ acc.2 ⊆ dom index).
  assert (H0 : Inv (0%Z, {[name]} ∪ seen)) by done.
  assert (Hcall : forall (acc : Z * gset string) member, Inv acc ->
    effective_speed index fuel member acc.2 = effective_speed index fuel' member acc.2 /\
    {[name]} ∪ seen ⊆ (effective_speed index fuel member acc.2).2 /\
    (effective_speed index fuel member acc.2).2 ⊆ dom index).
  { intros acc member [Ha1 Ha2]. assert (Hsa := subseteq_size _ _ Ha1).
    destruct (IH fuel' member acc.2 Ha2 ltac:(lia) ltac:(lia)) as (E & E1 & E2). split; [done|].
    split; [by etrans|done]. }
  case_match.
  - destruct (foldl_agree Inv (add_member (effective_speed index fuel)) (add_member (effective_speed index fuel'))
      (i_Lower i) (0%Z, {[name]} ∪ seen)) as [E [HI HI']]; [|done|].
    + intros acc member Ha. destruct (Hcall acc member Ha) as (E & E1 & E2). unfold add_member.
      rewrite <- E. by destruct (effective_speed index fuel member acc.2).
    + rewrite <- E. split; [done|]. split; [set_solver|done].
  - destruct (foldl_agree Inv (first_speed (effective_speed index fuel)) (first_speed (effective_speed index fuel'))
      (i_Lower i) (0%Z, {[name]} ∪ seen)) as [E [HI HI']]; [|done|].
    + intros acc member Ha. unfold first_speed. case_match; [done|]. by apply Hcall.
    + rewrite <- E. destruct (foldl _ _ _) as [v seen']. simpl in *. split; [done|]. split; [set_solver|done].
Qed.

(** ** Instances *)

Module Stacks.

Definition nic (name kind : string) (speed : Z) (lower : list string) : Interface :=
  mkInterface name speed 1500 "up" "" "" 0 false false false false kind lower [].

(** A bond of two, and a VLAN that stands on itself. *)
Definition host : index_of :=
  list_to_map (map (fun i => (i_Name i, i))
    [nic "eth0" LinkPhysical 25000 []; nic "eth1" LinkPhysical 25000 [];
     nic "bond0" LinkBond 0 ["eth0"; "eth1"]; nic "vlan7" LinkVLAN 0 ["vlan7"]]).

End Stacks.

Lemma effective_speed_enough_witness :
  effective_speed Stacks.host 5 "bond0" ∅ = effective_speed Stacks.host 100 "bond0" ∅ /\
  ∅ ⊆ (effective_speed Stacks.host 5 "bond0" ∅).2 ⊆ dom Stacks.host.
Proof.
  apply (effective_speed_enough Stacks.host 5 100 "bond0" ∅); [set_solver|vm_compute; lia|vm_compute; lia].
Defined.

Example speeds : effectiveSpeed Stacks.host "bond0" = 50000%Z /\ effectiveSpeed Stacks.host "vlan7" = 0%Z /\
  physicalUnder Stacks.host ["bond0"; "vlan7"; "eth1"] = ["eth0"; "eth1"].
Proof. eval_eq. Qed.

End DiscoveryNet.
