(* ===== verification/Documents.v ===== *)
(** The objects a deployment is described by and built out of
    ([operator/api/v1alpha2]): the deployment document, with its cluster template and node
    sets, and the storage clusters and storage nodes it expands into.

    A pointer is an [option], an [int32] a [Z].  A value the modelled code copies and never
    reads ([Verbatim]: container resources, a key store, tolerations and the like) is kept
    as the text it is written in. *)

From Stdlib Require Import String.
From S2P Require Import Prelude.
From S2P Require Import Discovery.

#[local] Open Scope string_scope.

Module Documents.

Import Discovery.

Abbreviation Verbatim := string (only parsing).
Abbreviation int32 := Z (only parsing).

(** ** Parts of a cluster's specification *)

Record StripeSpec := mkStripe { DataChunks : option int32; ParityChunks : option int32 }.

Definition ClusterMode : Type := string.
Definition ClusterModeSingle : ClusterMode := "Single".
Definition ClusterModeDual : ClusterMode := "Dual".
Definition ClusterModeStandard : ClusterMode := "Standard".

Definition StorageClusterDeviceClassNVMe : string := "NVMe".
Definition StorageClusterDeviceClassLogicalBlock : string := "LogicalBlock".

Record StorageNetworkSpec := mkNetwork {
  PodNetwork : bool;
  SpdkOnHostNetwork : bool;
  net_Data : list Verbatim;
}.

Definition StretchedRoleFollower : string := "Follower".

Record StretchedSpec := mkStretched {
  st_Site : string;
  st_PeerSite : string;
  st_PeerCluster : string;
  st_Role : string;
}.

Record ClusterPortsSpec := mkPorts {
  NVMf : option int32;
  Rpc : option int32;
  NodeAgentPort : option int32;
}.

(** ** The document ([clusterdeploymentconfig_types.go]) *)

Definition KubernetesEnvironment : Type := string.
Definition EnvVanilla : KubernetesEnvironment := "Vanilla".
Definition EnvOpenShift : KubernetesEnvironment := "OpenShift".
Definition EnvRancher : KubernetesEnvironment := "Rancher".
Definition EnvK3s : KubernetesEnvironment := "K3s".
Definition EnvTalos : KubernetesEnvironment := "Talos".
Definition EnvEKS : KubernetesEnvironment := "EKS".
Definition EnvGKE : KubernetesEnvironment := "GKE".
Definition EnvAKS : KubernetesEnvironment := "AKS".
Definition EnvOKE : KubernetesEnvironment := "OKE".

Definition DistroUbuntu : string := "ubuntu".

Record HostOSSpec := mkHostOSSpec { hs_Distro : string; hs_Family : string }.

Record DeviceSelection := mkDevices { sel_NVMe : list string; sel_Block : list string }.

Record NodeGroup := mkNodeGroup {
  ng_Name : string;
  ng_Workers : list string;
  ng_MgmtInterface : string;
  ng_DataInterfaces : list string;
  ng_NetworkAttachment : option Attachment;
  ng_Devices : option DeviceSelection;
  ng_FailureDomain : string;
  ng_Site : string;
  ng_SpdkSystemMemory : string;
  ng_ReservedSystemCPU : string;
  ng_JournalManager : option Verbatim;
}.

Record NodeSetClusterOverrides := mkOverrides {
  ov_VCPUCount : option int32;
  ov_MaxSubsystemCount : option int32;
  ov_MinHugePagesSize : string;
  ov_SocketsToUse : list string;
  ov_NodesPerSocket : option int32;
  ov_Stripe : option StripeSpec;
}.

Record NodeSet := mkNodeSet {
  ns_Name : string;
  ns_Groups : list NodeGroup;
  ns_Cluster : option NodeSetClusterOverrides;
}.

Record ClusterTemplate := mkTemplate {
  ct_Name : string;
  ct_Network : option StorageNetworkSpec;
  ct_MaxSubsystemCount : option int32;
  ct_VCPUCount : option int32;
  ct_MinHugePagesSize : string;
  ct_EnableDriveFormat : option bool;
  ct_EnableJournalDevice : option bool;
  ct_SocketsToUse : list string;
  ct_NodesPerSocket : option int32;
  ct_InitContainerResources : option Verbatim;
  ct_Tolerations : list Verbatim;
  ct_ContainerResources : option Verbatim;
  ct_NodeProvisioningBudget : option int32;
  ct_EnableChecksumValidation : option bool;
  ct_EnableAtomicity4K : option bool;
  ct_EnableCpuTopology : option bool;
  ct_EnableKubeletConfiguration : option bool;
  ct_Stripe : option StripeSpec;
  ct_ClusterMode : ClusterMode;
  ct_EnableArbitration : option bool;
  ct_Arbitration : option Verbatim;
  ct_FabricType : string;
  ct_OpenShift : option Verbatim;
  ct_Ports : option ClusterPortsSpec;
  ct_EnableFailureDomains : option bool;
  ct_EnableSyncReplication : option bool;
  ct_Stretched : option StretchedSpec;
  ct_EnableNodeAffinity : option bool;
  ct_Backup : option Verbatim;
  ct_KMS : option Verbatim;
}.

(** The zero template, which states nothing but a name. *)
Definition template_named (name : string) : ClusterTemplate :=
  mkTemplate name None None None "" None None [] None None [] None None None None None None None ""
    None None "" None None None None None None None None.

Record ImageSpec := mkImage { im_Image : string; im_ImagePullPolicy : string }.

Record DeploymentImages := mkImages {
  im_NodeAgent : option ImageSpec;
  im_SPDK : option ImageSpec;
  im_SPDKProxy : option ImageSpec;
}.

Record ClusterDeploymentConfigSpec := mkDocument {
  dc_Approved : bool;
  dc_Environment : KubernetesEnvironment;
  dc_HostOS : option HostOSSpec;
  dc_EdgeCluster : option bool;
  dc_ClusterRef : string;
  dc_Cluster : option ClusterTemplate;
  dc_Images : option DeploymentImages;
  dc_NodeSets : list NodeSet;
}.

Record ExpansionMember := mkExpansionMember { em_NodeSet : string; em_Cluster : string }.

(** ** Storage clusters ([storagecluster_types.go])

    Less the settings the deployment neither reads nor writes. *)

Record StorageNodesSpec := mkWorkload {
  wl_Image : string;
  wl_ImagePullPolicy : string;
  wl_MgmtInterface : string;
  wl_DataInterfaces : list string;
  wl_Network : option StorageNetworkSpec;
  wl_SocketsToUse : list string;
  wl_NodesPerSocket : option int32;
  wl_NodeProvisioningBudget : option int32;
  wl_EnableJournalDevice : option bool;
  wl_EnableFormat4K : option bool;
  wl_EnableBlockFormat : option bool;
  wl_EnableCpuTopology : option bool;
  wl_EnableKubeletConfiguration : option bool;
  wl_UbuntuHost : option bool;
  wl_OpenShift : option Verbatim;
  wl_Tolerations : list Verbatim;
  wl_ContainerResources : option Verbatim;
  wl_InitContainerResources : option Verbatim;
}.

Record StorageClusterSpec := mkClusterSpec {
  sp_MaxSubsystemCount : option int32;
  sp_VCPUCount : option int32;
  sp_MinHugePagesSize : string;
  sp_Stripe : option StripeSpec;
  sp_FabricType : string;
  sp_NvmfBasePort : option int32;
  sp_RpcBasePort : option int32;
  sp_SnodeApiPort : option int32;
  sp_EnableFailureDomains : option bool;
  sp_EnableSyncReplication : option bool;
  sp_Stretched : option StretchedSpec;
  sp_EnableNodeAffinity : option bool;
  sp_EnableChecksumValidation : option bool;
  sp_EnableAtomicity4K : option bool;
  sp_DeviceClass : string;
  sp_KMS : option Verbatim;
  sp_StorageNodes : option StorageNodesSpec;
  sp_Backup : option Verbatim;
  sp_ClusterMode : ClusterMode;
  sp_EnableArbitration : option bool;
  sp_Arbitration : option Verbatim;
  sp_Supercluster : option Verbatim;
  sp_SuperclusterRef : string;
}.

Record FailureDomainIndex := mkDomainIndex { fd_Name : string; fd_Index : int32 }.

#[global] Instance FailureDomainIndex_eq_dec : EqDecision FailureDomainIndex.
Proof. solve_decision. Defined.

Record StorageCluster := mkCluster {
  sc_Name : string;
  sc_Spec : StorageClusterSpec;
  sc_UUID : string;
  sc_ErasureCodingScheme : string;
  sc_FailureDomains : list FailureDomainIndex;
  sc_ResourceVersion : nat;
}.

(** A cluster as it is created: its status is empty, and it has no version yet. *)
Definition new_cluster (name : string) (spec : StorageClusterSpec) : StorageCluster :=
  mkCluster name spec "" "" [] 0.

Definition IsStretchedFollower (c : StorageCluster) : bool :=
  match sp_Stretched (sc_Spec c) with
  | Some s => String.eqb (st_Role s) StretchedRoleFollower
  | None => false
  end.

Definition StretchedSite (c : StorageCluster) : string :=
  match sp_Stretched (sc_Spec c) with Some s => st_Site s | None => "" end.

(** ** Storage nodes ([storagenode_types.go])

    [sn_Remote] is the one member of [spec.stretched] read here, the pointer itself being
    its [option]. *)

Record StorageNodeConfig := mkNodeConfig {
  nc_VCPUCount : option int32;
  nc_MinHugePagesSize : string;
  nc_Expand : option bool;
  nc_DeviceNames : list string;
  nc_MgmtInterface : string;
  nc_DataInterfaces : list string;
  nc_FailureDomain : string;
  nc_Site : string;
  nc_SpdkSystemMemory : string;
  nc_ReservedSystemCPU : string;
  nc_JournalManager : option Verbatim;
  nc_SpdkImage : string;
  nc_SpdkImagePullPolicy : string;
  nc_SpdkProxyImage : string;
  nc_SpdkProxyImagePullPolicy : string;
}.

Record StorageNode := mkNode {
  sn_Name : string;
  sn_ClusterRef : string;
  sn_NodeSet : string;
  sn_WorkerNode : string;
  sn_SocketID : string;
  sn_NodeIndex : option int32;
  sn_Slot : option int32;
  sn_Config : StorageNodeConfig;
  sn_Remote : option bool;
  sn_Phase : string;
  sn_Status : string;
  sn_Hostname : string;
}.

Definition StorageNodePhaseOnline : string := "Online".
Definition NodeStatusOnline : string := "online".

Definition IsRemote (n : StorageNode) : bool := is_true (sn_Remote n).

End Documents.
