(* ===== verification/DiscoveryGroups.v ===== *)
(** The groups and node sets of a draft: [grouping.go], [rolesets.go] and
    [sizesplit.go] of [operator/internal/discovery].

    A grouper and a node-set builder are records of the functions their interfaces
    name, and [GrouperLaws] and [BuilderLaws] what the plan relies on: that no worker is
    dropped.  The digest of [crypto/sha256] and the check of a DNS label are parameters
    ([Kube.Library]). *)

From Stdlib Require Import Ascii String.
From S2P Require Import Prelude.
From S2P Require Import GoStrings.
From S2P Require Import Net.
From S2P Require Import Discovery.
From S2P Require Import DiscoveryNet.
From S2P Require Import Documents.
From S2P Require Import Kube.

#[local] Open Scope string_scope.

Module DiscoveryGroups.

Import Net Discovery DiscoveryNet Documents.

(** [len(errs) == 0]. *)
Definition nothing {A} (errs : list A) : bool := match errs with [] => true | _ => false end.

Definition NUL : string := String "000"%char EmptyString.

(** ** Grouping ([grouping.go]) *)

(** A list less its repeats, the first of each kept. *)
Fixpoint distinct (seen : list string) (l : list string) : list string :=
  match l with
  | [] => []
  | x :: l => if contains seen x then distinct seen l else x :: distinct (x :: seen) l
  end.

Definition Addresses (w : Worker) : list string :=
  sort_strings (distinct []
    (List.filter (fun a => negb (String.eqb a "")) (map (Address (w_Class w)) (w_Devices w)))).

Record Group := mkGroup {
  g_Name : string;
  g_Workers : list Worker;
  g_Class : DeviceClass;
  g_Addresses : list string;
  g_MgmtInterface : string;
  g_DataInterfaces : list string;
  g_NetworkAttachment : option Attachment;
  g_FailureDomain : string;
}.

Definition with_Workers (g : Group) (workers : list Worker) : Group :=
  mkGroup (g_Name g) workers (g_Class g) (g_Addresses g) (g_MgmtInterface g) (g_DataInterfaces g)
    (g_NetworkAttachment g) (g_FailureDomain g).
Definition with_Name (g : Group) (name : string) : Group :=
  mkGroup name (g_Workers g) (g_Class g) (g_Addresses g) (g_MgmtInterface g) (g_DataInterfaces g)
    (g_NetworkAttachment g) (g_FailureDomain g).

Record Grouper := mkGrouper {
  grouper_Name : string;
  grouper_Group : list Worker -> list Group;
}.

(** "which between them hold every worker given" *)
Class GrouperLaws (g : Grouper) : Prop := {
  grouper_holds workers : concat (map g_Workers (grouper_Group g workers)) ≡ₚ workers;
}.

Definition worker_key (w : Worker) : list Z * string := ([], w_Name w).

Definition attachmentSignature (attachment : option Attachment) : string :=
  match attachment with
  | None => ""
  | Some a => at_Management a ++ NUL ++ at_Data a
  end.

Definition groupDeviceBytes (g : Group) : Z :=
  match g_Workers g with
  | [] => 0
  | w :: _ =>
      match g_Addresses g with
      | [] => 0
      | addresses => sumU64 (map d_SizeBytes (w_Devices w)) / Z.of_nat (length addresses)
      end
  end%Z.

Definition groupName (index : nat) (g : Group) : string :=
  let size := if Z.eqb (groupDeviceBytes g) 0 then "unsized" else humanBytes (groupDeviceBytes g) in
  "group-" ++ Itoa (Z.of_nat index + 1) ++ "-" ++ g_Class g ++ "-" ++ Count (g_Addresses g) ++ "x" ++ size.

Section Grouping.

Context `{!Library}.

Definition signature_text (c : DeviceClass) (addresses : list string) (mgmtInterface : string)
    (dataInterfaces : list string) : string :=
  c ++ NUL ++ mgmtInterface ++ NUL ++ Join dataInterfaces "," ++ NUL ++ Join addresses "000".

Definition signature (c : DeviceClass) (addresses : list string) (mgmtInterface : string)
    (dataInterfaces : list string) : string :=
  sha256_hex (signature_text c addresses mgmtInterface dataInterfaces).

(** The key two workers agree on to share a group. *)
Definition worker_signature (w : Worker) : string :=
  signature (w_Class w) (Addresses w) (m_Name (w_Mgmt w)) (w_Data w) ++ NUL ++ w_FailureDomain w ++
    NUL ++ attachmentSignature (w_Attachment w).

(** The group of a signature: described by the first worker it was met at. *)
Definition hardware_group (entry : string * list Worker) : option Group :=
  match entry.2 with
  | [] => None
  | (w :: _) as workers =>
      Some (mkGroup "" (sort_by worker_key workers) (w_Class w) (Addresses w) (m_Name (w_Mgmt w))
              (w_Data w) (w_Attachment w) (w_FailureDomain w))
  end.

(** Groups go by the name of their first worker. *)
Definition group_key (g : Group) : list Z * string :=
  ([], match g_Workers g with w :: _ => w_Name w | [] => "" end).

Definition GroupByHardware_Group (workers : list Worker) : list Group :=
  imap (fun i g => with_Name g (groupName i g))
    (sort_by group_key (omap hardware_group (group_by worker_signature workers))).

Definition GroupByHardware : Grouper := mkGrouper "identical hardware" GroupByHardware_Group.

End Grouping.

Definition nodeGroupOf (g : Group) : NodeGroup :=
  mkNodeGroup (g_Name g) (map w_Name (g_Workers g)) (g_MgmtInterface g) (g_DataInterfaces g)
    (g_NetworkAttachment g)
    (match g_Addresses g with
     | [] => None
     | addresses =>
         if String.eqb (g_Class g) ClassBlock then Some (mkDevices [] addresses)
         else Some (mkDevices addresses [])
     end) (g_FailureDomain g) "" "" "" None.

(** ** Node sets ([rolesets.go], and [SingleNodeSet] of [grouping.go]) *)

Record NodeSetBuilder := mkBuilder {
  builder_Name : string;
  builder_Build : list Group -> list NodeSet;
}.

(** The workers node sets hold, by name. *)
Definition drafted (sets : list NodeSet) : list string :=
  flat_map (fun s => flat_map ng_Workers (ns_Groups s)) sets.

Class BuilderLaws (b : NodeSetBuilder) : Prop := {
  builder_holds groups : drafted (builder_Build b groups) ≡ₚ map w_Name (concat (map g_Workers groups));
}.

Definition SingleNodeSet (SetName : string) : NodeSetBuilder :=
  mkBuilder "single node set" (fun groups =>
    match groups with
    | [] => []
    | _ => [mkNodeSet (if String.eqb SetName "" then DefaultNodeSetName else SetName)
              (map nodeGroupOf groups) None]
    end).

Definition roleOf (w : Worker) : NodeRole :=
  if String.eqb (kn_Role (w_Kube w)) "" then NodeRoleWorker else kn_Role (w_Kube w).

Definition splitWorkersByRole (workers : list Worker) : list (NodeRole * list Worker) :=
  group_by roleOf workers.

(** The groups, each divided by role, by role. *)
Definition groups_by_role (groups : list Group) : list (NodeRole * list (NodeRole * Group)) :=
  group_by fst
    (flat_map (fun g => map (fun rs => (rs.1, with_Workers g rs.2)) (splitWorkersByRole (g_Workers g)))
       groups).

Definition SplitByRole (SetName : string) : NodeSetBuilder :=
  mkBuilder "one node set per role" (fun groups =>
    map (fun rg =>
      mkNodeSet
        (if String.eqb rg.1 NodeRoleWorker && negb (String.eqb SetName "") then SetName
         else NodeSetName rg.1)
        (map (fun g => nodeGroupOf g.2) rg.2) None)
      (sort_by (fun rg => ([Preference rg.1], rg.1)) (groups_by_role groups))).

(** ** Members ([sizesplit.go]) *)

Definition maxNodeSetName : Z := 23.
Definition maxStorageNodesPerMember : Z := 32.
Definition PlacementGroupLabel : string := "storage.simplyblock.io/placement-group".
Definition LabelTopologyRegion : string := "topology.kubernetes.io/region".
Definition LabelTopologyZone : string := "topology.kubernetes.io/zone".

Definition TopologyIncomplete : string := "TopologyIncomplete".
Definition FailureDomainInvalid : string := "FailureDomainInvalid".
Definition PlacementGroupLabelIncomplete : string := "PlacementGroupLabelIncomplete".
Definition PlacementGroupInvalid : string := "PlacementGroupInvalid".
Definition NVMeMultipathUnavailable : string := "NVMeMultipathUnavailable".

Definition plural (n : nat) (one many : string) : string := if Nat.eqb n 1 then one else many.

Record member := mkMember { mb_name : string; mb_region : string; mb_workers : list Worker }.

(** The dealing order: by failure domain, then by name. *)
Definition deal_le (a b : Worker) : Prop :=
  if decide (w_FailureDomain a = w_FailureDomain b) then String.le (w_Name a) (w_Name b)
  else String.le (w_FailureDomain a) (w_FailureDomain b).

#[export] Instance deal_le_dec : RelDecision deal_le.
Proof. intros a b. unfold deal_le. destruct (decide _); apply _. Defined.

(** Every [count]-th worker, from the [i]-th on. *)
Definition dealt (count i : nat) (sorted : list Worker) : list Worker :=
  (List.filter (fun ix => Nat.eqb (ix.1 mod count) i) (imap pair sorted)).*2.

Definition deal (workers : list Worker) (capacity : nat) : list (list Worker) :=
  let sorted := merge_sort deal_le workers in
  let count := ((length sorted + capacity - 1) / capacity)%nat in
  map (fun i => dealt count i sorted) (seq 0 count).

Definition numberedName (base : string) (n : Z) : string :=
  let suffix := "-" ++ Itoa n in
  let room := (Z.to_nat maxNodeSetName - String.length suffix)%nat in
  (if Nat.ltb room (String.length base) then TrimRight (String.substring 0 room base) "-" else base) ++
    suffix.

Section Members.

Context `{!Library} `{!Text}.

(** What [placementGroupsOf] makes of a worker's value. *)
Definition group_value (w : Worker) : string := label (w_Kube w) PlacementGroupLabel.
Definition value_ok (value : string) : bool :=
  negb ((maxNodeSetName <? Z.of_nat (String.length value))%Z || negb (nothing (IsDNS1123Label value))).
Definition unvalued (w : Worker) : bool := String.eqb (group_value w) "".
Definition invalued (w : Worker) : bool := negb (unvalued w) && negb (value_ok (group_value w)).
Definition valued (w : Worker) : bool := negb (unvalued w) && value_ok (group_value w).

(** The entries of a map in the order of their keys. *)
Definition by_value {A} (l : list (string * A)) : list (string * A) := sort_by (fun g => ([], g.1)) l.

Definition invalid_finding (entry : string * list Worker) : Finding :=
  mkFinding PlacementGroupInvalid
    (String.concat ", " (map w_Name entry.2) ++ " carry " ++ PlacementGroupLabel ++ "=" ++
     Quote entry.1 ++ ", which is not a node set name (a DNS label of at most " ++
     Itoa maxNodeSetName ++ " characters), so they are drafted as unlabeled workers are").

Definition incomplete_finding (missing : list Worker) : Finding :=
  let n := length missing in
  mkFinding PlacementGroupLabelIncomplete
    (String.concat ", " (map w_Name missing) ++ " " ++ plural n "carries" "carry" ++ " no " ++
     PlacementGroupLabel ++ " label while other workers on the same network do, so " ++
     plural n "it is" "they are" ++ " split by size: label " ++ plural n "it" "them" ++
     " to choose " ++ plural n "its" "their" ++ " member").

Definition placementGroupsOf (workers : list Worker)
    : list (string * list Worker) * list Worker * list Finding :=
  let labeled := by_value (group_by group_value (List.filter valued workers)) in
  let missing := List.filter unvalued workers in
  (labeled, List.filter (fun w => negb (valued w)) workers,
   (map invalid_finding (by_value (group_by group_value (List.filter invalued workers))) ++
    (if nonempty labeled && nonempty missing then [incomplete_finding missing] else []))%list).

Definition region (w : Worker) : string := label (w_Kube w) LabelTopologyRegion.

(** What a member's workers share. *)
Definition partition_key (w : Worker) : string :=
  region w ++ NUL ++ m_Name (w_Mgmt w) ++ NUL ++ Join (w_Data w) "," ++ NUL ++ w_Class w.

(** The members of one partition. *)
Definition partition_members (capacity : nat) (entry : string * list Worker)
    : list member * list Finding :=
  let in_region := match last entry.2 with Some w => region w | None => "" end in
  let '(labeled, unlabeled, found) := placementGroupsOf entry.2 in
  ((map (fun g => mkMember g.1 in_region g.2) labeled ++
    match unlabeled with
    | [] => []
    | _ => map (mkMember "" in_region) (deal unlabeled capacity)
    end)%list, found).

(** In how many partitions a value is: each has one member of the name. *)
Definition valuePartitions (members : list member) (value : string) : nat :=
  length (List.filter (fun m => String.eqb (mb_name m) value) members).

Definition shared_finding (value : string) (count : nat) : Finding :=
  mkFinding PlacementGroupInvalid
    (PlacementGroupLabel ++ "=" ++ value ++
     " is carried by workers in different regions or on different networks, which cannot " ++
     "share a member, so its workers are drafted into " ++ Itoa (Z.of_nat count) ++ " node sets").

(** The pass that numbers the members of one value in several partitions. *)
Fixpoint number_members (count : string -> nat) (numbered : gmap string Z) (members : list member)
    : list member * list Finding :=
  match members with
  | [] => ([], [])
  | m :: members =>
      let value := mb_name m in
      if String.eqb value "" || Nat.ltb (count value) 2 then
        let '(rest, found) := number_members count numbered members in (m :: rest, found)
      else
        let n := default 0%Z (numbered !! value) in
        let '(rest, found) := number_members count (<[value := (n + 1)%Z]> numbered) members in
        (mkMember (numberedName value (n + 1)) (mb_region m) (mb_workers m) :: rest,
         if Z.eqb n 0 then shared_finding value (count value) :: found else found)
  end.

Definition dealTier (workers : list Worker) (capacity : nat) : list member * nat * list Finding :=
  let partitions := by_value (group_by partition_key workers) in
  let dealt := map (partition_members capacity) partitions in
  let members := flat_map fst dealt in
  let '(named, found) := number_members (valuePartitions members) ∅ members in
  (named, length (group_by region workers), (flat_map snd dealt ++ found)%list).

(** The node sets of a tier's members, those without a name numbered by region. *)
Fixpoint name_members (grouper : Grouper) (tier : string) (regions : nat) (numbers : gmap string Z)
    (members : list member) : list NodeSet :=
  match members with
  | [] => []
  | m :: members =>
      let set name := mkNodeSet name (map nodeGroupOf (grouper_Group grouper (mb_workers m))) None in
      if negb (String.eqb (mb_name m) "") then
        set (mb_name m) :: name_members grouper tier regions numbers members
      else
        let n := (default 0 (numbers !! mb_region m) + 1)%Z in
        let base := if Nat.ltb 1 regions then tier ++ "-" ++ mb_region m else tier in
        set (numberedName base n) ::
          name_members grouper tier regions (<[mb_region m := n]> numbers) members
  end.

Definition workers_by_name (workers : list Worker) : gmap string Worker :=
  foldl (fun m w => <[w_Name w := w]> m) ∅ workers.

Definition tier_workers (by_name : gmap string Worker) (tier : NodeSet) : list Worker :=
  omap (fun name => by_name !! name) (flat_map ng_Workers (ns_Groups tier)).

Definition split_tier (by_name : gmap string Worker) (grouper : Grouper) (capacity : nat)
    (tier : NodeSet) : list NodeSet * list Finding :=
  let '(members, regions, found) := dealTier (tier_workers by_name tier) capacity in
  (match members with
   | [m] => if String.eqb (mb_name m) "" then [tier]
            else name_members grouper (ns_Name tier) regions ∅ members
   | _ => name_members grouper (ns_Name tier) regions ∅ members
   end, found).

Definition member_capacity (slots : Z) : nat :=
  Z.to_nat (Z.max 1 (Z.quot maxStorageNodesPerMember (Z.max 1 slots))).

Definition splitMembers (sets : list NodeSet) (workers : list Worker) (grouper : Grouper) (slots : Z)
    : list NodeSet * list Finding :=
  let tiers := map (split_tier (workers_by_name workers) grouper (member_capacity slots)) sets in
  (flat_map fst tiers, flat_map snd tiers).

End Members.


(** ** No worker is dropped *)

Section Laws.

Context `{!Library}.

Lemma hardware_groups_hold gs :
  Forall (fun e : string * list Worker => e.2 <> []) gs ->
  concat (map g_Workers (omap hardware_group gs)) ≡ₚ concat gs.*2.
Proof.
  induction 1 as [|[k ws] gs Hne _ IH]; [done|]. csimpl.
  destruct ws as [|w ws]; [done|]. simpl. by rewrite IH, sort_by_perm.
Qed.

Lemma named_groups_hold (name : nat -> Group -> string) gs :
  map g_Workers (imap (fun i g => with_Name g (name i g)) gs) = map g_Workers gs.
Proof.
  revert name. induction gs as [|g gs IH]; intros name; [done|]. simpl. f_equal.
  apply (IH (fun i => name (S i))).
Qed.

#[export] Instance GroupByHardware_laws : GrouperLaws GroupByHardware.
Proof.
  split. intros workers. simpl. unfold GroupByHardware_Group.
  rewrite named_groups_hold, (concat_map_perm g_Workers _ _ (sort_by_perm _ _)).
  rewrite hardware_groups_hold; [apply group_by_perm|].
  apply Forall_forall. intros [k ws] Hin. by apply group_by_elem in Hin as [_ ?].
Qed.

Lemma nodeGroups_hold gs : flat_map ng_Workers (map nodeGroupOf gs) = map w_Name (concat (map g_Workers gs)).
Proof. induction gs as [|g gs IH]; [done|]. simpl. by rewrite map_app, IH. Qed.

#[export] Instance SingleNodeSet_laws name : BuilderLaws (SingleNodeSet name).
Proof.
  split. intros [|g gs]; [done|]. unfold drafted. cbn -[nodeGroupOf map].
  rewrite app_nil_r. by rewrite nodeGroups_hold.
Qed.

Lemma drafted_app a b : drafted (a ++ b) = (drafted a ++ drafted b)%list.
Proof. apply flat_map_app. Qed.

#[export] Instance drafted_perm : Proper ((≡ₚ) ==> (≡ₚ)) drafted.
Proof. intros a b Hab. by apply Permutation_flat_map. Qed.

(** The groups of a list divided by role hold what the groups did. *)
Lemma split_groups_hold gs :
  concat (map (fun rg => g_Workers rg.2)
    (flat_map (fun g => map (fun rs => (rs.1, with_Workers g rs.2)) (splitWorkersByRole (g_Workers g))) gs))
  ≡ₚ concat (map g_Workers gs).
Proof.
  induction gs as [|g gs IH]; [done|]. simpl. rewrite map_app, concat_app, IH. f_equiv.
  rewrite map_map. simpl. apply (group_by_perm roleOf).
Qed.

Lemma role_sets_hold (name : NodeRole -> string) (rgs : list (NodeRole * list (NodeRole * Group))) :
  drafted (map (fun rg => mkNodeSet (name rg.1) (map (fun g => nodeGroupOf g.2) rg.2) None) rgs) =
  map w_Name (concat (map (fun rg => g_Workers rg.2) (concat rgs.*2))).
Proof.
  induction rgs as [|[r gs] rgs IH]; [done|]. unfold drafted in *. csimpl. rewrite IH.
  rewrite map_app, concat_app, map_app. f_equal. clear.
  induction gs as [|g gs IH]; [done|]. simpl. by rewrite map_app, IH.
Qed.

#[export] Instance SplitByRole_laws name : BuilderLaws (SplitByRole name).
Proof.
  split. intros groups. simpl.
  rewrite (role_sets_hold (fun r => if String.eqb r NodeRoleWorker && negb (String.eqb name "") then name
                                    else NodeSetName r)).
  apply Permutation_map. rewrite <- split_groups_hold.
  apply concat_map_perm. rewrite (concat_map_perm snd _ _ (sort_by_perm _ _)).
  apply group_by_perm.
Qed.

End Laws.

(** ** Dealing *)

Lemma imap_pair_snd {A} (l : list A) : (imap pair l).*2 = l.
Proof.
  rewrite fmap_imap. transitivity (imap (const id) l); [by apply imap_ext|].
  by rewrite imap_const, list_fmap_id.
Qed.

Definition members_of (workers : list Worker) (capacity : nat) : nat :=
  ((length workers + capacity - 1) / capacity)%nat.

Lemma members_of_pos workers capacity : workers <> [] -> (0 < capacity)%nat ->
  (0 < members_of workers capacity)%nat.
Proof.
  intros Hne Hc. destruct workers as [|w ws]; [done|]. unfold members_of. simpl.
  apply Nat.div_str_pos. lia.
Qed.

Lemma deal_eq workers capacity :
  deal workers capacity =
  map (fun i => dealt (members_of workers capacity) i (merge_sort deal_le workers))
    (seq 0 (members_of workers capacity)).
Proof.
  unfold deal, members_of.
  by rewrite (Permutation_length (merge_sort_Permutation deal_le workers)).
Qed.

(** Everyone is dealt once. *)
Lemma dealt_holds count (sorted : list Worker) : (sorted <> [] -> (0 < count)%nat) ->
  concat (map (fun i => dealt count i sorted) (seq 0 count)) ≡ₚ sorted.
Proof.
  intros Hc. transitivity ((imap pair sorted).*2); [|by rewrite imap_pair_snd].
  transitivity ((seq 0 count ≫= fun k =>
    filter (fun ix => Some (ix.1 mod count)%nat = Some k) (imap pair sorted)).*2).
  - apply reflexive_eq. generalize (seq 0 count). intros keys. induction keys as [|k keys IH]; [done|].
    cbn [map concat]. rewrite IH, bind_cons, fmap_app. f_equal. unfold dealt. f_equal. rewrite filter_bool.
    apply filter_ext_in. intros ix _. rewrite Nat.eqb_eq. naive_solver.
  - apply fmap_Permutation. rewrite partition_by.
    + rewrite filter_all; [done|]. naive_solver.
    + apply NoDup_ListNoDup, seq_NoDup.
    + intros ix k Hin [= <-]. apply elem_of_seq.
      assert (0 < count)%nat as Hpos.
      { apply Hc. intros ->. by apply not_elem_of_nil in Hin. }
      assert (Hlt := Nat.mod_upper_bound ix.1 count ltac:(lia)). lia.
Qed.

Lemma deal_holds workers capacity : (0 < capacity)%nat -> concat (deal workers capacity) ≡ₚ workers.
Proof.
  intros Hc. rewrite deal_eq, dealt_holds; [apply merge_sort_Permutation|].
  intros Hne. apply members_of_pos; [|done]. intros ->. done.
Qed.

(** The turns of one member among the first [n]. *)
Definition turns (count i n : nat) : nat := ((n + (count - 1 - i)) / count)%nat.

Lemma turns_S count i n : (i < count)%nat ->
  turns count i (S n) = (turns count i n + if Nat.eqb (n mod count) i then 1 else 0)%nat.
Proof.
  intros Hi. unfold turns. assert (Hq := Nat.div_mod_eq n count).
  assert (Hr := Nat.mod_upper_bound n count ltac:(lia)).
  set (q := (n / count)%nat) in *. set (r := (n mod count)%nat) in *.
  assert (Hu : forall x q' r', (r' < count)%nat -> x = (count * q' + r')%nat -> (x / count)%nat = q')
    by (intros; symmetry; by eapply Nat.div_unique).
  destruct (Nat.eqb_spec r i) as [->|N]; [|destruct (decide (r < i)%nat)].
  - rewrite (Hu _ (q + 1) 0)%nat by lia. rewrite (Hu _ q (count - 1))%nat; lia.
  - rewrite (Hu _ q (r + count - i))%nat by lia. rewrite (Hu _ q (r + count - 1 - i))%nat; lia.
  - rewrite (Hu _ (q + 1) (r - i))%nat by lia. rewrite (Hu _ (q + 1) (r - i - 1))%nat; lia.
Qed.

(** In any run of turns everyone has as many as anyone else, or one more. *)
Lemma turns_fair count i s k : (i < count)%nat ->
  (turns count i s + k / count <= turns count i (s + k) <= turns count i s + k / count + 1)%nat.
Proof.
  intros Hi. unfold turns. set (a := (s + (count - 1 - i))%nat).
  replace (s + k + (count - 1 - i))%nat with (a + k)%nat by lia.
  assert (Ha := Nat.div_mod_eq a count). assert (Hra := Nat.mod_upper_bound a count ltac:(lia)).
  assert (Hk := Nat.div_mod_eq k count). assert (Hrk := Nat.mod_upper_bound k count ltac:(lia)).
  assert (Hs := Nat.div_mod_eq (a + k) count).
  assert (Hrs := Nat.mod_upper_bound (a + k) count ltac:(lia)). nia.
Qed.

Lemma dealt_run count i s (l : list Worker) : (i < count)%nat ->
  (length (List.filter (fun ix => Nat.eqb (ix.1 mod count) i) (imap (fun j x => (s + j, x)%nat) l)) +
   turns count i s = turns count i (s + length l))%nat.
Proof.
  intros Hi. revert s. induction l as [|x l IH]; intros s; [by rewrite Nat.add_0_r|].
  cbn [imap length]. specialize (IH (S s)).
  rewrite (imap_ext _ (fun j x => (S s + j, x)%nat)) by (intros; simpl; f_equal; lia).
  rewrite Nat.add_0_r. rewrite Nat.add_succ_r. rewrite Nat.add_succ_l in IH. rewrite <- IH.
  rewrite turns_S by done. simpl. destruct (Nat.eqb (s mod count) i); simpl; lia.
Qed.

Lemma length_filter_swap (P : Worker -> Prop) `{!forall w, Decision (P w)} (p : nat * Worker -> bool) l :
  length (filter P (List.filter p l).*2) = length (List.filter p (filter (fun ix => P ix.2) l)).
Proof.
  induction l as [|[j x] l IH]; [done|]. rewrite (filter_cons (fun ix => P ix.2)). simpl.
  destruct (p (j, x)) eqn:E; [csimpl; rewrite filter_cons|];
    destruct (decide (P x)); simpl; rewrite ?E; simpl; by rewrite ?IH.
Qed.

(** Of a run of the order of dealing, every member has its turns. *)
Lemma dealt_block count i (P : Worker -> Prop) `{!forall w, Decision (P w)} below block above :
  (i < count)%nat -> (forall w, w ∈ below -> ~ P w) -> (forall w, w ∈ block -> P w) ->
  (forall w, w ∈ above -> ~ P w) ->
  (length (filter P (dealt count i (below ++ block ++ above))) + turns count i (length below) =
   turns count i (length below + length block))%nat.
Proof.
  intros Hi Hb Hm Ha. rewrite <- dealt_run by done. f_equal. unfold dealt.
  rewrite (length_filter_swap P). f_equal. rewrite !imap_app, !filter_app.
  rewrite (filter_none _ (imap pair below)), (filter_all _ (imap _ block)), (filter_none _ (imap _ above)).
  - by rewrite app_nil_r.
  - intros [j w] (k & y & [= -> ->] & Hy)%elem_of_lookup_imap. apply Ha. by eapply list_elem_of_lookup_2.
  - intros [j w] (k & y & [= -> ->] & Hy)%elem_of_lookup_imap. apply Hm. by eapply list_elem_of_lookup_2.
  - intros [j w] (k & y & [= -> ->] & Hy)%elem_of_lookup_imap. apply Hb. by eapply list_elem_of_lookup_2.
Qed.

#[export] Instance deal_le_trans : Transitive deal_le.
Proof.
  intros a b c. unfold deal_le. intros H1 H2. repeat case_decide; try congruence.
  - by etrans.
  - destruct (anti_symm String.le (w_FailureDomain a) (w_FailureDomain b)); congruence.
  - by etrans.
Qed.

#[export] Instance deal_le_total : Total deal_le.
Proof.
  intros a b. unfold deal_le. repeat case_decide; try congruence; apply (total String.le).
Qed.

Lemma deal_order workers :
  StronglySorted (fun a b => String.le (w_FailureDomain a) (w_FailureDomain b)) (merge_sort deal_le workers).
Proof.
  eapply sorted_weaken; [|apply (StronglySorted_merge_sort deal_le); apply _].
  intros a b. unfold deal_le. case_decide as E; [|done]. rewrite E. intros _. by apply (reflexivity (R := String.le)).
Qed.

Definition in_domain (domain : string) (workers : list Worker) : nat :=
  length (filter (fun w => w_FailureDomain w = domain) workers).

Lemma deal_elem workers capacity m : m ∈ deal workers capacity ->
  exists i, (i < members_of workers capacity)%nat /\
    m = dealt (members_of workers capacity) i (merge_sort deal_le workers).
Proof.
  rewrite deal_eq, map_elem. intros (i & -> & Hi%elem_of_seq). exists i. split; [lia|done].
Qed.

(** How many a member has, of all the workers and of a domain. *)
Lemma dealt_size count i l : (i < count)%nat -> length (dealt count i l) = turns count i (length l).
Proof.
  intros Hi. unfold dealt. rewrite length_fmap.
  rewrite (imap_ext pair (fun j x => (0 + j, x)%nat)) by done.
  assert (H0 := dealt_run count i 0 l Hi). simpl in *.
  assert (turns count i 0 = 0)%nat by (apply Nat.div_small; lia). lia.
Qed.

Lemma dealt_domain count i domain workers : (i < count)%nat -> exists s,
  (in_domain domain (dealt count i (merge_sort deal_le workers)) + turns count i s =
   turns count i (s + in_domain domain (merge_sort deal_le workers)))%nat.
Proof.
  intros Hi. destruct (sorted_block String.le w_FailureDomain domain _ (deal_order workers))
    as (below & above & Hl & Hb & Ha). exists (length below). unfold in_domain. rewrite Hl at 1.
  apply dealt_block; try done. by intros w [? _]%list_elem_of_filter.
Qed.

(** [deal] splits a partition into the fewest members the limit allows: every worker
    is dealt to one, none is empty or above the limit, two differ by at most one worker,
    and no failure domain has two more workers in one than in another. *)
Theorem deal_balanced workers capacity (Hc : (0 < capacity)%nat) :
  concat (deal workers capacity) ≡ₚ workers /\
  (workers <> [] -> (length (deal workers capacity) - 1) * capacity < length workers)%nat /\
  (forall m, m ∈ deal workers capacity -> 0 < length m <= capacity)%nat /\
  (forall m m', m ∈ deal workers capacity -> m' ∈ deal workers capacity ->
     length m <= length m' + 1 /\ forall domain, in_domain domain m <= in_domain domain m' + 1)%nat.
Proof.
  split; [by apply deal_holds|]. rewrite !deal_eq at 1. rewrite length_map, length_seq.
  set (count := members_of workers capacity).
  assert (Hlen := Permutation_length (merge_sort_Permutation deal_le workers)).
  assert (Hd := Nat.div_mod_eq (length workers + capacity - 1) capacity).
  assert (Hr := Nat.mod_upper_bound (length workers + capacity - 1) capacity ltac:(lia)).
  change ((length workers + capacity - 1) / capacity)%nat with count in Hd. split_and!.
  - intros Hne. assert (0 < length workers)%nat by (destruct workers; [done|simpl; lia]).
    rewrite Nat.mul_sub_distr_r, (Nat.mul_comm count). lia.
  - intros m (i & Hi & ->)%deal_elem. fold count in Hi |- *. rewrite dealt_size, Hlen by done.
    unfold turns. split.
    + apply Nat.div_str_pos. nia.
    + apply Nat.lt_succ_r, Nat.Div0.div_lt_upper_bound. nia.
  - intros m m' (i & Hi & ->)%deal_elem (j & Hj & ->)%deal_elem. fold count in Hi, Hj |- *.
    rewrite !dealt_size by done. split.
    + assert (Hfi := turns_fair count i 0 (length (merge_sort deal_le workers)) Hi).
      assert (Hfj := turns_fair count j 0 (length (merge_sort deal_le workers)) Hj).
      assert (forall k, k < count -> turns count k 0 = 0)%nat as H0 by (intros; apply Nat.div_small; lia).
      rewrite !H0 in * by done. simpl in *. lia.
    + intros domain. destruct (dealt_domain count i domain workers Hi) as [s Hs].
      destruct (dealt_domain count j domain workers Hj) as [t Ht].
      assert (Hfi := turns_fair count i s (in_domain domain (merge_sort deal_le workers)) Hi).
      assert (Hfj := turns_fair count j t (in_domain domain (merge_sort deal_le workers)) Hj). lia.
Qed.

(** ** Members *)

Section Split.

Context `{!Library} `{!Text}.

Lemma by_value_holds {A} (l : list (string * list A)) : concat (by_value l).*2 ≡ₚ concat l.*2.
Proof. apply (concat_map_perm snd), sort_by_perm. Qed.

Lemma partition_members_hold capacity e : (0 < capacity)%nat ->
  concat (map mb_workers (partition_members capacity e).1) ≡ₚ e.2.
Proof.
  intros Hc. unfold partition_members. destruct (placementGroupsOf e.2) as [[labeled unlabeled] found] eqn:E.
  unfold placementGroupsOf in E. simplify_eq. cbn [fst]. rewrite map_app, concat_app, map_map. cbn [mb_workers].
  rewrite <- (filter_split valued e.2) at 3. apply Permutation_app.
  - etrans; [apply by_value_holds|]. apply group_by_perm.
  - destruct (List.filter (fun w => negb (valued w)) e.2) as [|w ws] eqn:E; [done|]. rewrite <- E.
    rewrite map_map. cbn [mb_workers]. rewrite map_id. by apply deal_holds.
Qed.

Lemma number_members_hold count numbered members :
  map mb_workers (number_members count numbered members).1 = map mb_workers members.
Proof.
  revert numbered. induction members as [|m members IH]; intros numbered; [done|]. cbn [number_members].
  case_match; [|specialize (IH (<[mb_name m := (default 0%Z (numbered !! mb_name m) + 1)%Z]> numbered))];
    [specialize (IH numbered)|]; destruct (number_members _ _ _); simpl in *; by f_equal.
Qed.

Lemma dealTier_holds workers capacity : (0 < capacity)%nat ->
  concat (map mb_workers (dealTier workers capacity).1.1) ≡ₚ workers.
Proof.
  intros Hc. unfold dealTier. set (members := flat_map fst _).
  assert (Hm := number_members_hold (valuePartitions members) ∅ members).
  destruct (number_members _ _ _) as [named found]. simpl in *. rewrite Hm. unfold members.
  rewrite flat_map_concat_map, concat_map, map_map, map_map.
  transitivity (concat (by_value (group_by partition_key workers)).*2).
  - generalize (by_value (group_by partition_key workers)). intros l.
    induction l as [|e l IH]; [done|]. simpl. rewrite concat_app.
    apply Permutation_app; [by apply partition_members_hold|done].
  - etrans; [apply by_value_holds|]. apply group_by_perm.
Qed.

Lemma name_members_hold grouper `{!GrouperLaws grouper} tier regions numbers members :
  drafted (name_members grouper tier regions numbers members) ≡ₚ
  map w_Name (concat (map mb_workers members)).
Proof.
  revert numbers. induction members as [|m members IH]; intros numbers; [done|].
  assert (Hset : forall name rest, drafted rest ≡ₚ map w_Name (concat (map mb_workers members)) ->
    drafted (mkNodeSet name (map nodeGroupOf (grouper_Group grouper (mb_workers m))) None :: rest) ≡ₚ
    map w_Name (concat (map mb_workers (m :: members)))).
  { intros name rest Hr. unfold drafted. cbn [flat_map ns_Groups]. rewrite nodeGroups_hold.
    cbn [map concat]. rewrite map_app. apply Permutation_app; [|done].
    apply Permutation_map, grouper_holds. }
  cbn [name_members]. case_match; apply Hset, IH.
Qed.

Lemma workers_by_name_lookup workers name w : workers_by_name workers !! name = Some w ->
  w ∈ workers /\ w_Name w = name.
Proof.
  unfold workers_by_name. induction workers as [|v workers IH] using rev_ind; [done|].
  rewrite foldl_app. simpl. intros [[<- <-]|[N Hl]]%lookup_insert_Some.
  - split; [|done]. apply elem_of_app. right. by left.
  - destruct (IH Hl). split; [|done]. apply elem_of_app. by left.
Qed.

Lemma workers_by_name_known workers name : name ∈ map w_Name workers ->
  is_Some (workers_by_name workers !! name).
Proof.
  unfold workers_by_name. induction workers as [|v workers IH] using rev_ind; [by intros ?%not_elem_of_nil|].
  rewrite foldl_app, map_app, elem_of_app. simpl. rewrite list_elem_of_singleton.
  intros Hin. destruct (decide (w_Name v = name)) as [<-|N]; [by rewrite lookup_insert_eq|].
  rewrite lookup_insert_ne by done. apply IH. destruct Hin; [done|congruence].
Qed.

Lemma tier_workers_names workers tier :
  (forall name, name ∈ flat_map ng_Workers (ns_Groups tier) -> name ∈ map w_Name workers) ->
  map w_Name (tier_workers (workers_by_name workers) tier) = flat_map ng_Workers (ns_Groups tier).
Proof.
  unfold tier_workers. generalize (flat_map ng_Workers (ns_Groups tier)). intros names.
  induction names as [|name names IH]; intros Hk; [done|]. csimpl.
  destruct (workers_by_name_known workers name) as [w Hw]; [apply Hk; by left|]. rewrite Hw. simpl.
  apply workers_by_name_lookup in Hw as [_ ->]. f_equal. apply IH. intros n Hn. apply Hk. by right.
Qed.

Lemma split_tier_holds workers grouper `{!GrouperLaws grouper} capacity tier : (0 < capacity)%nat ->
  (forall name, name ∈ flat_map ng_Workers (ns_Groups tier) -> name ∈ map w_Name workers) ->
  drafted (split_tier (workers_by_name workers) grouper capacity tier).1 ≡ₚ
  flat_map ng_Workers (ns_Groups tier).
Proof.
  intros Hc Hk. unfold split_tier.
  assert (Hd := dealTier_holds (tier_workers (workers_by_name workers) tier) capacity Hc).
  destruct (dealTier _ _) as [[members regions] found]. simpl in *.
  assert (Hn : forall numbers, drafted (name_members grouper (ns_Name tier) regions numbers members) ≡ₚ
    flat_map ng_Workers (ns_Groups tier)).
  { intros numbers. rewrite name_members_hold by done.
    rewrite <- (tier_workers_names workers tier Hk). by apply Permutation_map. }
  destruct members as [|m [|m' ms]]; [apply Hn| |apply Hn].
  case_match; [|apply Hn]. unfold drafted. simpl. by rewrite app_nil_r.
Qed.

Lemma member_capacity_pos slots : (0 < member_capacity slots)%nat.
Proof. unfold member_capacity. lia. Qed.

(** The split drafts the workers the builder did. *)
Lemma splitMembers_holds sets workers grouper `{!GrouperLaws grouper} slots :
  (forall name, name ∈ drafted sets -> name ∈ map w_Name workers) ->
  drafted (splitMembers sets workers grouper slots).1 ≡ₚ drafted sets.
Proof.
  unfold splitMembers. cbn [fst]. induction sets as [|tier sets IH]; intros Hk; [done|].
  cbn [map flat_map]. rewrite drafted_app, IH by (intros n Hn; apply Hk; unfold drafted; simpl; apply elem_of_app; by right).
  unfold drafted at 2. cbn [flat_map]. apply Permutation_app; [|done].
  apply split_tier_holds; [done|apply member_capacity_pos|].
  intros n Hn. apply Hk. unfold drafted. simpl. apply elem_of_app. by left.
Qed.

End Split.

(** ** What a group says of its workers *)

Section Described.

Context `{!Library}.

Definition selection_of (w : Worker) : option DeviceSelection :=
  match Addresses w with
  | [] => None
  | addresses => if String.eqb (w_Class w) ClassBlock then Some (mkDevices [] addresses)
                 else Some (mkDevices addresses [])
  end.

(** The group states of the worker what is true of it. *)
Definition described (g : NodeGroup) (w : Worker) : Prop :=
  ng_MgmtInterface g = m_Name (w_Mgmt w) /\ ng_DataInterfaces g = w_Data w /\
  ng_NetworkAttachment g = w_Attachment w /\ ng_FailureDomain g = w_FailureDomain w /\
  ng_Devices g = selection_of w.

(** What two workers agree on to be described by one group. *)
Definition alike (a b : Worker) : Prop :=
  w_Class a = w_Class b /\ Addresses a = Addresses b /\ m_Name (w_Mgmt a) = m_Name (w_Mgmt b) /\
  w_Data a = w_Data b /\ w_Attachment a = w_Attachment b /\ w_FailureDomain a = w_FailureDomain b.

(** Nothing a group is keyed by holds what its parts are joined with. *)
Definition plain (s : string) : Prop := free_of "000" s.
Definition clean (w : Worker) : Prop :=
  plain (w_Class w) /\ Forall plain (Addresses w) /\ plain (m_Name (w_Mgmt w)) /\
  Forall (fun name => plain name /\ free_of "," name /\ name <> "") (w_Data w) /\
  plain (w_FailureDomain w) /\
  match w_Attachment w with Some a => plain (at_Management a) | None => True end.

Definition digested (w : Worker) : string :=
  signature_text (w_Class w) (Addresses w) (m_Name (w_Mgmt w)) (w_Data w).

(** A digest is hexadecimal, and no two of the workers' have the same one by chance. *)
Definition digests (workers : list Worker) : Prop :=
  (forall s, plain (sha256_hex s)) /\
  forall a b, a ∈ workers -> b ∈ workers ->
    sha256_hex (digested a) = sha256_hex (digested b) -> digested a = digested b.

Lemma free_of_app sep a b : free_of sep (a ++ b) <-> free_of sep a /\ free_of sep b.
Proof. unfold free_of. rewrite to_bytes_app. set_solver. Qed.

Lemma free_of_Join sep c parts : sep <> c -> Forall (free_of sep) parts -> free_of sep (Join parts c).
Proof.
  intros N Hp. unfold free_of, Join. rewrite to_of_bytes. induction Hp as [|p ps Hp Hps IH].
  - apply not_elem_of_nil.
  - destruct ps as [|q ps]; [done|].
    change (join_on c (to_bytes <$> p :: q :: ps)) with (to_bytes p ++ c :: join_on c (to_bytes <$> q :: ps))%list.
    rewrite elem_of_app, elem_of_cons. intros [?|[?|?]]; [by apply Hp|done|by apply IH].
Qed.

Lemma Addresses_nonempty w : Forall (fun a => a <> "") (Addresses w).
Proof.
  unfold Addresses. apply Forall_forall. intros a. rewrite sort_strings_elem.
  generalize (@nil string) at 1. generalize (map (Address (w_Class w)) (w_Devices w)). intros l.
  assert (Hin : forall seen k, a ∈ distinct seen k -> a ∈ k).
  { intros seen k. revert seen. induction k as [|x k IH]; intros seen; simpl; [done|].
    case_match; rewrite ?elem_of_cons; naive_solver. }
  intros seen Ha. apply Hin, filter_elem in Ha as [_ Ha].
  intros ->. done.
Qed.

Lemma clean_signature a b : clean a -> clean b ->
  (forall s, plain (sha256_hex s)) ->
  (sha256_hex (digested a) = sha256_hex (digested b) -> digested a = digested b) ->
  worker_signature a = worker_signature b -> alike a b.
Proof.
  intros (Ca & Aa & Ma & Da & Fa & Ta) (Cb & Ab & Mb & Db & Fb & Tb) Hhex Hinj E.
  unfold worker_signature in E. apply cut_inj in E as [Ed E]; [|apply Hhex..].
  apply cut_inj in E as [Ef Et]; [|done..]. apply Hinj in Ed. unfold digested, signature_text in Ed.
  apply cut_inj in Ed as [Ec Ed]; [|done..]. apply cut_inj in Ed as [Em Ed]; [|done..].
  assert (Hjoin : forall l, Forall (fun name => plain name /\ free_of "," name /\ name <> "") l ->
    free_of "000" (Join l ",") /\ Forall (fun s => free_of "," s /\ s <> EmptyString) l).
  { intros l Hl. split; [apply free_of_Join; [done|]|];
      (eapply Forall_impl; [exact Hl|]; by intros ? (? & ? & ?)). }
  apply cut_inj in Ed as [EDa EA]; [|by apply Hjoin..].
  apply Join_inj in EDa; [|by apply Hjoin..].
  apply Join_inj in EA; [| |].
  - repeat split; try done. destruct (w_Attachment a) as [[m d]|], (w_Attachment b) as [[m' d']|];
      unfold attachmentSignature in Et; simpl in *; try done.
    + by apply cut_inj in Et as [-> ->].
    + by destruct m.
    + by destruct m'.
  - apply Forall_and; split; [done|apply Addresses_nonempty].
  - apply Forall_and; split; [done|apply Addresses_nonempty].
Qed.

Lemma hardware_group_elem workers g : g ∈ GroupByHardware_Group workers ->
  exists name v vs, v ∈ vs /\ vs = filter (fun x => worker_signature x = worker_signature v) workers /\
    g = mkGroup name (sort_by worker_key vs) (w_Class v) (Addresses v) (m_Name (w_Mgmt v)) (w_Data v)
          (w_Attachment v) (w_FailureDomain v).
Proof.
  unfold GroupByHardware_Group. intros (i & g0 & -> & Hg)%elem_of_lookup_imap.
  apply list_elem_of_lookup_2, sort_by_elem, list_elem_of_omap in Hg as ([k vs] & Hin & Hg).
  apply group_by_elem in Hin as [Hvs Hne]. unfold hardware_group in Hg. simpl in Hg.
  destruct vs as [|v vs]; [done|]. simplify_eq. exists (groupName i (mkGroup "" (sort_by worker_key (v :: vs))
    (w_Class v) (Addresses v) (m_Name (w_Mgmt v)) (w_Data v) (w_Attachment v) (w_FailureDomain v))), v, (v :: vs).
  split; [by left|]. split; [|done]. rewrite Hvs. apply filter_ext_in. intros x _.
  assert (Hv : v ∈ filter (fun x => worker_signature x = k) workers) by (rewrite <- Hvs; by left).
  apply list_elem_of_filter in Hv as [-> _]. done.
Qed.

Lemma alike_signature a b : alike a b -> worker_signature a = worker_signature b.
Proof.
  intros (E1 & E2 & E3 & E4 & E5 & E6). unfold worker_signature, signature. by rewrite E1, E2, E3, E4, E5, E6.
Qed.

(** Every group of [GroupByHardware] is true of each worker it holds: its devices, its
    interfaces, its attachment and its failure domain are the worker's own, as long as no
    two digests collide; and a worker is in a group with every other it agrees with on all
    of that. *)
Theorem groups_describe_workers workers (Hclean : Forall clean workers) (Hd : digests workers) :
  (forall g w, g ∈ GroupByHardware_Group workers -> w ∈ g_Workers g ->
     w ∈ workers /\ described (nodeGroupOf g) w) /\
  (forall g w w', g ∈ GroupByHardware_Group workers -> w ∈ g_Workers g -> w' ∈ workers ->
     alike w w' -> w' ∈ g_Workers g).
Proof.
  destruct Hd as [Hhex Hinj]. rewrite Forall_forall in Hclean. split.
  - intros g w (name & v & vs & Hv & Hvs & ->)%hardware_group_elem Hw. simpl in Hw.
    apply sort_by_elem in Hw. rewrite Hvs in Hv, Hw.
    apply list_elem_of_filter in Hv as [_ Hv], Hw as [E Hw]. split; [done|].
    assert (alike v w) as (E1 & E2 & E3 & E4 & E5 & E6)
      by (apply clean_signature; [by apply Hclean..|done|by apply Hinj|done]).
    unfold described, selection_of. simpl. by rewrite E1, E2, E3, E4, E5, E6.
  - intros g w w' (name & v & vs & Hv & Hvs & ->)%hardware_group_elem Hw Hw' Ha%alike_signature.
    simpl in *. apply sort_by_elem in Hw. apply sort_by_elem. rewrite Hvs in Hw |- *.
    apply list_elem_of_filter in Hw as [E Hw]. apply list_elem_of_filter. by rewrite <- Ha.
Qed.

End Described.

(** ** A fleet *)

Module Fleet.

(** A digest that can be computed: the bytes in hexadecimal. *)
Definition hex (z : Z) : ascii := ascii_of_N (Z.to_N (if (z <? 10)%Z then 48 + z else 87 + z)).
#[export] Instance plain_library : Library := {|
  sha256_hex := fun s => of_bytes (flat_map (fun c => [hex (code c / 16); hex (code c mod 16)]) (to_bytes s));
  IsDNS1123Label := fun s => if String.eqb s "" then ["empty"] else [];
  IsDNS1123Subdomain := fun s => if String.eqb s "" then ["empty"] else [];
  IsQualifiedName := fun s => if String.eqb s "" then ["empty"] else [];
  IsValidLabelValue := fun _ => [];
|}.

Definition disk (name pci : string) (numa bytes : Z) (nqn : string) (available : bool) : Device :=
  mkDevice name ("/dev/" ++ name) "" pci bytes KindDisk TransportNVMe "model" numa nqn available ContentBlank
    (if available then [] else [mkRejection "Mounted" ""]).

Definition nic (name address : string) (speed : Z) : Interface :=
  mkInterface name speed 9000 "up" "mlx5_core" "" 0 false false false false LinkPhysical [] [address].

Definition report (node address : string) (devices : list Device) : Report :=
  mkReport node [mkCPUs 0 [0; 1; 2; 3; 4; 5; 6; 7] 4; mkCPUs 1 [8; 9; 10; 11; 12; 13; 14; 15] 4]%Z []
    [nic "eth0" (address ++ "/24") 1000; nic "eth1" ("10.1" ++ address ++ "/16") 25000] devices
    (mkHostOS "ubuntu" "debian" (mkKernel "6.8" "" "")) [] None [].

Definition TiB : Z := (2 ^ 40)%Z.
Definition two_disks : list Device :=
  [disk "nvme0n1" "0000:5e:00.0" 0 TiB "" true; disk "nvme1n1" "0000:5f:00.0" 0 TiB "" true].

Definition worker (name domain region group : string) : Worker :=
  mkWorker name (report name "10.0.0.1" two_disks) two_disks ClassNVMe ""
    (mkKube "" NodeRoleWorker (<[LabelTopologyRegion := region]> (<[PlacementGroupLabel := group]> ∅)))
    (mkManagement "eth0" LinkPhysical [] 1000 0 "") [] None domain.

Definition three : list Worker := [worker "a" "r1" "" ""; worker "b" "r2" "" ""; worker "c" "r1" "" ""].

End Fleet.

#[local] Existing Instance Sizes.ascii_text.
#[local] Existing Instance Fleet.plain_library.

Lemma deal_balanced_witness :
  concat (deal Fleet.three 2) ≡ₚ Fleet.three /\
  (Fleet.three <> [] -> (length (deal Fleet.three 2) - 1) * 2 < length Fleet.three)%nat /\
  (forall m, m ∈ deal Fleet.three 2 -> 0 < length m <= 2)%nat /\
  (forall m m', m ∈ deal Fleet.three 2 -> m' ∈ deal Fleet.three 2 ->
     length m <= length m' + 1 /\ forall domain, in_domain domain m <= in_domain domain m' + 1)%nat.
Proof. apply (deal_balanced Fleet.three 2). lia. Defined.

Lemma hexadecimal_plain s : plain (sha256_hex s).
Proof.
  unfold plain, free_of. simpl. rewrite to_of_bytes. rewrite flat_map_elem.
  intros (c & Hin & _). destruct c as [[] [] [] [] [] [] [] []]; revert Hin; vm_compute;
    intros Hin; repeat (apply elem_of_cons in Hin as [Hin|Hin]; [done|]); by apply not_elem_of_nil in Hin.
Qed.

Lemma groups_describe_workers_witness :
  (forall g w, g ∈ GroupByHardware_Group Fleet.three -> w ∈ g_Workers g ->
     w ∈ Fleet.three /\ described (nodeGroupOf g) w) /\
  (forall g w w', g ∈ GroupByHardware_Group Fleet.three -> w ∈ g_Workers g -> w' ∈ Fleet.three ->
     alike w w' -> w' ∈ g_Workers g).
Proof.
  apply (groups_describe_workers Fleet.three).
  - repeat constructor; apply contains_false; vm_compute; reflexivity.
  - split; [apply hexadecimal_plain|]. intros a b Ha Hb _.
    repeat (apply elem_of_cons in Ha as [->|Ha]); [..|by apply not_elem_of_nil in Ha];
      repeat (apply elem_of_cons in Hb as [->|Hb]); try reflexivity; by apply not_elem_of_nil in Hb.
Defined.

(** ** Names that collide *)

(** Two regions whose names differ past what fits share the name of a node set. *)
Lemma regions_share_a_name :
  let workers := [Fleet.worker "a" "" "eu-central-1" ""; Fleet.worker "b" "" "eu-central-2" ""] in
  map ns_Name (splitMembers (builder_Build (SplitByRole "") (GroupByHardware_Group workers)) workers
    GroupByHardware 0).1 = ["discovered-eu-central-1"; "discovered-eu-central-1"].
Proof. eval_eq. Qed.

(** A placement group named as a numbered member is shares its name. *)
Lemma placement_group_shares_a_name :
  let workers := [Fleet.worker "a" "" "" "discovered-1"; Fleet.worker "b" "" "" ""] in
  map ns_Name (splitMembers (builder_Build (SplitByRole "") (GroupByHardware_Group workers)) workers
    GroupByHardware 0).1 = ["discovered-1"; "discovered-1"].
Proof. eval_eq. Qed.

End DiscoveryGroups.
