(* ===== verification/DiscoveryPlan.v ===== *)
(** The draft of a discovery run: [plan.go], [failuredomain.go] and [kernel.go] of
    [operator/internal/discovery].

    [Planner] is the record of seams the code has, each with its default;
    [Plan_of] is [Planner.Plan]. *)

From Stdlib Require Import Ascii String.
From S2P Require Import Prelude.
From S2P Require Import GoStrings.
From S2P Require Import Net.
From S2P Require Import Discovery.
From S2P Require Import DiscoveryNet.
From S2P Require Import Documents.
From S2P Require Import Kube.
From S2P Require Import DiscoveryGroups.

#[local] Open Scope string_scope.

Module DiscoveryPlan.

Import Net Discovery DiscoveryNet Documents DiscoveryGroups.

Section Plans.

Context `{!Library} `{!Text}.

(** ** Failure domains ([failuredomain.go]) and kernels ([kernel.go]) *)

Definition maxFailureDomainLength : Z := 63.

Definition alnum (a : ascii) : bool :=
  in_range 48 57 (code a) || in_range 65 90 (code a) || in_range 97 122 (code a).

(** [failureDomainPattern]. *)
Definition failureDomainPattern (s : string) : bool :=
  match to_bytes s with
  | [] => false
  | first :: rest =>
      alnum first && forallb (fun a => alnum a || contains [45; 95; 46]%Z (code a)) rest &&
      alnum (default first (last rest))
  end.

Definition failureDomainLabelOf (run : option DiscoverSpec) : string :=
  match run with
  | Some run => if negb (String.eqb (FailureDomainLabel run) "") then FailureDomainLabel run
                else LabelTopologyZone
  | None => LabelTopologyZone
  end.

Inductive domain_verdict := Unlabeled | Invalid | Domain (value : string).

Definition domain_of (key : string) (w : Worker) : domain_verdict :=
  let value := label (w_Kube w) key in
  if String.eqb value "" then Unlabeled
  else if (maxFailureDomainLength <? Z.of_nat (String.length value))%Z ||
          negb (failureDomainPattern value) then Invalid
  else Domain value.

Definition assign_domain (key : string) (w : Worker) : Worker :=
  match domain_of key w with Domain value => with_FailureDomain w value | _ => w end.

Definition domain_finding (key : string) (w : Worker) : Finding :=
  mkFinding FailureDomainInvalid
    ("worker " ++ w_Name w ++ " carries " ++ key ++ "=" ++ Quote (label (w_Kube w) key) ++
     ", which is not a failure domain (at most " ++ Itoa maxFailureDomainLength ++
     " letters, digits, '-', '_', or '.', starting and ending with a letter or digit), so it has " ++
     "none in the draft").

Definition topology_finding (key : string) (unlabeled : list Worker) : Finding :=
  let n := length unlabeled in
  mkFinding TopologyIncomplete
    (String.concat ", " (map w_Name unlabeled) ++ " " ++ plural n "carries" "carry" ++ " no " ++ key ++
     " label while other workers do, so the draft gives " ++ plural n "it" "them" ++
     " no failure domain and does not enable failure domains: label " ++ plural n "it" "them" ++
     " and run discovery again").

Definition verdict_is (v : domain_verdict) (key : string) (w : Worker) : bool :=
  match domain_of key w, v with
  | Unlabeled, Unlabeled => true
  | Invalid, Invalid => true
  | Domain _, Domain _ => true
  | _, _ => false
  end.

(** The workers with their domains, what is reported, and whether all have one. *)
Definition assignFailureDomains (key : string) (workers : list Worker)
    : list Worker * list Finding * bool :=
  let unlabeled := List.filter (verdict_is Unlabeled key) workers in
  let invalid := List.filter (verdict_is Invalid key) workers in
  let labeled := (length workers - length unlabeled - length invalid)%nat in
  (map (assign_domain key) workers,
   (map (domain_finding key) invalid ++
    (if Nat.ltb 0 labeled && nonempty unlabeled then [topology_finding key unlabeled] else []))%list,
   nonempty workers && Nat.eqb labeled (length workers)).

Definition MultipathNotBuilt : string := "NotBuilt".
Definition MultipathDisabled : string := "Disabled".

Definition multipath_finding (w : Worker) : option Finding :=
  let kernel := os_Kernel (r_HostOS (w_Report w)) in
  if String.eqb (k_MultipathState kernel) MultipathNotBuilt then
    Some (mkFinding NVMeMultipathUnavailable
      (w_Name w ++ " boots kernel " ++ k_Release kernel ++
       ", which is built without CONFIG_NVME_MULTIPATH (" ++ k_MultipathDetail kernel ++
       "): it hosts a storage node, and it cannot mount a volume over more than one path, so a " ++
       "workload with volumes needs a node on another kernel"))
  else if String.eqb (k_MultipathState kernel) MultipathDisabled then
    Some (mkFinding NVMeMultipathUnavailable
      (w_Name w ++ " boots kernel " ++ k_Release kernel ++
       " with native NVMe multipath switched off (" ++ k_MultipathDetail kernel ++
       "): it hosts a storage node, and it mounts a volume over more than one path only after a " ++
       "reboot without nvme_core.multipath=N"))
  else None.

Definition noteMultipath (workers : list Worker) : list Finding := omap multipath_finding workers.

(** ** The plan ([plan.go]) *)

Record Planner := mkPlanner {
  DeviceRules : option (list DeviceRule);
  WorkerRules : option (list WorkerRule);
  pl_Placement : option Placement;
  pl_Grouper : option Grouper;
  pl_NodeSetBuilder : option NodeSetBuilder;
  pl_KubeNodes : gmap string KubeNode;
  SlotsPerWorker : Z;
}.

Record Plan := mkPlan {
  p_NodeSets : list NodeSet;
  p_Class : DeviceClass;
  p_Workers : list Worker;
  p_Refusals : list Refusal;
  p_Unattached : bool;
  p_DataNetworks : Z;
  p_Findings : list Finding;
  p_FailureDomains : bool;
}.

(** The devices of a report, with those of the controllers nothing presents. *)
Definition offered (class : DeviceClass) (report : Report) : Report :=
  with_Devices report (r_Devices report ++ claimableControllers report class)%list.

Definition worker_refusal (report : Report) (rule why : string) : Refusal :=
  mkRefusal (r_Node report) "" rule why false.

(** The admitted devices the placement did not take. *)
Definition left_behind (report : Report) (placement : Placement) (why : string)
    (admitted chosen : list Device) : list Refusal :=
  map (fun d => mkRefusal (r_Node report) (d_Name d) (placement_Name placement) why false)
    (List.filter (fun d => negb (existsb (fun c => String.eqb (d_Name c) (d_Name d)) chosen)) admitted).

(** One turn of the loop over the reports: what it refuses, and the worker it keeps. *)
Definition inspect (class : DeviceClass) (rules : list DeviceRule) (workerRules : list WorkerRule)
    (placement : Placement) (kubes : gmap string KubeNode) (attachment : option Attachment)
    (report : Report) : list Refusal * option Worker :=
  let report := offered class report in
  let '(admitted, refusals) := admitDevices report rules in
  let '(refused, why) := refuseWorker report admitted workerRules in
  if negb (String.eqb refused "") then
    ((refusals ++ [worker_refusal report refused why])%list, None)
  else
    match match attachment with
          | Some a => AdmitAttachment report a
          | None => takes
          end with
    | (false, why) => ((refusals ++ [worker_refusal report NetworkAttachmentRule why])%list, None)
    | (true, _) =>
        let '(chosen, why) := Choose placement report admitted in
        match chosen with
        | [] => ((refusals ++ [worker_refusal report (placement_Name placement) why])%list, None)
        | _ =>
            let kube := default no_kube (kubes !! r_Node report) in
            let '(mgmt, data) :=
              match attachment with
              | None => Planes report (kn_InternalIP kube)
              | Some _ => (mkManagement "" "" [] 0 0 "", [])
              end in
            ((refusals ++ left_behind report placement why admitted chosen)%list,
             Some (mkWorker (r_Node report) report chosen class why kube mgmt data attachment ""))
        end
    end.

(** The number of data interfaces held by most of the workers, the larger of a tie. *)
Definition more_common (a b : nat * nat) : nat * nat :=
  if Nat.ltb a.2 b.2 || (Nat.eqb a.2 b.2 && Nat.ltb a.1 b.1) then b else a.
Definition commonDataInterfaceCount (workers : list Worker) : Z :=
  Z.of_nat (foldl more_common (O, O)
    (map (fun g => (g.1, length g.2)) (group_by (fun w => length (w_Data w)) workers))).1.

Definition report_key (r : Report) : list Z * string := ([], r_Node r).

(** What the loop makes of the reports, before the networks are aligned. *)
Definition inspect_all (p : Planner) (reports : list Report) (run : option DiscoverSpec)
    : list (list Refusal * option Worker) :=
  map (inspect (ClassOf run) (default (BasicDeviceRules run) (DeviceRules p))
         (default [WorkerHasDevices] (WorkerRules p))
         (default MostAvailableNUMANode (pl_Placement p)) (pl_KubeNodes p)
         (NetworkingOf run reports).1)
    (sort_by report_key reports).

(** [Planner.Plan]. *)
Definition Plan_of (p : Planner) (reports : list Report) (run : option DiscoverSpec) : Plan :=
  let class := ClassOf run in
  let grouper := default GroupByHardware (pl_Grouper p) in
  let builder := default (SplitByRole "") (pl_NodeSetBuilder p) in
  let inspected := inspect_all p reports run in
  let '(aligned, misaligned) := alignNetworks (omap snd inspected) in
  let '(workers, domainFindings, domains) := assignFailureDomains (failureDomainLabelOf run) aligned in
  let findings := ((NetworkingOf run reports).2 ++ domainFindings ++ noteMultipath workers)%list in
  let refusals := (flat_map fst inspected ++ misaligned)%list in
  match workers with
  | [] => mkPlan [] class [] refusals false 0 findings domains
  | first :: _ =>
      let unattached := match w_Attachment first with None => true | Some _ => false end in
      let '(sets, found) :=
        splitMembers (builder_Build builder (grouper_Group grouper workers)) workers grouper
          (SlotsPerWorker p) in
      mkPlan sets class workers refusals unattached
        (if unattached then commonDataInterfaceCount workers else 0)
        (findings ++ found)%list domains
  end.

(** ** What the plan says of itself *)

Definition DeviceCount (p : Plan) : Z :=
  Z.of_nat (length (flat_map Addresses (p_Workers p))).

Definition Summary (p : Plan) : string :=
  Count (p_Workers p) ++ " workers with " ++ Itoa (DeviceCount p) ++ " " ++ p_Class p ++
  " devices, in " ++ Count (flat_map ns_Groups (p_NodeSets p)) ++ " group(s) across " ++
  Count (p_NodeSets p) ++ " node set(s); " ++ Count (p_Refusals p) ++ " refusal(s)".

Definition RefusalLines (p : Plan) : list string := map Refusal_String (p_Refusals p).

Definition of_worker (r : Refusal) : bool := String.eqb (ref_Device r) "".

(** A clause of a worker's line: the devices one rule declined. *)
Definition rule_detail (entry : string * list Refusal) : string :=
  let n := length entry.2 in
  let counted := if Nat.eqb n 1 then "1 device declined by " ++ entry.1
                 else Itoa (Z.of_nat n) ++ " devices declined by " ++ entry.1 in
  match group_by ref_Reason entry.2 with
  | [only] => counted ++ ": " ++ only.1
  | reasons =>
      counted ++ ": " ++
        String.concat ", " (map (fun g => Count g.2 ++ " " ++ g.1) reasons)
  end.

Definition worker_line (entry : string * list Refusal) : option string :=
  let line := match last (List.filter of_worker entry.2) with Some r => ref_Reason r | None => "" end in
  let detail := map rule_detail
    (group_by ref_Rule (List.filter (fun r => negb (of_worker r)) entry.2)) in
  match detail with
  | [] => if String.eqb line "" then None else Some (entry.1 ++ ": " ++ line)
  | _ =>
      if String.eqb line "" then Some (entry.1 ++ ": " ++ String.concat ", " detail)
      else Some (entry.1 ++ ": " ++ line ++ " (" ++ String.concat ", " detail ++ ")")
  end.

Definition Explain (p : Plan) : list string :=
  omap worker_line
    (group_by ref_Worker (List.filter (fun r => of_worker r || negb (ref_PreFilter r)) (p_Refusals p))).

(** How many of the lines a budget holds. *)
Fixpoint fitting (room : Z) (kept : nat) (used : Z) (lines : list string) : nat :=
  match lines with
  | [] => kept
  | line :: lines =>
      let cost := (Z.of_nat (String.length line) + 2)%Z in
      if Nat.ltb 0 kept && (room <? used + cost)%Z then kept
      else fitting room (S kept) (used + cost) lines
  end.

Definition ExplainWithin (p : Plan) (budget : Z) : string :=
  let lines := Explain p in
  let declined := List.filter (fun r => negb (of_worker r) && negb (ref_PreFilter r)) (p_Refusals p) in
  match declined with
  | _ :: _ =>
      Count declined ++ " device(s) across " ++ Count (group_by ref_Worker declined) ++
      " worker(s), none usable: " ++
      String.concat "; "
        (map (fun g => Count g.2 ++ " declined by " ++ g.1)
           (group_by (fun r => ref_Rule r ++ ": " ++ ref_Reason r) declined))
  | [] =>
      let room := (budget - Z.of_nat (String.length ("; and " ++ Count lines ++ " more worker(s)")))%Z in
      let kept := fitting room 0 0 lines in
      if Nat.leb (length lines) kept then String.concat "; " lines
      else String.concat "; " (firstn kept lines) ++ "; and " ++
             Itoa (Z.of_nat (length lines - kept)) ++ " more worker(s)"
  end.

End Plans.


(** ** Every worker and every device is accounted for *)

Section Accounts.

Context `{!Library} `{!Text}.

Lemma admit_each_spec report rules devices :
  (admit_each report rules devices).1 = filter (fun d => first_refusal report d rules = None) devices /\
  Forall (fun r => ref_Worker r = r_Node report /\ ref_Device r ∈ map d_Name devices)
    (admit_each report rules devices).2 /\
  (forall d, d ∈ devices -> d ∈ (admit_each report rules devices).1 \/
     exists r, r ∈ (admit_each report rules devices).2 /\ ref_Worker r = r_Node report /\ ref_Device r = d_Name d).
Proof.
  induction devices as [|d devices (IH1 & IH2 & IH3)]; [split_and!; [done|constructor|by intros ? ?%not_elem_of_nil]|].
  cbn [admit_each]. destruct (admit_each report rules devices) as [admitted refusals].
  cbn [fst snd] in *. rewrite filter_cons.
  assert (Hsub : Forall (fun r => ref_Worker r = r_Node report /\ ref_Device r ∈ map d_Name (d :: devices)) refusals).
  { eapply Forall_impl; [exact IH2|]. intros r [? ?]. split; [done|]. by right. }
  destruct (first_refusal report d rules) as [[[rule reason] pre]|]; case_decide; try done; cbn [fst snd].
  - split; [done|]. split; [constructor; [split; [done|by left]|done]|].
    intros d' [->|Hd]%elem_of_cons.
    + right. eexists. split; [by left|done].
    + destruct (IH3 d' Hd) as [?|(r & ? & ?)]; [by left|]. right. exists r. split; [by right|done].
  - split; [by f_equal|]. split; [done|].
    intros d' [->|Hd]%elem_of_cons; [left; by left|].
    destruct (IH3 d' Hd); [left; by right|by right].
Qed.

(** Everything a probe offers has a name. *)
Definition named (class : DeviceClass) (report : Report) : Prop :=
  forall d, d ∈ r_Devices (offered class report) -> d_Name d <> "".

Lemma device_refusals_named report (names : list string) refusals : (forall name, name ∈ names -> name <> "") ->
  Forall (fun r => ref_Worker r = r_Node report /\ ref_Device r ∈ names) refusals ->
  List.filter of_worker refusals = [].
Proof.
  intros Hn. induction 1 as [|r refusals [_ Hr] _ IH]; [done|]. simpl. unfold of_worker at 1.
  by rewrite (proj2 (String.eqb_neq _ _) (Hn _ Hr)).
Qed.

(** One turn of the loop: the report's worker is kept, or refused once. *)
Lemma inspect_accounts class rules workerRules placement kubes attachment report :
  named class report -> PlacementLaws placement ->
  let res := inspect class rules workerRules placement kubes attachment report in
  (map w_Name (option_list res.2) ++ map ref_Worker (List.filter of_worker res.1))%list = [r_Node report].
Proof.
  intros Hn Hp. cbn zeta. unfold inspect. set (o := offered class report).
  assert (Hnode : r_Node o = r_Node report) by done.
  destruct (admit_each_spec o rules (r_Devices o)) as (Ha & Hr & _). unfold admitDevices.
  destruct (admit_each o rules (r_Devices o)) as [admitted refusals]. cbn [fst snd] in *.
  assert (Hd : List.filter of_worker refusals = []).
  { eapply device_refusals_named; [|exact Hr]. intros name (d & -> & Hin)%map_elem. by apply Hn. }
  assert (Hone : forall rule why, List.filter of_worker (refusals ++ [worker_refusal o rule why])%list =
    [worker_refusal o rule why]) by (intros; by rewrite List.filter_app, Hd).
  destruct (refuseWorker o admitted workerRules) as [refused why].
  destruct (negb (String.eqb refused "")); [simpl; by rewrite Hone|].
  destruct (match attachment with Some a => _ | None => _ end) as [[] why']; [|simpl; by rewrite Hone].
  destruct (Choose placement o admitted) as [chosen why''] eqn:Ec.
  destruct chosen as [|c cs]; [simpl; by rewrite Hone|].
  destruct (match attachment with Some _ => _ | None => _ end) as [mgmt data]. simpl.
  rewrite List.filter_app, Hd. simpl. unfold left_behind.
  rewrite (device_refusals_named o (map d_Name (r_Devices o))).
  - done.
  - intros name (d & -> & Hin)%map_elem. by apply Hn.
  - apply Forall_forall. intros r (d & -> & [Hin _]%filter_elem)%map_elem. split; [done|].
    apply map_elem. exists d. split; [done|]. rewrite Ha in Hin. by apply list_elem_of_filter in Hin as [_ ?].
Qed.

Lemma assign_domains_names key workers : map w_Name (map (assign_domain key) workers) = map w_Name workers.
Proof.
  rewrite map_map. apply map_ext. intros w. unfold assign_domain. by destruct (domain_of key w).
Qed.

(** The parts of a plan. *)
Lemma plan_workers p reports run :
  p_Workers (Plan_of p reports run) =
  map (assign_domain (failureDomainLabelOf run)) (alignNetworks (omap snd (inspect_all p reports run))).1.
Proof.
  unfold Plan_of. destruct (alignNetworks _) as [aligned misaligned]. unfold assignFailureDomains.
  cbn [fst]. destruct (map _ aligned); [done|]. by destruct (splitMembers _ _ _ _).
Qed.

Lemma plan_refusals p reports run :
  p_Refusals (Plan_of p reports run) =
  (flat_map fst (inspect_all p reports run) ++
   (alignNetworks (omap snd (inspect_all p reports run))).2)%list.
Proof.
  unfold Plan_of. destruct (alignNetworks _) as [aligned misaligned]. unfold assignFailureDomains.
  cbn [snd]. destruct (map _ aligned); [done|]. by destruct (splitMembers _ _ _ _).
Qed.

Lemma inspected_account (f : Report -> list Refusal * option Worker) reports :
  (forall r, r ∈ reports ->
     (map w_Name (option_list (f r).2) ++ map ref_Worker (List.filter of_worker (f r).1))%list = [r_Node r]) ->
  (map w_Name (omap snd (map f reports)) ++
   map ref_Worker (List.filter of_worker (flat_map fst (map f reports))))%list ≡ₚ map r_Node reports.
Proof.
  induction reports as [|r reports IH]; intros Hf; [done|]. cbn [map flat_map].
  assert (Hr := Hf r ltac:(by left)). specialize (IH ltac:(intros; apply Hf; by right)).
  destruct (f r) as [refusals [w|]] eqn:E; csimpl; simpl in Hr;
    rewrite List.filter_app, map_app.
  - injection Hr as -> Hr. rewrite Hr. simpl. by rewrite IH.
  - rewrite Hr. simpl. by rewrite <- Permutation_middle, IH.
Qed.

(** C10. No machine is lost: every worker a probe reported is in the plan or refused as a
    worker, exactly once. *)
Theorem plan_accounts_for_every_worker p reports run
    (Hnamed : Forall (named (ClassOf run)) reports)
    (Hp : PlacementLaws (default MostAvailableNUMANode (pl_Placement p))) :
  let plan := Plan_of p reports run in
  (map w_Name (p_Workers plan) ++ map ref_Worker (List.filter of_worker (p_Refusals plan)))%list ≡ₚ
  map r_Node reports.
Proof.
  cbn zeta. rewrite plan_workers, assign_domains_names, plan_refusals.
  destruct (alignNetworks_accounted (omap snd (inspect_all p reports run))) as [Hacc Hdev].
  rewrite List.filter_app, map_app.
  assert (Hw : List.filter of_worker (alignNetworks (omap snd (inspect_all p reports run))).2 =
    (alignNetworks (omap snd (inspect_all p reports run))).2).
  { rewrite filter_bool. apply filter_all. rewrite Forall_forall in Hdev. intros r Hr.
    unfold of_worker. by rewrite (Hdev r Hr). }
  rewrite Hw. rewrite (Permutation_app_comm (map ref_Worker (List.filter _ _))), app_assoc, Hacc.
  unfold inspect_all. rewrite inspected_account; [apply Permutation_map, sort_by_perm|].
  intros r Hr. apply sort_by_elem in Hr. rewrite Forall_forall in Hnamed.
  apply inspect_accounts; [by apply Hnamed|done].
Qed.

(** What one turn leaves of a device: a refusal of it, a refusal of its worker, or the
    worker that has it. *)
Lemma inspect_device class rules workerRules placement kubes attachment report d :
  d ∈ r_Devices (offered class report) ->
  let res := inspect class rules workerRules placement kubes attachment report in
  (exists r, r ∈ res.1 /\ ref_Worker r = r_Node report /\ (ref_Device r = d_Name d \/ of_worker r = true)) \/
  exists w, res.2 = Some w /\ w_Name w = r_Node report /\ d_Name d ∈ map d_Name (w_Devices w).
Proof.
  intros Hd. cbn zeta. unfold inspect. set (o := offered class report) in *.
  destruct (admit_each_spec o rules (r_Devices o)) as (_ & _ & Hr). unfold admitDevices.
  specialize (Hr d Hd). destruct (admit_each o rules (r_Devices o)) as [admitted refusals]. cbn [fst snd] in *.
  assert (Hone : forall rule why, exists r, r ∈ (refusals ++ [worker_refusal o rule why])%list /\
    ref_Worker r = r_Node report /\ (ref_Device r = d_Name d \/ of_worker r = true)).
  { intros rule why. exists (worker_refusal o rule why). split; [apply elem_of_app; right; by left|].
    split; [done|]. by right. }
  destruct (refuseWorker o admitted workerRules) as [refused why].
  destruct (negb (String.eqb refused "")); [left; apply Hone|].
  destruct (match attachment with Some a => _ | None => _ end) as [[] why']; [|left; apply Hone].
  destruct (Choose placement o admitted) as [chosen why''].
  destruct chosen as [|c cs]; [left; apply Hone|].
  destruct (match attachment with Some _ => _ | None => _ end) as [mgmt data]. cbn [fst snd].
  destruct Hr as [Hin|(r & Hin & Hw & Hn)].
  - destruct (existsb (fun c => String.eqb (d_Name c) (d_Name d)) (c :: cs)) eqn:E.
    + right. eexists. split; [done|]. split; [done|]. cbn [w_Devices].
      apply existsb_exists in E as (c' & Hc%list_elem_of_In & Hn%String.eqb_eq).
      apply map_elem. exists c'. by rewrite Hn.
    + left. eexists. split; [|split; [|left]].
      * apply elem_of_app. right. apply map_elem. exists d. split; [reflexivity|].
        apply filter_elem. by rewrite E.
      * done.
      * done.
  - left. exists r. split; [apply elem_of_app; by left|]. split; [done|]. by left.
Qed.

(** No disk is lost: a device a probe reported, or a controller it offered, is among its
    worker's devices in the plan, or the plan's refusals say why it is not, by its name or
    by its worker's. *)
Theorem plan_accounts_for_every_device p reports run report d
    (Hin : report ∈ reports) (Hd : d ∈ r_Devices (offered (ClassOf run) report)) :
  let plan := Plan_of p reports run in
  (exists w, w ∈ p_Workers plan /\ w_Name w = r_Node report /\ d_Name d ∈ map d_Name (w_Devices w)) \/
  (exists r, r ∈ p_Refusals plan /\ ref_Worker r = r_Node report /\
     (ref_Device r = d_Name d \/ of_worker r = true)).
Proof.
  cbn zeta. rewrite plan_workers, plan_refusals.
  set (f := inspect (ClassOf run) (default (BasicDeviceRules run) (DeviceRules p))
    (default [WorkerHasDevices] (WorkerRules p)) (default MostAvailableNUMANode (pl_Placement p))
    (pl_KubeNodes p) (NetworkingOf run reports).1).
  assert (Hf : f report ∈ inspect_all p reports run).
  { apply map_elem. exists report. split; [done|]. by apply sort_by_elem. }
  destruct (inspect_device (ClassOf run) (default (BasicDeviceRules run) (DeviceRules p))
    (default [WorkerHasDevices] (WorkerRules p)) (default MostAvailableNUMANode (pl_Placement p))
    (pl_KubeNodes p) (NetworkingOf run reports).1 report d Hd) as [(r & Hr & Hrest)|(w & Hw & Hn & Hdev)].
  - right. exists r. split; [|done]. apply elem_of_app. left. apply flat_map_elem. by exists (f report).
  - destruct (alignNetworks_fate (omap snd (inspect_all p reports run)) w) as [(w' & Hw' & Hn' & Hd')|(r & Hr & Hrn & Hrd)].
    + apply list_elem_of_omap. by exists (f report).
    + left. exists (assign_domain (failureDomainLabelOf run) w'). split; [apply map_elem; by exists w'|].
      unfold assign_domain. destruct (domain_of _ w'); cbn [w_Name w_Devices with_FailureDomain];
        by rewrite Hn', Hd'.
    + right. exists r. split; [apply elem_of_app; by right|]. split; [congruence|]. right.
      unfold of_worker. by rewrite Hrd.
Qed.

End Accounts.

(** ** The draft *)

Section Draft.

Context `{!Library} `{!Text}.

Lemma plan_sets p reports run :
  let plan := Plan_of p reports run in
  let grouper := default GroupByHardware (pl_Grouper p) in
  p_NodeSets plan =
  match p_Workers plan with
  | [] => []
  | workers => (splitMembers (builder_Build (default (SplitByRole "") (pl_NodeSetBuilder p))
                  (grouper_Group grouper workers)) workers grouper (SlotsPerWorker p)).1
  end.
Proof.
  cbn zeta. rewrite plan_workers. unfold Plan_of. destruct (alignNetworks _) as [aligned misaligned].
  unfold assignFailureDomains. cbn [fst]. destruct (map _ aligned) as [|first rest]; [done|].
  by destruct (splitMembers _ _ _ _).
Qed.

(** The draft holds every worker of the plan exactly once and no other, whatever
    grouper and node-set builder it is made with, as long as those drop none. *)
Theorem draft_holds_every_worker p reports run
    (Hg : GrouperLaws (default GroupByHardware (pl_Grouper p)))
    (Hb : BuilderLaws (default (SplitByRole "") (pl_NodeSetBuilder p))) :
  let plan := Plan_of p reports run in
  drafted (p_NodeSets plan) ≡ₚ map w_Name (p_Workers plan).
Proof.
  cbn zeta. rewrite plan_sets. destruct (p_Workers (Plan_of p reports run)) as [|w ws] eqn:E; [done|].
  rewrite <- E. set (workers := p_Workers (Plan_of p reports run)).
  assert (Hbuilt : drafted (builder_Build (default (SplitByRole "") (pl_NodeSetBuilder p))
    (grouper_Group (default GroupByHardware (pl_Grouper p)) workers)) ≡ₚ map w_Name workers).
  { rewrite builder_holds. apply Permutation_map, grouper_holds. }
  rewrite splitMembers_holds; [done|done|]. intros name. by rewrite Hbuilt.
Qed.

Lemma in_state_perm state reports reports' : reports ≡ₚ reports' ->
  nonempty (in_state state reports) = nonempty (in_state state reports').
Proof.
  intros Hp. unfold in_state. rewrite !filter_bool. set (P := fun r => _ = true).
  assert (Hf : filter P reports ≡ₚ filter P reports') by by apply filter_Permutation.
  destruct (filter P reports), (filter P reports'); try done.
  - by apply Permutation_nil_l in Hf.
  - by apply Permutation_nil_r in Hf.
Qed.

(** "The reports are taken in whatever order they arrived and the output does not depend
    on it". *)
Theorem plan_order_independent p reports reports' run
    (Hnd : NoDup (map r_Node reports)) (Hp : reports ≡ₚ reports') :
  Plan_of p reports run = Plan_of p reports' run.
Proof.
  assert (Hnet : NetworkingOf run reports = NetworkingOf run reports').
  { unfold NetworkingOf. by rewrite (in_state_perm attachmentsServed _ _ Hp),
      (in_state_perm attachmentsNotServed _ _ Hp). }
  assert (Hs : sort_by report_key reports = sort_by report_key reports').
  { apply sort_by_unique; [|done]. intros a b Ha Hb [= E].
    apply list_elem_of_lookup in Ha as [i Hi], Hb as [j Hj].
    assert (i = j) as ->; [|congruence].
    eapply (NoDup_lookup _ _ _ (r_Node a) Hnd); rewrite list_lookup_fmap; [by rewrite Hi|by rewrite Hj, E]. }
  assert (Hi : inspect_all p reports run = inspect_all p reports' run).
  { unfold inspect_all. by rewrite Hnet, Hs. }
  unfold Plan_of. by rewrite Hi, Hnet.
Qed.

(** ** What the devices of the draft are *)

Lemma inspect_kept class rules workerRules placement kubes attachment report w :
  PlacementLaws placement ->
  (inspect class rules workerRules placement kubes attachment report).2 = Some w ->
  w_Name w = r_Node report /\ w_Class w = class /\ forall d, d ∈ w_Devices w ->
    d ∈ r_Devices (offered class report) /\ first_refusal (offered class report) d rules = None.
Proof.
  intros Hp. unfold inspect. set (o := offered class report).
  destruct (admit_each_spec o rules (r_Devices o)) as (Ha & _ & _). unfold admitDevices.
  destruct (admit_each o rules (r_Devices o)) as [admitted refusals]. cbn [fst snd] in *.
  destruct (refuseWorker o admitted workerRules) as [refused why].
  destruct (negb (String.eqb refused "")); [done|].
  destruct (match attachment with Some a => _ | None => _ end) as [[] why']; [|done].
  assert (Hc := chosen_admitted o admitted).
  destruct (Choose placement o admitted) as [chosen why'']. cbn [fst] in Hc.
  destruct chosen as [|c cs]; [done|].
  destruct (match attachment with Some _ => _ | None => _ end) as [mgmt data]. intros [= <-].
  split; [done|]. split; [done|]. cbn [w_Devices]. intros d Hd.
  assert (Hin := elem_of_sublist _ _ _ Hd Hc). rewrite Ha in Hin.
  by apply list_elem_of_filter in Hin as [? ?].
Qed.

(** C16. Nothing in use is proposed: under the rules of the run, every device of a worker in
    the plan is one its probe reported, or a controller it offered, that is free or as free
    as the run allows, is no simplyblock volume, can be named, sits on a bus of the run's
    class, is a whole disk or a partition the class takes, is not denied, is allowed where
    the run allows by name, and has a size the run asked for. *)
Theorem drafted_devices_are_usable p reports run w d (Hrules : DeviceRules p = None)
    (Hp : PlacementLaws (default MostAvailableNUMANode (pl_Placement p)))
    (Hw : w ∈ p_Workers (Plan_of p reports run)) (Hd : d ∈ w_Devices w) :
  exists report, report ∈ reports /\ r_Node report = w_Name w /\
    d ∈ r_Devices (offered (ClassOf run) report) /\ usable run d.
Proof.
  rewrite plan_workers in Hw. apply map_elem in Hw as (v & -> & Hv).
  assert (Hav : w_Name (assign_domain (failureDomainLabelOf run) v) = w_Name v /\
    w_Devices (assign_domain (failureDomainLabelOf run) v) = w_Devices v)
    by (unfold assign_domain; by destruct (domain_of _ v)).
  destruct Hav as [Hn Hdev]. rewrite Hn. rewrite Hdev in Hd. clear Hn Hdev.
  apply alignNetworks_from in Hv as (before & Hin & Ev & _).
  apply (f_equal w_Name) in Ev as En. apply (f_equal w_Devices) in Ev. cbn in En, Ev. rewrite Ev in Hd. rewrite En.
  apply list_elem_of_omap in Hin as (res & (report & -> & Hr)%map_elem & Hk).
  apply inspect_kept in Hk as (-> & _ & Hk); [|done]. apply sort_by_elem in Hr.
  destruct (Hk d Hd) as [Hoff Hnone]. rewrite Hrules in Hnone. exists report. split_and!; try done.
  by eapply taken_usable.
Qed.

End Draft.

(** ** A run *)

#[local] Existing Instance Sizes.ascii_text.
#[local] Existing Instance Fleet.plain_library.

Module Runs.

Import Fleet.

Definition the_run : DiscoverSpec := mkSpec None None None None "".
Definition planner : Planner := mkPlanner None None None None None ∅ 0.

(** Two workers with two free disks each, one with a mounted disk beside them, and one
    with none. *)
Definition mounted : Device := disk "nvme2n1" "0000:60:00.0" 0 TiB "" false.
Definition report_a : Report := report "a" "10.0.0.1" (two_disks ++ [mounted])%list.
Definition reports : list Report :=
  [report "b" "10.0.0.2" two_disks; report_a; report "c" "10.0.0.3" []].
Definition the_plan : Plan := Plan_of planner reports (Some the_run).

End Runs.

Import Runs.

Lemma runs_named : Forall (named (ClassOf (Some the_run))) reports.
Proof.
  repeat (apply Forall_cons; split); [..|done]; intros d Hd;
    repeat (apply elem_of_cons in Hd as [->|Hd]; [done|]); by apply not_elem_of_nil in Hd.
Qed.

Lemma plan_accounts_for_every_worker_witness :
  (map w_Name (p_Workers the_plan) ++ map ref_Worker (List.filter of_worker (p_Refusals the_plan)))%list ≡ₚ
  ["b"; "a"; "c"] /\
  map w_Name (p_Workers the_plan) = ["a"; "b"].
Proof.
  split; [|vm_compute; reflexivity].
  exact (plan_accounts_for_every_worker planner reports (Some the_run) runs_named MostAvailableNUMANode_laws).
Defined.

Lemma plan_accounts_for_every_device_witness :
  let plan := Plan_of planner reports (Some the_run) in
  (exists w, w ∈ p_Workers plan /\ w_Name w = r_Node report_a /\ d_Name mounted ∈ map d_Name (w_Devices w)) \/
  (exists r, r ∈ p_Refusals plan /\ ref_Worker r = r_Node report_a /\
     (ref_Device r = d_Name mounted \/ of_worker r = true)).
Proof.
  refine (plan_accounts_for_every_device planner reports (Some the_run) report_a mounted _ _).
  - right. left.
  - right. right. left.
Defined.

Lemma draft_holds_every_worker_witness : drafted (p_NodeSets the_plan) ≡ₚ ["a"; "b"].
Proof.
  assert (E : map w_Name (p_Workers the_plan) = ["a"; "b"]) by (vm_compute; reflexivity). rewrite <- E.
  exact (draft_holds_every_worker planner reports (Some the_run) GroupByHardware_laws (SplitByRole_laws "")).
Defined.

Lemma plan_order_independent_witness :
  Plan_of planner (rev reports) (Some the_run) = the_plan.
Proof.
  symmetry. apply (plan_order_independent planner reports (rev reports) (Some the_run)).
  - apply (bool_decide_unpack _). vm_compute. reflexivity.
  - symmetry. apply reverse_Permutation || apply Permutation_rev.
Defined.

Lemma drafted_devices_are_usable_witness : exists report, report ∈ reports /\ r_Node report = "a" /\
  Fleet.disk "nvme0n1" "0000:5e:00.0" 0 Fleet.TiB "" true ∈
    r_Devices (offered (ClassOf (Some the_run)) report) /\
  usable (Some the_run) (Fleet.disk "nvme0n1" "0000:5e:00.0" 0 Fleet.TiB "" true).
Proof.
  apply (drafted_devices_are_usable planner reports (Some the_run) (default (mkWorker "" (Fleet.report "" "" []) [] "" "" no_kube no_management [] None "") (head (p_Workers the_plan)))).
  - reflexivity.
  - apply _.
  - vm_compute. left.
  - vm_compute. left.
Defined.

(** ** What a run gets wrong *)

(** A controller one of whose namespaces is mounted is drafted whole, for the other: the
    rules are asked of each namespace, and the draft names the controller they share. *)
Lemma half_mounted_controller_is_drafted :
  let mounted := Fleet.disk "nvme0n1" "0000:5e:00.0" 0 Fleet.TiB "" false in
  let free := Fleet.disk "nvme0n2" "0000:5e:00.0" 0 Fleet.TiB "" true in
  let plan := Plan_of planner [Fleet.report "a" "10.0.0.1" [mounted; free]] (Some the_run) in
  d_Available mounted = false /\
  map ng_Devices (flat_map ns_Groups (p_NodeSets plan)) = [Some (mkDevices ["0000:5e:00.0"] [])].
Proof. eval_eq. Qed.

(** What a run says of a fleet it found nothing in is longer than its budget: where a device
    was declined, the budget is not looked at, and the refusals of whole workers are left
    out. *)
Definition declined (n : nat) : Refusal :=
  mkRefusal "a" ("nvme" ++ Itoa (Z.of_nat n)) "model"
    ("its model " ++ Itoa (Z.of_nat n) ++ " does not contain the one asked for") false.
Definition nothing_found : Plan :=
  mkPlan [] ClassNVMe [] (map declined (seq 0 40) ++ [mkRefusal "b" "" "has devices" "they are bound" false])%list
    false 0 [] false.

Lemma explanation_over_budget :
  (1024 <? Z.of_nat (String.length (ExplainWithin nothing_found 1024)))%Z = true /\
  Contains (ExplainWithin nothing_found 1024) "they are bound" = false.
Proof. eval_eq. Qed.

End DiscoveryPlan.
