(* ===== verification/Stripes.v ===== *)
(** Erasure coding: [operator/internal/erasurecoding].

    The schemes a cluster may be built with, the storage nodes and devices each one needs,
    and the failure-domain layout the control plane activates. *)

From Stdlib Require Import String.
From S2P Require Import Prelude.
From S2P Require Import GoStrings.
From S2P Require Import Discovery.
From S2P Require Import Documents.

#[local] Open Scope string_scope.

Module Stripes.

Import Documents.

(** ** Schemes ([scheme.go]) *)

Record Scheme := mkScheme { sch_DataChunks : Z; sch_ParityChunks : Z }.

#[global] Instance Scheme_eq_dec : EqDecision Scheme.
Proof. solve_decision. Defined.

Definition supported : list Scheme :=
  [mkScheme 1 0; mkScheme 1 1; mkScheme 2 1; mkScheme 4 1; mkScheme 1 2; mkScheme 2 2;
   mkScheme 4 2].

Definition Supported : list Scheme := supported.

Definition IsSupported (s : Scheme) : bool := contains supported s.

Definition MinimumNodes (s : Scheme) : Z := sch_DataChunks s + 2 * sch_ParityChunks s.

Record Topology := mkTopology { SingleNode : bool; TwoNode : bool }.

Definition Standard : Topology := mkTopology false false.

Definition MinimumNodesFor (s : Scheme) (t : Topology) : Z :=
  if SingleNode t then 1
  else if TwoNode t && Z.eqb (sch_DataChunks s) 1 && Z.eqb (sch_ParityChunks s) 1 then 2
  else MinimumNodes s.

Definition TopologyOf (mode : ClusterMode) : Topology :=
  mkTopology (String.eqb mode ClusterModeSingle) (String.eqb mode ClusterModeDual).

Definition MinimumDevicesPerNode (s : Scheme) (t : Topology) : Z :=
  if SingleNode t then sch_DataChunks s + sch_ParityChunks s else 0.

(** [Scheme.String]. *)
Definition notation (s : Scheme) : string :=
  Itoa (sch_DataChunks s) ++ "+" ++ Itoa (sch_ParityChunks s).

(** [ptr.IntFrom]. *)
Definition IntFrom (p : option Z) (fallback : Z) : Z := default fallback p.

Definition SchemeOf (stripe : option StripeSpec) : Scheme :=
  match stripe with
  | None => mkScheme 1 1
  | Some s => mkScheme (IntFrom (DataChunks s) 1) (IntFrom (ParityChunks s) 1)
  end.

Definition SupportedNotation : string :=
  let rendered := map notation supported in
  String.concat ", " (removelast rendered) ++ ", and " ++ default "" (last rendered).

(** ** The layout of failure domains ([failuredomains.go]) *)

Section Layout.

Context (hostsPerDomain : gmap string Z).

Definition describeLayout : string :=
  String.concat ", "
    (map (fun domain => domain ++ ": " ++ Itoa (default 0%Z (hostsPerDomain !! domain)))
       (sort_strings (map_to_list hostsPerDomain).*1)).

Definition sizes : gset Z := list_to_set (map_to_list hostsPerDomain).*2.

Definition FailureDomainViolation (scheme : Scheme) : string :=
  let minimum := (sch_ParityChunks scheme + 2)%Z in
  if (Z.of_nat (size hostsPerDomain) <? minimum)%Z then
    "failure-domain mode with " ++ notation scheme ++ " needs at least " ++ Itoa minimum ++
    " distinct failure domains (the stripe's parity plus two), and the workers are in " ++
    Itoa (Z.of_nat (size hostsPerDomain)) ++ " (" ++ describeLayout ++ ")"
  else if Nat.ltb 1 (size sizes) then
    "failure-domain mode needs an equal number of workers in every failure domain when " ++
    "the cluster is activated, and the domains hold " ++ describeLayout
  else "".

End Layout.

(** ** What the rules come to *)

(** A document states a scheme with the two numbers of its notation. *)
Definition stripe_of (s : Scheme) : StripeSpec :=
  mkStripe (Some (sch_DataChunks s)) (Some (sch_ParityChunks s)).

Lemma SchemeOf_stripe_of s : SchemeOf (Some (stripe_of s)) = s.
Proof. by destruct s. Qed.

(** A layout the control plane activates: two domains more than the stripe has parity, and
    as many hosts in each. *)
Definition layout_fits (scheme : Scheme) (hosts : gmap string Z) : Prop :=
  (sch_ParityChunks scheme + 2 <= Z.of_nat (size hosts))%Z /\
  forall a b x y, hosts !! a = Some x -> hosts !! b = Some y -> x = y.

Lemma sizes_elem (hosts : gmap string Z) x : x ∈ sizes hosts <-> exists d, hosts !! d = Some x.
Proof.
  unfold sizes. rewrite elem_of_list_to_set, list_elem_of_fmap. split.
  - intros ([d y] & -> & Hin). exists d. by apply elem_of_map_to_list.
  - intros [d Hd]. exists (d, x). split; [done|]. by apply elem_of_map_to_list.
Qed.

Lemma one_size (hosts : gmap string Z) :
  (size (sizes hosts) <= 1)%nat <->
  forall a b x y, hosts !! a = Some x -> hosts !! b = Some y -> x = y.
Proof.
  split.
  - intros Hs a b x y Ha Hb. destruct (decide (x = y)) as [|Hne]; [done|].
    assert (size ({[x; y]} : gset Z) <= size (sizes hosts))%nat; [|].
    + apply subseteq_size. intros z Hz. apply sizes_elem. set_solver.
    + rewrite size_union, !size_singleton in * by set_solver. lia.
  - intros Hall. destruct (decide (sizes hosts = ∅)) as [->|Hne]; [by rewrite size_empty; lia|].
    apply set_choose_L in Hne as [x Hx].
    assert (sizes hosts ⊆ {[x]}) as Hsub; [|].
    + intros y Hy. apply sizes_elem in Hx as [a Ha]. apply sizes_elem in Hy as [b Hb].
      rewrite (Hall _ _ _ _ Hb Ha). set_solver.
    + apply subseteq_size in Hsub. by rewrite size_singleton in Hsub.
Qed.

Lemma layout_accepted scheme hosts : FailureDomainViolation hosts scheme = "" <-> layout_fits scheme hosts.
Proof.
  unfold FailureDomainViolation, layout_fits. rewrite <- one_size.
  destruct (Z.ltb_spec (Z.of_nat (size hosts)) (sch_ParityChunks scheme + 2)) as [Hlt|Hge].
  { split; [discriminate|]. lia. }
  destruct (Nat.ltb_spec 1 (size (sizes hosts))); (split; [try discriminate|]); intros; try done; lia.
Qed.

(** The documented table. *)
Example minimum_nodes_table : map MinimumNodes supported = [1; 3; 4; 6; 5; 6; 8]%Z.
Proof. reflexivity. Qed.

Example supported_notation : SupportedNotation = "1+0, 1+1, 2+1, 4+1, 1+2, 2+2, and 4+2".
Proof. reflexivity. Qed.

End Stripes.
