(* ===== verification/DiscoveryTemplate.v ===== *)
(** The cluster a discovery run proposes: [template.go] and [hostos.go] of
    [operator/internal/discovery], and the document [draftFor] of
    [operator/internal/controllers/deployment/operatorops_controller.go] makes of it. *)

From Stdlib Require Import Ascii String.
From S2P Require Import Prelude.
From S2P Require Import Programs.
From S2P Require Import GoStrings.
From S2P Require Import Net.
From S2P Require Import Discovery.
From S2P Require Import DiscoveryNet.
From S2P Require Import Documents.
From S2P Require Import Kube.
From S2P Require Import DiscoveryGroups.
From S2P Require Import DiscoveryPlan.
From S2P Require Import Stripes.

#[local] Open Scope string_scope.

Module DiscoveryTemplate.

Import Net Discovery DiscoveryNet Documents DiscoveryGroups DiscoveryPlan Stripes.

(** ** The fleet's size *)

Definition set_workers (set : NodeSet) : gset string :=
  list_to_set (flat_map ng_Workers (ns_Groups set)).

Definition fleetSize (plan : Plan) : Z := Z.of_nat (size (⋃ (map set_workers (p_NodeSets plan)))).

Definition smallestNodeSet (plan : Plan) : Z :=
  match map (fun set => Z.of_nat (size (set_workers set))) (p_NodeSets plan) with
  | [] => 0
  | first :: rest => foldl (fun smallest n => if n <? smallest then n else smallest)%Z first rest
  end.

(** ** vCPUs *)

Definition MinimumVCPUCount : Z := 4.
Definition SystemReservedCPUs : Z := 2.
Definition DefaultVCPUSharePercent : Z := 10.
Definition DefaultMinimumVCPUCount : Z := 5.
Definition DefaultMaxSubsystemCount : Z := 30.

Definition chosenNode (w : Worker) : option Z :=
  match w_Devices w with
  | [] => None
  | first :: rest =>
      if forallb (fun d => Z.eqb (d_NUMANode d) (d_NUMANode first)) rest then Some (d_NUMANode first)
      else None
  end.

Definition chosenNodeCPUs (w : Worker) : Z :=
  match chosenNode w with
  | None => 0
  | Some node =>
      match find_first (fun c => Z.eqb (n_Node c) node) (r_NUMANodes (w_Report w)) with
      | Some cpus => Z.of_nat (length (n_OnlineCPUs cpus))
      | None => 0
      end
  end.

(** The smallest of the values the workers report, and the first worker to report it; zero
    is no report. *)
Definition smallest_of (value : Worker -> Z) (workers : list Worker) : option (Z * Worker) :=
  foldl (fun acc w =>
    if Z.eqb (value w) 0 then acc
    else match acc with
         | None => Some (value w, w)
         | Some (smallest, _) => if (value w <? smallest)%Z then Some (value w, w) else acc
         end) None workers.

Definition vcpuCountFor (plan : Plan) (nodesPerSocket : Z) : Z * string :=
  let nodesPerSocket := (if nodesPerSocket <? 1 then 1 else nodesPerSocket)%Z in
  match smallest_of chosenNodeCPUs (p_Workers plan) with
  | None =>
      (DefaultMinimumVCPUCount,
       "vcpuCount is the default minimum of " ++ Itoa DefaultMinimumVCPUCount ++
       ", because no worker reported the cores of the memory node it was placed on")
  | Some (smallest, worker) =>
      let spare := (smallest - SystemReservedCPUs)%Z in
      if (wrap32 spare <? MinimumVCPUCount)%Z then
        (MinimumVCPUCount,
         "vcpuCount is the API's minimum of " ++ Itoa MinimumVCPUCount ++
         ", and the smallest placement (" ++ w_Name worker ++ ") has only " ++
         Itoa (Z.max spare 0) ++ " CPUs to spare for SPDK, so this cluster asks for more than that " ++
         "worker has")
      else
        let share := Z.max (smallest * DefaultVCPUSharePercent / 100 / nodesPerSocket)
                       DefaultMinimumVCPUCount in
        let vcpus := Z.max (Z.min share (spare / nodesPerSocket)) MinimumVCPUCount in
        (wrap32 vcpus,
         "vcpuCount is " ++ Itoa vcpus ++ ", " ++ Itoa DefaultVCPUSharePercent ++ "% of the " ++
         Itoa smallest ++ " logical CPUs of the memory node chosen on " ++ w_Name worker ++
         " (the smallest of the fleet) per storage node, at least " ++ Itoa DefaultMinimumVCPUCount ++
         ": the control plane assumes this uniform across a cluster's nodes. Raise it for a " ++
         "dedicated storage node or an I/O-heavy workload")
  end.

(** ** Huge pages *)

Definition chosenNodeHugePageBytes (w : Worker) : Z :=
  match chosenNode w with
  | None => 0
  | Some node => free_huge_pages (w_Report w) node
  end.

(** No size is no proposal, and no note no reading either. *)
Definition hugePagesFor (plan : Plan) : string * string :=
  match find_first (fun w => Z.eqb (chosenNodeHugePageBytes w) 0) (p_Workers plan) with
  | Some w =>
      ("", "minHugePagesSize is unset, because " ++ w_Name w ++ " has no huge pages reserved on the " ++
           "memory node it was placed on: SPDK consumes them and does not reserve them, so each node " ++
           "computes its own minimum until the fleet is prepared")
  | None =>
      match smallest_of chosenNodeHugePageBytes (p_Workers plan) with
      | None => ("", "")
      | Some (smallest, worker) =>
          let gigabytes := Z.shiftr smallest 30 in
          if Z.eqb gigabytes 0 then
            ("", "minHugePagesSize is unset, because the smallest reservation in the fleet (" ++
                 humanBytes smallest ++ " on " ++ w_Name worker ++ ") is under a gigabyte")
          else
            (Itoa gigabytes ++ "G",
             "minHugePagesSize is " ++ Itoa gigabytes ++ "G, the huge pages free on the memory node " ++
             "chosen on " ++ w_Name worker ++ ", which is the smallest of the fleet")
      end
  end.

(** ** The journal device *)

Inductive journalVerdict := journalDiskFound | journalDiskTied | journalDiskImpossible.

(** The capacity of every disk the draft would name. *)
Definition capacity (w : Worker) : gmap string Z :=
  foldl (fun m d =>
    let address := Address (w_Class w) d in
    if String.eqb address "" then m
    else <[address := wrapU64 (default 0%Z (m !! address) + d_SizeBytes d)]> m) ∅ (w_Devices w).

(** One turn of the loop over the disks, in the order of their addresses: the smallest
    met, its address, and how many share it. *)
Definition smaller_disk (sizes : gmap string Z) (acc : Z * string * Z) (address : string)
    : Z * string * Z :=
  let '(smallest, found, ties) := acc in
  let size := default 0%Z (sizes !! address) in
  if String.eqb found "" || (size <? smallest)%Z then (size, address, 1%Z)
  else if Z.eqb size smallest then (smallest, found, (ties + 1)%Z)
  else acc.

Definition smallestDisk (w : Worker) : Z * string * journalVerdict :=
  let sizes := capacity w in
  if Nat.ltb (size sizes) 2 then (0%Z, "", journalDiskImpossible)
  else
    let '(smallest, found, ties) :=
      foldl (smaller_disk sizes) (0%Z, "", 0%Z) (sort_strings (map_to_list sizes).*1) in
    if Z.eqb smallest 0 then (0%Z, "", journalDiskImpossible)
    else if Z.eqb ties 1 then (smallest, found, journalDiskFound)
    else (smallest, found, journalDiskTied).

(** What the loop over the workers ends with: a worker with no disk to give, or the
    smallest disk named, the worker it is on, and whether a tie was broken. *)
Inductive journal_walk :=
  | NoDisk (on : Worker)
  | Named (smallest : Z) (named : string) (on : string) (forced : bool).

(** [refuses]: whether the verdict ends the walk. *)
Fixpoint walk_disks (refuses : journalVerdict -> bool) (acc : Z * string * string * bool)
    (workers : list Worker) : journal_walk :=
  match workers with
  | [] => let '(smallest, named, on, forced) := acc in Named smallest named on forced
  | w :: rest =>
      let '(size, address, verdict) := smallestDisk w in
      if refuses verdict then NoDisk w
      else
        let '(smallest, named, on, forced) := acc in
        let forced := match verdict with journalDiskTied => true | _ => forced end in
        if String.eqb on "" || (size <? smallest)%Z
        then walk_disks refuses (size, address, w_Name w, forced) rest
        else walk_disks refuses (smallest, named, on, forced) rest
  end.

Definition refuses_disk (force : bool) (v : journalVerdict) : bool :=
  match v with
  | journalDiskImpossible => true
  | journalDiskTied => negb force
  | journalDiskFound => false
  end.

Definition blockJournalDeviceFor (plan : Plan) (force : bool) : res string (bool * string) :=
  Ok
    (if negb force then
       (false, "enableJournalDevice is left unset: the journal of every storage node is a partition " ++
               "carved from its smallest disk when the node is configured, and every disk carries " ++
               "data. Set spec.discover.forceJournalDevice to dedicate the smallest disk of every " ++
               "node to the journal instead")
     else
       match walk_disks (refuses_disk true) (0%Z, "", "", false) (p_Workers plan) with
       | NoDisk w =>
           (false, "enableJournalDevice is left unset although spec.discover.forceJournalDevice asks " ++
                   "for it: " ++ w_Name w ++ " hands over no second disk of known size, so dedicating " ++
                   "one would leave it nothing to store on. The journal of every storage node is a " ++
                   "partition carved from its smallest disk instead")
       | Named smallest named on _ =>
           (true, "enableJournalDevice is set because spec.discover.forceJournalDevice asked for it: " ++
                  "the smallest disk of every node carries the journal instead of data, the smallest " ++
                  "named being " ++ humanBytes smallest ++ " (" ++ named ++ ") on " ++ on ++
                  ". This is the line to remove to carve the journal from a partition instead")
       end).

Definition journalDeviceFor (plan : Plan) (force : bool) : res string (bool * string) :=
  match p_Workers plan with
  | [] => Ok (false, "")
  | _ =>
      if String.eqb (p_Class plan) ClassBlock then blockJournalDeviceFor plan force
      else
        Ok match walk_disks (refuses_disk force) (0%Z, "", "", false) (p_Workers plan) with
           | NoDisk w =>
               (false, "enableJournalDevice is left unset: " ++ w_Name w ++ " hands over no single disk " ++
                       "smaller than its others, so there is none to dedicate. Setting it would give " ++
                       "up a disk the fleet did not set aside, and the field cannot be changed once " ++
                       "the cluster exists")
           | Named smallest named on true =>
               (true, "enableJournalDevice is set because spec.discover.forceJournalDevice asked for " ++
                      "it, not because the fleet said so: at least one worker hands over no disk " ++
                      "smaller than its others, and the draft takes one of the equal ones anyway. The " ++
                      "smallest named is " ++ humanBytes smallest ++ " (" ++ named ++ ") on " ++ on ++
                      ", and that whole disk carries the journal instead of data. This is the line " ++
                      "to remove if that capacity was meant to be storage")
           | Named smallest named on false =>
               (true, "enableJournalDevice is set: every worker hands over one disk smaller than its " ++
                      "others, the smallest being " ++ humanBytes smallest ++ " (" ++ named ++ ") on " ++
                      on ++ ", and the control plane dedicates that disk to the journal manager " ++
                      "instead of carving a journal partition out of every disk. This is the line to " ++
                      "remove if the disk was meant to carry data")
           end
  end.

(** ** The stripe *)

(** How many devices the fleet's one worker hands over for data. *)
Definition dataDevices (plan : Plan) (journalDevice : bool) : Z :=
  match p_Workers plan with
  | [w] =>
      let devices := Z.of_nat (length (Addresses w)) in
      if journalDevice && (0 <? devices)%Z then (devices - 1)%Z else devices
  | _ => 0
  end.

(** "%d %s" with the noun that agrees. *)
Definition noun (n : Z) (one many : string) : string := if Z.eqb n 1 then one else many.

Definition alternatives (chosen : Scheme) (carried : Scheme -> bool) : list string :=
  map notation (List.filter (fun s => negb (bool_decide (s = chosen)) &&
                                   negb (Z.eqb (sch_ParityChunks s) 0) && carried s) Supported).

Definition alternativesFor (chosen : Scheme) (nodes : Z) : list string :=
  alternatives chosen (fun s => negb (nodes <? MinimumNodes s)%Z).

Definition singleNodeStripeNote (scheme : Scheme) (devices : Z) : string :=
  if Z.eqb (sch_ParityChunks scheme) 0 then
    "stripe is " ++ notation scheme ++ " as a single-node cluster (clusterMode Single), which " ++
    "protects nothing: the worker hands over " ++ Itoa devices ++ " " ++
    noun devices "device" "devices" ++ " for data, and a redundant scheme places each chunk of a " ++
    "stripe on its own device, so 1+1 needs two. A cluster's stripe cannot be changed afterward"
  else
    let others := alternatives scheme
      (fun s => negb (devices <? sch_DataChunks s + sch_ParityChunks s)%Z) in
    let also :=
      match others with
      | [] => ""
      | _ => " The devices would also carry " ++ String.concat ", " others ++ ", which trade capacity " ++
             "for a second tolerated device failure or the other way about."
      end in
    "stripe is " ++ notation scheme ++ " as a single-node cluster (clusterMode Single): each chunk of a " ++
    "stripe lands on its own device of the one worker, which hands over " ++ Itoa devices ++
    " for data, so the cluster survives " ++ Itoa (sch_ParityChunks scheme) ++ " device " ++
    noun (sch_ParityChunks scheme) "failure" "failures" ++ " but not the loss of the worker; data " ++
    "migration after a device failure runs in relaxed placement on the same node." ++ also ++
    " A cluster meant to grow to more workers is not created as Single and states the stripe of the " ++
    "fleet it will have. A cluster's stripe cannot be changed afterward".

Definition stripeNote (scheme : Scheme) (nodes : Z) : string :=
  if Z.eqb (sch_ParityChunks scheme) 0 then
    "stripe is " ++ notation scheme ++ ", which protects nothing: every redundant scheme needs at " ++
    "least three storage nodes and this fleet has " ++ Itoa nodes ++ ", so a third worker is what " ++
    "makes 1+1 possible; a fleet of exactly two can instead run 1+1 as a two-node cluster " ++
    "(spec.cluster.clusterMode Dual). A cluster's stripe cannot be changed afterward"
  else
    match alternativesFor scheme nodes with
    | [] =>
        "stripe is " ++ notation scheme ++ ", the only redundant scheme a fleet of " ++ Itoa nodes ++
        " carries: it needs " ++ Itoa (MinimumNodes scheme) ++ " storage nodes and the next scheme up " ++
        "needs more. A cluster's stripe cannot be changed afterward"
    | others =>
        "stripe is " ++ notation scheme ++ ", which needs " ++ Itoa (MinimumNodes scheme) ++
        " storage nodes and this fleet of " ++ Itoa nodes ++ " has them: it is the widest stripe to " ++
        "propose without knowing the workload. This fleet could also carry " ++
        String.concat ", " others ++ ", which trade capacity for a second tolerated failure or the " ++
        "other way about, and a cluster's stripe cannot be changed afterward"
    end.

Definition memberStripeNote (scheme : Scheme) (nodes : Z) : string :=
  "stripe is " ++ notation scheme ++ ": the draft has several node sets, and each becomes a member " ++
  "cluster of a supercluster that stripes across its own nodes alone, so the scheme is one the " ++
  "smallest node set, of " ++ Itoa nodes ++ " storage " ++ noun nodes "node" "nodes" ++ ", carries. " ++
  "Delete the node sets you do not want, or widen the stripe if every node set you keep carries " ++
  "more. A cluster's stripe cannot be changed afterward".

Definition twoNodeStripeNote (scheme : Scheme) : string :=
  "stripe is " ++ notation scheme ++ " as a two-node cluster (clusterMode Dual): one copy on each of " ++
  "the two workers, so the cluster survives the loss of either; data migration after a failure runs " ++
  "in relaxed placement, so it needs no third node. Outside clusterMode Dual every redundant scheme " ++
  "needs at least three storage nodes. A cluster's stripe cannot be changed afterward".

Definition several (plan : Plan) : bool := Nat.ltb 1 (length (p_NodeSets plan)).

(** The scheme of a single node: as wide as its devices. *)
Definition single_scheme (devices : Z) : Scheme :=
  if (3 <=? devices)%Z then mkScheme 2 1
  else if Z.eqb devices 2 then mkScheme 1 1
  else mkScheme 1 0.

Definition schemeFor (plan : Plan) (journalDevice : bool) : Scheme * Topology * string :=
  let widest := mkScheme 2 1 in
  let narrower (nodes : Z) := if (nodes <? MinimumNodes widest)%Z then mkScheme 1 1 else widest in
  if several plan then
    let nodes := smallestNodeSet plan in
    let scheme := if (nodes <? 3)%Z then mkScheme 1 0 else narrower nodes in
    (scheme, Standard, memberStripeNote scheme nodes)
  else
    let nodes := fleetSize plan in
    if Z.eqb nodes 1 then
      let devices := dataDevices plan journalDevice in
      let scheme := single_scheme devices in
      (scheme, mkTopology true false, singleNodeStripeNote scheme devices)
    else if Z.eqb nodes 2 then
      let scheme := mkScheme 1 1 in (scheme, mkTopology false true, twoNodeStripeNote scheme)
    else
      let scheme := if (nodes <? 3)%Z then mkScheme 1 0 else narrower nodes in
      (scheme, Standard, stripeNote scheme nodes).

Definition stripeFor (plan : Plan) (journalDevice : bool) : StripeSpec * Topology * string :=
  let '(scheme, topology, note) := schemeFor plan journalDevice in
  (stripe_of scheme, topology, note).

(** ** Failure domains *)

(** The workers of each failure domain of a node set, counted. *)
Definition domain_layout (set : NodeSet) : gmap string Z :=
  let hosts : gmap string (gset string) :=
    foldl (fun m g => <[ng_FailureDomain g :=
             default ∅ (m !! ng_FailureDomain g) ∪ list_to_set (ng_Workers g)]> m) ∅ (ns_Groups set) in
  (fun workers => Z.of_nat (size workers)) <$> hosts.

Definition failureDomainLayoutRefusal (plan : Plan) (scheme : Scheme) : string :=
  match find_first (fun set => negb (String.eqb (FailureDomainViolation (domain_layout set) scheme) ""))
          (p_NodeSets plan) with
  | None => ""
  | Some set =>
      let refused := FailureDomainViolation (domain_layout set) scheme in
      if several plan then "node set " ++ ns_Name set ++ ": " ++ refused else refused
  end.

(** ** The template *)

Record TemplateOptions := mkOptions { Seed : option ClusterTemplate; ForceJournalDevice : bool }.

Definition statedNote (field value : string) : string :=
  field ++ " is " ++ value ++ ", stated by this installation's bootstrap configuration rather than " ++
  "derived from what this run found.".

Definition describeStripe (stripe : StripeSpec) : string :=
  match DataChunks stripe, ParityChunks stripe with
  | None, None => "empty"
  | Some data, None => Itoa data ++ " data chunks with no parity count stated"
  | None, Some parity => Itoa parity ++ " parity chunks with no data count stated"
  | Some data, Some parity => Itoa data ++ "+" ++ Itoa parity
  end.

Definition formatting (on : bool) : string :=
  if on then "set, so every drive listed here is formatted before a storage node takes it"
  else "unset, so a drive carrying anything is handed over as it is and a storage node that cannot " ++
       "use it says so".

Definition enabled (on : bool) : string := if on then "set" else "unset".

Definition podNetworkOnly : StorageNetworkSpec := mkNetwork true false [].
Definition hostNetwork : StorageNetworkSpec := mkNetwork false true [].

(** A field the installation may state, and what a draft makes of one it does not: the
    field, and the notes on it. *)
Definition field_of {A} (stated : option A) (note : A -> string) (derived : option A * list string)
    : option A * list string :=
  match stated with
  | Some v => (Some v, [note v])
  | None => derived
  end.

Definition network_field (plan : Plan) (seed : ClusterTemplate)
    : option StorageNetworkSpec * list string :=
  field_of (ct_Network seed) (fun _ => statedNote "network" "the one the installation stated")
    (if (0 <? p_DataNetworks plan)%Z then
       (Some hostNetwork,
        ["network runs the SPDK pods on the host network, because most workers of the draft have a " ++
         "data interface. Each group names its own NICs. A cluster's network is fixed when it is " ++
         "created, so this is the line to correct now or never"])
     else if p_Unattached plan then
       (Some podNetworkOnly,
        ["network is the pod network, because no worker has a data interface of its own. A cluster's " ++
         "network is fixed when it is created, so this is the line to correct now or never"])
     else (None, [])).

Definition format_field (seed : ClusterTemplate) : option bool * list string :=
  field_of (ct_EnableDriveFormat seed) (fun on => statedNote "enableDriveFormat" (formatting on))
    (Some true,
     ["enableDriveFormat is set, so every drive listed here is formatted before a storage node takes " ++
      "it: a drive that carries anything is not usable otherwise. This is the line to remove if any " ++
      "of them should be left alone."]).

Definition vcpu_field (plan : Plan) (seed : ClusterTemplate) : option int32 * list string :=
  field_of (ct_VCPUCount seed) (fun n => statedNote "vcpuCount" (Itoa n))
    (let '(vcpus, note) := vcpuCountFor plan (IntFrom (ct_NodesPerSocket seed) 1) in
     (Some vcpus, [note])).

Definition subsystem_field (seed : ClusterTemplate) : option int32 * list string :=
  field_of (ct_MaxSubsystemCount seed) (fun n => statedNote "maxSubsystemCount" (Itoa n))
    (Some DefaultMaxSubsystemCount,
     ["maxSubsystemCount is " ++ Itoa DefaultMaxSubsystemCount ++ ", which is the middle of the range " ++
      "this API accepts and not a reading: how many subsystems a node should serve follows from the " ++
      "workload rather than from the hardware"]).

Definition stripe_field (plan : Plan) (seed : ClusterTemplate) (propose : bool)
    : StripeSpec * ClusterMode * list string :=
  match ct_Stripe seed with
  | Some stripe =>
      (stripe, "", [statedNote "stripe" (describeStripe stripe) ++
         " A cluster's stripe cannot be changed afterward, so this is the number to correct now or " ++
         "never."])
  | None =>
      let '(stripe, topology, note) := stripeFor plan propose in
      (stripe, (if SingleNode topology then ClusterModeSingle
                else if TwoNode topology then ClusterModeDual else ""), [note])
  end.

Definition checksum_field (seed : ClusterTemplate) : option bool * list string :=
  field_of (ct_EnableChecksumValidation seed)
    (fun on => statedNote "enableChecksumValidation" (enabled on) ++
       " The backend bakes the checksum method into each device when the cluster is created and never " ++
       "re-applies it, so a cluster created without this is one nobody can turn it on for.")
    (None, []).

Definition sockets_note (seed : ClusterTemplate) : list string :=
  match ct_SocketsToUse seed with
  | [] => []
  | sockets => [statedNote "socketsToUse" (String.concat ", " sockets)]
  end.

Definition per_socket_field (seed : ClusterTemplate) : option int32 * list string :=
  field_of (ct_NodesPerSocket seed) (fun n => statedNote "nodesPerSocket" (Itoa n)) (None, []).

Definition domains_field (plan : Plan) (seed : ClusterTemplate) (stripe : StripeSpec)
    : option bool * list string :=
  field_of (ct_EnableFailureDomains seed)
    (fun on => statedNote "enableFailureDomains" (enabled on))
    (if p_FailureDomains plan then
       let refused := failureDomainLayoutRefusal plan (SchemeOf (Some stripe)) in
       if negb (String.eqb refused "") then
         (None, ["enableFailureDomains is off although every worker carries a failure domain, because " ++
                 "the control plane would refuse to activate the cluster: " ++ refused])
       else
         (Some true, ["enableFailureDomains is on, because every worker carries a failure domain, and " ++
                      "each group names its workers' domain"])
     else (None, [])).

Definition atomicity_field (seed : ClusterTemplate) : option bool * list string :=
  field_of (ct_EnableAtomicity4K seed)
    (fun on => statedNote "enableAtomicity4K" (enabled on) ++
       " It is an enforcement rather than a reading: where the hardware does not keep the guarantee, a " ++
       "torn write becomes a checksum that silently disagrees with it. The device reports in this run " ++
       "are what to check it against.")
    (None, []).

Definition note_if (note : string) : list string := if String.eqb note "" then [] else [note].

(** [ClusterTemplateFor]: the template, and a note on every field of it that was derived. *)
Definition ClusterTemplateFor (name : string) (plan : Plan) (opts : TemplateOptions)
    : res string (ClusterTemplate * list string) :=
  let seed := default (template_named "") (Seed opts) in
  let '(network, n1) := network_field plan seed in
  let '(format, n2) := format_field seed in
  let '(vcpus, n3) := vcpu_field plan seed in
  let '(subsystems, n4) := subsystem_field seed in
  let '(size, sizeNote) := hugePagesFor plan in
  let n5 := if String.eqb size "" then [] else [sizeNote] in
  match journalDeviceFor plan (ForceJournalDevice opts) with
  | Err e => Err e
  | Ok (propose, journalNote) =>
      let journal := if negb (String.eqb journalNote "") && propose then Some true else None in
      let '(stripe, mode, n7) := stripe_field plan seed propose in
      let '(checksum, n8) := checksum_field seed in
      let '(perSocket, n10) := per_socket_field seed in
      let '(domains, n11) := domains_field plan seed stripe in
      let '(atomicity, n12) := atomicity_field seed in
      Ok
        (mkTemplate name network subsystems vcpus size format journal (ct_SocketsToUse seed) perSocket
           None [] None None checksum atomicity None None (Some stripe) mode None None "" None None
           domains None None None None None,
         (n1 ++ n2 ++ n3 ++ n4 ++ n5 ++ note_if journalNote ++ n7 ++ n8 ++ sockets_note seed ++ n10 ++
          n11 ++ n12)%list)
  end.

(** ** The operating system ([hostos.go]) *)

(** [distroFamilies] of [atlas-lib/inventory/hostos.go]. *)
Definition distroFamilies : list (string * string) :=
  [("ubuntu", "Debian"); ("debian", "Debian"); ("rhel", "RedHat"); ("centos", "RedHat");
   ("rocky", "RedHat"); ("almalinux", "RedHat"); ("fedora", "RedHat"); ("amzn", "RedHat");
   ("ol", "RedHat"); ("sles", "SUSE"); ("opensuse", "SUSE"); ("opensuse-leap", "SUSE");
   ("opensuse-tumbleweed", "SUSE"); ("alpine", "Alpine"); ("arch", "Arch")].

Definition FamilyOf (distro : string) : string :=
  default "" (snd <$> find_first (fun e => String.eqb e.1 distro) distroFamilies).

Definition distro_of (w : Worker) : string := os_Distro (r_HostOS (w_Report w)).
Definition family_of (w : Worker) : string := os_Family (r_HostOS (w_Report w)).

Definition familyOf (plan : Plan) (distro : string) : string :=
  match find_first (fun w => negb (String.eqb (family_of w) "")) (p_Workers plan) with
  | Some w => family_of w
  | None => FamilyOf distro
  end.

Definition familyNote (family : string) : string :=
  if String.eqb family "" then ", of no packaging family" else " of the " ++ family ++ " family".

Definition orUnread (distro : string) : string :=
  if String.eqb distro "" then "an unread os-release" else distro.

Definition distroSplit (byDistro : list (string * list Worker)) : string :=
  String.concat "; "
    (map (fun g => orUnread g.1 ++ " on " ++ String.concat ", " (sort_strings (map w_Name g.2)))
       (by_value byDistro)).

Definition HostOSFor (plan : Plan) : option HostOSSpec * list string :=
  match group_by distro_of (p_Workers plan) with
  | [] => (None, [])
  | [(distro, _)] =>
      if String.eqb distro "" then
        (None, ["hostOS is unstated: no worker's os-release could be read, which on a probe is the " ++
                "host's root filesystem not having been mounted into it. The cluster this expands into " ++
                "states no host OS either"])
      else
        let family := familyOf plan distro in
        (Some (mkHostOSSpec distro family),
         ["hostOS is " ++ distro ++ familyNote family ++ ", read from every worker's os-release. It is " ++
          "what ubuntuHost is decided by, and the one distribution that decides it is Ubuntu, whose " ++
          "NVMe-oF modules are in a package the base install does not carry"])
  | byDistro =>
      (None, ["the workers do not run one operating system, so hostOS is unstated: " ++
              distroSplit byDistro ++ ". One document builds one cluster and one storage-node " ++
              "DaemonSet, which carries one host OS for every worker it schedules, so this is a fleet " ++
              "to correct or a hostOS to state by hand"])
  end.

(** ** The document ([operatorops_controller.go]) *)

Definition configNamePrefix : string := "discovered-".
Definition clusterNameSuffix : string := "-cluster".
Definition clusterNameLimit : nat := 63.
Definition disambiguatorLength : nat := 8.

(** The members of [DiscoverSpec] a draft reads beyond what the plan was made of. *)
Record DraftSpec := mkDraftSpec {
  ConfigName : string;
  draft_ClusterRef : string;
  draft_Tolerations : list Verbatim;
  draft_ForceJournalDevice : option bool;
}.

Definition prefix (n : nat) (s : string) : string := of_bytes (List.firstn n (to_bytes s)).

(** [clusterDisambiguator]; [uid] is the identity of the [kube-system] namespace, empty
    where it could not be read. *)
Definition clusterDisambiguator (uid : string) : string :=
  prefix disambiguatorLength
    (of_bytes (List.filter (fun a => negb (Ascii.eqb a "-")) (to_bytes uid))).

Definition clusterNameOf (name disambiguator : string) : string :=
  if String.eqb disambiguator "" then name ++ clusterNameSuffix
  else
    let room := (Z.of_nat clusterNameLimit - Z.of_nat (String.length clusterNameSuffix) -
                 Z.of_nat (String.length disambiguator) - 1)%Z in
    let base := if (0 <? room)%Z && (room <? Z.of_nat (String.length name))%Z
                then prefix (Z.to_nat room) name else name in
    base ++ "-" ++ disambiguator ++ clusterNameSuffix.

Definition with_Tolerations (t : ClusterTemplate) (tolerations : list Verbatim) : ClusterTemplate :=
  mkTemplate (ct_Name t) (ct_Network t) (ct_MaxSubsystemCount t) (ct_VCPUCount t)
    (ct_MinHugePagesSize t) (ct_EnableDriveFormat t) (ct_EnableJournalDevice t) (ct_SocketsToUse t)
    (ct_NodesPerSocket t) (ct_InitContainerResources t) tolerations (ct_ContainerResources t)
    (ct_NodeProvisioningBudget t) (ct_EnableChecksumValidation t) (ct_EnableAtomicity4K t)
    (ct_EnableCpuTopology t) (ct_EnableKubeletConfiguration t) (ct_Stripe t) (ct_ClusterMode t)
    (ct_EnableArbitration t) (ct_Arbitration t) (ct_FabricType t) (ct_OpenShift t) (ct_Ports t)
    (ct_EnableFailureDomains t) (ct_EnableSyncReplication t) (ct_Stretched t)
    (ct_EnableNodeAffinity t) (ct_Backup t) (ct_KMS t).

Definition growth_note (cluster : string) : string :=
  "the draft grows the existing cluster " ++ cluster ++ ", so it proposes no cluster layout".

Definition tolerations_note (tolerations : list Verbatim) : string :=
  "tolerations are the " ++ Count tolerations ++ " this run probed with, because a worker whose taint " ++
  "a probe had to tolerate is one a storage node has to tolerate as well. This is the line to " ++
  "correct if the fleet's taints are not the cluster's".

(** [draftFor]: the name of the document, the document, and the notes. *)
Definition draftFor (ops : string) (environment : KubernetesEnvironment) (uid : string)
    (spec : DraftSpec) (plan : Plan) : res string (string * ClusterDeploymentConfigSpec * list string) :=
  let name := if String.eqb (ConfigName spec) "" then configNamePrefix ++ ops else ConfigName spec in
  let '(hostOS, hostNotes) := HostOSFor plan in
  let document clusterRef cluster :=
    mkDocument false environment hostOS None clusterRef cluster None (p_NodeSets plan) in
  if negb (String.eqb (draft_ClusterRef spec) "") then
    Ok (name, document (draft_ClusterRef spec) None,
        (hostNotes ++ [growth_note (draft_ClusterRef spec)])%list)
  else
    match ClusterTemplateFor (clusterNameOf name (clusterDisambiguator uid)) plan
            (mkOptions None (is_true (draft_ForceJournalDevice spec))) with
    | Err e => Err e
    | Ok (template, notes) =>
        match draft_Tolerations spec with
        | [] => Ok (name, document "" (Some template), (hostNotes ++ notes)%list)
        | tolerations =>
            Ok (name, document "" (Some (with_Tolerations template tolerations)),
                (hostNotes ++ notes ++ [tolerations_note tolerations])%list)
        end
    end.

End DiscoveryTemplate.
