(* ===== verification/DocumentChecks.v ===== *)
(** What a deployment document is checked against: [validation.go], [erasurecoding.go],
    [topology.go], [failuredomains.go], [network.go] and [supercluster.go] of
    [operator/internal/controllers/deployment], and the approval guard
    [clusterdeploymentconfig_validator.go] of [operator/internal/webhook].

    [Reader] is what the reads of one pass answer.  [validate] is the controller's check of a
    draft, [checkApproval] and [Handle] the webhook's of the edit that approves it. *)

From Stdlib Require Import Ascii String.
From S2P Require Import Prelude.
From S2P Require Import StateMachine.
From S2P Require Import OpsGraphs.
From S2P Require Import GoStrings.
From S2P Require Import Admission.
From S2P Require Import Discovery.
From S2P Require Import DiscoveryNet.
From S2P Require Import Documents.
From S2P Require Import Kube.
From S2P Require Import DiscoveryGroups.
From S2P Require Import Stripes.

#[local] Open Scope string_scope.

Module DocumentChecks.

Import Discovery DiscoveryNet Documents DiscoveryGroups Stripes.

(** ** The objects, and what a reader answers *)

(** What the expansion records of itself: its position in the graph of [OpsGraphs], and
    what it built. *)
Record ClusterDeploymentConfigStatus := mkStatus {
  cs_Phase : string;
  cs_Step : KubeSnapshot;
  cs_ClusterRef : string;
  cs_Members : list ExpansionMember;
  cs_NodeRefs : list string;
  cs_Message : string;
  cs_ObservedGeneration : Z;
  cs_ExpansionStartedAt : option Time;
}.

Record ClusterDeploymentConfig := mkConfig {
  cf_Namespace : string;
  cf_Name : string;
  cf_ResourceVersion : nat;
  cf_Generation : Z;
  cf_Deleting : bool;
  cf_Labels : gmap string string;
  cf_Spec : ClusterDeploymentConfigSpec;
  cf_Status : ClusterDeploymentConfigStatus;
}.

Record Reader := mkReader {
  rd_Cluster : string -> string -> read StorageCluster;
  rd_StorageNodes : string -> res string (list StorageNode);
  rd_Nodes : res string (list Node);
  rd_Configs : string -> res string (list ClusterDeploymentConfig);
}.

Definition with_Spec (c : ClusterDeploymentConfig) (spec : ClusterDeploymentConfigSpec)
    : ClusterDeploymentConfig :=
  mkConfig (cf_Namespace c) (cf_Name c) (cf_ResourceVersion c) (cf_Generation c) (cf_Deleting c)
    (cf_Labels c) spec (cf_Status c).

Definition clusterRef (c : ClusterDeploymentConfig) : string := dc_ClusterRef (cf_Spec c).
Definition template (c : ClusterDeploymentConfig) : option ClusterTemplate := dc_Cluster (cf_Spec c).
Definition nodeSets (c : ClusterDeploymentConfig) : list NodeSet := dc_NodeSets (cf_Spec c).
Definition creates (c : ClusterDeploymentConfig) : bool := String.eqb (clusterRef c) "".

(** The two nested loops over the groups, and the three over the workers. *)
Definition groups_of (c : ClusterDeploymentConfig) : list (NodeSet * NodeGroup) :=
  flat_map (fun set => map (pair set) (ns_Groups set)) (nodeSets c).
Definition workers_of (c : ClusterDeploymentConfig) : list string :=
  flat_map (fun sg => ng_Workers sg.2) (groups_of c).

(** The groups a condition names, by their own name and by their node set's as well. *)
Definition group_names (p : NodeGroup -> bool) (c : ClusterDeploymentConfig) : list string :=
  map (fun sg => ng_Name sg.2) (List.filter (fun sg => p sg.2) (groups_of c)).
Definition group_paths (p : NodeGroup -> bool) (c : ClusterDeploymentConfig) : list string :=
  map (fun sg => ns_Name sg.1 ++ "/" ++ ng_Name sg.2) (List.filter (fun sg => p sg.2) (groups_of c)).

Definition reading_cluster (name err : string) : string :=
  "reading StorageCluster " ++ name ++ ": " ++ err.

Definition sortedKeys (set : gset string) : list string := sort_strings (elements set).

(** ** Superclusters ([supercluster.go]) *)

Definition IsSuperclusterDocument (c : ClusterDeploymentConfig) : bool :=
  creates c && match template c with Some _ => true | None => false end &&
  Nat.ltb 1 (length (nodeSets c)).

Section Members.

Context (rd : Reader).

Definition AddsMembers (c : ClusterDeploymentConfig) : res string bool :=
  if IsSuperclusterDocument c then Ok true
  else if creates c then Ok false
  else
    match rd_Cluster rd (cf_Namespace c) (clusterRef c) with
    | NotFound => Ok false
    | ReadError e => Err (reading_cluster (clusterRef c) e)
    | Found cluster => Ok match sp_Supercluster (sc_Spec cluster) with Some _ => true | None => false end
    end.

End Members.

Definition superclusterName (c : ClusterDeploymentConfig) : string :=
  if negb (creates c) then clusterRef c
  else match template c with Some t => ct_Name t | None => "" end.

(** The template under another name, and with a node set's overrides merged in. *)
Definition resized (t : ClusterTemplate) (name : string) (vcpus subsystems : option int32)
    (hugepages : string) (sockets : list string) (perSocket : option int32)
    (stripe : option StripeSpec) : ClusterTemplate :=
  mkTemplate name (ct_Network t) subsystems vcpus hugepages (ct_EnableDriveFormat t)
    (ct_EnableJournalDevice t) sockets perSocket (ct_InitContainerResources t) (ct_Tolerations t)
    (ct_ContainerResources t) (ct_NodeProvisioningBudget t) (ct_EnableChecksumValidation t)
    (ct_EnableAtomicity4K t) (ct_EnableCpuTopology t) (ct_EnableKubeletConfiguration t) stripe
    (ct_ClusterMode t) (ct_EnableArbitration t) (ct_Arbitration t) (ct_FabricType t) (ct_OpenShift t)
    (ct_Ports t) (ct_EnableFailureDomains t) (ct_EnableSyncReplication t) (ct_Stretched t)
    (ct_EnableNodeAffinity t) (ct_Backup t) (ct_KMS t).

Definition renamed (t : ClusterTemplate) (name : string) : ClusterTemplate :=
  resized t name (ct_VCPUCount t) (ct_MaxSubsystemCount t) (ct_MinHugePagesSize t) (ct_SocketsToUse t)
    (ct_NodesPerSocket t) (ct_Stripe t).

Definition or_else {A} (a b : option A) : option A := match a with Some _ => a | None => b end.

Definition applyOverrides (t : ClusterTemplate) (o : NodeSetClusterOverrides) : ClusterTemplate :=
  resized t (ct_Name t) (or_else (ov_VCPUCount o) (ct_VCPUCount t))
    (or_else (ov_MaxSubsystemCount o) (ct_MaxSubsystemCount t))
    (if negb (String.eqb (ov_MinHugePagesSize o) "") then ov_MinHugePagesSize o
     else ct_MinHugePagesSize t)
    (match ov_SocketsToUse o with [] => ct_SocketsToUse t | sockets => sockets end)
    (or_else (ov_NodesPerSocket o) (ct_NodesPerSocket t)) (or_else (ov_Stripe o) (ct_Stripe t)).

Definition asCreation (c : ClusterDeploymentConfig) : ClusterDeploymentConfig :=
  if creates c then c
  else
    let s := cf_Spec c in
    with_Spec c
      (mkDocument (dc_Approved s) (dc_Environment s) (dc_HostOS s) (dc_EdgeCluster s) ""
         (option_map (fun t => renamed t (dc_ClusterRef s)) (dc_Cluster s)) (dc_Images s) (dc_NodeSets s)).

Definition clustersBuilt (c : ClusterDeploymentConfig) (members : bool) : Z :=
  if members then Z.of_nat (length (nodeSets c)) else 1.

Definition memberView (c : ClusterDeploymentConfig) (set : NodeSet) : ClusterDeploymentConfig :=
  let s := cf_Spec (asCreation c) in
  let merged :=
    match dc_Cluster s, ns_Cluster set with
    | Some t, Some o => Some (applyOverrides t o)
    | t, _ => t
    end in
  with_Spec c
    (mkDocument (dc_Approved s) (dc_Environment s) (dc_HostOS s) (dc_EdgeCluster s) (dc_ClusterRef s)
       merged (dc_Images s) [set]).

Definition memberName (cluster nodeSet suffix : string) : string :=
  cluster ++ "-" ++ nodeSet ++ "-" ++ suffix.

(** ** Slots and devices ([expansion.go]) *)

Definition slotsOf (socketsToUse : list string) (nodesPerSocket : option int32) : int32 :=
  let sockets := wrap32 (Z.of_nat (length socketsToUse)) in
  let sockets := (if Z.eqb sockets 0 then 1 else sockets)%Z in
  let perSocket := match nodesPerSocket with
                   | Some n => if (0 <? n)%Z then n else 1%Z
                   | None => 1%Z
                   end in
  wrap32 (sockets * perSocket).

Definition slotsPerWorker (cluster : StorageCluster) : int32 :=
  match sp_StorageNodes (sc_Spec cluster) with
  | None => 1
  | Some workload => slotsOf (wl_SocketsToUse workload) (wl_NodesPerSocket workload)
  end.

(** The slots of a loop over [slot < slots]. *)
Definition slots_below (slots : int32) : list int32 := map Z.of_nat (seq 0 (Z.to_nat slots)).

Definition devicesOf (group : NodeGroup) : list string :=
  match ng_Devices group with
  | None => []
  | Some d => match sel_NVMe d with [] => sel_Block d | nvme => nvme end
  end.

(** The class a group's selection states, if it states one. *)
Definition group_class (group : NodeGroup) : option string :=
  match ng_Devices group with
  | None => None
  | Some d => match sel_NVMe d, sel_Block d with
              | _ :: _, _ => Some StorageClusterDeviceClassNVMe
              | [], _ :: _ => Some StorageClusterDeviceClassLogicalBlock
              | [], [] => None
              end
  end.

Definition DeviceClassOf (c : ClusterDeploymentConfig) : string :=
  default "" (head (omap (fun sg => group_class sg.2) (groups_of c))).

Definition TargetClusterName (c : ClusterDeploymentConfig) : string :=
  if negb (creates c) then clusterRef c
  else match template c with Some t => ct_Name t | None => "" end.

(** ** Erasure coding ([erasurecoding.go]) *)

(** A finding, and a check of the stripe: the reason its event is raised under, and the
    sentence somebody reads. *)
Record finding := mkFound { reason : string; message : string }.

#[global] Instance finding_eq_dec : EqDecision finding.
Proof. solve_decision. Defined.

Definition StripeUnsupported : string := "StripeUnsupported".
Definition StripeBelowMinimumNodes : string := "StripeBelowMinimumNodes".
Definition StripeBelowMinimumWorkers : string := "StripeBelowMinimumWorkers".
Definition StripeSingleNodeCount : string := "StripeSingleNodeCount".
Definition StripeBelowMinimumDevices : string := "StripeBelowMinimumDevices".

(** A set of storage nodes, and the workers they sit on. *)
Record footprint := mkFootprint { slots : gset (string * Z); workers : gset string }.

Definition newFootprint : footprint := mkFootprint ∅ ∅.
Definition add (f : footprint) (worker : string) (slot : int32) : footprint :=
  mkFootprint ({[(worker, slot)]} ∪ slots f) ({[worker]} ∪ workers f).
Definition merge (f other : footprint) : footprint :=
  mkFootprint (slots f ∪ slots other) (workers f ∪ workers other).
Definition nodes (f : footprint) : Z := Z.of_nat (size (slots f)).
Definition hosts (f : footprint) : Z := Z.of_nat (size (workers f)).

Definition plannedFootprint (c : ClusterDeploymentConfig) (slots : int32) : footprint :=
  foldl (fun f ws => add f ws.1 ws.2) newFootprint
    (flat_map (fun worker => map (pair worker) (slots_below slots)) (workers_of c)).

Definition journalPhrase (journal : Z) : string :=
  if Z.eqb journal 0 then "" else " after the one enableJournalDevice dedicates to the journal".

(** [plural]: the word for a count. *)
Definition word (n : Z) (one many : string) : string := if Z.eqb n 1 then one else many.

Definition placementPhrase (scheme : Scheme) : string :=
  if Z.eqb (sch_ParityChunks scheme) 0 then ""
  else
    " (" ++ Itoa (sch_DataChunks scheme + sch_ParityChunks scheme) ++ " to place a stripe across and " ++
    Itoa (sch_ParityChunks scheme) ++ " " ++ word (sch_ParityChunks scheme) "spare" "spares" ++
    " to rebuild onto)".

Definition leavesPhrase (c : ClusterDeploymentConfig) : string :=
  if negb (creates c) then "leaves the cluster with" else "produces".

Definition dedicatesJournal (c : ClusterDeploymentConfig) : bool :=
  match template c with Some t => is_true (ct_EnableJournalDevice t) | None => false end.

(** The devices a group names for data, if it names any. *)
Definition dataDevicesOf (journal : Z) (group : NodeGroup) : option Z :=
  match ng_Devices group with
  | None => None
  | Some d =>
      let named := Z.of_nat (length (sel_NVMe d) + length (sel_Block d)) in
      if Z.eqb named 0 then None else Some (named - journal)%Z
  end.

(** The first group short of a device for each chunk of a stripe. *)
Definition shortGroup (minimum journal : Z) (c : ClusterDeploymentConfig)
    : option (NodeSet * NodeGroup * Z) :=
  head (omap (fun sg => match dataDevicesOf journal sg.2 with
                        | Some data => if (data <? minimum)%Z then Some (sg, data) else None
                        | None => None
                        end) (groups_of c)).

Definition singleNodeChecks (c : ClusterDeploymentConfig) (scheme : Scheme) (subject : string)
    (total : footprint) : list finding :=
  if negb (Z.eqb (nodes total) 1) then
    [mkFound StripeSingleNodeCount
       ("the cluster is a single-node cluster (clusterMode Single), which runs exactly one storage " ++
        "node, and this document " ++ leavesPhrase c ++ " " ++ Itoa (nodes total))]
  else
    let minimum := MinimumDevicesPerNode scheme (mkTopology true false) in
    let journal := (if dedicatesJournal c then 1 else 0)%Z in
    match shortGroup minimum journal c with
    | None => []
    | Some (set, group, data) =>
        [mkFound StripeBelowMinimumDevices
           (subject ++ " is " ++ notation scheme ++ " on a single-node cluster, which places each chunk " ++
            "of a stripe on its own device and so needs at least " ++ Itoa minimum ++ " storage " ++
            "devices, and group " ++ ng_Name group ++ " of node set " ++ ns_Name set ++
            " hands over " ++ Itoa data ++ journalPhrase journal)]
    end.

(** What is known of the deployment a document describes. *)
Record subject_of := mkSubject {
  su_scheme : Scheme;
  su_subject : string;
  su_topology : Topology;
  su_slots : int32;
  su_existing : footprint;
}.

Section Stripes.

Context (rd : Reader).

Definition slot_of (n : StorageNode) : int32 := default 0%Z (sn_Slot n).

(** The nodes a cluster has on this site. *)
Definition local_nodes (cluster : string) (all : list StorageNode) : list StorageNode :=
  List.filter (fun n => String.eqb (sn_ClusterRef n) cluster && negb (IsRemote n)) all.

Definition existingFootprint (namespace cluster : string) : res string footprint :=
  match rd_StorageNodes rd namespace with
  | Err e => Err ("listing the nodes of cluster " ++ cluster ++ ": " ++ e)
  | Ok all =>
      Ok (foldl (fun f n => add f (sn_WorkerNode n) (slot_of n)) newFootprint (local_nodes cluster all))
  end.

Definition stripeSubject (namespace : string) (c : ClusterDeploymentConfig)
    : res string (option subject_of) :=
  if creates c then
    match template c with
    | None => Ok None
    | Some t =>
        Ok (Some (mkSubject (SchemeOf (ct_Stripe t)) "spec.cluster.stripe" (TopologyOf (ct_ClusterMode t))
                    (slotsOf (ct_SocketsToUse t) (ct_NodesPerSocket t)) newFootprint))
    end
  else
    match rd_Cluster rd namespace (clusterRef c) with
    | NotFound => Ok None
    | ReadError e => Err (reading_cluster (clusterRef c) e)
    | Found cluster =>
        held <-- existingFootprint namespace (sc_Name cluster) ;;
        Ok (Some (mkSubject (SchemeOf (sp_Stripe (sc_Spec cluster)))
                    ("the stripe of cluster " ++ sc_Name cluster)
                    (TopologyOf (sp_ClusterMode (sc_Spec cluster))) (slotsPerWorker cluster) held))
    end.

(** What the checks make of a subject and of all the nodes the document leaves. *)
Definition stripe_checks (c : ClusterDeploymentConfig) (s : subject_of) (total : footprint)
    : list finding :=
  let scheme := su_scheme s in
  let minimum := MinimumNodesFor scheme (su_topology s) in
  if negb (IsSupported scheme) then
    [mkFound StripeUnsupported
       (su_subject s ++ " is " ++ notation scheme ++ ", which is not a scheme simplyblock supports (" ++
        SupportedNotation ++ "); the control plane refuses the cluster it would be created with, and " ++
        "that refusal lands after approval has made this document immutable")]
  else if SingleNode (su_topology s) then singleNodeChecks c scheme (su_subject s) total
  else if (nodes total <? minimum)%Z then
    [mkFound StripeBelowMinimumNodes
       (su_subject s ++ " is " ++ notation scheme ++ ", which needs at least " ++ Itoa minimum ++ " " ++
        word minimum "storage node" "storage nodes" ++ placementPhrase scheme ++
        ", and this document " ++ leavesPhrase c ++ " " ++ Itoa (nodes total))]
  else if (hosts total <? minimum)%Z then
    [mkFound StripeBelowMinimumWorkers
       (su_subject s ++ " is " ++ notation scheme ++ ", which needs at least " ++ Itoa minimum ++
        " storage nodes, and the " ++ Itoa (nodes total) ++ " this deployment has sit on " ++
        Itoa (hosts total) ++ " " ++ word (hosts total) "worker" "workers" ++ "; every node of a " ++
        "worker fails with the worker, so the spare the scheme rebuilds onto is not a spare")]
  else [].

Definition StripeChecks (namespace : string) (c : ClusterDeploymentConfig) : res string (list finding) :=
  subject <-- stripeSubject namespace c ;;
  match subject with
  | None => Ok []
  | Some s => Ok (stripe_checks c s (merge (su_existing s) (plannedFootprint c (su_slots s))))
  end.

(** ** The clusters a document builds ([validation.go]) *)

Record clusterScope := mkScope { sco_document : ClusterDeploymentConfig; sco_prefix : string }.

Definition clusterScopes (c : ClusterDeploymentConfig) (members : bool) : list clusterScope :=
  if members then
    map (fun set => mkScope (memberView c set) ("node set " ++ ns_Name set ++ ": ")) (nodeSets c)
  else [mkScope c ""].

Definition prefixed (prefix : string) (f : finding) : finding :=
  mkFound (reason f) (prefix ++ message f).

Definition ClusterStripeChecks (namespace : string) (c : ClusterDeploymentConfig)
    : res string (list finding) :=
  members <-- AddsMembers rd c ;;
  let c := if members then asCreation c else c in
  checks <-- traverse (fun scope =>
    found <-- StripeChecks namespace (sco_document scope) ;;
    Ok (map (prefixed (sco_prefix scope)) found)) (clusterScopes c members) ;;
  Ok (concat checks).

End Stripes.

(** ** The findings of a draft ([validation.go], [topology.go], [failuredomains.go]) *)

Definition WorkerNotFound : string := "WorkerNotFound".
Definition NoManagementInterface : string := "NoManagementInterface".
Definition NetworkAttachmentNotDeployable : string := "NetworkAttachmentNotDeployable".
Definition TooManyFailureDomains : string := "TooManyFailureDomains".
Definition MissingSites : string := "MissingSites".
Definition SiteMismatch : string := "SiteMismatch".
Definition FailureDomainLayout : string := "FailureDomainLayout".
Definition DeviceNotFound : string := "DeviceNotFound".
Definition DeviceClassMismatch : string := "DeviceClassMismatch".
Definition ClusterExists : string := "ClusterExists".
Definition ClusterNotFound : string := "ClusterNotFound".
Definition MemberTooLarge : string := "MemberTooLarge".
Definition MemberNameInvalid : string := "MemberNameInvalid".
Definition MemberSizingUnstated : string := "MemberSizingUnstated".
Definition MemberSpansRegions : string := "MemberSpansRegions".
Definition MemberMissingFailureDomain : string := "MemberMissingFailureDomain".

(** A finding there is when its text is not empty. *)
Definition found_if (why text : string) : list finding :=
  if String.eqb text "" then [] else [mkFound why text].

(** *** Workers and groups *)

Definition duplicateWorkers (c : ClusterDeploymentConfig) : list string :=
  sort_strings (omap (fun g => if Nat.ltb 1 (length g.2) then Some g.1 else None)
                  (group_by (fun w => w) (workers_of c))).

Definition duplicate_finding (c : ClusterDeploymentConfig) : list finding :=
  match duplicateWorkers c with
  | [] => []
  | found => [mkFound WorkerNotFound
      (String.concat ", " found ++ " " ++ plural (length found) "appears" "appear" ++ " in more than one " ++
       "group, and a storage node is identified by its worker and slot alone, so only the first group's " ++
       "devices and settings would reach it")]
  end.

Definition groupsWithoutDevices (c : ClusterDeploymentConfig) : list string :=
  group_paths (fun g => match devicesOf g with [] => true | _ => false end) c.

Definition devices_finding (c : ClusterDeploymentConfig) : list finding :=
  match groupsWithoutDevices c with
  | [] => []
  | found => [mkFound DeviceNotFound
      ("group " ++ String.concat ", " found ++ " " ++ plural (length found) "names" "name" ++
       " no devices, so its workers hand nothing to simplyblock")]
  end.

Definition groupsWithoutManagementInterface : ClusterDeploymentConfig -> list string :=
  group_names (fun g => String.eqb (ng_MgmtInterface g) "" &&
                        match ng_NetworkAttachment g with None => true | Some _ => false end).

Definition groupsWithNetworkAttachments : ClusterDeploymentConfig -> list string :=
  group_names (fun g => match ng_NetworkAttachment g with Some _ => true | None => false end).

Definition onANetwork (c : ClusterDeploymentConfig) : bool :=
  match template c with
  | Some t => match ct_Network t with Some _ => true | None => false end
  | None => false
  end.

Definition onHostNICs (c : ClusterDeploymentConfig) : bool :=
  match template c with
  | Some t => match ct_Network t with Some n => SpdkOnHostNetwork n | None => false end
  | None => false
  end.

Definition attachments_finding (c : ClusterDeploymentConfig) : list finding :=
  match groupsWithNetworkAttachments c with
  | [] => []
  | groups => [mkFound NetworkAttachmentNotDeployable
      ("group(s) " ++ String.concat ", " groups ++ " attach their storage nodes through " ++
       "NetworkAttachmentDefinitions, and this operator does not build storage nodes on network " ++
       "attachments yet")]
  end.

Definition management_finding (c : ClusterDeploymentConfig) : list finding :=
  match groupsWithoutManagementInterface c with
  | [] => []
  | groups =>
      if negb (onANetwork c) || onHostNICs c then
        [mkFound NoManagementInterface
           ("group(s) " ++ String.concat ", " groups ++ " name no management interface, and the control " ++
            "plane refuses a node it cannot find a management address on")]
      else []
  end.

(** *** Interfaces *)

Definition attachmentLabel (a : Attachment) : string :=
  if String.eqb (at_Data a) "" then "management " ++ at_Management a
  else "management " ++ at_Management a ++ ", data " ++ at_Data a.

Definition mgmt_of (g : NodeGroup) : option string :=
  if String.eqb (ng_MgmtInterface g) "" then None else Some (ng_MgmtInterface g).
Definition data_of (g : NodeGroup) : option string :=
  match ng_DataInterfaces g with [] => None | data => Some (String.concat "," data) end.

(** The distinct values groups state. *)
Definition stated (value : NodeGroup -> option string) (c : ClusterDeploymentConfig) : gset string :=
  list_to_set (omap (fun sg => value sg.2) (groups_of c)).

Definition differing (what sep : string) (values : gset string) : string :=
  "the groups name different " ++ what ++ " (" ++ String.concat sep (sortedKeys values) ++
  "), and one DaemonSet serves every node of a cluster, so they cannot differ".

Definition conflictingInterfaces (c : ClusterDeploymentConfig) : string :=
  let mgmt := stated mgmt_of c in
  let data := stated data_of c in
  let attachments := stated (fun g => option_map attachmentLabel (ng_NetworkAttachment g)) c in
  if Nat.ltb 1 (size mgmt) then differing "management interfaces" ", " mgmt
  else if Nat.ltb 1 (size data) then differing "data interfaces" "; " data
  else if Nat.ltb 1 (size attachments) then differing "network attachments" "; " attachments
  else "".

(** *** Failure domains *)

Definition maxFailureDomains : Z := 256.

(** The labels no entry has, each once, sorted. *)
Definition fresh_labels (assigned : list FailureDomainIndex) (labels : list string) : list string :=
  sort_strings
    (elements ((list_to_set (List.filter (fun l => negb (String.eqb l "")) labels) : gset string) ∖
               list_to_set (map fd_Name assigned))).

(** [strconv.ParseInt(label, 10, 32)], of what is not negative. *)
Definition parse_index (label : string) : option Z :=
  match Atoi label with
  | Some n => if (0 <=? n)%Z && (n <=? int32_max)%Z then Some n else None
  | None => None
  end.

(** The first pass: a label that is a number claims its own value. *)
Fixpoint claim_numbers (taken : gset Z) (fresh : list string)
    : gset Z * list FailureDomainIndex * list string :=
  match fresh with
  | [] => (taken, [], [])
  | label :: fresh =>
      match parse_index label with
      | Some n =>
          if decide (n ∈ taken) then
            let '(taken, claimed, named) := claim_numbers taken fresh in (taken, claimed, label :: named)
          else
            let '(taken, claimed, named) := claim_numbers ({[n]} ∪ taken) fresh in
            (taken, mkDomainIndex label n :: claimed, named)
      | None =>
          let '(taken, claimed, named) := claim_numbers taken fresh in (taken, claimed, label :: named)
      end
  end.

(** The lowest free index from [next] on; one more than there are taken is enough to look
    at. *)
Fixpoint lowest_free (fuel : nat) (taken : gset Z) (next : Z) : Z :=
  match fuel with
  | O => next
  | S fuel => if decide (next ∈ taken) then lowest_free fuel taken (next + 1)%Z else next
  end.

(** The second pass: the others take the lowest index free, in the order of their names. *)
Fixpoint name_others (taken : gset Z) (next : Z) (named : list string) : list FailureDomainIndex :=
  match named with
  | [] => []
  | label :: named =>
      let n := lowest_free (size taken) taken next in
      mkDomainIndex label n :: name_others ({[n]} ∪ taken) n named
  end.

Definition by_index (a b : FailureDomainIndex) : Prop := (fd_Index a <= fd_Index b)%Z.
#[local] Instance by_index_dec : RelDecision by_index.
Proof. unfold RelDecision, by_index. solve_decision. Defined.

Definition assignFailureDomains (assigned : list FailureDomainIndex) (labels : list string)
    : list FailureDomainIndex :=
  let '(taken, claimed, named) :=
    claim_numbers (list_to_set (map fd_Index assigned)) (fresh_labels assigned labels) in
  merge_sort by_index (assigned ++ claimed ++ name_others taken 0 named)%list.

Definition failureDomainsOf (c : ClusterDeploymentConfig) : list string :=
  List.filter (fun l => negb (String.eqb l "")) (map (fun sg => ng_FailureDomain sg.2) (groups_of c)).

(** The workers of each domain, counted; nothing where a group declares none. *)
Definition group_layout (c : ClusterDeploymentConfig) : gmap string Z :=
  (fun workers : gset string => Z.of_nat (size workers)) <$>
    foldl (fun (m : gmap string (gset string)) sg =>
      <[ng_FailureDomain sg.2 :=
          default ∅ (m !! ng_FailureDomain sg.2) ∪ list_to_set (ng_Workers sg.2)]> m) ∅ (groups_of c).

Definition failureDomainLayoutRefusal (c : ClusterDeploymentConfig) : string :=
  match template c with
  | None => ""
  | Some t =>
      if negb (creates c) || negb (is_true (ct_EnableFailureDomains t)) then ""
      else if existsb (fun sg => String.eqb (ng_FailureDomain sg.2) "") (groups_of c) then ""
      else FailureDomainViolation (group_layout c) (SchemeOf (ct_Stripe t))
  end.

(** *** Limits *)

Definition maxStorageNodesPerCluster : Z := 32.

Section Limits.

Context `{!Library}.

Definition set_slots (c : ClusterDeploymentConfig) (set : NodeSet) : int32 :=
  match template (memberView c set) with
  | Some t => slotsOf (ct_SocketsToUse t) (ct_NodesPerSocket t)
  | None => 1
  end.

Definition set_size (set : NodeSet) : Z :=
  Z.of_nat (length (flat_map ng_Workers (ns_Groups set))).

Definition size_limit (c : ClusterDeploymentConfig) (set : NodeSet) : list finding :=
  let slots := set_slots c set in
  let nodes := (set_size set * slots)%Z in
  if (maxStorageNodesPerCluster <? nodes)%Z then
    [mkFound MemberTooLarge
       ("node set " ++ ns_Name set ++ " makes " ++ Itoa nodes ++ " storage nodes, and a cluster holds at " ++
        "most " ++ Itoa maxStorageNodesPerCluster ++ ": split its workers into node sets of at most " ++
        Itoa (Z.quot maxStorageNodesPerCluster slots) ++ " workers, each a member of a supercluster")]
  else [].

Definition name_limit (c : ClusterDeploymentConfig) (members : bool) (set : NodeSet) : list finding :=
  if negb members then []
  else
    let name := memberName (superclusterName c) (ns_Name set) "abc" in
    match IsDNS1123Label name with
    | [] => []
    | errs => [mkFound MemberNameInvalid
        ("node set " ++ ns_Name set ++ " makes a member named like " ++ name ++ ", which a StorageCluster " ++
         "cannot be named (" ++ String.concat "; " errs ++ "): shorten the node set's name or the " ++
         "cluster's")]
    end.

Definition memberLimits (c : ClusterDeploymentConfig) (members : bool) : list finding :=
  flat_map (fun set => size_limit c set ++ name_limit c members set)%list (nodeSets c).

End Limits.

(** *** Topology *)

Definition region_of (n : Node) : string := default "" (node_Labels n !! LabelTopologyRegion).

Definition set_regions (regions : gmap string string) (set : NodeSet) : gset string :=
  list_to_set (omap (fun w => regions !! w) (flat_map ng_Workers (ns_Groups set))).

Definition spans_finding (set : NodeSet) (held : gset string) : finding :=
  mkFound MemberSpansRegions
    ("node set " ++ ns_Name set ++ " lists workers in regions " ++ String.concat ", " (sortedKeys held) ++
     ", and a member stays within one region").

(** The findings of the sets that span regions, and the region of each other set that has
    one, by its name. *)
Definition region_findings (regions : gmap string string) (c : ClusterDeploymentConfig)
    : list finding * gmap string string :=
  foldl (fun acc set =>
    let held := set_regions regions set in
    match elements held with
    | [] => acc
    | [region] => (acc.1, <[ns_Name set := region]> acc.2)
    | _ => ((acc.1 ++ [spans_finding set held])%list, acc.2)
    end) ([], ∅) (nodeSets c).

Definition set_domains (set : NodeSet) : gset string :=
  list_to_set (List.filter (fun l => negb (String.eqb l "")) (map ng_FailureDomain (ns_Groups set))).

Definition region_domains (setRegion : gmap string string) (c : ClusterDeploymentConfig) (region : string)
    : gset string :=
  ⋃ (map set_domains
       (List.filter (fun set => String.eqb (default "" (setRegion !! ns_Name set)) region) (nodeSets c))).

(** The domains recorded under a node set's name, which are the last set's of that name. *)
Definition named_domains (c : ClusterDeploymentConfig) (name : string) : gset string :=
  default ∅ (set_domains <$> last (List.filter (fun s => String.eqb (ns_Name s) name) (nodeSets c))).

Definition missingRegionDomains (setRegion : gmap string string) (c : ClusterDeploymentConfig)
    : list finding :=
  omap (fun set =>
    let missing := region_domains setRegion c (default "" (setRegion !! ns_Name set)) ∖
                   named_domains c (ns_Name set) in
    if decide (missing = ∅) then None
    else Some (mkFound MemberMissingFailureDomain
      ("node set " ++ ns_Name set ++ " holds no worker in failure domain " ++
       String.concat ", " (sortedKeys missing) ++ ", which another node set of its region holds: every " ++
       "member of a region holds every failure domain the region has"))) (nodeSets c).

(** *** What is read of the cluster *)

Section Validation.

Context `{!Library} (rd : Reader).

Definition present_workers : res string (gset string) :=
  match rd_Nodes rd with
  | Err e => Err ("listing the Kubernetes workers: " ++ e)
  | Ok nodes => Ok (list_to_set (map node_Name nodes))
  end.

Definition missingWorkers (c : ClusterDeploymentConfig) : res string (list string) :=
  present <-- present_workers ;;
  Ok (sortedKeys ((list_to_set (workers_of c) : gset string) ∖ present)).

(** The cluster a growth document names, for the checks that let a missing one pass. *)
Definition grown_cluster (c : ClusterDeploymentConfig) : res string (option StorageCluster) :=
  if creates c then Ok None
  else
    match rd_Cluster rd (cf_Namespace c) (clusterRef c) with
    | NotFound => Ok None
    | ReadError e => Err (reading_cluster (clusterRef c) e)
    | Found cluster => Ok (Some cluster)
    end.

(** The same for the checks that let any failure to read it pass. *)
Definition known_cluster (c : ClusterDeploymentConfig) : option StorageCluster :=
  match rd_Cluster rd (cf_Namespace c) (clusterRef c) with Found cluster => Some cluster | _ => None end.

Definition held_class (cluster : StorageCluster) : string :=
  if String.eqb (sp_DeviceClass (sc_Spec cluster)) "" then StorageClusterDeviceClassNVMe
  else sp_DeviceClass (sc_Spec cluster).

Definition deviceClassMismatch (c : ClusterDeploymentConfig) : res string string :=
  grown <-- grown_cluster c ;;
  match grown with
  | None => Ok ""
  | Some cluster =>
      let stated := DeviceClassOf c in
      if String.eqb stated "" || String.eqb stated (held_class cluster) then Ok ""
      else Ok ("the groups name " ++ stated ++ " devices and cluster " ++ sc_Name cluster ++
               " is built out of " ++ held_class cluster ++ "; an erasure-coding stripe placed across " ++
               "both classes is written at the slower one's rate")
  end.

(** A flag of the cluster the document acts on: its template's, or the live cluster's. *)
Definition required (of_template : ClusterTemplate -> option bool) (of_spec : StorageClusterSpec -> option bool)
    (c : ClusterDeploymentConfig) : bool :=
  if creates c then match template c with Some t => is_true (of_template t) | None => false end
  else match known_cluster c with Some cluster => is_true (of_spec (sc_Spec cluster)) | None => false end.

Definition failureDomainsRequired : ClusterDeploymentConfig -> bool :=
  required ct_EnableFailureDomains sp_EnableFailureDomains.
Definition syncReplicationRequired : ClusterDeploymentConfig -> bool :=
  required ct_EnableSyncReplication sp_EnableSyncReplication.

Definition missingFailureDomains (c : ClusterDeploymentConfig) : string :=
  if negb (failureDomainsRequired c) then ""
  else
    match group_paths (fun g => String.eqb (ng_FailureDomain g) "") c with
    | [] => ""
    | found => "the cluster has failure domains enabled and group " ++ String.concat ", " found ++ " " ++
               plural (length found) "declares" "declare" ++ " none; provisioning holds until each " ++
               "declares one"
    end.

Definition stretchedSiteOf (c : ClusterDeploymentConfig) : string :=
  if creates c then
    match template c with
    | Some t => match ct_Stretched t with Some s => Documents.st_Site s | None => "" end
    | None => ""
    end
  else match known_cluster c with Some cluster => StretchedSite cluster | None => "" end.

Definition missingSites (c : ClusterDeploymentConfig) : string :=
  if negb (syncReplicationRequired c) || negb (String.eqb (stretchedSiteOf c) "") then ""
  else
    match group_paths (fun g => String.eqb (ng_Site g) "") c with
    | [] => ""
    | found => "the cluster has sync replication enabled and group " ++ String.concat ", " found ++ " " ++
               plural (length found) "declares" "declare" ++ " no site; provisioning holds until each " ++
               "declares one"
    end.

Definition siteMismatches (c : ClusterDeploymentConfig) : string :=
  let site := stretchedSiteOf c in
  if String.eqb site "" then ""
  else
    match List.filter (fun sg => negb (String.eqb (ng_Site sg.2) "") && negb (String.eqb (ng_Site sg.2) site))
            (groups_of c) with
    | [] => ""
    | found =>
        "this document deploys site " ++ site ++ " of a stretched cluster, and group " ++
        String.concat ", " (map (fun sg => ns_Name sg.1 ++ "/" ++ ng_Name sg.2 ++ " (site " ++
          ng_Site sg.2 ++ ")") found) ++ " " ++
        plural (length found) "names" "name" ++ " another site; every group must be on site " ++ site
    end.

Definition failureDomainOverflow (c : ClusterDeploymentConfig) : res string string :=
  grown <-- grown_cluster c ;;
  let assigned := match grown with Some cluster => sc_FailureDomains cluster | None => [] end in
  let total := Z.of_nat (length (assignFailureDomains assigned (failureDomainsOf c))) in
  if (total <=? maxFailureDomains)%Z then Ok ""
  else Ok ("the document would bring the cluster to " ++ Itoa total ++ " failure domains, and a cluster " ++
           "maps at most " ++ Itoa maxFailureDomains).

Definition growthLimit (c : ClusterDeploymentConfig) (members : bool) : res string string :=
  grown <-- (if members then Ok None else grown_cluster c) ;;
  match grown with
  | None => Ok ""
  | Some cluster =>
      held <-- existingFootprint rd (cf_Namespace c) (sc_Name cluster) ;;
      let total := merge held (plannedFootprint c (slotsPerWorker cluster)) in
      if (nodes total <=? maxStorageNodesPerCluster)%Z then Ok ""
      else Ok ("the document adds " ++ Itoa (nodes total - nodes held) ++ " storage nodes to cluster " ++
               sc_Name cluster ++ ", which has " ++ Itoa (nodes held) ++ ", and a cluster holds at most " ++
               Itoa maxStorageNodesPerCluster)
  end.

Definition workerRegions : res string (gmap string string) :=
  match rd_Nodes rd with
  | Err e => Err ("listing the Kubernetes workers: " ++ e)
  | Ok nodes => Ok (foldl (fun m n => if String.eqb (region_of n) "" then m
                                      else <[node_Name n := region_of n]> m) ∅ nodes)
  end.

Definition topologyFindings (c : ClusterDeploymentConfig) : res string (list finding) :=
  regions <-- workerRegions ;;
  let '(findings, setRegion) := region_findings regions c in
  match template c with
  | Some t => if is_true (ct_EnableFailureDomains t)
              then Ok (findings ++ missingRegionDomains setRegion c)%list else Ok findings
  | None => Ok findings
  end.

(** *** Every finding *)

Definition sizing_finding (c : ClusterDeploymentConfig) : list finding :=
  match template c with
  | Some _ => []
  | None => [mkFound MemberSizingUnstated
      ("spec.clusterRef names supercluster " ++ clusterRef c ++ ", and the members the document adds have " ++
       "no sizing: state it in spec.cluster")]
  end.

Definition missing_finding (missing : list string) : list finding :=
  match missing with
  | [] => []
  | _ => [mkFound WorkerNotFound (String.concat ", " missing ++ " " ++
                                  plural (length missing) "is" "are" ++
                                  " not a node of this Kubernetes cluster")]
  end.

Definition scope_findings (scope : clusterScope) : list finding :=
  map (prefixed (sco_prefix scope))
    (found_if WorkerNotFound (conflictingInterfaces (sco_document scope)) ++
     found_if FailureDomainLayout (failureDomainLayoutRefusal (sco_document scope)))%list.

Definition validate (c : ClusterDeploymentConfig) : res string (list finding) :=
  members <-- AddsMembers rd c ;;
  let adds := members && negb (creates c) in
  let sizing := if adds then sizing_finding c else [] in
  let c := if adds then asCreation c else c in
  missing <-- missingWorkers c ;;
  mismatch <-- deviceClassMismatch c ;;
  overflow <-- failureDomainOverflow c ;;
  stripe <-- ClusterStripeChecks rd (cf_Namespace c) c ;;
  topology <-- topologyFindings c ;;
  grown <-- growthLimit c members ;;
  Ok (sizing ++ missing_finding missing ++ devices_finding c ++
      found_if DeviceClassMismatch mismatch ++ found_if DeviceNotFound (missingFailureDomains c) ++
      found_if MissingSites (missingSites c) ++ found_if SiteMismatch (siteMismatches c) ++
      found_if TooManyFailureDomains overflow ++ duplicate_finding c ++ stripe ++
      flat_map scope_findings (clusterScopes c members) ++ memberLimits c members ++ topology ++
      found_if MemberTooLarge grown ++ attachments_finding c ++ management_finding c)%list.

Definition summarize (findings : list finding) : string :=
  match findings with
  | [] => ""
  | [f] => message f
  | f :: rest => message f ++ " (and " ++ Count rest ++ " other " ++
                 plural (length rest) "problem" "problems" ++ ")"
  end.

End Validation.

(** ** The approval guard ([webhook/clusterdeploymentconfig_validator.go]) *)

#[global] Instance Spec_eq_dec : EqDecision ClusterDeploymentConfigSpec.
Proof.
  unfold EqDecision, Decision. repeat decide equality.
Defined.

Definition NoClusterNamed : string := "NoClusterNamed".

Definition without_role (t : ClusterTemplate) : ClusterTemplate :=
  match ct_Stretched t with
  | None => t
  | Some s =>
      mkTemplate (ct_Name t) (ct_Network t) (ct_MaxSubsystemCount t) (ct_VCPUCount t)
        (ct_MinHugePagesSize t) (ct_EnableDriveFormat t) (ct_EnableJournalDevice t) (ct_SocketsToUse t)
        (ct_NodesPerSocket t) (ct_InitContainerResources t) (ct_Tolerations t) (ct_ContainerResources t)
        (ct_NodeProvisioningBudget t) (ct_EnableChecksumValidation t) (ct_EnableAtomicity4K t)
        (ct_EnableCpuTopology t) (ct_EnableKubeletConfiguration t) (ct_Stripe t) (ct_ClusterMode t)
        (ct_EnableArbitration t) (ct_Arbitration t) (ct_FabricType t) (ct_OpenShift t) (ct_Ports t)
        (ct_EnableFailureDomains t) (ct_EnableSyncReplication t)
        (Some (Documents.mkStretched (Documents.st_Site s) (Documents.st_PeerSite s) (st_PeerCluster s) ""))
        (ct_EnableNodeAffinity t) (ct_Backup t) (ct_KMS t)
  end.

Definition with_Cluster (s : ClusterDeploymentConfigSpec) (cluster : option ClusterTemplate)
    : ClusterDeploymentConfigSpec :=
  mkDocument (dc_Approved s) (dc_Environment s) (dc_HostOS s) (dc_EdgeCluster s) (dc_ClusterRef s) cluster
    (dc_Images s) (dc_NodeSets s).

Definition withoutStretchedRole (s : ClusterDeploymentConfigSpec) : ClusterDeploymentConfigSpec :=
  with_Cluster s (option_map without_role (dc_Cluster s)).

(** [equality.Semantic.DeepEqual]: what is kept verbatim is compared here as it is spelled, where
    the code compares the quantities among it by their amounts, so a re-spelled amount is refused
    here and admitted there. *)
Definition afterApproval (old new : ClusterDeploymentConfig) : response :=
  if negb (dc_Approved (cf_Spec new)) then
    Denied ("spec.approved cannot be withdrawn: un-approving a document does not un-expand it, and the " ++
            "cluster and nodes it produced are removed by deleting them rather than by editing the " ++
            "record that describes them")
  else if negb (bool_decide (withoutStretchedRole (cf_Spec old) = withoutStretchedRole (cf_Spec new))) then
    Denied ("spec is immutable once spec.approved is true, because the document is then the record of " ++
            "what was deployed. To add nodes to the cluster this one built, write a second config naming " ++
            "it in spec.clusterRef")
  else Allowed "".

Section Approval.

Context (rd : Reader).

Definition missing_problem (missing : list string) : list finding :=
  match missing with
  | [] => []
  | _ => [mkFound WorkerNotFound ("a group names " ++ String.concat ", " missing ++ ", which " ++
                                  plural (length missing) "is" "are" ++ " not " ++
                                  plural (length missing) "a node" "nodes" ++ " of this Kubernetes cluster")]
  end.

(** The cluster a growth document grows, none for a document that may create its own, or
    the problem with what it names. *)
Definition resolveCluster (namespace : string) (c : ClusterDeploymentConfig)
    : res string (option StorageCluster + finding) :=
  let name := TargetClusterName c in
  if String.eqb name "" then
    Ok (inr (mkFound NoClusterNamed
      ("the document names neither a cluster to create in spec.cluster nor one to add nodes to in " ++
       "spec.clusterRef, so it describes no deployment")))
  else
    match rd_Cluster rd namespace name with
    | ReadError e => Err (reading_cluster name e)
    | NotFound =>
        if creates c then Ok (inl None)
        else Ok (inr (mkFound ClusterNotFound
               ("spec.clusterRef names StorageCluster " ++ name ++ ", and there is none by that name in " ++
                "namespace " ++ namespace)))
    | Found cluster =>
        if creates c then
          Ok (inr (mkFound ClusterExists
            ("spec.cluster.name is " ++ name ++ " and a StorageCluster by that name already exists; set " ++
             "spec.clusterRef to add nodes to it instead")))
        else Ok (inl (Some cluster))
    end.

Definition classMismatch (c : ClusterDeploymentConfig) (cluster : StorageCluster) : string :=
  let stated := DeviceClassOf c in
  if String.eqb stated "" || String.eqb stated (held_class cluster) then ""
  else "the groups name " ++ stated ++ " devices and StorageCluster " ++ sc_Name cluster ++
       " is built out of " ++ held_class cluster ++ "; an erasure-coding stripe placed across both " ++
       "classes is written at the slower one's rate".

(** Another approved document that creates the cluster this one would. *)
Definition owns (c other : ClusterDeploymentConfig) : bool :=
  negb (String.eqb (cf_Name other) (cf_Name c)) && dc_Approved (cf_Spec other) && creates other &&
  String.eqb (TargetClusterName other) (TargetClusterName c).

Definition otherOwner (namespace : string) (c : ClusterDeploymentConfig) : res string string :=
  match rd_Configs rd namespace with
  | Err e => Err ("listing the deployment configs of namespace " ++ namespace ++ ": " ++ e)
  | Ok configs => Ok match find_first (owns c) configs with Some other => cf_Name other | None => "" end
  end.

Definition owner_problem (c : ClusterDeploymentConfig) (owner : string) : list finding :=
  found_if ClusterExists
    (if String.eqb owner "" then ""
     else "ClusterDeploymentConfig " ++ owner ++ " is approved and creates StorageCluster " ++
          TargetClusterName c ++ " as well; both would race to create it and the loser is an immutable " ++
          "Failed document, so add to it with spec.clusterRef instead").

Definition checkApproval (namespace : string) (c : ClusterDeploymentConfig) : res string (list finding) :=
  missing <-- missingWorkers rd c ;;
  stripe <-- ClusterStripeChecks rd namespace c ;;
  resolved <-- resolveCluster namespace c ;;
  last <-- match resolved with
           | inr refused => Ok [refused]
           | inl (Some cluster) => Ok (found_if DeviceClassMismatch (classMismatch c cluster))
           | inl None => owner <-- otherOwner namespace c ;; Ok (owner_problem c owner)
           end ;;
  Ok (missing_problem missing ++ stripe ++ last)%list.

(** [Handle]; a request carries the decoded object, or the decoder's error. *)
Definition Handle (op : operation) (namespace : string) (old new : res string ClusterDeploymentConfig)
    : response :=
  match op with
  | Create | Update =>
      match new with
      | Err e => Errored StatusBadRequest e
      | Ok c =>
          let namespace := if String.eqb (cf_Namespace c) "" then namespace else cf_Namespace c in
          let check :=
            if negb (dc_Approved (cf_Spec c)) then Allowed ""
            else
              match checkApproval namespace c with
              | Err e => Errored StatusInternalServerError e
              | Ok [] => Allowed ""
              | Ok problems =>
                  Denied ("this document cannot be approved, and approving it is what makes it immutable: " ++
                          String.concat "; " (map message problems))
              end in
          match op with
          | Update =>
              match old with
              | Err e => Errored StatusBadRequest e
              | Ok old => if dc_Approved (cf_Spec old) then afterApproval old c else check
              end
          | _ => check
          end
      end
  | _ => Allowed ""
  end.

End Approval.

(** ** The nodes a document plans *)

Lemma slots_below_elem n s : s ∈ slots_below n <-> (0 <= s < n)%Z.
Proof.
  unfold slots_below. rewrite map_elem. split.
  - intros (k & -> & Hk). apply elem_of_seq in Hk. lia.
  - intros Hs. exists (Z.to_nat s). split; [lia|]. apply elem_of_seq. lia.
Qed.

Lemma add_all (l : list (string * Z)) f :
  foldl (fun f ws => add f ws.1 ws.2) f l =
  mkFootprint (list_to_set l ∪ slots f) (list_to_set l.*1 ∪ workers f).
Proof.
  revert f. induction l as [|[w s] l IH]; intros f; simpl.
  - destruct f. simpl. f_equal; set_solver.
  - rewrite IH. simpl. f_equal; set_solver.
Qed.

Definition worker_set (c : ClusterDeploymentConfig) : gset string := list_to_set (workers_of c).
Definition slot_set (n : int32) : gset Z := list_to_set (slots_below n).

Lemma planned_slots c n : slots (plannedFootprint c n) = cprod (worker_set c) (slot_set n).
Proof.
  unfold plannedFootprint. rewrite add_all. simpl. apply set_eq. intros [w s].
  rewrite elem_of_gset_cprod. simpl. unfold worker_set, slot_set.
  rewrite elem_of_union, !elem_of_list_to_set, flat_map_elem. split.
  - intros [(w' & Hin & Hw)|He]; [|by apply not_elem_of_empty in He].
    apply map_elem in Hin as (s' & [= -> ->] & Hs). done.
  - intros [Hw Hs]. left. exists w. split; [|done]. apply map_elem. by exists s.
Qed.

Lemma planned_workers c n : (0 < n)%Z -> workers (plannedFootprint c n) = worker_set c.
Proof.
  intros Hn. unfold plannedFootprint. rewrite add_all. simpl. apply set_eq. intros w.
  unfold worker_set. rewrite elem_of_union, !elem_of_list_to_set, list_elem_of_fmap. split.
  - intros [([w' s] & -> & Hin)|He]; [|by apply not_elem_of_empty in He].
    apply flat_map_elem in Hin as (w & Hin & Hw). by apply map_elem in Hin as (? & [= -> ->] & _).
  - intros Hw. left. exists (w, 0%Z). split; [done|]. apply flat_map_elem. exists w. split; [|done].
    apply map_elem. exists 0%Z. split; [done|]. apply slots_below_elem. lia.
Qed.

Lemma slot_set_size n : size (slot_set n) = Z.to_nat n.
Proof.
  unfold slot_set, slots_below. rewrite size_list_to_set.
  - by rewrite length_map, length_seq.
  - apply NoDup_fmap; [intros ? ?; lia|]. apply NoDup_seq.
Qed.

(** As many nodes as workers times slots, on as many hosts as workers. *)
Lemma planned_counts c n : (0 < n)%Z ->
  nodes (plannedFootprint c n) = (Z.of_nat (size (worker_set c)) * n)%Z /\
  hosts (plannedFootprint c n) = Z.of_nat (size (worker_set c)).
Proof.
  intros Hn. unfold nodes, hosts. rewrite planned_slots, planned_workers by done.
  rewrite size_cprod, slot_set_size. lia.
Qed.

(** ** What the stripe checks decide *)

(** A deployment that carries its stripe: a scheme the control plane takes, on as many
    nodes, and as many workers, as place a stripe and rebuild it; or on the one node of a
    single-node cluster, every group that names devices naming one for each chunk. *)
Definition carries (c : ClusterDeploymentConfig) (s : subject_of) (total : footprint) : Prop :=
  su_scheme s ∈ supported /\
  if SingleNode (su_topology s) then
    nodes total = 1%Z /\
    forall set group data, (set, group) ∈ groups_of c ->
      dataDevicesOf (if dedicatesJournal c then 1 else 0) group = Some data ->
      (sch_DataChunks (su_scheme s) + sch_ParityChunks (su_scheme s) <= data)%Z
  else
    (MinimumNodesFor (su_scheme s) (su_topology s) <= nodes total)%Z /\
    (MinimumNodesFor (su_scheme s) (su_topology s) <= hosts total)%Z.

Lemma head_None {A} (l : list A) : head l = None <-> l = [].
Proof. by destruct l. Qed.

Lemma shortGroup_None minimum journal c : shortGroup minimum journal c = None <->
  forall set group data, (set, group) ∈ groups_of c -> dataDevicesOf journal group = Some data ->
    (minimum <= data)%Z.
Proof.
  unfold shortGroup. rewrite head_None, omap_nil. split.
  - intros H set group data Hin Hd. specialize (H _ Hin). simpl in H. rewrite Hd in H.
    destruct (Z.ltb_spec data minimum); [done|lia].
  - intros H [set group] Hin. simpl. destruct (dataDevicesOf journal group) as [data|] eqn:E; [|done].
    specialize (H _ _ _ Hin E). destruct (Z.ltb_spec data minimum); [lia|done].
Qed.

Lemma stripe_checks_pass c s total : stripe_checks c s total = [] <-> carries c s total.
Proof.
  unfold stripe_checks, carries, IsSupported, MinimumNodesFor.
  destruct (contains supported (su_scheme s)) eqn:Es.
  2: { apply contains_false in Es. simpl. split; [done|]. by intros [? _]. }
  apply contains_true in Es. simpl. destruct (SingleNode (su_topology s)) eqn:Et.
  - unfold singleNodeChecks. destruct (Z.eqb_spec (nodes total) 1) as [->|Hn]; simpl.
    + destruct (shortGroup _ _ c) as [[[set group] data]|] eqn:E.
      * split; [done|]. intros (_ & _ & Hg). pose proof (proj2 (shortGroup_None _ _ _) Hg) as Hn.
        unfold MinimumDevicesPerNode in E. simpl in E. congruence.
      * split; [|done]. intros _. split; [done|]. split; [done|]. exact (proj1 (shortGroup_None _ _ _) E).
    + split; [done|]. by intros (_ & ? & _).
  - destruct (Z.ltb_spec (nodes total)
      (if TwoNode (su_topology s) && (sch_DataChunks (su_scheme s) =? 1)%Z && (sch_ParityChunks (su_scheme s) =? 1)%Z
       then 2 else MinimumNodes (su_scheme s))); [split; [done|intros (_ & ? & _); lia]|].
    destruct (Z.ltb_spec (hosts total)
      (if TwoNode (su_topology s) && (sch_DataChunks (su_scheme s) =? 1)%Z && (sch_ParityChunks (su_scheme s) =? 1)%Z
       then 2 else MinimumNodes (su_scheme s))); [split; [done|intros (_ & _ & ?); lia]|].
    split; done.
Qed.

Lemma stripe_checks_one c s total : (length (stripe_checks c s total) <= 1)%nat.
Proof. unfold stripe_checks, singleNodeChecks. repeat (case_match; simpl; try lia). Qed.

(** The stripe of a document is answered by at most one finding, and by none exactly where
    the deployment it leaves carries it, on distinct hosts. *)
Theorem stripe_checks_decide rd namespace c found (Hc : StripeChecks rd namespace c = Ok found) :
  (length found <= 1)%nat /\
  (found = [] <-> forall s, stripeSubject rd namespace c = Ok (Some s) ->
     carries c s (merge (su_existing s) (plannedFootprint c (su_slots s)))).
Proof.
  unfold StripeChecks in Hc. destruct (stripeSubject rd namespace c) as [[s|]|]; [| |done]; simplify_eq.
  - split; [apply stripe_checks_one|]. rewrite stripe_checks_pass. split; [by intros ? ? [= <-]|auto].
  - split; [simpl; lia|]. split; [|done]. by intros _ ? [=].
Qed.

(** ** The numbering of the failure domains *)

Lemma parse_index_range label n : parse_index label = Some n -> (0 <= n <= int32_max)%Z.
Proof. unfold parse_index. repeat case_match; naive_solver lia. Qed.

(** Labels claimed and labels left, of those the first pass is given. *)
Lemma claim_numbers_spec taken fresh : forall taken' claimed named,
  claim_numbers taken fresh = (taken', claimed, named) ->
  taken' = list_to_set (map fd_Index claimed) ∪ taken /\
  map fd_Name claimed ++ named ≡ₚ fresh /\
  NoDup (map fd_Index claimed) /\
  (forall e, e ∈ claimed -> fd_Index e ∉ taken /\ parse_index (fd_Name e) = Some (fd_Index e)) /\
  (forall l n, l ∈ named -> parse_index l = Some n -> n ∈ taken').
Proof.
  revert taken. induction fresh as [|label fresh IH]; intros taken taken' claimed named; simpl.
  { intros [= <- <- <-]. split; [set_solver|]. split; [done|]. split; [constructor|].
    split; [by intros ? ?%not_elem_of_nil|by intros ? ? ?%not_elem_of_nil]. }
  destruct (parse_index label) as [n|] eqn:En; [destruct (decide (n ∈ taken)) as [Hn|Hn]|];
    destruct (claim_numbers _ fresh) as [[t c] l] eqn:E; intros [= <- <- <-];
    specialize (IH _ _ _ _ E) as (Ht & Hp & Hd & Hc & Hl).
  - split; [done|]. split; [by rewrite <- Permutation_middle, Hp|]. split; [done|]. split; [done|].
    intros l' n' [->|Hin]%elem_of_cons Hn'; [simplify_eq; set_solver|eauto].
  - split; [set_solver|]. split; [by rewrite <- Hp|]. split.
    + simpl. constructor; [|done]. intros (e & Heq & He)%map_elem. apply Hc in He as [He _]. set_solver.
    + split; [|done]. intros e [->|He]%elem_of_cons; [done|]. apply Hc in He as [He ?]. set_solver.
  - split; [done|]. split; [by rewrite <- Permutation_middle, Hp|]. split; [done|]. split; [done|].
    intros l' n' [->|Hin]%elem_of_cons Hn'; [congruence|eauto].
Qed.

(** A number from [next] on is free within one more than there are taken. *)
Lemma lowest_free_spec fuel taken : forall next,
  (size (filter (fun n => next <= n)%Z taken) <= fuel)%nat ->
  let n := lowest_free fuel taken next in
  (next <= n)%Z /\ n ∉ taken /\ forall i, (next <= i < n)%Z -> i ∈ taken.
Proof.
  induction fuel as [|fuel IH]; intros next Hs; simpl.
  - split; [lia|]. split; [|intros; lia]. intros Hn.
    assert (filter (fun n => next <= n)%Z taken ≡ ∅) as He by (apply size_empty_inv; lia).
    apply (not_elem_of_empty (C := gset Z) next), He, elem_of_filter. split; [lia|done].
  - destruct (decide (next ∈ taken)) as [Hn|Hn]; [|split; [lia|]; split; [done|intros; lia]].
    edestruct (IH (next + 1)%Z) as (Hle & Hf & Hb).
    + assert (filter (fun n => next <= n)%Z taken =
        {[next]} ∪ filter (fun n => next + 1 <= n)%Z taken) as Hx.
      { apply set_eq. intros i. rewrite elem_of_union, !elem_of_filter, elem_of_singleton.
        destruct (decide (i = next)) as [->|]; [naive_solver lia|]. naive_solver lia. }
      rewrite Hx, size_union, size_singleton in Hs; [lia|].
      intros i. rewrite elem_of_singleton, elem_of_filter. lia.
    + split; [lia|]. split; [done|]. intros i Hi.
      destruct (decide (i = next)) as [->|]; [done|]. apply Hb. lia.
Qed.

Lemma name_others_spec named : forall taken next, (forall i, (0 <= i < next)%Z -> i ∈ taken) ->
  let others := name_others taken next named in
  map fd_Name others = named /\ NoDup (map fd_Index others) /\
  (forall e, e ∈ others -> (next <= fd_Index e)%Z /\ fd_Index e ∉ taken /\
     forall i, (0 <= i < fd_Index e)%Z -> i ∈ taken \/ i ∈ map fd_Index others).
Proof.
  induction named as [|label named IH]; intros taken next Hb; simpl.
  { split; [done|]. split; [constructor|]. intros e He. by apply not_elem_of_nil in He. }
  edestruct (lowest_free_spec (size taken) taken next) as (Hle & Hf & Hm).
  { apply subseteq_size. intros i Hi. by apply elem_of_filter in Hi as [_ Hi]. }
  set (n := lowest_free (size taken) taken next) in *.
  assert (forall i, (0 <= i < n)%Z -> i ∈ {[n]} ∪ taken) as Hb'.
  { intros i Hi. apply elem_of_union_r. destruct (decide (i < next)%Z); [apply Hb; lia|apply Hm; lia]. }
  destruct (IH _ _ Hb') as (Hn & Hd & He). split; [by rewrite Hn|]. split.
  - constructor; [|done]. intros (e & Heq & Hin)%map_elem. apply He in Hin as (_ & Hin & _). set_solver.
  - intros e [->|Hin]%elem_of_cons; simpl.
    + split; [done|]. split; [done|]. intros i Hi. left. specialize (Hb' i Hi).
      apply elem_of_union in Hb' as [->%elem_of_singleton|?]; [lia|done].
    + apply He in Hin as (H1 & H2 & H3). split; [lia|]. split; [set_solver|].
      intros i Hi. destruct (H3 i Hi) as [[->%elem_of_singleton|?]%elem_of_union|?];
        [right; by left|by left|right; by right].
Qed.

#[local] Instance by_index_trans : Transitive by_index.
Proof. intros ? ? ?. unfold by_index. lia. Qed.
#[local] Instance by_index_total : Total by_index.
Proof. intros a b. unfold by_index. lia. Qed.

Lemma fresh_labels_elem assigned labels l :
  l ∈ fresh_labels assigned labels <-> l <> "" /\ l ∈ labels /\ l ∉ map fd_Name assigned.
Proof.
  unfold fresh_labels. rewrite sort_strings_elem, elem_of_elements, elem_of_difference,
    !elem_of_list_to_set, filter_elem, negb_true_iff, String.eqb_neq. tauto.
Qed.

Lemma fresh_labels_NoDup assigned labels : NoDup (fresh_labels assigned labels).
Proof. unfold fresh_labels. rewrite sort_strings_perm. apply NoDup_elements. Qed.

(** A mapping: a name for an index, and an index for a name. *)
Definition mapping (entries : list FailureDomainIndex) : Prop :=
  NoDup (map fd_Name entries) /\ NoDup (map fd_Index entries).

(** What a pass adds to a mapping, in the two passes it adds it. *)
Lemma assigned_parts assigned labels (Ha : mapping assigned) : exists claimed others,
  assignFailureDomains assigned labels = merge_sort by_index (assigned ++ claimed ++ others)%list /\
  map fd_Name claimed ++ map fd_Name others ≡ₚ fresh_labels assigned labels /\
  mapping (assigned ++ claimed ++ others)%list /\
  (forall e, e ∈ claimed -> parse_index (fd_Name e) = Some (fd_Index e)) /\
  (forall e, e ∈ others -> (0 <= fd_Index e)%Z /\
     (forall n, parse_index (fd_Name e) = Some n -> n ∈ map fd_Index (assigned ++ claimed)%list) /\
     forall i, (0 <= i < fd_Index e)%Z -> i ∈ map fd_Index (assigned ++ claimed ++ others)%list).
Proof.
  unfold assignFailureDomains.
  destruct (claim_numbers _ _) as [[taken claimed] named] eqn:E.
  apply claim_numbers_spec in E as (Ht & Hp & Hd & Hc & Hl).
  edestruct (name_others_spec named taken 0) as (Hn & Hdo & Ho); [lia|].
  assert (forall i, i ∈ taken <-> i ∈ map fd_Index (assigned ++ claimed)%list) as Htk.
  { intros i. rewrite Ht, map_app, elem_of_app, elem_of_union, !elem_of_list_to_set. tauto. }
  exists claimed, (name_others taken 0 named). split; [done|]. split; [by rewrite Hn|].
  split; [split|split; [by intros e He; apply Hc in He as [_ ?]|]].
  - rewrite !map_app, Hn, Hp. apply NoDup_app. split; [apply Ha|]. split.
    + intros l H1 H2. by apply fresh_labels_elem in H2 as (_ & _ & ?).
    + apply fresh_labels_NoDup.
  - rewrite app_assoc, map_app. apply NoDup_app. split; [|split; [|done]].
    + rewrite map_app. apply NoDup_app. split; [apply Ha|]. split; [|done].
      intros i Hi (e & -> & He)%map_elem. apply Hc in He as [He _]. apply He.
      by apply elem_of_list_to_set.
    + intros i Hi (e & -> & He)%map_elem. apply Ho in He as (_ & He & _). by apply He, Htk.
  - intros e He. pose proof (Ho e He) as (H0 & _ & Hb). split; [done|]. split.
    + intros n Hpn. apply Htk. eapply Hl; [|done]. rewrite <- Hn. by apply map_elem_1.
    + intros i Hi. rewrite app_assoc, map_app, elem_of_app, <- Htk. auto.
Qed.

Lemma mapping_perm a b : a ≡ₚ b -> mapping a -> mapping b.
Proof. unfold mapping. by intros ->. Qed.

Lemma fresh_labels_nil assigned labels :
  (forall l, l ∈ labels -> l <> "" -> l ∈ map fd_Name assigned) -> fresh_labels assigned labels = [].
Proof.
  intros Hall. destruct (fresh_labels assigned labels) as [|l ls] eqn:E; [done|].
  assert (l ∈ fresh_labels assigned labels) as Hl by (rewrite E; by left).
  apply fresh_labels_elem in Hl as (H1 & H2 & H3). destruct (H3 (Hall l H2 H1)).
Qed.

(** A mapping grows: every entry is kept, every label the document declares is mapped, in
    one order, each name to one index and each index to one name, and assigning the same
    labels again changes nothing. *)
Theorem failure_domains_are_kept assigned labels (Ha : mapping assigned) :
  let grown := assignFailureDomains assigned labels in
  mapping grown /\ assigned ⊆ grown /\
  (forall l, l ∈ map fd_Name grown <-> l ∈ map fd_Name assigned \/ (l ∈ labels /\ l <> "")) /\
  StronglySorted by_index grown /\
  (forall later, later ⊆ labels -> assignFailureDomains grown later = grown).
Proof.
  intros grown. destruct (assigned_parts assigned labels Ha) as (claimed & others & Hg & Hp & Hm & _ & _).
  fold grown in Hg. assert (grown ≡ₚ assigned ++ claimed ++ others)%list as Hperm.
  { rewrite Hg. apply merge_sort_Permutation. }
  assert (forall l, l ∈ map fd_Name grown <-> l ∈ map fd_Name assigned \/ (l ∈ labels /\ l <> "")) as Hl.
  { intros l. rewrite Hperm, map_app, elem_of_app, map_app, Hp, fresh_labels_elem.
    destruct (decide (l ∈ map fd_Name assigned)); naive_solver. }
  assert (mapping grown) as Hmg by (by eapply mapping_perm; [symmetry|]).
  assert (StronglySorted by_index grown) as Hs by (rewrite Hg; apply (StronglySorted_merge_sort _)).
  split; [done|]. split; [intros e He; rewrite Hperm, elem_of_app; by left|]. split; [done|].
  split; [done|]. intros later Hlater. unfold assignFailureDomains. rewrite fresh_labels_nil.
  - simpl. rewrite app_nil_r. apply (StronglySorted_unique_strong by_index).
    + intros e1 e2 He1 He2 H1 H2. destruct Hmg as [_ Hmg]. rewrite merge_sort_Permutation in He1.
      unfold by_index in *. apply (map_NoDup_inj fd_Index grown); auto. lia.
    + apply (StronglySorted_merge_sort _).
    + done.
    + apply merge_sort_Permutation.
  - intros l Hin Hne. apply Hl. right. split; [by apply Hlater|done].
Qed.

(** A label that is a number has its own value, unless an index was already the number of
    another; any other new label takes the lowest index free. *)
Theorem new_domains_take_the_lowest assigned labels (Ha : mapping assigned) e :
  e ∈ assignFailureDomains assigned labels -> e ∉ assigned ->
  parse_index (fd_Name e) = Some (fd_Index e) \/
  ((forall n, parse_index (fd_Name e) = Some n ->
      exists o, o ∈ assignFailureDomains assigned labels /\ fd_Index o = n /\ o <> e) /\
   (0 <= fd_Index e)%Z /\
   forall i, (0 <= i < fd_Index e)%Z -> exists o, o ∈ assignFailureDomains assigned labels /\ fd_Index o = i).
Proof.
  destruct (assigned_parts assigned labels Ha) as (claimed & others & -> & _ & Hm & Hc & Ho).
  setoid_rewrite merge_sort_Permutation. intros He Hn. rewrite !elem_of_app in He.
  destruct He as [He|[He|He]]; [done|by left; apply Hc|].
  destruct (Ho e He) as (H0 & Hpn & Hb). right. split; [|split; [done|]].
  - intros n Hp. apply Hpn in Hp. apply map_elem in Hp as (o & -> & Hin). exists o.
    split; [rewrite app_assoc, elem_of_app; by left|]. split; [done|]. intros ->.
    destruct Hm as [Hm _]. rewrite app_assoc in Hm. rewrite map_app in Hm.
    apply NoDup_app in Hm as (_ & Hm & _). apply (Hm (fd_Name e)); by apply map_elem_1.
  - intros i Hi. apply Hb in Hi. apply map_elem in Hi as (o & -> & Hin). by exists o.
Qed.

(** ** What the approval guard admits *)

(** Every cluster the document builds, or the one it grows, carries its stripe. *)
Definition stripes_carried (rd : Reader) (namespace : string) (c : ClusterDeploymentConfig) : Prop :=
  exists members, AddsMembers rd c = Ok members /\
    forall scope, scope ∈ clusterScopes (if members then asCreation c else c) members ->
      exists subject, stripeSubject rd namespace (sco_document scope) = Ok subject /\
        forall s, subject = Some s ->
          carries (sco_document scope) s
            (merge (su_existing s) (plannedFootprint (sco_document scope) (su_slots s))).

(** The cluster to create is nobody's yet; the cluster to grow is there, of the class the
    groups name. *)
Definition target_is_free (rd : Reader) (namespace : string) (c : ClusterDeploymentConfig) : Prop :=
  if creates c then
    rd_Cluster rd namespace (TargetClusterName c) = NotFound /\
    exists configs, rd_Configs rd namespace = Ok configs /\ forall o, o ∈ configs -> owns c o = false
  else
    exists cluster, rd_Cluster rd namespace (clusterRef c) = Found cluster /\
      (DeviceClassOf c = "" \/ DeviceClassOf c = held_class cluster).

Definition approvable (rd : Reader) (namespace : string) (c : ClusterDeploymentConfig) : Prop :=
  (exists nodes, rd_Nodes rd = Ok nodes /\ forall w, w ∈ workers_of c -> w ∈ map node_Name nodes) /\
  stripes_carried rd namespace c /\
  TargetClusterName c <> "" /\
  target_is_free rd namespace c.

Lemma stripes_pass rd namespace c found : StripeChecks rd namespace c = Ok found ->
  found = [] <-> exists subject, stripeSubject rd namespace c = Ok subject /\
    forall s, subject = Some s -> carries c s (merge (su_existing s) (plannedFootprint c (su_slots s))).
Proof.
  unfold StripeChecks. destruct (stripeSubject rd namespace c) as [[s|]|]; [| |done]; intros [= <-].
  - rewrite stripe_checks_pass. split; [intros Hc; eexists; split; [done|]; by intros ? [= <-]|].
    intros (? & [= <-] & Hc). auto.
  - split; [|done]. intros _. eexists. split; [done|]. by intros ? [=].
Qed.

Lemma ClusterStripeChecks_pass rd namespace c :
  ClusterStripeChecks rd namespace c = Ok [] <-> stripes_carried rd namespace c.
Proof.
  unfold ClusterStripeChecks, stripes_carried. destruct (AddsMembers rd c) as [members|e].
  2: { split; [done|]. by intros (? & ? & _). }
  set (scopes := clusterScopes _ members).
  trans (forall scope, scope ∈ scopes -> StripeChecks rd namespace (sco_document scope) = Ok []).
  - clearbody scopes. induction scopes as [|scope scopes IH]; simpl; [split; [by intros _ ? ?%not_elem_of_nil|done]|].
    destruct (StripeChecks rd namespace (sco_document scope)) as [found|e] eqn:E.
    2: { split; [done|]. intros Hall. specialize (Hall scope ltac:(by left)). congruence. }
    destruct (traverse _ scopes) as [more|e'] eqn:Et.
    + split.
      * intros [= Hn]. apply app_eq_nil in Hn as [Hn1%map_eq_nil Hn2]. subst found.
        intros s [->|Hs]%elem_of_cons; [done|]. apply IH; [by rewrite Hn2|done].
      * intros Hall. rewrite (Hall scope) in E by (by left). simplify_eq. simpl. apply IH.
        intros s Hs. apply Hall. by right.
    + split; [done|]. intros Hall. assert (Err e' = Ok (@nil finding)) as [=]. apply IH. intros s Hs.
      apply Hall. by right.
  - split.
    + intros Hall. exists members. split; [done|]. intros scope Hs. specialize (Hall scope Hs).
      by apply (stripes_pass _ _ _ _ Hall).
    + intros (m & [= <-] & Hall) scope Hs. destruct (Hall scope Hs) as (subject & Hsub & Hc).
      assert (exists found, StripeChecks rd namespace (sco_document scope) = Ok found) as [found Hf].
      { unfold StripeChecks. rewrite Hsub. destruct subject; eauto. }
      rewrite Hf. f_equal. apply (stripes_pass _ _ _ _ Hf). eauto.
Qed.

Lemma sortedKeys_nil X : sortedKeys X = [] <-> X = ∅.
Proof.
  unfold sortedKeys. rewrite <- (leibniz_equiv_iff X), <- elements_empty_iff. split.
  - intros Hx. apply Permutation_nil. rewrite <- Hx. by rewrite sort_strings_perm.
  - by intros ->.
Qed.

Lemma missingWorkers_nil rd c : missingWorkers rd c = Ok [] <->
  exists nodes, rd_Nodes rd = Ok nodes /\ forall w, w ∈ workers_of c -> w ∈ map node_Name nodes.
Proof.
  unfold missingWorkers, present_workers. destruct (rd_Nodes rd) as [nodes|e].
  2: { split; [done|]. by intros (? & ? & _). }
  simpl. split.
  - intros [= Hn%sortedKeys_nil]. exists nodes. split; [done|]. intros w Hw.
    destruct (decide (w ∈ map node_Name nodes)) as [|Hd]; [done|].
    exfalso. apply (not_elem_of_empty (C := gset string) w). rewrite <- Hn.
    by rewrite elem_of_difference, !elem_of_list_to_set.
  - intros (? & [= <-] & Hall). f_equal. apply sortedKeys_nil, set_eq. intros w.
    rewrite elem_of_difference, !elem_of_list_to_set. split; [intros [? []]; auto|set_solver].
Qed.

Lemma found_if_nil why text : found_if why text = [] <-> text = "".
Proof. unfold found_if. destruct (String.eqb_spec text ""); naive_solver. Qed.

Lemma classMismatch_none c cluster : classMismatch c cluster = "" <->
  DeviceClassOf c = "" \/ DeviceClassOf c = held_class cluster.
Proof.
  unfold classMismatch.
  destruct (String.eqb_spec (DeviceClassOf c) ""), (String.eqb_spec (DeviceClassOf c) (held_class cluster));
    simpl; naive_solver.
Qed.

(** API objects are named. *)
Definition named (rd : Reader) : Prop :=
  forall namespace configs, rd_Configs rd namespace = Ok configs ->
    forall o, o ∈ configs -> cf_Name o <> "".

Lemma otherOwner_none rd namespace c : named rd ->
  otherOwner rd namespace c = Ok "" <->
  exists configs, rd_Configs rd namespace = Ok configs /\ forall o, o ∈ configs -> owns c o = false.
Proof.
  intros Hn. unfold otherOwner. destruct (rd_Configs rd namespace) as [configs|e] eqn:E.
  2: { split; [done|]. by intros (? & ? & _). }
  specialize (Hn _ _ E). destruct (find_first (owns c) configs) as [o|] eqn:Ef.
  - apply find_first_Some in Ef as [Hin Ho]. split.
    + intros [= Hc]. by destruct (Hn o Hin).
    + intros (? & [= <-] & Hall). by rewrite (Hall o Hin) in Ho.
  - rewrite find_first_None in Ef. split; [eauto|done].
Qed.

Lemma resolved_free rd namespace c : named rd ->
  (resolved <-- resolveCluster rd namespace c ;;
   match resolved with
   | inr refused => Ok [refused]
   | inl (Some cluster) => Ok (found_if DeviceClassMismatch (classMismatch c cluster))
   | inl None => owner <-- otherOwner rd namespace c ;; Ok (owner_problem c owner)
   end) = Ok [] <-> TargetClusterName c <> "" /\ target_is_free rd namespace c.
Proof.
  intros Hn. unfold resolveCluster, target_is_free.
  destruct (String.eqb_spec (TargetClusterName c) "") as [He|He]; [split; [done|by intros [? _]]|].
  assert (forall P, (TargetClusterName c <> "" /\ P) <-> P) as -> by tauto.
  destruct (creates c) eqn:Ec.
  - destruct (rd_Cluster rd namespace (TargetClusterName c)) as [cluster| |e];
      [split; [done|by intros [? _]]| |split; [done|by intros [? _]]].
    rewrite <- (otherOwner_none rd namespace c Hn). destruct (otherOwner rd namespace c) as [o|e].
    + unfold owner_problem. split.
      * intros [= Hf%found_if_nil]. destruct (String.eqb_spec o ""); [by subst|done].
      * by intros [_ [= ->]].
    + split; [done|]. by intros [_ ?].
  - assert (TargetClusterName c = clusterRef c) as -> by (unfold TargetClusterName; by rewrite Ec).
    destruct (rd_Cluster rd namespace (clusterRef c)) as [cluster| |e].
    + setoid_rewrite <- (classMismatch_none c). split.
      * intros [= Hf%found_if_nil]. by exists cluster.
      * intros (? & [= <-] & Hf). by rewrite Hf.
    + split; [done|]. by intros (? & ? & _).
    + split; [done|]. by intros (? & ? & _).
Qed.

Lemma checkApproval_pass rd namespace c : named rd ->
  checkApproval rd namespace c = Ok [] <-> approvable rd namespace c.
Proof.
  intros Hn. unfold checkApproval, approvable.
  rewrite <- missingWorkers_nil, <- ClusterStripeChecks_pass, <- (resolved_free rd namespace c Hn).
  destruct (missingWorkers rd c) as [missing|e]; [|split; [done|by intros [? _]]].
  destruct (ClusterStripeChecks rd namespace c) as [stripe|e]; [|split; [done|by intros (_ & ? & _)]].
  destruct (resolveCluster rd namespace c) as [resolved|e]; [|split; [done|by intros (_ & _ & ?)]].
  destruct (match resolved with inl _ => _ | inr _ => _ end) as [last|e];
    [|split; [done|by intros (_ & _ & ?)]].
  split.
  - intros [= H1]. apply app_eq_nil in H1 as [H1 H2]. apply app_eq_nil in H2 as [H2 H3]. subst.
    by destruct missing.
  - by intros ([= ->] & [= ->] & [= ->]).
Qed.

Definition request_namespace (c : ClusterDeploymentConfig) (namespace : string) : string :=
  if String.eqb (cf_Namespace c) "" then namespace else cf_Namespace c.

(** What an edit of a document must satisfy to be admitted. *)
Definition admissible (rd : Reader) (op : operation) (namespace : string)
    (old : res string ClusterDeploymentConfig) (c : ClusterDeploymentConfig) : Prop :=
  let approving := dc_Approved (cf_Spec c) = true -> approvable rd (request_namespace c namespace) c in
  match op with
  | Create => approving
  | Update =>
      exists before, old = Ok before /\
        if dc_Approved (cf_Spec before) then
          dc_Approved (cf_Spec c) = true /\
          withoutStretchedRole (cf_Spec before) = withoutStretchedRole (cf_Spec c)
        else approving
  | _ => True
  end.

Lemma afterApproval_allows before c : afterApproval before c = Allowed "" <->
  dc_Approved (cf_Spec c) = true /\
  withoutStretchedRole (cf_Spec before) = withoutStretchedRole (cf_Spec c).
Proof.
  unfold afterApproval. destruct (dc_Approved (cf_Spec c)); [|split; [done|by intros [? _]]].
  simpl negb. cbv iota.
  destruct (bool_decide _) eqn:E; [apply bool_decide_eq_true in E|apply bool_decide_eq_false in E].
  - by split.
  - by split; [|intros [_ ?]].
Qed.

(** C13. The guard lets an edit through exactly where it leaves the document unapproved, approves
    a document that can be deployed, or changes nothing but the role of one approved. *)
Theorem approval_is_checked rd op namespace old c (Hn : named rd) :
  Handle rd op namespace old (Ok c) = Allowed "" <-> admissible rd op namespace old c.
Proof.
  unfold Handle, admissible. fold (request_namespace c namespace).
  set (check := if negb (dc_Approved (cf_Spec c)) then _ else _).
  set (approving := dc_Approved _ = true -> _).
  assert (check = Allowed "" <-> approving) as Hc.
  { unfold check, approving. rewrite <- (checkApproval_pass rd _ c Hn).
    destruct (dc_Approved (cf_Spec c)); simpl; [|by split].
    destruct (checkApproval rd _ c) as [[|p ps]|e]; split; try done; by intros Hx; specialize (Hx eq_refl). }
  clearbody check approving. destruct op; [done| |done|done].
  destruct old as [before|e]; [|split; [done|by intros (? & ? & _)]].
  destruct (dc_Approved (cf_Spec before)) eqn:Eb.
  - rewrite afterApproval_allows. split; [|intros (? & [= <-] & Hx); by rewrite Eb in Hx].
    intros Hx. exists before. by rewrite Eb.
  - rewrite Hc. split; [|intros (? & [= <-] & Hx); by rewrite Eb in Hx].
    intros Hx. exists before. by rewrite Eb.
Qed.

(** ** Two readings of one growth document *)

(** The document [validate] checks: read as the creation of the members it adds. *)
Definition as_validated (rd : Reader) (c : ClusterDeploymentConfig) : ClusterDeploymentConfig :=
  match AddsMembers rd c with Ok true => asCreation c | _ => c end.

Lemma asCreation_creates c : creates (asCreation c) = true.
Proof. unfold asCreation. by destruct (creates c) eqn:E. Qed.

Lemma asCreation_idem c : asCreation (asCreation c) = asCreation c.
Proof. unfold asCreation at 1. by rewrite asCreation_creates. Qed.

Lemma asCreation_nodeSets c : nodeSets (asCreation c) = nodeSets c.
Proof. unfold asCreation. by destruct (creates c). Qed.

Lemma asCreation_template c : template (asCreation c) = None <-> template c = None.
Proof.
  unfold asCreation, template. destruct (creates c); [done|]. simpl. by destruct (dc_Cluster (cf_Spec c)).
Qed.

Lemma memberView_asCreation c set : memberView (asCreation c) set = memberView c set.
Proof.
  unfold memberView. rewrite asCreation_idem. unfold asCreation. by destruct (creates c).
Qed.

Lemma memberView_creates c set : creates (memberView c set) = true.
Proof. unfold memberView, creates. simpl. apply asCreation_creates. Qed.

Lemma memberView_template c set : template c = None -> template (memberView c set) = None.
Proof.
  intros Hc. apply (proj2 (asCreation_template c)) in Hc. unfold memberView, template in *. simpl. by rewrite Hc.
Qed.

Lemma no_template_no_checks rd namespace c :
  creates c = true -> template c = None -> StripeChecks rd namespace c = Ok [].
Proof. intros Hc Ht. unfold StripeChecks, stripeSubject. by rewrite Hc, Ht. Qed.

(** The webhook and the controller read the stripe of a document the same way, where it has
    more node sets than one or states no cluster. *)
Theorem verdicts_agree rd namespace c
    (Hs : (2 <= length (nodeSets c))%nat \/ template c = None) :
  ClusterStripeChecks rd namespace (as_validated rd c) = ClusterStripeChecks rd namespace c.
Proof.
  unfold as_validated. destruct (AddsMembers rd c) as [[]|e] eqn:Ea; [|done..].
  unfold ClusterStripeChecks. rewrite Ea. destruct (template c) as [t|] eqn:Et.
  - assert (AddsMembers rd (asCreation c) = Ok true) as ->.
    { unfold AddsMembers, IsSuperclusterDocument. rewrite asCreation_creates, asCreation_nodeSets.
      destruct (template (asCreation c)) eqn:Et'; [|apply (proj1 (asCreation_template c)) in Et'; congruence].
      destruct Hs as [Hs|]; [|done]. simpl. destruct (Nat.ltb_spec 1 (length (nodeSets c))); [done|lia]. }
    simpl. by rewrite asCreation_idem.
  - assert (AddsMembers rd (asCreation c) = Ok false) as ->.
    { unfold AddsMembers, IsSuperclusterDocument. rewrite asCreation_creates.
      apply (proj2 (asCreation_template c)) in Et. by rewrite Et. }
    simpl. rewrite no_template_no_checks by (apply asCreation_creates || exact (proj2 (asCreation_template c) Et)).
    simpl. rewrite asCreation_nodeSets. clear Hs Ea. induction (nodeSets c) as [|set sets IH]; simpl; [done|].
    rewrite memberView_asCreation, no_template_no_checks by
      (apply memberView_creates || by apply memberView_template).
    simpl. revert IH. by destruct (traverse _ _).
Qed.

(** ** Examples *)

Definition worker_group (workers : list string) : NodeGroup :=
  mkNodeGroup "g" workers "eth0" [] None (Some (mkDevices ["0000:00:04.0"] [])) "" "" "" "" None.

Definition striped (name : string) (data parity : Z) : ClusterTemplate :=
  applyOverrides (template_named name)
    (mkOverrides None None "" [] None (Some (mkStripe (Some data) (Some parity)))).

Definition new_status : ClusterDeploymentConfigStatus := mkStatus "" (StateMachine.mkKube "" None None) "" [] [] "" 0 None.

Definition document (ref : string) (t : option ClusterTemplate) (sets : list NodeSet)
    : ClusterDeploymentConfig :=
  mkConfig "sb" "doc" 1 1 false ∅ (mkDocument true "" None None ref t None sets) new_status.

Definition plain_cluster (name : string) (super : bool) : StorageCluster :=
  new_cluster name
    (mkClusterSpec None None "" None "" None None None None None None None None None "" None None None ""
       None None (if super then Some "superclusters" else None) "").

Definition three_workers : Reader :=
  mkReader (fun _ name => if String.eqb name "sc" then Found (plain_cluster "sc" true) else NotFound)
    (fun _ => Ok []) (Ok [DiscoveryNet.mkNode "w1" ∅ []; DiscoveryNet.mkNode "w2" ∅ []; DiscoveryNet.mkNode "w3" ∅ []]) (fun _ => Ok []).

(** A cluster of one stripe on three workers, 1+1 and then 4+2. *)
Definition first_cluster (data parity : Z) : ClusterDeploymentConfig :=
  document "" (Some (striped "prod" data parity))
    [mkNodeSet "set" [worker_group ["w1"; "w2"; "w3"]] None].

(** A document adding one member, whose node set states a stripe of its own. *)
Definition one_member : ClusterDeploymentConfig :=
  document "sc" (Some (striped "sc" 1 1))
    [mkNodeSet "set" [worker_group ["w1"; "w2"; "w3"]]
       (Some (mkOverrides None None "" [] None (Some (mkStripe (Some 4%Z) (Some 2%Z)))))].

(** With exactly one node set, the controller checks the stripe of the template where the
    webhook checks the one the member gets. *)
Example one_set_growth_is_judged_twice :
  ClusterStripeChecks three_workers "sb" (as_validated three_workers one_member) = Ok [] /\
  option_map (map reason) (match ClusterStripeChecks three_workers "sb" one_member with
                           | Ok found => Some found | Err _ => None end) =
    Some [StripeBelowMinimumNodes].
Proof. by vm_compute. Qed.

Lemma verdicts_agree_witness :
  let c := document "sc" (Some (striped "sc" 4 2))
             [mkNodeSet "a" [worker_group ["w1"; "w2"]] None; mkNodeSet "b" [worker_group ["w3"]] None] in
  ClusterStripeChecks three_workers "sb" (as_validated three_workers c) =
  ClusterStripeChecks three_workers "sb" c.
Proof. refine (verdicts_agree three_workers "sb" _ _). left. vm_compute. lia. Defined.

Lemma three_workers_named : named three_workers.
Proof. intros namespace configs [= <-] o Ho. by apply not_elem_of_nil in Ho. Qed.

Lemma approval_is_checked_witness :
  Handle three_workers Create "sb" (Err "") (Ok (first_cluster 1 1)) = Allowed "" <->
  admissible three_workers Create "sb" (Err "") (first_cluster 1 1).
Proof. exact (approval_is_checked three_workers Create "sb" _ _ three_workers_named). Defined.

(** Admitted with a stripe three workers carry, refused with one they do not. *)
Example three_workers_admit :
  Handle three_workers Create "sb" (Err "") (Ok (first_cluster 1 1)) = Allowed "" /\
  Handle three_workers Create "sb" (Err "") (Ok (first_cluster 4 2)) <> Allowed "".
Proof. by vm_compute. Qed.

Lemma stripe_checks_decide_witness :
  let c := first_cluster 4 2 in
  exists found, StripeChecks three_workers "sb" c = Ok found /\ (length found <= 1)%nat /\
    (found = [] <-> forall s, stripeSubject three_workers "sb" c = Ok (Some s) ->
       carries c s (merge (su_existing s) (plannedFootprint c (su_slots s)))).
Proof.
  eexists. split; [by vm_compute|]. refine (stripe_checks_decide three_workers "sb" _ _ _). by vm_compute.
Defined.

Definition two_domains : list FailureDomainIndex := [mkDomainIndex "rack-a" 0; mkDomainIndex "2" 2].

Lemma two_domains_mapping : mapping two_domains.
Proof. split; repeat constructor; set_solver. Qed.

(** A number takes its own value where it is free, the names the gaps. *)
Example a_number_and_two_names :
  map (fun e => (fd_Name e, fd_Index e)) (assignFailureDomains two_domains ["rack-c"; "4"; "02"; "rack-b"; "2"]) =
  [("rack-a", 0%Z); ("02", 1%Z); ("2", 2%Z); ("rack-b", 3%Z); ("4", 4%Z); ("rack-c", 5%Z)].
Proof. by vm_compute. Qed.

Lemma failure_domains_are_kept_witness :
  two_domains ⊆ assignFailureDomains two_domains ["rack-c"; "4"].
Proof.
  pose proof (failure_domains_are_kept two_domains ["rack-c"; "4"] two_domains_mapping) as (_ & Hk & _).
  exact Hk.
Defined.

Lemma new_domains_take_the_lowest_witness :
  let e := mkDomainIndex "rack-c" 1 in
  e ∈ assignFailureDomains two_domains ["rack-c"; "4"] /\ (0 <= fd_Index e)%Z.
Proof.
  assert (mkDomainIndex "rack-c" 1 ∈ assignFailureDomains two_domains ["rack-c"; "4"]) as He.
  { vm_compute. right. left. }
  split; [exact He|].
  destruct (new_domains_take_the_lowest two_domains ["rack-c"; "4"] two_domains_mapping _ He) as [Hp|(_ & H0 & _)].
  - set_solver.
  - by vm_compute in Hp.
  - exact H0.
Defined.

End DocumentChecks.
