(* ===== verification/DraftChecks.v ===== *)
(** What a discovery run drafts against what a deployment document is checked for: the
    draft of a fleet ([DiscoveryPlan], [DiscoveryTemplate]) passes the checks its approval
    runs ([DocumentChecks]), whatever fleet the run found. *)

From Stdlib Require Import Ascii String.
From S2P Require Import Prelude.
From S2P Require Import GoStrings.
From S2P Require Import Net.
From S2P Require Import Admission.
From S2P Require Import Discovery.
From S2P Require Import DiscoveryNet.
From S2P Require Import Documents.
From S2P Require Import Kube.
From S2P Require Import DiscoveryGroups.
From S2P Require Import DiscoveryPlan.
From S2P Require Import Stripes.
From S2P Require Import DiscoveryTemplate.
From S2P Require Import DocumentChecks.

#[local] Open Scope string_scope.
#[local] Unset Default Proof Using.

Module DraftChecks.

Import Discovery DiscoveryNet Documents DiscoveryGroups DiscoveryPlan Stripes DiscoveryTemplate.
Import DocumentChecks.

(** ** The node sets of a plan *)

Section Sets.

Context `{!Library} `{!Text}.

(** A node set as a plan draws it: it lists workers, states no sizing of its own, and each
    of its groups hands over the devices of one of the workers. *)
Record drawn (workers : list Worker) (set : NodeSet) : Prop := mkDrawn {
  drawn_workers : flat_map ng_Workers (ns_Groups set) <> [];
  drawn_plain : ns_Cluster set = None;
  drawn_devices : forall g, g ∈ ns_Groups set -> exists w, w ∈ workers /\ ng_Devices g = selection_of w;
}.

Lemma hardware_devices workers g : g ∈ GroupByHardware_Group workers ->
  exists w, w ∈ workers /\ g_Class g = w_Class w /\ g_Addresses g = Addresses w.
Proof.
  intros Hg. apply hardware_group_elem in Hg as (name & v & vs & Hv & -> & ->).
  apply list_elem_of_filter in Hv as [_ Hv]. by exists v.
Qed.

Lemma nodeGroup_devices g w : g_Class g = w_Class w -> g_Addresses g = Addresses w ->
  ng_Devices (nodeGroupOf g) = selection_of w.
Proof. intros Hc Ha. unfold nodeGroupOf, selection_of. simpl. by rewrite Hc, Ha. Qed.

Lemma drawn_of workers name from :
  from <> [] -> from ⊆ workers ->
  drawn workers (mkNodeSet name (map nodeGroupOf (GroupByHardware_Group from)) None).
Proof.
  intros Hne Hsub. split; [|done|].
  - simpl. rewrite nodeGroups_hold. intros Hn%map_eq_nil.
    apply Hne, Permutation_nil. rewrite <- Hn. apply (grouper_holds (g := GroupByHardware)).
  - intros g (g' & -> & Hg)%map_elem. apply hardware_devices in Hg as (w & Hw & Hc & Ha).
    exists w. split; [by apply Hsub|]. by apply nodeGroup_devices.
Qed.

Lemma name_members_drawn workers tier regions members :
  (forall m, m ∈ members -> mb_workers m <> [] /\ mb_workers m ⊆ workers) ->
  forall numbers set, set ∈ name_members GroupByHardware tier regions numbers members -> drawn workers set.
Proof.
  induction members as [|m members IH]; intros Hm numbers set Hin; simpl in Hin;
    [by apply not_elem_of_nil in Hin|].
  assert (forall name, drawn workers
    (mkNodeSet name (map nodeGroupOf (GroupByHardware_Group (mb_workers m))) None)) as Hd.
  { intros name. apply drawn_of; apply Hm; by left. }
  assert (forall m, m ∈ members -> mb_workers m <> [] /\ mb_workers m ⊆ workers) as Hm'
    by (intros; apply Hm; by right).
  destruct (negb (String.eqb (mb_name m) "")); apply elem_of_cons in Hin as [->|Hin]; eauto.
Qed.

Lemma deal_nonempty workers capacity m : (0 < capacity)%nat -> m ∈ deal workers capacity -> m <> [].
Proof.
  intros Hc (i & Hi & ->)%deal_elem. set (count := members_of workers capacity) in *.
  intros Hn. assert (length (dealt count i (merge_sort deal_le workers)) = 0)%nat as Hl by (by rewrite Hn).
  rewrite dealt_size, (Permutation_length (merge_sort_Permutation deal_le workers)) in Hl by done.
  unfold turns in Hl. apply Nat.div_small_iff in Hl; [|lia].
  pose proof (Nat.div_mod_eq (length workers + capacity - 1) capacity) as Hd.
  pose proof (Nat.mod_upper_bound (length workers + capacity - 1) capacity ltac:(lia)) as Hr.
  change ((length workers + capacity - 1) / capacity)%nat with count in Hd. nia.
Qed.

Lemma partition_members_nonempty capacity entry m : (0 < capacity)%nat ->
  m ∈ (partition_members capacity entry).1 -> mb_workers m <> [].
Proof.
  intros Hc. unfold partition_members, placementGroupsOf. simpl. rewrite elem_of_app.
  intros [Hm|Hm].
  - apply map_elem in Hm as ([k ws] & -> & Hin). simpl. unfold by_value in Hin.
    apply sort_by_elem in Hin. by apply group_by_elem in Hin as [_ ?].
  - destruct (List.filter _ entry.2) as [|w ws] eqn:E; [by apply not_elem_of_nil in Hm|].
    apply map_elem in Hm as (m' & -> & Hin). simpl. by eapply deal_nonempty.
Qed.

Lemma number_members_elem count members : forall numbered m,
  m ∈ (number_members count numbered members).1 -> exists m', m' ∈ members /\ mb_workers m' = mb_workers m.
Proof.
  intros numbered m Hm. assert (mb_workers m ∈ map mb_workers members) as Hin.
  { rewrite <- (number_members_hold count numbered). by apply map_elem_1. }
  apply map_elem in Hin as (m' & Heq & Hin). by exists m'.
Qed.

Lemma dealTier_members workers capacity m : (0 < capacity)%nat ->
  m ∈ (dealTier workers capacity).1.1 -> mb_workers m <> [] /\ mb_workers m ⊆ workers.
Proof.
  intros Hc Hm. split.
  - unfold dealTier in Hm. set (members := flat_map fst _) in *.
    destruct (number_members _ _ members) as [named found] eqn:E. simpl in Hm.
    assert (m ∈ (number_members (valuePartitions members) ∅ members).1) as Hm' by (by rewrite E).
    apply number_members_elem in Hm' as (m' & Hin & <-). unfold members in Hin.
    apply flat_map_elem in Hin as (e & Hin & (p & -> & _)%map_elem).
    by eapply partition_members_nonempty.
  - intros w Hw. rewrite <- (dealTier_holds workers capacity Hc), concat_elem.
    exists (mb_workers m). split; [done|]. by apply map_elem_1.
Qed.

Lemma tier_workers_sub workers tier : tier_workers (workers_by_name workers) tier ⊆ workers.
Proof.
  intros w Hw. unfold tier_workers in Hw. apply list_elem_of_omap in Hw as (name & _ & Hl).
  by apply workers_by_name_lookup in Hl as [? _].
Qed.

Lemma split_tier_drawn workers capacity tier : (0 < capacity)%nat -> drawn workers tier ->
  forall set, set ∈ (split_tier (workers_by_name workers) GroupByHardware capacity tier).1 -> drawn workers set.
Proof.
  intros Hc Ht set. unfold split_tier.
  pose proof (dealTier_members (tier_workers (workers_by_name workers) tier) capacity) as Hm.
  destruct (dealTier _ _) as [[members regions] found]. simpl in Hm |- *.
  assert (forall m, m ∈ members -> mb_workers m <> [] /\ mb_workers m ⊆ workers) as Hall.
  { intros m Hin. destruct (Hm m Hc Hin) as [H1 H2]. split; [done|]. etrans; [done|]. apply tier_workers_sub. }
  pose proof (name_members_drawn workers (ns_Name tier) regions members Hall ∅ set) as Hn.
  destruct members as [|m [|m' ms]]; auto. destruct (String.eqb (mb_name m) ""); [|auto].
  by intros ->%list_elem_of_singleton.
Qed.

Lemma role_sets_drawn workers set :
  set ∈ builder_Build (SplitByRole "") (GroupByHardware_Group workers) -> drawn workers set.
Proof.
  simpl. intros ([r gs] & -> & Hin)%map_elem. apply sort_by_elem in Hin. unfold groups_by_role in Hin.
  apply group_by_elem in Hin as [Hgs Hne].
  assert (forall rg, rg ∈ gs -> g_Workers rg.2 <> [] /\
    exists w, w ∈ workers /\ ng_Devices (nodeGroupOf rg.2) = selection_of w) as Hg.
  { intros rg Hrg. rewrite Hgs in Hrg. apply list_elem_of_filter in Hrg as [_ Hrg].
    apply flat_map_elem in Hrg as (g & ([role ws] & -> & Hws)%map_elem & Hg).
    apply group_by_elem in Hws as [_ Hws]. split; [done|].
    apply hardware_devices in Hg as (w & Hw & Hc & Ha). exists w. split; [done|]. by apply nodeGroup_devices. }
  split; [|done|].
  - simpl. destruct gs as [|rg gs]; [done|]. destruct (Hg rg) as [Hw _]; [by left|]. simpl.
    intros Hn%app_eq_nil. destruct Hn as [Hn%map_eq_nil _]. done.
  - intros g (rg & -> & Hrg)%map_elem. by apply Hg.
Qed.

Lemma plan_drawn p reports run set :
  pl_Grouper p = None -> pl_NodeSetBuilder p = None ->
  set ∈ p_NodeSets (Plan_of p reports run) -> drawn (p_Workers (Plan_of p reports run)) set.
Proof.
  intros Hg Hb. rewrite plan_sets, Hg, Hb. destruct (p_Workers _) as [|w ws]; [by intros ?%not_elem_of_nil|].
  unfold splitMembers. simpl fst. intros (tier & Hin & (t & -> & Ht)%map_elem)%flat_map_elem.
  eapply split_tier_drawn; [apply member_capacity_pos| |exact Hin]. by apply role_sets_drawn.
Qed.

Lemma plan_has_sets p reports run :
  pl_Grouper p = None -> pl_NodeSetBuilder p = None -> p_Workers (Plan_of p reports run) <> [] ->
  drafted (p_NodeSets (Plan_of p reports run)) ≡ₚ map w_Name (p_Workers (Plan_of p reports run)).
Proof.
  intros Hg Hb Hne. rewrite plan_sets, Hg, Hb. set (workers := p_Workers _) in *.
  destruct workers as [|w ws]; [done|]. simpl default.
  assert (drafted (builder_Build (SplitByRole "") (grouper_Group GroupByHardware (w :: ws))) ≡ₚ
    map w_Name (w :: ws)) as Hbuilt.
  { rewrite builder_holds. apply Permutation_map, grouper_holds. }
  rewrite splitMembers_holds; [done|apply _|]. intros name. by rewrite Hbuilt.
Qed.

End Sets.

(** ** The template of a draft *)

Lemma field_of_none {A} (note : A -> string) derived : field_of None note derived = derived.
Proof. done. Qed.

Lemma journal_note plan force propose note : journalDeviceFor plan force = Ok (propose, note) ->
  propose = true -> note <> "".
Proof.
  unfold journalDeviceFor, blockJournalDeviceFor. destruct (p_Workers plan); [by intros [= <- <-]|].
  destruct (String.eqb (p_Class plan) ClassBlock).
  - destruct force; simpl negb; cbv iota; [|by intros [= <- <-]].
    destruct (walk_disks _ _ _); by intros [= <- <-].
  - destruct (walk_disks _ _ _) as [|? ? ? []]; by intros [= <- <-].
Qed.

(** The fields of a drafted template the checks read. *)
Record derived (plan : Plan) (force : bool) (t : ClusterTemplate) : Prop := mkDerived {
  derived_journal : exists note,
    journalDeviceFor plan force = Ok (is_true (ct_EnableJournalDevice t), note);
  derived_stripe : exists scheme topology note,
    schemeFor plan (is_true (ct_EnableJournalDevice t)) = (scheme, topology, note) /\
    ct_Stripe t = Some (stripe_of scheme) /\
    ct_ClusterMode t = (if SingleNode topology then ClusterModeSingle
                        else if TwoNode topology then ClusterModeDual else "") /\
    (is_true (ct_EnableFailureDomains t) = true ->
     DiscoveryTemplate.failureDomainLayoutRefusal plan scheme = "");
  derived_sockets : ct_SocketsToUse t = [];
  derived_per_socket : ct_NodesPerSocket t = None;
  derived_name : ct_Name t <> "";
}.

Lemma clusterNameOf_named name disambiguator : clusterNameOf name disambiguator <> "".
Proof.
  unfold clusterNameOf, clusterNameSuffix.
  destruct (String.eqb disambiguator ""); [|destruct (_ && _)]; intros Hn%(f_equal String.length);
    rewrite ?string_length_app in Hn; simpl in Hn; lia.
Qed.

Lemma template_derived name plan force t notes :
  name <> "" -> ClusterTemplateFor name plan (mkOptions None force) = Ok (t, notes) -> derived plan force t.
Proof.
  intros Hname. revert t notes. intros t notes.
  unfold ClusterTemplateFor. simpl Seed. simpl default. simpl ForceJournalDevice.
  destruct (network_field _ _) as [network n1]. destruct (format_field _) as [format n2].
  destruct (vcpu_field _ _) as [vcpus n3]. destruct (subsystem_field _) as [subsystems n4].
  destruct (hugePagesFor plan) as [size sizeNote].
  destruct (journalDeviceFor plan force) as [[propose journalNote]|e] eqn:Ej; [|done].
  unfold stripe_field, stripeFor. simpl ct_Stripe. cbv iota.
  destruct (schemeFor plan propose) as [[scheme topology] note] eqn:Es.
  destruct (checksum_field _) as [checksum n8]. destruct (per_socket_field _) as [perSocket n10] eqn:Ep.
  destruct (domains_field plan _ _) as [domains n11] eqn:Ed. destruct (atomicity_field _) as [atomicity n12].
  intros [= <- _].
  assert (is_true (if negb (String.eqb journalNote "") && propose then Some true else None) = propose) as Hj.
  { destruct propose; [|by rewrite andb_false_r]. apply journal_note in Ej; [|done].
    by destruct (String.eqb_spec journalNote ""). }
  split; simpl.
  - exists journalNote. by rewrite Hj, Ej.
  - exists scheme, topology, note. rewrite Hj. split; [done|]. split; [done|]. split; [done|].
    unfold domains_field in Ed. change (ct_EnableFailureDomains (template_named "")) with (@None bool) in Ed.
    rewrite field_of_none, SchemeOf_stripe_of in Ed. cbv zeta in Ed.
    destruct (p_FailureDomains plan); [|by injection Ed as <- <-].
    destruct (String.eqb_spec (DiscoveryTemplate.failureDomainLayoutRefusal plan scheme) "") as [Hr|Hr];
      [by rewrite Hr|]. simpl negb in Ed. cbv iota in Ed. by injection Ed as <- <-.
  - done.
  - by injection Ep as <- <-.
  - done.
Qed.

Lemma draft_derived ops environment uid spec plan name document notes :
  draft_ClusterRef spec = "" ->
  draftFor ops environment uid spec plan = Ok (name, document, notes) ->
  dc_ClusterRef document = "" /\ dc_NodeSets document = p_NodeSets plan /\
  exists t, dc_Cluster document = Some t /\ derived plan (is_true (draft_ForceJournalDevice spec)) t.
Proof.
  intros Hr. unfold draftFor. rewrite Hr. simpl negb. cbv iota.
  destruct (HostOSFor plan) as [hostOS hostNotes].
  destruct (ClusterTemplateFor _ _ _) as [[t n]|e] eqn:Et; [|done]. apply template_derived in Et; [|apply clusterNameOf_named].
  destruct (draft_Tolerations spec); intros [= <- <- <-]; simpl; (split; [done|]); (split; [done|]);
    eexists; (split; [done|]); [done|]. destruct Et as [H1 H2 H3 H4 H5]. by split.
Qed.

Lemma draft_sets ops environment uid spec plan name document notes :
  draftFor ops environment uid spec plan = Ok (name, document, notes) ->
  dc_NodeSets document = p_NodeSets plan /\ dc_ClusterRef document = draft_ClusterRef spec.
Proof.
  unfold draftFor. destruct (HostOSFor plan) as [hostOS hostNotes].
  destruct (String.eqb_spec (draft_ClusterRef spec) "") as [E|E]; simpl negb; cbv iota; [|by intros [= <- <- <-]].
  destruct (ClusterTemplateFor _ _ _) as [[t n]|e]; [|done]. rewrite E.
  by destruct (draft_Tolerations spec); intros [= <- <- <-].
Qed.

(** ** Its stripe *)

Lemma merge_new f : merge newFootprint f = f.
Proof. destruct f. unfold merge, newFootprint. simpl. f_equal; set_solver. Qed.

Lemma creation_subject rd namespace c t scheme :
  creates c = true -> template c = Some t -> ct_Stripe t = Some (stripe_of scheme) ->
  ct_SocketsToUse t = [] -> ct_NodesPerSocket t = None ->
  stripeSubject rd namespace c =
    Ok (Some (mkSubject scheme "spec.cluster.stripe" (TopologyOf (ct_ClusterMode t)) 1 newFootprint)).
Proof.
  intros Hc Ht Hs Hk Hp. unfold stripeSubject. by rewrite Hc, Ht, Hs, Hk, Hp, SchemeOf_stripe_of.
Qed.

Lemma smallest_le sets : forall first,
  let m := foldl (fun smallest n => if n <? smallest then n else smallest)%Z first sets in
  (m <= first)%Z /\ forall n, n ∈ sets -> (m <= n)%Z.
Proof.
  induction sets as [|n sets IH]; intros first; simpl; [split; [lia|by intros ? ?%not_elem_of_nil]|].
  destruct (Z.ltb_spec n first) as [Hn|Hn].
  - destruct (IH n) as [H1 H2]. split; [lia|]. intros k [->|Hk]%elem_of_cons; [done|auto].
  - destruct (IH first) as [H1 H2]. split; [lia|]. intros k [->|Hk]%elem_of_cons; [lia|auto].
Qed.

Lemma smallestNodeSet_le plan set : set ∈ p_NodeSets plan ->
  (smallestNodeSet plan <= Z.of_nat (size (set_workers set)))%Z.
Proof.
  unfold smallestNodeSet. intros Hs.
  assert (Z.of_nat (size (set_workers set)) ∈ map (fun set => Z.of_nat (size (set_workers set))) (p_NodeSets plan))
    as Hin by (by apply (map_elem_1 (fun set => Z.of_nat (size (set_workers set))))).
  destruct (map _ (p_NodeSets plan)) as [|first rest]; [by apply not_elem_of_nil in Hin|].
  destruct (smallest_le rest first) as [H1 H2]. apply elem_of_cons in Hin as [->|Hin]; [done|auto].
Qed.

Lemma worker_set_one c set : nodeSets c = [set] -> worker_set c = set_workers set.
Proof.
  intros Hc. unfold worker_set, set_workers, workers_of, groups_of. rewrite Hc. simpl. rewrite app_nil_r.
  f_equal. rewrite flat_map_concat_map, map_map, <- flat_map_concat_map. done.
Qed.

Lemma set_workers_pos workers set : drawn workers set -> (0 < size (set_workers set))%nat.
Proof.
  intros [Hw _ _]. unfold set_workers. destruct (flat_map ng_Workers (ns_Groups set)) as [|w ws]; [done|].
  assert (size (list_to_set (w :: ws) : gset string) <> 0%nat) as Hs; [|lia].
  intros Hz%size_empty_inv. apply (not_elem_of_empty (C := gset string) w). rewrite <- Hz.
  apply elem_of_list_to_set. by left.
Qed.

(** A scheme the nodes of a cluster carry, outside the topologies of one node and of two. *)
Definition fitted (nodes : Z) : Scheme :=
  if (nodes <? 3)%Z then mkScheme 1 0
  else if (nodes <? MinimumNodes (mkScheme 2 1))%Z then mkScheme 1 1 else mkScheme 2 1.

Lemma fitted_fits smallest nodes : (smallest <= nodes)%Z -> (0 < nodes)%Z ->
  fitted smallest ∈ supported /\ (MinimumNodes (fitted smallest) <= nodes)%Z.
Proof.
  unfold fitted, MinimumNodes. intros Hs Hn. simpl. change (2 + 2 * 1)%Z with 4%Z.
  destruct (Z.ltb_spec smallest 3); [|destruct (Z.ltb_spec smallest 4)]; simpl;
    (split; [by apply contains_true|lia]).
Qed.

(** The journal of a node leaves it a disk to store on. *)
Lemma distinct_elem seen l x : x ∈ distinct seen l <-> x ∈ l /\ x ∉ seen.
Proof.
  revert seen. induction l as [|y l IH]; intros seen; simpl; [split; [by intros ?%not_elem_of_nil|by intros [?%not_elem_of_nil _]]|].
  destruct (contains seen y) eqn:E; [apply contains_true in E|apply contains_false in E].
  - rewrite IH, elem_of_cons. split; [tauto|]. intros [[->|?] ?]; [done|tauto].
  - rewrite !elem_of_cons, IH, elem_of_cons. destruct (decide (x = y)) as [->|]; tauto.
Qed.

Lemma Addresses_elem w a : a ∈ Addresses w <-> a <> "" /\ a ∈ map (Address (w_Class w)) (w_Devices w).
Proof.
  unfold Addresses. rewrite sort_strings_elem, distinct_elem, filter_elem, negb_true_iff, String.eqb_neq.
  split; [tauto|]. intros [? ?]. split; [done|]. apply not_elem_of_nil.
Qed.

Lemma capacity_elem w a : is_Some (capacity w !! a) -> a ∈ Addresses w.
Proof.
  rewrite Addresses_elem. unfold capacity.
  induction (w_Devices w) as [|d devices IH] using rev_ind; [by intros [? ?]|].
  rewrite foldl_app, map_app, elem_of_app. simpl.
  destruct (String.eqb_spec (Address (w_Class w) d) "") as [He|He]; [intros Ha; naive_solver|].
  rewrite lookup_insert_is_Some. intros [<-|[_ Ha]]; [|naive_solver].
  split; [done|]. right. by left.
Qed.

Lemma capacity_addresses w : (size (capacity w) <= length (Addresses w))%nat.
Proof.
  rewrite <- (size_dom (D := gset string)). apply submseteq_length, NoDup_submseteq.
  - apply NoDup_elements.
  - intros a Ha. apply elem_of_elements, elem_of_dom in Ha. by apply capacity_elem.
Qed.

Lemma smallestDisk_two w : (smallestDisk w).2 <> journalDiskImpossible -> (2 <= length (Addresses w))%nat.
Proof.
  pose proof (capacity_addresses w) as Hc. unfold smallestDisk.
  destruct (Nat.ltb_spec (size (capacity w)) 2); [done|lia].
Qed.

Lemma walk_disks_two refuses workers : refuses journalDiskImpossible = true -> forall acc smallest named on forced,
  walk_disks refuses acc workers = Named smallest named on forced ->
  forall w, w ∈ workers -> (2 <= length (Addresses w))%nat.
Proof.
  intros Hr. induction workers as [|v workers IH]; intros acc smallest named on forced; simpl;
    [by intros _ ? ?%not_elem_of_nil|].
  pose proof (smallestDisk_two v) as Hv. destruct (smallestDisk v) as [[size address] verdict]. simpl in Hv.
  destruct (refuses verdict) eqn:E; [done|]. destruct acc as [[[s n] o] f].
  intros Hw w [->|Hin]%elem_of_cons; [apply Hv; congruence|].
  destruct (_ || _) in Hw; by eapply IH.
Qed.

Lemma journal_leaves_a_disk plan force note : journalDeviceFor plan force = Ok (true, note) ->
  forall w, w ∈ p_Workers plan -> (2 <= length (Addresses w))%nat.
Proof.
  unfold journalDeviceFor, blockJournalDeviceFor. destruct (p_Workers plan) as [|v vs]; [done|].
  destruct (String.eqb (p_Class plan) ClassBlock).
  - destruct force; [|done]. simpl negb. cbv iota. destruct (walk_disks _ _ _) eqn:E; [done|].
    intros _. by eapply walk_disks_two; [|exact E].
  - destruct (walk_disks _ _ _) as [|? ? ? []] eqn:E; [done| |]; intros _;
      (eapply walk_disks_two; [|exact E]); by destruct force.
Qed.

(** How many devices for data a worker's group names, of those its journal leaves. *)
Lemma selection_data w journal g data : ng_Devices g = selection_of w ->
  dataDevicesOf journal g = Some data ->
  data = (Z.of_nat (length (Addresses w)) - journal)%Z /\ Addresses w <> [].
Proof.
  unfold dataDevicesOf, selection_of. intros ->. destruct (Addresses w) as [|a l]; [done|].
  assert (forall d, (d = mkDevices [] (a :: l) \/ d = mkDevices (a :: l) []) ->
    Z.of_nat (length (sel_NVMe d) + length (sel_Block d)) = Z.of_nat (length (a :: l))) as Hd.
  { intros d [->| ->]; simpl; lia. }
  destruct (String.eqb (w_Class w) ClassBlock); rewrite Hd by auto;
    (destruct (Z.eqb_spec (Z.of_nat (length (a :: l))) 0); [done|]); by intros [= <-].
Qed.

Lemma single_scheme_fits devices : (1 <= devices)%Z ->
  single_scheme devices ∈ supported /\
  (sch_DataChunks (single_scheme devices) + sch_ParityChunks (single_scheme devices) <= devices)%Z.
Proof.
  unfold single_scheme. intros Hd. destruct (Z.leb_spec 3 devices); [|destruct (Z.eqb_spec devices 2)];
    simpl; (split; [by apply contains_true|lia]).
Qed.

Lemma single_scheme_supported devices : single_scheme devices ∈ supported.
Proof.
  unfold single_scheme. destruct (3 <=? devices)%Z; [|destruct (devices =? 2)%Z]; by apply contains_true.
Qed.

(** On the one node of a fleet of one, every group hands over the devices its stripe
    takes. *)
Lemma single_node_data plan force note journal set g data :
  journalDeviceFor plan force = Ok (journal, note) ->
  set ∈ p_NodeSets plan -> drawn (p_Workers plan) set -> g ∈ ns_Groups set ->
  dataDevicesOf (if journal then 1 else 0) g = Some data ->
  let scheme := single_scheme (dataDevices plan journal) in
  (sch_DataChunks scheme + sch_ParityChunks scheme <= data)%Z.
Proof.
  intros Hj Hset [_ _ Hd] Hg Hdata scheme. destruct (Hd g Hg) as (w & Hw & Hsel).
  destruct (selection_data w _ g data Hsel Hdata) as [-> Hne].
  assert (0 < length (Addresses w))%nat as Hpos by (destruct (Addresses w); [done|simpl; lia]).
  assert (1 <= Z.of_nat (length (Addresses w)) - (if journal then 1 else 0))%Z as Hone.
  { destruct journal; [|lia]. pose proof (journal_leaves_a_disk plan force note Hj w Hw). lia. }
  unfold scheme, dataDevices. destruct (p_Workers plan) as [|v [|? ?]]; [by apply not_elem_of_nil in Hw| |].
  - apply list_elem_of_singleton in Hw as ->. simpl negb.
    assert ((if journal && (0 <? Z.of_nat (length (Addresses v)))%Z
             then (Z.of_nat (length (Addresses v)) - 1)%Z else Z.of_nat (length (Addresses v))) =
            (Z.of_nat (length (Addresses v)) - (if journal then 1 else 0))%Z) as ->.
    { destruct (Z.ltb_spec 0 (Z.of_nat (length (Addresses v)))); [|lia]. destruct journal; simpl; lia. }
    by apply single_scheme_fits.
  - simpl. lia.
Qed.

(** ** A draft passes the checks of its approval *)

(** ** Its groups *)

(** A document of the sets a plan made, for a new cluster or for one that is there. *)
Section Planned.

Context (plan : Plan) (c : ClusterDeploymentConfig) (Hc : nodeSets c = p_NodeSets plan).
Context (Hd : forall set, set ∈ p_NodeSets plan -> drawn (p_Workers plan) set).

(** No worker is in two groups, and every group hands something over. *)
Lemma workers_of_plan : workers_of c = drafted (p_NodeSets plan).
Proof.
  unfold workers_of, groups_of, drafted. rewrite Hc.
  generalize (p_NodeSets plan). intros sets. induction sets as [|set sets IH]; [done|].
  simpl. rewrite flat_map_app. f_equal; [|done].
  rewrite flat_map_concat_map, map_map, <- flat_map_concat_map. done.
Qed.

Lemma planned_once : NoDup (drafted (p_NodeSets plan)) -> duplicateWorkers c = [].
Proof.
  intros Hn. unfold duplicateWorkers. rewrite workers_of_plan.
  assert (omap (fun g => if Nat.ltb 1 (length g.2) then Some g.1 else None)
    (group_by (fun w => w) (drafted (p_NodeSets plan))) = []) as ->; [|done].
  apply omap_nil. intros [k ws] Hin. apply group_by_elem in Hin as [-> _]. simpl.
  destruct (Nat.ltb_spec 1 (length (filter (fun x => x = k) (drafted (p_NodeSets plan))))) as [Hl|]; [|done].
  apply (NoDup_filter (fun x => x = k)) in Hn. exfalso.
  assert (forall x, x ∈ filter (fun x => x = k) (drafted (p_NodeSets plan)) -> x = k) as Hk
    by (intros x Hx; by apply list_elem_of_filter in Hx as [? _]).
  destruct (filter _ _) as [|x [|y l]]; simpl in Hl; [lia..|].
  assert (x = y) as -> by (rewrite (Hk x), (Hk y); [done|right; by left|by left]).
  apply NoDup_cons in Hn as [Hn _]. apply Hn. by left.
Qed.

Lemma planned_devices : (forall w, w ∈ p_Workers plan -> Addresses w <> []) -> groupsWithoutDevices c = [].
Proof.
  intros Ha. unfold groupsWithoutDevices, group_paths.
  assert (List.filter (fun sg : NodeSet * NodeGroup => match devicesOf sg.2 with [] => true | _ => false end)
    (groups_of c) = []) as Hf; [|by rewrite Hf].
  apply filter_bool_nil. intros [set g] Hin. unfold groups_of in Hin. rewrite Hc in Hin.
  apply flat_map_elem in Hin as (set' & (g' & [= -> ->] & Hg)%map_elem & Hset). simpl.
  destruct (Hd set' Hset) as [_ _ Hdev]. destruct (Hdev g' Hg) as (w & Hw & Hsel). specialize (Ha w Hw).
  unfold devicesOf. rewrite Hsel. unfold selection_of. destruct (Addresses w) as [|a l]; [done|].
  by destruct (String.eqb (w_Class w) ClassBlock).
Qed.

End Planned.

(** A document that creates the cluster a plan proposes. *)
Definition proposes (plan : Plan) (force : bool) (document : ClusterDeploymentConfigSpec) : Prop :=
  dc_ClusterRef document = "" /\ dc_NodeSets document = p_NodeSets plan /\
  exists t, dc_Cluster document = Some t /\ derived plan force t.

Section Proposed.

Context (rd : Reader) (namespace : string) (plan : Plan) (force : bool) (c : ClusterDeploymentConfig).
Context (Hc : proposes plan force (cf_Spec c)).
Context (Hd : forall set, set ∈ p_NodeSets plan -> drawn (p_Workers plan) set).
Context (Hne : p_NodeSets plan <> []).

Lemma proposed_creates : creates c = true.
Proof. destruct Hc as [Hr _]. unfold creates, clusterRef. by rewrite Hr. Qed.

Lemma proposed_sets : nodeSets c = p_NodeSets plan.
Proof. by destruct Hc as (_ & ? & _). Qed.

Lemma proposed_template : exists t, template c = Some t /\ derived plan force t.
Proof. by destruct Hc as (_ & _ & ?). Qed.

Lemma proposed_members : AddsMembers rd c = Ok (several plan).
Proof.
  unfold AddsMembers, IsSuperclusterDocument, several. rewrite proposed_creates, proposed_sets.
  destruct proposed_template as (t & -> & _). simpl. by destruct (Nat.ltb _ _).
Qed.

Lemma proposed_view : asCreation c = c.
Proof. unfold asCreation. by rewrite proposed_creates. Qed.

Lemma proposed_member set : set ∈ p_NodeSets plan ->
  template (memberView c set) = template c /\ nodeSets (memberView c set) = [set].
Proof.
  intros Hs. destruct (Hd set Hs) as [_ Hp _]. unfold memberView, template, nodeSets. simpl.
  rewrite proposed_view, Hp. by destruct (dc_Cluster (cf_Spec c)).
Qed.

(** The scopes of a proposal: each of its node sets, alone. *)
Lemma proposed_scopes scope : scope ∈ clusterScopes c (several plan) ->
  exists set, set ∈ p_NodeSets plan /\ creates (sco_document scope) = true /\
    template (sco_document scope) = template c /\ nodeSets (sco_document scope) = [set] /\
    (several plan = false -> p_NodeSets plan = [set]).
Proof.
  unfold clusterScopes. destruct (several plan) eqn:Es.
  - rewrite map_elem, proposed_sets. intros (set & -> & Hs). exists set. split; [done|].
    split; [apply memberView_creates|]. destruct (proposed_member set Hs). done.
  - intros ->%list_elem_of_singleton. simpl. rewrite proposed_sets. unfold several in Es.
    destruct (p_NodeSets plan) as [|set [|? ?]]; [done| |done]. exists set.
    split; [by left|]. split; [apply proposed_creates|]. done.
Qed.

Lemma fleet_of_one set : p_NodeSets plan = [set] -> fleetSize plan = Z.of_nat (size (set_workers set)).
Proof.
  intros Hs. unfold fleetSize. rewrite Hs. simpl. by rewrite (right_id_L ∅ (∪)).
Qed.

Lemma scope_counts d set : nodeSets d = [set] ->
  nodes (plannedFootprint d 1) = Z.of_nat (size (set_workers set)) /\
  hosts (plannedFootprint d 1) = Z.of_nat (size (set_workers set)).
Proof.
  intros Hs. destruct (planned_counts d 1) as [-> ->]; [done|]. rewrite (worker_set_one d set Hs). lia.
Qed.

(** The stripe of a proposal is carried by every cluster it builds. *)
Lemma proposed_stripe : stripes_carried rd namespace c.
Proof.
  exists (several plan). split; [apply proposed_members|]. intros scope Hs.
  assert (Hs' : scope ∈ clusterScopes c (several plan)) by (revert Hs; by destruct (several plan); rewrite ?proposed_view).
  destruct (proposed_scopes scope Hs') as (set & Hset & Hcr & Ht & Hone & Hsev).
  destruct proposed_template as (t & Htc & [Hj (scheme & topology & note & Hsch & Hst & Hm & _) Hk Hp _]).
  rewrite Htc in Ht. eexists. split; [by eapply creation_subject|]. intros s [= <-]. simpl.
  rewrite merge_new. destruct (scope_counts _ _ Hone) as [Hn Hh].
  pose proof (set_workers_pos _ _ (Hd set Hset)) as Hpos. unfold carries. simpl su_scheme. simpl su_topology.
  rewrite Hn, Hh, Hm. revert Hsch. unfold schemeFor. destruct (several plan) eqn:Es.
  - intros [= <- <- _]. fold (fitted (smallestNodeSet plan)).
    destruct (fitted_fits (smallestNodeSet plan) (Z.of_nat (size (set_workers set)))) as [Hsup Hmin];
      [by apply smallestNodeSet_le|lia|]. done.
  - specialize (Hsev eq_refl). rewrite (fleet_of_one set Hsev).
    destruct (Z.eqb_spec (Z.of_nat (size (set_workers set))) 1) as [E1|E1];
      [|destruct (Z.eqb_spec (Z.of_nat (size (set_workers set))) 2) as [E2|E2]].
    + intros [= <- <- _]. simpl. rewrite E1. split; [apply single_scheme_supported|]. split; [done|].
      intros set' g data Hg Hdata. unfold groups_of in Hg. rewrite Hone in Hg. simpl in Hg.
      rewrite app_nil_r in Hg. apply map_elem in Hg as (g' & [= -> ->] & Hg).
      unfold dedicatesJournal in Hdata. rewrite Ht in Hdata. destruct Hj as [jn Hj]. exact (single_node_data plan force jn _ set g' data Hj Hset (Hd set Hset) Hg Hdata).
    + intros [= <- <- _]. simpl. rewrite E2. split; [by apply contains_true|done].
    + intros [= <- <- _]. fold (fitted (Z.of_nat (size (set_workers set)))).
      destruct (fitted_fits (Z.of_nat (size (set_workers set))) (Z.of_nat (size (set_workers set)))) as [Hsup Hmin];
        [done|lia|]. done.
Qed.

(** The domains of every cluster it builds are ones the control plane activates. *)
Lemma refused_nowhere scheme : DiscoveryTemplate.failureDomainLayoutRefusal plan scheme = "" ->
  forall set, set ∈ p_NodeSets plan -> FailureDomainViolation (domain_layout set) scheme = "".
Proof.
  unfold DiscoveryTemplate.failureDomainLayoutRefusal. destruct (find_first _ _) as [bad|] eqn:E.
  - apply find_first_Some in E as [_ E]. apply negb_true_iff, String.eqb_neq in E.
    destruct (several plan); [|done]. by intros [=].
  - intros _ set Hs. rewrite find_first_None in E. specialize (E set Hs).
    by apply negb_false_iff, String.eqb_eq in E.
Qed.

Lemma one_layout d set : nodeSets d = [set] -> group_layout d = domain_layout set.
Proof.
  intros Hs. unfold group_layout, domain_layout, groups_of. rewrite Hs. simpl. rewrite app_nil_r. f_equal.
  generalize (∅ : gmap string (gset string)). induction (ns_Groups set) as [|g gs IH]; intros m; [done|].
  simpl. apply IH.
Qed.

Lemma proposed_layout scope : scope ∈ clusterScopes c (several plan) ->
  DocumentChecks.failureDomainLayoutRefusal (sco_document scope) = "".
Proof.
  intros (set & Hset & Hcr & Ht & Hone & _)%proposed_scopes.
  destruct proposed_template as (t & Htc & [_ (scheme & topology & note & _ & Hst & _ & Hl) _ _ _]).
  unfold DocumentChecks.failureDomainLayoutRefusal. rewrite Ht, Htc, Hcr, Hst, SchemeOf_stripe_of. simpl.
  destruct (is_true (ct_EnableFailureDomains t)); [|done]. destruct (existsb _ _); [done|].
  rewrite (one_layout _ set Hone). by apply refused_nowhere; [apply Hl|].
Qed.

End Proposed.

(** ** Drafts pass their checks *)

Section Drafts.

Context `{!Library} `{!Text}.

Lemma plan_names p reports run :
  PlacementLaws (default MostAvailableNUMANode (pl_Placement p)) -> NoDup (map r_Node reports) ->
  NoDup (map w_Name (p_Workers (Plan_of p reports run))).
Proof.
  intros Hp Hn. rewrite plan_workers, assign_domains_names.
  destruct (alignNetworks_accounted (omap snd (inspect_all p reports run))) as [Hacc _].
  assert (NoDup (map w_Name (omap snd (inspect_all p reports run)))) as Hb.
  2: { rewrite <- Hacc in Hb. by apply NoDup_app in Hb as [? _]. }
  unfold inspect_all. rewrite <- (sort_by_perm report_key) in Hn. eapply sublist_NoDup; [exact Hn|].
  clear Hn Hacc.
  generalize (sort_by report_key reports). intros rs. induction rs as [|r rs IH]; [done|]. simpl.
  destruct (inspect _ _ _ _ _ _ r) as [refusals [w|]] eqn:E; simpl; [|by apply sublist_cons].
  assert (w_Name w = r_Node r) as ->; [|by apply sublist_skip].
  eapply inspect_kept; [done|]. by rewrite E.
Qed.

Lemma plan_addresses p reports run w :
  DeviceRules p = None -> PlacementLaws (default MostAvailableNUMANode (pl_Placement p)) ->
  w ∈ p_Workers (Plan_of p reports run) -> Addresses w <> [].
Proof.
  intros Hrules Hp Hw. rewrite plan_workers in Hw. apply map_elem in Hw as (v & -> & Hv).
  assert (Addresses (assign_domain (failureDomainLabelOf run) v) = Addresses v) as ->
    by (unfold assign_domain; by destruct (domain_of _ v)).
  apply alignNetworks_from in Hv as (before & Hin & -> & _).
  change (Addresses (with_Data before (w_Data v))) with (Addresses before).
  apply list_elem_of_omap in Hin as (res & (report & -> & _)%map_elem & Hk).
  pose proof (inspect_kept _ _ _ _ _ _ _ _ Hp Hk) as (_ & Hclass & Hdev).
  assert (exists d, d ∈ w_Devices before) as [d Hd].
  { revert Hk. unfold inspect. destruct (admitDevices _ _) as [admitted refusals].
    destruct (refuseWorker _ _ _) as [refused why]. destruct (negb _); [done|].
    destruct (match (NetworkingOf run reports).1 with Some _ => _ | None => _ end) as [[] ?]; [|done].
    destruct (Choose _ _ _) as [[|d ds] ?]; [done|].
    destruct (match (NetworkingOf run reports).1 with Some _ => _ | None => _ end) as [mgmt data].
    intros [= <-]. exists d. by left. }
  destruct (Hdev d Hd) as [_ Hnone]. rewrite Hrules in Hnone. apply taken_usable, usable_named in Hnone.
  intros Ha. apply (not_elem_of_nil (Address (w_Class before) d)). rewrite <- Ha.
  apply Addresses_elem. rewrite Hclass. split; [done|]. by apply map_elem_1.
Qed.

(** C11. What a discovery run drafts passes its own approval's checks, for a plan made with the
    default grouping and no device rules of its own, of reports of differently named nodes, with
    some worker in it.  In every draft no worker is in two groups and every group hands over a
    device.  In a draft for a new cluster, whatever fleet was found, every cluster the document
    builds carries the stripe the draft gives it on the nodes it would have, and the failure
    domains are ones the control plane activates; what approving it still asks is that the
    workers are nodes of the cluster and that nothing holds the name.  Approving a draft that
    grows a cluster still asks, besides the workers, what is the cluster's: that it is there, of
    the draft's device class, and that its stripe is carried. *)
Theorem drafts_pass_their_checks p reports run ops environment uid spec name document notes rd namespace c
    (Hg : pl_Grouper p = None) (Hb : pl_NodeSetBuilder p = None) (Hrules : DeviceRules p = None)
    (Hp : PlacementLaws (default MostAvailableNUMANode (pl_Placement p)))
    (Hn : NoDup (map r_Node reports)) (Hw : p_Workers (Plan_of p reports run) <> [])
    (Hdraft : draftFor ops environment uid spec (Plan_of p reports run) = Ok (name, document, notes))
    (Hdoc : cf_Spec c = document) :
  let workers_are_nodes := exists nodes, rd_Nodes rd = Ok nodes /\
    forall w, w ∈ p_Workers (Plan_of p reports run) -> w_Name w ∈ map node_Name nodes in
  duplicateWorkers c = [] /\ groupsWithoutDevices c = [] /\
  (draft_ClusterRef spec = "" ->
     ClusterStripeChecks rd namespace c = Ok [] /\
     (forall scope, scope ∈ clusterScopes c (several (Plan_of p reports run)) ->
        DocumentChecks.failureDomainLayoutRefusal (sco_document scope) = "") /\
     (approvable rd namespace c <-> workers_are_nodes /\ target_is_free rd namespace c)) /\
  (draft_ClusterRef spec <> "" ->
     approvable rd namespace c <->
       workers_are_nodes /\ stripes_carried rd namespace c /\
       exists cluster, rd_Cluster rd namespace (draft_ClusterRef spec) = Found cluster /\
         (DeviceClassOf c = "" \/ DeviceClassOf c = held_class cluster)).
Proof.
  intros workers_are_nodes. subst document. set (plan := Plan_of p reports run) in *.
  assert (forall set, set ∈ p_NodeSets plan -> drawn (p_Workers plan) set) as Hd by (intros; by apply plan_drawn).
  pose proof (plan_has_sets p reports run Hg Hb Hw) as Hsets. fold plan in Hsets.
  assert (p_NodeSets plan <> []) as Hne.
  { intros He. rewrite He in Hsets. symmetry in Hsets. apply Permutation_nil_r, map_eq_nil in Hsets. done. }
  destruct (draft_sets _ _ _ _ _ _ _ _ Hdraft) as [Hset Href].
  assert (Hworkers : (exists nodes, rd_Nodes rd = Ok nodes /\ forall w, w ∈ workers_of c -> w ∈ map node_Name nodes) <->
    workers_are_nodes).
  { unfold workers_are_nodes. rewrite (workers_of_plan plan c Hset). setoid_rewrite Hsets.
    setoid_rewrite map_elem at 1. naive_solver. }
  split; [eapply planned_once; [done|]; rewrite Hsets; by apply plan_names|].
  split; [eapply planned_devices; [done..|]; intros w; by apply plan_addresses|].
  unfold approvable. rewrite Hworkers. split; intros Hr.
  - assert (proposes plan (is_true (draft_ForceJournalDevice spec)) (cf_Spec c)) as Hc
      by (by eapply draft_derived).
    pose proof (proposed_stripe rd namespace plan _ c Hc Hd Hne) as Hs.
    split; [by apply ClusterStripeChecks_pass|]. split; [intros scope; by eapply proposed_layout|].
    assert (TargetClusterName c <> "") as Ht; [|tauto].
    unfold TargetClusterName. rewrite (proposed_creates plan _ c Hc). simpl negb. cbv iota.
    destruct (proposed_template plan _ c Hc) as (t & -> & Hder). by destruct Hder.
  - unfold target_is_free, TargetClusterName, creates, clusterRef. rewrite Href.
    destruct (String.eqb_spec (draft_ClusterRef spec) "") as [E|E]; [done|]. simpl. tauto.
Qed.

End Drafts.

(** ** A fleet of two, drafted and approved *)

#[local] Existing Instance Sizes.ascii_text.
#[local] Existing Instance Fleet.plain_library.

Import Runs.

Definition no_overrides : DraftSpec := mkDraftSpec "" "" [] None.

Definition their_draft : string * ClusterDeploymentConfigSpec * list string :=
  match draftFor "ops" "" "5f7e0000" no_overrides the_plan with Ok d => d | Err _ => ("", mkDocument false "" None None "" None None [], []) end.

Definition two_nodes : Reader :=
  mkReader (fun _ _ => NotFound) (fun _ => Ok []) (Ok [DiscoveryNet.mkNode "a" ∅ []; DiscoveryNet.mkNode "b" ∅ []])
    (fun _ => Ok []).

Lemma drafts_pass_their_checks_witness :
  let c := with_Spec (document "" None []) their_draft.1.2 in
  ClusterStripeChecks two_nodes "sb" c = Ok [] /\
  option_map ct_ClusterMode (template c) = Some ClusterModeDual.
Proof.
  split; [|by vm_compute].
  refine (proj1 (proj1 (proj2 (proj2 (drafts_pass_their_checks planner reports (Some the_run) "ops" ""
    "5f7e0000" no_overrides their_draft.1.1 their_draft.1.2 their_draft.2 two_nodes "sb"
    (with_Spec (document "" None []) their_draft.1.2) eq_refl eq_refl eq_refl _ _ _ _ eq_refl))) eq_refl)).
  - apply (bool_decide_unpack _). by vm_compute.
  - by vm_compute.
  - by vm_compute.
Defined.

End DraftChecks.
