(* ===== verification/Expansion.v ===== *)
(** The expansion of a deployment document: [clusterdeploymentconfig_controller.go],
    [expansion.go], and what of [supercluster.go] and [failuredomains.go] writes, of
    [operator/internal/controllers/deployment].

    [Reconcile] is a pass of the reconciler as a program over its calls.  [Cache] answers
    what the cache of the pass holds at the moment of one read; the checks of a draft are
    one such read.  The metrics a pass publishes are read by nothing here, and left out. *)

From Stdlib Require Import Ascii String.
From S2P Require Import Prelude.
From S2P Require Import Programs.
From S2P Require Import StateMachine.
From S2P Require Import OpsGraphs.
From S2P Require Import GoStrings.
From S2P Require Import Admission.
From S2P Require Import DeviceOps.
From S2P Require Import Kube.
From S2P Require Import Discovery.
From S2P Require Import DiscoveryNet.
From S2P Require Import Documents.
From S2P Require Import DiscoveryGroups.
From S2P Require Import Stripes.
From S2P Require Import DocumentChecks.

#[local] Open Scope string_scope.
#[local] Unset Default Proof Using.

Module Expansion.

Import Documents Stripes DocumentChecks.
Import OpsGraphs.Deployment.

(** ** Objects *)

Definition PhaseDraft : string := "Draft".
Definition PhaseExpanding : string := "Expanding".
Definition PhaseExpanded : string := "Expanded".
Definition PhaseFailed : string := "Failed".
Definition StepCompleted : string := "Completed".

Definition terminalConfig (phase : string) : bool :=
  String.eqb phase PhaseExpanded || String.eqb phase PhaseFailed.

(** A [StorageClusterOps] as the expansion raises it. *)
Record StorageClusterOps := mkClusterOps {
  co_Name : string;
  co_Owner : string;
  co_ClusterRef : string;
  co_Action : string;
}.

Definition ActionActivate : string := "Activate".

Definition readyToDeploy : string := "storage.simplyblock.io/ready-to-deploy".
Definition readyToDeployValue : string := "true".
Definition singletonControlPlane : string := "simplyblock".
Definition configRetry : Duration := (30 * Second)%Z.
Definition configAdvance : Duration := Second.

Definition with_Status (c : ClusterDeploymentConfig) (status : ClusterDeploymentConfigStatus) (version : nat)
    : ClusterDeploymentConfig :=
  mkConfig (cf_Namespace c) (cf_Name c) version (cf_Generation c) (cf_Deleting c) (cf_Labels c)
    (cf_Spec c) status.

Definition with_Labels (c : ClusterDeploymentConfig) (labels : gmap string string) : ClusterDeploymentConfig :=
  mkConfig (cf_Namespace c) (cf_Name c) (cf_ResourceVersion c) (cf_Generation c) (cf_Deleting c) labels
    (cf_Spec c) (cf_Status c).

Definition cs_with_Phase (s : ClusterDeploymentConfigStatus) (phase message : string) :=
  mkStatus phase (cs_Step s) (cs_ClusterRef s) (cs_Members s) (cs_NodeRefs s) message
    (cs_ObservedGeneration s) (cs_ExpansionStartedAt s).
Definition cs_with_ClusterRef (s : ClusterDeploymentConfigStatus) (name : string) :=
  mkStatus (cs_Phase s) (cs_Step s) name (cs_Members s) (cs_NodeRefs s) (cs_Message s)
    (cs_ObservedGeneration s) (cs_ExpansionStartedAt s).
Definition cs_with_Members (s : ClusterDeploymentConfigStatus) (members : list ExpansionMember) :=
  mkStatus (cs_Phase s) (cs_Step s) (cs_ClusterRef s) members (cs_NodeRefs s) (cs_Message s)
    (cs_ObservedGeneration s) (cs_ExpansionStartedAt s).
Definition cs_with_NodeRefs (s : ClusterDeploymentConfigStatus) (names : list string) :=
  mkStatus (cs_Phase s) (cs_Step s) (cs_ClusterRef s) (cs_Members s) names (cs_Message s)
    (cs_ObservedGeneration s) (cs_ExpansionStartedAt s).
Definition cs_with_Step (s : ClusterDeploymentConfigStatus) (step : KubeSnapshot) (started : option Time) :=
  mkStatus PhaseExpanding step (cs_ClusterRef s) (cs_Members s) (cs_NodeRefs s) (cs_Message s)
    (cs_ObservedGeneration s) started.
Definition cs_with_Generation (s : ClusterDeploymentConfigStatus) (generation : Z) :=
  mkStatus (cs_Phase s) (cs_Step s) (cs_ClusterRef s) (cs_Members s) (cs_NodeRefs s) (cs_Message s)
    generation (cs_ExpansionStartedAt s).

#[global] Instance ExpansionMember_eq_dec : EqDecision ExpansionMember.
Proof. solve_decision. Defined.

(** [equalConfigStatus]; a claim on the step is not compared. *)
Definition equalConfigStatus (a b : ClusterDeploymentConfigStatus) : bool :=
  String.eqb (cs_Phase a) (cs_Phase b) && String.eqb (cs_Message a) (cs_Message b) &&
  String.eqb (cs_ClusterRef a) (cs_ClusterRef b) &&
  Z.eqb (cs_ObservedGeneration a) (cs_ObservedGeneration b) &&
  String.eqb (kube_State (cs_Step a)) (kube_State (cs_Step b)) &&
  bool_decide (cs_Members a = cs_Members b) &&
  bool_decide (kube_Deadline (cs_Step a) = kube_Deadline (cs_Step b)) &&
  bool_decide (cs_ExpansionStartedAt a = cs_ExpansionStartedAt b) &&
  bool_decide (cs_NodeRefs a = cs_NodeRefs b).

(** ** Calls *)

(** What the cache holds when it is read. *)
Record View := mkView {
  v_reader : Reader;
  v_Config : string -> string -> read ClusterDeploymentConfig;
  v_Node : string -> string -> read StorageNode;
  v_Clusters : string -> res string (list StorageCluster);
  v_ControlPlane : string -> string -> read string;
}.

(** The errors of a write, as its callers tell them apart. *)
Inductive api_error := AlreadyExists (text : string) | Conflict (text : string) | Failure (text : string).

Definition api_text (e : api_error) : string :=
  match e with AlreadyExists t | Conflict t | Failure t => t end.

(** A pass's calls.  A status is written over the version it was read at; [PatchLabels]
    and [PatchRole] are not. *)
Inductive call : Type -> Type :=
| Cache : call View
| PatchStatus (base new : ClusterDeploymentConfig) : call (res api_error ClusterDeploymentConfig)
| PatchLabels (base new : ClusterDeploymentConfig) : call (res api_error ClusterDeploymentConfig)
| PatchDomains (namespace : string) (base new : StorageCluster) : call (res api_error StorageCluster)
| PatchRole (namespace : string) (base new : StorageCluster) : call (res api_error StorageCluster)
| CreateCluster (namespace : string) (cluster : StorageCluster) : call (res api_error unit)
| CreateNode (namespace : string) (node : StorageNode) : call (res api_error unit)
| CreateOps (namespace : string) (ops : StorageClusterOps) : call (res api_error unit)
| DrawSuffix : call (res string string)
| Now : call Time
| Event (warning : bool) (reason message : string) : call unit.

(** The errors of a pass: [refusedError], and every other, by its text.  [Panicked] ends the
    pass where it is, and [StillDrawing] is one that has not returned. *)
Inductive error :=
| Refused (why message : string)
| Failed (message : string)
| Panicked
| StillDrawing.

Abbreviation result := (option Duration).

(** The pass works on the document it read. *)
Abbreviation act := (act call ClusterDeploymentConfig error).

(** ** What is built *)

Definition emptyBlock : Verbatim := "".

Definition KubernetesEnvironmentVanilla : string := "Vanilla".
Definition KubernetesEnvironmentOpenShift : string := "OpenShift".
Definition KubernetesEnvironmentTalos : string := "Talos".
Definition managed_environment (e : string) : bool := contains ["EKS"; "GKE"; "AKS"; "OKE"] e.
Definition plain_environment (e : string) : bool := contains ["Vanilla"; "Rancher"; "K3s"] e.
Definition DistroUbuntu : string := "ubuntu".

Definition openShiftOf (t : option ClusterTemplate) : Verbatim :=
  default emptyBlock (t ≫= ct_OpenShift).

(** The kubelet flag an environment decides, if it decides one. *)
Definition environment_kubelet (e : string) : option bool :=
  if String.eqb e KubernetesEnvironmentOpenShift then Some true
  else if String.eqb e KubernetesEnvironmentTalos then Some false
  else if managed_environment e then Some false
  else if plain_environment e then Some true
  else None.

Definition buildWorkload (c : ClusterDeploymentConfig) : StorageNodesSpec :=
  let s := cf_Spec c in
  let t := template c in
  let environment := dc_Environment s in
  let vanilla := String.eqb environment KubernetesEnvironmentVanilla in
  let openShift := String.eqb environment KubernetesEnvironmentOpenShift in
  let block := String.eqb (DeviceClassOf c) StorageClusterDeviceClassLogicalBlock in
  let format := t ≫= ct_EnableDriveFormat in
  let agent := dc_Images s ≫= im_NodeAgent in
  mkWorkload
    (match agent with Some i => im_Image i | None => "" end)
    (match agent with Some i => im_ImagePullPolicy i | None => "" end)
    "" []
    (t ≫= ct_Network)
    (match t with Some t => ct_SocketsToUse t | None => [] end)
    (t ≫= ct_NodesPerSocket)
    (t ≫= ct_NodeProvisioningBudget)
    (t ≫= ct_EnableJournalDevice)
    (if block then None else format)
    (if block then format else None)
    (or_else (if vanilla then t ≫= ct_EnableCpuTopology else None)
       (if openShift then Some true else None))
    (or_else (if vanilla then t ≫= ct_EnableKubeletConfiguration else None)
       (environment_kubelet environment))
    (match dc_HostOS s with
     | Some os => if String.eqb (Documents.hs_Distro os) "" then None
                  else Some (String.eqb (Documents.hs_Distro os) DistroUbuntu)
     | None => None
     end)
    (if openShift then Some (openShiftOf t) else None)
    (match t with Some t => ct_Tolerations t | None => [] end)
    (t ≫= ct_ContainerResources)
    (t ≫= ct_InitContainerResources).

(** The cluster a template describes; [superclusterRef] is set by its caller. *)
Definition buildCluster (c : ClusterDeploymentConfig) (name superclusterRef : string)
    : res error StorageCluster :=
  match template c with
  | None =>
      Err (Refused ClusterNotFound
             "the document neither names an existing cluster nor describes one to create")
  | Some t =>
      Ok (new_cluster name
        (mkClusterSpec (ct_MaxSubsystemCount t) (ct_VCPUCount t) (ct_MinHugePagesSize t) (ct_Stripe t)
           (ct_FabricType t) (ct_Ports t ≫= NVMf) (ct_Ports t ≫= Rpc)
           (ct_Ports t ≫= NodeAgentPort) (ct_EnableFailureDomains t) (ct_EnableSyncReplication t)
           (ct_Stretched t) (ct_EnableNodeAffinity t) (ct_EnableChecksumValidation t)
           (ct_EnableAtomicity4K t) (DeviceClassOf c) (ct_KMS t) (Some (buildWorkload c)) (ct_Backup t)
           (ct_ClusterMode t) (ct_EnableArbitration t) (ct_Arbitration t) None superclusterRef))
  end.

(** [nodeName]: a node goes by its cluster, its worker and its slot, within a label. *)
Section Names.

Context {T : Text} {L : Library}.

Definition nodeNameFormula : Kube.Formula :=
  Kube.mkFormula "" "" "" Kube.ObjectName (Z.of_nat Kube.MaxLabelValueLength) false.

Definition nodeName (cluster worker : string) (slot : int32) : string :=
  Kube.Value (Kube.Derive nodeNameFormula [cluster; worker; Itoa slot]).

End Names.

(** ** Words ([fmt] and [strings]) *)

Definition is_space (a : ascii) : bool :=
  Ascii.eqb a " " || contains [9; 11; 12; 13]%Z (Z.of_N (N_of_ascii a)).
Definition is_decimal (a : ascii) : bool := in_range 48 57 (Z.of_N (N_of_ascii a)).

Fixpoint take_while {A} (p : A -> bool) (l : list A) : list A :=
  match l with
  | [] => []
  | x :: l => if p x then x :: take_while p l else []
  end.

(** [%d] of [fmt.Sscanf]: spaces, a sign, and digits, as far as they go. *)
Definition scan_int (l : list ascii) : option (Z * list ascii) :=
  let l := drop_while is_space l in
  let '(negative, digits) :=
    match l with
    | a :: rest => if Ascii.eqb a "-" then (true, rest)
                   else if Ascii.eqb a "+" then (false, rest) else (false, l)
    | [] => (false, l)
    end in
  let taken := take_while is_decimal digits in
  match taken with
  | [] => None
  | _ =>
      let n := foldl (fun n a => 10 * n + (Z.of_N (N_of_ascii a) - 48))%Z 0%Z taken in
      let n := (if negative then - n else n)%Z in
      if (int64_min <=? n)%Z && (n <=? int64_max)%Z then Some (n, drop_while is_decimal digits) else None
  end.

(** [fmt.Sscanf(s, "%dx%d", ...)]. *)
Definition scan_scheme (s : string) : option (Z * Z) :=
  match scan_int (to_bytes s) with
  | Some (ndcs, a :: rest) =>
      if Ascii.eqb a "x" then match scan_int rest with Some (npcs, _) => Some (ndcs, npcs) | None => None end
      else None
  | _ => None
  end.

Definition stripeWidth (cluster : StorageCluster) : Z :=
  match scan_scheme (sc_ErasureCodingScheme cluster) with
  | Some (ndcs, npcs) => wrap64 (ndcs + npcs)
  | None =>
      match sp_Stripe (sc_Spec cluster) with
      | Some stripe => (default 1 (DataChunks stripe) + default 1 (ParityChunks stripe))%Z
      | None => 2%Z
      end
  end.

(** The name before its last underscore, if something precedes it. *)
Definition nodeHost (hostname : string) : string :=
  match tl (drop_while (fun a => negb (Ascii.eqb a "_")) (rev (to_bytes hostname))) with
  | [] => hostname
  | before => of_bytes (rev before)
  end.

Definition syncMinHostsPerSite : Z := 3.

(** ** Nodes *)

Definition decomposeSlot (cluster : StorageCluster) (slot : int32) : string * int32 :=
  let perSocket :=
    match sp_StorageNodes (sc_Spec cluster) with
    | Some w => match wl_NodesPerSocket w with Some n => if (0 <? n)%Z then n else 1%Z | None => 1%Z end
    | None => 1%Z
    end in
  let position := Z.quot slot perSocket in
  let index := Z.rem slot perSocket in
  match sp_StorageNodes (sc_Spec cluster) ≫= (fun w => wl_SocketsToUse w !! Z.to_nat position) with
  | Some socket => (socket, index)
  | None => (Itoa position, index)
  end.

Definition expansionOf (c : ClusterDeploymentConfig) : option bool :=
  if creates c then None else Some true.

Definition groupSite (group : NodeGroup) (cluster : StorageCluster) : string :=
  if negb (String.eqb (ng_Site group) "") then ng_Site group else StretchedSite cluster.

Definition imageSlot (c : ClusterDeploymentConfig) (slot : DeploymentImages -> option ImageSpec)
    : option ImageSpec := dc_Images (cf_Spec c) ≫= slot.
Definition imageOf (c : ClusterDeploymentConfig) (slot : DeploymentImages -> option ImageSpec) : string :=
  match imageSlot c slot with Some i => im_Image i | None => "" end.
Definition pullPolicyOf (c : ClusterDeploymentConfig) (slot : DeploymentImages -> option ImageSpec) : string :=
  match imageSlot c slot with Some i => im_ImagePullPolicy i | None => "" end.

Definition buildNode {T : Text} {L : Library} (c : ClusterDeploymentConfig) (cluster : StorageCluster)
    (set : NodeSet) (group : NodeGroup) (worker : string) (slot : int32) : StorageNode :=
  let '(socket, index) := decomposeSlot cluster slot in
  mkNode (nodeName (sc_Name cluster) worker slot) (sc_Name cluster) (ns_Name set) worker socket (Some index)
    (Some slot)
    (mkNodeConfig (sp_VCPUCount (sc_Spec cluster)) (sp_MinHugePagesSize (sc_Spec cluster)) (expansionOf c)
       (devicesOf group) (ng_MgmtInterface group) (ng_DataInterfaces group) (ng_FailureDomain group)
       (groupSite group cluster) (ng_SpdkSystemMemory group) (ng_ReservedSystemCPU group)
       (ng_JournalManager group) (imageOf c im_SPDK) (pullPolicyOf c im_SPDK) (imageOf c im_SPDKProxy)
       (pullPolicyOf c im_SPDKProxy)) None "" "" "".

(** [slotKey]: what a node is known by within its cluster. *)
Abbreviation slotKey := (string * Z)%type (only parsing).

(** The nodes of a cluster on this site, by the slot each fills; the last listed of two. *)
Definition filled_slots (cluster : string) (all : list StorageNode) : gmap (string * Z) string :=
  foldl (fun m n => <[(sn_WorkerNode n, slot_of n) := sn_Name n]> m) ∅ (local_nodes cluster all).

(** The slots of a document, in the order of the loops over them. *)
Definition planned (c : ClusterDeploymentConfig) (cluster : StorageCluster)
    : list (NodeSet * NodeGroup * string * int32) :=
  flat_map (fun sg => flat_map (fun worker =>
      map (pair (sg.1, sg.2, worker)) (slots_below (slotsPerWorker cluster))) (ng_Workers sg.2))
    (groups_of c).

Record expansionTarget := mkTarget { ta_cluster : string; ta_document : ClusterDeploymentConfig }.

Definition memberSuffixLength : nat := 3.

(** [s[len(s)-3:]], which panics on less. *)
Definition suffix_of (s : string) : option string :=
  if Nat.ltb (String.length s) memberSuffixLength then None
  else Some (of_bytes (skipn (String.length s - memberSuffixLength) (to_bytes s))).

(** [slices.Compact] of sorted names. *)
Fixpoint compact (l : list string) : list string :=
  match l with
  | [] => []
  | x :: rest => match rest with
                 | y :: _ => if String.eqb x y then compact rest else x :: compact rest
                 | [] => [x]
                 end
  end.

Definition phaseOrUnset (phase : string) : string :=
  if String.eqb phase "" then "not reporting a phase yet" else phase.

(** ** The pass *)

Section Pass.

(** Go's [%q] and [%v] of what the machine refuses; the server's words for an object it does not
    hold; how often [retry.DefaultRetry] tries again; how many suffixes are drawn before the
    pass counts as one that has not returned; the operator's namespace. *)
Context {T : Text} {L : Library}.
Context (NotFoundText : string -> string -> string) (DefaultRetry draws : nat) (ctx : Context)
  (operatorNamespace : string).

Definition event (warning : bool) (reason message : string) : act unit :=
  tell (Event warning reason message).

Definition clusterText (name : string) : string :=
  NotFoundText "storageclusters.storage.simplyblock.io" name.
Definition nodeText (name : string) : string := NotFoundText "storagenodes.storage.simplyblock.io" name.
Definition configText (name : string) : string :=
  NotFoundText "clusterdeploymentconfigs.storage.simplyblock.io" name.

(** A read of the cache. *)
Definition cache : act View := tell Cache.

Definition getCluster (name : string) : act (read StorageCluster) :=
  c ← held; v ← cache; ret (rd_Cluster (v_reader v) (cf_Namespace c) name).
Definition getNode (name : string) : act (read StorageNode) :=
  c ← held; v ← cache; ret (v_Node v (cf_Namespace c) name).
Definition listNodes : act (res string (list StorageNode)) :=
  c ← held; v ← cache; ret (rd_StorageNodes (v_reader v) (cf_Namespace c)).

(** A read whose every failure is one of the pass. *)
Definition must {A} (doing text : string) (r : read A) : act A :=
  match r with
  | Found x => ret x
  | NotFound => raise (Failed (doing ++ ": " ++ text))
  | ReadError e => raise (Failed (doing ++ ": " ++ e))
  end.

Definition reading_node (name err : string) : string := "reading StorageNode " ++ name ++ ": " ++ err.

(** *** The status *)

(** One attempt of [writeStatus]. *)
Definition write_once (mutate : ClusterDeploymentConfigStatus -> ClusterDeploymentConfigStatus)
    (c : ClusterDeploymentConfig) : prog call (ClusterDeploymentConfig * res api_error unit) :=
  do v <- Cache;
  match v_Config v (cf_Namespace c) (cf_Name c) with
  | NotFound => Ret (c, Err (Failure (configText (cf_Name c))))
  | ReadError e => Ret (c, Err (Failure e))
  | Found fresh =>
      let desired := cs_with_Generation (mutate (cf_Status fresh)) (cf_Generation fresh) in
      if equalConfigStatus (cf_Status fresh) desired then
        Ret (with_Status c desired (cf_ResourceVersion fresh), Ok ())
      else
        do r <- PatchStatus fresh (with_Status fresh desired (cf_ResourceVersion fresh));
        match r with
        | Ok stored => Ret (with_Status c (cf_Status stored) (cf_ResourceVersion stored), Ok ())
        | Err e => Ret (c, Err e)
        end
  end.

(** [retry.RetryOnConflict]. *)
Fixpoint retry_on_conflict {A B} (retries : nat) (m : A -> prog call (A * res api_error B)) (a : A)
    : prog call (A * res api_error B) :=
  bind (m a) (fun '(a, r) =>
    match r, retries with
    | Err (Conflict _), S retries => retry_on_conflict retries m a
    | _, _ => Ret (a, r)
    end).

Definition writeStatus (mutate : ClusterDeploymentConfigStatus -> ClusterDeploymentConfigStatus) : act unit :=
  fun c => bind (retry_on_conflict DefaultRetry (write_once mutate) c) (fun '(c, r) =>
    match r with
    | Ok _ => Ret (c, Ok ())
    | Err e => Ret (c, Err (Failed (api_text e)))
    end).

Definition note (phase message : string) : act unit :=
  writeStatus (fun s => cs_with_Phase s phase message).

Definition fail (message : string) : act result := _ ← note PhaseFailed message; ret None.

Definition recordCluster (name : string) : act unit := writeStatus (fun s => cs_with_ClusterRef s name).
Definition recordNodes (names : list string) : act unit := writeStatus (fun s => cs_with_NodeRefs s names).

Definition recordStep (next : string) (deadline : option Time) : act unit :=
  writeStatus (fun s => cs_with_Step s (mkKube next deadline None) (cs_ExpansionStartedAt s)).

Definition beginExpansion (initial : string) (deadline : option Time) : act unit :=
  now ← tell Now;
  writeStatus (fun s =>
    cs_with_Step s (mkKube initial deadline None) (or_else (cs_ExpansionStartedAt s) (Some now))).

Definition succeed : act unit :=
  c ← held;
  let message := "expanded into cluster " ++ cs_ClusterRef (cf_Status c) ++ " and " ++
                 Discovery.Count (cs_NodeRefs (cf_Status c)) ++ " node(s)" in
  _ ← event false "NodesCreated" message;
  writeStatus (fun s =>
    mkStatus PhaseExpanded (mkKube StepCompleted None None) (cs_ClusterRef s) (cs_Members s) (cs_NodeRefs s)
      message (cs_ObservedGeneration s) (cs_ExpansionStartedAt s)).

(** [emitFindings]: one event for each reason. *)
Fixpoint emit_each (seen : list string) (findings : list finding) : act unit :=
  match findings with
  | [] => ret ()
  | f :: findings =>
      if contains seen (reason f) then emit_each seen findings
      else _ ← event true (reason f) (message f); emit_each (reason f :: seen) findings
  end.
Definition emitFindings : list finding -> act unit := emit_each [].

(** *** The clusters a document builds ([supercluster.go]) *)

Definition addsMembers : act bool :=
  c ← held; v ← cache;
  match AddsMembers (v_reader v) c with Ok b => ret b | Err e => raise (Failed e) end.

Fixpoint targets_of (c : ClusterDeploymentConfig) (recorded : gmap string string) (sets : list NodeSet)
    : res error (list expansionTarget) :=
  match sets with
  | [] => Ok []
  | set :: sets =>
      match recorded !! ns_Name set with
      | None => Err (Failed ("status.members records no member for node set " ++ ns_Name set))
      | Some cluster =>
          rest <-- targets_of c recorded sets ;;
          Ok (mkTarget cluster (memberView c set) :: rest)
      end
  end.

Definition recorded_members (c : ClusterDeploymentConfig) : gmap string string :=
  foldl (fun m e => <[em_NodeSet e := em_Cluster e]> m) ∅ (cs_Members (cf_Status c)).

Definition lift {A} (r : res error A) : act A := match r with Ok x => ret x | Err e => raise e end.

Definition expansionTargets : act (list expansionTarget) :=
  c ← held;
  members ← addsMembers;
  if negb members then ret [mkTarget (cs_ClusterRef (cf_Status c)) c]
  else lift (targets_of c (recorded_members c) (nodeSets c)).

Definition ensureSupercluster (name : string) : act unit :=
  c ← held;
  r ← getCluster name;
  match r with
  | Found _ =>
      if String.eqb (cs_ClusterRef (cf_Status c)) name then ret ()
      else raise (Refused ClusterExists
        ("spec.cluster.name is " ++ name ++ " and a StorageCluster by that name already exists"))
  | NotFound =>
      made ← tell (CreateCluster (cf_Namespace c)
        (new_cluster name (mkClusterSpec None None "" None "" None None None None None None None None None
           "" None None None "" None None (Some emptyBlock) "")));
      match made with
      | Ok _ | Err (AlreadyExists _) => event false "ClusterCreated" ("Created supercluster " ++ name)
      | Err e => raise (Failed ("creating supercluster " ++ name ++ ": " ++ api_text e))
      end
  | ReadError e => raise (Failed (reading_cluster name e))
  end.

(** [memberSuffixes]. *)
Definition suffixes_of (supercluster : string) (clusters : list StorageCluster) : gset string :=
  list_to_set (omap (fun c =>
    if String.eqb (sp_SuperclusterRef (sc_Spec c)) supercluster &&
       Nat.ltb memberSuffixLength (String.length (sc_Name c))
    then suffix_of (sc_Name c) else None) clusters).

(** The suffixes of the recorded members; the slice of a shorter name panics. *)
Fixpoint recorded_suffixes (members : list ExpansionMember) : option (list string) :=
  match members with
  | [] => Some []
  | e :: members =>
      suffix ← suffix_of (em_Cluster e); rest ← recorded_suffixes members; Some (suffix :: rest)
  end.

(** [clusterExists]. *)
Definition clusterExists (name : string) : act bool :=
  r ← getCluster name;
  match r with
  | Found _ => ret true
  | NotFound => ret false
  | ReadError e => raise (Failed e)
  end.

(** The loop that draws a name for one node set. *)
Fixpoint draw_name (fuel : nat) (supercluster set : string) (suffixes : gset string)
    : act (string * string) :=
  match fuel with
  | O => raise StillDrawing
  | S fuel =>
      drawn ← tell DrawSuffix;
      match drawn with
      | Err e => raise (Failed e)
      | Ok suffix =>
          let candidate := memberName supercluster set suffix in
          taken ← clusterExists candidate;
          if taken || bool_decide (suffix ∈ suffixes) then draw_name fuel supercluster set suffixes
          else ret (candidate, suffix)
      end
  end.

Fixpoint draw_members (supercluster : string) (recorded : list string) (suffixes : gset string)
    (sets : list NodeSet) : act (list ExpansionMember) :=
  match sets with
  | [] => ret []
  | set :: sets =>
      if contains recorded (ns_Name set) then draw_members supercluster recorded suffixes sets
      else
        '(candidate, suffix) ← draw_name draws supercluster (ns_Name set) suffixes;
        rest ← draw_members supercluster recorded ({[suffix]} ∪ suffixes) sets;
        ret (mkExpansionMember (ns_Name set) candidate :: rest)
  end.

Definition recordMembers : act (list ExpansionMember) :=
  c ← held;
  v ← cache;
  match v_Clusters v (cf_Namespace c) with
  | Err e => raise (Failed ("listing the members of supercluster " ++ superclusterName c ++ ": " ++ e))
  | Ok clusters =>
      let members := cs_Members (cf_Status c) in
      match recorded_suffixes members with
      | None => raise Panicked
      | Some suffixes =>
          drawn ← draw_members (superclusterName c) (map em_NodeSet members)
                    (suffixes_of (superclusterName c) clusters ∪ list_to_set suffixes) (nodeSets c);
          match drawn with
          | [] => ret members
          | _ =>
              let all := (members ++ drawn)%list in
              _ ← writeStatus (fun s => cs_with_Members s all);
              c ← held;
              if Nat.eqb (length (cs_Members (cf_Status c))) (length all) then ret all
              else raise (Failed ("the apiserver did not keep status.members, so no member is created " ++
                "under a name that is not on record: the ClusterDeploymentConfig CRD predates the field " ++
                "and has to be updated"))
          end
      end
  end.

(** The members of the record, each of every node set of its name. *)
Fixpoint create_members (name : string) (pairs : list (ExpansionMember * NodeSet)) : act unit :=
  match pairs with
  | [] => ret ()
  | (entry, set) :: pairs =>
      c ← held;
      member ← lift (buildCluster (memberView c set) (em_Cluster entry) name);
      made ← tell (CreateCluster (cf_Namespace c) member);
      match made with
      | Err (AlreadyExists _) => create_members name pairs
      | Err e => raise (Failed ("creating member " ++ em_Cluster entry ++ ": " ++ api_text e))
      | Ok _ =>
          _ ← event false "ClusterCreated" ("Created member " ++ em_Cluster entry ++ " of supercluster " ++
                name ++ " from node set " ++ ns_Name set);
          create_members name pairs
      end
  end.

Definition member_pairs (members : list ExpansionMember) (sets : list NodeSet)
    : list (ExpansionMember * NodeSet) :=
  flat_map (fun entry =>
    map (pair entry) (List.filter (fun set => String.eqb (ns_Name set) (em_NodeSet entry)) sets)) members.

Definition createSupercluster : act bool :=
  c ← held;
  let name := superclusterName c in
  _ ← (if creates c then ensureSupercluster name else ret ());
  _ ← (if String.eqb (cs_ClusterRef (cf_Status c)) name then ret ()
       else
         _ ← recordCluster name;
         c ← held;
         hold (with_Status c (cs_with_ClusterRef (cf_Status c) name) (cf_ResourceVersion c)));
  members ← recordMembers;
  _ ← create_members name (member_pairs members (nodeSets c));
  ret true.

(** *** CreatingCluster *)

Definition createCluster : act bool :=
  c ← held;
  members ← addsMembers;
  if members : bool then
    match template c with
    | None => raise (Refused MemberSizingUnstated
        ("spec.clusterRef names supercluster " ++ clusterRef c ++ ", and the members the document adds " ++
         "have no sizing: state it in spec.cluster"))
    | Some _ => createSupercluster
    end
  else
    let name := TargetClusterName c in
    if String.eqb name "" then
      raise (Refused ClusterNotFound
        "the document neither names an existing cluster nor describes one to create")
    else
      r ← getCluster name;
      let mine := String.eqb (cs_ClusterRef (cf_Status c)) name in
      match r with
      | Found _ =>
          if negb mine && creates c then
            raise (Refused ClusterExists
              ("spec.cluster.name is " ++ name ++ " and a StorageCluster by that name already exists; " ++
               "set spec.clusterRef to add nodes to it instead"))
          else _ ← recordCluster name; ret true
      | ReadError e => raise (Failed (reading_cluster name e))
      | NotFound =>
          if negb (creates c) then
            raise (Refused ClusterNotFound
              ("spec.clusterRef names StorageCluster " ++ name ++ ", which does not exist"))
          else
            cluster ← lift (buildCluster c name "");
            made ← tell (CreateCluster (cf_Namespace c) cluster);
            match made with
            | Ok _ =>
                _ ← event false "ClusterCreated" ("Created StorageCluster " ++ name);
                _ ← recordCluster name; ret true
            | Err (AlreadyExists _) =>
                if mine then _ ← recordCluster name; ret true
                else raise (Refused ClusterExists
                  ("spec.cluster.name is " ++ name ++ " and a StorageCluster by that name was created " ++
                   "while this document was being expanded; set spec.clusterRef to add nodes to it instead"))
            | Err e => raise (Failed ("creating StorageCluster " ++ name ++ ": " ++ api_text e))
            end
      end.

(** *** AwaitingCluster *)

Fixpoint all_created (targets : list expansionTarget) : act bool :=
  match targets with
  | [] => ret true
  | t :: targets =>
      r ← getCluster (ta_cluster t);
      cluster ← must ("reading StorageCluster " ++ ta_cluster t) (clusterText (ta_cluster t)) r;
      if String.eqb (sc_UUID cluster) "" then ret false else all_created targets
  end.

Definition awaitCluster : act bool := targets ← expansionTargets; all_created targets.

(** *** CreatingNodes *)

(** [mapFailureDomains]: the cluster as it was written, or as it was given. *)
Definition map_once (labels : list string) (namespace : string) (cluster : StorageCluster)
    : prog call (StorageCluster * res api_error unit) :=
  do v <- Cache;
  match rd_Cluster (v_reader v) namespace (sc_Name cluster) with
  | NotFound => Ret (cluster, Err (Failure (clusterText (sc_Name cluster))))
  | ReadError e => Ret (cluster, Err (Failure e))
  | Found fresh =>
      let mapping := assignFailureDomains (sc_FailureDomains fresh) labels in
      if bool_decide (sc_FailureDomains fresh = mapping) then Ret (fresh, Ok ())
      else
        do r <- PatchDomains namespace fresh
                  (mkCluster (sc_Name fresh) (sc_Spec fresh) (sc_UUID fresh) (sc_ErasureCodingScheme fresh)
                     mapping (sc_ResourceVersion fresh));
        match r with
        | Ok stored => Ret (stored, Ok ())
        | Err e => Ret (cluster, Err e)
        end
  end.

Definition mapFailureDomains (document : ClusterDeploymentConfig) (cluster : StorageCluster)
    : act StorageCluster :=
  match failureDomainsOf document with
  | [] => ret cluster
  | labels => fun c =>
      bind (retry_on_conflict DefaultRetry (map_once labels (cf_Namespace document)) cluster)
        (fun '(cluster, r) =>
           match r with
           | Ok _ => Ret (c, Ok cluster)
           | Err e => Ret (c, Err (Failed ("recording the failure domains of StorageCluster " ++
                                           sc_Name cluster ++ ": " ++ api_text e)))
           end)
  end.

(** The loop over the slots of one cluster: the nodes that exist, and whether one that
    would be created is missing. *)
Fixpoint create_slots (document : ClusterDeploymentConfig) (cluster : StorageCluster)
    (existing : gmap (string * Z) string) (create : bool)
    (slots : list (NodeSet * NodeGroup * string * int32)) : act (list string * bool) :=
  match slots with
  | [] => ret ([], false)
  | (set, group, worker, slot) :: slots =>
      match existing !! (worker, slot) with
      | Some name =>
          '(names, skipped) ← create_slots document cluster existing create slots;
          ret (name :: names, skipped)
      | None =>
          if negb create then
            '(names, _) ← create_slots document cluster existing create slots;
            ret (names, true)
          else
            let node := buildNode document cluster set group worker slot in
            made ← tell (CreateNode (cf_Namespace document) node);
            match made with
            | Ok _ | Err (AlreadyExists _) =>
                '(names, skipped) ← create_slots document cluster existing create slots;
                ret (sn_Name node :: names, skipped)
            | Err e => raise (Failed ("creating StorageNode for worker " ++ worker ++ " slot " ++
                                      Itoa slot ++ ": " ++ api_text e))
            end
      end
  end.

Definition createNodesFor (document : ClusterDeploymentConfig) (name : string) (create : bool)
    : act (list string * bool) :=
  r ← getCluster name;
  cluster ← must ("reading StorageCluster " ++ name) (clusterText name) r;
  cluster ← mapFailureDomains document cluster;
  l ← listNodes;
  match l with
  | Err e => raise (Failed ("listing the cluster's nodes: " ++ e))
  | Ok all => create_slots document cluster (filled_slots (sc_Name cluster) all) create
                (planned document cluster)
  end.

Fixpoint firstNodeNotOnline (names : list string) : act string :=
  match names with
  | [] => ret ""
  | name :: names =>
      r ← getNode name;
      match r with
      | NotFound => ret name
      | ReadError e => raise (Failed (reading_node name e))
      | Found node =>
          if String.eqb (sn_Phase node) StorageNodePhaseOnline then firstNodeNotOnline names
          else ret name
      end
  end.

(** The loop over the members: each one's nodes once the members' before it are online. *)
Fixpoint create_targets (targets : list expansionTarget) (open : bool) : act (list string * bool) :=
  match targets with
  | [] => ret ([], false)
  | t :: targets =>
      '(names, skipped) ← createNodesFor (ta_document t) (ta_cluster t) open;
      still ← (if negb open || DiscoveryGroups.nothing targets then ret open
               else
                 waiting ← firstNodeNotOnline names;
                 if String.eqb waiting "" then ret open
                 else
                   _ ← event false "AwaitingNodes" ("StorageNode " ++ waiting ++ " of member " ++
                         ta_cluster t ++ " is not Online yet, so the next member's nodes are not created");
                   ret false);
      '(more, held) ← create_targets targets still;
      ret ((names ++ more)%list, skipped || held)
  end.

Definition createNodes : act bool :=
  targets ← expansionTargets;
  '(created, held) ← create_targets targets true;
  _ ← recordNodes (compact (sort_strings created));
  ret (negb held).

(** *** Activating *)

(** The first recorded node, of those [mine], that is there and not online. *)
Fixpoint first_waiting (mine : StorageNode -> bool) (names : list string) : act (option (string * string)) :=
  match names with
  | [] => ret None
  | name :: names =>
      r ← getNode name;
      match r with
      | NotFound => first_waiting mine names
      | ReadError e => raise (Failed (reading_node name e))
      | Found node =>
          if negb (mine node) || String.eqb (sn_Phase node) StorageNodePhaseOnline
          then first_waiting mine names
          else ret (Some (name, sn_Phase node))
      end
  end.

Definition firstNodeRefNotOnline : act (option (string * string)) :=
  c ← held; first_waiting (fun _ => true) (cs_NodeRefs (cf_Status c)).

(** The peer site's nodes that are online, counted, and the hosts they are on. *)
Definition peer_nodes (cluster : string) (all : list StorageNode) : list StorageNode :=
  List.filter (fun n => String.eqb (sn_ClusterRef n) cluster && IsRemote n &&
                        String.eqb (sn_Status n) NodeStatusOnline) all.
Definition peer_hosts (nodes : list StorageNode) : gset string :=
  list_to_set (List.filter (fun h => negb (String.eqb h "")) (map (fun n => nodeHost (sn_Hostname n)) nodes)).

(** Held, and done. *)
Definition stretchedActivation (name : string) : act (bool * bool) :=
  r ← getCluster name;
  match r with
  | NotFound => ret (false, false)
  | ReadError e => raise (Failed (reading_cluster name e))
  | Found cluster =>
      match sp_Stretched (sc_Spec cluster) with
      | None => ret (false, false)
      | Some s =>
          if IsStretchedFollower cluster then
            _ ← event false "ActivationLeftToLeader" ("Every node of site " ++ st_Site s ++
                  " is online; cluster " ++ sc_Name cluster ++ " is activated by its leader site " ++
                  st_PeerSite s);
            ret (true, true)
          else
            let need := stripeWidth cluster in
            l ← listNodes;
            match l with
            | Err e => raise (Failed ("listing the peer site's nodes: " ++ e))
            | Ok all =>
                let peers := peer_nodes (sc_Name cluster) all in
                let online := Z.of_nat (length peers) in
                let hosts := Z.of_nat (size (peer_hosts peers)) in
                if (online <? need)%Z || (hosts <? syncMinHostsPerSite)%Z then
                  _ ← event false "WaitingForPeerSite" ("Site " ++ st_PeerSite s ++ " has " ++ Itoa online ++
                        " online node(s) on " ++ Itoa hosts ++ " host(s); the backend needs " ++ Itoa need ++
                        " node(s) on " ++ Itoa syncMinHostsPerSite ++ " host(s) on each site before cluster " ++
                        sc_Name cluster ++ " can activate");
                  ret (true, false)
                else ret (false, false)
            end
      end
  end.

Definition awaitingPeerSite : act bool :=
  c ← held;
  if String.eqb (cs_ClusterRef (cf_Status c)) "" then ret false
  else
    waiting ← firstNodeRefNotOnline;
    match waiting with
    | Some _ => ret false
    | None =>
        '(is_held, done) ← stretchedActivation (cs_ClusterRef (cf_Status c));
        ret (is_held && negb done)
    end.

Definition activateTarget (cluster : string) : act bool :=
  c ← held;
  waiting ← first_waiting (fun n => String.eqb (sn_ClusterRef n) cluster) (cs_NodeRefs (cf_Status c));
  match waiting with
  | Some (name, phase) =>
      _ ← event false "AwaitingNodes" ("StorageNode " ++ name ++ " is " ++ phase ++ " rather than Online");
      ret false
  | None =>
      '(is_held, done) ← stretchedActivation cluster;
      if is_held : bool then ret done
      else
        made ← tell (CreateOps (cf_Namespace c)
                 (mkClusterOps (cluster ++ "-activate") (cf_Name c) cluster ActionActivate));
        match made with
        | Ok _ =>
            _ ← event false "ActivationRequested" ("Every node is online, so cluster " ++ cluster ++
                  " was asked to activate");
            ret true
        | Err (AlreadyExists _) => ret true
        | Err e => raise (Failed ("asking for cluster " ++ cluster ++ " to be activated: " ++ api_text e))
        end
  end.

Fixpoint activate_each (targets : list expansionTarget) : act bool :=
  match targets with
  | [] => ret true
  | t :: targets =>
      activated ← activateTarget (ta_cluster t);
      rest ← activate_each targets;
      ret (activated && rest)
  end.

Definition activateCluster : act bool :=
  c ← held;
  if String.eqb (cs_ClusterRef (cf_Status c)) "" then
    raise (Refused ClusterNotFound "the document records no cluster to activate")
  else targets ← expansionTargets; activate_each targets.

(** *** One step *)

Definition performStep (current : string) : act bool :=
  if String.eqb current stepValidating then ret true
  else if String.eqb current stepCreatingCluster then createCluster
  else if String.eqb current stepAwaitingCluster then awaitCluster
  else if String.eqb current stepCreatingNodes then createNodes
  else if String.eqb current stepActivating then activateCluster
  else raise (Failed ("step " ++ current ++ " belongs to no expansion this operator runs")).

(** What a pass that met an error leaves in the status. *)
Definition held_up (e : error) : act result :=
  match e with
  | Refused _ m | Failed m => _ ← note PhaseExpanding m; ret (Some configRetry)
  | Panicked | StillDrawing => raise e
  end.

(** What follows a step that is done. *)
Definition move_on (machine : Machine string Time) : act result :=
  if IsTerminal machine then _ ← succeed; ret None
  else
    match nextStep machine with
    | Err current => fail ("step " ++ current ++ " declares no successor and is not terminal")
    | Ok next =>
        now ← tell Now;
        match TransitionTo (fun t => t) machine now ctx next with
        | (machine, _, TransitionDone) =>
            _ ← recordStep next (kube_Deadline (ToKube (TakeSnapshot machine)));
            ret (Some configAdvance)
        | (_, _, TransitionErr err) =>
            raise (Failed ("enter step " ++ next ++ ": " ++ DeviceOps.merr_text [] err))
        | (_, _, TransitionPanic) => raise Panicked
        end
    end.

Definition run_step (machine : Machine string Time) : act result :=
  let current := CurrentState machine in
  now ← tell Now;
  if TimeoutReached machine now then
    _ ← event true "StepDeadlineExceeded" ("Step " ++ current ++ " outlived its deadline");
    fail ("step " ++ current ++ " outlived its deadline")
  else
    done ← attempt (performStep current);
    match done with
    | Err (Refused why m) => _ ← event true why m; fail m
    | Err e => held_up e
    | Ok false => _ ← note PhaseExpanding ("waiting on " ++ current); ret (Some configRetry)
    | Ok true => move_on machine
    end.

(** Whether the deadline of a step that waits for another site is spent by half. *)
Definition half_spent : act bool :=
  c ← held;
  match kube_Deadline (cs_Step (cf_Status c)) with
  | None => ret true
  | Some deadline => now ← tell Now; ret (deadline - now <? activatingDeadline / 2)%Z
  end.

Definition expand : act result :=
  c ← held;
  members ← addsMembers;
  now ← tell Now;
  let graph := expansionGraph (clustersBuilt c members) in
  match NewFromSnapshot "" ctx graph (FromKube (cs_Step (cf_Status c))) now with
  | Err err => fail ("the expansion cannot be resumed: " ++ DeviceOps.merr_text (DeclaredStates graph) err)
  | Ok machine =>
      if String.eqb (kube_State (cs_Step (cf_Status c))) "" then
        now ← tell Now;
        _ ← beginExpansion (CurrentState machine) (Some (now + validatingDeadline)%Z);
        ret (Some configAdvance)
      else if String.eqb (CurrentState machine) stepActivating then
        waiting ← attempt awaitingPeerSite;
        match waiting with
        | Err e => held_up e
        | Ok true =>
            spent ← half_spent;
            _ ← (if spent : bool then
                   now ← tell Now; recordStep (CurrentState machine) (Some (now + activatingDeadline)%Z)
                 else ret ());
            ret (Some configRetry)
        | Ok false => run_step machine
        end
      else run_step machine
  end.

(** *** The pass *)

Definition awaiting_approval : string := "the document is valid and is waiting for spec.approved".

Definition holdAsDraft (findings : list finding) : act result :=
  match findings with
  | _ :: _ =>
      _ ← emitFindings findings;
      _ ← note PhaseDraft (summarize findings);
      ret (Some configRetry)
  | [] =>
      c ← held;
      _ ← (if String.eqb (cs_Message (cf_Status c)) awaiting_approval then ret ()
           else event false "AwaitingApproval" awaiting_approval);
      _ ← note PhaseDraft awaiting_approval;
      ret None
  end.

Definition markReadyToDeploy : act unit :=
  c ← held;
  if bool_decide (cf_Labels c !! readyToDeploy = Some readyToDeployValue) then ret ()
  else
    r ← tell (PatchLabels c (with_Labels c (<[readyToDeploy := readyToDeployValue]> (cf_Labels c))));
    match r with
    | Ok stored => hold stored
    | Err e => raise (Failed (api_text e))
    end.

(** Empty where the control plane answers. *)
Definition controlPlaneReady : act string :=
  v ← cache;
  match v_ControlPlane v operatorNamespace singletonControlPlane with
  | ReadError e => ret ("ControlPlane " ++ singletonControlPlane ++ " cannot be read: " ++ e)
  | NotFound => ret ("ControlPlane " ++ singletonControlPlane ++ " cannot be read: " ++
                     NotFoundText "controlplanes.storage.simplyblock.io" singletonControlPlane)
  | Found phase =>
      if String.eqb phase "Available" || String.eqb phase "Degraded" then ret ""
      else ret ("ControlPlane " ++ singletonControlPlane ++ " is " ++ phaseOrUnset phase ++
                ", so it is not answering yet")
  end.

Definition with_role (cluster : StorageCluster) (role : string) : StorageCluster :=
  let s := sc_Spec cluster in
  mkCluster (sc_Name cluster)
    (mkClusterSpec (sp_MaxSubsystemCount s) (sp_VCPUCount s) (sp_MinHugePagesSize s) (sp_Stripe s)
       (sp_FabricType s) (sp_NvmfBasePort s) (sp_RpcBasePort s) (sp_SnodeApiPort s)
       (sp_EnableFailureDomains s) (sp_EnableSyncReplication s)
       (option_map (fun st => mkStretched (st_Site st) (st_PeerSite st) (st_PeerCluster st) role)
          (sp_Stretched s))
       (sp_EnableNodeAffinity s) (sp_EnableChecksumValidation s) (sp_EnableAtomicity4K s)
       (sp_DeviceClass s) (sp_KMS s) (sp_StorageNodes s) (sp_Backup s) (sp_ClusterMode s)
       (sp_EnableArbitration s) (sp_Arbitration s) (sp_Supercluster s) (sp_SuperclusterRef s))
    (sc_UUID cluster) (sc_ErasureCodingScheme cluster) (sc_FailureDomains cluster)
    (sc_ResourceVersion cluster).

Definition carryStretchedRole : act unit :=
  c ← held;
  match template c ≫= ct_Stretched with
  | None => ret ()
  | Some asked =>
      let name := cs_ClusterRef (cf_Status c) in
      if String.eqb name "" then ret ()
      else
        r ← getCluster name;
        match r with
        | NotFound => ret ()
        | ReadError e => raise (Failed e)
        | Found cluster =>
            match sp_Stretched (sc_Spec cluster) with
            | None => ret ()
            | Some acts =>
                if String.eqb (st_Role acts) (st_Role asked) then ret ()
                else
                  r ← tell (PatchRole (cf_Namespace c) cluster (with_role cluster (st_Role asked)));
                  match r with
                  | Err e => raise (Failed ("carry the stretched role " ++ st_Role asked ++
                      " onto StorageCluster " ++ sc_Name cluster ++ ": " ++ api_text e))
                  | Ok stored => event false "StretchedRoleCarried" ("StorageCluster " ++ sc_Name stored ++
                      " now acts as " ++ st_Role asked ++ ", where it acted as " ++ st_Role acts)
                  end
            end
        end
  end.

Definition validated : act (list finding) :=
  c ← held; v ← cache;
  match validate (v_reader v) c with Ok found => ret found | Err e => raise (Failed e) end.

(** [Reconcile], from the document it read. *)
Definition reconcile : act result :=
  c ← held;
  if cf_Deleting c then ret None
  else if terminalConfig (cs_Phase (cf_Status c)) then
    _ ← (if String.eqb (cs_Phase (cf_Status c)) PhaseExpanded then carryStretchedRole else ret ());
    ret None
  else
    findings ← validated;
    if negb (dc_Approved (cf_Spec c)) then holdAsDraft findings
    else
      match findings with
      | first :: _ =>
          _ ← emitFindings findings;
          fail (message first)
      | [] =>
          _ ← markReadyToDeploy;
          unready ← controlPlaneReady;
          if String.eqb unready "" then expand
          else
            _ ← event true "ControlPlaneNotReady" unready;
            _ ← note PhaseExpanding unready;
            ret (Some configRetry)
      end.

Definition Reconcile (namespace name : string) : prog call (res error result) :=
  do v <- Cache;
  match v_Config v namespace name with
  | NotFound => Ret (Ok None)
  | ReadError e => Ret (Err (Failed e))
  | Found c => bind (reconcile c) (fun '(_, r) => Ret r)
  end.

(** [everyUnfinishedDocument]: the documents a change to a worker is looked at for. *)
Definition everyUnfinishedDocument (configs : res string (list ClusterDeploymentConfig))
    : list (string * string) :=
  match configs with
  | Err _ => []
  | Ok all =>
      map (fun c => (cf_Namespace c, cf_Name c))
        (List.filter (fun c => negb (terminalConfig (cs_Phase (cf_Status c)))) all)
  end.

End Pass.

(** ** What a pass builds *)

Section Passes.

Context {T : Text} {L : Library}.
Context (NotFoundText : string -> string -> string) (DefaultRetry draws : nat) (ctx : Context)
  (operatorNamespace : string).

Abbreviation Reconcile' := (Reconcile NotFoundText DefaultRetry draws ctx operatorNamespace).
Abbreviation writeStatus' := (writeStatus NotFoundText DefaultRetry).

(** *** Parts that make no call of a kind *)

(** A kind of call that is none of those every part makes: a read, a write of the
    document's status, the clock, an event. *)
Class Kind (bad : forall X, call X -> bool) : Prop := {
  not_Cache : bad _ Cache = false;
  not_Now : bad _ Now = false;
  not_Status base new : bad _ (PatchStatus base new) = false;
  not_Event warning why m : bad _ (Event warning why m) = false;
}.

Section Quiet.

Context (bad : forall X, call X -> bool) {B : Kind bad}.

#[local] Instance none_of : Rule call unit :=
  watched (fun X c _ => bad X c = false) (fun _ _ _ s => s) (fun _ _ _ => True).

Definition quiet {S E A} (m : Programs.act call S E A) : Prop := forall s, wp (m s) (fun _ _ => True) tt.

Lemma quiet_ret {S E A} (x : A) : quiet (ret x : Programs.act call S E A).
Proof. by intros s. Qed.

Lemma quiet_raise {S E A} (e : E) : quiet (raise e : Programs.act call S E A).
Proof. by intros s. Qed.

Lemma quiet_bind {S E A C} (m : Programs.act call S E A) (k : A -> Programs.act call S E C) :
  quiet m -> (forall a, quiet (k a)) -> quiet (m ≫= k).
Proof.
  intros Hm Hk s. apply wp_act. specialize (Hm s). revert Hm. apply wp_mono.
  intros [s' [a|e]] [] _; [apply Hk|done].
Qed.

Lemma quiet_ret_bind {S E A C} (a : A) (k : A -> Programs.act call S E C) : quiet (k a) -> quiet (ret a ≫= k).
Proof. intros Hk s. exact (Hk s). Qed.

Lemma quiet_tell {S E A} (c : call A) : bad A c = false -> quiet (tell c : Programs.act call S E A).
Proof. intros Hc s. by split. Qed.

Lemma quiet_held {S E A} (k : S -> Programs.act call S E A) : (forall s, quiet (k s)) -> quiet (held ≫= k).
Proof. intros Hk s. apply Hk. Qed.

Lemma quiet_attempt {S E E' A} (m : Programs.act call S E A) : quiet m -> quiet (attempt (E' := E') m).
Proof.
  intros Hm s. unfold attempt. apply wp_bind. generalize (Hm s). apply wp_mono. by intros [? ?] [] _.
Qed.

Lemma quiet_retry {S A} retries (m : S -> prog call (S * res api_error A)) s :
  (forall s, wp (m s) (fun _ _ => True) tt) -> wp (retry_on_conflict retries m s) (fun _ _ => True) tt.
Proof.
  intros Hm. revert s. induction retries as [|retries IH]; intros s; cbn [retry_on_conflict]; apply wp_bind;
    generalize (Hm s); apply wp_mono; by intros [s' [?|[]]] [] _.
Qed.

Lemma quiet_write mutate : quiet (writeStatus' mutate).
Proof.
  intros c. unfold writeStatus. apply wp_bind. eapply wp_mono; [|apply quiet_retry].
  - by intros [c' [?|e]] [] _.
  - clear c. intros c. unfold write_once. split; [apply not_Cache|]. intros v _.
    destruct (v_Config _ _ _) as [fresh| |e]; [|done..]. destruct (equalConfigStatus _ _); [done|].
    split; [apply not_Status|]. by intros [stored|e] _.
Qed.

(** A run of a part holds no call of the kind it makes none of. *)
Definition is_bad (e : Programs.event call) : bool := let 'Ev c _ := e in bad _ c.

Lemma heeded_none tr e :
  heeded (fun X c (_ : unit) => bad X c = false) (fun _ _ _ s => s) tr tt -> e ∈ tr -> is_bad e = false.
Proof.
  induction tr as [|[Y d y] tr IH]; [by intros _ ?%not_elem_of_nil|].
  intros [Ha Hh] [->|Hin]%elem_of_cons; [exact Ha|auto].
Qed.

Lemma quiet_run {S E A} (m : Programs.act call S E A) s tr r e :
  quiet m -> does (m s) tr r -> e ∈ tr -> is_bad e = false.
Proof.
  intros Hm Hd Hin.
  destruct (watched_sound _ _ _ _ _ _ _ _ (Hm s) Hd) as [Hh _];
    [apply Forall_forall; by intros [? ? ?] _|]. by eapply heeded_none.
Qed.

End Quiet.

Create HintDb quiet.
#[local] Hint Resolve quiet_write quiet_attempt : quiet.

Ltac quiet :=
  repeat lazymatch goal with
  | |- quiet _ (held ≫= _) => apply quiet_held; intros ?
  | |- quiet _ (_ ≫= _) => apply quiet_bind; [|intros ?]
  | |- quiet _ (match ?x with _ => _ end) => destruct x eqn:?
  | |- quiet _ (raise _) => apply quiet_raise
  | |- quiet _ (tell Cache) => apply quiet_tell, not_Cache
  | |- quiet _ (tell Now) => apply quiet_tell, not_Now
  | |- quiet _ (tell (Event _ _ _)) => apply quiet_tell, not_Event
  | |- quiet _ (tell _) => apply quiet_tell; reflexivity
  | |- quiet _ _ => solve [auto with quiet typeclass_instances | apply quiet_ret]
  end.

Section Parts.

Context (bad : forall X, call X -> bool) {B : Kind bad}.

Lemma quiet_event warning why m : quiet bad (event warning why m).
Proof. unfold event. quiet. Qed.

Lemma quiet_emit seen findings : quiet bad (emit_each seen findings).
Proof.
  revert seen. induction findings as [|f findings IH]; intros seen; cbn [emit_each]; [by apply quiet_ret|].
  destruct (contains _ _); [apply IH|]. apply quiet_bind; [apply quiet_event|intros ?; apply IH].
Qed.

Lemma quiet_getCluster name : quiet bad (getCluster name).
Proof. unfold getCluster, cache. quiet. Qed.
Lemma quiet_getNode name : quiet bad (getNode name).
Proof. unfold getNode, cache. quiet. Qed.
Lemma quiet_listNodes : quiet bad listNodes.
Proof. unfold listNodes, cache. quiet. Qed.
Lemma quiet_must {A} doing text (r : read A) : quiet bad (must doing text r).
Proof. unfold must. quiet. Qed.

Lemma quiet_fail message : quiet bad (fail NotFoundText DefaultRetry message).
Proof. unfold fail, note. quiet. Qed.

End Parts.

#[local] Hint Resolve quiet_event quiet_emit quiet_getCluster quiet_getNode quiet_listNodes quiet_must
  quiet_fail : quiet.

(** *** What is built *)

(** The calls that make or change anything but the document's own status. *)
Definition building X (c : call X) : bool :=
  match c with
  | CreateCluster _ _ | CreateNode _ _ | CreateOps _ _ | PatchDomains _ _ _ | PatchLabels _ _
  | PatchRole _ _ _ => true
  | _ => false
  end.
Definition builds : Programs.event call -> bool := is_bad building.

#[local] Instance building_kind : Kind building.
Proof. by split. Qed.

Lemma quiet_draft findings : quiet building (holdAsDraft NotFoundText DefaultRetry findings).
Proof. unfold holdAsDraft, emitFindings, note. quiet. Qed.
#[local] Hint Resolve quiet_draft : quiet.

Lemma getCluster_does name c tr c' r : does (getCluster name c) tr (c', r) -> exists v,
  tr = [Ev Cache v] /\ c' = c /\ r = Ok (rd_Cluster (v_reader v) (cf_Namespace c) name).
Proof.
  unfold getCluster, listNodes, cache. intros Hd. apply does_held, does_tell in Hd as (v & tr' & -> & Hd). exists v.
  by apply does_ret in Hd as (-> & -> & ->).
Qed.

(** The call that carries the role of a document onto the cluster it is recorded to have made,
    as that cluster was read. *)
Definition carries_role (document : ClusterDeploymentConfig) (tr : list (Programs.event call))
    (e : Programs.event call) : Prop :=
  exists v cluster asked x, Ev Cache v ∈ tr /\
    rd_Cluster (v_reader v) (cf_Namespace document) (cs_ClusterRef (cf_Status document)) = Found cluster /\
    (template document ≫= ct_Stretched) = Some asked /\
    e = Ev (PatchRole (cf_Namespace document) cluster (with_role cluster (st_Role asked))) x.

Lemma carried_role document tr r e : does (carryStretchedRole document) tr r -> e ∈ tr -> builds e = true ->
  carries_role document tr e.
Proof.
  destruct r as [c' r]. unfold carryStretchedRole. intros Hd Hin Hb. apply does_held in Hd.
  destruct (template document ≫= ct_Stretched) as [asked|] eqn:Ea;
    [|by apply does_ret in Hd as [-> _]; apply not_elem_of_nil in Hin].
  destruct (String.eqb _ ""); [by apply does_ret in Hd as [-> _]; apply not_elem_of_nil in Hin|].
  apply does_act in Hd as [(err & _ & Hd)|(tr1 & tr2 & c1 & r1 & -> & H1 & Hd)].
  { assert (builds e = false); [|congruence].
    eapply (quiet_run building (getCluster (cs_ClusterRef (cf_Status document)))); [|exact Hd|exact Hin].
    apply quiet_getCluster. apply _. }
  apply getCluster_does in H1 as (v & -> & -> & [= ->]).
  apply elem_of_cons in Hin as [->|Hin]; [done|].
  destruct (rd_Cluster _ _ _) as [cluster| |err] eqn:Ec;
    [|by apply does_ret in Hd as [-> _]; apply not_elem_of_nil in Hin
     |by apply does_raise in Hd as [-> _]; apply not_elem_of_nil in Hin].
  destruct (sp_Stretched _) as [acts|]; [|by apply does_ret in Hd as [-> _]; apply not_elem_of_nil in Hin].
  destruct (String.eqb _ _); [by apply does_ret in Hd as [-> _]; apply not_elem_of_nil in Hin|].
  apply does_tell in Hd as (x & tr' & -> & Hd). apply elem_of_cons in Hin as [->|Hin].
  - exists v, cluster, asked, x. split; [by left|]. done.
  - assert (builds e = false); [|congruence]. destruct x as [stored|err].
    + eapply (quiet_run building); [|exact Hd|exact Hin]. apply quiet_event. apply _.
    + apply does_raise in Hd as [-> _]. by apply not_elem_of_nil in Hin.
Qed.

(** C4. Nothing is built before somebody approved it.  A pass makes or changes an object, apart
    from the status of its document, only for a document it read that is not being deleted; and
    it does so for an unfinished one, approved, after the checks, on what it read of the cluster,
    found nothing, or for an expanded one, and then it only writes the role the document asks for
    over the role of the cluster it is recorded to have made. *)
Theorem builds_only_what_was_approved namespace name tr r
    (Hd : does (Reconcile' namespace name) tr r) e (Hin : e ∈ tr) (Hb : builds e = true) :
  exists v document rest, tr = Ev Cache v :: rest /\ v_Config v namespace name = Found document /\
    cf_Deleting document = false /\
    ((terminalConfig (cs_Phase (cf_Status document)) = false /\ dc_Approved (cf_Spec document) = true /\
      exists v' rest', rest = Ev Cache v' :: rest' /\ validate (v_reader v') document = Ok []) \/
     (cs_Phase (cf_Status document) = PhaseExpanded /\ carries_role document rest e)).
Proof.
  destruct tr as [|e0 tr]; [done|]. destruct Hd as (v & -> & Hd).
  apply elem_of_cons in Hin as [->|Hin]; [done|].
  destruct (v_Config v namespace name) as [document| |err] eqn:Ev1;
    [|by destruct Hd as [-> _]; apply not_elem_of_nil in Hin..].
  apply does_bind in Hd as (tr1 & tr2 & [s1 r1] & -> & Hd & [-> _]). rewrite app_nil_r in Hin |- *.
  exists v, document, tr1. split; [done|]. split; [done|].
  unfold reconcile in Hd. apply does_held in Hd.
  destruct (cf_Deleting document) eqn:Edel; [apply does_ret in Hd as [-> _]; by apply not_elem_of_nil in Hin|].
  split; [done|].
  destruct (terminalConfig (cs_Phase (cf_Status document))) eqn:Eterm.
  { right. destruct (String.eqb_spec (cs_Phase (cf_Status document)) PhaseExpanded) as [He|He].
    - split; [done|]. apply does_act in Hd as [(err & _ & Hd)|(tr2 & tr3 & c2 & u & -> & Hd & Hr)];
        [|apply does_ret in Hr as [-> _]; rewrite app_nil_r in *]; by eapply carried_role.
    - assert (builds e = false); [|congruence]. eapply (quiet_run building); [|exact Hd|exact Hin]. quiet. }
  left. split; [done|].
  unfold validated in Hd. apply does_act in Hd as [(err & _ & Hd)|(tr0 & tr3 & s & findings & -> & Hv & Hd)].
  { assert (builds e = false); [|congruence]. eapply (quiet_run building); [|exact Hd|exact Hin]. unfold cache. quiet. }
  apply does_held in Hv. apply does_tell in Hv as (v' & tr1 & -> & Hv).
  destruct (validate (v_reader v') document) as [found|err] eqn:Evalid;
    [apply does_ret in Hv as (-> & -> & [= ->])|by apply does_raise in Hv as (_ & _ & [=])].
  simpl app in *. apply elem_of_cons in Hin as [->|Hin]; [done|].
  destruct (dc_Approved (cf_Spec document)) eqn:Ea; simpl negb in Hd; cbv iota in Hd.
  - split; [done|]. exists v', tr3. split; [done|]. destruct found as [|first found]; [done|].
    assert (builds e = false); [|congruence]. eapply (quiet_run building); [|exact Hd|exact Hin]. unfold emitFindings. quiet.
  - assert (builds e = false); [|congruence]. eapply (quiet_run building); [|exact Hd|exact Hin]. apply quiet_draft.
Qed.

(** *** The nodes of one cluster *)

Definition creating_node X (c : call X) : bool := match c with CreateNode _ _ => true | _ => false end.
#[local] Instance creating_node_kind : Kind creating_node.
Proof. by split. Qed.

(** The node a call creates. *)
Definition node_of (e : Programs.event call) : option StorageNode :=
  let 'Ev c _ := e in match c with CreateNode _ n => Some n | _ => None end.

Lemma no_nodes {S E A} (m : Programs.act call S E A) s tr r :
  quiet creating_node m -> does (m s) tr r -> omap node_of tr = [].
Proof.
  intros Hm Hd. apply omap_nil. intros e He.
  pose proof (quiet_run creating_node m s tr r e Hm Hd He) as Hb. destruct e as [X c x]. by destruct c.
Qed.

(** A planned slot, as a node is known by it, and the node it gets. *)
Definition slot_key (p : NodeSet * NodeGroup * string * int32) : string * Z := (p.1.2, p.2).
Definition node_for (document : ClusterDeploymentConfig) (cluster : StorageCluster)
    (p : NodeSet * NodeGroup * string * int32) : StorageNode :=
  buildNode document cluster p.1.1.1 p.1.1.2 p.1.2 p.2.

Lemma node_for_slot document cluster p :
  sn_ClusterRef (node_for document cluster p) = sc_Name cluster /\
  (sn_WorkerNode (node_for document cluster p), slot_of (node_for document cluster p)) = slot_key p.
Proof. unfold node_for, buildNode. by destruct (decomposeSlot _ _). Qed.

Lemma create_slots_does document cluster existing slots : forall c tr c' names skipped,
  does (create_slots document cluster existing true slots c) tr (c', Ok (names, skipped)) ->
  c' = c /\ skipped = false /\
  omap node_of tr =
    map (node_for document cluster) (filter (fun p => existing !! slot_key p = None) slots) /\
  names = map (fun p => default (sn_Name (node_for document cluster p)) (existing !! slot_key p)) slots.
Proof.
  induction slots as [|[[[set group] worker] slot] slots IH]; intros c tr c' names skipped Hd;
    cbn [create_slots] in Hd.
  { apply does_ret in Hd as (-> & -> & [= -> ->]). done. }
  destruct (existing !! (worker, slot)) as [name|] eqn:El; simpl negb in Hd; cbv iota in Hd;
    rewrite filter_cons; cbn [map]; change (slot_key (set, group, worker, slot)) with (worker, slot).
  - apply does_act in Hd as [(? & [=] & _)|(tr1 & tr2 & c1 & [more sk] & -> & Hd & Hr)].
    apply does_ret in Hr as (-> & -> & [= -> ->]). apply IH in Hd as (-> & -> & Hn & ->).
    rewrite decide_False by (by rewrite El). rewrite app_nil_r. split; [done|]. split; [done|].
    split; [done|]. by rewrite El.
  - apply does_tell in Hd as (made & tr' & -> & Hd). rewrite decide_True by done. cbn [map omap list_omap].
    assert (exists tr1 c1 more sk, tr' = tr1 /\
      does (create_slots document cluster existing true slots c) tr1 (c1, Ok (more, sk)) /\
      (c', names, skipped) = (c1, sn_Name (buildNode document cluster set group worker slot) :: more, sk)) as
      (tr1 & c1 & more & sk & -> & Hd' & [= -> -> ->]).
    { destruct made as [?|[]]; try (by apply does_raise in Hd as (_ & _ & [=]));
        (apply does_act in Hd as [(? & [=] & _)|(tr1 & tr2 & c1 & [more sk] & -> & Hd & Hr)];
         apply does_ret in Hr as (-> & -> & [= -> ->]); rewrite app_nil_r; naive_solver). }
    apply IH in Hd' as (-> & -> & Hn & ->). rewrite El. split; [done|]. split; [done|].
    split; [|done]. simpl. by rewrite Hn.
Qed.

(** However far the loop gets, what it asked for is the beginning of that. *)
Lemma create_slots_prefix document cluster existing slots : forall c tr r,
  does (create_slots document cluster existing true slots c) tr r ->
  omap node_of tr `prefix_of`
    map (node_for document cluster) (filter (fun p => existing !! slot_key p = None) slots).
Proof.
  induction slots as [|[[[set group] worker] slot] slots IH]; intros c tr [c' r] Hd; cbn [create_slots] in Hd.
  { apply does_ret in Hd as (-> & _). done. }
  destruct (existing !! (worker, slot)) as [name|] eqn:El; simpl negb in Hd; cbv iota in Hd;
    rewrite filter_cons; change (slot_key (set, group, worker, slot)) with (worker, slot).
  - rewrite decide_False by (by rewrite El).
    apply does_act in Hd as [(e & _ & Hd)|(tr1 & tr2 & c1 & [more sk] & -> & Hd & Hr)]; [by eapply IH|].
    apply does_ret in Hr as (-> & _). rewrite app_nil_r. by eapply IH.
  - apply does_tell in Hd as (made & tr' & -> & Hd). rewrite decide_True by done. cbn [map omap list_omap].
    apply prefix_cons. destruct made as [?|[]];
      try (by apply does_raise in Hd as (-> & _); apply prefix_nil);
      (apply does_act in Hd as [(e & _ & Hd)|(tr1 & tr2 & c1 & [more sk] & -> & Hd & Hr)]; [by eapply IH|];
       apply does_ret in Hr as (-> & _); rewrite app_nil_r; by eapply IH).
Qed.

Lemma no_nodes_mapped document cluster : quiet creating_node (mapFailureDomains NotFoundText DefaultRetry document cluster).
Proof.
  unfold mapFailureDomains. destruct (failureDomainsOf document) as [|l ls]; [apply quiet_ret|].
  intros c. apply wp_bind. eapply wp_mono; [|apply quiet_retry].
  - by intros [c' [?|e]] [] _.
  - intros s. unfold map_once. split; [done|]. intros v _.
    destruct (rd_Cluster _ _ _) as [fresh| |e]; [|done..]. destruct (bool_decide _); [done|].
    split; [done|]. by intros [stored|e] _.
Qed.

Lemma planned_keys document cluster : NoDup (workers_of document) ->
  NoDup (map slot_key (planned document cluster)).
Proof.
  unfold planned, workers_of. induction (groups_of document) as [|[set group] sgs IH]; [constructor|].
  simpl. intros Hn. apply NoDup_app in Hn as (Hw & Hdis & Hrest). rewrite map_app.
  apply NoDup_app. split; [|split; [|by apply IH]].
  - clear -Hw. induction (ng_Workers group) as [|w ws IH]; [constructor|]. simpl.
    apply NoDup_cons in Hw as [Hw Hws]. rewrite map_app. apply NoDup_app. split; [|split; [|by apply IH]].
    + rewrite map_map. unfold slot_key. simpl. apply NoDup_fmap; [by intros ? ? [=]|].
      unfold slots_below. apply NoDup_fmap; [intros ? ?; lia|]. apply NoDup_seq.
    + intros k (p & -> & Hp)%map_elem (q & Hq & Hin)%map_elem.
      apply map_elem in Hp as (s & -> & _). apply flat_map_elem in Hin as (w' & (s' & -> & _)%map_elem & Hw').
      unfold slot_key in Hq. simpl in Hq. naive_solver.
  - intros k (p & -> & Hp)%map_elem (q & Hq & Hin)%map_elem.
    apply flat_map_elem in Hp as (w & (s & -> & _)%map_elem & Hp).
    apply flat_map_elem in Hin as ([set' group'] & Hin & Hsg).
    apply flat_map_elem in Hin as (w' & (s' & -> & _)%map_elem & Hw').
    unfold slot_key in Hq. simpl in Hq. injection Hq as -> ->. apply (Hdis w' Hp).
    apply flat_map_elem. by exists (set', group').
Qed.

Lemma maps_and_keeps document cluster c tr c' r :
  does (mapFailureDomains NotFoundText DefaultRetry document cluster c) tr (c', r) -> c' = c.
Proof.
  unfold mapFailureDomains. destruct (failureDomainsOf document) as [|l ls]; [by intros [_ [= -> ->]]|].
  intros (tr1 & tr2 & [cl r1] & -> & _ & Hd)%does_bind. destruct r1; by destruct Hd as [_ [= -> ->]].
Qed.

Lemma listNodes_does c tr c' r : does (listNodes c) tr (c', r) -> exists v,
  tr = [Ev Cache v] /\ c' = c /\ r = Ok (rd_StorageNodes (v_reader v) (cf_Namespace c)).
Proof.
  unfold getCluster, listNodes, cache. intros Hd. apply does_held, does_tell in Hd as (v & tr' & -> & Hd). exists v.
  by apply does_ret in Hd as (-> & -> & ->).
Qed.

(** The nodes wanting, of those filled. *)
Definition wanting (document : ClusterDeploymentConfig) (cluster : StorageCluster)
    (filled : gmap (string * Z) string) : list StorageNode :=
  map (node_for document cluster) (filter (fun p => filled !! slot_key p = None) (planned document cluster)).

Lemma wanting_once document cluster filled : NoDup (workers_of document) ->
  NoDup (map (fun n => (sn_WorkerNode n, slot_of n)) (wanting document cluster filled)).
Proof.
  intros Hw. unfold wanting. rewrite map_map. rewrite (map_ext _ slot_key) by (intros p; apply node_for_slot).
  pose proof (planned_keys document cluster Hw) as Hn. revert Hn. generalize (planned document cluster).
  intros l Hn. eapply sublist_NoDup; [exact Hn|]. apply (fmap_sublist slot_key), sublist_filter.
Qed.

Lemma wanting_free document cluster filled n : n ∈ wanting document cluster filled ->
  filled !! (sn_WorkerNode n, slot_of n) = None.
Proof.
  intros (p & -> & Hp)%map_elem. apply list_elem_of_filter in Hp as [Hp _].
  by destruct (node_for_slot document cluster p) as [_ ->].
Qed.

(** Where every slot that was filled or asked for is filled, nothing is wanting. *)
Lemma nothing_wanting document cluster filled filled' :
  (forall k, is_Some (filled !! k) -> is_Some (filled' !! k)) ->
  (forall n, n ∈ wanting document cluster filled -> is_Some (filled' !! (sn_WorkerNode n, slot_of n))) ->
  wanting document cluster filled' = [].
Proof.
  intros Hkept Hmade. unfold wanting at 1. rewrite filter_none; [done|]. intros p Hp E.
  destruct (filled !! slot_key p) as [name|] eqn:Ef.
  - destruct (Hkept (slot_key p)) as [? Hx]; [by eexists|]. by rewrite E in Hx.
  - destruct (Hmade (node_for document cluster p)) as [? Hx].
    { apply map_elem_1. by apply list_elem_of_filter. }
    destruct (node_for_slot document cluster p) as [_ Hk]. rewrite Hk, E in Hx. done.
Qed.

(** The cluster a pass over its slots reads: the one of the name, again where its failure
    domains are mapped, or as it is stored then. *)
Definition cluster_read (namespace target name : string) (tr : list (Programs.event call))
    (cluster : StorageCluster) : Prop :=
  exists v cl, Ev Cache v ∈ tr /\ rd_Cluster (v_reader v) namespace name = Found cl /\
    (cluster = cl \/
     (exists v', Ev Cache v' ∈ tr /\ rd_Cluster (v_reader v') target (sc_Name cl) = Found cluster) \/
     exists base new, Ev (PatchDomains target base new) (Ok cluster) ∈ tr).

Lemma mapped_cluster document cl c tr c' cluster :
  does (mapFailureDomains NotFoundText DefaultRetry document cl c) tr (c', Ok cluster) ->
  cluster = cl \/
  (exists v', Ev Cache v' ∈ tr /\ rd_Cluster (v_reader v') (cf_Namespace document) (sc_Name cl) = Found cluster) \/
  exists base new, Ev (PatchDomains (cf_Namespace document) base new) (Ok cluster) ∈ tr.
Proof.
  unfold mapFailureDomains. destruct (failureDomainsOf document) as [|label labels].
  { intros Hd%does_ret. destruct Hd as (_ & _ & [= ->]). by left. }
  intros (tr1 & tr2 & [cl' r] & -> & Hd & Hr)%does_bind.
  destruct r as [[]|e]; [|by destruct Hr as [_ [=]]]. destruct Hr as [-> [= _ ->]]. rename cl' into cluster. rewrite app_nil_r. right.
  remember (label :: labels) as ls. clear Heqls. revert cl tr1 Hd.
  assert (forall cl tr1 r, does (map_once NotFoundText ls (cf_Namespace document) cl) tr1 (cluster, r) ->
    r = Ok () ->
    (exists v', Ev Cache v' ∈ tr1 /\ rd_Cluster (v_reader v') (cf_Namespace document) (sc_Name cl) = Found cluster) \/
    exists base new, Ev (PatchDomains (cf_Namespace document) base new) (Ok cluster) ∈ tr1) as Honce.
  { intros cl tr1 r Hd ->. unfold map_once in Hd. destruct tr1 as [|e tr1]; [done|]. destruct Hd as (v & -> & Hd).
    destruct (rd_Cluster _ _ _) as [fresh| |e] eqn:Ec; [|by destruct Hd as [_ [=]]..].
    destruct (bool_decide _).
    - destruct Hd as [-> [= ->]]. left. exists v. split; [by left|done].
    - destruct tr1 as [|e tr1]; [done|]. destruct Hd as (x & -> & Hd).
      destruct x as [stored|e]; [|by destruct Hd as [_ [=]]]. destruct Hd as [-> [= ->]]. right. eexists _, _. right. by left. }
  generalize DefaultRetry. intros retries. induction retries as [|retries IH]; intros cl tr1 Hd;
    cbn [retry_on_conflict] in Hd; apply does_bind in Hd as (tr3 & tr4 & [cl1 r] & -> & H1 & H2).
  - destruct r as [[]|[]]; destruct H2 as [-> [= ->]]; rewrite app_nil_r; by eapply Honce.
  - destruct r as [[]|[t|t|t]]; try (destruct H2 as [-> [= ->]]; rewrite app_nil_r; by eapply Honce).
    assert (cl1 = cl) as ->.
    { unfold map_once in H1. destruct tr3 as [|e tr3]; [done|]. destruct H1 as (v & -> & H1).
      destruct (rd_Cluster _ _ _) as [fresh| |e] eqn:Ec; [|by destruct H1 as [_ [=]]..].
      destruct (bool_decide _); [by destruct H1 as [_ [=]]|].
      destruct tr3 as [|e tr3]; [done|]. destruct H1 as (x & -> & H1).
      destruct x as [stored|e]; by destruct H1 as [-> [= ->]]. }
    destruct (IH _ _ H2) as [(v' & Hv' & E)|(base & new & Hin)]; [left; exists v'|right; exists base, new];
      rewrite elem_of_app; auto.
Qed.

(** C8. A pass over the slots of a cluster, for a document with each worker in one group.  It
    asks for a node of each slot of the document that no listed node fills, and for no other, in
    the order of the document and each once; a pass that fails has asked for the first of them.
    One that succeeds returns a name for every slot: that of the node listed there, or the one it
    asked for, which counts as created where the server has something of that name.  And a
    later pass over the cluster whose listing shows all that was filled or asked for asks for
    nothing. *)
Theorem slots_are_filled_once document name c tr c' r (Hw : NoDup (workers_of document))
    (Hd : does (createNodesFor NotFoundText DefaultRetry document name true c) tr (c', r)) :
  omap node_of tr = [] /\ (exists e, r = Err e) \/
  exists v cluster all, Ev Cache v ∈ tr /\ rd_StorageNodes (v_reader v) (cf_Namespace c) = Ok all /\
    cluster_read (cf_Namespace c) (cf_Namespace document) name tr cluster /\
    let filled := filled_slots (sc_Name cluster) all in
    omap node_of tr `prefix_of` wanting document cluster filled /\
    NoDup (map (fun n => (sn_WorkerNode n, slot_of n)) (omap node_of tr)) /\
    (forall n, n ∈ omap node_of tr -> filled !! (sn_WorkerNode n, slot_of n) = None) /\
    forall names skipped, r = Ok (names, skipped) ->
      skipped = false /\ omap node_of tr = wanting document cluster filled /\
      names = map (fun p => default (sn_Name (node_for document cluster p)) (filled !! slot_key p))
        (planned document cluster) /\
      forall filled', (forall k, is_Some (filled !! k) -> is_Some (filled' !! k)) ->
        (forall n, n ∈ omap node_of tr -> is_Some (filled' !! (sn_WorkerNode n, slot_of n))) ->
        wanting document cluster filled' = [].
Proof.
  unfold createNodesFor in Hd.
  apply does_act in Hd as [(e & -> & H1)|(tr1 & tr2 & c1 & r1 & -> & H1 & Hd)].
  { left. split; [eapply no_nodes, H1; apply quiet_getCluster; apply _|by eexists]. }
  apply getCluster_does in H1 as (v1 & -> & -> & [= ->]).
  apply does_act in Hd as [(e & -> & H2)|(tr3 & tr4 & c2 & cl & -> & H2 & Hd)].
  { left. split; [cbn; eapply no_nodes, H2; apply quiet_must|by eexists]. }
  assert (tr3 = [] /\ c2 = c /\ rd_Cluster (v_reader v1) (cf_Namespace c) name = Found cl) as (-> & -> & Hcl).
  { unfold must in H2. destruct (rd_Cluster _ _ _); by destruct H2 as [-> [= -> ->]]. }
  apply does_act in Hd as [(e & -> & H3)|(tr5 & tr6 & c3 & cluster & -> & H3 & Hd)].
  { left. split; [cbn; eapply no_nodes, H3; apply no_nodes_mapped|by eexists]. }
  assert (omap node_of tr5 = []) as Hn5 by (eapply no_nodes, H3; apply no_nodes_mapped).
  pose proof (maps_and_keeps _ _ _ _ _ _ H3) as ->. apply mapped_cluster in H3.
  apply does_act in Hd as [(e & -> & H4)|(tr7 & tr8 & c4 & l & -> & H4 & Hd)].
  { left. split; [cbn; rewrite omap_app, Hn5; eapply no_nodes, H4; apply quiet_listNodes; apply _|by eexists]. }
  apply listNodes_does in H4 as (v & -> & -> & [= ->]).
  destruct (rd_StorageNodes _ _) as [all|e] eqn:El;
    [|apply does_raise in Hd as (-> & _ & ->); left; split; [by cbn; rewrite omap_app, Hn5|by eexists]].
  right. exists v, cluster, all.
  simpl app.
  assert (omap node_of (Ev Cache v1 :: tr5 ++ Ev Cache v :: tr8)%list = omap node_of tr8) as ->.
  { change (omap node_of (tr5 ++ Ev Cache v :: tr8)%list = omap node_of tr8). by rewrite omap_app, Hn5. }
  split; [right; rewrite elem_of_app; right; by left|]. split; [done|]. split.
  { exists v1, cl. split; [by left|]. split; [done|]. destruct H3 as [->|[(v' & Hv' & E)|(base & new & Hin)]].
    - by left.
    - right. left. exists v'. split; [right; rewrite elem_of_app; by left|done].
    - right. right. exists base, new. right. rewrite elem_of_app. by left. }
  pose proof (create_slots_prefix _ _ _ _ _ _ _ Hd) as Hpre. fold (wanting document cluster (filled_slots (sc_Name cluster) all)) in Hpre.
  cbv zeta. split; [done|]. destruct Hpre as [more Hpre].
  pose proof (wanting_once document cluster (filled_slots (sc_Name cluster) all) Hw) as Hn.
  split; [by rewrite Hpre, map_app in Hn; apply NoDup_app in Hn as []|].
  split; [intros n Hin; apply (wanting_free document cluster); rewrite Hpre; apply elem_of_app; by left|].
  intros names skipped ->. apply create_slots_does in Hd as (_ & -> & Hmade & ->).
  split; [done|]. split; [done|]. split; [done|]. intros filled' Hkept Hasked.
  eapply nothing_wanting; [exact Hkept|]. unfold wanting. by rewrite <- Hmade.
Qed.

(** *** The members of a supercluster, in turn *)

Lemma closed_slots document cluster existing slots :
  quiet creating_node (create_slots document cluster existing false slots).
Proof.
  induction slots as [|[[[set group] worker] slot] slots IH]; cbn [create_slots]; [apply quiet_ret|].
  destruct (existing !! (worker, slot)); simpl negb; cbv iota;
    (apply quiet_bind; [exact IH|]); intros [names skipped]; apply quiet_ret.
Qed.

Lemma closed_nodes document name : quiet creating_node (createNodesFor NotFoundText DefaultRetry document name false).
Proof.
  unfold createNodesFor. apply quiet_bind; [apply quiet_getCluster; apply _|intros r].
  apply quiet_bind; [apply quiet_must|intros cl]. apply quiet_bind; [apply no_nodes_mapped|intros cluster].
  apply quiet_bind; [apply quiet_listNodes; apply _|intros [all|e]]; [apply closed_slots|apply quiet_raise].
Qed.

Lemma quiet_waits names : quiet creating_node (firstNodeNotOnline names).
Proof.
  induction names as [|name names IH]; cbn [firstNodeNotOnline]; [apply quiet_ret|].
  apply quiet_bind; [apply quiet_getNode; apply _|intros r]. destruct r as [n| |e]; quiet.
Qed.

Lemma closed_targets targets : quiet creating_node (create_targets NotFoundText DefaultRetry targets false).
Proof.
  induction targets as [|t targets IH]; cbn [create_targets]; [apply quiet_ret|].
  apply quiet_bind; [apply closed_nodes|intros [names skipped]]. simpl negb. cbv iota.
  apply quiet_ret_bind. apply quiet_bind; [exact IH|]. intros [more is_held]. apply quiet_ret.
Qed.

(** What reads of a run show of a node: it was there, and online. *)
Definition online (namespace : string) (tr : list (Programs.event call)) (name : string) : Prop :=
  exists v n, Ev Cache v ∈ tr /\ v_Node v namespace name = Found n /\ sn_Phase n = StorageNodePhaseOnline.

Lemma getNode_does name c tr c' r : does (getNode name c) tr (c', r) -> exists v,
  tr = [Ev Cache v] /\ c' = c /\ r = Ok (v_Node v (cf_Namespace c) name).
Proof.
  unfold getNode, cache. intros Hd. apply does_held, does_tell in Hd as (v & tr' & -> & Hd). exists v.
  by apply does_ret in Hd as (-> & -> & ->).
Qed.

Lemma waits_online names : forall c tr c' waiting,
  does (firstNodeNotOnline names c) tr (c', Ok waiting) ->
  c' = c /\ (waiting = "" -> "" ∉ names -> forall name, name ∈ names -> online (cf_Namespace c) tr name).
Proof.
  induction names as [|name names IH]; intros c tr c' waiting Hd; cbn [firstNodeNotOnline] in Hd.
  { apply does_ret in Hd as (_ & -> & _). split; [done|]. by intros _ _ ? ?%not_elem_of_nil. }
  apply does_act in Hd as [(? & [=] & _)|(tr1 & tr2 & c1 & r & -> & H1 & Hd)].
  apply getNode_does in H1 as (v & -> & -> & [= ->]).
  assert (forall w, does ((ret w : act string) c) tr2 (c', Ok waiting) -> w = name ->
    c' = c /\ (waiting = "" -> "" ∉ name :: names -> forall name', name' ∈ name :: names ->
      online (cf_Namespace c) ([Ev Cache v] ++ tr2) name')) as Hstop.
  { intros w Hr ->. apply does_ret in Hr as (_ & -> & [= ->]). split; [done|]. intros ->. set_solver. }
  destruct (v_Node v (cf_Namespace c) name) as [n| |e] eqn:En;
    [|by eapply Hstop|by apply does_raise in Hd as (_ & _ & [=])].
  destruct (String.eqb_spec (sn_Phase n) StorageNodePhaseOnline) as [Ho|Ho]; [|by eapply Hstop].
  apply IH in Hd as [-> Hall]. split; [done|]. intros Hw Hne name' [->|Hin]%elem_of_cons.
  - exists v, n. split; [by left|]. done.
  - assert ("" ∉ names) as Hne' by (intros Hx; apply Hne; by right).
    destruct (Hall Hw Hne' name' Hin) as (v' & n' & Hv' & Hn'). exists v', n'. split; [by right|done].
Qed.

(** The members are built in turn: the nodes of one that is not the last are all online,
    as read, before a node of a later one is created. *)
Fixpoint in_turn (namespace : string) (targets : list expansionTarget) (tr : list (Programs.event call)) : Prop :=
  match targets with
  | [] => omap node_of tr = []
  | t :: rest =>
      exists tr1 tr2 tr3, tr = (tr1 ++ tr2 ++ tr3)%list /\
        (exists c r, does (createNodesFor NotFoundText DefaultRetry (ta_document t) (ta_cluster t) true c) tr1 r) /\
        omap node_of tr2 = [] /\
        (omap node_of tr3 = [] \/ in_turn namespace rest tr3) /\
        (omap node_of tr3 <> [] -> exists c c' names skipped,
           does (createNodesFor NotFoundText DefaultRetry (ta_document t) (ta_cluster t) true c) tr1
             (c', Ok (names, skipped)) /\
           ("" ∉ names -> forall name, name ∈ names -> online namespace tr2 name))
  end.

Lemma keeps_getCluster name : keeps (getCluster name).
Proof. unfold getCluster, cache. keeps. Qed.
Lemma keeps_listNodes : keeps listNodes.
Proof. unfold listNodes, cache. keeps. Qed.
Lemma keeps_slots document cluster existing create slots : keeps (create_slots document cluster existing create slots).
Proof.
  induction slots as [|[[[set group] worker] slot] slots IH]; cbn [create_slots]; keeps.
Qed.

Lemma keeps_nodes document name create : keeps (createNodesFor NotFoundText DefaultRetry document name create).
Proof.
  unfold createNodesFor, must. apply same_bind; [apply keeps_getCluster|intros r].
  apply same_bind; [keeps|intros cl]. apply same_bind; [intros c tr c' r'; apply maps_and_keeps|intros cluster].
  apply same_bind; [apply keeps_listNodes|intros [all|e]]; [apply keeps_slots|apply same_raise].
Qed.

(** What the loop over the members does between one and the next. *)
Definition between (names : list string) (t : expansionTarget) (targets : list expansionTarget) : act bool :=
  if false || DiscoveryGroups.nothing targets then ret true
  else
    waiting ← firstNodeNotOnline names;
    if String.eqb waiting "" then ret true
    else
      _ ← event false "AwaitingNodes" ("StorageNode " ++ waiting ++ " of member " ++
            ta_cluster t ++ " is not Online yet, so the next member's nodes are not created");
      ret false.

Lemma quiet_still names t targets : quiet creating_node (between names t targets).
Proof.
  unfold between. destruct (false || _); [apply quiet_ret|].
  apply quiet_bind; [apply quiet_waits|intros w]. destruct (String.eqb w ""); [apply quiet_ret|].
  apply quiet_bind; [apply quiet_event; apply _|intros ?]. apply quiet_ret.
Qed.

Lemma still_open names t targets c tr c' still : does (between names t targets c) tr (c', Ok still) ->
  c' = c /\ (still = true -> targets <> [] -> "" ∉ names -> forall name, name ∈ names ->
    online (cf_Namespace c) tr name).
Proof.
  unfold between. destruct targets as [|t' targets]; simpl.
  { intros Hd%does_ret. destruct Hd as (_ & -> & _). split; [done|]. by intros _ []. }
  intros Hd. apply does_act in Hd as [(? & [=] & _)|(tr1 & tr2 & c1 & w & -> & H1 & Hd)].
  apply waits_online in H1 as [-> Hall]. destruct (String.eqb_spec w "") as [Hw|Hw].
  - apply does_ret in Hd as (-> & -> & _). rewrite app_nil_r. split; [done|]. auto.
  - apply does_tell in Hd as (x & tr3 & -> & Hd). apply does_ret in Hd as (_ & -> & [= ->]). done.
Qed.

(** C18. The members of a supercluster are built in turn: in one pass over them, a node of a
    member is asked for only once the pass has read online every node of each member before it,
    found or asked for (none of which goes by an empty name).  It says nothing of two passes, of two documents, or of
    a node that is gone and made again later. *)
Theorem members_are_built_in_turn targets : forall c tr r,
  does (create_targets NotFoundText DefaultRetry targets true c) tr r ->
  in_turn (cf_Namespace c) targets tr.
Proof.
  induction targets as [|t targets IH]; intros c tr [c' r] Hd; cbn [create_targets] in Hd.
  { by apply does_ret in Hd as (-> & _). }
  apply does_act in Hd as [(e & -> & H1)|(tr1 & tr2 & c1 & [names skipped] & -> & H1 & Hd)].
  { exists tr, [], []. rewrite app_nil_r. split; [done|]. split; [by exists c, (c', Err e)|].
    split; [done|]. split; [by left|done]. }
  pose proof (keeps_nodes _ _ _ _ _ _ _ H1) as ->. simpl negb in Hd. cbv iota in Hd.
  exists tr1. apply does_act in Hd as [(e & -> & H2)|(tr3 & tr4 & c2 & still & -> & H2 & Hd)].
  { exists tr2, []. rewrite app_nil_r. split; [done|]. split; [by eexists c, _|].
    split; [eapply no_nodes, H2; apply quiet_still|]. split; [by left|done]. }
  exists tr3, tr4. split; [done|]. split; [by eexists c, _|].
  split; [eapply no_nodes, H2; apply quiet_still|].
  pose proof (still_open names t targets c tr3 c2 still H2) as (-> & Hopen).
  assert (exists r', does (create_targets NotFoundText DefaultRetry targets still c) tr4 r') as [r' Hrest].
  { apply does_act in Hd as [(e & _ & Hd)|(tr5 & tr6 & c3 & [more hold_] & -> & Hd & Hr)]; [by eexists|].
    apply does_ret in Hr as [-> _]. rewrite app_nil_r. by eexists. }
  destruct still.
  - split; [right; by eapply IH|]. intros Hne. exists c, c, names, skipped. split; [done|].
    destruct targets as [|t' targets]; [|by apply Hopen]. destruct r' as [? ?].
    apply does_ret in Hrest as [-> _]. by destruct Hne.
  - assert (omap node_of tr4 = []) as Hn4 by (eapply no_nodes, Hrest; apply closed_targets).
    split; [by left|]. intros Hne. by destruct Hne.
Qed.

(** *** Activation *)

(** What reads of a run show of a node the document built: that it is gone, another
    cluster's, or online. *)
Definition settled (namespace cluster : string) (tr : list (Programs.event call)) (name : string) : Prop :=
  exists v, Ev Cache v ∈ tr /\
    match v_Node v namespace name with
    | NotFound => True
    | Found n => sn_ClusterRef n <> cluster \/ sn_Phase n = StorageNodePhaseOnline
    | ReadError _ => False
    end.

(** What they show of the other site of a stretched cluster: that it is a leader's, with the
    nodes and the hosts it is activated with. *)
Definition peer_is_ready (namespace cluster : string) (tr : list (Programs.event call)) : Prop :=
  exists v, Ev Cache v ∈ tr /\
    match rd_Cluster (v_reader v) namespace cluster with
    | NotFound => True
    | ReadError _ => False
    | Found cl =>
        match sp_Stretched (sc_Spec cl) with
        | None => True
        | Some _ =>
            IsStretchedFollower cl = false /\
            exists v' all, Ev Cache v' ∈ tr /\ rd_StorageNodes (v_reader v') namespace = Ok all /\
              (stripeWidth cl <= Z.of_nat (length (peer_nodes (sc_Name cl) all)))%Z /\
              (syncMinHostsPerSite <= Z.of_nat (size (peer_hosts (peer_nodes (sc_Name cl) all))))%Z
        end
    end.

Lemma settled_app ns cluster tr1 tr2 name :
  settled ns cluster tr1 name \/ settled ns cluster tr2 name -> settled ns cluster (tr1 ++ tr2) name.
Proof. intros [(v & Hv & Hn)|(v & Hv & Hn)]; exists v; (split; [apply elem_of_app|done]); auto. Qed.

Lemma peer_mono ns cluster tr tr' : tr ⊆ tr' -> peer_is_ready ns cluster tr -> peer_is_ready ns cluster tr'.
Proof.
  intros Hsub (v & Hv & Hp). exists v. split; [by apply Hsub|]. revert Hp.
  destruct (rd_Cluster _ _ _) as [cl| |e]; [|done..]. destruct (sp_Stretched _); [|done].
  intros (Hf & v' & all & Hv' & Hrest). split; [done|]. exists v', all. split; [by apply Hsub|done].
Qed.

Lemma first_waiting_settled cluster names : forall c tr c',
  does (first_waiting (fun n => String.eqb (sn_ClusterRef n) cluster) names c) tr (c', Ok None) ->
  c' = c /\ forall name, name ∈ names -> settled (cf_Namespace c) cluster tr name.
Proof.
  induction names as [|name names IH]; intros c tr c' Hd; cbn [first_waiting] in Hd.
  { apply does_ret in Hd as (_ & -> & _). split; [done|]. by intros ? ?%not_elem_of_nil. }
  apply does_act in Hd as [(? & [=] & _)|(tr1 & tr2 & c1 & r & -> & H1 & Hd)].
  apply getNode_does in H1 as (v & -> & -> & [= ->]).
  assert (does (first_waiting (fun n => String.eqb (sn_ClusterRef n) cluster) names c) tr2 (c', Ok None) /\
    settled (cf_Namespace c) cluster [Ev Cache v] name) as [Hd' Hs].
  { unfold settled. destruct (v_Node v (cf_Namespace c) name) as [n| |e] eqn:En.
    - destruct (String.eqb_spec (sn_ClusterRef n) cluster) as [Hc|Hc]; simpl in Hd.
      + destruct (String.eqb_spec (sn_Phase n) StorageNodePhaseOnline) as [Ho|Ho].
        * split; [done|]. exists v. split; [by left|]. rewrite En. by right.
        * by apply does_ret in Hd as (_ & _ & [=]).
      + split; [done|]. exists v. split; [by left|]. rewrite En. by left.
    - split; [done|]. exists v. split; [by left|]. by rewrite En.
    - by apply does_raise in Hd as (_ & _ & [=]). }
  apply IH in Hd' as [-> Hall]. split; [done|]. intros name' [->|Hin]%elem_of_cons.
  - apply (settled_app _ _ [Ev Cache v]). by left.
  - apply (settled_app _ _ [Ev Cache v]). right. by apply Hall.
Qed.

Lemma stretched_ready name c tr c' done : does (stretchedActivation name c) tr (c', Ok (false, done)) ->
  c' = c /\ peer_is_ready (cf_Namespace c) name tr.
Proof.
  unfold stretchedActivation. intros Hd.
  apply does_act in Hd as [(? & [=] & _)|(tr1 & tr2 & c1 & r & -> & H1 & Hd)].
  apply getCluster_does in H1 as (v & -> & -> & [= ->]). unfold peer_is_ready.
  destruct (rd_Cluster (v_reader v) (cf_Namespace c) name) as [cl| |e] eqn:Ec.
  - destruct (sp_Stretched (sc_Spec cl)) as [s|] eqn:Es.
    + destruct (IsStretchedFollower cl) eqn:Ef.
      { apply does_tell in Hd as (x & tr' & -> & Hd). by apply does_ret in Hd as (_ & _ & [=]). }
      apply does_act in Hd as [(? & [=] & _)|(tr3 & tr4 & c2 & l & -> & H2 & Hd)].
      apply listNodes_does in H2 as (v' & -> & -> & [= ->]).
      destruct (rd_StorageNodes (v_reader v') (cf_Namespace c)) as [all|e] eqn:El;
        [|by apply does_raise in Hd as (_ & _ & [=])].
      destruct (_ || _)%bool eqn:Eb.
      { apply does_tell in Hd as (x & tr' & -> & Hd). by apply does_ret in Hd as (_ & _ & [=]). }
      apply orb_false_iff in Eb as [E1%Z.ltb_ge E2%Z.ltb_ge].
      apply does_ret in Hd as (-> & -> & _). split; [done|]. exists v. split; [by left|]. rewrite Ec, Es.
      split; [done|]. exists v', all. split; [right; by left|]. done.
    + apply does_ret in Hd as (-> & -> & _). split; [done|]. exists v. split; [by left|]. by rewrite Ec, Es.
  - apply does_ret in Hd as (-> & -> & _). split; [done|]. exists v. split; [by left|]. by rewrite Ec.
  - by apply does_raise in Hd as (_ & _ & [=]).
Qed.

Definition raising_ops X (c : call X) : bool := match c with CreateOps _ _ => true | _ => false end.
#[local] Instance raising_ops_kind : Kind raising_ops.
Proof. by split. Qed.

Lemma quiet_first_waiting mine names : quiet raising_ops (first_waiting mine names).
Proof.
  induction names as [|name names IH]; cbn [first_waiting]; [apply quiet_ret|].
  apply quiet_bind; [apply quiet_getNode; apply _|intros r]. destruct r as [n| |e]; quiet.
Qed.

Lemma quiet_stretched name : quiet raising_ops (stretchedActivation name).
Proof. unfold stretchedActivation. quiet. Qed.

(** C19. A cluster is asked to activate once every node the document built for it was read
    online, or gone, and, of a stretched cluster, by its leader once the other site has the
    nodes and hosts the backend needs; and what is raised is that cluster's activation. *)
Theorem activation_waits_for_its_nodes cluster c tr r
    (Hd : does (activateTarget cluster c) tr r) namespace ops x
    (Hin : Ev (CreateOps namespace ops) x ∈ tr) :
  (forall name, name ∈ cs_NodeRefs (cf_Status c) -> settled (cf_Namespace c) cluster tr name) /\
  peer_is_ready (cf_Namespace c) cluster tr /\
  ops = mkClusterOps (cluster ++ "-activate") (cf_Name c) cluster ActionActivate.
Proof.
  assert (is_bad raising_ops (Ev (CreateOps namespace ops) x) = true) as Hbad by done.
  destruct r as [c' r]. unfold activateTarget in Hd. apply does_held in Hd.
  apply does_act in Hd as [(e & -> & H1)|(tr1 & tr2 & c1 & waiting & -> & H1 & Hd)].
  { rewrite (quiet_run raising_ops _ _ _ _ _ (quiet_first_waiting _ _) H1 Hin) in Hbad. done. }
  apply elem_of_app in Hin as [Hin|Hin].
  { rewrite (quiet_run raising_ops _ _ _ _ _ (quiet_first_waiting _ _) H1 Hin) in Hbad. done. }
  destruct waiting as [[name phase]|].
  { apply does_tell in Hd as (? & tr' & -> & Hd). apply does_ret in Hd as (-> & _).
    by apply list_elem_of_singleton in Hin. }
  apply first_waiting_settled in H1 as [-> Hnodes].
  apply does_act in Hd as [(e & -> & H2)|(tr3 & tr4 & c2 & [is_held fin] & -> & H2 & Hd)].
  { rewrite (quiet_run raising_ops _ _ _ _ _ (quiet_stretched _) H2 Hin) in Hbad. done. }
  apply elem_of_app in Hin as [Hin|Hin].
  { rewrite (quiet_run raising_ops _ _ _ _ _ (quiet_stretched _) H2 Hin) in Hbad. done. }
  destruct is_held; [apply does_ret in Hd as (-> & _); by apply not_elem_of_nil in Hin|].
  apply stretched_ready in H2 as [-> Hpeer]. split; [|split].
  - intros name Hname. apply settled_app. left. by apply Hnodes.
  - eapply peer_mono; [|exact Hpeer]. intros e He. rewrite !elem_of_app. auto.
  - apply does_tell in Hd as (made & tr5 & -> & Hd). apply elem_of_cons in Hin as [He|Hin]; [by simplify_eq|].
    destruct made as [?|[]]; [|by apply does_ret in Hd as (-> & _); apply not_elem_of_nil in Hin
      |by apply does_raise in Hd as (-> & _); apply not_elem_of_nil in Hin..].
    apply does_tell in Hd as (? & tr6 & -> & Hd). apply does_ret in Hd as (-> & _).
    by apply list_elem_of_singleton in Hin.
Qed.

(** *** The members on record *)

Section Recorded.

Context (namespace name : string).

#[local] Set Default Proof Using "Type".

(** What a call's answer shows of the members a document has on record: a read of it, and
    a write of its status as it was stored. *)
Definition members_shown X (c : call X) : X -> list ExpansionMember :=
  match c with
  | Cache => fun v => match v_Config v namespace name with
                      | Found d => cs_Members (cf_Status d)
                      | _ => []
                      end
  | PatchStatus _ _ => fun r => match r with Ok d => cs_Members (cf_Status d) | Err _ => [] end
  | _ => fun _ => []
  end.

(** An apiserver keeps the members it is given, or one whose schema predates them none. *)
Definition kept_or_dropped X (c : call X) : X -> Prop :=
  match c with
  | PatchStatus _ new => fun r => match r with
      | Ok d => cs_Members (cf_Status d) = cs_Members (cf_Status new) \/ cs_Members (cf_Status d) = []
      | Err _ => True
      end
  | _ => fun _ => True
  end.

(** A member is created under a name that is on record. *)
Definition on_record X (c : call X) (record : list ExpansionMember) : Prop :=
  match c with
  | CreateCluster _ m =>
      sp_SuperclusterRef (sc_Spec m) <> "" -> exists e, e ∈ record /\ em_Cluster e = sc_Name m
  | _ => True
  end.

#[local] Instance recording : Rule call (list ExpansionMember) :=
  watched on_record (fun X c x s => (members_shown X c x ++ s)%list) kept_or_dropped.

Definition mine (c : ClusterDeploymentConfig) : Prop := cf_Namespace c = namespace /\ cf_Name c = name.
Definition held_on_record (c : ClusterDeploymentConfig) (record : list ExpansionMember) : Prop :=
  mine c /\ cs_Members (cf_Status c) ⊆ record.

(** The parts that create no member, and leave the document alone or write its status. *)
Definition careful {A} (m : act A) : Prop := forall c record, held_on_record c record ->
  wp (m c) (fun '(c', r) record' => held_on_record c' record' /\ record ⊆ record') record.

Lemma careful_ret {A} (a : A) : careful (ret a).
Proof. by intros c record Hc. Qed.
Lemma careful_raise {A} e : careful (raise e : act A).
Proof. by intros c record Hc. Qed.

Lemma careful_bind {A B} (m : act A) (k : A -> act B) :
  careful m -> (forall a, careful (k a)) -> careful (m ≫= k).
Proof.
  intros Hm Hk c record Hc. apply wp_act. generalize (Hm c record Hc). apply wp_mono.
  intros [c' [a|e]] record' [Hc' Hsub]; [|done]. generalize (Hk a c' record' Hc'). apply wp_mono.
  intros [c'' r] record'' [Hc'' Hsub']. split; [done|]. by transitivity record'.
Qed.

Lemma careful_held {A} (k : ClusterDeploymentConfig -> act A) : (forall c, careful (k c)) -> careful (held ≫= k).
Proof. intros Hk c record Hc. by apply Hk. Qed.

Lemma held_more c record more : held_on_record c record -> held_on_record c (more ++ record)%list.
Proof. intros [Hm Hs]. split; [done|]. intros e He. apply elem_of_app. right. by apply Hs. Qed.

Lemma careful_tell {A} (c : call A) : (forall record, on_record A c record) -> careful (tell c).
Proof.
  intros Hr d record Hd. split; [apply Hr|]. intros x _. split; [by apply held_more|].
  intros e He. apply elem_of_app. by right.
Qed.

(** A write of the status leaves the document with members on record: those the write makes
    of some status, or none. *)
Definition written (mutate : ClusterDeploymentConfigStatus -> ClusterDeploymentConfigStatus)
    (c : ClusterDeploymentConfig) : Prop :=
  cs_Members (cf_Status c) = [] \/ exists st, cs_Members (cf_Status c) = cs_Members (mutate st).

Lemma equal_members a b : equalConfigStatus a b = true -> cs_Members a = cs_Members b.
Proof.
  unfold equalConfigStatus. rewrite !andb_true_iff. intros H.
  repeat match goal with H : _ /\ _ |- _ => destruct H end.
  by match goal with H : bool_decide (cs_Members a = cs_Members b) = true |- _ => apply bool_decide_eq_true in H end.
Qed.

Lemma write_once_record mutate c record : mine c ->
  (held_on_record c record ->
   wp (write_once NotFoundText mutate c)
     (fun '(c', r) record' => held_on_record c' record' /\ record ⊆ record' /\ (r = Ok () -> written mutate c')) record).
Proof.
  intros [Hns Hname] Hc. unfold write_once. split; [done|]. intros v _. simpl members_shown. rewrite Hns, Hname.
  destruct (v_Config v namespace name) as [fresh| |e] eqn:Ev; [|by split..].
  set (desired := cs_with_Generation _ _). destruct (equalConfigStatus (cf_Status fresh) desired) eqn:Eq.
  - apply equal_members in Eq. split; [split; [by split|]|split].
    + change (cs_Members desired ⊆ (cs_Members (cf_Status fresh) ++ record)%list). rewrite <- Eq. by apply list_subseteq_app_l.
    + by apply list_subseteq_app_r.
    + intros _. right. exists (cf_Status fresh). reflexivity.
  - split; [done|]. intros [stored|e] Hkept; simpl members_shown.
    + split; [split; [by split|]|split]; [by apply list_subseteq_app_l|by apply list_subseteq_app_r, list_subseteq_app_r|]. intros _.
      destruct Hkept as [Hk|Hk]; [right|left; done]. exists (cf_Status fresh). simpl. rewrite Hk. done.
    + split; [split; [by split|by apply list_subseteq_app_r, list_subseteq_app_r, Hc]|split; [by apply list_subseteq_app_r, list_subseteq_app_r|by intros [=]]].
Qed.

Lemma retry_record mutate retries : forall c record, held_on_record c record ->
  wp (retry_on_conflict retries (write_once NotFoundText mutate) c)
    (fun '(c', r) record' => held_on_record c' record' /\ record ⊆ record' /\ (r = Ok () -> written mutate c')) record.
Proof.
  induction retries as [|retries IH]; intros c record Hc; cbn [retry_on_conflict]; apply wp_bind;
    generalize (write_once_record mutate c record (proj1 Hc) Hc); apply wp_mono;
    intros [c' [[]|[t|t|t]]] record' (Hc' & Hsub & Hw); try done.
  generalize (IH c' record' Hc'). apply wp_mono. intros [c'' r] record'' (? & ? & ?). split; [done|].
  split; [by transitivity record'|done].
Qed.

Lemma write_record mutate c record : held_on_record c record ->
  wp (writeStatus' mutate c)
    (fun '(c', r) record' => held_on_record c' record' /\ record ⊆ record' /\ (r = Ok () -> written mutate c')) record.
Proof.
  intros Hc. unfold writeStatus. apply wp_bind. generalize (retry_record mutate DefaultRetry c record Hc).
  apply wp_mono. intros [c' [[]|e]] record' (? & ? & Hw); (split; [done|split; [done|]]); [auto|by intros [=]].
Qed.

(** Everything shown so far, apart from what was there at the start. *)
Lemma learned_shown tr : forall record e,
  e ∈ learned (fun X c x s => (members_shown X c x ++ s)%list) tr record ->
  e ∈ record \/ exists X (c : call X) x, Ev c x ∈ tr /\ e ∈ members_shown X c x.
Proof.
  induction tr as [|[X c x] tr IH]; intros record e He; [by left|]. simpl in He.
  destruct (IH _ _ He) as [[Hs|Hr]%elem_of_app|(Y & d & y & Hin & Hs)]; [|by left|].
  - right. exists X, c, x. split; [by left|done].
  - right. exists Y, d, y. split; [by right|done].
Qed.

Lemma careful_write mutate : careful (writeStatus' mutate).
Proof. intros c record Hc. generalize (write_record mutate c record Hc). apply wp_mono. by intros [c' r] record' (? & ? & _). Qed.

Lemma careful_getCluster cluster : careful (getCluster cluster).
Proof.
  unfold getCluster. apply careful_held. intros c. apply careful_bind; [by apply careful_tell|].
  intros v. apply careful_ret.
Qed.

Lemma careful_event warning why m : careful (event warning why m).
Proof. by apply careful_tell. Qed.

Lemma careful_if {A} (b : bool) (m1 m2 : act A) : careful m1 -> careful m2 -> careful (if b then m1 else m2).
Proof. by destruct b. Qed.

Lemma careful_ensure cluster : careful (ensureSupercluster cluster).
Proof.
  unfold ensureSupercluster. apply careful_held. intros c. apply careful_bind; [apply careful_getCluster|].
  intros [cl| |e]; [apply careful_if; [apply careful_ret|apply careful_raise]| |apply careful_raise].
  apply careful_bind; [by apply careful_tell; intros record Hne|].
  intros [[]|[t|t|t]]; apply careful_event || apply careful_raise.
Qed.

Lemma careful_draw fuel supercluster set suffixes : careful (draw_name fuel supercluster set suffixes).
Proof.
  induction fuel as [|fuel IH]; cbn [draw_name]; [apply careful_raise|].
  apply careful_bind; [by apply careful_tell|]. intros [suffix|e]; [|apply careful_raise].
  apply careful_bind; [|intros taken; apply careful_if; [apply IH|apply careful_ret]].
  apply careful_bind; [apply careful_getCluster|].
  intros [cl| |e]; [apply careful_ret..|apply careful_raise].
Qed.

Lemma careful_draws supercluster recorded sets : forall suffixes,
  careful (draw_members draws supercluster recorded suffixes sets).
Proof.
  induction sets as [|set sets IH]; intros suffixes; cbn [draw_members]; [apply careful_ret|].
  apply careful_if; [apply IH|]. apply careful_bind; [apply careful_draw|]. intros [candidate suffix].
  apply careful_bind; [apply IH|]. intros rest. apply careful_ret.
Qed.

Lemma careful_wp {A} (m : act A) c record (Q : _ -> _ -> Prop) : careful m -> held_on_record c record ->
  (forall c' r record', held_on_record c' record' -> record ⊆ record' -> Q (c', r) record') -> wp (m c) Q record.
Proof.
  intros Hm Hc HQ. generalize (Hm c record Hc). apply wp_mono. intros [c' r] record' [? ?]. by apply HQ.
Qed.

(** The members that are created are those of the record the document holds. *)
Lemma recordMembers_record c record : held_on_record c record ->
  wp (recordMembers NotFoundText DefaultRetry draws c)
    (fun '(c', r) record' => held_on_record c' record' /\ forall members, r = Ok members -> members ⊆ record')
    record.
Proof.
  intros Hc. unfold recordMembers. apply wp_held, wp_act. split; [done|]. intros v _.
  apply (held_more _ _ (members_shown _ Cache v)) in Hc. revert Hc.
  generalize (members_shown _ Cache v ++ record)%list. clear record. intros record Hc.
  cbn [wp]. destruct (v_Clusters v (cf_Namespace c)) as [clusters|e]; [|by split].
  destruct (recorded_suffixes (cs_Members (cf_Status c))) as [suffixes|]; [|by split].
  apply wp_act. eapply careful_wp; [apply careful_draws|done|].
  intros c1 [drawn|e] record1 Hc1 Hsub; [|by split].
  destruct drawn as [|d drawn].
  { split; [done|]. intros members [= <-]. transitivity record; [apply Hc|done]. }
  apply wp_act. eapply wp_mono; [|apply write_record, Hc1].
  intros [c2 [[]|e]] record2 (Hc2 & _ & Hw); [|by split].
  apply wp_held. destruct (Nat.eqb_spec (length (cs_Members (cf_Status c2)))
    (length (cs_Members (cf_Status c) ++ d :: drawn))) as [El|]; [|by split].
  split; [done|]. intros members [= <-]. destruct (Hw eq_refl) as [Hn|[st Hst]].
  - rewrite Hn, length_app in El. simpl in El. lia.
  - transitivity (cs_Members (cf_Status c2)); [by rewrite Hst|apply Hc2].
Qed.

Lemma create_members_record cluster pairs : forall c record, held_on_record c record ->
  (forall entry set, (entry, set) ∈ pairs -> entry ∈ record) ->
  wp (create_members cluster pairs c) (fun _ _ => True) record.
Proof.
  induction pairs as [|[entry set] pairs IH]; intros c record Hc Hp; cbn [create_members]; [done|].
  assert (entry ∈ record) as He by (apply (Hp entry set); by left).
  assert (forall entry set, (entry, set) ∈ pairs -> entry ∈ record) as Hp' by (intros e' s' ?; apply (Hp e' s'); by right).
  apply wp_held, wp_act. unfold lift, buildCluster. destruct (template _) as [t|]; [|done].
  apply wp_act. split; [intros _; by exists entry|]. intros made _.
  destruct made as [[]|[t'|t'|t']]; [|by apply IH|done..].
  apply wp_act. split; [done|]. intros ? _. by apply IH.
Qed.

(** *** A record that is read as it stands *)

(** Every read and every write of the document shows the members it was known with. *)
Definition shows_members (members : list ExpansionMember) X (c : call X) : X -> Prop :=
  match c with
  | Cache => fun v => match v_Config v namespace name with
                      | Found d => cs_Members (cf_Status d) = members
                      | _ => True
                      end
  | PatchStatus _ new => fun r => match r with
      | Ok d => cs_Members (cf_Status d) = cs_Members (cf_Status new)
      | Err _ => True
      end
  | _ => fun _ => True
  end.

Definition drawing X (c : call X) : bool := match c with DrawSuffix => true | _ => false end.

Section Known.

Context (members : list ExpansionMember) (sets : list NodeSet).
Hypothesis (known : forall set, set ∈ sets -> ns_Name set ∈ map em_NodeSet members).

#[local] Instance drawing_none : Rule call unit :=
  watched (fun X c _ => drawing X c = false) (fun _ _ _ s => s) (shows_members members).

Definition knows (c : ClusterDeploymentConfig) : Prop :=
  mine c /\ cs_Members (cf_Status c) = members /\ nodeSets c = sets.

Definition steady {A} (m : act A) : Prop :=
  forall c, knows c -> wp (m c) (fun '(c', _) _ => knows c') tt.

Lemma steady_ret {A} (a : A) : steady (ret a).
Proof. by intros c Hc. Qed.
Lemma steady_raise {A} e : steady (raise e : act A).
Proof. by intros c Hc. Qed.
Lemma steady_bind {A B} (m : act A) (k : A -> act B) : steady m -> (forall a, steady (k a)) -> steady (m ≫= k).
Proof.
  intros Hm Hk c Hc. apply wp_act. generalize (Hm c Hc). apply wp_mono. intros [c' [a|e]] [] Hc'; [by apply Hk|done].
Qed.
Lemma steady_held {A} (k : ClusterDeploymentConfig -> act A) : (forall c, knows c -> steady (k c)) -> steady (held ≫= k).
Proof. intros Hk c Hc. by apply Hk. Qed.
Lemma steady_tell {A} (c : call A) : drawing A c = false -> steady (tell c).
Proof. intros Hn d Hd. by split. Qed.
Lemma steady_if {A} (b : bool) (m1 m2 : act A) : steady m1 -> steady m2 -> steady (if b then m1 else m2).
Proof. by destruct b. Qed.

Lemma steady_write mutate : (forall st, cs_Members (mutate st) = cs_Members st) ->
  steady (writeStatus' mutate).
Proof.
  intros Hm. assert (forall c, knows c -> wp (write_once NotFoundText mutate c) (fun '(c', _) _ => knows c') tt) as Honce.
  { intros c Hc. pose proof Hc as ([Hns Hname] & Hmem & Hsets). unfold write_once. split; [done|]. intros v Hv.
    simpl in Hv. rewrite Hns, Hname. destruct (v_Config v namespace name) as [fresh| |e]; [|done..].
    assert (forall st version, cs_Members st = members -> knows (with_Status c st version)) as Hwith
      by (intros st version E; by split).
    destruct (equalConfigStatus _ _); [apply Hwith; simpl; by rewrite Hm|].
    split; [done|]. intros [stored|e] Hk; [|done]. apply Hwith. rewrite Hk. simpl. by rewrite Hm. }
  intros c Hc. unfold writeStatus. apply wp_bind.
  assert (wp (retry_on_conflict DefaultRetry (write_once NotFoundText mutate) c) (fun '(c', _) _ => knows c') tt) as H.
  { revert c Hc. induction DefaultRetry as [|retries IH]; intros c Hc; cbn [retry_on_conflict]; apply wp_bind;
      generalize (Honce c Hc); apply wp_mono; intros [c' [[]|[]]] [] Hc'; try done; by apply IH. }
  revert H. apply wp_mono. by intros [c' [[]|e]] [].
Qed.

Lemma steady_getCluster cluster : steady (getCluster cluster).
Proof.
  unfold getCluster, cache. apply steady_held. intros c _. apply steady_bind; [by apply steady_tell|].
  intros v. apply steady_ret.
Qed.

Lemma steady_ensure cluster : steady (ensureSupercluster cluster).
Proof.
  unfold ensureSupercluster. apply steady_held. intros c _. apply steady_bind; [apply steady_getCluster|].
  intros [cl| |e]; [apply steady_if; [apply steady_ret|apply steady_raise]| |apply steady_raise].
  apply steady_bind; [by apply steady_tell|]. intros [[]|[t|t|t]]; (by apply steady_tell) || apply steady_raise.
Qed.

Lemma draws_nothing supercluster suffixes rest : (forall set, set ∈ rest -> set ∈ sets) ->
  draw_members draws supercluster (map em_NodeSet members) suffixes rest = ret [].
Proof using known.
  revert suffixes. induction rest as [|set rest IH]; intros suffixes Hin; cbn [draw_members]; [done|].
  rewrite (proj2 (contains_true _ _)) by (apply known, Hin; by left). apply IH. intros x Hx. apply Hin. by right.
Qed.

Lemma steady_record : steady (recordMembers NotFoundText DefaultRetry draws).
Proof using known.
  unfold recordMembers. apply steady_held. intros c (_ & Hm & Hs). apply steady_bind; [by apply steady_tell|].
  intros v. destruct (v_Clusters _ _); [|apply steady_raise]. rewrite Hm, Hs.
  destruct (recorded_suffixes members); [|apply steady_raise].
  rewrite draws_nothing by done. exact (steady_ret members).
Qed.

Lemma steady_create cluster pairs : steady (create_members cluster pairs).
Proof.
  induction pairs as [|[entry set] pairs IH]; cbn [create_members]; [apply steady_ret|].
  apply steady_held. intros c _. apply steady_bind; [unfold lift; destruct (buildCluster _ _ _);
    [apply steady_ret|apply steady_raise]|intros member].
  apply steady_bind; [by apply steady_tell|].
  intros [[]|[t|t|t]]; [|exact IH|apply steady_raise..].
  apply steady_bind; [by apply steady_tell|intros _; exact IH].
Qed.

Lemma steady_supercluster : steady (createSupercluster NotFoundText DefaultRetry draws).
Proof using known.
  unfold createSupercluster. apply steady_held. intros c Hc.
  apply steady_bind; [apply steady_if; [apply steady_ensure|apply steady_ret]|intros _].
  apply steady_bind; [apply steady_if; [apply steady_ret|]|intros _].
  { apply steady_bind; [by apply steady_write|intros _]. by intros c' (Hm & Hmem & Hs). }
  apply steady_bind; [apply steady_record|intros all]. apply steady_bind; [apply steady_create|intros _].
  apply steady_ret.
Qed.

End Known.

Lemma named_on_record c tr r before target member x after : mine c ->
  does (createSupercluster NotFoundText DefaultRetry draws c) tr r ->
  Forall (possibly kept_or_dropped) tr ->
  tr = (before ++ Ev (CreateCluster target member) x :: after)%list ->
  sp_SuperclusterRef (sc_Spec member) <> "" ->
  exists e, em_Cluster e = sc_Name member /\
    (e ∈ cs_Members (cf_Status c) \/
     exists X (shows : call X) y, Ev shows y ∈ before /\ e ∈ members_shown X shows y).
Proof.
  intros Hc Hd Hk Ht Hm.
  destruct (watched_sound on_record (fun X c x s => (members_shown X c x ++ s)%list) kept_or_dropped
    (createSupercluster NotFoundText DefaultRetry draws c) (fun _ _ => True)
    (cs_Members (cf_Status c)) tr r) as [Hh _]; [|done..|].
  - assert (held_on_record c (cs_Members (cf_Status c))) as Hc0 by done. revert Hc0.
    generalize (cs_Members (cf_Status c)) at 1 2. intros record Hc0. unfold createSupercluster. apply wp_held.
    apply wp_act. eapply careful_wp; [apply careful_if; [apply careful_ensure|apply careful_ret]|done|].
    intros c1 [[]|e] record1 Hc1 _; [|done].
    apply wp_act. eapply careful_wp; [apply careful_if; [apply careful_ret|]|done|].
    { apply careful_bind; [apply careful_write|]. intros [] c2 record2 Hc2. by split. }
    intros c2 [[]|e] record2 Hc2 _; [|done].
    apply wp_act. eapply wp_mono; [|by apply recordMembers_record].
    intros [c3 [members|e]] record3 [Hc3 Hs]; [|done].
    apply wp_act. eapply wp_mono; [|eapply create_members_record; [done|]].
    + by intros [? [[]|?]] ? _.
    + intros entry set Hin. apply (Hs _ eq_refl). unfold member_pairs in Hin.
      apply list_elem_of_In, in_flat_map in Hin as (e & He%list_elem_of_In & (set' & [= <- <-] & _)%in_map_iff).
      done.
  - rewrite Ht in Hh. apply heeded_app in Hh as [_ [Ha _]]. destruct (Ha Hm) as (e & He & Hn).
    exists e. split; [done|]. by apply learned_shown.
Qed.

(** C7. A member is created only under a name that is on record in the document's status: as
    the pass began, or as a read of the document or an answered write of its status showed it
    since.  And a pass to which every read shows a name on record for every node set draws no
    name: a pass that follows one cut short, and reads the record that one left, takes up its
    names.  A pass whose first read is of a version before that record draws again, and
    overwrites it ([a_stale_pass_renames_the_members]). *)
Theorem members_are_on_record c tr r (Hc : mine c)
    (Hd : does (createSupercluster NotFoundText DefaultRetry draws c) tr r)
    (Hk : Forall (possibly kept_or_dropped) tr) :
  (forall before target member x after,
     tr = (before ++ Ev (CreateCluster target member) x :: after)%list ->
     sp_SuperclusterRef (sc_Spec member) <> "" ->
     exists e, em_Cluster e = sc_Name member /\
       (e ∈ cs_Members (cf_Status c) \/
        exists X (shows : call X) y, Ev shows y ∈ before /\ e ∈ members_shown X shows y)) /\
  ((forall set, set ∈ nodeSets c -> ns_Name set ∈ map em_NodeSet (cs_Members (cf_Status c))) ->
   Forall (possibly (shows_members (cs_Members (cf_Status c)))) tr ->
   forall x, Ev DrawSuffix x ∉ tr).
Proof.
  split; [intros before target member x after Ht Hm; by eapply named_on_record|].
  intros Hknown Hshows x Hx.
  destruct (watched_sound (fun X c _ => drawing X c = false) (fun _ _ _ s => s)
    (shows_members (cs_Members (cf_Status c))) (createSupercluster NotFoundText DefaultRetry draws c)
    (fun '(c', _) _ => knows (cs_Members (cf_Status c)) (nodeSets c) c') tt tr r) as [Hh _]; [|done..|].
  - by apply steady_supercluster.
  - by apply (heeded_none drawing _ _ Hh) in Hx.
Qed.

#[local] Unset Default Proof Using.

End Recorded.
End Passes.

End Expansion.
