(* ===== verification/ExpansionRuns.v ===== *)
(** An expansion run against a server: what the theorems of [Expansion] say of passes that
    happen, and two documents carried from their approval to their last step. *)

From Stdlib Require Import Ascii String.
From S2P Require Import Prelude.
From S2P Require Import Programs.
From S2P Require Import StateMachine.
From S2P Require Import GoStrings.
From S2P Require Import Admission.
From S2P Require Import Kube.
From S2P Require Import Discovery.
From S2P Require Import DiscoveryNet.
From S2P Require Import Documents.
From S2P Require Import DiscoveryGroups.
From S2P Require Import Stripes.
From S2P Require Import DocumentChecks.
From S2P Require Import Expansion.

#[local] Open Scope string_scope.
#[local] Unset Default Proof Using.

Module ExpansionRuns.

Import Discovery Documents DiscoveryGroups Stripes DocumentChecks Expansion.


(** ** The server *)



#[local] Existing Instance Sizes.ascii_text.
#[local] Existing Instance Fleet.plain_library.


Record World := mkWorld {
  on_Document : ClusterDeploymentConfig;
  on_Clusters : list StorageCluster;
  on_Nodes : list StorageNode;
  on_Ops : list StorageClusterOps;
  on_Suffixes : list string;
}.

Definition or_missing {A} (x : option A) : read A := match x with Some x => Found x | None => NotFound end.

Definition view (w : World) : View :=
  mkView
    (mkReader (fun _ name => or_missing (List.find (fun cl => String.eqb (sc_Name cl) name) (on_Clusters w)))
       (fun _ => Ok (on_Nodes w))
       (Ok (map (fun name => DiscoveryNet.mkNode name ∅ []) ["w1"; "w2"; "w3"; "w4"; "w5"; "w6"])) (fun _ => Ok [on_Document w]))
    (fun _ _ => Found (on_Document w))
    (fun _ name => or_missing (List.find (fun n => String.eqb (sn_Name n) name) (on_Nodes w)))
    (fun _ => Ok (on_Clusters w)) (fun _ _ => Found "Available").

(** A write of the document over the version the server has, and over any other. *)
Definition overwrite (w : World) (base new : ClusterDeploymentConfig) : World * res api_error ClusterDeploymentConfig :=
  if Nat.eqb (cf_ResourceVersion base) (cf_ResourceVersion (on_Document w)) then
    let stored := with_Status new (cf_Status new) (S (cf_ResourceVersion base)) in
    (mkWorld stored (on_Clusters w) (on_Nodes w) (on_Ops w) (on_Suffixes w), Ok stored)
  else (w, Err (Conflict "the object has been modified")).

Definition add_cluster (w : World) (cl : StorageCluster) : World :=
  mkWorld (on_Document w) (on_Clusters w ++ [cl])%list (on_Nodes w) (on_Ops w) (on_Suffixes w).
Definition replace_cluster (w : World) (cl : StorageCluster) : World :=
  mkWorld (on_Document w)
    (map (fun old => if String.eqb (sc_Name old) (sc_Name cl) then cl else old) (on_Clusters w))
    (on_Nodes w) (on_Ops w) (on_Suffixes w).

Definition serve X (c : call X) : World -> World * X :=
  match c with
  | Cache => fun w => (w, view w)
  | PatchStatus base new | PatchLabels base new => fun w => overwrite w base new
  | PatchDomains _ _ new | PatchRole _ _ new => fun w => (replace_cluster w new, Ok new)
  | CreateCluster _ cl => fun w =>
      if contains (map sc_Name (on_Clusters w)) (sc_Name cl) then (w, Err (AlreadyExists "it is there"))
      else (add_cluster w cl, Ok ())
  | CreateNode _ n => fun w =>
      if contains (map sn_Name (on_Nodes w)) (sn_Name n) then (w, Err (AlreadyExists "it is there"))
      else (mkWorld (on_Document w) (on_Clusters w) (on_Nodes w ++ [n])%list (on_Ops w) (on_Suffixes w), Ok ())
  | CreateOps _ o => fun w =>
      if contains (map co_Name (on_Ops w)) (co_Name o) then (w, Err (AlreadyExists "it is there"))
      else (mkWorld (on_Document w) (on_Clusters w) (on_Nodes w) (on_Ops w ++ [o])%list (on_Suffixes w), Ok ())
  | DrawSuffix => fun w =>
      match on_Suffixes w with
      | [] => (w, Err "no randomness")
      | x :: rest => (mkWorld (on_Document w) (on_Clusters w) (on_Nodes w) (on_Ops w) rest, Ok x)
      end
  | Now => fun w => (w, 0%Z)
  | Event _ _ _ => fun w => (w, ())
  end.

(** What the other controllers do between two passes: clusters get their identity, and the
    nodes come online. *)
Definition others (w : World) : World :=
  mkWorld (on_Document w)
    (map (fun cl => mkCluster (sc_Name cl) (sc_Spec cl) "uuid" (sc_ErasureCodingScheme cl)
                      (sc_FailureDomains cl) (sc_ResourceVersion cl)) (on_Clusters w))
    (map (fun n => mkNode (sn_Name n) (sn_ClusterRef n) (sn_NodeSet n) (sn_WorkerNode n) (sn_SocketID n)
                     (sn_NodeIndex n) (sn_Slot n) (sn_Config n) (sn_Remote n) StorageNodePhaseOnline
                     NodeStatusOnline (sn_Hostname n)) (on_Nodes w))
    (on_Ops w) (on_Suffixes w).

Definition missing (kind name : string) : string := kind ++ " " ++ name ++ " not found".

Definition a_pass : prog call (res error result) :=
  Reconcile missing 4 10 Background "simplyblock" "sb" "doc".

Definition pass (w : World) : World := others (run serve a_pass w).1.

Definition world (document : ClusterDeploymentConfig) : World := mkWorld document [] [] [] ["abc"; "xyz"].

(** One cluster of three workers, and a supercluster of two members of three. *)
Definition single : World := world (first_cluster 1 1).
Definition super : World :=
  world (document "" (Some (striped "prod" 1 1))
    [mkNodeSet "east" [worker_group ["w1"; "w2"; "w3"]] None; mkNodeSet "west" [worker_group ["w4"; "w5"; "w6"]] None]).

Definition after (n : nat) (w : World) : World := Nat.iter n pass w.

Definition facts (w : World) :=
  (cs_Phase (cf_Status (on_Document w)), kube_State (cs_Step (cf_Status (on_Document w))),
   cs_Message (cf_Status (on_Document w)),
   map sc_Name (on_Clusters w), map sn_Name (on_Nodes w), map co_Name (on_Ops w)).


(** ** Two documents, from their approval to their last step *)

Example one_cluster_expands :
  facts (after 6 single) =
  ("Expanded", "Completed", "expanded into cluster prod and 3 node(s)", ["prod"],
   ["prod-w1-0"; "prod-w2-0"; "prod-w3-0"], ["prod-activate"]).
Proof. by vm_compute. Qed.

Example two_members_expand :
  map (fun n => facts (after n super)) [5; 7]%nat =
  [("Expanding", "CreatingNodes", "waiting on CreatingNodes", ["prod"; "prod-east-abc"; "prod-west-xyz"],
    ["prod-east-abc-w1-0"; "prod-east-abc-w2-0"; "prod-east-abc-w3-0"], []);
   ("Expanded", "Completed", "expanded into cluster prod and 6 node(s)",
    ["prod"; "prod-east-abc"; "prod-west-xyz"],
    ["prod-east-abc-w1-0"; "prod-east-abc-w2-0"; "prod-east-abc-w3-0";
     "prod-west-xyz-w4-0"; "prod-west-xyz-w5-0"; "prod-west-xyz-w6-0"],
    ["prod-east-abc-activate"; "prod-west-xyz-activate"])].
Proof. by vm_compute. Qed.

(** The nodes of two clusters can go by one name. *)
Example nodes_of_two_clusters_share_a_name : nodeName "prod" "eu-1" 0 = nodeName "prod-eu" "1" 0.
Proof. by vm_compute. Qed.

(** ** The theorems, of these passes *)

(** Parts of a pass, run on the document the server holds. *)
Definition part {A} (m : Programs.act call ClusterDeploymentConfig error A) (w : World) :=
  (traced serve (m (on_Document w)) w).2.

Lemma part_does {A} (m : Programs.act call ClusterDeploymentConfig error A) w :
  does (m (on_Document w)) (part m w).1 (part m w).2.
Proof. apply traced_does. Qed.

Lemma part_returns {A} (m : Programs.act call ClusterDeploymentConfig error A) w r :
  (part m w).2 = r -> does (m (on_Document w)) (part m w).1 r.
Proof. intros <-. apply part_does. Qed.

Lemma existsb_pick {A} (p : A -> bool) l : existsb p l = true -> exists x, x ∈ l /\ p x = true.
Proof. rewrite existsb_exists. intros (x & Hin & Hp). exists x. by rewrite list_elem_of_In. Qed.

Lemma builds_only_what_was_approved_witness :
  let tr := (traced serve a_pass (after 2 single)).2.1 in
  exists e, e ∈ tr /\ builds e = true /\
    exists v document rest, tr = Ev Cache v :: rest /\ v_Config v "sb" "doc" = Found document /\
      cf_Deleting document = false /\
      ((terminalConfig (cs_Phase (cf_Status document)) = false /\ dc_Approved (cf_Spec document) = true /\
        exists v' rest', rest = Ev Cache v' :: rest' /\ validate (v_reader v') document = Ok []) \/
       (cs_Phase (cf_Status document) = PhaseExpanded /\ carries_role document rest e)).
Proof.
  intros tr. assert (existsb builds tr = true) as Hb by by vm_compute.
  apply existsb_pick in Hb as (e & Hin & Hb). exists e. split; [exact Hin|]. split; [exact Hb|].
  refine (builds_only_what_was_approved missing 4 10 Background "simplyblock" "sb" "doc" tr
    (traced serve a_pass (after 2 single)).2.2 _ e Hin Hb). apply traced_does.
Defined.

Definition made (tr : list (Programs.event call)) : list (string * Z) :=
  map (fun n => (sn_WorkerNode n, slot_of n)) (omap node_of tr).

Definition filling := createNodesFor missing 4 (on_Document (after 4 single)) "prod" true.

Lemma slots_are_filled_once_witness :
  made (part filling (after 4 single)).1 = [("w1", 0%Z); ("w2", 0%Z); ("w3", 0%Z)] /\
  NoDup (made (part filling (after 4 single)).1).
Proof.
  assert (made (part filling (after 4 single)).1 = [("w1", 0%Z); ("w2", 0%Z); ("w3", 0%Z)]) as Hm
    by by vm_compute.
  assert (NoDup (workers_of (on_Document (after 4 single)))) as Hw
    by (apply (bool_decide_unpack _); by vm_compute).
  pose proof (part_does filling (after 4 single)) as Hd.
  split; [exact Hm|]. unfold filling in *. revert Hm Hw Hd.
  generalize (part (createNodesFor missing 4 (on_Document (after 4 single)) "prod" true) (after 4 single)).
  generalize (on_Document (after 4 single)). intros c [tr [c' r]] Hm Hw Hd. cbn [fst snd] in *.
  destruct (slots_are_filled_once missing 4 c "prod" c tr c' r Hw Hd)
    as [[H _]|(v & cluster & all & _ & _ & _ & H)].
  - exfalso. unfold made in Hm. rewrite H in Hm. discriminate.
  - exact (proj1 (proj2 H)).
Defined.

Definition both_members (c : ClusterDeploymentConfig) : list expansionTarget :=
  map (fun '(name, set) => mkTarget name (memberView c set)) (zip ["prod-east-abc"; "prod-west-xyz"] (nodeSets c)).

Lemma members_are_built_in_turn_witness :
  let w := after 5 super in
  let members := both_members (on_Document w) in
  in_turn missing 4 "sb" members (part (create_targets missing 4 members true) w).1.
Proof.
  intros w members.
  refine (members_are_built_in_turn missing 4 members (on_Document w) _
    (part (create_targets missing 4 members true) w).2 (part_does _ w)).
Defined.

Lemma activation_waits_for_its_nodes_witness :
  let w := after 5 single in
  let c := on_Document w in
  let tr := (part (activateTarget "prod") w).1 in
  let ops := mkClusterOps "prod-activate" "doc" "prod" ActionActivate in
  (forall name, name ∈ cs_NodeRefs (cf_Status c) -> settled "sb" "prod" tr name) /\
  peer_is_ready "sb" "prod" tr /\
  ops = mkClusterOps ("prod" ++ "-activate") (cf_Name c) "prod" ActionActivate.
Proof.
  intros w c tr ops.
  refine (activation_waits_for_its_nodes "prod" c tr (part (activateTarget "prod") w).2 (part_does _ w) "sb" ops (Ok ()) _).
  apply (list_elem_of_lookup_2 _ 4). by vm_compute.
Defined.

(** Whether an answer kept the members it was given, or dropped them all. *)
Definition keeps_members (e : Programs.event call) : bool :=
  let 'Ev c x := e in
  match c in call X return X -> bool with
  | PatchStatus _ new => fun r => match r with
      | Ok d => bool_decide (cs_Members (cf_Status d) = cs_Members (cf_Status new)) ||
                bool_decide (cs_Members (cf_Status d) = [])
      | Err _ => true
      end
  | _ => fun _ => true
  end x.

Lemma keeps_members_possible tr : forallb keeps_members tr = true -> Forall (possibly kept_or_dropped) tr.
Proof.
  rewrite forallb_forall, Forall_forall. intros Hk e He%list_elem_of_In%Hk. revert He.
  destruct e as [X [] x]; simpl; try done. destruct x as [d|e]; [|done].
  intros [H|H]%orb_true_iff; apply bool_decide_eq_true in H; auto.
Qed.

Definition cluster_of (e : Programs.event call) : StorageCluster :=
  let 'Ev c _ := e in match c with CreateCluster _ cl => cl | _ => plain_cluster "" false end.
Definition created_at (i : nat) (tr : list (Programs.event call)) : StorageCluster :=
  match tr !! i with Some e => cluster_of e | None => plain_cluster "" false end.

Lemma members_are_on_record_witness :
  let w := after 2 super in
  let c := on_Document w in
  let tr := (part (createSupercluster missing 4 10) w).1 in
  exists e, em_Cluster e = sc_Name (created_at 12 tr) /\
    (e ∈ cs_Members (cf_Status c) \/
     exists X (shows : call X) y, Ev shows y ∈ take 12 tr /\ e ∈ members_shown "sb" "doc" X shows y).
Proof.
  intros w c tr.
  assert (tr !! 12 = Some (Ev (CreateCluster "sb" (created_at 12 tr)) (Ok ()))) as Ht
    by (vm_compute; reflexivity).
  refine (proj1 (members_are_on_record missing 4 10 "sb" "doc" c tr
    (part (createSupercluster missing 4 10) w).2 _ (part_does _ w) _) _ "sb" _ (Ok ()) _
    (eq_sym (take_drop_middle tr 12 _ Ht)) _); clear Ht.
  - split; vm_compute; reflexivity.
  - apply keeps_members_possible. vm_compute. reflexivity.
  - vm_compute. discriminate.
Defined.

(** The member that is created there. *)
Example the_first_member :
  sc_Name (created_at 12 (part (createSupercluster missing 4 10) (after 2 super)).1) = "prod-east-abc".
Proof. by vm_compute. Qed.

(** The versions of the document a pass stored. *)
Definition stored_by (tr : list (Programs.event call)) : list ClusterDeploymentConfig :=
  omap (fun e => let 'Ev c x := e in
    match c in call X return X -> option ClusterDeploymentConfig with
    | PatchStatus _ _ => fun r => match r with Ok d => Some d | Err _ => None end
    | _ => fun _ => None
    end x) tr.

Definition names_on_record (c : ClusterDeploymentConfig) : list string := map em_Cluster (cs_Members (cf_Status c)).

Definition supercluster_step (c : ClusterDeploymentConfig) (w : World) :=
  traced serve (createSupercluster missing 4 10 c) w.
Definition first_pass :=
  let w := after 2 (mkWorld (on_Document super) [] [] [] ["abc"; "xyz"; "def"; "uvw"]) in
  supercluster_step (on_Document w) w.
Definition between_writes : ClusterDeploymentConfig :=
  default (on_Document super) (stored_by first_pass.2.1 !! 0).

(** A pass that creates the members stores the cluster's name first, and the members' after it.
    One that then starts from the version between the two draws the members anew: its record
    takes the place of the first, and the members created before belong to no document. *)
Lemma a_stale_pass_renames_the_members :
  is_Some (stored_by first_pass.2.1 !! 0) /\ cs_ClusterRef (cf_Status between_writes) = "prod" /\
  names_on_record between_writes = [] /\
  names_on_record (on_Document first_pass.1) = ["prod-east-abc"; "prod-west-xyz"] /\
  let second := supercluster_step between_writes first_pass.1 in
  names_on_record (on_Document second.1) = ["prod-east-def"; "prod-west-uvw"] /\
  map sc_Name (on_Clusters second.1) =
    ["prod"; "prod-east-abc"; "prod-west-xyz"; "prod-east-def"; "prod-west-uvw"].
Proof.
  split; [|by vm_compute].
  destruct (stored_by first_pass.2.1 !! 0) eqn:E; [done|].
  assert (bool_decide (is_Some (stored_by first_pass.2.1 !! 0)) = true) as H by by vm_compute.
  by rewrite E in H.
Qed.

End ExpansionRuns.
