(* ===== verification/BlockContent.v ===== *)
(** What a block device carries, read from its own bytes ([atlas-lib/blockdev]: content.go,
    signatures.go and excision.go).

    A device is probed in a head and a tail region of at most a megabyte each, fifteen
    detectors look for the signatures of known formats, twelve more rows look for a format
    whose signature was erased, and what is left is decided by the first block being zero.
    The bytes are a [list ascii]; a read of the device is a parameter (the opener and its
    reader), which may fail or come back short. *)

From Stdlib Require Import Ascii String.
From S2P Require Import Prelude.
From S2P Require Import GoStrings.

#[local] Open Scope string_scope.
#[local] Open Scope Z_scope.
#[local] Set Default Proof Using "Type".

Module Content.

(** ** A reading *)

Inductive Content :=
| ContentUnknown | ContentBlank | ContentFilesystem | ContentStackLayer | ContentForeign
| ContentReleased | ContentSimplyblock.

#[global] Instance Content_eq_dec : EqDecision Content.
Proof. solve_decision. Defined.

Definition Content_String (c : Content) : string :=
  match c with
  | ContentBlank => "Blank"
  | ContentFilesystem => "Filesystem"
  | ContentStackLayer => "StackLayer"
  | ContentForeign => "Foreign"
  | ContentReleased => "Released"
  | ContentSimplyblock => "Simplyblock"
  | ContentUnknown => "Unknown"
  end.

Record Reading := mkReading { rd_Content : Content; rd_Type : string; rd_Detail : string }.

Definition no_reading : Reading := mkReading ContentUnknown "" "".

(** ** The regions read off a device *)

(** [len] of a Go slice. *)
Definition len (l : bytes) : Z := Z.of_nat (length l).

(** [l[off : off+n]]. *)
Definition slice (l : bytes) (off n : Z) : bytes := take (Z.to_nat n) (drop (Z.to_nat off) l).

Record regions := mkRegions {
  head : bytes;
  tail : bytes;
  tailAt : Z;
  size : Z;
  lbs : Z;
  grid : bytes;
  gridAt : Z }.

(** [regions.at]: the bytes at an absolute offset, where they were read. *)
Definition at_ (r : regions) (off n : Z) : option bytes :=
  if (off <? 0) || (n <=? 0) then None
  else if off + n <=? len (head r) then Some (slice (head r) off n)
  else if (0 <? len (grid r)) && (gridAt r <=? off) && (off + n <=? gridAt r + len (grid r))
  then Some (slice (grid r) (off - gridAt r) n)
  else if (0 <? len (tail r)) && (tailAt r <=? off) && (off + n <=? tailAt r + len (tail r))
  then Some (slice (tail r) (off - tailAt r) n)
  else None.

(** [bytes.Equal] on what was read. *)
Definition eq (r : regions) (off : Z) (want : bytes) : bool :=
  match at_ r off (len want) with
  | Some got => bool_decide (got = want)
  | None => false
  end.

(** [binary.LittleEndian] and [binary.BigEndian]. *)
Definition little (l : bytes) : Z := foldr (fun b z => code b + 256 * z) 0 l.
Definition big (l : bytes) : Z := foldl (fun z b => 256 * z + code b) 0 l.

Definition u16 (r : regions) (off : Z) : option Z := little <$> at_ r off 2.
Definition u32 (r : regions) (off : Z) : option Z := little <$> at_ r off 4.
Definition u64 (r : regions) (off : Z) : option Z := little <$> at_ r off 8.

(** A byte literal. *)
Definition byte (z : Z) : ascii := ascii_of_N (Z.to_N z).

(** [bytes.HasPrefix]. *)
Definition HasPrefix (l want : bytes) : bool := bool_decide (want `prefix_of` l).

Definition isZero (l : bytes) : bool := forallb (fun c => code c =? 0) l.

(** The byte of a slice at an index that is in range. *)
Definition nth_byte (l : bytes) (i : nat) : Z := default 0 (code <$> l !! i).

(** ** The catalog *)

Record find := mkFind { f_content : Content; f_typ : string; f_offset : Z; f_detail : string }.

Definition alcemlMagic : bytes :=
  (to_bytes "ALCEML_STORAGE" ++ [byte 0; byte 0])%list.

Definition bcacheMagic : bytes :=
  map byte [198; 133; 115; 246; 78; 26; 69; 202; 130; 101; 245; 127; 72; 186; 109; 129].

Definition alcemlPageMagic : bytes := to_bytes "ALCEML_PAGEv2".
Definition alcemlUnmappedMagic : bytes := to_bytes "_UNMAPPED_".

Definition extSuperblock : Z := 1024.
Definition extMagicOffset : Z := extSuperblock + 56.
Definition extMagic : Z := 61267.  (* 0xEF53 *)
Definition extCompatHasJournal : Z := 4.
Definition ext4Incompat : Z := Z.lor (Z.lor 64 128) (Z.lor 256 512).
Definition ext4RoCompat : Z := Z.lor (Z.lor 8 16) (Z.lor 32 64).
Definition ext4RoCompat2 : Z := Z.lor (Z.lor 256 512) 1024.

Definition alcemlPageSize : Z := 4096.

Definition detectAlceml (r : regions) : option find :=
  if eq r 0 alcemlMagic
  then Some (mkFind ContentSimplyblock "simplyblock_alceml" 0 "a simplyblock storage superblock at 0")
  else None.

(** The header of one block, at an absolute offset. *)
Definition page_header (at_ : Z) (block : bytes) : option find :=
  if HasPrefix block alcemlPageMagic
  then Some (mkFind ContentSimplyblock "simplyblock_alceml" at_
               ("a simplyblock page header at " ++ Itoa at_))
  else if HasPrefix block alcemlUnmappedMagic && isZero (drop (length alcemlUnmappedMagic) block)
  then Some (mkFind ContentSimplyblock "simplyblock_alceml" at_
               ("a simplyblock unwritten-page header at " ++ Itoa at_))
  else None.

(** The page headers of one span, from the blocks at the offsets given. *)
Fixpoint page_headers (spanAt : Z) (data : bytes) (offs : list Z) : option find :=
  match offs with
  | [] => None
  | off :: offs =>
      if negb ((spanAt + off) mod alcemlPageSize =? 0) then None
      else match page_header (spanAt + off) (slice data off alcemlPageSize) with
        | Some f => Some f
        | None => page_headers spanAt data offs
        end
  end.

(** The offsets of the whole blocks of a span: 0, 4096, and on while the block fits. *)
Definition blocks_of (data : bytes) : list Z :=
  map (fun i => alcemlPageSize * Z.of_nat i) (seq 0 (Z.to_nat (len data / alcemlPageSize))).

Definition detectAlcemlPages (r : regions) : option find :=
  match page_headers 0 (head r) (blocks_of (head r)) with
  | Some f => Some f
  | None => page_headers (gridAt r) (grid r) (blocks_of (grid r))
  end.

Definition detectBcache (r : regions) : option find :=
  let off := 4096 + 24 in
  if eq r off bcacheMagic
  then Some (mkFind ContentForeign "bcache" off ("a bcache superblock at " ++ Itoa (off - 24)))
  else None.

(** A word whose read is not checked: zero where it was not read. *)
Definition word (o : option Z) : Z := default 0 o.

Definition extMember (r : regions) : string :=
  let compat := word (u32 r (extSuperblock + 92)) in
  let incompat := word (u32 r (extSuperblock + 96)) in
  let roCompat := word (u32 r (extSuperblock + 100)) in
  if negb (Z.land incompat ext4Incompat =? 0) ||
     negb (Z.land roCompat (Z.lor ext4RoCompat ext4RoCompat2) =? 0) then "ext4"
  else if negb (Z.land compat extCompatHasJournal =? 0) then "ext3"
  else "ext2".

Definition detectExt (r : regions) : option find :=
  match u16 r extMagicOffset with
  | Some m =>
      if m =? extMagic
      then let typ := extMember r in
        Some (mkFind ContentFilesystem typ extMagicOffset (typ ++ " superblock at " ++ Itoa extSuperblock))
      else None
  | None => None
  end.

Definition detectXFS (r : regions) : option find :=
  if eq r 0 (to_bytes "XFSB")
  then Some (mkFind ContentFilesystem "xfs" 0 "XFS superblock at 0") else None.

(** The four 512-byte units LVM scans. *)
Definition lvm_label (r : regions) (i : Z) : option find :=
  let off := i * 512 in
  if eq r off (to_bytes "LABELONE")
  then match at_ r (off + 24) 8 with
    | Some t =>
        if HasPrefix t (to_bytes "LVM2 ")
        then Some (mkFind ContentStackLayer "LVM2_member" off
                     ("LVM2 physical-volume label at " ++ Itoa off))
        else None
    | None => None
    end
  else None.

(** The first of a list of attempts that answers. *)
Fixpoint first_of {A B} (f : A -> option B) (l : list A) : option B :=
  match l with
  | [] => None
  | x :: l => match f x with Some y => Some y | None => first_of f l end
  end.

Definition detectLVM2 (r : regions) : option find := first_of (lvm_label r) [0; 1; 2; 3].

Definition luksMagic : bytes := map byte [76; 85; 75; 83; 186; 190].

Definition detectLUKS (r : regions) : option find :=
  if eq r 0 luksMagic
  then
    let detail := match at_ r 6 2 with
      | Some b => "LUKS" ++ Itoa (big b) ++ " header at 0"
      | None => "LUKS header at 0"
      end in
    Some (mkFind ContentForeign "crypto_LUKS" 0 detail)
  else None.

Definition gptSignature : bytes := to_bytes "EFI PART".

Definition detectGPT (r : regions) : option find :=
  let primary := lbs r in
  if eq r primary gptSignature
  then Some (mkFind ContentForeign "gpt" primary ("GPT header at " ++ Itoa primary ++ " (LBA 1)"))
  else
    let backup := size r - lbs r in
    if (0 <? backup) && eq r backup gptSignature
    then Some (mkFind ContentForeign "gpt" backup
                 ("backup GPT header at " ++ Itoa backup ++ " (the last LBA)"))
    else None.

(** Whether a partition table of four entries uses one: [table[i*16+4] != 0]. *)
Definition used_entry (table : bytes) : bool :=
  existsb (fun i => negb (nth_byte table (i * 16 + 4)%nat =? 0)) [0; 1; 2; 3]%nat.

Definition detectMBR (r : regions) : option find :=
  if negb (eq r 510 (map byte [85; 170])) then None
  else match at_ r 446 64 with
    | None => None
    | Some table =>
        if used_entry table
        then Some (mkFind ContentForeign "dos" 446
                     "MBR partition table at 446, with at least one used entry")
        else None
    end.

Definition validFATBPB (r : regions) : bool :=
  match u16 r 11 with
  | None => false
  | Some bytesPerSector =>
    contains [512; 1024; 2048; 4096] bytesPerSector &&
    match at_ r 13 1 with
    | None => false
    | Some b =>
      let spc := nth_byte b 0 in
      negb (spc =? 0) && (Z.land spc (spc - 1) =? 0) && (spc <=? 128) &&
      match u16 r 14 with
      | None => false
      | Some reserved =>
        negb (reserved =? 0) &&
        match at_ r 16 1 with
        | None => false
        | Some fats =>
          (1 <=? nth_byte fats 0) && (nth_byte fats 0 <=? 2) &&
          match at_ r 21 1 with
          | None => false
          | Some media => (nth_byte media 0 =? 240) || (248 <=? nth_byte media 0)
          end
        end
      end
    end
  end.

Definition fat_type (r : regions) (c : Z * string * string) : option find :=
  let '(off, want, name) := c in
  match at_ r off 8 with
  | Some b =>
      if HasPrefix b (to_bytes want)
      then Some (mkFind ContentForeign "vfat" off (name ++ " boot sector, type at " ++ Itoa off))
      else None
  | None => None
  end.

Definition fatTypes : list (Z * string * string) :=
  [(82, "FAT32", "FAT32"); (54, "FAT16", "FAT16"); (54, "FAT12", "FAT12"); (54, "FAT", "FAT")].

Definition detectFAT (r : regions) : option find :=
  if validFATBPB r then first_of (fat_type r) fatTypes else None.

Definition detectExFAT (r : regions) : option find :=
  if eq r 3 (to_bytes "EXFAT   ")
  then Some (mkFind ContentForeign "exfat" 3 "exFAT boot sector, type at 3") else None.

Definition btrfsMagicOffset : Z := 65600.  (* 0x10040 *)

Definition detectBtrfs (r : regions) : option find :=
  let off := btrfsMagicOffset in
  if eq r off (to_bytes "_BHRfS_M")
  then Some (mkFind ContentForeign "btrfs" off ("btrfs superblock at " ++ Itoa off)) else None.

Definition swapPages : list Z := [4096; 8192; 16384; 65536].

Definition swap_signature (r : regions) (c : Z * string) : option find :=
  let '(pageSize, want) := c in
  let off := pageSize - 10 in
  if eq r off (to_bytes want)
  then Some (mkFind ContentForeign "swap" off
               (want ++ " signature at " ++ Itoa off ++ ", for a " ++ Itoa pageSize ++ "-byte page"))
  else None.

Definition detectSwap (r : regions) : option find :=
  first_of (swap_signature r)
    (flat_map (fun pageSize => [(pageSize, "SWAPSPACE2"); (pageSize, "SWAP-SPACE")]) swapPages).

Definition mdMagic : bytes := map byte [252; 78; 43; 169].

(** Where metadata 1.0 and 0.90 sit, counted back from the end of the device; [x &^ 7] is
    [Z.ldiff x 7]. *)
Definition md10 (r : regions) : option Z :=
  let sectors := Z.quot (size r) 512 in
  if 16 <? sectors then Some (Z.ldiff (sectors - 16) 7 * 512) else None.
Definition md090 (r : regions) : option Z :=
  let sectors := Z.quot (size r) 512 in
  if 128 <? sectors then Some ((Z.ldiff sectors 127 - 128) * 512) else None.

Definition md_candidates (r : regions) : list (Z * string) :=
  ([(0, "metadata 1.1, at 0"); (4096, "metadata 1.2, at 4096")] ++
   match md10 r with Some off => [(off, ("metadata 1.0, at " ++ Itoa off)%string)] | None => [] end ++
   match md090 r with Some off => [(off, ("metadata 0.90, at " ++ Itoa off)%string)] | None => [] end)%list.

Definition detectMDRaid (r : regions) : option find :=
  first_of (fun c =>
    if eq r c.1 mdMagic
    then Some (mkFind ContentForeign "linux_raid_member" c.1
                 ("Linux software-RAID member, " ++ c.2))
    else None) (md_candidates r).

Definition labelSize : Z := 262144.
Definition uberblockArray : Z := 131072.

(** The uberblock magic, 0x0000000000bab10c, in either byte order. *)
Definition uberblockLE : bytes := map byte [12; 177; 186; 0; 0; 0; 0; 0].
Definition uberblockBE : bytes := map byte [0; 0; 0; 0; 0; 186; 177; 12].

(** The offsets of one label's array: every kilobyte of half a label. *)
Definition uberblocks (s : Z) : list Z :=
  map (fun i => s + uberblockArray + 1024 * Z.of_nat i) (seq 0 128).

Definition detectZFS (r : regions) : option find :=
  first_of (fun s =>
    if s <? 0 then None
    else first_of (fun off =>
      if eq r off uberblockLE || eq r off uberblockBE
      then Some (mkFind ContentForeign "zfs_member" off
                   ("ZFS uberblock at " ++ Itoa off ++ ", in the vdev label at " ++ Itoa s))
      else None) (uberblocks s))
    [0; labelSize; size r - 2 * labelSize; size r - labelSize].

(** The catalog. *)
Definition detectors : list (regions -> option find) :=
  [detectExt; detectXFS; detectLVM2; detectLUKS; detectGPT; detectMBR;
   detectExFAT; detectFAT; detectBtrfs; detectSwap; detectMDRaid; detectZFS;
   detectAlceml; detectAlcemlPages; detectBcache].

Definition detect (r : regions) : list find := omap (fun d => d r) detectors.

(** What one more find makes of the best so far. *)
Definition prefer (best f : find) : find :=
  if String.eqb (f_typ f) "gpt" && String.eqb (f_typ best) "dos" then f
  else if String.eqb (f_typ best) "gpt" && String.eqb (f_typ f) "dos" then best
  else if f_offset f <? f_offset best then f
  else best.

(** [choose], of a first find and the rest. *)
Definition choose (f : find) (finds : list find) : find := foldl prefer f finds.

(** ** A signature that was taken out *)

Record excision := mkExcision {
  x_typ : string;
  x_member : option (regions -> string);
  x_erased : regions -> Z * bool;
  x_intact : regions -> bool }.

Definition zeroSpan (r : regions) (off n : Z) : bool :=
  match at_ r off n with Some b => isZero b | None => false end.

Definition zeroedAt (off n : Z) (r : regions) : Z * bool := (off, zeroSpan r off n).

Definition powerOfTwoBE (r : regions) (off low high : Z) : bool :=
  match at_ r off 4 with
  | Some b => let v := big b in (low <=? v) && (v <=? high) && (Z.land v (v - 1) =? 0)
  | None => false
  end.

(** The first offset of a list that answers, or zero and no. *)
Definition first_erased (p : Z -> bool) (offs : list Z) : Z * bool :=
  match List.find p offs with Some off => (off, true) | None => (0, false) end.

Definition swapErased (r : regions) : Z * bool :=
  first_erased (fun off => zeroSpan r off 10) (map (fun pageSize => pageSize - 10) swapPages).

Definition fatErased (r : regions) : Z * bool :=
  first_erased (fun off => zeroSpan r off 8) [82; 54].

Definition gptErased (r : regions) : Z * bool := (lbs r, zeroSpan r (lbs r) 8).

Definition mdVersionAt (r : regions) (off : Z) : bool :=
  match u32 r (off + 4) with
  | None => false
  | Some major =>
      if major =? 1 then true
      else match u32 r (off + 8) with
        | Some minor => (major =? 0) && (minor =? 90)
        | None => false
        end
  end.

Definition mdOffsets (r : regions) : list Z :=
  ([0; 4096] ++ match md10 r with Some off => [off] | None => [] end
             ++ match md090 r with Some off => [off] | None => [] end)%list.

Definition mdErased (r : regions) : Z * bool :=
  first_erased (fun off => zeroSpan r off 4 && mdVersionAt r off) (mdOffsets r).

Definition mdIntact (r : regions) : bool :=
  existsb (fun off => zeroSpan r off 4 && mdVersionAt r off) (mdOffsets r).

(** The rows of the table, in order. *)
Definition extIntact (r : regions) : bool :=
  match u32 r extSuperblock, u32 r (extSuperblock + 4), u32 r (extSuperblock + 24) with
  | Some inodes, Some blocks, Some logBlockSize =>
      negb (inodes =? 0) && negb (blocks =? 0) && (logBlockSize <=? 6)
  | _, _, _ => false
  end.

Definition bcacheIntact (r : regions) : bool :=
  match u64 r (4096 + 8) with
  | Some offset => (offset =? 8) && negb (zeroSpan r 4096 8)
  | None => false
  end.

Definition swapIntact (r : regions) : bool :=
  match u32 r 1024, u32 r 1028 with
  | Some version, Some lastPage => (version =? 1) && negb (lastPage =? 0)
  | _, _ => false
  end.

Definition luksIntact (r : regions) : bool :=
  match at_ r 6 2 with Some b => (big b =? 1) || (big b =? 2) | None => false end.

Definition gptIntact (r : regions) : bool :=
  match at_ r (446 + 4) 1 with Some b => nth_byte b 0 =? 238 | None => false end.

Definition dosIntact (r : regions) : bool :=
  match at_ r 446 64 with Some table => used_entry table | None => false end.

Definition excisions : list excision :=
  [ mkExcision "ext" (Some extMember) (zeroedAt extMagicOffset 2) extIntact;
    mkExcision "xfs" None (zeroedAt 0 4) (fun r => powerOfTwoBE r 4 512 65536);
    mkExcision "btrfs" None (zeroedAt btrfsMagicOffset 8) (fun r => negb (zeroSpan r 65536 32));
    mkExcision "bcache" None (zeroedAt (4096 + 24) 16) bcacheIntact;
    mkExcision "swap" None swapErased swapIntact;
    mkExcision "LVM2_member" None (zeroedAt (512 + 24) 8)
      (fun r => eq r 512 (to_bytes "LABELONE"));
    mkExcision "crypto_LUKS" None (zeroedAt 0 6) luksIntact;
    mkExcision "exfat" None (zeroedAt 3 8) (fun r => eq r 0 (map byte [235; 118; 144]));
    mkExcision "vfat" None fatErased validFATBPB;
    mkExcision "gpt" None gptErased gptIntact;
    mkExcision "dos" None (zeroedAt 510 2) dosIntact;
    mkExcision "linux_raid_member" None mdErased mdIntact ].

Definition excised (r : regions) (e : excision) : option find :=
  let '(off, gone) := x_erased e r in
  if negb gone || negb (x_intact e r) then None
  else
    let typ := match x_member e with Some member => member r | None => x_typ e end in
    Some (mkFind ContentReleased typ off
      (typ ++ ": the signature is gone from " ++ Itoa off ++
       " and the rest of the format is still on the device, which is the mark of wipefs and how a disk is released")).

Definition detectExcised (r : regions) : option find := first_of (excised r) excisions.

(** ** The blank rule *)

Definition BlankHeadSize : Z := 4096.

(** [bytes.IndexFunc], which decodes runes: the offset of the first the test holds of. *)
Fixpoint index_rune (p : Z -> bool) (off : Z) (cs : list (Z * bytes)) : option Z :=
  match cs with
  | [] => None
  | (c, bs) :: cs => if p c then Some off else index_rune p (off + len bs) cs
  end.

Definition IndexFunc (l : bytes) (p : Z -> bool) : option Z := index_rune p 0 (chunks l).

Definition nonZero (c : Z) : bool := negb (c =? 0).

(** The bytes the blank rule reads. *)
Definition blank_bytes (r : regions) : bytes :=
  if (len (head r) <? size r) && (BlankHeadSize <? len (head r))
  then take (Z.to_nat BlankHeadSize) (head r) else head r.

Definition firstNonZero (r : regions) : option Z := IndexFunc (blank_bytes r) nonZero.

Definition blankSpan (r : regions) : Z :=
  if len (head r) <? size r then Z.min BlankHeadSize (len (head r)) else len (head r).


(** ** A probe *)

(** [Device] of device.go: the kernel's view of one block device. *)
Record Device := mkBlockDevice {
  Path : string;
  Name : string;
  Major : Z;
  Minor : Z;
  LogicalBlockSize : Z;
  PhysicalBlockSize : Z;
  AtomicWriteUnitMaxBytes : option Z;
  AtomicWriteUnitMinBytes : option Z;
  SizeBytes : Z;
  ReadOnly : bool }.

Definition AtomicityKnown (d : Device) : bool :=
  match AtomicWriteUnitMaxBytes d with Some _ => true | None => false end.

Definition AtomicAt (d : Device) (n : Z) : bool :=
  match AtomicWriteUnitMaxBytes d with
  | None => false
  | Some most =>
      match AtomicWriteUnitMinBytes d with
      | Some least => if n <? least then false else n <=? most
      | None => n <=? most
      end
  end.

(** A failure of a probe: an error, or the panic of a slice made with a negative length. *)
Inductive failure := failed (message : string) | panicked.

(** [Reader.ReadAt] at an offset into a buffer of a length: the count it reports, the buffer
    afterwards, and its error, the one of an exhausted timeout included.  A probe reads no
    offset twice, so a function of both is any device, a changing one too. *)
Definition Reader : Type := Z -> Z -> Z * bytes * option string.
Definition Opener : Type := Device -> res string Reader.

Definition DefaultRegionSize : Z := Z.shiftl 1 20.
Definition DefaultTimeout : Duration := 30 * Second.
Definition MinRegionSize : Z := Z.shiftl 128 10.

Record Prober := mkProber {
  p_open : Opener;
  p_regionSize : Z;
  p_timeout : Duration;
  p_cfgErr : option string }.

(** The options of a prober. *)
Definition WithRegionSize (n : Z) (p : Prober) : Prober :=
  mkProber (p_open p) n (p_timeout p) (p_cfgErr p).
Definition WithTimeout (d : Duration) (p : Prober) : Prober :=
  mkProber (p_open p) (p_regionSize p) d (p_cfgErr p).

Definition with_cfgErr (p : Prober) (e : string) : Prober :=
  mkProber (p_open p) (p_regionSize p) (p_timeout p) (Some e).

Definition NewProberWithOpener (open : Opener) (opts : list (Prober -> Prober)) : Prober :=
  let p := foldl (fun p opt => opt p) (mkProber open DefaultRegionSize DefaultTimeout None) opts in
  let p :=
    if p_regionSize p <? MinRegionSize
    then with_cfgErr p ("blockdev: a region of " ++ Itoa (p_regionSize p) ++ " bytes is below the " ++
           Itoa MinRegionSize ++ " needed to cover every signature the catalog places")
    else p in
  if p_timeout p <=? 0
  then with_cfgErr p
    "blockdev: a probe needs a positive timeout, so that a stalled read fails rather than hangs"
  else p.

Definition readAt (r : Reader) (off n : Z) : res failure bytes :=
  if n <? 0 then Err panicked
  else
    let '(got, buf, err) := r off n in
    match err with
    | Some e => Err (failed ("blockdev: read " ++ Itoa n ++ " bytes at " ++ Itoa off ++ ": " ++ e))
    | None =>
        if negb (got =? n)
        then Err (failed ("blockdev: short read at " ++ Itoa off ++ ": " ++ Itoa got ++ " of " ++
                    Itoa n ++ " bytes"))
        else Ok buf
    end.

(** The logical block size a probe counts in: 512 where the device states none. *)
Definition lbs_of (dev : Device) : Z :=
  if LogicalBlockSize dev <=? 0 then 512 else LogicalBlockSize dev.

(** [Prober.read]. *)
Definition read (p : Prober) (dev : Device) : res failure regions :=
  if SizeBytes dev =? 0
  then Err (failed "blockdev: the device reports no size, so its tail cannot be located")
  else
    let size := wrap64 (SizeBytes dev) in
    let lbs := lbs_of dev in
    match p_open p dev with
    | Err e => Err (failed ("blockdev: open " ++ Path dev ++ ": " ++ e))
    | Ok r =>
        let R := p_regionSize p in
        if size <=? wrap64 (2 * R)
        then
          head <-- readAt r 0 size;;
          Ok (mkRegions head [] size size lbs [] 0)
        else
          head <-- readAt r 0 R;;
          let tailAt := size - R in
          tail <-- readAt r tailAt R;;
          let gridAt := R in
          let gridEnd := Z.min (wrap64 (gridAt + R)) tailAt in
          if alcemlPageSize <=? gridEnd - gridAt
          then match readAt r gridAt (gridEnd - gridAt) with
            | Ok grid => Ok (mkRegions head tail tailAt size lbs grid gridAt)
            | Err _ => Ok (mkRegions head tail tailAt size lbs [] 0)
            end
          else Ok (mkRegions head tail tailAt size lbs [] 0)
    end.

(** [strings.Join(parts, ", ")]. *)
Definition detailOf (finds : list find) : string := String.concat ", " (map f_detail finds).

(** What a reading says of the regions of a device. *)
Definition reading_of (r : regions) : Reading :=
  match detect r with
  | f :: finds =>
      let best := choose f finds in
      mkReading (f_content best) (f_typ best) (detailOf (f :: finds))
  | [] =>
      match detectExcised r with
      | Some f => mkReading (f_content f) (f_typ f) (f_detail f)
      | None =>
          match firstNonZero r with
          | Some off =>
              mkReading ContentForeign ""
                ("no known signature, and the head region is not empty: first non-zero byte at " ++
                 Itoa off)
          | None =>
              mkReading ContentBlank ""
                ("the first " ++ Itoa (blankSpan r) ++
                 " bytes are zero, and no signature matched anywhere in the " ++
                 Itoa (len (head r)) ++ " bytes read")
          end
      end
  end.

(** [Prober.Read]. *)
Definition Read (p : Prober) (dev : Device) : res failure Reading :=
  match p_cfgErr p with
  | Some e => Err (failed e)
  | None => r <-- read p dev;; Ok (reading_of r)
  end.

(** ** Slices *)

Lemma len_nonneg l : 0 <= len l.
Proof. unfold len. lia. Qed.

Lemma len_slice l off n : 0 <= off -> 0 <= n -> off + n <= len l -> len (slice l off n) = n.
Proof. unfold len, slice. intros. rewrite length_take, length_drop. lia. Qed.

Lemma slice_take l k off n : 0 <= off -> 0 <= n -> off + n <= k ->
  slice (take (Z.to_nat k) l) off n = slice l off n.
Proof.
  intros. unfold slice. rewrite skipn_firstn_comm, take_take. f_equal. lia.
Qed.

Lemma slice_slice l o m off n : 0 <= o -> 0 <= off -> 0 <= n -> off + n <= m ->
  slice (slice l o m) off n = slice l (o + off) n.
Proof.
  intros. change (slice l o m) with (take (Z.to_nat m) (drop (Z.to_nat o) l)).
  rewrite slice_take by lia. unfold slice. rewrite drop_drop. do 2 f_equal. lia.
Qed.

Lemma slice_from_0 l n : slice l 0 n = take (Z.to_nat n) l.
Proof. done. Qed.

Lemma slice_all l : slice l 0 (len l) = l.
Proof. unfold slice, len. rewrite drop_0, Nat2Z.id. apply firstn_all. Qed.

(** ** The windows of a device *)

(** The regions of a device that was read whole. *)
Definition whole (img : bytes) (lbs : Z) : regions :=
  mkRegions img [] (len img) (len img) lbs [] 0.

Lemma at_whole img lb off n :
  at_ (whole img lb) off n =
    if (off <? 0) || (n <=? 0) then None
    else if off + n <=? len img then Some (slice img off n) else None.
Proof. unfold at_. simpl. by repeat case_match. Qed.

(** Regions that hold the device's own bytes, and at least its first and its last [W]. *)
Record window (W : Z) (img : bytes) (r : regions) : Prop := {
  w_size : size r = len img;
  w_head : exists k, head r = slice img 0 k /\ 0 <= k <= len img /\ (W <= k \/ k = len img);
  w_tail : tail r = [] /\ len (head r) = len img \/
           tail r = slice img (tailAt r) (len img - tailAt r) /\ 0 <= tailAt r <= len img - W;
  w_grid : grid r = [] \/
           0 <= gridAt r /\ gridAt r + len (grid r) <= len img /\
           grid r = slice img (gridAt r) (len (grid r)) }.

(** An offset in the first [W] bytes, or in the last, or past the end. *)
Definition near_ends (W sz off n : Z) : Prop :=
  off < 0 \/ off + n <= W \/ sz - W <= off \/ sz < off + n.

Section Windows.

Context (W : Z) (img : bytes) (r : regions) (HW : 0 <= W) (Hr : window W img r).

Lemma window_head : exists k, head r = slice img 0 k /\ 0 <= k <= len img /\
  (W <= k \/ k = len img) /\ len (head r) = k.
Proof using Hr.
  destruct (w_head _ _ _ Hr) as (k & E & Hk & HWk). exists k. split_and!; try done; try lia.
  rewrite E. apply len_slice; lia.
Qed.

(** What is read at an offset is what the device holds there. *)
Lemma at_sound off n b : at_ r off n = Some b -> at_ (whole img (lbs r)) off n = Some b.
Proof using Hr HW.
  destruct window_head as (k & Ek & Hk & HWk & Hlen). rewrite at_whole. unfold at_.
  destruct ((off <? 0) || (n <=? 0)) eqn:E0; [done|]. apply orb_false_iff in E0 as [E0 E1].
  apply Z.ltb_ge in E0. apply Z.leb_gt in E1. rewrite Hlen.
  destruct (Z.leb_spec (off + n) k) as [Hin|Hout].
  { rewrite Ek, slice_slice by lia. intros [= <-]. by rewrite (proj2 (Z.leb_le _ _)) by lia. }
  destruct ((0 <? len (grid r)) && _ && _) eqn:Eg.
  { apply andb_true_iff in Eg as [[Eg1 Eg2]%andb_true_iff Eg3].
    apply Z.ltb_lt in Eg1. apply Z.leb_le in Eg2. apply Z.leb_le in Eg3.
    destruct (w_grid _ _ _ Hr) as [Hno|(Hg0 & Hg1 & Hg2)]; [by rewrite Hno in Eg1|].
    rewrite Hg2, slice_slice by lia. intros [= <-]. rewrite (proj2 (Z.leb_le _ _)) by lia.
    by replace (gridAt r + (off - gridAt r)) with off by lia. }
  destruct ((0 <? len (tail r)) && _ && _) eqn:Et; [|done].
  apply andb_true_iff in Et as [[Et1 Et2]%andb_true_iff Et3].
  apply Z.ltb_lt in Et1. apply Z.leb_le in Et2. apply Z.leb_le in Et3.
  destruct (w_tail _ _ _ Hr) as [[Hno _]|[Ht Hat]]; [by rewrite Hno in Et1|].
  assert (Hl : len (tail r) = len img - tailAt r) by (rewrite Ht; apply len_slice; lia).
  rewrite Hl in Et3. rewrite Ht, slice_slice by lia. intros [= <-].
  rewrite (proj2 (Z.leb_le _ _)) by lia. by replace (tailAt r + (off - tailAt r)) with off by lia.
Qed.

(** Near its ends, what the device holds is read. *)
Lemma at_window off n : near_ends W (len img) off n -> at_ r off n = at_ (whole img (lbs r)) off n.
Proof using Hr HW.
  intros Hnear. destruct (at_ r off n) as [b|] eqn:E; [symmetry; by apply at_sound|].
  symmetry. destruct window_head as (k & Ek & Hk & HWk & Hlen). rewrite at_whole.
  unfold at_ in E. destruct ((off <? 0) || (n <=? 0)) eqn:E0; [done|].
  apply orb_false_iff in E0 as [E0 E1]. apply Z.ltb_ge in E0. apply Z.leb_gt in E1.
  rewrite Hlen in E. destruct (Z.leb_spec (off + n) k) as [?|Hout]; [done|].
  destruct ((0 <? len (grid r)) && _ && _); [done|].
  destruct (Z.leb_spec (off + n) (len img)) as [Hin|]; [|done].
  destruct (w_tail _ _ _ Hr) as [[_ Hno]|[Ht Hat]]; [lia|].
  assert (Hl : len (tail r) = len img - tailAt r) by (rewrite Ht; apply len_slice; lia).
  rewrite Hl in E. destruct Hnear as [?|[?|[?|?]]]; try lia.
  rewrite (proj2 (Z.ltb_lt _ _)), (proj2 (Z.leb_le _ _)), (proj2 (Z.leb_le _ _)) in E by lia. done.
Qed.

Lemma eq_window off want : near_ends W (len img) off (len want) ->
  eq r off want = eq (whole img (lbs r)) off want.
Proof using Hr HW. intros H. unfold eq. by rewrite at_window. Qed.

Lemma eq_sound off want : eq r off want = true -> eq (whole img (lbs r)) off want = true.
Proof using Hr HW.
  unfold eq. destruct (at_ r off (len want)) as [b|] eqn:E; [|done].
  by rewrite (at_sound _ _ _ E).
Qed.

Lemma u16_window off : near_ends W (len img) off 2 -> u16 r off = u16 (whole img (lbs r)) off.
Proof using Hr HW. intros H. unfold u16. by rewrite at_window. Qed.
Lemma u32_window off : near_ends W (len img) off 4 -> u32 r off = u32 (whole img (lbs r)) off.
Proof using Hr HW. intros H. unfold u32. by rewrite at_window. Qed.
Lemma u64_window off : near_ends W (len img) off 8 -> u64 r off = u64 (whole img (lbs r)) off.
Proof using Hr HW. intros H. unfold u64. by rewrite at_window. Qed.
Lemma zeroSpan_window off n : near_ends W (len img) off n ->
  zeroSpan r off n = zeroSpan (whole img (lbs r)) off n.
Proof using Hr HW. intros H. unfold zeroSpan. by rewrite at_window. Qed.

End Windows.

(** ** What the windows miss *)

Ltac near :=
  try match goal with |- near_ends _ _ _ (len ?w) =>
    let v := eval vm_compute in (len w) in change (len w) with v end;
  unfold near_ends, extMagicOffset, extSuperblock, btrfsMagicOffset in *; lia.

(** Where the array metadata sits is within the last 128 KiB: for metadata 0.90, to the byte. *)
Lemma md_tail (sz off : Z) : 0 <= sz ->
  off ∈ (match md10 (mkRegions [] [] 0 sz 0 [] 0) with Some off => [off] | None => [] end ++
         match md090 (mkRegions [] [] 0 sz 0 [] 0) with Some off => [off] | None => [] end)%list ->
  sz - 131071 <= off /\ off + 12 <= sz.
Proof.
  intros Hsz. unfold md10, md090. cbn [size]. rewrite Z.quot_div_nonneg by lia.
  assert (H512 := Z.div_mod sz 512 ltac:(lia)). assert (Hm := Z.mod_pos_bound sz 512 ltac:(lia)).
  set (q := sz / 512) in *.
  assert (Hl : forall x k, 0 <= k -> Z.ldiff x (Z.ones k) = x - x mod 2 ^ k).
  { intros x k Hk. rewrite Z.ldiff_ones_r by done. rewrite Z.shiftl_mul_pow2, Z.shiftr_div_pow2 by done.
    assert (0 < 2 ^ k) by lia. assert (Hd := Z.div_mod x (2 ^ k) ltac:(lia)). lia. }
  assert (H7 := Hl (q - 16) 3 ltac:(lia)). assert (H127 := Hl q 7 ltac:(lia)).
  change (Z.ones 3) with 7 in H7. change (Z.ones 7) with 127 in H127. rewrite H7, H127.
  assert (B7 := Z.mod_pos_bound (q - 16) (2 ^ 3) ltac:(lia)).
  assert (B127 := Z.mod_pos_bound q (2 ^ 7) ltac:(lia)).
  change (2 ^ 3) with 8 in *. change (2 ^ 7) with 128 in *.
  clearbody q. clear Hl.
  destruct (Z.ltb_spec 16 q), (Z.ltb_spec 128 q); simpl; rewrite ?elem_of_cons, elem_of_nil;
    intros; destruct_or?; try done; subst; lia.
Qed.

(** Generic congruences. *)
Lemma first_of_ext {A B} (f g : A -> option B) l : (forall x, x ∈ l -> f x = g x) ->
  first_of f l = first_of g l.
Proof.
  induction l as [|x l IH]; simpl; intros H; [done|].
  rewrite (H x) by set_solver. rewrite IH by set_solver. done.
Qed.

Lemma find_ext {A} (p q : A -> bool) l : (forall x, x ∈ l -> p x = q x) -> List.find p l = List.find q l.
Proof.
  induction l as [|x l IH]; simpl; intros H; [done|].
  rewrite (H x) by set_solver. rewrite IH by set_solver. done.
Qed.

Lemma existsb_ext_in {A} (p q : A -> bool) l : (forall x, x ∈ l -> p x = q x) -> existsb p l = existsb q l.
Proof.
  induction l as [|x l IH]; simpl; intros H; [done|].
  rewrite (H x) by set_solver. rewrite IH by set_solver. done.
Qed.

Section Detectors.

Context (W : Z) (img : bytes) (r : regions).
Context (HW : MinRegionSize <= W) (Hr : window W img r) (Hlbs : lbs r <= 65536).

Abbreviation R := (whole img (lbs r)).

Lemma W_bound : 131072 <= W.
Proof using HW. exact HW. Qed.

Lemma at_win off n : near_ends W (len img) off n -> at_ r off n = at_ R off n.
Proof using HW Hr. intros H. assert (HW' := W_bound). apply (at_window W img r ltac:(lia) Hr off n H). Qed.

Lemma eq_win off want : near_ends W (len img) off (len want) -> eq r off want = eq R off want.
Proof using HW Hr. intros H. unfold eq. by rewrite at_win. Qed.
Lemma u16_win off : near_ends W (len img) off 2 -> u16 r off = u16 R off.
Proof using HW Hr. intros H. unfold u16. by rewrite at_win. Qed.
Lemma u32_win off : near_ends W (len img) off 4 -> u32 r off = u32 R off.
Proof using HW Hr. intros H. unfold u32. by rewrite at_win. Qed.
Lemma u64_win off : near_ends W (len img) off 8 -> u64 r off = u64 R off.
Proof using HW Hr. intros H. unfold u64. by rewrite at_win. Qed.
Lemma zero_win off n : near_ends W (len img) off n -> zeroSpan r off n = zeroSpan R off n.
Proof using HW Hr. intros H. unfold zeroSpan. by rewrite at_win. Qed.

Lemma same_size : size r = size R.
Proof using Hr. apply (w_size _ _ _ Hr). Qed.

(** Rewrites every question asked of the windows by the one asked of the device. *)
Ltac asks :=
  assert (HWb := W_bound);
  repeat first
    [ rewrite !eq_win by near | rewrite !u16_win by near | rewrite !u32_win by near
    | rewrite !u64_win by near | rewrite !zero_win by near | rewrite !at_win by near ].

Lemma extMember_window : extMember r = extMember R.
Proof using HW Hr. unfold extMember. by asks. Qed.

Lemma detectExt_window : detectExt r = detectExt R.
Proof using HW Hr. unfold detectExt. rewrite extMember_window. by asks. Qed.

Lemma detectXFS_window : detectXFS r = detectXFS R.
Proof using HW Hr. unfold detectXFS. by asks. Qed.

Lemma detectLVM2_window : detectLVM2 r = detectLVM2 R.
Proof using HW Hr. unfold detectLVM2, lvm_label. cbn [first_of]. by asks. Qed.

Lemma detectLUKS_window : detectLUKS r = detectLUKS R.
Proof using HW Hr. unfold detectLUKS. by asks. Qed.

Lemma detectGPT_window : detectGPT r = detectGPT R.
Proof using HW Hr Hlbs.
  unfold detectGPT. rewrite same_size. cbn [lbs size whole]. by asks.
Qed.

Lemma detectMBR_window : detectMBR r = detectMBR R.
Proof using HW Hr. unfold detectMBR. by asks. Qed.

Lemma validFATBPB_window : validFATBPB r = validFATBPB R.
Proof using HW Hr. unfold validFATBPB. by asks. Qed.

Lemma detectFAT_window : detectFAT r = detectFAT R.
Proof using HW Hr.
  unfold detectFAT. rewrite validFATBPB_window. unfold fatTypes. cbn [first_of fat_type]. by asks.
Qed.

Lemma detectExFAT_window : detectExFAT r = detectExFAT R.
Proof using HW Hr. unfold detectExFAT. by asks. Qed.

Lemma detectBtrfs_window : detectBtrfs r = detectBtrfs R.
Proof using HW Hr. unfold detectBtrfs. by asks. Qed.

Lemma detectSwap_window : detectSwap r = detectSwap R.
Proof using HW Hr.
  unfold detectSwap, swapPages. cbn [flat_map List.app first_of swap_signature]. by asks.
Qed.

Lemma detectAlceml_window : detectAlceml r = detectAlceml R.
Proof using HW Hr. unfold detectAlceml. by asks. Qed.

Lemma detectBcache_window : detectBcache r = detectBcache R.
Proof using HW Hr. unfold detectBcache. by asks. Qed.

Lemma md_same : md10 r = md10 R /\ md090 r = md090 R.
Proof using Hr. unfold md10, md090. by rewrite same_size. Qed.

Lemma md_near off n : 0 < n <= 12 -> off ∈ mdOffsets R -> near_ends W (len img) off n.
Proof using HW.
  intros Hn. assert (HWb := W_bound). unfold mdOffsets. intros [H|H]%elem_of_app.
  - unfold near_ends. set_unfold in H. lia.
  - unfold near_ends. apply (md_tail (len img)) in H; [lia|apply len_nonneg].
Qed.

Lemma md_candidates_offsets : map fst (md_candidates R) = mdOffsets R.
Proof using Type. unfold md_candidates, mdOffsets. by destruct (md10 R), (md090 R). Qed.

Lemma detectMDRaid_window : detectMDRaid r = detectMDRaid R.
Proof using HW Hr.
  unfold detectMDRaid.
  replace (md_candidates r) with (md_candidates R)
    by (unfold md_candidates; by destruct md_same as [-> ->]).
  apply first_of_ext. intros c Hc. rewrite eq_win; [done|].
  apply md_near; [by vm_compute|]. rewrite <- md_candidates_offsets.
  apply map_elem. by exists c.
Qed.

(** The labels of ZFS lie in the first half megabyte and the last. *)
Lemma detectZFS_window : 524288 <= W -> detectZFS r = detectZFS R.
Proof using HW Hr.
  intros HZ. unfold detectZFS. rewrite same_size. apply first_of_ext. intros s Hs.
  destruct (s <? 0) eqn:E; [done|]. apply first_of_ext. intros off Hoff.
  unfold uberblocks in Hoff. apply map_elem in Hoff as (i & -> & Hi).
  rewrite elem_of_seq in Hi. apply Z.ltb_ge in E.
  rewrite !eq_win; [done| |];
    (assert (HWb := W_bound); cbn [size whole] in Hs; set_unfold in Hs;
     unfold uberblockArray, labelSize in *; near).
Qed.

Lemma mdVersionAt_window off : off ∈ mdOffsets R -> mdVersionAt r off = mdVersionAt R off.
Proof using HW Hr.
  intros H. assert (HWb := W_bound). unfold mdVersionAt.
  assert (H12 := md_near off 12 ltac:(lia) H).
  rewrite !u32_win; [done| |]; unfold near_ends in *; lia.
Qed.

Lemma md_erased_window off : off ∈ mdOffsets R ->
  zeroSpan r off 4 && mdVersionAt r off = zeroSpan R off 4 && mdVersionAt R off.
Proof using HW Hr.
  intros H. rewrite mdVersionAt_window by done. rewrite zero_win; [done|]. apply md_near; [lia|done].
Qed.

Lemma mdOffsets_window : mdOffsets r = mdOffsets R.
Proof using Hr. unfold mdOffsets. by destruct md_same as [-> ->]. Qed.

Lemma mdErased_window : mdErased r = mdErased R.
Proof using HW Hr.
  unfold mdErased, first_erased. rewrite mdOffsets_window.
  by rewrite (find_ext _ _ _ md_erased_window).
Qed.

Lemma mdIntact_window : mdIntact r = mdIntact R.
Proof using HW Hr. unfold mdIntact. rewrite mdOffsets_window. apply existsb_ext_in, md_erased_window. Qed.

Lemma excised_window e : e ∈ excisions -> excised r e = excised R e.
Proof using HW Hr Hlbs.
  intros He. unfold excisions in He. set_unfold in He.
  destruct_or! He; subst e; unfold excised; cbn [x_erased x_intact x_member x_typ];
    unfold zeroedAt, extIntact, bcacheIntact, swapIntact, luksIntact, gptIntact, dosIntact,
      powerOfTwoBE, swapErased, fatErased, gptErased, first_erased, swapPages; cbn [map List.find];
    rewrite ?mdErased_window, ?mdIntact_window, ?extMember_window, ?validFATBPB_window;
    cbn [lbs whole]; asks; reflexivity.
Qed.

Lemma detectExcised_window : detectExcised r = detectExcised R.
Proof using HW Hr Hlbs. apply first_of_ext, excised_window. Qed.

End Detectors.

(** ** The first non-zero byte *)

Lemma code_range b : 0 <= code b < 256.
Proof. unfold code. assert (H := N_ascii_bounded b). lia. Qed.

Lemma low6_zero b : low6 b = 0 -> code b mod 64 = 0.
Proof. unfold low6. by rewrite (Z.land_ones _ 6) by lia. Qed.

(** Only a zero byte decodes to a zero rune: no other byte begins one, overlong or not. *)
Definition zero_chunk (k : Z * bytes) : Prop := k.1 = 0 -> exists b, k.2 = [b] /\ code b = 0.

Lemma wide_rune x y k : 0 < k -> 0 < x -> Z.lor (Z.shiftl x k) y <> 0.
Proof.
  intros Hk Hx H. apply Z.lor_eq_0_iff in H as [H _]. rewrite Z.shiftl_eq_0_iff in H by lia. lia.
Qed.

Lemma narrow_rune x y : 0 < y -> Z.lor x y <> 0.
Proof. intros Hy H. apply Z.lor_eq_0_iff in H as [_ H]. lia. Qed.

Ltac byte_bounds b :=
  let L := fresh "Hland" in
  assert (L : forall k, 0 <= k -> Z.land (code b) (Z.ones k) = code b mod 2 ^ k)
    by (intros; by apply Z.land_ones);
  assert (Z.land (code b) 31 = code b mod 32) by exact (L 5 ltac:(lia));
  assert (Z.land (code b) 15 = code b mod 16) by exact (L 4 ltac:(lia));
  assert (Z.land (code b) 7 = code b mod 8) by exact (L 3 ltac:(lia));
  assert (low6 b = code b mod 64) by exact (L 6 ltac:(lia)); clear L.

Lemma two_bytes b0 b1 : in_range 194 223 (code b0) = true ->
  Z.lor (Z.shiftl (Z.land (code b0) 31) 6) (low6 b1) <> 0.
Proof.
  unfold in_range. rewrite andb_true_iff, !Z.leb_le. intros H. byte_bounds b0.
  apply wide_rune; [lia|]. Z.to_euclidean_division_equations; lia.
Qed.

Lemma accept_low b0 b1 : accept b0 b1 = true -> code b0 = 224 \/ code b0 = 240 -> 0 < low6 b1.
Proof.
  unfold accept, in_range. byte_bounds b1. intros Ha [E|E]; rewrite E in Ha; simpl in Ha;
    rewrite andb_true_iff, !Z.leb_le in Ha; Z.to_euclidean_division_equations; lia.
Qed.

Lemma three_bytes b0 b1 b2 : in_range 224 239 (code b0) && accept b0 b1 && cont b2 = true ->
  Z.lor (Z.shiftl (Z.land (code b0) 15) 12) (Z.lor (Z.shiftl (low6 b1) 6) (low6 b2)) <> 0.
Proof.
  intros [[H Ha]%andb_true_iff _]%andb_true_iff. unfold in_range in H.
  rewrite andb_true_iff, !Z.leb_le in H. byte_bounds b0.
  destruct (Z.eq_dec (code b0) 224) as [E|E].
  - assert (Hl := accept_low b0 b1 Ha ltac:(lia)). apply narrow_rune.
    assert (H6 := wide_rune (low6 b1) (low6 b2) 6 ltac:(lia) Hl).
    assert (0 <= Z.lor (Z.shiftl (low6 b1) 6) (low6 b2)); [|lia].
    apply Z.lor_nonneg. split; [apply Z.shiftl_nonneg; lia|].
    unfold low6. apply Z.land_nonneg. lia.
  - apply wide_rune; [lia|]. Z.to_euclidean_division_equations; lia.
Qed.

Lemma four_bytes b0 b1 b2 b3 :
  in_range 240 244 (code b0) && accept b0 b1 && cont b2 && cont b3 = true ->
  Z.lor (Z.shiftl (Z.land (code b0) 7) 18)
    (Z.lor (Z.shiftl (low6 b1) 12) (Z.lor (Z.shiftl (low6 b2) 6) (low6 b3))) <> 0.
Proof.
  intros [[[H Ha]%andb_true_iff _]%andb_true_iff _]%andb_true_iff. unfold in_range in H.
  rewrite andb_true_iff, !Z.leb_le in H. byte_bounds b0.
  destruct (Z.eq_dec (code b0) 240) as [E|E].
  - assert (Hl := accept_low b0 b1 Ha ltac:(lia)).
    intros [_ Hz]%Z.lor_eq_0_iff. by apply wide_rune in Hz.
  - apply wide_rune; [lia|]. Z.to_euclidean_division_equations; lia.
Qed.

Lemma chunks_zero l : Forall zero_chunk (chunks l).
Proof.
  remember (length l) as n eqn:Hn. revert l Hn.
  induction (lt_wf n) as [n _ IH]. intros l ->.
  assert (IHl : forall k, (length k < length l)%nat -> Forall zero_chunk (chunks k))
    by (intros k Hk; by eapply IH).
  assert (Hbad : forall b, zero_chunk (RuneError, [b])) by done.
  destruct l as [|b0 l0]; [done|]. simpl.
  destruct (Z.ltb_spec (code b0) 128) as [Hb|Hb].
  { constructor; [intros H; by exists b0|]. apply IHl. simpl. lia. }
  destruct l0 as [|b1 l1]; [by constructor|].
  assert (H1 : Forall zero_chunk (chunks (b1 :: l1))) by (apply IHl; simpl; lia).
  destruct (in_range 194 223 (code b0) && accept b0 b1) eqn:E1.
  { apply andb_true_iff in E1 as [E1 _]. constructor; [|apply IHl; simpl; lia].
    intros H. by apply (two_bytes b0 b1) in E1. }
  destruct l1 as [|b2 l2]; [by constructor|].
  destruct (in_range 224 239 (code b0) && accept b0 b1 && cont b2) eqn:E2.
  { constructor; [|apply IHl; simpl; lia]. intros H. by apply three_bytes in E2. }
  destruct l2 as [|b3 l3]; [by constructor|].
  destruct (in_range 240 244 (code b0) && accept b0 b1 && cont b2 && cont b3) eqn:E3;
    [|by constructor].
  constructor; [|apply IHl; simpl; lia]. intros H. by apply four_bytes in E3.
Qed.

Lemma chunk_high k : chunk_ok k -> zero_chunk k -> nonZero k.1 = true ->
  exists b bs, k.2 = b :: bs /\ code b <> 0.
Proof.
  unfold nonZero. rewrite negb_true_iff, Z.eqb_neq.
  intros [(b & -> & Hb)|[Hne Hall]] _ H0; [by exists b, []|].
  destruct k.2 as [|b bs]; [done|]. exists b, bs. apply Forall_cons in Hall as [Hb _]. split; [done|]. lia.
Qed.

Lemma index_chunks cs o : Forall chunk_ok cs -> Forall zero_chunk cs ->
  match index_rune nonZero o cs with
  | Some off => exists pre b post, concat cs.*2 = (pre ++ b :: post)%list /\ o + len pre = off /\
      code b <> 0 /\ Forall (fun c => code c = 0) pre
  | None => Forall (fun c => code c = 0) (concat cs.*2)
  end.
Proof.
  revert o. induction cs as [|[c bs] cs IH]; intros o Hok Hz; [by constructor|].
  apply Forall_cons in Hok as [Hk Hok]. apply Forall_cons in Hz as [Hzk Hz].
  cbn [index_rune fmap list_fmap snd concat]. destruct (nonZero c) eqn:En.
  - destruct (chunk_high (c, bs) Hk Hzk En) as (b & bs' & E & Hb). simpl in E. subst bs.
    exists [], b, (bs' ++ concat cs.*2)%list. split_and!; try done. unfold len. simpl. lia.
  - unfold nonZero in En. apply negb_false_iff, Z.eqb_eq in En.
    destruct (Hzk En) as (b & E & Hb). simpl in E. subst bs.
    specialize (IH (o + len [b]) Hok Hz). destruct (index_rune _ _ _) as [off|].
    + destruct IH as (pre & b' & post & E & Hoff & Hb' & Hpre).
      exists (b :: pre), b', post. rewrite E. split_and!; try done; [|by constructor].
      unfold len in *. simpl in *. lia.
    + by constructor.
Qed.

(** [bytes.IndexFunc] looking for a rune that is not zero finds the first byte that is not. *)
Lemma IndexFunc_nonZero l :
  match IndexFunc l nonZero with
  | Some off => exists pre b post, l = (pre ++ b :: post)%list /\ len pre = off /\ code b <> 0 /\
                  Forall (fun c => code c = 0) pre
  | None => Forall (fun c => code c = 0) l
  end.
Proof.
  assert (H := index_chunks (chunks l) 0 (chunks_ok l) (chunks_zero l)).
  rewrite (chunks_concat l) in H. exact H.
Qed.

(** ** What a reading can say *)

Lemma first_of_Some {A B} (f : A -> option B) l y : first_of f l = Some y -> exists x, x ∈ l /\ f x = Some y.
Proof.
  induction l as [|x l IH]; simpl; [done|]. destruct (f x) as [z|] eqn:E.
  - intros [= <-]. exists x. split; [left|done].
  - intros (w & Hw & Ew)%IH. exists w. split; [by right|done].
Qed.

Lemma first_of_None {A B} (f : A -> option B) l : first_of f l = None <-> Forall (fun x => f x = None) l.
Proof.
  induction l as [|x l IH]; simpl; [by split|]. rewrite Forall_cons, <- IH.
  destruct (f x) as [y|]; [split; [done|by intros [? _]]|]. split; [done|by intros [_ ?]].
Qed.

Lemma choose_in f fs : choose f fs = f \/ choose f fs ∈ fs.
Proof.
  unfold choose. revert f. induction fs as [|g fs IH]; intros f; simpl; [by left|].
  destruct (IH (prefer f g)) as [->|H]; [|right; by right].
  unfold prefer. repeat case_match; auto; right; by left.
Qed.

(** What the catalog says a device carries. *)
Definition found_contents : list Content :=
  [ContentFilesystem; ContentStackLayer; ContentForeign; ContentSimplyblock].

Definition header_block (b : bytes) : bool :=
  HasPrefix b alcemlPageMagic ||
  (HasPrefix b alcemlUnmappedMagic && isZero (drop (length alcemlUnmappedMagic) b)).

Lemma page_header_spec off b :
  match page_header off b with
  | Some f => f_offset f = off /\ f_content f = ContentSimplyblock /\ header_block b = true
  | None => header_block b = false
  end.
Proof.
  unfold page_header, header_block. destruct (HasPrefix b alcemlPageMagic); [done|].
  by destruct (HasPrefix b alcemlUnmappedMagic && isZero _).
Qed.

Lemma page_headers_cons spanAt data off offs : page_headers spanAt data (off :: offs) =
  if negb ((spanAt + off) mod alcemlPageSize =? 0) then None
  else match page_header (spanAt + off) (slice data off alcemlPageSize) with
    | Some f => Some f
    | None => page_headers spanAt data offs
    end.
Proof. reflexivity. Qed.

Lemma page_headers_Some spanAt data offs f : page_headers spanAt data offs = Some f ->
  f_content f = ContentSimplyblock /\
  exists off, off ∈ offs /\ f_offset f = spanAt + off /\ (spanAt + off) mod alcemlPageSize = 0 /\
    header_block (slice data off alcemlPageSize) = true.
Proof.
  induction offs as [|off offs IH]; [done|]. rewrite page_headers_cons.
  destruct (Z.eqb_spec ((spanAt + off) mod alcemlPageSize) 0) as [Hm|]; [|done]. cbn [negb].
  assert (H := page_header_spec (spanAt + off) (slice data off alcemlPageSize)).
  destruct (page_header _ _) as [g|].
  - intros [= <-]. destruct H as (E & Ec & Hb). split; [done|]. exists off. split_and!; try done. left.
  - intros (Hc & o & Ho & Hr)%IH. split; [done|]. exists o. split; [by right|done].
Qed.

Lemma page_headers_None data offs : Forall (fun off => off mod alcemlPageSize = 0) offs ->
  page_headers 0 data offs = None -> Forall (fun off => header_block (slice data off alcemlPageSize) = false) offs.
Proof.
  induction offs as [|off offs IH]; intros Hm H; [done|]. apply Forall_cons in Hm as [Hm Hms].
  rewrite page_headers_cons, Z.add_0_l, Hm in H.
  assert (Hs := page_header_spec off (slice data off alcemlPageSize)).
  destruct (page_header _ _) as [g|]; [done|]. constructor; [done|]. by apply IH.
Qed.

Lemma detectors_content : Forall (fun d => forall r f, d r = Some f -> f_content f ∈ found_contents) detectors.
Proof.
  assert (Hif : forall (b : bool) (x f : find), f_content x ∈ found_contents ->
    (if b then Some x else None) = Some f -> f_content f ∈ found_contents) by (intros [] ???; naive_solver).
  assert (Hin : forall x, bool_decide (f_content x ∈ found_contents) = true -> f_content x ∈ found_contents)
    by (intros x; apply bool_decide_eq_true_1).
  unfold detectors. rewrite !Forall_cons. split_and!; [..|done]; intros r f H.
  - unfold detectExt in H. repeat case_match; try done. injection H as <-. by apply Hin.
  - by apply Hif in H; [|apply Hin].
  - apply first_of_Some in H as (i & _ & H). unfold lvm_label in H.
    repeat case_match; try done. injection H as <-. by apply Hin.
  - by apply Hif in H; [|apply Hin].
  - unfold detectGPT in H. repeat case_match; try done; injection H as <-; by apply Hin.
  - unfold detectMBR in H. repeat case_match; try done. injection H as <-. by apply Hin.
  - by apply Hif in H; [|apply Hin].
  - unfold detectFAT in H. case_match; [|done]. apply first_of_Some in H as ([[off want] name] & _ & H).
    unfold fat_type in H. repeat case_match; try done. injection H as <-. by apply Hin.
  - by apply Hif in H; [|apply Hin].
  - apply first_of_Some in H as ([pageSize want] & _ & H). unfold swap_signature in H.
    by apply Hif in H; [|apply Hin].
  - apply first_of_Some in H as (c & _ & H). by apply Hif in H; [|apply Hin].
  - apply first_of_Some in H as (s & _ & H). case_match; [done|].
    apply first_of_Some in H as (off & _ & H). by apply Hif in H; [|apply Hin].
  - by apply Hif in H; [|apply Hin].
  - unfold detectAlcemlPages in H. destruct (page_headers 0 _ _) as [g|] eqn:E.
    + injection H as <-. apply Hin. by rewrite (proj1 (page_headers_Some _ _ _ _ E)).
    + apply Hin. by rewrite (proj1 (page_headers_Some _ _ _ _ H)).
  - by apply Hif in H; [|apply Hin].
Qed.

Lemma detect_content r f : f ∈ detect r -> f_content f ∈ found_contents.
Proof.
  unfold detect. intros (d & Hd & E)%list_elem_of_omap.
  assert (H := detectors_content). rewrite Forall_forall in H. by eapply H.
Qed.

Lemma detectExcised_content r f : detectExcised r = Some f -> f_content f = ContentReleased.
Proof.
  intros (e & _ & H)%first_of_Some. unfold excised in H. destruct (x_erased e r) as [off gone].
  destruct (negb gone || negb (x_intact e r)); [done|]. by injection H as <-.
Qed.

(** The four ways a reading comes about. *)
Inductive read_as (r : regions) : Reading -> Prop :=
| read_found f typ detail : f ∈ detect r -> typ = f_typ f -> read_as r (mkReading (f_content f) typ detail)
| read_excised f : detect r = [] -> detectExcised r = Some f ->
    read_as r (mkReading ContentReleased (f_typ f) (f_detail f))
| read_nonzero off detail : detect r = [] -> detectExcised r = None -> firstNonZero r = Some off ->
    read_as r (mkReading ContentForeign "" detail)
| read_blank detail : detect r = [] -> detectExcised r = None -> firstNonZero r = None ->
    read_as r (mkReading ContentBlank "" detail).

Lemma reading_of_as r : read_as r (reading_of r).
Proof.
  unfold reading_of. destruct (detect r) as [|f finds] eqn:Ed.
  - destruct (detectExcised r) as [f|] eqn:Ee.
    + rewrite (detectExcised_content _ _ Ee). by apply read_excised.
    + destruct (firstNonZero r) as [off|] eqn:En; [by eapply read_nonzero|by apply read_blank].
  - apply read_found; [|done]. rewrite Ed.
    destruct (choose_in f finds) as [->|H]; [left|by right].
Qed.

Lemma reading_of_Blank r : rd_Content (reading_of r) = ContentBlank ->
  detect r = [] /\ detectExcised r = None /\ firstNonZero r = None.
Proof.
  destruct (reading_of_as r) as [f typ detail Hf _|f|off detail|detail]; cbn [rd_Content]; try done.
  intros E. apply detect_content in Hf. rewrite E in Hf. unfold found_contents in Hf. set_unfold in Hf. naive_solver.
Qed.

(** ** What a probe reads *)

(** A reader that reads a device's bytes: where it reports the whole count and no error, the
    buffer holds them. *)
Definition reads (rd : Reader) (img : bytes) : Prop :=
  forall off n buf, 0 <= off -> 0 <= n -> off + n <= len img -> rd off n = (n, buf, None) ->
  buf = slice img off n.

Lemma readAt_Ok rd off n b : readAt rd off n = Ok b -> 0 <= n /\ rd off n = (n, b, None).
Proof.
  unfold readAt. destruct (Z.ltb_spec n 0); [done|]. destruct (rd off n) as [[got buf] [e|]]; [done|].
  destruct (Z.eqb_spec got n) as [->|]; [|done]. by intros [= <-].
Qed.

Lemma readAt_slice rd img off n b : reads rd img -> 0 <= off -> off + n <= len img ->
  readAt rd off n = Ok b -> b = slice img off n.
Proof. intros Hr Ho Hn [Hp E]%readAt_Ok. by eapply Hr. Qed.

Lemma new_prober_region open opts : let p := NewProberWithOpener open opts in
  p_cfgErr p = None -> MinRegionSize <= p_regionSize p /\ 0 < p_timeout p.
Proof.
  unfold NewProberWithOpener. cbn zeta. set (q := foldl _ _ _).
  destruct (Z.ltb_spec (p_regionSize q) MinRegionSize); cbn [with_cfgErr p_timeout p_cfgErr];
    destruct (Z.leb_spec (p_timeout q) 0); cbn [with_cfgErr p_timeout p_cfgErr p_regionSize]; done.
Qed.

(** The head and tail of a device, and the window behind the head where it was read. *)
Lemma read_window p dev rd img r : p_open p dev = Ok rd -> reads rd img ->
  SizeBytes dev = len img -> len img <= int64_max -> 0 < p_regionSize p < 2 ^ 62 ->
  read p dev = Ok r ->
  window (p_regionSize p) img r /\
  lbs r = lbs_of dev /\
  (head r = img \/ 2 * p_regionSize p < len img /\ head r = slice img 0 (p_regionSize p)).
Proof.
  intros Ho Hr Hs Hmax HR E. set (R := p_regionSize p) in *. assert (Hl := len_nonneg img).
  assert (W2 : forall z, 0 <= z < 2 ^ 63 -> wrap64 z = z)
    by (intros z Hz; apply wrap64_id; unfold int64_min, int64_max; lia).
  unfold int64_max in Hmax. unfold read in E. destruct (Z.eqb_spec (SizeBytes dev) 0); [done|].
  rewrite Ho in E. fold R in E. rewrite Hs, !W2 in E by lia. destruct (Z.leb_spec (len img) (2 * R)).
  - destruct (readAt rd 0 (len img)) as [h|] eqn:Eh; [|done]. injection E as <-.
    apply (readAt_slice _ _ _ _ _ Hr) in Eh; [|lia..]. subst h. rewrite slice_all.
    split; [|split; [done|by left]]. constructor; simpl; auto.
    exists (len img). rewrite slice_all. split_and!; auto; lia.
  - destruct (readAt rd 0 R) as [h|] eqn:Eh; [|done].
    destruct (readAt rd (len img - R) R) as [t|] eqn:Et; [|done].
    apply (readAt_slice _ _ _ _ _ Hr) in Eh; [|lia..]. subst h.
    apply (readAt_slice _ _ _ _ _ Hr) in Et; [|lia..]. subst t.
    assert (Hwin : forall g ga, g = [] \/ 0 <= ga /\ ga + len g <= len img /\ g = slice img ga (len g) ->
      window R img (mkRegions (slice img 0 R) (slice img (len img - R) R) (len img - R) (len img)
        (lbs_of dev) g ga)).
    { intros g ga Hg. constructor; simpl; auto.
      - exists R. split_and!; auto; lia.
      - right. split; [f_equal; lia|lia]. }
    cbn zeta in E. rewrite ?W2 in E by lia. set (gridEnd := Z.min (R + R) (len img - R)) in *.
    assert (Hge : gridEnd <= len img - R) by lia. clearbody gridEnd.
    destruct (Z.leb_spec alcemlPageSize (gridEnd - R)) as [Hp|]; unfold alcemlPageSize in *.
    + destruct (readAt rd R (gridEnd - R)) as [g|] eqn:Eg; injection E as <-;
        (split; [apply Hwin|simpl; auto]); [|by left]. right.
      apply (readAt_slice _ _ _ _ _ Hr) in Eg; [|lia..]. subst g. rewrite len_slice by lia.
      split_and!; auto; lia.
    + injection E as <-. split; [apply Hwin; by left|simpl; auto].
Qed.

(** ** Page headers *)

(** A device holds a page header at an offset of its grid. *)
Definition page_at (img : bytes) (off : Z) : Prop :=
  0 <= off /\ off + alcemlPageSize <= len img /\ off mod alcemlPageSize = 0 /\
  header_block (slice img off alcemlPageSize) = true.

Lemma blocks_of_elem data off : off ∈ blocks_of data <->
  0 <= off /\ off mod alcemlPageSize = 0 /\ off + alcemlPageSize <= len data.
Proof.
  unfold blocks_of, alcemlPageSize. rewrite map_elem. assert (Hl := len_nonneg data).
  assert (Hd := Z.div_mod (len data) 4096 ltac:(lia)).
  assert (Hm := Z.mod_pos_bound (len data) 4096 ltac:(lia)).
  assert (Hq : 0 <= len data / 4096) by (apply Z.div_pos; lia). split.
  - intros (i & -> & Hi). apply elem_of_seq in Hi.
    rewrite Z.mul_comm, Z.mod_mul by lia. lia.
  - intros (H0 & H1 & H2). exists (Z.to_nat (off / 4096)).
    assert (Ho := Z.div_mod off 4096 ltac:(lia)). rewrite H1 in Ho.
    rewrite elem_of_seq. assert (0 <= off / 4096) by (apply Z.div_pos; lia). lia.
Qed.

(** A head with no header found holds none. *)
Lemma head_pages r off : detectAlcemlPages r = None -> ~ page_at (head r) off.
Proof.
  unfold detectAlcemlPages. destruct (page_headers 0 _ _) eqn:E; [done|]. intros _ (H0 & H1 & H2 & H3).
  apply page_headers_None in E.
  - rewrite Forall_forall in E. rewrite E in H3; [done|]. by apply blocks_of_elem.
  - rewrite Forall_forall. by intros x (_ & H & _)%blocks_of_elem.
Qed.

(** A header found in the windows is one the device holds. *)
Lemma pages_sound W img r f : 0 <= W -> window W img r -> detectAlcemlPages r = Some f ->
  page_at img (f_offset f).
Proof.
  intros HW Hr. unfold detectAlcemlPages.
  destruct (window_head W img r Hr) as (k & Ek & Hk & _ & Hlen).
  assert (Hps : alcemlPageSize = 4096) by done.
  destruct (page_headers 0 _ _) as [g|] eqn:E.
  - intros [= <-]. apply page_headers_Some in E as (_ & off & Hin & -> & Hm & Hb).
    apply blocks_of_elem in Hin as (H0 & _ & H1). rewrite Hlen in H1. rewrite Z.add_0_l in *.
    rewrite Ek, slice_slice, Z.add_0_l in Hb by lia. unfold page_at. split_and!; try done; lia.
  - intros H. apply page_headers_Some in H as (_ & off & Hin & -> & Hm & Hb).
    apply blocks_of_elem in Hin as (H0 & _ & H1).
    destruct (w_grid _ _ _ Hr) as [Hno|(Hg0 & Hg1 & Hg2)];
      [rewrite Hno in H1; unfold len in H1; simpl in H1; lia|].
    rewrite Hg2, slice_slice in Hb by lia. unfold page_at. split_and!; try done; lia.
Qed.

(** ** Zeroed devices *)

Definition all_zero (l : bytes) : Prop := Forall (fun c => code c = 0) l.

Lemma isZero_all l : isZero l = true <-> all_zero l.
Proof.
  unfold isZero, all_zero. 
  induction l as [|c l IH]; simpl; [by split|]. rewrite Forall_cons, andb_true_iff, Z.eqb_eq, IH. done.
Qed.

Lemma all_zero_slice l off n : all_zero l -> all_zero (slice l off n).
Proof. intros H. unfold slice. by apply Forall_take, Forall_drop. Qed.

Lemma little_zero l : all_zero l -> little l = 0.
Proof. intros H. induction H as [|c l Hc _ IH]; [done|]. cbn [little foldr]. fold (little l). by rewrite Hc, IH. Qed.

Lemma big_zero l : all_zero l -> big l = 0.
Proof.
  intros H. unfold big. assert (G : forall z, z = 0 -> foldl (fun z b => 256 * z + code b) z l = 0).
  { induction H as [|c l Hc _ IH]; intros z ->; [done|]. cbn [foldl]. apply IH. by rewrite Hc. }
  by apply G.
Qed.

Lemma nth_byte_zero l i : all_zero l -> nth_byte l i = 0.
Proof.
  intros H. unfold nth_byte. destruct (l !! i) as [c|] eqn:E; [|done].
  unfold all_zero in H. rewrite Forall_lookup in H. by apply H in E.
Qed.

(** Regions every byte of which is zero. *)
Definition zeroed (r : regions) : Prop := forall off n b, at_ r off n = Some b -> all_zero b.

Lemma whole_zeroed img lb : all_zero img -> zeroed (whole img lb).
Proof.
  intros H off n b. rewrite at_whole. repeat case_match; try done. intros [= <-]. by apply all_zero_slice.
Qed.

Section Zeroed.

Context (r : regions) (Hz : zeroed r).

Lemma zeroed_eq off want : isZero want = false -> eq r off want = false.
Proof using Hz.
  intros Hw. unfold eq. destruct (at_ r off (len want)) as [b|] eqn:E; [|done].
  apply bool_decide_eq_false. intros ->. apply Hz, isZero_all in E. congruence.
Qed.

Lemma zeroed_word n off : word (little <$> at_ r off n) = 0.
Proof using Hz.
  unfold word. destruct (at_ r off n) as [b|] eqn:E; [|done]. simpl. by eapply little_zero, Hz.
Qed.

Lemma zeroed_some n off v : little <$> at_ r off n = Some v -> v = 0.
Proof using Hz.
  destruct (at_ r off n) as [b|] eqn:E; [|done]. intros [= <-]. by eapply little_zero, Hz.
Qed.

Ltac not_here := rewrite zeroed_eq by (vm_compute; reflexivity).

Lemma zeroed_validFATBPB : validFATBPB r = false.
Proof using Hz. unfold validFATBPB. destruct (u16 r 11) eqn:E; [|done]. apply zeroed_some in E. by subst. Qed.

Lemma zeroed_table table : at_ r 446 64 = Some table -> used_entry table = false.
Proof using Hz.
  intros H%Hz. unfold used_entry. cbn [existsb]. by rewrite !(nth_byte_zero _ _ H).
Qed.

Lemma zeroed_md off : mdVersionAt r off = false.
Proof using Hz.
  unfold mdVersionAt. destruct (u32 r (off + 4)) as [m|] eqn:E; [|done]. apply zeroed_some in E. subst m.
  destruct (u32 r (off + 8)) as [m|] eqn:E; [|done]. apply zeroed_some in E. by subst m.
Qed.

(** Nothing of the catalog is at a fixed place of a zeroed device. *)
Lemma zeroed_detectors : Forall (fun d => d r = None)
  [detectExt; detectXFS; detectLVM2; detectLUKS; detectGPT; detectMBR; detectExFAT; detectFAT;
   detectBtrfs; detectSwap; detectMDRaid; detectZFS; detectAlceml; detectBcache].
Proof using Hz.
  rewrite !Forall_cons. split_and!; [..|done].
  - unfold detectExt. destruct (u16 r extMagicOffset) as [m|] eqn:E; [|done]. apply zeroed_some in E. by subst m.
  - unfold detectXFS. by not_here.
  - apply first_of_None, Forall_forall. intros i _. unfold lvm_label. by not_here.
  - unfold detectLUKS. by not_here.
  - unfold detectGPT. not_here. not_here. by rewrite andb_false_r.
  - unfold detectMBR. by not_here.
  - unfold detectExFAT. by not_here.
  - unfold detectFAT. by rewrite zeroed_validFATBPB.
  - unfold detectBtrfs. by not_here.
  - apply first_of_None. unfold swapPages. cbn [flat_map List.app]. rewrite !Forall_cons.
    unfold swap_signature. split_and!; [..|done]; by not_here.
  - apply first_of_None, Forall_forall. intros c _. by not_here.
  - apply first_of_None, Forall_forall. intros s _. destruct (s <? 0); [done|].
    apply first_of_None, Forall_forall. intros off _. not_here. by not_here.
  - unfold detectAlceml. by not_here.
  - unfold detectBcache. by not_here.
Qed.

Lemma zeroed_excised :
  (zeroSpan r btrfsMagicOffset 8 = true -> zeroSpan r 65536 32 = true) -> detectExcised r = None.
Proof using Hz.
  intros Hbtrfs.
  apply first_of_None. unfold excisions.
  assert (G : forall e, x_intact e r = false -> excised r e = None).
  { intros e H. unfold excised. rewrite H. destruct (x_erased e r). by rewrite orb_true_r. }
  rewrite !Forall_cons. split_and!; [..|done].
  3: { unfold excised. cbn [x_erased x_intact x_member x_typ zeroedAt].
       destruct (zeroSpan r btrfsMagicOffset 8); [|done]. by rewrite Hbtrfs. }
  all: apply G; cbn [x_intact].
  - unfold extIntact. repeat case_match; try done. apply zeroed_some in H. by subst.
  - unfold powerOfTwoBE. destruct (at_ r 4 4) as [b|] eqn:E; [|done]. apply Hz in E. by rewrite (big_zero _ E).
  - unfold bcacheIntact. destruct (u64 r _) as [o|] eqn:E; [|done]. apply zeroed_some in E. by subst o.
  - unfold swapIntact. repeat case_match; try done. apply zeroed_some in H. by subst.
  - by not_here.
  - unfold luksIntact. destruct (at_ r 6 2) as [b|] eqn:E; [|done]. apply Hz in E. by rewrite (big_zero _ E).
  - by not_here.
  - apply zeroed_validFATBPB.
  - unfold gptIntact. destruct (at_ r _ 1) as [b|] eqn:E; [|done]. apply Hz in E. by rewrite (nth_byte_zero _ _ E).
  - unfold dosIntact. destruct (at_ r 446 64) as [t|] eqn:E; [|done]. by apply zeroed_table.
  - unfold mdIntact.
    assert (X : forall l, existsb (fun off => zeroSpan r off 4 && mdVersionAt r off) l = false)
      by (induction l as [|o l IH]; simpl; [done|]; by rewrite zeroed_md, andb_false_r). apply X.
Qed.

End Zeroed.

Lemma zeroSpan_within img lb o n o' n' : all_zero img -> 0 <= o' -> 0 < n' -> o' + n' <= o + n ->
  zeroSpan (whole img lb) o n = true -> zeroSpan (whole img lb) o' n' = true.
Proof.
  intros H Ho' Hn' Hin. unfold zeroSpan. rewrite !at_whole.
  destruct ((o <? 0) || (n <=? 0)); [done|]. destruct (Z.leb_spec (o + n) (len img)); [|done]. intros _.
  rewrite (proj2 (Z.ltb_ge _ _)), (proj2 (Z.leb_gt _ _)), (proj2 (Z.leb_le _ _)) by lia.
  cbn [orb]. by apply isZero_all, all_zero_slice.
Qed.

Lemma whole_excised img lb : all_zero img -> detectExcised (whole img lb) = None.
Proof.
  intros H. apply zeroed_excised; [by apply whole_zeroed|].
  apply (zeroSpan_within _ _ _ _ _ _ H); unfold btrfsMagicOffset; lia.
Qed.

Lemma zero_header b : all_zero b -> header_block b = false.
Proof.
  intros Hz.
  assert (Hno : forall w, all_zero w \/ HasPrefix b w = false).
  { intros w. unfold HasPrefix. destruct (decide (w `prefix_of` b)) as [[k ->]|Hw].
    - left. by apply Forall_app in Hz as [? _].
    - right. by apply bool_decide_eq_false. }
  unfold header_block.
  destruct (Hno alcemlPageMagic) as [H| ->]; [by apply isZero_all in H; vm_compute in H|].
  destruct (Hno alcemlUnmappedMagic) as [H| ->]; [by apply isZero_all in H; vm_compute in H|done].
Qed.

Lemma zero_page img off : all_zero img -> ~ page_at img off.
Proof.
  intros H (_ & _ & _ & Hb). rewrite zero_header in Hb; [done|]. by apply all_zero_slice.
Qed.

(** ** What a reading promises *)

(** The detectors whose signatures sit at places the format fixes. *)
Definition placed_detectors : list (regions -> option find) :=
  [detectExt; detectXFS; detectLVM2; detectLUKS; detectGPT; detectMBR; detectExFAT; detectFAT;
   detectBtrfs; detectSwap; detectMDRaid; detectAlceml; detectBcache].

Lemma catalog_parts r : detect r = [] <->
  Forall (fun d => d r = None) placed_detectors /\ detectZFS r = None /\ detectAlcemlPages r = None.
Proof.
  unfold detect. rewrite omap_nil, <- Forall_forall. unfold detectors, placed_detectors.
  rewrite !Forall_cons. tauto.
Qed.

Lemma placed_window W img r : MinRegionSize <= W -> window W img r -> lbs r <= 65536 ->
  Forall (fun d => d r = d (whole img (lbs r))) placed_detectors.
Proof.
  intros HW Hr Hl. unfold placed_detectors. rewrite !Forall_cons. split_and!; [..|done].
  - by eapply detectExt_window.
  - by eapply detectXFS_window.
  - by eapply detectLVM2_window.
  - by eapply detectLUKS_window.
  - by eapply detectGPT_window.
  - by eapply detectMBR_window.
  - by eapply detectExFAT_window.
  - by eapply detectFAT_window.
  - by eapply detectBtrfs_window.
  - by eapply detectSwap_window.
  - by eapply detectMDRaid_window.
  - by eapply detectAlceml_window.
  - by eapply detectBcache_window.
Qed.

(** A device a prober opens and reads, whose bytes are those of an image. *)
Record probed (p : Prober) (dev : Device) (rd : Reader) (img : bytes) : Prop := {
  pb_open : p_open p dev = Ok rd;
  pb_reads : reads rd img;
  pb_size : SizeBytes dev = len img;
  pb_max : len img <= int64_max;
  pb_block : LogicalBlockSize dev <= 65536 }.

Lemma probed_window open opts dev rd img r : let p := NewProberWithOpener open opts in
  p_cfgErr p = None -> p_regionSize p < 2 ^ 62 -> probed p dev rd img -> read p dev = Ok r ->
  window (p_regionSize p) img r /\ MinRegionSize <= p_regionSize p /\ lbs r = lbs_of dev /\
  lbs r <= 65536 /\
  (head r = img \/ 2 * p_regionSize p < len img /\ head r = slice img 0 (p_regionSize p)).
Proof.
  intros p Hc HR [Ho Hr Hs Hm Hb] E. destruct (new_prober_region open opts Hc) as [Hmin _]. fold p in Hmin.
  assert (Hpos : 0 < MinRegionSize) by done.
  destruct (read_window p dev rd img r Ho Hr Hs Hm ltac:(lia) E) as (Hw & Hl & Hh).
  split_and!; try done. rewrite Hl. unfold lbs_of. destruct (LogicalBlockSize dev <=? 0); lia.
Qed.

(** C26. Two windows see the whole device: at every region size a prober may be made with, each
    detector of a fixed place answers on what was read as it would on every byte of the
    device, and so does the search for an erased signature; the vdev labels are seen so from
    half a megabyte up; and a page header found is one the device holds. *)
Theorem probe_sees_the_device open opts dev rd img r
    (Hcfg : p_cfgErr (NewProberWithOpener open opts) = None)
    (HR : p_regionSize (NewProberWithOpener open opts) < 2 ^ 62)
    (Hdev : probed (NewProberWithOpener open opts) dev rd img)
    (Hread : read (NewProberWithOpener open opts) dev = Ok r) :
  let device := whole img (lbs_of dev) in
  Forall (fun d => d r = d device) placed_detectors /\
  detectExcised r = detectExcised device /\
  (524288 <= p_regionSize (NewProberWithOpener open opts) -> detectZFS r = detectZFS device) /\
  (forall f, detectAlcemlPages r = Some f -> page_at img (f_offset f)).
Proof.
  destruct (probed_window open opts dev rd img r Hcfg HR Hdev Hread) as (Hw & Hmin & El & Hl & _).
  cbn zeta. rewrite <- El. split_and!.
  - by eapply placed_window.
  - by eapply detectExcised_window.
  - intros HZ. by eapply detectZFS_window.
  - intros f. assert (0 < MinRegionSize) by done. eapply pages_sound; [|done]. lia.
Qed.

Lemma blank_bytes_image p img r : window p img r -> 0 < p -> firstNonZero r = None ->
  (head r = img \/ 2 * p < len img /\ head r = slice img 0 p) -> MinRegionSize <= p ->
  Forall (fun c => code c = 0) (take (Z.to_nat BlankHeadSize) img) /\
  (head r = img -> Forall (fun c => code c = 0) img).
Proof.
  intros Hw Hp Hn Hh Hmin. assert (H := IndexFunc_nonZero (blank_bytes r)).
  unfold firstNonZero in Hn. rewrite Hn in H. assert (Hs := w_size _ _ _ Hw).
  unfold blank_bytes in H. rewrite Hs in H. destruct Hh as [E|[Hlt E]].
  - rewrite E, Z.ltb_irrefl in H. split; [|done]. by apply Forall_take.
  - assert (Hlen : len (head r) = p) by (rewrite E; apply len_slice; lia).
    rewrite Hlen, (proj2 (Z.ltb_lt p (len img))) in H by lia.
    assert (Hb : BlankHeadSize < p)
      by (apply (Z.lt_le_trans _ MinRegionSize); [by vm_compute|done]).
    rewrite (proj2 (Z.ltb_lt _ _) Hb) in H. cbn [andb] in H. rewrite E in H.
    unfold slice in H. rewrite drop_0, take_take in H. split.
    + replace (Z.to_nat BlankHeadSize `min` Z.to_nat p)%nat with (Z.to_nat BlankHeadSize) in H; [done|].
      apply Z2Nat.inj_lt in Hb; [lia|by vm_compute|lia].
    + intros E'. rewrite E' in Hlen. lia.
Qed.

(** What is known of a device of these bytes that reads blank, in regions of a length and blocks
    of a length. *)
Definition shows_nothing (R block : Z) (img : bytes) : Prop :=
  let device := whole img block in
  Forall (fun c => code c = 0) (take (Z.to_nat BlankHeadSize) img) /\
  (len img <= 2 * R -> Forall (fun c => code c = 0) img) /\
  Forall (fun d => d device = None) placed_detectors /\ detectExcised device = None /\
  (524288 <= R -> detectZFS device = None) /\
  (forall off, off + alcemlPageSize <= Z.min R (len img) -> ~ page_at img off).

Lemma blank_shows_nothing open opts dev rd img x :
  let p := NewProberWithOpener open opts in
  p_regionSize p < 2 ^ 62 -> probed p dev rd img -> Read p dev = Ok x ->
  rd_Content x = ContentBlank -> shows_nothing (p_regionSize p) (lbs_of dev) img.
Proof.
  intros p HR Hdev Hread Hblank. unfold shows_nothing. cbn zeta. unfold Read in Hread.
  destruct (p_cfgErr p) eqn:Hc; [done|]. destruct (read p dev) as [r|] eqn:E; [|done].
  injection Hread as <-. apply reading_of_Blank in Hblank as (Hd & He & Hn).
  destruct (probed_window open opts dev rd img r Hc HR Hdev E) as (Hw & Hmin & El & Hl & Hh).
  fold p in Hw, Hmin, Hh. assert (Hp : 0 < p_regionSize p) by (assert (0 < MinRegionSize) by done; lia).
  apply catalog_parts in Hd as (Hd & Hz & Hpg). rewrite <- El.
  destruct (blank_bytes_image _ _ _ Hw Hp Hn Hh Hmin) as [Hfirst Hall]. split_and!.
  - done.
  - intros Hsmall. apply Hall. destruct Hh as [?|[? _]]; [done|lia].
  - assert (Hsame := placed_window _ _ _ Hmin Hw Hl). rewrite Forall_forall in Hd, Hsame |- *.
    intros d Hin. rewrite <- Hsame by done. by apply Hd.
  - by erewrite <- detectExcised_window.
  - intros HZ. by erewrite <- detectZFS_window.
  - intros off Hoff Hpage. apply (head_pages r off Hpg). destruct Hh as [->|[Hlt ->]]; [done|].
    destruct Hpage as (H0 & H1 & H2 & H3). unfold alcemlPageSize in Hoff, H1.
    split; [exact H0|]. split; [rewrite len_slice by lia; unfold alcemlPageSize; lia|].
    split; [exact H2|]. rewrite slice_slice, Z.add_0_l by (unfold alcemlPageSize; lia). exact H3.
Qed.

(** C12. A blank reading is evidence: the first block of the device is zero, and every byte of a
    device read whole; no format of the catalog sits at its fixed place anywhere on the
    device, and no erased one does; and no page header stands within the head. *)
Theorem blank_reading_is_evidence open opts dev rd img x
    (HR : p_regionSize (NewProberWithOpener open opts) < 2 ^ 62)
    (Hdev : probed (NewProberWithOpener open opts) dev rd img)
    (Hread : Read (NewProberWithOpener open opts) dev = Ok x) (Hblank : rd_Content x = ContentBlank) :
  let R := p_regionSize (NewProberWithOpener open opts) in
  let device := whole img (lbs_of dev) in
  Forall (fun c => code c = 0) (take (Z.to_nat BlankHeadSize) img) /\
  (len img <= 2 * R -> Forall (fun c => code c = 0) img) /\
  Forall (fun d => d device = None) placed_detectors /\ detectExcised device = None /\
  (524288 <= R -> detectZFS device = None) /\
  (forall off, off + alcemlPageSize <= Z.min R (len img) -> ~ page_at img off).
Proof. cbn zeta. by apply (blank_shows_nothing open opts dev rd img x). Qed.

(** What a read that succeeded took: an open device, a size, and every byte of each end. *)
Lemma read_took p dev r : read p dev = Ok r -> SizeBytes dev <> 0 /\ exists rd, p_open p dev = Ok rd /\
  let size := wrap64 (SizeBytes dev) in
  if size <=? wrap64 (2 * p_regionSize p)
  then exists h, rd 0 size = (size, h, None)
  else (exists h, rd 0 (p_regionSize p) = (p_regionSize p, h, None)) /\
       exists t, rd (size - p_regionSize p) (p_regionSize p) = (p_regionSize p, t, None).
Proof.
  unfold read. destruct (Z.eqb_spec (SizeBytes dev) 0) as [|Hs]; [done|]. intros H. split; [done|].
  destruct (p_open p dev) as [rd|]; [|done]. exists rd. split; [done|]. cbn zeta in *.
  destruct (wrap64 (SizeBytes dev) <=? wrap64 (2 * p_regionSize p)).
  - destruct (readAt rd 0 _) as [h|] eqn:E; [|done]. apply readAt_Ok in E as [_ E]. by exists h.
  - destruct (readAt rd 0 _) as [h|] eqn:E; [|done]. apply readAt_Ok in E as [_ E].
    destruct (readAt rd (_ - _) _) as [t|] eqn:E'; [|done]. apply readAt_Ok in E' as [_ E'].
    split; [by exists h|by exists t].
Qed.

Lemma reading_of_known r : rd_Content (reading_of r) <> ContentUnknown.
Proof.
  destruct (reading_of_as r) as [f typ detail Hf _|f|off detail|detail]; try done.
  cbn [rd_Content]. intros E. apply detect_content in Hf. rewrite E in Hf. unfold found_contents in Hf.
  set_unfold in Hf. naive_solver.
Qed.

(** A reader that reads all of a device: every read within it returns its bytes in full. *)
Definition reads_all (rd : Reader) (img : bytes) : Prop :=
  forall off n, 0 <= off -> 0 <= n -> off + n <= len img -> rd off n = (n, slice img off n, None).

Lemma reads_all_reads rd img : reads_all rd img -> reads rd img.
Proof. intros H off n buf Ho Hn Hin E. rewrite H in E by done. by injection E. Qed.

Lemma readAt_all rd img off n : reads_all rd img -> 0 <= off -> 0 <= n -> off + n <= len img ->
  readAt rd off n = Ok (slice img off n).
Proof.
  intros H Ho Hn Hin. unfold readAt. rewrite (proj2 (Z.ltb_ge _ _)) by done.
  rewrite H by done. by rewrite Z.eqb_refl.
Qed.

Lemma read_total p dev rd img : p_open p dev = Ok rd -> reads_all rd img ->
  SizeBytes dev = len img -> 0 < len img <= int64_max -> 0 < p_regionSize p < 2 ^ 62 ->
  is_Ok (read p dev) = true.
Proof.
  intros Ho Hr Hs Hm HR. unfold read. rewrite (proj2 (Z.eqb_neq _ _)), Ho by lia. cbn zeta.
  unfold int64_max in Hm. rewrite Hs, !wrap64_id by (unfold int64_min, int64_max; lia).
  destruct (Z.leb_spec (len img) (2 * p_regionSize p)).
  - by rewrite (readAt_all _ _ _ _ Hr) by lia.
  - rewrite !(readAt_all _ _ _ _ Hr) by lia. by repeat case_match.
Qed.

Lemma zero_first r : all_zero (head r) -> firstNonZero r = None.
Proof.
  intros Hz. assert (H := IndexFunc_nonZero (blank_bytes r)). unfold firstNonZero.
  destruct (IndexFunc (blank_bytes r) nonZero) as [off|]; [|done].
  destruct H as (pre & b & post & Eb & _ & Hb & _). exfalso. apply Hb.
  assert (Hbz : all_zero (blank_bytes r))
    by (unfold blank_bytes; destruct (_ && _); [by apply Forall_take|done]).
  rewrite Eb in Hbz. apply Forall_app in Hbz as [_ Hbz]. by apply Forall_cons in Hbz as [? _].
Qed.

Lemma zeroed_catalog W img r : MinRegionSize <= W -> window W img r -> lbs r <= 65536 ->
  all_zero img -> detect r = [] /\ detectExcised r = None.
Proof.
  intros HW Hw Hb Hz. assert (H0 : 0 < MinRegionSize) by done.
  assert (Hzr : zeroed r).
  { intros off n b Hat. apply (at_sound W img r ltac:(lia) Hw) in Hat. by eapply whole_zeroed. }
  split.
  - assert (Hzd := zeroed_detectors r Hzr). rewrite !Forall_cons in Hzd.
    apply catalog_parts. unfold placed_detectors. rewrite !Forall_cons. split_and!; try tauto.
    destruct (detectAlcemlPages r) as [f|] eqn:Ep; [|done].
    apply (pages_sound W img r f ltac:(lia) Hw), zero_page in Ep; done.
  - erewrite detectExcised_window; [|exact HW|exact Hw|done]. by apply whole_excised.
Qed.

(** A zeroed device is free: where every byte of a device is zero and it can be read, a probe
    says it is blank, and of no format, whatever its size and its block size. *)
Theorem zeroed_device_reads_blank open opts dev rd img
    (Hcfg : p_cfgErr (NewProberWithOpener open opts) = None)
    (HR : p_regionSize (NewProberWithOpener open opts) < 2 ^ 62)
    (Hdev : probed (NewProberWithOpener open opts) dev rd img)
    (Hall : reads_all rd img) (Hsize : img <> []) (Hzero : Forall (fun c => code c = 0) img) :
  exists detail, Read (NewProberWithOpener open opts) dev = Ok (mkReading ContentBlank "" detail).
Proof.
  set (p := NewProberWithOpener open opts) in *. unfold Read. rewrite Hcfg.
  destruct (new_prober_region open opts Hcfg) as [Hmin _]. fold p in Hmin.
  assert (H0 : 0 < MinRegionSize) by done.
  assert (Hl : 0 < len img) by (destruct img; [done|unfold len; simpl; lia]).
  assert (Hok := read_total p dev rd img (pb_open _ _ _ _ Hdev) Hall (pb_size _ _ _ _ Hdev)
    (conj Hl (pb_max _ _ _ _ Hdev)) ltac:(lia)).
  destruct (read p dev) as [r|] eqn:E; [|done]. clear Hok.
  destruct (probed_window open opts dev rd img r Hcfg HR Hdev E) as (Hw & _ & El & Hb & Hh).
  destruct (zeroed_catalog _ _ _ Hmin Hw Hb Hzero) as [Hd He].
  assert (Hn : firstNonZero r = None).
  { apply zero_first. destruct Hh as [-> |[_ ->]]; [done|by apply all_zero_slice]. }
  eexists. unfold reading_of. by rewrite Hd, He, Hn.
Qed.

(** C28. A failed read is no reading: where a probe answers, the prober may be used, the device
    was opened and states a size, every byte of both ends came back in full and without an
    error, and what the reading says is established.  In every other case the answer is an
    error, so nothing that could not be read reads as blank. *)
Theorem reading_took_every_byte p dev x (Hread : Read p dev = Ok x) :
  p_cfgErr p = None /\ SizeBytes dev <> 0 /\ rd_Content x <> ContentUnknown /\
  exists rd, p_open p dev = Ok rd /\
    let size := wrap64 (SizeBytes dev) in
    let R := p_regionSize p in
    if size <=? wrap64 (2 * R)
    then exists h, rd 0 size = (size, h, None)
    else (exists h, rd 0 R = (R, h, None)) /\ exists t, rd (size - R) R = (R, t, None).
Proof.
  unfold Read in Hread. destruct (p_cfgErr p); [done|]. destruct (read p dev) as [r|] eqn:E; [|done].
  injection Hread as <-. apply read_took in E as [Hs H]. split_and!; try done.
  apply reading_of_known.
Qed.

(** ** Which find is reported *)

(** Without a GPT and an MBR on the same device, the lowest offset wins, the first of equals. *)
Lemma prefer_lowest f g : (f_typ f <> "gpt" \/ f_typ g <> "dos") -> (f_typ g <> "gpt" \/ f_typ f <> "dos") ->
  prefer f g = if f_offset g <? f_offset f then g else f.
Proof.
  intros H1 H2. unfold prefer.
  destruct (String.eqb_spec (f_typ g) "gpt"), (String.eqb_spec (f_typ f) "dos"); simpl; try naive_solver;
  destruct (String.eqb_spec (f_typ f) "gpt"), (String.eqb_spec (f_typ g) "dos"); simpl; naive_solver.
Qed.

Lemma choose_lowest f fs : (forall x y, x ∈ f :: fs -> y ∈ f :: fs -> f_typ x <> "gpt" \/ f_typ y <> "dos") ->
  forall g, g ∈ f :: fs -> f_offset (choose f fs) <= f_offset g.
Proof.
  unfold choose. revert f. induction fs as [|g fs IH]; intros f Hno x Hx; simpl.
  - set_unfold in Hx. destruct Hx as [->|]; [lia|done].
  - rewrite prefer_lowest by (apply Hno; set_solver).
    assert (Hp : forall h, h = f \/ h = g -> forall x y, x ∈ h :: fs -> y ∈ h :: fs ->
      f_typ x <> "gpt" \/ f_typ y <> "dos") by (intros h [-> | ->] a b Ha Hb; apply Hno; set_solver).
    destruct (Z.ltb_spec (f_offset g) (f_offset f)).
    + specialize (IH g (Hp g ltac:(by right))). assert (Hg := IH g ltac:(left)).
      apply elem_of_cons in Hx as [->|[->|Hx]%elem_of_cons]; [lia|done|apply IH; by right].
    + specialize (IH f (Hp f ltac:(by left))). assert (Hf := IH f ltac:(left)).
      apply elem_of_cons in Hx as [->|[->|Hx]%elem_of_cons]; [done|lia|apply IH; by right].
Qed.

(** Which find wins depends on the order of the catalog: on a disk of 4096-byte blocks with a
    GPT at 4096, its protective MBR at 446 and an ext superblock left at 1024, the catalog's
    order reports the MBR, although a GPT is there, and another order the ext superblock. *)
Lemma choose_depends_on_order :
  let ext := mkFind ContentFilesystem "ext4" 1080 "" in
  let gpt := mkFind ContentForeign "gpt" 4096 "" in
  let dos := mkFind ContentForeign "dos" 446 "" in
  choose ext [gpt; dos] = dos /\ choose gpt [dos; ext] = ext /\ choose dos [gpt] = gpt.
Proof. eval_eq. Qed.

(** ** Devices probed *)

(** A device of the bytes given, read on this host. *)
Definition local (img : bytes) : Opener := fun _ => Ok (fun off n => (n, slice img off n, None)).

Definition disk_of (n block : Z) : Device :=
  mkBlockDevice "/dev/vdb" "vdb" 252 16 block block None None n false.

Lemma local_all img dev rd : local img dev = Ok rd -> reads_all rd img.
Proof. by intros [= <-]. Qed.

Lemma local_probed img n block opts : n = len img -> len img <= int64_max -> block <= 65536 ->
  p_open (NewProberWithOpener (local img) opts) (disk_of n block) =
    Ok (fun off n => (n, slice img off n, None)) ->
  probed (NewProberWithOpener (local img) opts) (disk_of n block)
    (fun off n => (n, slice img off n, None)) img.
Proof. intros Hn Hm Hb Ho. constructor; try done. by apply reads_all_reads. Qed.

Definition zeros (n : nat) : bytes := repeat (byte 0) n.

(** A sector that begins as an XFS filesystem does. *)
Definition xfs_image : bytes := (to_bytes "XFSB" ++ zeros 508)%list.

Lemma probe_sees_the_device_witness :
  Forall (fun d => d (whole xfs_image 512) = d (whole xfs_image 512)) placed_detectors.
Proof.
  refine (proj1 (probe_sees_the_device (local xfs_image) [] (disk_of 512 512)
    (fun off n => (n, slice xfs_image off n, None)) xfs_image (whole xfs_image 512) _ _ _ _)).
  - vm_compute. reflexivity.
  - vm_compute. reflexivity.
  - apply local_probed; vm_compute; first [reflexivity|discriminate].
  - vm_compute. reflexivity.
Defined.

Definition zero_reading : Reading :=
  mkReading ContentBlank ""
    "the first 512 bytes are zero, and no signature matched anywhere in the 512 bytes read".

Lemma blank_reading_is_evidence_witness : detectExcised (whole (zeros 512) (lbs_of (disk_of 512 512))) = None.
Proof.
  refine (proj1 (proj2 (proj2 (proj2 (blank_reading_is_evidence (local (zeros 512)) [] (disk_of 512 512)
    (fun off n => (n, slice (zeros 512) off n, None)) (zeros 512) zero_reading _ _ _ _))))).
  - vm_compute. reflexivity.
  - apply local_probed; vm_compute; first [reflexivity|discriminate].
  - vm_compute. reflexivity.
  - reflexivity.
Defined.

Lemma zeroed_device_reads_blank_witness : exists detail,
  Read (NewProberWithOpener (local (zeros 512)) []) (disk_of 512 512) =
    Ok (mkReading ContentBlank "" detail).
Proof.
  refine (zeroed_device_reads_blank (local (zeros 512)) [] (disk_of 512 512)
    (fun off n => (n, slice (zeros 512) off n, None)) (zeros 512) _ _ _ _ _ _).
  - vm_compute. reflexivity.
  - vm_compute. reflexivity.
  - apply local_probed; vm_compute; first [reflexivity|discriminate].
  - by intros off n _ _ _.
  - discriminate.
  - apply isZero_all. vm_compute. reflexivity.
Defined.

Lemma reading_took_every_byte_witness :
  let p := NewProberWithOpener (local xfs_image) [] in
  rd_Content (default no_reading (match Read p (disk_of 512 512) with Ok x => Some x | Err _ => None end))
    <> ContentUnknown.
Proof.
  refine (proj1 (proj2 (proj2 (reading_took_every_byte (NewProberWithOpener (local xfs_image) [])
    (disk_of 512 512) (mkReading ContentFilesystem "xfs" "XFS superblock at 0") _)))).
  vm_compute. reflexivity.
Defined.

(** A signature erased from a filesystem that is still there, and one whose superblock alone
    was zeroed. *)
Definition le32 (z : Z) : bytes :=
  map (fun k => byte (Z.land (Z.shiftr z (8 * k)) 255)) [0; 1; 2; 3].

Definition wiped_ext : bytes :=
  (zeros 1024 ++ le32 65536 ++ le32 262144 ++ zeros 16 ++ le32 2 ++ zeros 64 ++ le32 4 ++ zeros 8)%list.

Example wiped_ext_is_released :
  exists detail, Read (NewProberWithOpener (local wiped_ext) []) (disk_of (len wiped_ext) 512) =
    Ok (mkReading ContentReleased "ext3" detail).
Proof. eexists. vm_compute. reflexivity. Qed.

Definition page_behind : bytes := (zeros 4096 ++ to_bytes "_UNMAPPED_" ++ zeros 4086)%list.

Example zeroed_superblock_is_simplyblock :
  Read (NewProberWithOpener (local page_behind) []) (disk_of 8192 512) =
    Ok (mkReading ContentSimplyblock "simplyblock_alceml" "a simplyblock unwritten-page header at 4096").
Proof. vm_compute. reflexivity. Qed.

(** The blank rule looks at one block, where the type says that every byte of the head was
    zero: what stands behind the block and matches nothing of the catalog does not count. *)
Example blank_rule_stops_at_a_block :
  firstNonZero (mkRegions (zeros 4096 ++ [byte 7])%list [] 0 8192 512 [] 0) = None.
Proof. vm_compute. reflexivity. Qed.

Example stalled_probe_is_an_error :
  let stalled : Opener := fun _ => Ok (fun _ _ => (0, [], Some "context deadline exceeded")) in
  Read (NewProberWithOpener stalled []) (disk_of 512 512) =
    Err (failed "blockdev: read 512 bytes at 0: context deadline exceeded").
Proof. vm_compute. reflexivity. Qed.

End Content.
