(* ===== verification/BlockDevices.v ===== *)
(** Which block devices a host has, who is using them, and which may be handed to a storage
    cluster ([atlas-lib/blockdev]: scan.go, usage.go, stablelinks.go and candidate.go, with
    [atlas-lib/internal/sysfs], and [devicesOf] of [nodeprobe/collect.go]).

    The host's files are a parameter: a [Tree] answers each read, listing and link the code
    asks for, and may fail; the kernel's answer to an exclusive open and the bytes of a device
    are parameters as well.  Errors keep what failed and leave out their text. *)

From Stdlib Require Import Ascii String.
From S2P Require Import Prelude.
From S2P Require Import GoStrings.
From S2P Require Import Handles.
From S2P Require Import Discovery.
From S2P Require Import BlockContent.

#[local] Open Scope string_scope.
#[local] Open Scope Z_scope.
#[local] Set Default Proof Using "Type".

(** ** [path/filepath], [strings] and [strconv], as the scan uses them *)

Module Paths.

Definition slash : ascii := "/"%char.

(** One element of a path being cleaned, onto those kept so far, the last first. *)
Definition clean_step (rooted : bool) (kept : list bytes) (e : bytes) : list bytes :=
  if bool_decide (e = []) || bool_decide (e = ["."%char]) then kept
  else if bool_decide (e = ["."%char; "."%char]) then
    match kept with
    | last :: before =>
        if bool_decide (last = ["."%char; "."%char]) then e :: kept else before
    | [] => if rooted then [] else [e]
    end
  else e :: kept.

(** [filepath.IsAbs]. *)
Definition IsAbs (p : string) : bool := GoStrings.HasPrefix p "/".

(** [filepath.Clean]. *)
Definition Clean (p : string) : string :=
  let rooted := IsAbs p in
  let out := join_on slash (rev (foldl (clean_step rooted) [] (split_on slash (to_bytes p)))) in
  if rooted then of_bytes (slash :: out)
  else if bool_decide (out = []) then "." else of_bytes out.

(** [filepath.Join]: the elements that are not empty, and the empty path of none. *)
Definition Join (elems : list string) : string :=
  match List.filter (fun e => negb (String.eqb e "")) elems with
  | [] => ""
  | elems => Clean (GoStrings.Join elems slash)
  end.

(** [filepath.Dir] and [filepath.Base]. *)
Definition Dir (p : string) : string :=
  match cut_last [slash] (to_bytes p) with
  | Some (before, _) => Clean (of_bytes (before ++ [slash]))
  | None => "."
  end.

Definition Base (p : string) : string :=
  if String.eqb p "" then "."
  else
    let trimmed := TrimRight p slash in
    let last := match cut_last [slash] (to_bytes trimmed) with
      | Some (_, after) => of_bytes after
      | None => trimmed
      end in
    if String.eqb last "" then "/" else last.

(** [strings.Fields]: the runs of runes that are not white space. *)
Fixpoint fields_of (cs : list (Z * bytes)) (current : bytes) : list bytes :=
  let flush := if bool_decide (current = []) then [] else [current] in
  match cs with
  | [] => flush
  | (c, bs) :: cs =>
      if IsSpace c then (flush ++ fields_of cs [])%list else fields_of cs (current ++ bs)%list
  end.

Definition Fields (s : string) : list string := of_bytes <$> fields_of (chunks (to_bytes s)) [].

(** [strings.Lines], less the line ends, which [Fields] drops. *)
Definition Lines (s : string) : list string := Split s (ascii_of_nat 10).

(** [strconv.ParseUint]: the value and whether it parsed; past the width the value is the
    greatest, as the callers that drop the error see it. *)
Definition digit_of (base : Z) (c : ascii) : option Z :=
  let d := code c - 48 in
  if (0 <=? d) && (d <? Z.min base 10) then Some d else None.

Fixpoint parse_digits (base most n : Z) (l : bytes) : Z * bool :=
  match l with
  | [] => (n, true)
  | c :: l =>
      match digit_of base c with
      | None => (0, false)
      | Some d => if most <? n * base + d then (most, false) else parse_digits base most (n * base + d) l
      end
  end.

Definition ParseUint (s : string) (base bits : Z) : Z * bool :=
  match to_bytes s with
  | [] => (0, false)
  | l => parse_digits base (2 ^ bits - 1) 0 l
  end.

(** [strings.CutPrefix] and then digits to the end, at least one: a bus of the kernel. *)
Definition numbered (segment prefix : string) : bool :=
  match CutPrefix segment prefix with
  | Some rest => negb (String.eqb rest "") && forallb digit (to_bytes rest)
  | None => false
  end.

(** *** Climbing a path ends *)

Definition weight (l : list bytes) : nat := sum_list_with (fun e => S (length e)) l.

Lemma weight_nil : weight [] = 0%nat.
Proof. done. Qed.
Lemma weight_cons e l : weight (e :: l) = (S (length e) + weight l)%nat.
Proof. done. Qed.

Lemma length_join_on sep l : length (join_on sep l) = (weight l - 1)%nat.
Proof.
  induction l as [|p l IH]; [done|]. destruct l as [|q l]; [cbn [join_on]; rewrite weight_cons, weight_nil; lia|].
  change (join_on sep (p :: q :: l)) with (p ++ sep :: join_on sep (q :: l))%list.
  rewrite length_app. cbn [length]. rewrite IH, !weight_cons. lia.
Qed.

Lemma weight_split sep l : weight (split_on sep l) = S (length l).
Proof.
  induction l as [|c l IH]; [done|]. cbn [split_on]. destruct (Ascii.eqb c sep).
  - rewrite weight_cons, IH. done.
  - destruct (split_on sep l) as [|p ps] eqn:E; [by apply split_on_nonempty in E|].
    rewrite weight_cons in *. cbn [length]. lia.
Qed.

Lemma weight_app l k : weight (l ++ k) = (weight l + weight k)%nat.
Proof. unfold weight. by rewrite sum_list_with_app. Qed.

Lemma weight_rev l : weight (rev l) = weight l.
Proof. induction l as [|e l IH]; [done|]. simpl. rewrite weight_app, IH, !weight_cons, weight_nil. lia. Qed.

(** What is kept of a path weighs no more than the elements that are not empty. *)
Lemma clean_step_weight rooted kept e :
  (weight (clean_step rooted kept e) <= weight kept + (if bool_decide (e = []) then 0 else S (length e)))%nat.
Proof.
  unfold clean_step. destruct (bool_decide (e = [])); cbn [orb]; [lia|].
  destruct (bool_decide (e = ["."%char])); [lia|].
  destruct (bool_decide (e = ["."%char; "."%char])).
  - destruct kept as [|p kept]; [destruct rooted; rewrite ?weight_cons, ?weight_nil; lia|].
    destruct (bool_decide (p = _)); rewrite ?weight_cons; lia.
  - rewrite weight_cons. lia.
Qed.

Lemma clean_weight rooted l kept :
  (weight (foldl (clean_step rooted) kept l) <=
   weight kept + weight (List.filter (fun e => negb (bool_decide (e = []))) l))%nat.
Proof.
  revert kept. induction l as [|e l IH]; intros kept; cbn [foldl List.filter]; [rewrite weight_nil; lia|].
  etransitivity; [apply IH|]. assert (H := clean_step_weight rooted kept e).
  destruct (bool_decide (e = [])); cbn [negb]; rewrite ?weight_cons; lia.
Qed.

Lemma weight_filter (p : bytes -> bool) l : (weight (List.filter p l) <= weight l)%nat.
Proof. induction l as [|e l IH]; [done|]. cbn [List.filter]. destruct (p e); rewrite ?weight_cons; lia. Qed.

Lemma split_on_last_empty sep l : exists ps, split_on sep (l ++ [sep]) = (ps ++ [[]])%list /\ ps = split_on sep l.
Proof.
  induction l as [|c l (ps & IH & E)]; cbn [app split_on].
  - rewrite Ascii.eqb_refl. by exists [[]].
  - destruct (Ascii.eqb c sep).
    + rewrite IH. exists ([] :: ps). by rewrite E.
    + rewrite IH. destruct ps as [|p ps]; [by rewrite <- E in *; symmetry in E; apply split_on_nonempty in E|].
      exists ((c :: p) :: ps). rewrite <- E. done.
Qed.

(** What keeps a climb going: a path that is not one of the two that are their own parent. *)
Definition height (p : string) : nat :=
  if String.eqb p "." || String.eqb p "/" then 0%nat else S (String.length p).

Lemma cut_last_spec c l before after : cut_last [c] l = Some (before, after) ->
  l = (before ++ c :: after)%list /\ c ∉ after.
Proof.
  revert before after. induction l as [|d l IH]; intros before after; cbn [cut_last after_prefix]; [done|].
  destruct (cut_last [c] l) as [[b a]|] eqn:E.
  - intros [= <- <-]. destruct (IH _ _ eq_refl) as [-> H]. done.
  - destruct (Ascii.eqb_spec c d) as [->|]; [|done]. intros [= <- <-]. split; [done|].
    clear IH. induction l as [|e l IHl]; [set_solver|]. cbn [cut_last after_prefix] in E.
    destruct (cut_last [d] l) as [[??]|] eqn:E'; [done|]. destruct (Ascii.eqb_spec d e); [done|].
    apply not_elem_of_cons. auto.
Qed.

Definition nonempty (e : bytes) : bool := negb (bool_decide (e = [])).

(** The elements of a path that ends in a slash: the last is empty, and so is the first of an
    absolute one. *)
Lemma dir_weight before :
  (weight (List.filter nonempty (split_on slash (before ++ [slash]))) <= length before + 1)%nat /\
  (IsAbs (of_bytes (before ++ [slash])) = true ->
   (weight (List.filter nonempty (split_on slash (before ++ [slash]))) <= length before)%nat).
Proof.
  destruct (split_on_last_empty slash before) as (ps & E & Eps). rewrite E, Eps.
  rewrite List.filter_app, weight_app. cbn [List.filter]. change (nonempty []) with false.
  cbn match. rewrite weight_nil.
  assert (H := weight_filter nonempty (split_on slash before)). rewrite weight_split in H.
  split; [lia|]. intros Ha. destruct before as [|c before]; [by vm_compute|].
  unfold IsAbs, GoStrings.HasPrefix in Ha. rewrite to_of_bytes in Ha. cbn [app after_prefix to_bytes] in Ha.
  destruct (Ascii.eqb_spec "/"%char c) as [<-|]; [|done]. cbn [split_on]. rewrite Ascii.eqb_refl.
  cbn [List.filter]. change (nonempty []) with false. cbn match.
  assert (H' := weight_filter nonempty (split_on slash before)). rewrite weight_split in H'.
  cbn [length]. lia.
Qed.

Lemma Clean_short before : before <> [] -> (String.length (Clean (of_bytes (before ++ [slash]))) <= length before)%nat.
Proof.
  intros Hne. destruct (dir_weight before) as [H1 H2]. unfold Clean. rewrite to_of_bytes.
  assert (Hb : (1 <= length before)%nat) by (destruct before; [done|simpl; lia]).
  assert (Hw := fun rooted => clean_weight rooted (split_on slash (before ++ [slash])) []).
  destruct (IsAbs (of_bytes (before ++ [slash]))).
  - specialize (H2 eq_refl). specialize (Hw true). rewrite length_of_bytes. cbn [length].
    rewrite length_join_on, weight_rev. rewrite weight_nil in Hw. unfold nonempty in H2. lia.
  - specialize (Hw false). case_bool_decide; [done|]. rewrite length_of_bytes, length_join_on, weight_rev.
    rewrite weight_nil in Hw. unfold nonempty in H1. lia.
Qed.

(** A parent is lower, or the path is its own. *)
Lemma Dir_lower p : Dir p = p \/ (height (Dir p) < height p)%nat.
Proof.
  unfold Dir. destruct (cut_last [slash] (to_bytes p)) as [[before after]|] eqn:E.
  - apply cut_last_spec in E as [E _]. assert (Ep : p = of_bytes (before ++ slash :: after))
      by (rewrite <- E; by rewrite of_to_bytes).
    destruct (decide (before = [])) as [->|Hne].
    + change (Clean (of_bytes ([] ++ [slash]))) with "/". destruct after as [|c after]; [left; by rewrite Ep|].
      right. rewrite Ep. unfold height. simpl. lia.
    + right. assert (H := Clean_short before Hne).
      assert (Hl : String.length p = (length before + S (length after))%nat)
        by (rewrite Ep, length_of_bytes, length_app; done).
      assert (Hh : height p = S (String.length p)).
      { unfold height. destruct (String.eqb_spec p ".") as [Hd|]; [|destruct (String.eqb_spec p "/") as [Hd|]; [|done]].
        - rewrite Hd in E. destruct before as [|? [|? ?]]; done.
        - rewrite Hd in Hl. destruct before as [|? [|? ?]]; simpl in Hl; try done; lia. }
      rewrite Hh. unfold height. destruct (_ || _); lia.
  - destruct (String.eqb_spec p ".") as [->|Hd]; [by left|right]. unfold height at 1. simpl.
    unfold height. rewrite (proj2 (String.eqb_neq _ _) Hd). cbn [orb].
    destruct (String.eqb_spec p "/") as [->|]; [done|lia].
Qed.

(** A walk from a path toward the root, until a visit answers. *)
Fixpoint climb {A} (visit : string -> option A) (none : A) (fuel : nat) (dir : string) : option A :=
  match fuel with
  | O => None
  | S fuel =>
      match visit dir with
      | Some answer => Some answer
      | None =>
          let parent := Dir dir in
          if String.eqb parent dir then Some none else climb visit none fuel parent
      end
  end.

(** The fuel of a walk is its length: it always answers. *)
Definition walk {A} (visit : string -> option A) (none : A) (dir : string) : A :=
  default none (climb visit none (S (height dir)) dir).

Lemma climb_answers {A} (visit : string -> option A) none fuel dir :
  (height dir < fuel)%nat -> is_Some (climb visit none fuel dir).
Proof.
  revert dir. induction fuel as [|fuel IH]; intros dir H; [lia|]. cbn [climb].
  destruct (visit dir); [done|]. destruct (String.eqb_spec (Dir dir) dir); [done|].
  apply IH. destruct (Dir_lower dir); [done|lia].
Qed.

Lemma climb_fuel {A} (visit : string -> option A) none fuel fuel' dir :
  (height dir < fuel)%nat -> (height dir < fuel')%nat ->
  climb visit none fuel dir = climb visit none fuel' dir.
Proof.
  revert fuel' dir. induction fuel as [|fuel IH]; intros fuel' dir H H'; [lia|].
  destruct fuel' as [|fuel']; [lia|]. cbn [climb]. destruct (visit dir); [done|].
  destruct (String.eqb_spec (Dir dir) dir); [done|]. destruct (Dir_lower dir); [done|].
  apply IH; lia.
Qed.

(** A walk is one visit, and then the walk of the parent: the loop's own equation. *)
Lemma walk_step {A} (visit : string -> option A) none dir :
  walk visit none dir =
    match visit dir with
    | Some answer => answer
    | None => if String.eqb (Dir dir) dir then none else walk visit none (Dir dir)
    end.
Proof.
  unfold walk at 1. cbn [climb]. destruct (visit dir); [done|].
  destruct (String.eqb_spec (Dir dir) dir); [done|]. destruct (Dir_lower dir); [done|].
  unfold walk. f_equal. apply climb_fuel; lia.
Qed.

Example cleans :
  map Clean [""; "/"; "a//b/./c/.."; "/../a"; "../../x"; "/sys/class/block/sda/"] =
    ["."; "/"; "a/b"; "/a"; "../../x"; "/sys/class/block/sda"].
Proof. reflexivity. Qed.
Example bases : map Base [""; "/"; "/sys/block/"; "sda"] = ["."; "/"; "block"; "sda"].
Proof. reflexivity. Qed.
Example dirs : map Dir [""; "/"; "/a"; "a/b/"; "sda"; "/a/b"] = ["."; "/"; "/"; "a/b"; "."; "/a"].
Proof. reflexivity. Qed.

End Paths.

(** ** The scan *)

Module Scan.

Import Paths.
Import Content (Device, mkBlockDevice, Path, Name, Major, Minor, LogicalBlockSize,
  PhysicalBlockSize, AtomicWriteUnitMaxBytes, AtomicWriteUnitMinBytes, SizeBytes, ReadOnly,
  Content, ContentUnknown, ContentBlank, ContentFilesystem, ContentStackLayer, ContentForeign,
  ContentReleased, ContentSimplyblock, Reading, mkReading, rd_Content, rd_Type, rd_Detail,
  no_reading, Prober, failure, failed, panicked).

#[local] Existing Instance Content.Content_eq_dec.

(** What a read of the host's files answers: a file, a listing with whether each entry is a
    directory, whether a path is a directory where it is there, and where a link leads. *)
Inductive fserror := NotExist | Failed (why : string).

Record Tree := mkTree {
  ReadFile : string -> res fserror string;
  ReadDir : string -> res fserror (list (string * bool));
  Stat : string -> option bool;
  EvalSymlinks : string -> option string;
  Readlink : string -> option string }.

(** What failed, of a scan, a usage reading or the links. *)
Inductive scan_error :=
| ListFailed (dir : string) (e : fserror)
| DevUnreadable (dir : string) (e : fserror)
| NotMajorMinor (dir raw : string)
| BadNumber (dir raw : string)
| MountsUnreadable (path : string) (e : fserror)
| SwapsUnreadable (path : string) (e : fserror)
| LinksUnreadable (dir : string) (e : fserror)
| ReadPanicked (name : string).

Record ScanConfig := mkScanConfig {
  SysfsRoot : string; DevRoot : string; ProcRoot : string; MountinfoPath : string }.

Definition or_default (s d : string) : string := if String.eqb s "" then d else s.
Definition sysfs (c : ScanConfig) : string := or_default (SysfsRoot c) "/sys".
Definition dev (c : ScanConfig) : string := or_default (DevRoot c) "/dev".
Definition proc (c : ScanConfig) : string := or_default (ProcRoot c) "/proc".
Definition mountinfo (c : ScanConfig) : string :=
  or_default (MountinfoPath c) (Join [proc c; "self"; "mountinfo"]).

Inductive Kind :=
| KindDisk | KindPartition | KindDeviceMapper | KindMDRaid | KindLoop | KindMemory | KindNetwork.

#[export] Instance Kind_eq_dec : EqDecision Kind.
Proof. solve_decision. Defined.

Definition Kind_String (k : Kind) : string :=
  match k with
  | KindDisk => "Disk"
  | KindPartition => "Partition"
  | KindDeviceMapper => "DeviceMapper"
  | KindMDRaid => "MDRaid"
  | KindLoop => "Loop"
  | KindMemory => "Memory"
  | KindNetwork => "Network"
  end.

Inductive Transport :=
| TransportNVMe | TransportNVMeFabric | TransportSATA | TransportSAS | TransportSCSI
| TransportISCSI | TransportVirtio | TransportUSB | TransportMMC | TransportUnknown.

#[export] Instance Transport_eq_dec : EqDecision Transport.
Proof. solve_decision. Defined.

Definition Transport_String (t : Transport) : string :=
  match t with
  | TransportNVMe => "NVMe"
  | TransportNVMeFabric => "NVMeFabric"
  | TransportSATA => "SATA"
  | TransportSAS => "SAS"
  | TransportSCSI => "SCSI"
  | TransportISCSI => "iSCSI"
  | TransportVirtio => "Virtio"
  | TransportUSB => "USB"
  | TransportMMC => "MMC"
  | TransportUnknown => ""
  end.

Record Disk := mkDisk {
  k_Device : Device;
  k_Kind : Kind;
  k_Transport : Transport;
  k_Vendor : string;
  k_Model : string;
  k_Serial : string;
  k_Rotational : bool;
  k_Removable : bool;
  k_Virtual : bool;
  k_PCIAddress : string;
  k_NUMANode : Z;
  k_SubsystemNQN : string;
  k_Partitions : list string;
  k_Holders : list string }.

Definition disk_name (d : Disk) : string := Name (k_Device d).
Definition disk_path (d : Disk) : string := Path (k_Device d).

Definition NUMANodeUnknown : Z := -1.
Definition sectorSize : Z := 512.

(** ** Paths of the device tree ([sysfs/paths.go]) *)

Definition hex (c : ascii) : bool :=
  in_range 48 57 (code c) || in_range 65 70 (code c) || in_range 97 102 (code c).

(** The pattern of a PCI address: four hex digits, two, two and one. *)
Definition pciAddress (s : string) : bool :=
  match to_bytes s with
  | [a; b; c; d; c1; e; f; c2; g; h; dot; i] =>
      forallb hex [a; b; c; d; e; f; g; h; i] &&
      Ascii.eqb c1 ":"%char && Ascii.eqb c2 ":"%char && Ascii.eqb dot "."%char
  | _ => false
  end.

Definition PCIAddressOf (resolved : string) : string :=
  walk (fun dir => if pciAddress (Base dir) then Some (Base dir) else None) "" (Clean resolved).

Definition IsVirtual (resolved : string) : bool :=
  Contains (Clean resolved ++ "/") "/devices/virtual/".

(** The segments of a resolved path below the device tree. *)
Fixpoint after_devices (segments : list string) : list string :=
  match segments with
  | [] => []
  | s :: rest => if String.eqb s "devices" then rest else after_devices rest
  end.

Definition deviceSegments (resolved : string) : list string :=
  after_devices (Split (Clean resolved) slash).

(** The bus of a device, from the segments of its path. *)
Fixpoint transport_of (segments : list string) (scsi : bool) : Transport :=
  match segments with
  | [] => if scsi then TransportSCSI else TransportUnknown
  | s :: rest =>
      if String.eqb s "nvme" then TransportNVMe
      else if numbered s "virtio" then TransportVirtio
      else if String.eqb s "mmc_host" || numbered s "mmc" then TransportMMC
      else if numbered s "usb" then TransportUSB
      else if numbered s "ata" then TransportSATA
      else if HasPrefix s "end_device-" || HasPrefix s "sas_" || HasPrefix s "expander-"
      then TransportSAS
      else if numbered s "session" then TransportISCSI
      else if numbered s "host" then transport_of rest true
      else transport_of rest scsi
  end.

Definition transportOf (resolved : string) : Transport := transport_of (deviceSegments resolved) false.

(** [^nvme[0-9]+$]. *)
Definition controllerName (s : string) : bool := numbered s "nvme".

Section Host.

Context (t : Tree).

(** ** Attributes ([sysfs/sysfs.go]) *)

Definition ReadAttr (elem : list string) : res fserror string :=
  match ReadFile t (Join elem) with Ok s => Ok (TrimSpace s) | Err e => Err e end.

(** [sysfs.List]: a directory that is not there has no entries. *)
Definition list_dir (elem : list string) : res fserror (list string) :=
  match ReadDir t (Join elem) with
  | Ok entries => Ok entries.*1
  | Err NotExist => Ok []
  | Err e => Err e
  end.

(** [sysfs.String], [sysfs.Int], [sysfs.Uint32], [sysfs.Uint64] and [sysfs.Bool]. *)
Definition attr (elem : list string) : string :=
  match ReadAttr elem with Ok s => s | Err _ => "" end.

Definition attr_int (def : Z) (elem : list string) : Z :=
  let s := attr elem in
  if String.eqb s "" then def else default def (Atoi s).

Definition attr_uint32 (elem : list string) : Z := (ParseUint (attr elem) 10 32).1.
Definition attr_uint64 (elem : list string) : Z := (ParseUint (attr elem) 10 64).1.
Definition attr_bool (elem : list string) : bool := String.eqb (attr elem) "1".

Definition isDir (path : string) : bool :=
  match Stat t path with Some dir => dir | None => false end.
Definition fileExists (path : string) : bool :=
  match Stat t path with Some dir => negb dir | None => false end.

Definition optionalUint32 (elem : list string) : option Z :=
  match ReadFile t (Join elem) with
  | Err _ => None
  | Ok raw => let '(value, ok) := ParseUint (TrimSpace raw) 10 32 in if ok then Some value else None
  end.

(** ** One entry of class/block *)

Definition hidden (dir : string) : bool :=
  match ReadAttr [dir; "hidden"] with Ok raw => String.eqb raw "1" | Err _ => false end.

Definition readDevNumbers (dir : string) : res scan_error (Z * Z) :=
  match ReadAttr [dir; "dev"] with
  | Err e => Err (DevUnreadable dir e)
  | Ok raw =>
      let '(majorText, minorText, ok) := Cut raw ":" in
      if negb ok then Err (NotMajorMinor dir raw)
      else
        let '(maj, ok) := ParseUint majorText 10 32 in
        if negb ok then Err (BadNumber dir raw)
        else
          let '(min, ok) := ParseUint minorText 10 32 in
          if negb ok then Err (BadNumber dir raw) else Ok (maj, min)
  end.

Definition classify (dir name : string) : Kind :=
  if fileExists (Join [dir; "partition"]) then KindPartition
  else if isDir (Join [dir; "dm"]) then KindDeviceMapper
  else if isDir (Join [dir; "md"]) then KindMDRaid
  else if isDir (Join [dir; "loop"]) || HasPrefix name "loop" then KindLoop
  else if HasPrefix name "zram" || HasPrefix name "ram" then KindMemory
  else if HasPrefix name "nbd" || HasPrefix name "rbd" || HasPrefix name "drbd" then KindNetwork
  else if HasPrefix name "dm-" then KindDeviceMapper
  else if HasPrefix name "md" then KindMDRaid
  else KindDisk.

(** The transport of a namespace presented through an NVMe subsystem, where it is one. *)
Definition nvmeSubsystemTransport (resolved : string) : option Transport :=
  let subsystem := Dir (Clean resolved) in
  if negb (HasPrefix (Base subsystem) "nvme-subsys") then None
  else match list_dir [subsystem] with
    | Err _ => Some TransportNVMeFabric
    | Ok names =>
        if existsb (fun name => controllerName name &&
                      String.eqb (attr [subsystem; name; "transport"]) "pcie") names
        then Some TransportNVMe else Some TransportNVMeFabric
    end.

Definition subsystemNQNOf (resolved : string) : string := attr [Dir (Clean resolved); "subsysnqn"].

Definition partitionsOf (dir name : string) : list string :=
  match ReadDir t dir with
  | Err _ => []
  | Ok entries =>
      sort_strings (map fst (List.filter (fun e =>
        e.2 && negb (String.eqb e.1 name) && fileExists (Join [dir; e.1; "partition"])) entries))
  end.

Definition childNames (dir : string) : list string :=
  match list_dir [dir] with Ok names => sort_strings names | Err _ => [] end.

(** The memory node of a device, of the nearest directory that states one, up to its slot. *)
Definition numaNodeOf (device : string) : Z :=
  let pci := PCIAddressOf device in
  walk (fun dir =>
    let node := attr_int NUMANodeUnknown [dir; "numa_node"] in
    if negb (node =? NUMANodeUnknown) then Some node
    else if negb (String.eqb pci "") && String.eqb (Base dir) pci then Some NUMANodeUnknown
    else None) NUMANodeUnknown (Clean device).

Definition scanOne (cfg : ScanConfig) (dir name : string) : res scan_error Disk :=
  numbers <-- readDevNumbers dir;;
  let device := mkBlockDevice
    (Join [dev cfg; name]) name numbers.1 numbers.2
    (attr_uint32 [dir; "queue"; "logical_block_size"])
    (attr_uint32 [dir; "queue"; "physical_block_size"])
    (optionalUint32 [dir; "queue"; "atomic_write_unit_max_bytes"])
    (optionalUint32 [dir; "queue"; "atomic_write_unit_min_bytes"])
    ((attr_uint64 [dir; "size"] * sectorSize) mod 2 ^ 64)
    (attr_bool [dir; "ro"]) in
  let kind := classify dir name in
  let rotational := attr_bool [dir; "queue"; "rotational"] in
  let removable := attr_bool [dir; "removable"] in
  let partitions := partitionsOf dir name in
  let holders := childNames (Join [dir; "holders"]) in
  match EvalSymlinks t dir with
  | None =>
      Ok (mkDisk device kind TransportUnknown "" "" "" rotational removable false "" NUMANodeUnknown ""
            partitions holders)
  | Some resolved =>
      let transport := match nvmeSubsystemTransport resolved with
        | Some transport => transport
        | None => transportOf resolved
        end in
      let with_identity vendor model serial :=
        mkDisk device kind transport vendor model serial rotational removable (IsVirtual resolved)
          (PCIAddressOf resolved) (numaNodeOf resolved) (subsystemNQNOf resolved) partitions holders in
      match EvalSymlinks t (Join [dir; "device"]) with
      | None => Ok (with_identity "" "" "")
      | Some link =>
          Ok (with_identity (TrimSpace (attr [link; "vendor"])) (TrimSpace (attr [link; "model"]))
                (TrimSpace (attr [link; "serial"])))
      end
  end.

Definition by_name (d : Disk) : list Z * string := ([], disk_name d).

(** [Scan]. *)
Definition Scan (cfg : ScanConfig) : res scan_error (list Disk) :=
  let base := Join [sysfs cfg; "class"; "block"] in
  match ReadDir t base with
  | Err NotExist => Ok []
  | Err e => Err (ListFailed base e)
  | Ok entries =>
      let shown := List.filter (fun name => negb (hidden (Join [base; name]))) entries.*1 in
      disks <-- traverse (fun name => scanOne cfg (Join [base; name]) name) shown;;
      Ok (sort_by by_name disks)
  end.

End Host.

(** ** Usage (usage.go) *)

Record Usage := mkUsage {
  u_Mountpoints : list string;
  u_Swap : bool;
  u_Holders : list string;
  u_Busy : bool;
  u_ProbeErr : option string }.

Definition no_usage : Usage := mkUsage [] false [] false None.

(** What the kernel answers to an exclusive open. *)
Inductive Exclusive := Granted | DeviceBusy | ProbeFailed (why : string).

Definition InUse (u : Usage) : bool :=
  negb (bool_decide (u_Mountpoints u = [])) || u_Swap u || negb (bool_decide (u_Holders u = [])) ||
  u_Busy u.

Definition backslash : ascii := "\"%char.

(** [unescapeMountField]: a backslash and three octal digits of a byte are that byte. *)
Fixpoint unescape (l : bytes) : bytes :=
  match l with
  | [] => []
  | c :: rest =>
      if Ascii.eqb c backslash then
        match rest with
        | d1 :: d2 :: d3 :: rest' =>
            let '(n, ok) := ParseUint (of_bytes [d1; d2; d3]) 8 8 in
            if ok then Content.byte n :: unescape rest' else c :: unescape rest
        | _ => c :: unescape rest
        end
      else c :: unescape rest
  end.

Definition unescapeMountField (field : string) : string :=
  if Contains field "\" then of_bytes (unescape (to_bytes field)) else field.

(** One line of the mount table: the device numbers and the mountpoint. *)
Definition mountinfoFields : nat := 6.

Definition mount_line (line : string) : option (Z * Z * string) :=
  let fields := Fields line in
  if Nat.ltb (length fields) mountinfoFields then None
  else
    let '(majorText, minorText, ok) := Cut (nth 2 fields "") ":" in
    if negb ok then None
    else
      let '(major, ok) := ParseUint majorText 10 32 in
      if negb ok then None
      else
        let '(minor, ok) := ParseUint minorText 10 32 in
        if negb ok then None else Some (major, minor, unescapeMountField (nth 4 fields "")).

Abbreviation Mounts := (gmap (Z * Z) (list string)).

Definition add_mount (mounts : Mounts) (line : string) : Mounts :=
  match mount_line line with
  | None => mounts
  | Some (key, mountpoint) => <[key := (default [] (mounts !! key) ++ [mountpoint])%list]> mounts
  end.

Definition mounts_of (raw : string) : Mounts := foldl add_mount ∅ (Lines raw).

Definition readMountinfo (t : Tree) (path : string) : res scan_error Mounts :=
  match ReadFile t path with
  | Err e => Err (MountsUnreadable path e)
  | Ok raw => Ok (mounts_of raw)
  end.

(** The path one line of the swap list names. *)
Definition swap_line (line : string) : option string :=
  match Fields line with
  | [] => None
  | field :: _ => if String.eqb field "Filename" then None else Some (unescapeMountField field)
  end.

Definition add_swap (swaps : gset string) (line : string) : gset string :=
  match swap_line line with
  | None => swaps
  | Some path => swaps ∪ {[path; Base path]}
  end.

Definition readSwaps (t : Tree) (proc : string) : res scan_error (gset string) :=
  let path := Join [proc; "swaps"] in
  match ReadFile t path with
  | Err NotExist => Ok ∅
  | Err e => Err (SwapsUnreadable path e)
  | Ok raw => Ok (foldl add_swap ∅ (Lines raw))
  end.

(** [slices.Compact] of a sorted list. *)
Fixpoint compact (l : list string) : list string :=
  match l with
  | [] => []
  | x :: rest =>
      match rest with
      | y :: _ => if String.eqb x y then compact rest else x :: compact rest
      | [] => [x]
      end
  end.

Definition by_names (disks : list Disk) : gmap string Disk :=
  foldl (fun m d => <[disk_name d := d]> m) ∅ disks.

(** The device and the partitions on it, of those the scan found. *)
Definition parts_of (byName : gmap string Disk) (d : Disk) : list Disk :=
  omap (fun name => byName !! name) (disk_name d :: k_Partitions d).

Definition usage_of (mounts : Mounts) (swaps : gset string) (byName : gmap string Disk)
    (exclusive : string -> Exclusive) (d : Disk) : Usage :=
  let parts := parts_of byName d in
  let points := flat_map (fun part =>
    default [] (mounts !! (Major (k_Device part), Minor (k_Device part)))) parts in
  let swap := existsb (fun part =>
    bool_decide (disk_path part ∈ swaps) || bool_decide (disk_name part ∈ swaps)) parts in
  let '(busy, err) :=
    if 0 <? SizeBytes (k_Device d)
    then match exclusive (disk_path d) with
      | Granted => (false, None)
      | DeviceBusy => (true, None)
      | ProbeFailed why => (false, Some why)
      end
    else (false, None) in
  mkUsage (compact (sort_strings points)) swap (k_Holders d) busy err.

Definition ReadUsage (t : Tree) (cfg : ScanConfig) (disks : list Disk)
    (exclusive : string -> Exclusive) : res scan_error (gmap string Usage) :=
  mounts <-- readMountinfo t (mountinfo cfg);;
  swaps <-- readSwaps t (proc cfg);;
  let byName := by_names disks in
  Ok (foldl (fun usage d => <[disk_name d := usage_of mounts swaps byName exclusive d]> usage) ∅ disks).

(** ** Persistent names (stablelinks.go) *)

Definition linkDirByID : string := "by-id".
Definition linkDirByPartUUID : string := "by-partuuid".
Definition selfReportedPrefixes : list string := ["wwn-"; "nvme-eui."; "nvme-uuid."].
Definition stableLinkDirs : list string := [linkDirByPartUUID; linkDirByID].

Abbreviation StableLinkSet := (gmap string (list string)).

Definition linkTarget (t : Tree) (base link : string) : option string :=
  match Readlink t link with
  | None => None
  | Some target => Some (Clean (if IsAbs target then target else Join [base; target]))
  end.

Definition stableLinkRank (link : string) : Z :=
  let dir := Base (Dir link) in
  if String.eqb dir linkDirByPartUUID then 0
  else if String.eqb dir linkDirByID && existsb (HasPrefix (Base link)) selfReportedPrefixes then 1
  else 2.

Definition link_key (link : string) : list Z * string := ([stableLinkRank link], link).

Definition add_link (t : Tree) (base : string) (set : StableLinkSet) (name : string) : StableLinkSet :=
  let link := Join [base; name] in
  match linkTarget t base link with
  | None => set
  | Some device => <[device := (default [] (set !! device) ++ [link])%list]> set
  end.

Fixpoint read_link_dirs (t : Tree) (cfg : ScanConfig) (set : StableLinkSet) (dirs : list string) :
    res scan_error StableLinkSet :=
  match dirs with
  | [] => Ok set
  | dir :: dirs =>
      let base := Join [dev cfg; "disk"; dir] in
      match ReadDir t base with
      | Err NotExist => read_link_dirs t cfg set dirs
      | Err e => Err (LinksUnreadable base e)
      | Ok entries => read_link_dirs t cfg (foldl (add_link t base) set entries.*1) dirs
      end
  end.

Definition ReadStableLinks (t : Tree) (cfg : ScanConfig) : res scan_error StableLinkSet :=
  set <-- read_link_dirs t cfg ∅ stableLinkDirs;;
  Ok (sort_by link_key <$> set).

Definition Preferred (s : StableLinkSet) (device : string) : string :=
  match default [] (s !! device) with
  | [] => ""
  | link :: _ => link
  end.

(** ** Candidates (candidate.go) *)

Inductive Reason :=
| ReasonNotAWholeDisk | ReasonFabricNamespace | ReasonUnknownTransport | ReasonMounted
| ReasonSwapArea | ReasonStacked | ReasonBusy | ReasonUnreadable | ReasonRemovable
| ReasonReadOnly | ReasonNoCapacity | ReasonPartitioned | ReasonNotBlank
| ReasonLVMPhysicalVolume.

#[export] Instance Reason_eq_dec : EqDecision Reason.
Proof. solve_decision. Defined.

Definition Reason_String (r : Reason) : string :=
  match r with
  | ReasonNotAWholeDisk => "NotAWholeDisk"
  | ReasonFabricNamespace => "FabricNamespace"
  | ReasonUnknownTransport => "UnknownTransport"
  | ReasonMounted => "Mounted"
  | ReasonSwapArea => "SwapArea"
  | ReasonStacked => "Stacked"
  | ReasonBusy => "Busy"
  | ReasonUnreadable => "Unreadable"
  | ReasonRemovable => "Removable"
  | ReasonReadOnly => "ReadOnly"
  | ReasonNoCapacity => "NoCapacity"
  | ReasonPartitioned => "Partitioned"
  | ReasonNotBlank => "NotBlank"
  | ReasonLVMPhysicalVolume => "LVMPhysicalVolume"
  end.

Record Rejection := mkRejection { j_Reason : Reason; j_Detail : string }.

Record Candidate := mkCandidate {
  cd_Disk : Disk;
  cd_Usage : Usage;
  cd_Reading : Reading;
  cd_Rejections : list Rejection;
  cd_StablePath : string }.

Definition Available (c : Candidate) : bool := bool_decide (cd_Rejections c = []).

Definition rejected_for (js : list Rejection) (reason : Reason) : bool :=
  existsb (fun j => bool_decide (j_Reason j = reason)) js.

Definition RejectedFor (c : Candidate) (reason : Reason) : bool := rejected_for (cd_Rejections c) reason.

Definition OnlyRejectedFor (c : Candidate) (reasons : list Reason) : bool :=
  if Available c then false else forallb (fun j => contains reasons (j_Reason j)) (cd_Rejections c).

(** A list as [%v] writes it. *)
Definition show_list (l : list string) : string := "[" ++ String.concat " " l ++ "]".

Definition reject_if (b : bool) (reason : Reason) (detail : string) : list Rejection :=
  if b then [mkRejection reason detail] else [].

(** The grounds of a device before anything of it is read. *)
Definition grounds (d : Disk) (u : Usage) : list Rejection :=
  (reject_if (negb (bool_decide (k_Kind d = KindDisk))) ReasonNotAWholeDisk
     ("the device is a " ++ Kind_String (k_Kind d))%string ++
   (if bool_decide (k_Transport d = TransportNVMeFabric)
    then [mkRejection ReasonFabricNamespace
            "the namespace is reached over a fabric, so its bytes belong to whatever exported it"]
    else reject_if ((bool_decide (k_Kind d = KindDisk) || bool_decide (k_Kind d = KindPartition)) &&
                    bool_decide (k_Transport d = TransportUnknown))
           ReasonUnknownTransport "the device sits on no bus this scan could name") ++
   reject_if (SizeBytes (k_Device d) =? 0) ReasonNoCapacity "the device reports a size of zero" ++
   reject_if (k_Removable d) ReasonRemovable
     "the kernel reports the device as removable, so it can leave the machine" ++
   reject_if (ReadOnly (k_Device d)) ReasonReadOnly "the kernel presents the device read-only" ++
   reject_if (negb (bool_decide (u_Mountpoints u = []))) ReasonMounted
     ("mounted at " ++ show_list (u_Mountpoints u))%string ++
   reject_if (u_Swap u) ReasonSwapArea "the device is an active swap area" ++
   reject_if (negb (bool_decide (u_Holders u = []))) ReasonStacked
     ("held by " ++ show_list (u_Holders u))%string ++
   reject_if (u_Busy u) ReasonBusy "the kernel refused an exclusive open, and gives no reason" ++
   match u_ProbeErr u with
   | Some why => [mkRejection ReasonUnreadable ("the kernel could not be asked: " ++ why)%string]
   | None => []
   end ++
   reject_if (negb (bool_decide (k_Partitions d = []))) ReasonPartitioned
     ("the device carries the partitions " ++ show_list (k_Partitions d))%string)%list.

(** The reasons a device may carry and still be read. *)
Definition readable_despite (kind : Kind) (reason : Reason) : bool :=
  bool_decide (reason = ReasonPartitioned) ||
  (bool_decide (reason = ReasonNotAWholeDisk) && bool_decide (kind = KindPartition)).

Definition refusedBeyondReading (js : list Rejection) (kind : Kind) : bool :=
  existsb (fun j => negb (readable_despite kind (j_Reason j))) js.

(** The grounds a reading adds. *)
Definition reading_grounds (js : list Rejection) (r : Reading) : list Rejection :=
  match rd_Content r with
  | ContentBlank => []
  | ContentForeign =>
      if String.eqb (rd_Type r) "gpt" || String.eqb (rd_Type r) "dos"
      then reject_if (negb (rejected_for js ReasonPartitioned)) ReasonPartitioned (rd_Detail r)
      else [mkRejection ReasonNotBlank (rd_Detail r)]
  | ContentStackLayer =>
      if String.eqb (rd_Type r) "LVM2_member"
      then [mkRejection ReasonLVMPhysicalVolume (rd_Detail r)]
      else [mkRejection ReasonNotBlank (rd_Detail r)]
  | ContentFilesystem => [mkRejection ReasonNotBlank (rd_Detail r)]
  | ContentReleased => []
  | ContentSimplyblock => []
  | ContentUnknown => [mkRejection ReasonUnreadable "the reading came back unpopulated"]
  end.

(** [judge], of a prober's answer; none where the read panics. *)
Definition judge (read : Device -> res failure Reading) (d : Disk) (u : Usage) : option Candidate :=
  let js := grounds d u in
  if refusedBeyondReading js (k_Kind d) then Some (mkCandidate d u no_reading js "")
  else
    match read (k_Device d) with
    | Err panicked => None
    | Err (failed why) =>
        Some (mkCandidate d u no_reading
          (js ++ [mkRejection ReasonUnreadable ("the device could not be read: " ++ why)%string])%list "")
    | Ok reading => Some (mkCandidate d u reading (js ++ reading_grounds js reading)%list "")
    end.

Definition with_StablePath (c : Candidate) (path : string) : Candidate :=
  mkCandidate (cd_Disk c) (cd_Usage c) (cd_Reading c) (cd_Rejections c) path.

(** [Inspector.Candidates]. *)
Definition Candidates (t : Tree) (cfg : ScanConfig) (exclusive : string -> Exclusive) (p : Prober) :
    res scan_error (list Candidate) :=
  disks <-- Scan t cfg;;
  usage <-- ReadUsage t cfg disks exclusive;;
  links <-- ReadStableLinks t cfg;;
  traverse (fun d =>
    match judge (Content.Read p) d (default no_usage (usage !! disk_name d)) with
    | Some c => Ok (with_StablePath c (Preferred links (disk_path d)))
    | None => Err (ReadPanicked (disk_name d))
    end) disks.

(** ** The report of a probe ([devicesOf] of [nodeprobe/collect.go]), as far as discovery
    reads it *)

Definition device_of (c : Candidate) : Discovery.Device :=
  let d := cd_Disk c in
  Discovery.mkDevice (disk_name d) (disk_path d) (cd_StablePath c) (k_PCIAddress d)
    (SizeBytes (k_Device d)) (Kind_String (k_Kind d)) (Transport_String (k_Transport d)) (k_Model d)
    (k_NUMANode d) (k_SubsystemNQN d) (Available c)
    (if bool_decide (rd_Content (cd_Reading c) = ContentUnknown) then ""
     else Content.Content_String (rd_Content (cd_Reading c)))
    (map (fun j => Discovery.mkRejection (Reason_String (j_Reason j)) (j_Detail j)) (cd_Rejections c)).

Definition devicesOf (cs : list Candidate) : list Discovery.Device := map device_of cs.


(** ** What the readings hold *)

Lemma fold_insert {B V} (k : B -> string) (v : B -> V) l (m : gmap string V) x : x ∈ l ->
  exists y, y ∈ l /\ k y = k x /\ foldl (fun m d => <[k d := v d]> m) m l !! k x = Some (v y).
Proof.
  revert m. induction l as [|d l IH] using rev_ind; intros m Hx; [by apply elem_of_nil in Hx|].
  rewrite foldl_app. simpl. destruct (decide (k d = k x)) as [E|Hne].
  - exists d. rewrite E, lookup_insert_eq. split_and!; [set_solver|done|done].
  - apply elem_of_app in Hx as [Hx|Hx%list_elem_of_singleton]; [|by subst].
    destruct (IH m Hx) as (y & Hy & Ek & El). exists y. rewrite lookup_insert_ne by done.
    split_and!; [set_solver|done|done].
Qed.

(** A line of the mount table is in the reading of it, under its numbers. *)
Lemma mounts_of_line raw line key point : line ∈ Lines raw -> mount_line line = Some (key, point) ->
  point ∈ default [] (mounts_of raw !! key).
Proof.
  unfold mounts_of. generalize (Lines raw). intros lines Hin Hl. revert Hin.
  assert (Hkeep : forall l (m : Mounts), point ∈ default [] (m !! key) ->
    point ∈ default [] (foldl add_mount m l !! key)).
  { intros l. induction l as [|x l IH]; intros m Hm; [done|]. apply IH. unfold add_mount.
    destruct (mount_line x) as [[k p]|]; [|done]. destruct (decide (k = key)) as [->|Hne].
    - rewrite lookup_insert_eq. simpl. set_solver.
    - by rewrite lookup_insert_ne. }
  generalize (∅ : Mounts). induction lines as [|x lines IH]; intros m Hin; [by apply elem_of_nil in Hin|].
  simpl. apply elem_of_cons in Hin as [<-|Hin]; [|by apply IH].
  apply Hkeep. unfold add_mount. rewrite Hl, lookup_insert_eq. simpl. set_solver.
Qed.

Lemma swaps_line lines line path (swaps : gset string) : line ∈ lines -> swap_line line = Some path ->
  path ∈ foldl add_swap swaps lines /\ Base path ∈ foldl add_swap swaps lines.
Proof.
  intros Hin Hl.
  assert (Hkeep : forall l (s : gset string) x, x ∈ s -> x ∈ foldl add_swap s l).
  { intros l. induction l as [|y l IH]; intros s x Hx; [done|]. apply IH. unfold add_swap.
    destruct (swap_line y); set_solver. }
  revert swaps Hin. induction lines as [|x lines IH]; intros swaps Hin; [by apply elem_of_nil in Hin|].
  simpl. apply elem_of_cons in Hin as [<-|Hin]; [|by apply IH].
  split; apply Hkeep; unfold add_swap; rewrite Hl; set_solver.
Qed.

Lemma compact_nil l : compact l = [] -> l = [].
Proof.
  induction l as [|x [|y l] IH]; [done|done|]. cbn [compact]. destruct (String.eqb x y); [|done].
  intros H. by apply IH in H.
Qed.

(** Nothing uses a device of no mountpoint, no swap, no holder and a granted open. *)
Record unused (mounts : Mounts) (swaps : gset string) (parts : list Disk) (exclusive : string -> Exclusive)
    (d : Disk) : Prop := {
  un_mount part : part ∈ parts -> mounts !! (Major (k_Device part), Minor (k_Device part)) = None \/
                  mounts !! (Major (k_Device part), Minor (k_Device part)) = Some [];
  un_swap part : part ∈ parts -> disk_path part ∉ swaps /\ disk_name part ∉ swaps;
  un_held : k_Holders d = [];
  un_open : 0 < SizeBytes (k_Device d) -> exclusive (disk_path d) = Granted }.

Lemma usage_of_unused mounts swaps byName exclusive d :
  InUse (usage_of mounts swaps byName exclusive d) = false ->
  u_ProbeErr (usage_of mounts swaps byName exclusive d) = None ->
  unused mounts swaps (parts_of byName d) exclusive d.
Proof.
  unfold usage_of. set (parts := parts_of byName d).
  set (asked := if 0 <? SizeBytes (k_Device d) then _ else _). destruct asked as [busy err] eqn:Ea.
  unfold InUse. cbn [u_Mountpoints u_Swap u_Holders u_Busy u_ProbeErr]. rewrite !orb_false_iff, !negb_false_iff.
  intros [[[Hm Hs] Hh] Hb] He. apply bool_decide_eq_true_1 in Hm, Hh. subst busy err. constructor; [..|done|].
  - intros part Hp. apply compact_nil in Hm.
    assert (Hno : forall x, x ∉ flat_map (fun part =>
      default [] (mounts !! (Major (k_Device part), Minor (k_Device part)))) parts).
    { intros x Hx. apply sort_strings_elem in Hx. rewrite Hm in Hx. by apply elem_of_nil in Hx. }
    destruct (mounts !! _) as [[|x l]|] eqn:E; [by right| |by left].
    destruct (Hno x). apply flat_map_elem. exists part. rewrite E. split; [left|done].
  - intros part Hp.
    assert (H : forall q, q ∈ parts ->
      bool_decide (disk_path q ∈ swaps) || bool_decide (disk_name q ∈ swaps) = false).
    { intros q Hq. destruct (_ || _) eqn:E; [|done]. rewrite <- Hs. symmetry. apply existsb_exists.
      exists q. split; [by apply list_elem_of_In|done]. }
    apply H in Hp. apply orb_false_iff in Hp as [H1 H2]. by apply bool_decide_eq_false_1 in H1, H2.
  - intros Hsize. subst asked. rewrite (proj2 (Z.ltb_lt _ _)) in Ea by done. by destruct (exclusive _).
Qed.

(** Every disk of a scan is the one its name stands for. *)
Lemma scanOne_name t cfg dir name d : scanOne t cfg dir name = Ok d -> disk_name d = name.
Proof.
  unfold scanOne. destruct (readDevNumbers t dir) as [numbers|]; [|done]. cbn zeta.
  destruct (EvalSymlinks t dir) as [resolved|]; [|by intros [= <-]].
  destruct (EvalSymlinks t _); by intros [= <-].
Qed.

Lemma traverse_elem {E A B} (f : A -> res E B) l ys y : traverse f l = Ok ys -> y ∈ ys ->
  exists x, x ∈ l /\ f x = Ok y.
Proof.
  revert ys. induction l as [|a l IH]; intros ys; simpl; [intros [= <-]; set_solver|].
  destruct (f a) as [b|] eqn:E'; [|done]. destruct (traverse f l) as [bs|] eqn:Et; [|done].
  intros [= <-] [->|H]%elem_of_cons.
  - exists a. split; [left|done].
  - destruct (IH _ eq_refl H) as (x & Hx & Ex). exists x. split; [by right|done].
Qed.

Lemma Scan_functional t cfg disks d d' : Scan t cfg = Ok disks -> d ∈ disks -> d' ∈ disks ->
  disk_name d = disk_name d' -> d = d'.
Proof.
  unfold Scan. destruct (ReadDir t _) as [entries|[]]; [|intros [= <-]; set_solver|done].
  destruct (traverse _ _) as [ds|] eqn:E; [|done]. intros [= <-] Hd Hd' Hn.
  apply sort_by_elem in Hd, Hd'.
  destruct (traverse_elem _ _ _ _ E Hd) as (n & _ & En). destruct (traverse_elem _ _ _ _ E Hd') as (n' & _ & En').
  rewrite (scanOne_name _ _ _ _ _ En), (scanOne_name _ _ _ _ _ En') in Hn. subst n'. congruence.
Qed.

Lemma by_names_lookup t cfg disks d : Scan t cfg = Ok disks -> d ∈ disks ->
  by_names disks !! disk_name d = Some d.
Proof.
  intros Hs Hd. unfold by_names. destruct (fold_insert disk_name (fun d => d) disks ∅ d Hd) as (y & Hy & En & E).
  rewrite E. f_equal. by eapply Scan_functional.
Qed.

(** The usage of a scanned disk is the one read of it. *)
Lemma ReadUsage_lookup t cfg disks exclusive usage d : Scan t cfg = Ok disks -> d ∈ disks ->
  ReadUsage t cfg disks exclusive = Ok usage ->
  exists mounts swaps, readMountinfo t (mountinfo cfg) = Ok mounts /\ readSwaps t (proc cfg) = Ok swaps /\
    usage !! disk_name d = Some (usage_of mounts swaps (by_names disks) exclusive d).
Proof.
  intros Hs Hd. unfold ReadUsage. destruct (readMountinfo t _) as [mounts|]; [|done].
  destruct (readSwaps t _) as [swaps|]; [|done]. intros [= <-]. exists mounts, swaps. split_and!; try done.
  destruct (fold_insert disk_name (usage_of mounts swaps (by_names disks) exclusive) disks ∅ d Hd)
    as (y & Hy & En & E). rewrite E. do 2 f_equal. by eapply Scan_functional.
Qed.

(** ** What a candidate rests on *)

(** The two grounds a run may waive. *)
Definition waivable (j : Rejection) : Prop :=
  j_Reason j = ReasonPartitioned \/ j_Reason j = ReasonNotAWholeDisk.

Lemma reject_if_waivable b reason detail : Forall waivable (reject_if b reason detail) ->
  reason <> ReasonPartitioned -> reason <> ReasonNotAWholeDisk -> b = false.
Proof.
  destruct b; [|done]. cbn [reject_if]. intros [[H|H] _]%Forall_cons; simpl in H; congruence.
Qed.

(** A device refused on those alone is at hand, stays, takes writes and has room, and
    nothing uses it. *)
Record sound_disk (d : Disk) (u : Usage) : Prop := {
  sd_local : k_Transport d <> TransportNVMeFabric;
  sd_known : k_Kind d = KindDisk \/ k_Kind d = KindPartition -> k_Transport d <> TransportUnknown;
  sd_size : SizeBytes (k_Device d) <> 0;
  sd_fixed : k_Removable d = false;
  sd_writable : ReadOnly (k_Device d) = false;
  sd_unused : InUse u = false;
  sd_asked : u_ProbeErr u = None }.

Lemma grounds_sound d u : Forall waivable (grounds d u) -> sound_disk d u.
Proof.
  unfold grounds. rewrite !Forall_app. intros (_ & Ht & Hs & Hr & Hw & Hm & Hsw & Hh & Hb & He & _).
  apply reject_if_waivable in Hs, Hr, Hw, Hm, Hsw, Hh, Hb; [|done..].
  constructor; try done.
  - intros E. rewrite bool_decide_true in Ht by done.
    apply Forall_cons in Ht as [[H|H] _]; discriminate H.
  - intros Hk E. rewrite bool_decide_false in Ht by (rewrite E; done).
    apply reject_if_waivable in Ht; [|done..]. rewrite (bool_decide_true (_ = TransportUnknown)) in Ht by done.
    rewrite andb_true_r, orb_false_iff in Ht. destruct Ht as [H1 H2].
    apply bool_decide_eq_false_1 in H1, H2. naive_solver.
  - by apply Z.eqb_neq.
  - unfold InUse. by rewrite Hm, Hsw, Hh, Hb.
  - destruct (u_ProbeErr u); [|done]. apply Forall_cons in He as [[H|H] _]; discriminate H.
Qed.

Lemma reject_if_elem b reason detail j : j ∈ reject_if b reason detail -> b = true /\ j = mkRejection reason detail.
Proof. destruct b; cbn [reject_if]; [intros ->%list_elem_of_singleton; done|by intros ?%elem_of_nil]. Qed.

Lemma grounds_whole d u j : k_Kind d = KindDisk -> j ∈ grounds d u -> j_Reason j <> ReasonNotAWholeDisk.
Proof.
  intros Hk. unfold grounds. rewrite !elem_of_app. intros H.
  destruct_or! H; try (apply reject_if_elem in H as [Hb ->]; try done; by rewrite Hk in Hb).
  - destruct (bool_decide _); [by apply list_elem_of_singleton in H as ->|].
    by apply reject_if_elem in H as [_ ->].
  - destruct (u_ProbeErr u); [by apply list_elem_of_singleton in H as ->|by apply elem_of_nil in H].
Qed.

Lemma waivable_is_read d u : k_Kind d = KindDisk \/ k_Kind d = KindPartition ->
  Forall waivable (grounds d u) -> refusedBeyondReading (grounds d u) (k_Kind d) = false.
Proof.
  intros Hk Hw. unfold refusedBeyondReading. destruct (existsb _ _) eqn:E; [|done].
  apply existsb_exists in E as (j & Hj%list_elem_of_In & Hr). rewrite Forall_forall in Hw.
  apply negb_true_iff in Hr. unfold readable_despite in Hr. apply orb_false_iff in Hr as [H1 H2].
  apply bool_decide_eq_false_1 in H1. destruct (Hw j Hj) as [?|Hn]; [done|].
  rewrite (bool_decide_true _ Hn) in H2. cbn [andb] in H2. apply bool_decide_eq_false_1 in H2.
  destruct Hk as [Hk|?]; [|done]. by apply (grounds_whole d u j Hk) in Hj.
Qed.

(** What a device that may be taken carries: nothing, something given up, something of this
    product, or a partition table that the waiver stands for. *)
Definition takeable (x : Reading) (partitioned : bool) : Prop :=
  rd_Content x = ContentBlank \/ rd_Content x = ContentReleased \/ rd_Content x = ContentSimplyblock \/
  (partitioned = true /\ rd_Content x = ContentForeign /\ (rd_Type x = "gpt" \/ rd_Type x = "dos")).

Lemma rejected_for_app js js' reason :
  rejected_for (js ++ js') reason = rejected_for js reason || rejected_for js' reason.
Proof. apply existsb_app. Qed.

Lemma reading_takeable js x : Forall waivable (reading_grounds js x) ->
  takeable x (rejected_for (js ++ reading_grounds js x) ReasonPartitioned).
Proof.
  unfold reading_grounds, takeable. intros H. rewrite rejected_for_app.
  assert (Hno : forall reason detail, reason <> ReasonPartitioned -> reason <> ReasonNotAWholeDisk ->
    ~ Forall waivable [mkRejection reason detail])
    by (intros reason detail H1 H2 [[?|?] _]%Forall_cons; done).
  destruct (rd_Content x); try tauto; try (by apply Hno in H).
  - destruct (String.eqb _ _); by apply Hno in H.
  - destruct (String.eqb_spec (rd_Type x) "gpt"), (String.eqb_spec (rd_Type x) "dos"); simpl in H |- *;
      try (by apply Hno in H); do 3 right;
      (split; [by destruct (rejected_for js ReasonPartitioned)|by auto]).
Qed.

(** A judged device of a kind a cluster may take, refused on nothing but waivable grounds. *)
Lemma judge_sound read d u c : judge read d u = Some c -> Forall waivable (cd_Rejections c) ->
  k_Kind d = KindDisk \/ k_Kind d = KindPartition ->
  cd_Disk c = d /\ sound_disk d u /\
  exists x, read (k_Device d) = Ok x /\ cd_Reading c = x /\ takeable x (RejectedFor c ReasonPartitioned).
Proof.
  unfold judge. intros E Hw Hk.
  assert (Hg : Forall waivable (grounds d u)).
  { destruct (refusedBeyondReading _ _); [by injection E as <-|].
    destruct (read (k_Device d)) as [x|[why|]]; [| |done]; injection E as <-;
      by apply Forall_app in Hw as [? _]. }
  rewrite (waivable_is_read d u Hk Hg) in E.
  destruct (read (k_Device d)) as [x|[why|]]; [| |done]; injection E as <-.
  - split; [done|]. split; [by apply grounds_sound|]. exists x. split_and!; try done.
    apply Forall_app in Hw as [_ Hw]. by apply reading_takeable.
  - apply Forall_app in Hw as [_ [[H|H] _]%Forall_cons]; done.
Qed.

Lemma judge_disk read d u c : judge read d u = Some c -> cd_Disk c = d.
Proof.
  unfold judge. destruct (refusedBeyondReading _ _); [by intros [= <-]|].
  destruct (read (k_Device d)) as [x|[why|]]; by intros [= <-].
Qed.

Lemma Candidates_of t cfg exclusive p cs c : Candidates t cfg exclusive p = Ok cs -> c ∈ cs ->
  exists disks usage c', Scan t cfg = Ok disks /\ ReadUsage t cfg disks exclusive = Ok usage /\
    cd_Disk c ∈ disks /\
    judge (Content.Read p) (cd_Disk c) (default no_usage (usage !! disk_name (cd_Disk c))) = Some c' /\
    c = with_StablePath c' (cd_StablePath c).
Proof.
  unfold Candidates. destruct (Scan t cfg) as [disks|] eqn:Es; [|done].
  destruct (ReadUsage _ _ _ _) as [usage|] eqn:Eu; [|done].
  destruct (ReadStableLinks t cfg) as [links|]; [|done]. intros Et Hc.
  destruct (traverse_elem _ _ _ _ Et Hc) as (d & Hd & E).
  destruct (judge _ _ _) as [c'|] eqn:Ej; [|done]. injection E as <-.
  assert (Ed := judge_disk _ _ _ _ Ej). exists disks, usage, c'. cbn [with_StablePath cd_Disk cd_StablePath].
  by rewrite Ed.
Qed.

(** What nothing uses, in the words of the host's own files. *)
Record free_on_host (t : Tree) (cfg : ScanConfig) (exclusive : string -> Exclusive) (disks : list Disk)
    (d : Disk) : Prop := {
  fr_mounts : exists raw, ReadFile t (mountinfo cfg) = Ok raw /\
    forall part line key point, part ∈ disks -> disk_name part ∈ disk_name d :: k_Partitions d ->
      line ∈ Lines raw -> mount_line line = Some (key, point) ->
      key <> (Major (k_Device part), Minor (k_Device part));
  fr_swaps : forall raw part line path, ReadFile t (Join [proc cfg; "swaps"]) = Ok raw ->
    part ∈ disks -> disk_name part ∈ disk_name d :: k_Partitions d ->
    line ∈ Lines raw -> swap_line line = Some path -> path <> disk_path part /\ Base path <> disk_name part;
  fr_held : k_Holders d = [];
  fr_open : exclusive (disk_path d) = Granted }.

Lemma unused_free t cfg exclusive disks usage d : Scan t cfg = Ok disks -> d ∈ disks ->
  ReadUsage t cfg disks exclusive = Ok usage ->
  sound_disk d (default no_usage (usage !! disk_name d)) -> 0 <= SizeBytes (k_Device d) ->
  free_on_host t cfg exclusive disks d.
Proof.
  intros Hs Hd Hu Hsd H0. destruct (ReadUsage_lookup _ _ _ _ _ _ Hs Hd Hu) as (mounts & swaps & Em & Ew & El).
  rewrite El in Hsd. simpl in Hsd. destruct (usage_of_unused _ _ _ _ _ (sd_unused _ _ Hsd) (sd_asked _ _ Hsd))
    as [Hmount Hswap Hheld Hopen].
  assert (Hpart : forall part, part ∈ disks -> disk_name part ∈ disk_name d :: k_Partitions d ->
    part ∈ parts_of (by_names disks) d).
  { intros part Hp Hn. apply list_elem_of_omap. exists (disk_name part). split; [done|].
    by eapply by_names_lookup. }
  assert (Hsize := sd_size _ _ Hsd). constructor; [| |done|apply Hopen; lia].
  - unfold readMountinfo in Em. destruct (ReadFile t _) as [raw|]; [|done]. injection Em as <-.
    exists raw. split; [done|]. intros part line key point Hp Hn Hl El' ->.
    apply (mounts_of_line raw line _ point Hl) in El'.
    destruct (Hmount part (Hpart part Hp Hn)) as [E|E]; rewrite E in El'; by apply elem_of_nil in El'.
  - intros raw part line path Er Hp Hn Hl El'. unfold readSwaps in Ew. rewrite Er in Ew. injection Ew as <-.
    destruct (swaps_line _ _ _ ∅ Hl El') as [H1 H2]. destruct (Hswap part (Hpart part Hp Hn)) as [H3 H4].
    split; intros E; [apply H3|apply H4]; by rewrite <- E.
Qed.

Lemma scanned_size t cfg disks d : Scan t cfg = Ok disks -> d ∈ disks -> 0 <= SizeBytes (k_Device d).
Proof.
  unfold Scan. destruct (ReadDir t _) as [entries|[]]; [|intros [= <-]; set_solver|done].
  destruct (traverse _ _) as [ds|] eqn:E; [|done]. intros [= <-] Hd%sort_by_elem.
  destruct (traverse_elem _ _ _ _ E Hd) as (n & _ & En). unfold scanOne in En.
  destruct (readDevNumbers t _) as [numbers|]; [|done]. cbn zeta in En.
  assert (H : forall z, 0 <= z mod 2 ^ 64) by (intros z; apply Z.mod_pos_bound; lia).
  destruct (EvalSymlinks t _) as [resolved|]; [|injection En as <-; apply H].
  destruct (EvalSymlinks t _); injection En as <-; apply H.
Qed.

(** *** From the report back to the candidate *)

Lemma Reason_String_inj r r' : Reason_String r = Reason_String r' -> r = r'.
Proof. by destruct r, r'. Qed.

Lemma only_reason c reason : Discovery.OnlyRejectedFor (device_of c) (Reason_String reason) = true ->
  Forall (fun j => j_Reason j = reason) (cd_Rejections c).
Proof.
  unfold Discovery.OnlyRejectedFor, device_of. cbn [Discovery.d_Available Discovery.d_Rejections].
  destruct (Available c || _); [done|]. rewrite forallb_forall. intros H. apply Forall_forall.
  intros j Hj. specialize (H (Discovery.mkRejection (Reason_String (j_Reason j)) (j_Detail j))).
  cbn [Discovery.rj_Reason] in H. rewrite String.eqb_eq in H. apply Reason_String_inj, H, list_elem_of_In, map_elem.
  by exists j.
Qed.

(** What a run takes was refused on nothing but what the run waives. *)
Definition partitions_waived (run : option Discovery.DiscoverSpec) : bool :=
  match run with Some r => Discovery.is_true (Discovery.EnablePartitionedDevices r) | None => false end.

Section Drafted.

Context {text : GoStrings.Text}.

Lemma usable_waivable run c : Discovery.usable run (device_of c) ->
  Forall waivable (cd_Rejections c) /\ (RejectedFor c ReasonPartitioned = true -> partitions_waived run = true).
Proof.
  intros [Hfree _ _ _ _ _ _]. unfold RejectedFor, rejected_for.
  assert (Hno : forall js, Forall (fun j => j_Reason j = ReasonNotAWholeDisk) js ->
    existsb (fun j => bool_decide (j_Reason j = ReasonPartitioned)) js = false).
  { intros js H. induction H as [|j js Hj _ IH]; [done|]. simpl. by rewrite Hj, IH. }
  destruct Hfree as [Ha|[[Hrun Ho]|[_ He]]].
  - cbn [device_of Discovery.d_Available] in Ha. apply bool_decide_eq_true_1 in Ha. by rewrite Ha.
  - apply (only_reason c ReasonPartitioned) in Ho. split; [|done].
    eapply Forall_impl; [exact Ho|]. intros j Hj. by left.
  - unfold Discovery.emptyPartition in He. apply andb_true_iff in He as [[_ Ho]%andb_true_iff _].
    apply (only_reason c ReasonNotAWholeDisk) in Ho. split.
    + eapply Forall_impl; [exact Ho|]. intros j Hj. by right.
    + by rewrite Hno.
Qed.

Lemma device_kind run c : Discovery.usable run (device_of c) ->
  k_Kind (cd_Disk c) = KindDisk \/ k_Kind (cd_Disk c) = KindPartition.
Proof.
  intros H. destruct (Discovery.usable_whole _ _ H) as [E|[_ E]]; cbn [device_of Discovery.d_Kind] in E;
    destruct (k_Kind (cd_Disk c)); auto; discriminate E.
Qed.

(** C17. A device a run drafts was free when its host was probed: where the rules of a run take a
    candidate of a host, no mount recorded against it or a partition of it is in the mount
    table, no swap area is on either, nothing is built on it, and the kernel granted an
    exclusive open; it is at hand on a bus the scan names, has a size, stays in the machine
    and takes writes; and its bytes were read and said it is blank, given up, or this
    product's, or carry a partition table that the run waives. *)
Theorem drafted_device_was_free t cfg exclusive p cs c run
    (Hcs : Candidates t cfg exclusive p = Ok cs) (Hc : c ∈ cs)
    (Hrun : Discovery.usable run (device_of c)) :
  let d := cd_Disk c in
  exists disks, Scan t cfg = Ok disks /\ d ∈ disks /\ free_on_host t cfg exclusive disks d /\
    k_Transport d <> TransportNVMeFabric /\ k_Transport d <> TransportUnknown /\
    0 < SizeBytes (k_Device d) /\ k_Removable d = false /\ ReadOnly (k_Device d) = false /\
    exists x, Content.Read p (k_Device d) = Ok x /\ takeable x (partitions_waived run).
Proof.
  cbn zeta. destruct (Candidates_of _ _ _ _ _ _ Hcs Hc) as (disks & usage & c' & Hs & Hu & Hd & Hj & Ec).
  destruct (usable_waivable run c Hrun) as [Hw Hp]. assert (Hk := device_kind run c Hrun).
  assert (Hw' : Forall waivable (cd_Rejections c')) by (by rewrite Ec in Hw).
  destruct (judge_sound _ _ _ _ Hj Hw' Hk) as (_ & Hsd & x & Ex & _ & Ht).
  assert (H0 := scanned_size _ _ _ _ Hs Hd). exists disks. split; [done|]. split; [done|].
  split; [by eapply unused_free|]. assert (Hsize := sd_size _ _ Hsd). split_and!.
  - apply (sd_local _ _ Hsd).
  - by apply (sd_known _ _ Hsd).
  - lia.
  - apply (sd_fixed _ _ Hsd).
  - apply (sd_writable _ _ Hsd).
  - exists x. split; [done|]. destruct Ht as [?|[?|[?|[Hr Hf]]]]; unfold takeable; auto.
    do 3 right. split; [|done]. apply Hp. by rewrite Ec.
Qed.

End Drafted.

(** C25. A device something uses is never read: whatever the prober would answer, a device that is
    mounted, swap, held or busy, that could not be asked about, that is reached over a fabric,
    or that is empty, removable or read-only, is refused on the same grounds, with no
    reading. *)
Theorem device_in_use_is_never_read d u
    (Huse : InUse u = true \/ u_ProbeErr u <> None \/ k_Transport d = TransportNVMeFabric \/
            SizeBytes (k_Device d) = 0 \/ k_Removable d = true \/ ReadOnly (k_Device d) = true) :
  exists c, (forall read, judge read d u = Some c) /\ Available c = false /\ cd_Reading c = no_reading.
Proof.
  exists (mkCandidate d u no_reading (grounds d u) "").
  assert (Hno : ~ Forall waivable (grounds d u)).
  { intros Hw. destruct (grounds_sound _ _ Hw) as [H1 _ H2 H3 H4 H5 H6].
    destruct Huse as [?|[?|[?|[?|[?|?]]]]]; congruence. }
  assert (Hr : refusedBeyondReading (grounds d u) (k_Kind d) = true).
  { destruct (refusedBeyondReading _ _) eqn:E; [done|]. destruct Hno. apply Forall_forall. intros j Hj.
    unfold refusedBeyondReading in E.
    assert (H : negb (readable_despite (k_Kind d) (j_Reason j)) = false).
    { destruct (negb _) eqn:En; [|done]. rewrite <- E. symmetry. apply existsb_exists. exists j.
      split; [by apply list_elem_of_In|done]. }
    apply negb_false_iff in H. unfold readable_despite in H.
    apply orb_true_iff in H as [H|[H _]%andb_true_iff]; apply bool_decide_eq_true_1 in H; [by left|by right]. }
  split_and!; [|unfold Available; cbn [cd_Rejections]|done].
  - intros read. unfold judge. by rewrite Hr.
  - apply bool_decide_eq_false. intros E. by rewrite E in Hr.
Qed.

(** *** Persistent names *)

(** A link the host publishes for a device in one of the directories. *)
Definition published (t : Tree) (cfg : ScanConfig) (dirs : list string) (device link : string) : Prop :=
  exists dir entries name, dir ∈ dirs /\ ReadDir t (Join [dev cfg; "disk"; dir]) = Ok entries /\
    name ∈ entries.*1 /\ link = Join [Join [dev cfg; "disk"; dir]; name] /\
    linkTarget t (Join [dev cfg; "disk"; dir]) link = Some device.

Lemma add_links t base (set : StableLinkSet) names device link :
  link ∈ default [] (foldl (add_link t base) set names !! device) <->
  link ∈ default [] (set !! device) \/
  exists name, name ∈ names /\ link = Join [base; name] /\ linkTarget t base link = Some device.
Proof.
  revert set. induction names as [|name names IH]; intros set; simpl.
  - split; [by left|]. intros [?|(? & ?%elem_of_nil & _)]; done.
  - rewrite IH. unfold add_link. destruct (linkTarget t base (Join [base; name])) as [device'|] eqn:E.
    + destruct (decide (device' = device)) as [->|Hne].
      * rewrite lookup_insert_eq. simpl. rewrite elem_of_app, list_elem_of_singleton. split.
        -- intros [[?| ->]|(n & Hn & ?)]; [by left|right|right].
           ++ exists name. split_and!; [left|done|done].
           ++ exists n. split; [by right|done].
        -- intros [?|(n & [->|Hn]%elem_of_cons & El & Et)]; [by left; left|left; right; done|right; by exists n].
      * rewrite lookup_insert_ne by done. split; (intros [?|(n & Hn & El & Et)]; [by left|right]).
        -- exists n. split; [by right|done].
        -- apply elem_of_cons in Hn as [->|Hn]; [congruence|by exists n].
    + split; (intros [?|(n & Hn & El & Et)]; [by left|right]).
      * exists n. split; [by right|done].
      * apply elem_of_cons in Hn as [->|Hn]; [congruence|by exists n].
Qed.

Lemma read_link_dirs_elem t cfg dirs (set s : StableLinkSet) device link :
  read_link_dirs t cfg set dirs = Ok s ->
  link ∈ default [] (s !! device) <-> link ∈ default [] (set !! device) \/ published t cfg dirs device link.
Proof.
  revert set. induction dirs as [|dir dirs IH]; intros set; simpl.
  - intros [= <-]. split; [by left|]. intros [?|(? & ? & ? & ?%elem_of_nil & _)]; done.
  - assert (Hmore : published t cfg (dir :: dirs) device link <->
      published t cfg dirs device link \/
      exists entries name, ReadDir t (Join [dev cfg; "disk"; dir]) = Ok entries /\ name ∈ entries.*1 /\
        link = Join [Join [dev cfg; "disk"; dir]; name] /\
        linkTarget t (Join [dev cfg; "disk"; dir]) link = Some device).
    { unfold published. split.
      - intros (d & es & n & [->|Hd]%elem_of_cons & H); [right; by exists es, n|left; by exists d, es, n].
      - intros [(d & es & n & Hd & H)|(es & n & H)]; [exists d, es, n|exists dir, es, n];
          (split; [by constructor|done]). }
    rewrite Hmore. destruct (ReadDir t _) as [entries|[|]] eqn:E; [| |done].
    + intros Hr. rewrite (IH _ Hr), add_links. split.
      * intros [[?|(n & Hn & H)]|?]; [by left|right; right; by exists entries, n|right; by left].
      * intros [?|[?|(es & n & [= <-] & Hn & H)]]; [by left; left|by right|left; right; by exists n].
    + intros Hr. rewrite (IH _ Hr). split; [intros [?|?]; auto|]. intros [?|[?|(es & n & ? & _)]]; auto; done.
Qed.

(** The name written down for a device is one the host publishes for it, and the best of
    them: by the partition table's identifier before an identifier the device reports, before
    any other, and the first in order among those; none, only where none is published. *)
Theorem preferred_link_is_best t cfg s device link (Hs : ReadStableLinks t cfg = Ok s)
    (Hlink : published t cfg stableLinkDirs device link) :
  published t cfg stableLinkDirs device (Preferred s device) /\
  by_key link_key (Preferred s device) link.
Proof.
  unfold ReadStableLinks in Hs. destruct (read_link_dirs t cfg ∅ stableLinkDirs) as [set|] eqn:E; [|done].
  injection Hs as <-.
  assert (Hin : forall l, l ∈ default [] (set !! device) <-> published t cfg stableLinkDirs device l).
  { intros l. rewrite (read_link_dirs_elem _ _ _ _ _ _ _ E), lookup_empty. simpl.
    split; [by intros [?%elem_of_nil|?]|by right]. }
  apply Hin in Hlink. unfold Preferred. rewrite lookup_fmap.
  destruct (set !! device) as [links|]; simpl in *; [|by apply elem_of_nil in Hlink].
  assert (Hsorted := sort_by_sorted link_key links). rewrite <- (sort_by_elem link_key) in Hlink.
  destruct (sort_by link_key links) as [|best rest] eqn:El; [by apply elem_of_nil in Hlink|].
  split.
  - apply Hin, (sort_by_elem link_key). rewrite El. left.
  - apply StronglySorted_inv in Hsorted as [_ Hall]. rewrite Forall_forall in Hall.
    apply elem_of_cons in Hlink as [->|Hl]; [|by apply Hall].
    by destruct (total (by_key link_key) best best).
Qed.

(** ** A host *)

Definition assoc {V} (l : list (string * V)) (key : string) : option V :=
  match List.find (fun p => String.eqb p.1 key) l with Some p => Some p.2 | None => None end.

Definition newline : string := String (ascii_of_nat 10) "".

(** A worker with its boot disk, divided and mounted, and a second disk nothing uses. *)
Definition host : Tree :=
  let block := "/sys/class/block/" in
  let slots := "/sys/devices/pci0000:00/" in
  mkTree
    (fun path => match assoc
      [ (block ++ "vda/dev", "252:0" ++ newline); (block ++ "vda/size", "2048");
        (block ++ "vda1/dev", "252:1" ++ newline); (block ++ "vda1/size", "1024");
        (block ++ "vdb/dev", "252:16" ++ newline); (block ++ "vdb/size", "1");
        (block ++ "vdb/queue/logical_block_size", "512");
        (slots ++ "0000:00:05.0/numa_node", "1");
        ("/proc/self/mountinfo",
          "21 28 0:19 / /proc rw - proc proc rw" ++ newline ++
          "28 1 252:1 / /mnt/my\040root rw,relatime shared:1 - ext4 /dev/vda1 rw" ++ newline) ] path with
      | Some s => Ok s | None => Err NotExist end)
    (fun path => match assoc
      [ ("/sys/class/block", [("vdb", false); ("vda", false); ("vda1", false)]);
        (block ++ "vda", [("queue", true); ("vda1", true)]);
        ("/dev/disk/by-id", [("virtio-disk-2", false); ("wwn-0x5000c500", false)]) ] path with
      | Some es => Ok es | None => Err NotExist end)
    (assoc [ (block ++ "vda1/partition", false); (block ++ "vda/vda1/partition", false) ])
    (assoc [ (block ++ "vda", slots ++ "0000:00:04.0/virtio1/block/vda");
             (block ++ "vda1", slots ++ "0000:00:04.0/virtio1/block/vda/vda1");
             (block ++ "vdb", slots ++ "0000:00:05.0/virtio2/block/vdb") ])
    (assoc [ ("/dev/disk/by-id/virtio-disk-2", "../../vdb");
             ("/dev/disk/by-id/wwn-0x5000c500", "../../vdb") ]).

Definition defaults : ScanConfig := mkScanConfig "" "" "" "".

Definition kernel (path : string) : Exclusive :=
  if String.eqb path "/dev/vdb" then Granted else DeviceBusy.

Definition blank_disks : Prober :=
  Content.NewProberWithOpener (Content.local (Content.zeros 512)) [].

Definition candidates : list Candidate :=
  match Candidates host defaults kernel blank_disks with Ok cs => cs | Err _ => [] end.

Example host_candidates :
  map (fun c => (disk_name (cd_Disk c), map j_Reason (cd_Rejections c), cd_StablePath c)) candidates =
  [ ("vda", [ReasonMounted; ReasonBusy; ReasonPartitioned], "");
    ("vda1", [ReasonNotAWholeDisk; ReasonMounted; ReasonBusy], "");
    ("vdb", [], "/dev/disk/by-id/wwn-0x5000c500") ].
Proof. vm_compute. reflexivity. Qed.

Example host_places :
  map (fun c => let d := cd_Disk c in
    (k_Kind d, k_Transport d, k_PCIAddress d, k_NUMANode d, u_Mountpoints (cd_Usage c))) candidates =
  [ (KindDisk, TransportVirtio, "0000:00:04.0", NUMANodeUnknown, ["/mnt/my root"]);
    (KindPartition, TransportVirtio, "0000:00:04.0", NUMANodeUnknown, ["/mnt/my root"]);
    (KindDisk, TransportVirtio, "0000:00:05.0", 1, []) ].
Proof. vm_compute. reflexivity. Qed.

#[local] Existing Instance Discovery.Sizes.ascii_text.

(** The second disk, as a run over block devices takes it. *)
Definition block_run : option Discovery.DiscoverSpec :=
  Some (Discovery.mkSpec (Some true) None None None "").

Definition vdb : Candidate := nth 2 candidates (mkCandidate
  (mkDisk (mkBlockDevice "" "" 0 0 0 0 None None 0 false) KindLoop TransportUnknown "" "" "" false false
    false "" 0 "" [] []) no_usage no_reading [] "").

Lemma vdb_usable : Discovery.usable block_run (device_of vdb).
Proof.
  constructor.
  - left. vm_compute. reflexivity.
  - left. vm_compute. reflexivity.
  - vm_compute. discriminate.
  - right. split; [vm_compute; reflexivity|vm_compute; discriminate].
  - left. vm_compute. reflexivity.
  - vm_compute. discriminate.
  - intros f. discriminate.
Qed.

Lemma drafted_device_was_free_witness :
  exists x, Content.Read blank_disks (k_Device (cd_Disk vdb)) = Ok x /\ takeable x false.
Proof.
  assert (E : Candidates host defaults kernel blank_disks = Ok candidates) by (vm_compute; reflexivity).
  assert (H : vdb ∈ candidates) by (apply list_elem_of_In, nth_In; vm_compute; lia).
  destruct (drafted_device_was_free host defaults kernel blank_disks candidates vdb block_run E H vdb_usable)
    as (disks & _ & _ & _ & _ & _ & _ & _ & _ & x & Ex & Ht).
  exists x. split; [exact Ex|exact Ht].
Defined.

Lemma device_in_use_is_never_read_witness :
  exists c, (forall read, judge read (cd_Disk vdb) (mkUsage ["/"] false [] false None) = Some c) /\
    Available c = false /\ cd_Reading c = no_reading.
Proof. apply (device_in_use_is_never_read (cd_Disk vdb) (mkUsage ["/"] false [] false None)). left. reflexivity. Defined.

Lemma preferred_link_is_best_witness :
  exists s, ReadStableLinks host defaults = Ok s /\
    by_key link_key (Preferred s "/dev/vdb") "/dev/disk/by-id/virtio-disk-2".
Proof.
  destruct (ReadStableLinks host defaults) as [s|] eqn:E; [|vm_compute in E; discriminate E].
  exists s. split; [reflexivity|].
  refine (proj2 (preferred_link_is_best host defaults s "/dev/vdb" "/dev/disk/by-id/virtio-disk-2" E _)).
  exists "by-id", [("virtio-disk-2", false); ("wwn-0x5000c500", false)], "virtio-disk-2".
  split; [right; left|]. split; [vm_compute; reflexivity|]. split; [left|].
  split; vm_compute; reflexivity.
Defined.

(** An unreadable mount table fails the whole reading: no device of the host is offered. *)
Example unreadable_mounts :
  Candidates (mkTree (fun path => if String.eqb path "/proc/self/mountinfo" then Err (Failed "EIO")
                                  else ReadFile host path)
                (ReadDir host) (Stat host) (EvalSymlinks host) (Readlink host)) defaults kernel blank_disks =
  Err (MountsUnreadable "/proc/self/mountinfo" (Failed "EIO")).
Proof. vm_compute. reflexivity. Qed.

(** A container that mounts the host's files and reads its own mount table sees nothing
    mounted: the disk of the host's root is refused by the kernel's answer alone. *)
Example own_mount_table :
  let cs := Candidates (mkTree (fun path => if String.eqb path "/proc/self/mountinfo" then Ok ""
                                  else ReadFile host path)
                (ReadDir host) (Stat host) (EvalSymlinks host) (Readlink host)) defaults kernel blank_disks in
  match cs with
  | Ok (vda :: _) => map j_Reason (cd_Rejections vda) = [ReasonBusy; ReasonPartitioned]
  | _ => False
  end.
Proof. vm_compute. reflexivity. Qed.

End Scan.
