(* ===== verification/HostCalls.v ===== *)
(** What a node's volume stack calls on its host, and how its parts are written: the kernel's
    view of an NVMe device ([atlas-lib/nvme]: device.go, blockdevice.go, reachability.go,
    multinamespace.go, selector.go), the commands of [atlas-lib/lvm] and
    [atlas-lib/devmapper], the mounting and formatting a consumer passes in
    ([volstack/layers/filesystem.go]), and the fabric ([nvmeof.Connector]).

    A part is a program over these calls ([op]); it may fail with an error of which the code
    tells two causes apart and reads the text ([herr]). *)

From Stdlib Require Import Ascii String.
From S2P Require Import Prelude.
From S2P Require Import GoStrings.
From S2P Require Import Programs.
From S2P Require Import BlockContent.
From S2P Require Import BlockDevices.

#[local] Open Scope string_scope.
#[local] Open Scope Z_scope.
#[local] Set Default Proof Using "Type".

(** ** An NVMe device, as sysfs shows it *)

Module Nvme.

Record Controller := mkController { c_ID : string; c_DevicePath : string; c_State : string }.

(** A namespace, with the ANA state of each of its paths. *)
Record Namespace := mkNamespace {
  n_ID : Z;
  n_Name : string;
  n_DevicePath : string;
  n_Dev : string;
  n_UUID : string;
  n_LogicalBlockSize : Z;
  n_Capacity : Z;
  n_ReadOnly : bool;
  n_Paths : list string;
  n_Controller : string }.

Record Subsystem := mkSubsystem {
  s_ID : string;
  s_NQN : string;
  s_Controllers : list Controller;
  s_Namespaces : list Namespace }.

Record Device := mkDevice { Namespace_of : Namespace; Subsystem_of : Subsystem }.

Definition controllerStateLive : string := "live".
Definition IsLive (c : Controller) : bool := String.eqb (c_State c) controllerStateLive.

Definition ANAOptimized : string := "optimized".
Definition ANANonOptimized : string := "non-optimized".

(** [ANAState.Accessible]. *)
Definition ana_Accessible (s : string) : bool :=
  String.eqb s ANAOptimized || String.eqb s ANANonOptimized.

Definition rankUnreachable : Z := 0.
Definition rankLive : Z := 1.
Definition rankAccessible : Z := 2.
Definition rankOptimized : Z := 3.

Definition hasLiveController (d : Device) : bool :=
  let owner := n_Controller (Namespace_of d) in
  existsb (fun c => (String.eqb owner "" || String.eqb (c_ID c) owner) && IsLive c)
    (s_Controllers (Subsystem_of d)).

Fixpoint path_rank (best : Z) (paths : list string) : Z :=
  match paths with
  | [] => best
  | p :: paths =>
      if String.eqb p ANAOptimized then rankOptimized
      else path_rank (if ana_Accessible p then rankAccessible else best) paths
  end.

Definition rank (d : Device) : Z :=
  match n_Paths (Namespace_of d) with
  | [] => if hasLiveController d then rankLive else rankUnreachable
  | paths => path_rank rankUnreachable paths
  end.

Definition Accessible (d : Device) : bool := rankUnreachable <? rank d.

(** [parseDevNumbers] *)
Definition parseDevNumbers (dev : string) : Z * Z :=
  match Cut dev ":" with
  | (majorText, minorText, true) =>
      match Paths.ParseUint majorText 10 32, Paths.ParseUint minorText 10 32 with
      | (m, true), (n, true) => (m, n)
      | _, _ => (0, 0)
      end
  | _ => (0, 0)
  end.

Definition wrap_uint64 (z : Z) : Z := z mod 2 ^ 64.

(** [Namespace.BlockDevice]; the capacity is in sectors of 512 bytes. *)
Definition BlockDevice (n : Namespace) : Content.Device :=
  let '(major, minor) := parseDevNumbers (n_Dev n) in
  Content.mkBlockDevice (n_DevicePath n) (n_Name n) major minor
    (n_LogicalBlockSize n) (n_LogicalBlockSize n) None None
    (wrap_uint64 (n_Capacity n * 512)) (n_ReadOnly n).

(** [DeviceSelector]: the fields that are set have to match, and NSID 0 is any. *)
Record DeviceSelector := mkSelector {
  sel_NQN : string;
  sel_NSID : Z;
  sel_UUID : string;
  sel_DevicePath : string }.

#[global] Instance DeviceSelector_eq_dec : EqDecision DeviceSelector.
Proof. solve_decision. Defined.

Definition liveController (s : Subsystem) : option Controller :=
  find (fun c => IsLive c && negb (String.eqb (c_DevicePath c) "")) (s_Controllers s).

End Nvme.

(** ** The fabric *)

Module Fabrics.

(** [lvol.Endpoint] and [lvol.Connection]. *)
Record Endpoint := mkEndpoint {
  e_Transport : string;
  e_Address : string;
  e_Port : Z;
  e_NrIOQueues : Z;
  e_ReconnectDelaySec : Z;
  e_KeepAliveTMOSec : Z;
  e_CtrlLossTMOSec : option Z;
  e_FastIOFailTMOSec : option Z;
  e_HostIface : string;
  e_TLS : bool;
  e_DHCHAPSecret : string;
  e_DHCHAPCtrlSecret : string }.

Record Connection := mkConnection {
  cn_NQN : string;
  cn_NSID : Z;
  cn_UUID : string;
  cn_Endpoints : list Endpoint }.

(** [nvmeof.Target] *)
Record Target := mkTarget {
  t_NQN : string;
  t_Endpoint : Endpoint;
  t_HostNQN : string;
  t_HostID : string }.

(** [Targets], under [WithHostNQN] and [WithHostID], each of which the fabric layer passes
    where it is not empty. *)
Definition Targets (conn : Connection) (hostNQN hostID : string) : list Target :=
  map (fun e => mkTarget (cn_NQN conn) e hostNQN hostID) (cn_Endpoints conn).

End Fabrics.

(** ** The volume, as one node presents it ([volstack/plans/plans.go]) *)

Record Volume := mkVolume {
  v_UUID : string;
  v_StagingPath : string;
  v_FsType : string;
  v_DefaultFsType : string;
  v_MountFlags : list string;
  v_FormatOptions : list string;
  v_PVName : string;
  v_PVCNamespace : string;
  v_PVCName : string;
  v_ReservedBlocksPercent : string;
  v_Encrypted : bool }.

(** ** The calls *)

(** One constructor per call that leaves the process, by the type of its answer.  [RunLVM] is
    the runner of [lvm.Manager], which answers a command's output; [RunDM] that of
    [devmapper.Mapper], whose output is looked at beside its error; [ReadContent] the content
    reader; [LookupFormat] the record of what a volume carries, kept away from it; [Identify]
    the Identify Controller command, of which MNAN is read. *)
Inductive HostCall : Type -> Type :=
| RunLVM (args : list string) : HostCall (res string string)
| RunDM (args : list string) : HostCall (string * error_of string)
| Resolve (path : string) : HostCall (res string Content.Device)
| ReadContent (dev : Content.Device) : HostCall (res string Content.Reading)
| LookupFormat (volume : Volume) : HostCall (res string string)
| IsMountPoint (path : string) : HostCall (res string bool)
| Format (device fsType : string) (options : list string) : HostCall (error_of string)
| Mount (source target fsType : string) (options : list string) : HostCall (error_of string)
| Unmount (target : string) : HostCall (error_of string)
| ForceUnmount (target : string) : HostCall (error_of string)
| GrowFs (command : list string) : HostCall (error_of string)
| ListWithSelector (sel : Nvme.DeviceSelector) : HostCall (res string (list Nvme.Device))
| WaitForDevice (sel : Nvme.DeviceSelector) : HostCall (res string Nvme.Device)
| ConnectPaths (targets : list Fabrics.Target) : HostCall (error_of string)
| Identify (devicePath : string) : HostCall (res string Z)
| Disconnect (nqn : string) : HostCall (error_of string).

(** ** Errors *)

(** What [errors.Is] is asked of an error of these packages: [lvm.ErrNotOwned],
    [errGroupGone], [devmapper.ErrNotFound], or none of them. *)
Inductive sentinel := NotOwned | GroupGone | DMNotFound | NoSentinel.

#[export] Instance sentinel_eq_dec : EqDecision sentinel.
Proof. solve_decision. Defined.

Record herr := mkErr { e_is : sentinel; e_text : string }.

Definition plain (text : string) : herr := mkErr NoSentinel text.

(** [fmt.Errorf] with the text before [%w]. *)
Definition wrapped (pre : string) (e : herr) : herr := mkErr (e_is e) (pre ++ e_text e).

(** ** Parts *)

(** What the layers of a plan remember between their methods: the filesystem [Filesystem]
    detected, and what [DMLinear] last found its mapping to be.  A plan holds at most one of
    each. *)
Record Objects := mkObjects { o_detected : string; o_stale : bool }.

Definition no_objects : Objects := mkObjects "" false.

Definition op (A : Type) : Type := act HostCall Objects herr A.

Definition fails {A} (text : string) : op A := raise (plain text).

(** A call whose error is returned as it is. *)
Definition ask {A} (c : HostCall (res string A)) : op A :=
  r ← tell c;
  match r with Ok a => mret a | Err e => fails e end.

Definition request (c : HostCall (error_of string)) : op unit :=
  r ← tell c;
  match r with None => mret () | Some e => fails e end.

(** [if err := m(); err != nil { return fmt.Errorf(pre + "%w", err) }]. *)
Definition wrap {A} (pre : string) (m : op A) : op A :=
  r ← attempt m;
  match r with Ok a => mret a | Err e => raise (wrapped pre e) end.

(** [for _, x := range xs { if err := f(x); err != nil { return err } }]. *)
Fixpoint each {A} (f : A -> op unit) (xs : list A) : op unit :=
  match xs with
  | [] => mret ()
  | x :: xs => f x ≫= fun _ => each f xs
  end.

(** The same, collecting what each answers. *)
Fixpoint collect {A B} (f : A -> op B) (xs : list A) : op (list B) :=
  match xs with
  | [] => mret []
  | x :: xs => b ← f x; bs ← collect f xs; mret (b :: bs)
  end.

(** [fmt]'s [%v] of a list of strings. *)
Definition show_list (xs : list string) : string := "[" ++ String.concat " " xs ++ "]".
