(* ===== verification/Lvm.v ===== *)
(** LVM and device-mapper, as a volume stack uses them ([atlas-lib/lvm] and
    [atlas-lib/devmapper]): which commands each operation runs, how it reads what they print,
    and the tag it asks for before it changes a group.

    Every command is a call of [HostCalls]; what it prints is any text.  Decoding JSON and
    lower-casing text that is not ASCII are arguments. *)

From Stdlib Require Import Ascii String.
From S2P Require Import Prelude.
From S2P Require Import GoStrings.
From S2P Require Import Programs.
From S2P Require Import BlockContent.
From S2P Require Import BlockDevices.
From S2P Require Import HostCalls.

#[local] Open Scope string_scope.
#[local] Open Scope Z_scope.
#[local] Set Default Proof Using "Type".

(** What [encoding/json] makes of the two reports: the rows of each object type, by the one
    field that is asked for. *)
Class Json := {
  pvs_report : string -> res string (list (list string));
  lvs_report : string -> res string (list (list string));
}.

Module Lvm.

Section Manager.

Context `{!Text, !Json}.

(** ** Running a command (lvm.go) *)

(** A [PhysicalVolume] is its device path, a [VolumeGroup] its name. *)
Record LogicalVolume := mkLogicalVolume { lv_VolumeGroup : string; lv_Name : string }.

#[global] Instance LogicalVolume_eq_dec : EqDecision LogicalVolume.
Proof. solve_decision. Defined.

Definition deviceScope (devices : list string) : list string :=
  match devices with
  | [] => []
  | _ => ["--devices"; String.concat "," devices]
  end.

(** [Manager.exec]: the command, its scope, and its arguments. *)
Definition exec (devices : list string) (command : string) (args : list string) : op string :=
  ask (RunLVM (command :: deviceScope devices ++ args)%list).

(** The same, where only the error is looked at. *)
Definition exec_ (devices : list string) (command : string) (args : list string) : op unit :=
  exec devices command args ≫= fun _ => mret ().

Definition newline : ascii := ascii_of_nat 10.

Definition notice (line : string) : bool :=
  String.eqb line "" || HasPrefix line "WARNING:" || HasPrefix line "Please ".

Definition realLines (out : string) : list string :=
  filter (fun line => notice line = false) (TrimSpace <$> Split out newline).

Definition firstRealLine (out : string) : string := default "" (head (realLines out)).

(** ** What an error's text says *)

Definition isNoPVSignature (e : herr) : bool :=
  let msg := ToLower (e_text e) in Contains msg "failed to find" || Contains msg "not found".

Definition isAlreadyGone (e : herr) : bool :=
  let msg := ToLower (e_text e) in
  Contains msg "not found" || Contains msg "failed to find" || Contains msg "no pv label".

Definition isAlreadyAtSize (e : herr) : bool :=
  Contains (ToLower (e_text e)) "not larger than existing size".

(** A removal that finds nothing to remove has done what it was asked; any other failure is
    reported under [pre]. *)
Definition removal (pre : string) (m : op unit) : op unit :=
  r ← attempt m;
  match r with
  | Ok _ => mret ()
  | Err e => if isAlreadyGone e then mret () else raise (wrapped pre e)
  end.

(** ** Reports (report.go) *)

Definition decode {A} (pre : string) (r : res string A) : op A :=
  match r with Ok a => mret a | Err e => raise (wrapped pre (plain e)) end.

Definition pvsVGName (devicePath : string) : op string :=
  out ← exec [devicePath] "pvs" ["--reportformat"; "json"; "-o"; "vg_name"; devicePath];
  report ← decode ("parse pvs report for " ++ devicePath ++ ": ") (pvs_report out);
  mret (match report with
  | (name :: _) :: _ => name
  | _ => ""
  end).

Definition lvsLVNames (devices : list string) (volumeGroup : string) : op (list string) :=
  out ← exec devices "lvs" ["--reportformat"; "json"; "-o"; "lv_name"; volumeGroup];
  report ← decode ("parse lvs report for " ++ volumeGroup ++ ": ") (lvs_report out);
  mret (match report with
  | names :: _ => names
  | [] => []
  end).

(** ** Tags (tags.go) and ownership (ownership.go) *)

Definition OwnerTag : string := "storage.simplyblock.io".
Definition CreatingMarker : string := OwnerTag ++ "/creating".

Definition comma : ascii := ascii_of_nat 44.

Definition has (s : string) (l : list string) : bool := bool_decide (s ∈ l).

Definition tags_of (out : string) : list string :=
  filter (fun tag => tag <> "") (TrimSpace <$> Split (firstRealLine out) comma).

Definition VolumeGroupTags (volumeGroup : string) : op (list string) :=
  out ← wrap ("vgs -o vg_tags " ++ volumeGroup ++ ": ")
          (exec [] "vgs" ["--noheadings"; "-o"; "vg_tags"; volumeGroup]);
  mret (tags_of out).

Definition not_owned_text : string :=
  "lvm: the volume group does not carry " ++ OwnerTag ++ ", so it is not this driver's to change".

Definition ErrNotOwned (what : string) : herr := mkErr NotOwned (not_owned_text ++ ": " ++ what).
Definition errGroupGone (what : string) : herr :=
  mkErr GroupGone ("lvm: the volume group is not there: " ++ what).

Definition requireOwned (volumeGroup : string) : op unit :=
  r ← attempt (VolumeGroupTags volumeGroup);
  match r with
  | Err e => if isAlreadyGone e then raise (errGroupGone volumeGroup) else raise e
  | Ok tags => if has OwnerTag tags then mret () else raise (ErrNotOwned volumeGroup)
  end.

(** What a row of [vg_name,vg_tags] says: whether the group it names, if any, carries the
    tag. *)
Definition owned_row (fields : list string) : bool :=
  match fields with
  | _ :: tags :: _ => has OwnerTag (Split tags comma)
  | _ => false
  end.

Definition requireOwnedDevice (pv : string) : op unit :=
  r ← attempt (exec [pv] "pvs" ["--noheadings"; "-o"; "vg_name,vg_tags"; pv]);
  match r with
  | Err e => if isNoPVSignature e then mret () else raise e
  | Ok out =>
      match Paths.Fields (firstRealLine out) with
      | [] => mret ()
      | group :: rest =>
          if owned_row (group :: rest) then mret () else raise (ErrNotOwned (group ++ " on " ++ pv))
      end
  end.

Definition adopt (devices : list string) (volumeGroup : string) : op unit :=
  wrap ("adopt the volumes in VG " ++ volumeGroup ++ ": ")
    (exec_ devices "lvchange" ["--addtag"; OwnerTag; volumeGroup]) ≫= fun _ =>
  wrap ("adopt VG " ++ volumeGroup ++ ": ")
    (exec_ devices "vgchange" ["--addtag"; OwnerTag; volumeGroup]).

Definition AdoptVolumeGroup (volumeGroup : string) : op unit := adopt [] volumeGroup.
Definition adoptOnDevice (pv volumeGroup : string) : op unit := adopt [pv] volumeGroup.

Definition InformationalTagKeys : list string := ["lvol"; "pv"; "pvc"].
Definition InformationalTag (key value : string) : string := OwnerTag ++ "/" ++ key ++ "=" ++ value.
Definition isInformationalTag (tag : string) : bool :=
  existsb (fun key => HasPrefix tag (OwnerTag ++ "/" ++ key ++ "=")) InformationalTagKeys.

(** [vgchange] with a tag to put on or to take off. *)
Definition retag (flag tag volumeGroup : string) : op unit :=
  wrap ("vgchange " ++ flag ++ " " ++ tag ++ " " ++ volumeGroup ++ ": ")
    (exec_ [] "vgchange" [flag; tag; volumeGroup]).

Definition ReconcileInformationalTags (volumeGroup : string) (want : list string) : op unit :=
  tags ← VolumeGroupTags volumeGroup;
  if negb (has OwnerTag tags) then raise (ErrNotOwned volumeGroup) else
  each (fun tag => if isInformationalTag tag && negb (has tag want)
                   then retag "--deltag" tag volumeGroup else mret ()) tags ≫= fun _ =>
  each (fun tag => if has tag tags then mret () else retag "--addtag" tag volumeGroup) want.

Definition AddVolumeGroupTag (volumeGroup tag : string) : op unit :=
  requireOwned volumeGroup ≫= fun _ => retag "--addtag" tag volumeGroup.
Definition RemoveVolumeGroupTag (volumeGroup tag : string) : op unit :=
  requireOwned volumeGroup ≫= fun _ => retag "--deltag" tag volumeGroup.

(** ** Identity (identity.go) *)

(** [Manager.VolumeGroup]: the group a device's label names, and no name where the device
    carries none. *)
Definition VolumeGroup (pv : string) : op string :=
  r ← attempt (pvsVGName pv);
  match r with
  | Ok name => mret name
  | Err e => if isNoPVSignature e then mret "" else raise e
  end.

Definition ListLogicalVolumes (volumeGroup : string) : op (list LogicalVolume) :=
  names ← lvsLVNames [] volumeGroup;
  mret (mkLogicalVolume volumeGroup <$> names).

Definition HasLogicalVolume (v : LogicalVolume) : op bool :=
  lvs ← ListLogicalVolumes (lv_VolumeGroup v);
  mret (bool_decide (v ∈ lvs)).

Definition Rescan (pvs : list string) : op unit := exec_ pvs "pvscan" ["--cache"].

(** ** Clones (clone.go) *)

Definition importClone (newVolumeGroup pv : string) : op unit :=
  wrap ("vgimportclone " ++ pv ++ " to " ++ newVolumeGroup ++ ": ")
    (exec_ [pv] "vgimportclone" ["--basevgname"; newVolumeGroup; pv]).

Definition ImportClonedVolumeGroup (newVolumeGroup pv : string) : op unit :=
  requireOwnedDevice pv ≫= fun _ => importClone newVolumeGroup pv.

Definition RenameLogicalVolume (volumeGroup oldName newName : string) : op unit :=
  requireOwned volumeGroup ≫= fun _ =>
  wrap ("rename LV " ++ volumeGroup ++ "/" ++ oldName ++ " to " ++ newName ++ ": ")
    (exec_ [] "lvrename" [volumeGroup; oldName; newName]).

Definition listLogicalVolumesOn (pv volumeGroup : string) : op (list string) :=
  lvsLVNames [pv] volumeGroup.

(** [StackRecognizer]: whether a group of a name holding volumes of these names is one made
    before the tag. *)
Definition StackRecognizer : Type := string -> list string -> bool.

(** The group of a clone shown to be the driver's: by its tag, or by its names, in which case
    it is adopted. *)
Definition claimClone (pv current : string) (recognize : option StackRecognizer) : op unit :=
  r ← attempt (requireOwnedDevice pv);
  match r with
  | Ok _ => mret ()
  | Err e =>
      if negb (bool_decide (e_is e = NotOwned)) then raise e else
      volumes ← wrap ("list the volumes in " ++ current ++ " on " ++ pv ++ ": ")
                  (listLogicalVolumesOn pv current);
      if match recognize with Some p => p current volumes | None => false end
      then adoptOnDevice pv current
      else raise (mkErr NotOwned (not_owned_text ++ ": " ++ current ++ " on " ++ pv ++ " holds " ++
             show_list volumes ++ " and is not a stack of this driver's, so it is not re-identified"))
  end.

(** The one volume that still carries the source's name is renamed. *)
Definition renameForeign (volumeGroup logicalVolume : string) (preserve : list string)
    (lvs : list LogicalVolume) : op unit :=
  match find (fun v => negb (String.eqb (lv_Name v) logicalVolume || has (lv_Name v) preserve)) lvs with
  | Some v => RenameLogicalVolume volumeGroup (lv_Name v) logicalVolume
  | None => mret ()
  end.

Definition ResolveClonedVolumeGroup (pv volumeGroup logicalVolume : string)
    (recognize : option StackRecognizer) (preserve : list string) : op string :=
  _ ← attempt (Rescan [pv]);
  current ← wrap ("probe VG identity of " ++ pv ++ ": ") (VolumeGroup pv);
  if String.eqb current "" || String.eqb current volumeGroup then mret "" else
  claimClone pv current recognize ≫= fun _ =>
  importClone volumeGroup pv ≫= fun _ =>
  lvs ← wrap ("list LVs in " ++ volumeGroup ++ " after clone resolution: ")
          (ListLogicalVolumes volumeGroup);
  renameForeign volumeGroup logicalVolume preserve lvs ≫= fun _ =>
  mret current.

(** ** The devices file (devices.go) and the nodes (dm.go) *)

Definition ForgetDevice (path : string) : op unit :=
  removal ("lvmdevices --deldev " ++ path ++ ": ") (exec_ [path] "lvmdevices" ["--deldev"; path]).

Definition dash : ascii := ascii_of_nat 45.

Definition escapeDMName (name : string) : string :=
  of_bytes (flat_map (fun c => if Ascii.eqb c dash then [dash; dash] else [c]) (to_bytes name)).

Definition matchingDMNodes (volumeGroup : string) : op (list string) :=
  out ← wrap "dmsetup ls: " (exec [] "dmsetup" ["ls"]);
  let lines := filter (fun line => line <> "" /\ line <> "No devices found")
                 (TrimSpace <$> Split out newline) in
  let names := (fun line => default "" (head (Paths.Fields line))) <$> lines in
  mret (filter (fun name => HasPrefix name (escapeDMName volumeGroup ++ "-") = true) names).

Definition HasOrphanedDMNodes (volumeGroup : string) : op bool :=
  names ← matchingDMNodes volumeGroup;
  mret (match names with [] => false | _ => true end).

(** One pass over the nodes: those that would not go, and the last of the errors. *)
Fixpoint remove_pass (names : list string) (lastErr : option herr) : op (list string * option herr) :=
  match names with
  | [] => mret ([], lastErr)
  | name :: names =>
      r ← attempt (exec_ [] "dmsetup" ["remove"; name]);
      match r with
      | Ok _ => remove_pass names lastErr
      | Err e =>
          rest ← remove_pass names (Some e);
          mret (name :: rest.1, rest.2)
      end
  end.

Fixpoint remove_passes (passes : nat) (names : list string) (lastErr : option herr)
    : op (list string * option herr) :=
  match passes, names with
  | O, _ | _, [] => mret (names, lastErr)
  | S passes, _ =>
      r ← remove_pass names lastErr;
      remove_passes passes r.1 r.2
  end.

Definition RemoveOrphanedDMNodes (volumeGroup : string) : op unit :=
  names ← matchingDMNodes volumeGroup;
  r ← remove_passes 3 names None;
  match r with
  | ([], _) => mret ()
  | (stuck, lastErr) =>
      raise (wrapped ("failed to remove orphaned dm nodes " ++ show_list stuck ++ ": ")
        (default (plain "%!w(<nil>)") lastErr))
  end.

(** ** Growing (grow.go) *)

Definition ExpandPhysicalVolume (pv : string) : op unit :=
  requireOwnedDevice pv ≫= fun _ =>
  wrap ("pvresize " ++ pv ++ ": ") (exec_ [] "pvresize" [pv]).

Definition ExtendVolumeGroup (volumeGroup : string) (pvs : list string) : op unit :=
  requireOwned volumeGroup ≫= fun _ =>
  wrap ("vgextend " ++ volumeGroup ++ " with " ++ show_list pvs ++ ": ")
    (exec_ [] "vgextend" (volumeGroup :: pvs)).

Definition lv_path (v : LogicalVolume) : string := lv_VolumeGroup v ++ "/" ++ lv_Name v.

(** [lvextend], for which having nothing to grow is success. *)
Definition lvextend (arg pre : string) (v : LogicalVolume) : op unit :=
  requireOwned (lv_VolumeGroup v) ≫= fun _ =>
  r ← attempt (exec_ [] "lvextend" [arg; lv_path v]);
  match r with
  | Ok _ => mret ()
  | Err e => if isAlreadyAtSize e then mret () else raise (wrapped pre e)
  end.

Definition ExpandLogicalVolume (v : LogicalVolume) : op unit :=
  lvextend "-l+100%FREE" ("grow LV " ++ lv_path v ++ " to consume free space: ") v.

Definition ExtendLogicalVolumeToSize (v : LogicalVolume) (sizeBytes : Z) : op unit :=
  lvextend ("-L" ++ Itoa sizeBytes ++ "B")
    ("grow LV " ++ lv_path v ++ " to " ++ Itoa sizeBytes ++ " bytes: ") v.

(** ** Volumes (volume.go), and those of a type (vdo.go) *)

Record LogicalVolumeDefinition := mkDefinition {
  Deduplication : bool;
  Compression : bool;
  Stripes : Z;
  StripeChunkBytes : Z }.

(** [VolumeProvisioning]; the registry holds the one handler this package registers. *)
Record VolumeProvisioning := mkProvisioning {
  vp_Name : string;
  vp_Handles : LogicalVolumeDefinition -> bool;
  vp_CreateVolumeArgs : LogicalVolumeDefinition -> list string }.

Definition vdoBoolFlag (b : bool) : string := if b then "y" else "n".

Definition vdoProvisioning : VolumeProvisioning := mkProvisioning "vdo"
  (fun d => Compression d || Deduplication d)
  (fun d => ["--type"; "vdo"; "--config"; "activation{checks=0}";
             "--compression"; vdoBoolFlag (Compression d);
             "--deduplication"; vdoBoolFlag (Deduplication d)]).

Definition volumeProvisioning : list VolumeProvisioning := [vdoProvisioning].

Definition provisioningArgs (d : LogicalVolumeDefinition) : list string :=
  match find (fun handler => vp_Handles handler d) volumeProvisioning with
  | Some handler => vp_CreateVolumeArgs handler d
  | None => []
  end.

Definition RemovePhysicalVolume (pv : string) : op unit :=
  requireOwnedDevice pv ≫= fun _ =>
  removal ("pvremove " ++ pv ++ ": ") (exec_ [pv] "pvremove" ["--yes"; pv]).

Definition CreatePhysicalVolume (pv : string) : op string :=
  wrap ("pvcreate " ++ pv ++ ": ") (exec_ [pv] "pvcreate" [pv]) ≫= fun _ => mret pv.

Definition CreateVolumeGroup (volumeGroup : string) (pvs : list string) : op string :=
  wrap ("vgcreate " ++ volumeGroup ++ " on " ++ show_list pvs ++ ": ")
    (exec_ pvs "vgcreate" (["--addtag"; OwnerTag; volumeGroup] ++ pvs)%list) ≫= fun _ =>
  mret volumeGroup.

Definition ActivateVolumeGroup (volumeGroup : string) : op unit :=
  requireOwned volumeGroup ≫= fun _ =>
  wrap ("activate VG " ++ volumeGroup ++ ": ") (exec_ [] "vgchange" ["-ay"; volumeGroup]).

Definition DeactivateVolumeGroup (volumeGroup : string) : op unit :=
  requireOwned volumeGroup ≫= fun _ =>
  wrap ("deactivate VG " ++ volumeGroup ++ ": ") (exec_ [] "vgchange" ["-an"; volumeGroup]).

(** [requireOwned] for a removal, to which a group that is gone is one already removed. *)
Definition ifOwned (volumeGroup : string) (m : op unit) : op unit :=
  r ← attempt (requireOwned volumeGroup);
  match r with
  | Ok _ => m
  | Err e => if bool_decide (e_is e = GroupGone) then mret () else raise e
  end.

Definition RemoveVolumeGroup (volumeGroup : string) : op unit :=
  ifOwned volumeGroup
    (removal ("remove VG " ++ volumeGroup ++ ": ") (exec_ [] "vgremove" ["-f"; volumeGroup])).

Definition RemoveLogicalVolume (v : LogicalVolume) : op unit :=
  ifOwned (lv_VolumeGroup v)
    (removal ("lvremove " ++ lv_path v ++ ": ") (exec_ [] "lvremove" ["--yes"; lv_path v])).

Definition lvAttrStateIndex : nat := 4.

Definition LogicalVolumeActive (v : LogicalVolume) : op bool :=
  out ← wrap ("read attributes of " ++ lv_path v ++ ": ")
          (exec [] "lvs" ["--noheadings"; "-o"; "lv_attr"; lv_path v]);
  let attr := TrimSpace out in
  match to_bytes attr !! lvAttrStateIndex with
  | Some c => mret (Ascii.eqb c "a")
  | None => fails ("attributes of " ++ lv_path v ++ " read " ++ Quote attr ++
                   ", which carries no state character")
  end.

Definition createTarget (volumeGroup poolName : string) : string :=
  if String.eqb poolName "" then volumeGroup else volumeGroup ++ "/" ++ poolName.

(** Go's division, which cuts toward zero. *)
Definition stripeArgs (d : LogicalVolumeDefinition) : list string :=
  if Stripes d <? 2 then []
  else (["-i"; Itoa (Stripes d)] ++
        (if (0 <? StripeChunkBytes d)%Z
         then ["-I"; (Itoa (Z.quot (StripeChunkBytes d) 1024) ++ "k")%string] else []))%list.

Definition createArgs (volumeGroup poolName logicalVolume : string) (d : LogicalVolumeDefinition)
    : list string :=
  (["-n"; logicalVolume; "-l"; "100%FREE"] ++ stripeArgs d ++
   [createTarget volumeGroup poolName; "--yes"; "--addtag"; OwnerTag] ++ provisioningArgs d)%list.

Definition CreateLogicalVolume (volumeGroup poolName logicalVolume : string)
    (d : LogicalVolumeDefinition) : op LogicalVolume :=
  requireOwned volumeGroup ≫= fun _ =>
  wrap ("lvcreate " ++ volumeGroup ++ "/" ++ logicalVolume ++ ": ")
    (exec_ [] "lvcreate" (createArgs volumeGroup poolName logicalVolume d)) ≫= fun _ =>
  mret (mkLogicalVolume volumeGroup logicalVolume).

(** The error of [strconv]'s [fn] on a text. *)
Definition parse_error (fn s : string) (digits : bool) : string :=
  "strconv." ++ fn ++ ": parsing " ++ Quote s ++ ": " ++
  (if digits then "value out of range" else "invalid syntax").

(** A sign or none, and digits. *)
Definition is_number (s : string) : bool :=
  match s with
  | String "-" s | String "+" s | s => bool_decide (is_Some (atoi_unsigned s))
  end.

Definition LogicalVolumeSize (v : LogicalVolume) : op Z :=
  out ← wrap ("read size of " ++ lv_path v ++ ": ")
          (exec [] "lvs" ["--noheadings"; "--units"; "b"; "--nosuffix"; "-o"; "lv_size"; lv_path v]);
  match Atoi (TrimSpace out) with
  | Some size => mret size
  | None => fails ("parse size of " ++ lv_path v ++ " from " ++ Quote out ++ ": " ++
                   parse_error "ParseInt" (TrimSpace out) (is_number (TrimSpace out)))
  end.

End Manager.

End Lvm.

(** ** Device-mapper ([devmapper.go]) *)

Module Dm.

Section Mapper.

Context `{!Text}.

(** [Path] *)
Definition node (name : string) : string := "/dev/mapper/" ++ name.

(** [Target]: the length in sectors, and the device as major:minor. *)
Record Target := mkTarget { t_Sectors : Z; t_Device : string }.

Definition table (sectors : Z) (device : string) : string :=
  "0 " ++ Itoa sectors ++ " linear " ++ device ++ " 0".

Definition Sectors (device : string) : op Z :=
  r ← tell (RunDM ["blockdev"; "--getsz"; device]);
  match r with
  | (_, Some e) => fails ("size of " ++ device ++ ": " ++ e)
  | (out, None) =>
      match Paths.ParseUint (TrimSpace out) 10 64 with
      | (n, true) => mret n
      | _ => fails ("size of " ++ device ++ ": unexpected " ++ Quote (TrimSpace out))
      end
  end.

Definition no_such_device : string := "No such device".

Definition parseTable (name out : string) : res herr Target :=
  match Split (TrimSpace out) Lvm.newline with
  | [line] =>
      match Paths.Fields line with
      | [zero; length; kind; device; offset] =>
          if String.eqb kind "linear" && String.eqb zero "0" && String.eqb offset "0" then
            match Paths.ParseUint length 10 64 with
            | (sectors, true) => Ok (mkTarget sectors device)
            | _ => Err (plain ("mapping " ++ name ++ ": length " ++ Quote length ++ ": " ++
                Lvm.parse_error "ParseUint" length (bool_decide (is_Some (atoi_unsigned length)))))
            end
          else Err (plain ("mapping " ++ name ++ " is not a whole-device linear mapping: " ++ Quote line))
      | _ => Err (plain ("mapping " ++ name ++ " is not a whole-device linear mapping: " ++ Quote line))
      end
  | lines => Err (plain ("mapping " ++ name ++ " has " ++ Itoa (Z.of_nat (length lines)) ++
                         " segments; a linear indirection has one"))
  end.

Definition Table (name : string) : op Target :=
  r ← tell (RunDM ["dmsetup"; "table"; name]);
  match r with
  | (out, Some e) =>
      if Contains out no_such_device || Contains e no_such_device
      then raise (mkErr DMNotFound "device-mapper mapping not found")
      else fails ("dmsetup table " ++ name ++ ": " ++ e)
  | (out, None) => match parseTable name out with Ok t => mret t | Err e => raise e end
  end.

(** A command whose output is not looked at. *)
Definition run (pre : string) (args : list string) : op unit :=
  r ← tell (RunDM args);
  match r.2 with None => mret () | Some e => fails (pre ++ e) end.

Definition Create (name device : string) (sectors : Z) : op unit :=
  run ("dmsetup create " ++ name ++ ": ") ["dmsetup"; "create"; name; "--table"; table sectors device].

Definition resume (name : string) : op unit := run "" ["dmsetup"; "resume"; name].

Definition Swap (name device : string) (sectors : Z) : op unit :=
  run ("dmsetup suspend " ++ name ++ ": ") ["dmsetup"; "suspend"; name] ≫= fun _ =>
  r ← attempt (run "" ["dmsetup"; "reload"; name; "--table"; table sectors device]);
  match r with
  | Err e =>
      resumed ← attempt (resume name);
      match resumed with
      | Err e' => fails ("dmsetup reload " ++ name ++ ": " ++ e_text e ++
                         "; resume on the old table also failed: " ++ e_text e')
      | Ok _ => fails ("dmsetup reload " ++ name ++ ": " ++ e_text e ++ " (resumed on the old table)")
      end
  | Ok _ => wrap ("dmsetup resume " ++ name ++ ": ") (resume name)
  end.

Definition Remove (name : string) : op unit :=
  r ← tell (RunDM ["dmsetup"; "remove"; "--retry"; name]);
  match r with
  | (out, Some e) =>
      if Contains out no_such_device || Contains e no_such_device then mret ()
      else fails ("dmsetup remove " ++ name ++ ": " ++ e)
  | (_, None) => mret ()
  end.

End Mapper.

End Dm.
