(* ===== verification/Layers.v ===== *)
(** The layers of a volume's stack ([atlas-lib/volstack/layers]): the fabric, the fan-in of
    several, the device-mapper indirection, the three of LVM, and the filesystem; each
    method whole, as a program over the calls of [HostCalls] and the operations of [Lvm].

    [HostLayer] is the contract of [volstack.Layer] for such programs, with the interfaces a
    layer may implement besides; [install] makes of one a layer the runner of [VolStack]
    walks. *)

From Stdlib Require Import Ascii String.
From S2P Require Import Prelude.
From S2P Require Import GoStrings.
From S2P Require Import BlockContent.
From S2P Require Import VolStack.
From S2P Require Import Programs.
From S2P Require Import HostCalls.
From S2P Require Import Lvm.

#[local] Open Scope string_scope.
#[local] Open Scope Z_scope.
#[local] Set Default Proof Using "Type".

Module Layers.

Abbreviation Art := (@VolStack.Artifact Content.Device).

Definition device_artifact (dev : Content.Device) : Art := mkArtifact [dev] "" (mkGeometry 0 0).
Definition same_devices (below : Art) : Art := mkArtifact (Devices below) "" (mkGeometry 0 0).

(** ** The contract *)

Record HostHealer := mkHostHealer {
  hh_Healthy : Art -> op bool;
  hh_Heal : Art -> Art -> op unit }.

Inductive HostLayer := mkHostLayer {
  hl_Name : string;
  hl_Observe : Art -> op (State * Art);
  hl_Ensure : Art -> op Art;
  hl_Release : Art -> op unit;
  hl_Destroy : Art -> op unit;
  hl_healer : option HostHealer;
  hl_Grow : option (Art -> op Art);
  hl_Params : option (res string string);
  hl_Members : option (list HostLayer) }.

Definition pair_of (state : State) (a : Art) : op (State * Art) := mret (state, a).
Definition absent : op (State * Art) := pair_of StateAbsent no_artifact.

Definition nothing (_ : Art) : op unit := mret ().

(** ** What a record keeps of a layer *)

(** The parameter types, each encoded as JSON by what [encode] is. *)
Inductive Params :=
| FabricParams (NQN : string) (NSID : Z) (HostNQN SecretRef : string)
| DMLinearParams (Name : string)
| LVMLogicalVolumeParams (PoolName : string) (d : Lvm.LogicalVolumeDefinition)
| FilesystemParams (FsType : string).

Class Encoding := encode : Params -> res string string.

(** ** The fabric (fabric.go) *)

Section Layers.

Context `{!Text, !Json, !Encoding}.

Record FabricConfig := mkFabricConfig {
  fb_Connection : Fabrics.Connection;
  fb_HostNQN : string;
  fb_HostID : string;
  fb_SecretRef : string }.

Definition coordinates (cfg : FabricConfig) : Nvme.DeviceSelector :=
  Nvme.mkSelector (Fabrics.cn_NQN (fb_Connection cfg)) (Fabrics.cn_NSID (fb_Connection cfg)) "" "".

Definition selector (cfg : FabricConfig) : Nvme.DeviceSelector :=
  let uuid := Fabrics.cn_UUID (fb_Connection cfg) in
  if String.eqb uuid "" then coordinates cfg else Nvme.mkSelector "" 0 uuid "".

Definition selectors (cfg : FabricConfig) : list Nvme.DeviceSelector :=
  if decide (selector cfg = coordinates cfg) then [selector cfg]
  else [selector cfg; coordinates cfg].

(** The first question that finds a namespace. *)
Fixpoint lookup_by (pre : string) (sels : list Nvme.DeviceSelector) : op (list Nvme.Device) :=
  match sels with
  | [] => mret []
  | sel :: sels =>
      found ← wrap pre (ask (ListWithSelector sel));
      match found with
      | [] => lookup_by pre sels
      | _ => mret found
      end
  end.

(** Of several, the first that can take I/O, and the first of all where none can. *)
Definition better (best d : Nvme.Device) : Nvme.Device :=
  if Nvme.Accessible d && negb (Nvme.Accessible best) then d else best.

(** [Fabric.device] *)
Definition fabric_device (cfg : FabricConfig) : op (option Nvme.Device) :=
  devices ← lookup_by ("fabric: look up the namespace of " ++
              Fabrics.cn_NQN (fb_Connection cfg) ++ ": ") (selectors cfg);
  mret (match devices with
  | [] => None
  | d :: ds => Some (foldl better d ds)
  end).

Definition nvme_artifact (d : Nvme.Device) : Art :=
  device_artifact (Nvme.BlockDevice (Nvme.Namespace_of d)).

Definition fabric_Observe (cfg : FabricConfig) (_ : Art) : op (State * Art) :=
  found ← fabric_device cfg;
  match found with
  | None => absent
  | Some d =>
      pair_of (if Nvme.Accessible d then StateReady else StatePartial) (nvme_artifact d)
  end.

Definition fabric_Ensure (cfg : FabricConfig) (_ : Art) : op Art :=
  let nqn := Fabrics.cn_NQN (fb_Connection cfg) in
  match Fabrics.Targets (fb_Connection cfg) (fb_HostNQN cfg) (fb_HostID cfg) with
  | [] => fails ("fabric: the control plane published no endpoint for " ++ nqn)
  | targets =>
      wrap ("fabric: attach " ++ nqn ++ ": ") (request (ConnectPaths targets)) ≫= fun _ =>
      r ← attempt (ask (WaitForDevice (selector cfg)));
      match r with
      | Ok d => mret (nvme_artifact d)
      | Err e =>
          fallback ← attempt (fabric_device cfg);
          match fallback with
          | Ok (Some d) => mret (nvme_artifact d)
          | _ => raise (wrapped ("fabric: wait for the namespace of " ++ nqn ++ ": ") e)
          end
      end
  end.

(** [Subsystem.IsMultiNamespace]: more than one namespace attached, or an identifier above
    one, is conclusive; otherwise a live controller is asked. *)
Definition subsystem_IsMultiNamespace (s : Nvme.Subsystem) : op bool :=
  let ids := Nvme.n_ID <$> Nvme.s_Namespaces s in
  if existsb (fun id => 1 <? id) ids then mret true
  else if (1 <? length (remove_dups ids))%nat then mret true
  else match Nvme.liveController s with
  | None => fails ("subsystem " ++ Nvme.s_ID s ++ ": cannot read Identify: not connected")
  | Some c =>
      mnan ← wrap ("subsystem " ++ Nvme.s_ID s ++ ": controller " ++ Nvme.c_ID c ++ " identify: ")
               (ask (Identify (Nvme.c_DevicePath c)));
      mret (1 <? mnan)
  end.

(** [Device.IsMultiNamespace] *)
Definition IsMultiNamespace (d : Nvme.Device) : op bool :=
  if 1 <? Nvme.n_ID (Nvme.Namespace_of d) then mret true
  else subsystem_IsMultiNamespace (Nvme.Subsystem_of d).

(** [nvmeof.DetachDevice]; what it reports, no layer looks at. *)
Definition DetachDevice (d : Nvme.Device) : op unit :=
  let nqn := Nvme.s_NQN (Nvme.Subsystem_of d) in
  if String.eqb nqn "" then
    fails ("detach " ++ Nvme.n_Name (Nvme.Namespace_of d) ++ ": no subsystem NQN: unsupported")
  else
    shared ← wrap ("detach " ++ nqn ++ ": cannot tell whether the subsystem is shared with other volumes: ")
               (IsMultiNamespace d);
    if (shared : bool) then mret ()
    else wrap ("detach " ++ nqn ++ ": ") (request (Disconnect nqn)).

Definition fabric_Release (cfg : FabricConfig) (_ : Art) : op unit :=
  found ← fabric_device cfg;
  match found with
  | None => mret ()
  | Some d =>
      wrap ("fabric: detach " ++ Fabrics.cn_NQN (fb_Connection cfg) ++ ": ") (DetachDevice d)
  end.

Definition fabric_Healthy (cfg : FabricConfig) (_ : Art) : op bool :=
  found ← fabric_device cfg;
  mret (match found with None => false | Some d => Nvme.Accessible d end).

Definition fabric_Heal (cfg : FabricConfig) (below _ : Art) : op unit :=
  fabric_Ensure cfg below ≫= fun _ => mret ().

Definition Fabric (cfg : FabricConfig) : HostLayer :=
  mkHostLayer "fabric" (fabric_Observe cfg) (fabric_Ensure cfg) (fabric_Release cfg) nothing
    (Some (mkHostHealer (fabric_Healthy cfg) (fabric_Heal cfg))) None
    (Some (encode (FabricParams (Fabrics.cn_NQN (fb_Connection cfg))
      (Fabrics.cn_NSID (fb_Connection cfg)) (fb_HostNQN cfg) (fb_SecretRef cfg)))) None.

(** ** The fan-in (members.go) *)

(** What a walk of the members finds: how many are there, how many are ready, and what they
    expose, in order. *)
Fixpoint survey_members (members : list HostLayer) (below : Art)
    : op (nat * nat * list Content.Device) :=
  match members with
  | [] => mret (O, O, [])
  | m :: ms =>
      r ← wrap ("members: observe " ++ hl_Name m ++ ": ") (hl_Observe m below);
      rest ← survey_members ms below;
      let '(present, ready, devices) := rest in
      let there := negb (bool_decide (r.1 = StateAbsent)) in
      let serving := bool_decide (r.1 = StateReady) in
      mret ((if there then S present else present), (if serving then S ready else ready),
            (if there then Devices r.2 ++ devices else devices)%list)
  end.

Definition members_Observe (members : list HostLayer) (below : Art) : op (State * Art) :=
  found ← survey_members members below;
  let '(present, ready, devices) := found in
  match present with
  | O => absent
  | _ => pair_of (if (ready =? length members)%nat then StateReady else StatePartial)
           (mkArtifact devices "" (mkGeometry 0 0))
  end.

Definition members_Ensure (members : list HostLayer) (below : Art) : op Art :=
  devices ← collect (fun m =>
    own ← wrap ("members: bring up " ++ hl_Name m ++ ": ") (hl_Ensure m below);
    mret (Devices own)) members;
  mret (mkArtifact (concat devices) "" (mkGeometry 0 0)).

(** [stateOf]: a member that cannot be read is acted on. *)
Definition stateOf (m : HostLayer) (below : Art) : op (option State) :=
  r ← attempt (hl_Observe m below);
  mret (match r with Ok (state, _) => Some state | Err _ => None end).

Definition alreadyDown (state : option State) : bool :=
  match state with Some StateAbsent | Some StateInactive => true | _ => false end.
Definition alreadyGone (state : option State) : bool :=
  match state with Some StateAbsent => true | _ => false end.

(** Every member that is not down is let go; the first failure is the one reported. *)
Fixpoint release_members (members : list HostLayer) (below : Art) (firstErr : option herr)
    : op (option herr) :=
  match members with
  | [] => mret firstErr
  | m :: ms =>
      state ← stateOf m below;
      if alreadyDown state then release_members ms below firstErr else
      r ← attempt (hl_Release m below);
      release_members ms below
        (match r, firstErr with
         | Err e, None => Some (wrapped ("members: release " ++ hl_Name m ++ ": ") e)
         | _, _ => firstErr
         end)
  end.

Definition members_Release (members : list HostLayer) (below : Art) : op unit :=
  firstErr ← release_members (rev members) below None;
  match firstErr with None => mret () | Some e => raise e end.

Definition members_Destroy (members : list HostLayer) (below : Art) : op unit :=
  each (fun m =>
    state ← stateOf m below;
    if alreadyGone state then mret ()
    else wrap ("members: destroy " ++ hl_Name m ++ ": ") (hl_Destroy m below)) (rev members).

(** Whether every member that can say so is healthy. *)
Fixpoint members_Healthy (members : list HostLayer) (own : Art) : op bool :=
  match members with
  | [] => mret true
  | m :: ms =>
      match hl_healer m with
      | None => members_Healthy ms own
      | Some h =>
          healthy ← wrap ("members: check " ++ hl_Name m ++ ": ") (hh_Healthy h own);
          if (healthy : bool) then members_Healthy ms own else mret false
      end
  end.

Definition members_Heal (members : list HostLayer) (below own : Art) : op unit :=
  each (fun m =>
    match hl_healer m with
    | None => mret ()
    | Some h =>
        healthy ← wrap ("members: check " ++ hl_Name m ++ ": ") (hh_Healthy h own);
        if (healthy : bool) then mret ()
        else wrap ("members: heal " ++ hl_Name m ++ ": ") (hh_Heal h below own)
    end) members.

Definition Members (members : list HostLayer) : HostLayer :=
  mkHostLayer "members" (members_Observe members) (members_Ensure members)
    (members_Release members) (members_Destroy members)
    (Some (mkHostHealer (members_Healthy members) (members_Heal members))) None
    None (Some members).

(** ** The indirection (dmlinear.go) *)

Definition DMLinearName (uuid : string) : string := "sb-" ++ uuid.

Definition deviceNumber (dev : Content.Device) : string :=
  Itoa (Content.Major dev) ++ ":" ++ Itoa (Content.Minor dev).

Definition set_stale (stale : bool) : op unit :=
  o ← held;
  hold (mkObjects (o_detected o) stale).

Definition dm_own (name : string) : op Art :=
  dev ← wrap ("dmLinear: resolve " ++ Dm.node name ++ ": ") (ask (Resolve (Dm.node name)));
  mret (device_artifact dev).

(** Whether a mapping at [target] points elsewhere than at the device below. *)
Definition points_elsewhere (below : Art) (target : Dm.Target) : bool :=
  match artifact_Device below with
  | None => true
  | Some dev => negb (String.eqb (Dm.t_Device target) (deviceNumber dev))
  end.

Definition dm_Observe (name : string) (below : Art) : op (State * Art) :=
  r ← attempt (Dm.Table name);
  match r with
  | Err e =>
      if bool_decide (e_is e = DMNotFound) then set_stale false ≫= fun _ => absent
      else raise (wrapped ("dmLinear: read " ++ name ++ ": ") e)
  | Ok target =>
      own ← dm_own name;
      let stale := points_elsewhere below target in
      set_stale stale ≫= fun _ =>
      pair_of (if stale then StatePartial else StateReady) own
  end.

Definition dm_swap (name : string) (below : Art) : op unit :=
  match artifact_Device below with
  | None => fails ("dmLinear: cannot re-point " ++ name ++ ": no device below")
  | Some dev =>
      sectors ← wrap "dmLinear: " (Dm.Sectors (Content.Path dev));
      wrap "dmLinear: " (Dm.Swap name (deviceNumber dev) sectors) ≫= fun _ =>
      set_stale false
  end.

Definition dm_Ensure (name : string) (below : Art) : op Art :=
  r ← dm_Observe name below;
  match r.1 with
  | StateReady => mret r.2
  | StatePartial => dm_swap name below ≫= fun _ => dm_own name
  | _ =>
      match artifact_Device below with
      | None => fails ("dmLinear: " ++ name ++ " needs exactly one device below, got " ++
                       Itoa (Z.of_nat (length (Devices below))))
      | Some dev =>
          sectors ← wrap "dmLinear: " (Dm.Sectors (Content.Path dev));
          wrap "dmLinear: " (Dm.Create name (deviceNumber dev) sectors) ≫= fun _ =>
          dm_own name
      end
  end.

Definition dm_Release (name : string) (_ : Art) : op unit := Dm.Remove name.

Definition dm_Healthy (_ : Art) : op bool := o ← held; mret (negb (o_stale o)).

Definition dm_Heal (name : string) (below _ : Art) : op unit :=
  r ← attempt (Dm.Table name);
  match r with
  | Err e => if bool_decide (e_is e = DMNotFound) then dm_Ensure name below ≫= fun _ => mret ()
             else dm_swap name below
  | Ok _ => dm_swap name below
  end.

Definition DMLinear (name : string) : HostLayer :=
  mkHostLayer "dmLinear" (dm_Observe name) (dm_Ensure name) (dm_Release name) nothing
    (Some (mkHostHealer dm_Healthy (dm_Heal name))) None
    (Some (encode (DMLinearParams name))) None.

(** ** Physical volumes (lvmphysicalvolume.go) *)

Definition lvmMemberType : string := "LVM2_member".

Record LVMPhysicalVolumeConfig := mkPhysicalVolumeConfig {
  pv_VolumeGroup : string;
  pv_LogicalVolume : string;
  pv_PreserveLogicalVolumes : list string;
  pv_RecognizeStack : option Lvm.StackRecognizer }.

Definition identify (cfg : LVMPhysicalVolumeConfig) (pv : string) : op State :=
  group ← wrap ("lvmPhysicalVolume: " ++ pv ++ " carries a label and its volume group cannot be read: ")
            (Lvm.VolumeGroup pv);
  mret (if String.eqb group "" || String.eqb group (pv_VolumeGroup cfg)
        then StateReady else StateForeign).

(** One device of [survey]. *)
Definition survey_one (cfg : LVMPhysicalVolumeConfig) (dev : Content.Device) : op (string * State) :=
  let pv := Content.Path dev in
  reading ← wrap ("lvmPhysicalVolume: cannot read what " ++ pv ++
                  " carries, so it is not a device this may label: ") (ask (ReadContent dev));
  match Content.rd_Content reading with
  | Content.ContentBlank => mret (pv, StateAbsent)
  | content =>
      if bool_decide (content = Content.ContentStackLayer) &&
         String.eqb (Content.rd_Type reading) lvmMemberType
      then state ← identify cfg pv; mret (pv, state)
      else fails ("lvmPhysicalVolume: refusing to label " ++ pv ++ ", which carries " ++
             Content.Content_String content ++ ": " ++ Content.rd_Detail reading)
  end.

Definition pv_survey (cfg : LVMPhysicalVolumeConfig) (below : Art) : op (list (string * State)) :=
  match Devices below with
  | [] => fails "lvmPhysicalVolume: the layer below exposes no device to label"
  | devices => collect (survey_one cfg) devices
  end.

Definition in_state (state : State) (d : string * State) : bool := bool_decide (d.2 = state).

Definition pv_Observe (cfg : LVMPhysicalVolumeConfig) (below : Art) : op (State * Art) :=
  match Devices below with
  | [] => absent
  | _ =>
      surveyed ← pv_survey cfg below;
      if existsb (in_state StateForeign) surveyed then pair_of StateForeign (same_devices below)
      else if forallb (in_state StateAbsent) surveyed then absent
      else if forallb (in_state StateReady) surveyed then pair_of StateReady (same_devices below)
      else pair_of StatePartial (same_devices below)
  end.

Definition label_one (cfg : LVMPhysicalVolumeConfig) (d : string * State) : op unit :=
  match d.2 with
  | StateReady => mret ()
  | StateAbsent =>
      wrap "lvmPhysicalVolume: " (Lvm.CreatePhysicalVolume d.1) ≫= fun _ => mret ()
  | StateForeign =>
      wrap "lvmPhysicalVolume: "
        (Lvm.ResolveClonedVolumeGroup d.1 (pv_VolumeGroup cfg) (pv_LogicalVolume cfg)
           (pv_RecognizeStack cfg) (pv_PreserveLogicalVolumes cfg)) ≫= fun _ => mret ()
  | StatePartial | StateInactive =>
      fails ("lvmPhysicalVolume: " ++ d.1 ++ " reports " ++ state_String d.2 ++
             ", which a physical-volume label has no meaning for")
  end.

Definition pv_Ensure (cfg : LVMPhysicalVolumeConfig) (below : Art) : op Art :=
  surveyed ← pv_survey cfg below;
  each (label_one cfg) surveyed ≫= fun _ =>
  mret (same_devices below).

Definition pv_Destroy (below : Art) : op unit :=
  each (fun dev => wrap "lvmPhysicalVolume: " (Lvm.RemovePhysicalVolume (Content.Path dev)))
    (Devices below).

Definition LVMPhysicalVolume (cfg : LVMPhysicalVolumeConfig) : HostLayer :=
  mkHostLayer "lvmPhysicalVolume" (pv_Observe cfg) (pv_Ensure cfg) nothing pv_Destroy
    None None None None.

(** ** The volume group (lvmvolumegroup.go) *)

Record LVMVolumeGroupConfig := mkVolumeGroupConfig {
  vg_VolumeGroup : string;
  vg_LogicalVolume : string;
  vg_PreserveLogicalVolumes : list string;
  vg_Tags : list string }.

(** [membership]: the members that have joined, and those of no group. *)
Fixpoint membership_of (group : string) (devices : list Content.Device)
    : op (list string * list string) :=
  match devices with
  | [] => mret ([], [])
  | dev :: devices =>
      let pv := Content.Path dev in
      name ← wrap ("lvmVolumeGroup: read the volume group on " ++ pv ++ ": ") (Lvm.VolumeGroup pv);
      if negb (String.eqb name group || String.eqb name "") then
        fails ("lvmVolumeGroup: " ++ pv ++ " carries volume group " ++ name ++ " rather than " ++
               group ++ ", which lvmPhysicalVolume resolves and this layer may not")
      else
      rest ← membership_of group devices;
      mret (if String.eqb name group then (pv :: rest.1, rest.2) else (rest.1, pv :: rest.2))
  end.

Definition membership (cfg : LVMVolumeGroupConfig) (below : Art) : op (list string * list string) :=
  match Devices below with
  | [] => fails "lvmVolumeGroup: the layer below exposes no devices to make a volume group of"
  | devices => membership_of (vg_VolumeGroup cfg) devices
  end.

Definition vg_artifact (below : Art) : Art := mkArtifact (Devices below) "" (a_Geometry below).

Definition vg_Observe (cfg : LVMVolumeGroupConfig) (below : Art) : op (State * Art) :=
  match Devices below with
  | [] =>
      has ← wrap "lvmVolumeGroup: check for device-mapper nodes with no member device to read: "
              (Lvm.HasOrphanedDMNodes (vg_VolumeGroup cfg));
      if (has : bool) then pair_of StateReady no_artifact else absent
  | _ =>
      m ← membership cfg below;
      match m with
      | ([], _) => absent
      | (_, []) => pair_of StateReady (vg_artifact below)
      | _ => pair_of StatePartial (vg_artifact below)
      end
  end.

(** Whether a group holds its volume and beside it only what a stack makes for itself. *)
Definition exact_stack (volume : string) (preserve names : list string) : bool :=
  Lvm.has volume names &&
  forallb (fun name => String.eqb name volume || Lvm.has name preserve) names.

Definition ensureOwned (cfg : LVMVolumeGroupConfig) : op unit :=
  tags ← wrap "lvmVolumeGroup: " (Lvm.VolumeGroupTags (vg_VolumeGroup cfg));
  if Lvm.has Lvm.OwnerTag tags then mret () else
  volumes ← wrap ("lvmVolumeGroup: list the volumes in " ++ vg_VolumeGroup cfg ++ ": ")
              (Lvm.ListLogicalVolumes (vg_VolumeGroup cfg));
  let names := Lvm.lv_Name <$> volumes in
  if negb (exact_stack (vg_LogicalVolume cfg) (vg_PreserveLogicalVolumes cfg) names) then
    raise (mkErr NotOwned ("lvmVolumeGroup: " ++ Lvm.not_owned_text ++ ": " ++ vg_VolumeGroup cfg ++
      " carries no " ++ Lvm.OwnerTag ++ " tag and holds " ++ show_list names ++ " rather than " ++
      vg_LogicalVolume cfg ++
      " alone, so it is not a stack of this driver's from before the tag; nothing was changed"))
  else wrap "lvmVolumeGroup: " (Lvm.AdoptVolumeGroup (vg_VolumeGroup cfg)).

Definition vg_Ensure (cfg : LVMVolumeGroupConfig) (below : Art) : op Art :=
  let group := vg_VolumeGroup cfg in
  m ← membership cfg below;
  match m with
  | ([], unknown) =>
      wrap "lvmVolumeGroup: " (Lvm.CreateVolumeGroup group unknown) ≫= fun _ => mret ()
  | (_, unknown) =>
      ensureOwned cfg ≫= fun _ =>
      match unknown with
      | [] => mret ()
      | _ => wrap "lvmVolumeGroup: " (Lvm.ExtendVolumeGroup group unknown)
      end
  end ≫= fun _ =>
  wrap "lvmVolumeGroup: " (Lvm.ActivateVolumeGroup group) ≫= fun _ =>
  wrap "lvmVolumeGroup: " (Lvm.ReconcileInformationalTags group (vg_Tags cfg)) ≫= fun _ =>
  mret (vg_artifact below).

Definition vg_Release (cfg : LVMVolumeGroupConfig) (below : Art) : op unit :=
  let group := vg_VolumeGroup cfg in
  r ← attempt (Lvm.DeactivateVolumeGroup group);
  match r with
  | Ok _ => mret ()
  | Err e =>
      if bool_decide (e_is e = NotOwned) then raise (wrapped "lvmVolumeGroup: " e) else
      wrap "lvmVolumeGroup: " (Lvm.RemoveOrphanedDMNodes group) ≫= fun _ =>
      each (fun dev => (attempt (Lvm.ForgetDevice (Content.Path dev)) : op (res herr unit)) ≫=
                         fun _ => mret ()) (Devices below)
  end.

Definition vg_Destroy (cfg : LVMVolumeGroupConfig) (_ : Art) : op unit :=
  wrap "lvmVolumeGroup: " (Lvm.RemoveVolumeGroup (vg_VolumeGroup cfg)).

Definition vg_Grow (cfg : LVMVolumeGroupConfig) (below : Art) : op Art :=
  m ← membership cfg below;
  each (fun pv => wrap "lvmVolumeGroup: " (Lvm.ExpandPhysicalVolume pv)) m.1 ≫= fun _ =>
  match m.2 with
  | [] => mret ()
  | unknown => wrap "lvmVolumeGroup: " (Lvm.ExtendVolumeGroup (vg_VolumeGroup cfg) unknown)
  end ≫= fun _ =>
  mret (vg_artifact below).

Definition LVMVolumeGroup (cfg : LVMVolumeGroupConfig) : HostLayer :=
  mkHostLayer "lvmVolumeGroup" (vg_Observe cfg) (vg_Ensure cfg) (vg_Release cfg) (vg_Destroy cfg)
    None (Some (vg_Grow cfg)) None None.

(** ** The logical volume (lvmvolume.go) *)

Record LVMLogicalVolumeConfig := mkLogicalVolumeConfig {
  l_VolumeGroup : string;
  l_LogicalVolume : string;
  l_PoolName : string;
  l_Definition : Lvm.LogicalVolumeDefinition }.

Section LogicalVolume.

Context (cfg : LVMLogicalVolumeConfig).

Definition lv_volume : Lvm.LogicalVolume :=
  Lvm.mkLogicalVolume (l_VolumeGroup cfg) (l_LogicalVolume cfg).
Definition lv_pool : Lvm.LogicalVolume := Lvm.mkLogicalVolume (l_VolumeGroup cfg) (l_PoolName cfg).

Definition lv_device_path : string := "/dev/" ++ l_VolumeGroup cfg ++ "/" ++ l_LogicalVolume cfg.

Definition lv_geometry : Geometry :=
  let d := l_Definition cfg in
  if Lvm.Stripes d <? 2 then mkGeometry 0 0
  else mkGeometry (Lvm.StripeChunkBytes d) (Lvm.Stripes d).

Definition lv_artifact : op Art :=
  dev ← wrap ("lvmLogicalVolume: resolve " ++ lv_device_path ++ ": ") (ask (Resolve lv_device_path));
  mret (mkArtifact [dev] "" lv_geometry).

Definition lv_inspect : op (State * Art) :=
  has ← wrap ("lvmLogicalVolume: list the volumes in " ++ l_VolumeGroup cfg ++ ": ")
          (Lvm.HasLogicalVolume lv_volume);
  if negb has then pair_of StatePartial no_artifact else
  active ← wrap ("lvmLogicalVolume: read the state of " ++ l_VolumeGroup cfg ++ "/" ++
                 l_LogicalVolume cfg ++ ": ") (Lvm.LogicalVolumeActive lv_volume);
  if negb active then pair_of StateInactive no_artifact else
  own ← lv_artifact;
  pair_of StateReady own.

Definition lv_Observe (below : Art) : op (State * Art) :=
  match Devices below with
  | [] => absent
  | dev :: _ =>
      let pv := Content.Path dev in
      name ← wrap ("lvmLogicalVolume: read the volume group on " ++ pv ++ ": ") (Lvm.VolumeGroup pv);
      if String.eqb name "" then absent
      else if String.eqb name (l_VolumeGroup cfg) then lv_inspect
      else fails ("lvmLogicalVolume: " ++ pv ++ " carries volume group " ++ name ++ " rather than " ++
             l_VolumeGroup cfg ++ ", which lvmPhysicalVolume resolves and this layer may not")
  end.

Definition lv_create : op unit :=
  wrap "lvmLogicalVolume: "
    (Lvm.AddVolumeGroupTag (l_VolumeGroup cfg) Lvm.CreatingMarker) ≫= fun _ =>
  wrap "lvmLogicalVolume: "
    (Lvm.CreateLogicalVolume (l_VolumeGroup cfg) (l_PoolName cfg) (l_LogicalVolume cfg)
       (l_Definition cfg)) ≫= fun _ =>
  wrap "lvmLogicalVolume: "
    (Lvm.RemoveVolumeGroupTag (l_VolumeGroup cfg) Lvm.CreatingMarker).

Definition clearStaleMarker : op unit :=
  tags ← wrap "lvmLogicalVolume: " (Lvm.VolumeGroupTags (l_VolumeGroup cfg));
  if negb (Lvm.has Lvm.CreatingMarker tags) then mret ()
  else wrap "lvmLogicalVolume: clear the stale marker: "
         (Lvm.RemoveVolumeGroupTag (l_VolumeGroup cfg) Lvm.CreatingMarker).

(** A group that holds this volume's pool and nothing else. *)
Definition only_the_pool (names : list string) : bool :=
  negb (String.eqb (l_PoolName cfg) "") && bool_decide (names = [l_PoolName cfg]).

Definition completeInterruptedCreate : op unit :=
  volumes ← wrap ("lvmLogicalVolume: list the volumes in " ++ l_VolumeGroup cfg ++ ": ")
              (Lvm.ListLogicalVolumes (l_VolumeGroup cfg));
  match volumes with
  | [] => lv_create
  | _ =>
      let names := Lvm.lv_Name <$> volumes in
      if negb (only_the_pool names) then
        fails ("lvmLogicalVolume: " ++ l_VolumeGroup cfg ++ " holds " ++ show_list names ++
               " and not " ++ l_LogicalVolume cfg ++
               ", which is not an interrupted create this layer can finish; nothing was removed")
      else
      tags ← wrap "lvmLogicalVolume: " (Lvm.VolumeGroupTags (l_VolumeGroup cfg));
      if negb (Lvm.has Lvm.CreatingMarker tags) then
        fails ("lvmLogicalVolume: " ++ l_VolumeGroup cfg ++ " holds the pool " ++ l_PoolName cfg ++
               " and no volume, and carries no " ++ Lvm.CreatingMarker ++ " marker, so the pool is " ++
               "not known to be this layer's interrupted work; nothing was removed")
      else
      wrap "lvmLogicalVolume: remove the orphaned pool: "
        (Lvm.RemoveLogicalVolume lv_pool) ≫= fun _ =>
      lv_create
  end.

Definition lv_Ensure (below : Art) : op Art :=
  r ← lv_Observe below;
  match r.1 with
  | StateReady => clearStaleMarker ≫= fun _ => mret r.2
  | StateAbsent => lv_create ≫= fun _ => lv_artifact
  | StatePartial => completeInterruptedCreate ≫= fun _ => lv_artifact
  | StateInactive =>
      wrap "lvmLogicalVolume: " (Lvm.ActivateVolumeGroup (l_VolumeGroup cfg)) ≫= fun _ =>
      clearStaleMarker ≫= fun _ => lv_artifact
  | StateForeign =>
      fails "lvmLogicalVolume: a foreign volume group reached Ensure, which Observe refuses to report"
  end.

Definition lv_Destroy (_ : Art) : op unit :=
  wrap "lvmLogicalVolume: " (Lvm.RemoveLogicalVolume lv_volume).

Definition lv_target : Lvm.LogicalVolume :=
  if String.eqb (l_PoolName cfg) "" then lv_volume else lv_pool.

Definition lv_Grow (_ : Art) : op Art :=
  wrap "lvmLogicalVolume: " (Lvm.ExpandLogicalVolume lv_target) ≫= fun _ =>
  (if String.eqb (l_PoolName cfg) "" then mret ()
   else size ← wrap "lvmLogicalVolume: " (Lvm.LogicalVolumeSize lv_pool);
        wrap "lvmLogicalVolume: " (Lvm.ExtendLogicalVolumeToSize lv_volume size)) ≫= fun _ =>
  lv_artifact.

Definition LVMLogicalVolume : HostLayer :=
  mkHostLayer "lvmLogicalVolume" lv_Observe lv_Ensure nothing lv_Destroy
    None (Some lv_Grow) (Some (encode (LVMLogicalVolumeParams (l_PoolName cfg) (l_Definition cfg)))) None.

End LogicalVolume.

(** ** What one filesystem needs (filesystem_strategy.go) *)

Record FormatParameters := mkFormatParameters {
  fp_Geometry : Geometry;
  fp_ReservedBlocksPercent : string }.

Record FilesystemLayerStrategy := mkStrategy {
  st_Name : string;
  st_FormatOptions : list string -> FormatParameters -> list string;
  st_MountFlags : list string -> list string;
  st_GrowCommand : string -> string -> list string }.

Definition extBlockBytes : Z := 4096.

Definition reserveBlocks (options : list string) (percent : string) : list string :=
  if String.eqb percent "" then options else (options ++ ["-m"; percent])%list.

Definition ext_FormatOptions (options : list string) (p : FormatParameters) : list string :=
  let options := reserveBlocks options (fp_ReservedBlocksPercent p) in
  let g := fp_Geometry p in
  if negb (Known g) || negb (Z.rem (ChunkBytes g) extBlockBytes =? 0) then options
  else
    let stride := Z.quot (ChunkBytes g) extBlockBytes in
    (options ++ ["-E"; ("stride=" ++ Itoa stride ++ ",stripe_width=" ++
                        Itoa (wrap64 (stride * VolStack.Stripes g)))%string])%list.

Definition extStrategy (fsType : string) : FilesystemLayerStrategy :=
  mkStrategy fsType ext_FormatOptions (fun flags => flags) (fun device _ => ["resize2fs"; device]).

Definition xfs_FormatOptions (options : list string) (p : FormatParameters) : list string :=
  let g := fp_Geometry p in
  if negb (Known g) then options
  else (options ++
    ["-d"; ("su=" ++ Itoa (ChunkBytes g) ++ ",sw=" ++ Itoa (VolStack.Stripes g))%string;
     "-l"; ("su=" ++ Itoa (ChunkBytes g))%string])%list.

Definition xfsStrategy : FilesystemLayerStrategy :=
  mkStrategy "xfs" xfs_FormatOptions (fun flags => flags ++ ["nouuid"])%list
    (fun _ mountpoint => ["xfs_growfs"; mountpoint]).

Definition plainStrategy (fsType : string) : FilesystemLayerStrategy :=
  mkStrategy fsType (fun options _ => options) (fun flags => flags) (fun _ _ => []).

Definition FilesystemStrategyFor (fsType : string) : FilesystemLayerStrategy :=
  if bool_decide (fsType ∈ ["ext4"; "ext3"; "ext2"]) then extStrategy fsType
  else if String.eqb fsType "xfs" then xfsStrategy
  else plainStrategy fsType.

(** ** The filesystem (filesystem.go) *)

(** [PriorFormat] is the consumer's record of what the volume carries, where it keeps one. *)
Record FilesystemConfig := mkFilesystemConfig {
  fs_FsType : string;
  fs_DefaultFsType : string;
  fs_StagingPath : string;
  fs_MountFlags : list string;
  fs_FormatOptions : list string;
  fs_ReservedBlocksPercent : string;
  fs_PriorFormat : option (op string);
  fs_Encrypted : bool }.

Section Filesystem.

Context (cfg : FilesystemConfig).

Definition defaultFsType : string :=
  if String.eqb (fs_DefaultFsType cfg) "" then "ext4" else fs_DefaultFsType cfg.

Definition set_detected (fsType : string) : op unit :=
  o ← held;
  hold (mkObjects fsType (o_stale o)).

(** [known] where nothing is detected, and in general. *)
Definition known_from (detected : string) : string :=
  if negb (String.eqb (fs_FsType cfg) "") then fs_FsType cfg
  else if negb (String.eqb detected "") then detected
  else defaultFsType.

Definition known : op string := o ← held; mret (known_from (o_detected o)).

Definition effective (reading : Content.Reading) : op string :=
  let carried := Content.rd_Type reading in
  if negb (String.eqb (fs_FsType cfg) "") then mret (fs_FsType cfg)
  else if bool_decide (Content.rd_Content reading = Content.ContentFilesystem) &&
          negb (String.eqb carried "")
  then set_detected carried ≫= fun _ => mret carried
  else known.

Definition strategy : op FilesystemLayerStrategy :=
  fsType ← known; mret (FilesystemStrategyFor fsType).

Definition formatOptions (below : Art) : op (list string) :=
  s ← strategy;
  mret (st_FormatOptions s (fs_FormatOptions cfg)
    (mkFormatParameters (a_Geometry below) (fs_ReservedBlocksPercent cfg))).

Definition mountFlags : op (list string) :=
  s ← strategy; mret (st_MountFlags s (fs_MountFlags cfg)).

Definition deviceOf (below : Art) : string :=
  match artifact_Device below with Some dev => Content.Path dev | None => "the device below" end.

Definition agrees (reading : Content.Reading) : op unit :=
  let carried := Content.rd_Type reading in
  if String.eqb (fs_FsType cfg) "" || String.eqb carried (fs_FsType cfg) then mret ()
  else fails ("filesystem: the volume carries " ++ carried ++ " and this plan asks for " ++
    fs_FsType cfg ++ ", and neither reformatting it nor mounting it as " ++ carried ++
    " is safe; the plan and the volume have to be reconciled first").

Definition read_below (below : Art) : op Content.Reading :=
  match artifact_Device below with
  | None => fails "filesystem: the layer below exposes no single device to read"
  | Some dev =>
      wrap ("filesystem: cannot read what " ++ Content.Path dev ++
            " carries, so it is not a device this may format: ") (ask (ReadContent dev))
  end.

Definition Observed : Type := State * Content.Reading * Art.

(** [blank]: what a device carrying no signature means. *)
Definition blank (reading : Content.Reading) (below : Art) : op Observed :=
  match fs_PriorFormat cfg with
  | None => mret (StateAbsent, reading, no_artifact)
  | Some PriorFormat =>
      prior ← wrap ("filesystem: " ++ deviceOf below ++ " reads blank and what it carries cannot " ++
                    "be looked up, so it is not a device this may format: ") PriorFormat;
      if String.eqb prior "" then mret (StateAbsent, reading, no_artifact)
      else if negb (String.eqb (fs_FsType cfg) "") && negb (String.eqb prior (fs_FsType cfg)) then
        fails ("filesystem: refusing to stage " ++ deviceOf below ++ ", which is recorded as carrying " ++
          prior ++ " where the plan asks for " ++ fs_FsType cfg ++ ": reformatting would destroy the " ++
          "volume, and mounting it as " ++ prior ++
          " would serve a filesystem the plan does not declare")
      else
        (if String.eqb (fs_FsType cfg) "" then set_detected prior else mret ()) ≫= fun _ =>
        mret (StateInactive, reading, same_devices below)
  end.

(** [observe]: the state and the reading it was decided on. *)
Definition observed (below : Art) : op Observed :=
  let path := fs_StagingPath cfg in
  mounted ← wrap ("filesystem: check " ++ path ++ ": ") (ask (IsMountPoint path));
  if (mounted : bool) then
    mret (StateReady, Content.no_reading, mkArtifact (Devices below) path (mkGeometry 0 0))
  else match Devices below with
  | [] => mret (StateAbsent, Content.no_reading, no_artifact)
  | _ =>
      reading ← read_below below;
      let refuse : op Observed :=
        fails ("filesystem: refusing to stage " ++ deviceOf below ++ ", which carries " ++
          Content.Content_String (Content.rd_Content reading) ++ ": " ++ Content.rd_Detail reading) in
      match Content.rd_Content reading with
      | Content.ContentBlank => blank reading below
      | Content.ContentFilesystem =>
          agrees reading ≫= fun _ => mret (StateInactive, reading, same_devices below)
      | Content.ContentStackLayer => refuse
      | Content.ContentForeign | Content.ContentUnknown =>
          if fs_Encrypted cfg then blank reading below else refuse
      | Content.ContentReleased | Content.ContentSimplyblock =>
          fails ("filesystem: refusing to stage " ++ deviceOf below ++ " on an unrecognized reading")
      end
  end.

Definition fs_Observe (below : Art) : op (State * Art) :=
  found ← observed below;
  let '(state, _, own) := found in
  pair_of state own.

Definition fs_Mount (pre source fsType : string) : op unit :=
  flags ← mountFlags;
  wrap pre (request (Mount source (fs_StagingPath cfg) fsType flags)).

Definition fs_Ensure (below : Art) : op Art :=
  match artifact_Device below with
  | None => fails "filesystem: the layer below exposes no single device to put a filesystem on"
  | Some dev =>
      found ← observed below;
      let '(state, reading, own) := found in
      fsType ← effective reading;
      if bool_decide (state = StateReady) then mret own else
      (if bool_decide (state = StateAbsent) then
         options ← formatOptions below;
         wrap ("filesystem: format " ++ Content.Path dev ++ " as " ++ fsType ++ ": ")
           (request (Format (Content.Path dev) fsType options))
       else mret ()) ≫= fun _ =>
      fs_Mount ("filesystem: mount " ++ Content.Path dev ++ " at " ++ fs_StagingPath cfg ++ " as " ++
                fsType ++ ": ") (Content.Path dev) fsType ≫= fun _ =>
      mret (mkArtifact (Devices below) (fs_StagingPath cfg) (mkGeometry 0 0))
  end.

(** [clear]: a mount that cannot be asked about is one to detach, the hard way where it will
    not come down the ordinary one. *)
Definition clear : op unit :=
  let path := fs_StagingPath cfg in
  r ← attempt (ask (IsMountPoint path));
  if match r with Ok mounted => negb mounted | Err _ => false end then mret () else
  unmounted ← attempt (request (Unmount path));
  match unmounted with
  | Ok _ => mret ()
  | Err _ => wrap ("filesystem: unmount " ++ path ++ ", including its force path: ")
               (request (ForceUnmount path))
  end.

Definition fs_Release (_ : Art) : op unit := clear.

Definition fs_Healthy (_ : Art) : op bool :=
  r ← attempt (ask (IsMountPoint (fs_StagingPath cfg)));
  mret (match r with Ok mounted => mounted | Err _ => false end).

Definition fs_Heal (below _ : Art) : op unit :=
  match artifact_Device below with
  | None => fails "filesystem: the layer below exposes no device to remount"
  | Some dev =>
      reading ← read_below below;
      if negb (bool_decide (Content.rd_Content reading = Content.ContentFilesystem)) then
        fails ("filesystem: refusing to remount " ++ Content.Path dev ++ ", which carries " ++
          Content.Content_String (Content.rd_Content reading) ++ " rather than a filesystem: " ++
          Content.rd_Detail reading)
      else
      agrees reading ≫= fun _ =>
      clear ≫= fun _ =>
      fsType ← effective reading;
      fs_Mount ("filesystem: remount " ++ Content.Path dev ++ " at " ++ fs_StagingPath cfg ++ ": ")
        (Content.Path dev) fsType
  end.

Definition fs_Grow (below : Art) : op Art :=
  match artifact_Device below with
  | None => fails "filesystem: the layer below exposes no single device to grow onto"
  | Some dev =>
      let path := fs_StagingPath cfg in
      mounted ← wrap ("filesystem: check " ++ path ++ ": ") (ask (IsMountPoint path));
      if negb mounted then
        fails ("filesystem: " ++ Content.Path dev ++ " is not mounted at " ++ path ++
               ", so there is no filesystem here to grow")
      else
      s ← strategy;
      match st_GrowCommand s (Content.Path dev) path with
      | [] => fails ("filesystem: " ++ fs_FsType cfg ++ " cannot be grown in place, and this volume is " ++
                     fs_FsType cfg)
      | command =>
          wrap ("filesystem: grow " ++ Content.Path dev ++ " at " ++ path ++ ": ")
            (request (GrowFs command)) ≫= fun _ =>
          mret (mkArtifact (Devices below) path (mkGeometry 0 0))
      end
  end.

(** Its parameters are taken when the record of a bring-up is written, before anything is
    observed. *)
Definition Filesystem : HostLayer :=
  mkHostLayer "filesystem" fs_Observe fs_Ensure fs_Release nothing
    (Some (mkHostHealer fs_Healthy fs_Heal)) (Some fs_Grow)
    (Some (encode (FilesystemParams (known_from "")))) None.

End Filesystem.

End Layers.

End Layers.
