(* ===== verification/Plans.v ===== *)
(** The catalog of stack shapes ([atlas-lib/volstack/plans]), the choice among them
    ([csi-driver/internal/csi/node/plan.go]), and what any sequence of the runner's verbs over
    a plan of the catalog does to a host.

    A host is any state and any way of answering the calls; [World] keeps it with what the
    layers remember and with every call made, in order, each with the state it was made in.
    The theorems are about that log. *)

From Stdlib Require Import Ascii String.
From S2P Require Import Prelude.
From S2P Require Import GoStrings.
From S2P Require Import Handles.
From S2P Require Import BlockContent.
From S2P Require Import VolStack.
From S2P Require Import Programs.
From S2P Require Import HostCalls.
From S2P Require Import Lvm.
From S2P Require Import Layers.

#[local] Open Scope string_scope.
#[local] Open Scope Z_scope.
#[local] Set Default Proof Using "Type".

Module Plans.

Import Layers.

(** ** Names (plans.go) *)

Definition volumeGroupPrefix : string := "vol-".
Definition logicalVolumePrefix : string := "lv-".

Definition VolumeGroupName (uuid : string) : string := volumeGroupPrefix ++ uuid.
Definition LogicalVolumeName (uuid : string) : string := logicalVolumePrefix ++ uuid.

Definition VolumeGroup (v : Volume) : string := VolumeGroupName (v_UUID v).
Definition LogicalVolume (v : Volume) : string := LogicalVolumeName (v_UUID v).

Definition exactStack (volume : string) (logicalVolumes preserve : list string) : bool :=
  if negb (Lvm.has volume logicalVolumes) then false
  else forallb (fun name => String.eqb name volume || Lvm.has name preserve) logicalVolumes.

Definition RecognizeStack (preserve : list string) : Lvm.StackRecognizer :=
  fun volumeGroup logicalVolumes =>
    match CutPrefix volumeGroup volumeGroupPrefix with
    | None => false
    | Some uuid => if String.eqb uuid "" then false
                   else exactStack (LogicalVolumeName uuid) logicalVolumes preserve
    end.

Definition InformationalTags (v : Volume) : list string :=
  ([Lvm.InformationalTag "lvol" (v_UUID v)] ++
   (if String.eqb (v_PVName v) "" then [] else [Lvm.InformationalTag "pv" (v_PVName v)]) ++
   (if String.eqb (v_PVCNamespace v) "" || String.eqb (v_PVCName v) "" then []
    else [Lvm.InformationalTag "pvc" (v_PVCNamespace v ++ "/" ++ v_PVCName v)]))%list.

Record LogicalVolumeOptions := mkOptions {
  lo_Definition : Lvm.LogicalVolumeDefinition;
  lo_PoolName : string }.

(** ** What a node builds plans with (node.go) *)

(** [NodeConfig]: the seams are the calls; what is left of [PriorFormat] is whether the
    consumer keeps a record at all. *)
Record NodeConfig := mkNodeConfig {
  nc_HostNQN : string;
  nc_HostID : string;
  nc_PriorFormat : bool }.

(** ** Which shape a volume asks for *)

(** [strconv.ParseBool], whose failure reads as no. *)
Definition boolFromContext (value : string) : bool :=
  Lvm.has (TrimSpace value) ["1"; "t"; "T"; "TRUE"; "true"; "True"].

Definition ParamClientCompression : string := "client_compression".
Definition ParamClientDeduplication : string := "client_deduplication".

(** Over what a volume's context answers for a key. *)
Definition wantsVDO (vc : string -> string) : bool :=
  boolFromContext (vc ParamClientCompression) || boolFromContext (vc ParamClientDeduplication).

Definition vdoPoolName : string := "vdopool".

Definition vdoOptions (vc : string -> string) : LogicalVolumeOptions :=
  mkOptions (Lvm.mkDefinition (boolFromContext (vc ParamClientDeduplication))
    (boolFromContext (vc ParamClientCompression)) 0 0) vdoPoolName.

(** [dmIndirectionEnabled], of the value of the environment's variable. *)
Definition dmIndirectionEnabled `{!Text} (value : string) : bool :=
  Lvm.has (ToLower (TrimSpace value)) ["1"; "true"; "yes"; "on"].

Section Catalog.

Context `{!Text, !Json, !Encoding}.

(** [NewNode]: the host's identifier is taken from its name where it is not given. *)
Definition NewNode (Validate : string -> bool) (cfg : NodeConfig) : NodeConfig :=
  if String.eqb (nc_HostID cfg) "" && negb (String.eqb (nc_HostNQN cfg) "") then
    match HostUUID Validate (nc_HostNQN cfg) with
    | (hostID, true) => mkNodeConfig (nc_HostNQN cfg) hostID (nc_PriorFormat cfg)
    | _ => cfg
    end
  else cfg.

Section Node.

Context (n : NodeConfig).

Definition fabric (connection : Fabrics.Connection) : HostLayer :=
  Fabric (mkFabricConfig connection (nc_HostNQN n) (nc_HostID n) "").

Definition dmLinear (v : Volume) : HostLayer := DMLinear (DMLinearName (v_UUID v)).

Definition priorFormat (v : Volume) : option (op string) :=
  if nc_PriorFormat n then Some (ask (LookupFormat v)) else None.

Definition filesystem_config (v : Volume) : FilesystemConfig :=
  mkFilesystemConfig (v_FsType v) (v_DefaultFsType v) (v_StagingPath v) (v_MountFlags v)
    (v_FormatOptions v) (v_ReservedBlocksPercent v) (priorFormat v) (v_Encrypted v).

Definition filesystem (v : Volume) : HostLayer := Filesystem (filesystem_config v).

Definition preserved (o : LogicalVolumeOptions) : list string :=
  if String.eqb (lo_PoolName o) "" then [] else [lo_PoolName o].

Definition physicalVolume (v : Volume) (o : LogicalVolumeOptions) : HostLayer :=
  LVMPhysicalVolume (mkPhysicalVolumeConfig (VolumeGroup v) (LogicalVolume v) (preserved o)
    (Some (RecognizeStack (preserved o)))).

Definition volumeGroup (v : Volume) (o : LogicalVolumeOptions) : HostLayer :=
  LVMVolumeGroup (mkVolumeGroupConfig (VolumeGroup v) (LogicalVolume v) (preserved o)
    (InformationalTags v)).

Definition logicalVolume (v : Volume) (o : LogicalVolumeOptions) : HostLayer :=
  LVMLogicalVolume (mkLogicalVolumeConfig (VolumeGroup v) (LogicalVolume v) (lo_PoolName o)
    (lo_Definition o)).

(** ** The shapes (plans.go) *)

Definition lvmStackRaw (v : Volume) (o : LogicalVolumeOptions) : list HostLayer :=
  [physicalVolume v o; volumeGroup v o; logicalVolume v o].
Definition lvmStack (v : Volume) (o : LogicalVolumeOptions) : list HostLayer :=
  (lvmStackRaw v o ++ [filesystem v])%list.

Definition RawBlock (c : Fabrics.Connection) : list HostLayer := [fabric c].
Definition Plain (c : Fabrics.Connection) (v : Volume) : list HostLayer := [fabric c; filesystem v].
Definition IndirectRawBlock (c : Fabrics.Connection) (v : Volume) : list HostLayer :=
  [fabric c; dmLinear v].
Definition IndirectPlain (c : Fabrics.Connection) (v : Volume) : list HostLayer :=
  [fabric c; dmLinear v; filesystem v].
Definition LVM (c : Fabrics.Connection) (v : Volume) (o : LogicalVolumeOptions) : list HostLayer :=
  fabric c :: lvmStack v o.
Definition LVMRawBlock (c : Fabrics.Connection) (v : Volume) (o : LogicalVolumeOptions)
    : list HostLayer :=
  fabric c :: lvmStackRaw v o.
Definition Striped (cs : list Fabrics.Connection) (v : Volume) (o : LogicalVolumeOptions)
    : list HostLayer :=
  Members (fabric <$> cs) :: lvmStack v o.

(** ** The choice (csi-driver, plan.go) *)

Inductive stackShape :=
| shapeRawBlock | shapePlain | shapeLVM | shapeLVMRawBlock
| shapeIndirectRawBlock | shapeIndirectPlain.

Definition planFor (c : Fabrics.Connection) (v : Volume) (o : LogicalVolumeOptions)
    (shape : stackShape) : list HostLayer :=
  match shape with
  | shapeRawBlock => RawBlock c
  | shapeIndirectRawBlock => IndirectRawBlock c v
  | shapeIndirectPlain => IndirectPlain c v
  | shapeLVM => LVM c v o
  | shapeLVMRawBlock => LVMRawBlock c v o
  | shapePlain => Plain c v
  end.

Definition indirect (shape : stackShape) : stackShape :=
  match shape with
  | shapeRawBlock => shapeIndirectRawBlock
  | shapePlain => shapeIndirectPlain
  | _ => shape
  end.

(** [shapeFor], of whether the class asked for compression or deduplication and whether the
    capability is a block device. *)
Definition shapeFor (vdo block : bool) : stackShape :=
  match vdo, block with
  | true, true => shapeLVMRawBlock
  | true, false => shapeLVM
  | false, true => shapeRawBlock
  | false, false => shapePlain
  end.

(** Every plan of the catalog. *)
Inductive catalog (v : Volume) (o : LogicalVolumeOptions) : list HostLayer -> Prop :=
| one_namespace c shape : catalog v o (planFor c v o shape)
| several cs : catalog v o (Striped cs v o).

End Node.

(** ** What was built, by its record (csi-driver, plan.go and stage.go) *)

Definition layerFabric : string := "fabric".
Definition layerFilesystem : string := "filesystem".
Definition layerLVMPhysicalVolume : string := "lvmPhysicalVolume".
Definition layerLVMVolumeGroup : string := "lvmVolumeGroup".
Definition layerLVMLogicalVolume : string := "lvmLogicalVolume".
Definition layerDMLinear : string := "dmLinear".

Definition recordedLayers (record : StackRecord) : list string := e_Layer <$> r_Plan record.

Definition recordedShapes : list (list string * stackShape) :=
  [([layerFabric], shapeRawBlock);
   ([layerFabric; layerFilesystem], shapePlain);
   ([layerFabric; layerDMLinear], shapeIndirectRawBlock);
   ([layerFabric; layerDMLinear; layerFilesystem], shapeIndirectPlain);
   ([layerFabric; layerLVMPhysicalVolume; layerLVMVolumeGroup; layerLVMLogicalVolume],
    shapeLVMRawBlock);
   ([layerFabric; layerLVMPhysicalVolume; layerLVMVolumeGroup; layerLVMLogicalVolume;
     layerFilesystem], shapeLVM)].

Definition knownLayers : list string :=
  [layerFabric; layerFilesystem; layerLVMPhysicalVolume; layerLVMVolumeGroup;
   layerLVMLogicalVolume; layerDMLinear].

Definition shapeFromRecord (recorded : list string) : res string stackShape :=
  match find (fun candidate => bool_decide (recorded = candidate.1)) recordedShapes with
  | Some candidate => Ok candidate.2
  | None =>
      match find (fun layer => negb (Lvm.has layer knownLayers)) recorded with
      | Some layer =>
          Err ("the stack record names the layer " ++ Quote layer ++
            ", which this build does not know how to release; releasing the rest would leave that " ++
            "layer's object behind with nothing to remove it")
      | None =>
          Err ("the stack record names the layers " ++ show_list recorded ++
            ", which is not a shape this build stages")
      end
  end.

(** [attachShape], over what the record's store answers. *)
Definition attachShape (loaded : res verr StackRecord) (indirection : bool) (shape : stackShape)
    : stackShape :=
  match loaded with
  | Err ErrNoRecord => if indirection then indirect shape else shape
  | Err _ => shape
  | Ok record => if Lvm.has layerDMLinear (recordedLayers record) then indirect shape else shape
  end.

End Catalog.

(** ** A host, and a plan on it *)

Section Host.

Context {St : Type} (serve : forall X, HostCall X -> St -> St * X).

(** A call with its answer, and the state it was made in. *)
Definition moment : Type := St * event HostCall.

Record World := mkWorld {
  w_state : St;
  w_objects : Objects;
  w_log : list moment }.

Fixpoint recorded {R} (p : prog HostCall R) (st : St) : St * list moment * R :=
  match p with
  | Ret r => (st, [], r)
  | Vis c k =>
      let '(st', x) := serve _ c st in
      let '(st'', log, r) := recorded (k x) st' in
      (st'', (st, Ev c x) :: log, r)
  end.

(** One method of a layer. *)
Definition turn {A} (m : op A) (w : World) : World * res herr A :=
  let '(st, log, (o, r)) := recorded (m (w_objects w)) (w_state w) in
  (mkWorld st o (w_log w ++ log)%list, r).

(** As the runner sees it: an error is its text. *)
Definition answered {A} (m : op A) (w : World) : World * res string A :=
  let '(w, r) := turn m w in
  (w, match r with Ok a => Ok a | Err e => Err (e_text e) end).
Definition finished (m : op unit) (w : World) : World * error_of string :=
  let '(w, r) := turn m w in
  (w, match r with Ok _ => None | Err e => Some (e_text e) end).

Definition install_healer (h : HostHealer) : @Healer World Content.Device :=
  mkHealer (fun own => answered (hh_Healthy h own)) (fun below own => finished (hh_Heal h below own)).

Fixpoint install (l : HostLayer) : Layer World Content.Device :=
  mkLayer (hl_Name l)
    (fun below => answered (hl_Observe l below)) (fun below => answered (hl_Ensure l below))
    (fun below => finished (hl_Release l below)) (fun below => finished (hl_Destroy l below))
    (install_healer <$> hl_healer l)
    ((fun grow below => answered (grow below)) <$> hl_Grow l)
    (Some <$> hl_Params l)
    (match hl_Members l with Some ms => Some (map install ms) | None => None end).

End Host.

(** ** What a walk of the runner does to the world, by what its layers do *)

Section Walks.

Context {W Device : Type}.
Implicit Types (l : Layer W Device) (s : RState W).

(** Each method moves the world along a relation. *)
Record along (R : W -> W -> Prop) (l : Layer W Device) : Prop := {
  along_Observe below w : R w (l_Observe l below w).1;
  along_Release below w : R w (l_Release l below w).1;
  along_healer h own below w : l_healer l = Some h ->
    R w (h_Healthy h own w).1 /\ R w (h_Heal h below own w).1;
  along_Grow g below w : l_Grow l = Some g -> R w (g below w).1 }.

Definition raises (R : W -> W -> Prop) (l : Layer W Device) : Prop :=
  forall below w, R w (l_Ensure l below w).1.
Definition removes (R : W -> W -> Prop) (l : Layer W Device) : Prop :=
  forall below w, R w (l_Destroy l below w).1.

Context (R : W -> W -> Prop) `{!PreOrder R}.
#[local] Set Default Proof Using "Type*".

Definition moved s s' : Prop := R (rs_world s) (rs_world s').

#[local] Instance moved_preorder : PreOrder moved.
Proof. split; unfold moved; intros ?; [done|]. intros ? ? ? ?. by etrans. Qed.

Lemma on_layer_moved {A} (e : A -> VolStack.event) f s :
  R (rs_world s) (f (rs_world s)).1 -> moved s (on_layer e f s).1.
Proof. unfold on_layer, moved. by destruct (f (rs_world s)). Qed.

Lemma on_store_moved {E} (e : bool -> VolStack.event) (f : Store -> Store * error_of E) s :
  moved s (on_store e f s).1.
Proof. unfold on_store, moved. destruct (f (rs_store s)). done. Qed.

Lemma survey_moved below plan s : Forall (along R) plan -> moved s (survey_from below plan s).1.
Proof.
  intros Hp. revert below s. induction Hp as [|l plan Hl _ IH]; intros below s; simpl; [done|].
  unfold observe. assert (H := on_layer_moved (fun _ => EvObserve (Name l)) (l_Observe l below) s
    (along_Observe _ _ Hl below _)).
  destruct (on_layer _ _ s) as [s1 [[state own]|e]]; [|done]. cbn [fst] in H.
  specialize (IH own s1). destruct (survey_from own plan s1). by etrans.
Qed.

Lemma release_each_moved ls s : Forall (fun p => along R p.1) ls -> moved s (release_each ls s).
Proof.
  intros Hp. revert s. induction Hp as [|[l below] ls Hl _ IH]; intros s; simpl; [done|].
  etrans; [|apply IH]. apply on_layer_moved, Hl.
Qed.

Lemma zip_along plan (inputs : list (VolStack.Artifact Device)) :
  Forall (along R) plan -> Forall (fun p => along R p.1) (rev (zip plan inputs)).
Proof.
  intros Hp. apply Forall_rev. revert inputs. induction Hp as [|l plan Hl _ IH]; intros [|i inputs]; simpl; auto.
Qed.

Lemma unwind_moved brought s : Forall (along R) brought -> moved s (unwind brought s).
Proof.
  intros Hp. unfold unwind, survey. assert (H := survey_moved no_artifact brought s Hp).
  destruct (survey_from no_artifact brought s) as [s1 r]. etrans; [exact H|].
  by apply release_each_moved, zip_along.
Qed.

Lemma up_from_moved handle plan i rest below s :
  Forall (along R) plan -> Forall (raises R) rest -> moved s (up_from handle plan i rest below s).1.
Proof.
  intros Hp Hr. revert i below s. induction Hr as [|l rest Hl _ IH]; intros i below s; simpl; [done|].
  assert (H := on_store_moved (EvMark i) (fun st => MarkAttempted st handle i) s).
  destruct (on_store _ _ s) as [s1 [err|]]; [done|]. cbn [fst] in H. unfold ensure.
  assert (H1 := on_layer_moved (fun _ => EvEnsure (Name l)) (l_Ensure l below) s1 (Hl below _)).
  destruct (on_layer _ _ s1) as [s2 [above|e]]; cbn [fst] in *.
  - etrans; [exact H|]. etrans; [exact H1|]. apply IH.
  - etrans; [exact H|]. etrans; [exact H1|]. by apply unwind_moved, Forall_take.
Qed.

Lemma Up_moved handle plan s :
  Forall (along R) plan -> Forall (raises R) plan -> moved s (Up handle plan s).1.
Proof.
  intros Hp Hr. unfold Up. destruct (recordFor handle plan) as [rec|]; [|done].
  assert (H := on_store_moved EvRecord (fun st => Write st rec) s).
  destruct (on_store _ _ s) as [s1 [err|]]; [done|]. etrans; [exact H|]. by apply up_from_moved.
Qed.

Lemma release_down_moved ts s : Forall (fun t => along R (t_layer t)) ts -> moved s (release_down ts s).1.
Proof.
  intros Hp. revert s. induction Hp as [|t ts Hl _ IH]; intros s; simpl; [done|].
  destruct (passed_over _ _); [apply IH|]. unfold release.
  assert (H := on_layer_moved (fun err => EvRelease (Name (t_layer t)) (is_nil err))
    (l_Release (t_layer t) (t_input t)) s (along_Release _ _ Hl _ _)).
  destruct (on_layer _ _ s) as [s1 [err|]]; [done|]. etrans; [exact H|]. apply IH.
Qed.

Lemma teardowns_along plan surveyed marks i :
  Forall (along R) plan -> Forall (fun t => along R (t_layer t)) (teardowns plan surveyed marks i).
Proof. intros Hp. revert i. induction Hp; intros i; simpl; auto. Qed.

Lemma Down_moved handle plan s : Forall (along R) plan -> moved s (Down handle plan s).1.
Proof.
  intros Hp. unfold Down, attempted. destruct (Load (rs_store s) handle) as [store r]. unfold survey.
  match goal with |- context [survey_from _ _ ?s1] =>
    assert (H := survey_moved no_artifact plan s1 Hp); destruct (survey_from no_artifact plan s1) as [s2 r2] end.
  match goal with |- context [release_down ?ts s2] =>
    assert (H1 : moved s2 (release_down ts s2).1)
      by (apply release_down_moved, Forall_rev, teardowns_along, Hp);
    destruct (release_down ts s2) as [s3 [err|]] end; cbn [fst] in *.
  - by etrans.
  - etrans; [exact H|]. etrans; [exact H1|]. apply on_store_moved.
Qed.

Lemma heal_from_moved below plan s : Forall (along R) plan -> moved s (heal_from below plan s).1.
Proof.
  intros Hp. revert below s. induction Hp as [|l plan Hl _ IH]; intros below s; simpl; [done|].
  assert (Hobs : forall s, moved s (observe l below s).1)
    by (intros s1; apply (on_layer_moved (fun _ => EvObserve (Name l))), Hl).
  specialize (Hobs s) as H. destruct (observe l below s) as [s1 [[state own]|e]]; cbn [fst] in H;
    (destruct (l_healer l) as [h|] eqn:Eh; [|try done; by etrans]).
  - assert (H1 : moved s1 (healthy l h own s1).1)
      by (apply (on_layer_moved (fun _ => EvHealthy (Name l))), (along_healer _ _ Hl h own below), Eh).
    destruct (healthy l h own s1) as [s2 [[]|e]]; cbn [fst] in H1; [etrans; [exact H|]; by etrans| |by etrans].
    assert (H2 : moved s2 (heal l h below own s2).1)
      by (apply (on_layer_moved (fun _ => EvHeal (Name l))), (along_healer _ _ Hl h own below), Eh).
    destruct (heal l h below own s2) as [s3 [err|]]; cbn [fst] in H2; (etrans; [exact H|]);
      (etrans; [exact H1|]); [done|by etrans].
  - assert (H1 : moved s1 (heal l h below no_artifact s1).1)
      by (apply (on_layer_moved (fun _ => EvHeal (Name l))), (along_healer _ _ Hl h no_artifact below), Eh).
    destruct (heal l h below no_artifact s1) as [s2 [err|]]; cbn [fst] in H1; [by etrans|].
    specialize (Hobs s2). destruct (observe l below s2) as [s3 [[state own]|e']]; cbn [fst] in Hobs;
      (etrans; [exact H|]); (etrans; [exact H1|]); [by etrans|done].
Qed.

Lemma grow_from_moved below plan s : Forall (along R) plan -> moved s (grow_from below plan s).1.
Proof.
  intros Hp. revert below s. induction Hp as [|l plan Hl _ IH]; intros below s; simpl; [done|].
  destruct (l_Grow l) as [g|] eqn:Eg.
  - assert (H : moved s (grow l g below s).1)
      by (by apply (on_layer_moved (fun _ => EvGrow (Name l))), (along_Grow _ _ Hl g below)).
    destruct (grow l g below s) as [s1 [above|e]]; [by etrans|done].
  - assert (H : moved s (observe l below s).1)
      by (apply (on_layer_moved (fun _ => EvObserve (Name l))), Hl).
    destruct (observe l below s) as [s1 [[state above]|e]]; [by etrans|done].
Qed.

Lemma observe_from_moved below plan s : Forall (along R) plan -> moved s (observe_from below plan s).1.
Proof.
  intros Hp. revert below s. induction Hp as [|l plan Hl _ IH]; intros below s; simpl; [done|].
  assert (H : moved s (observe l below s).1)
    by (apply (on_layer_moved (fun _ => EvObserve (Name l))), Hl).
  destruct (observe l below s) as [s1 [[state own]|e]]; [by etrans|done].
Qed.

Lemma destroy_down_moved ts s : Forall (fun t => removes R t.1) ts -> moved s (destroy_down ts s).1.
Proof.
  intros Hp. revert s. induction Hp as [|[l [input state]] ts Hl _ IH]; intros s; simpl; [done|].
  destruct (decide _); [apply IH|].
  assert (H : moved s (destroy l input s).1)
    by (apply (on_layer_moved (fun err => EvDestroy (Name l) (is_nil err))), Hl).
  destruct (destroy l input s) as [s1 [err|]]; [done|]. etrans; [exact H|]. apply IH.
Qed.

Lemma DestroyStack_moved handle plan s :
  Forall (along R) plan -> Forall (removes R) plan -> moved s (DestroyStack handle plan s).1.
Proof.
  intros Hp Hr. unfold DestroyStack, survey. assert (H := survey_moved no_artifact plan s Hp).
  destruct (survey_from no_artifact plan s) as [s1 [surveyed|e]]; [|done].
  assert (Hz : Forall (fun t => removes R t.1) (rev (zip plan surveyed))).
  { apply Forall_rev. clear H. revert surveyed. induction Hr as [|l ls Hl _ IH]; intros [|[below st] surveyed]; simpl; auto.
    constructor; [done|]. apply IH. by inversion Hp. }
  assert (H1 := destroy_down_moved _ s1 Hz).
  destruct (destroy_down _ s1) as [s2 [err|]]; cbn [fst] in *; [by etrans|].
  etrans; [exact H|]. etrans; [exact H1|]. apply on_store_moved.
Qed.

End Walks.

End Plans.
