(* ===== verification/StackSafety.v ===== *)
(** What the runner's verbs may do to a host, over any plan of the catalog: nothing is
    formatted, labeled, created or removed without the evidence the code asks for, a group
    that is not the driver's is not changed, and a subsystem that may be shared is not
    disconnected.

    [permitted] and [allowed] say which evidence a command or a call needs, as the calls made
    before it and what they were answered; every method of every layer is shown to call
    nothing else, and the verbs through [Plans]. *)

From Stdlib Require Import Ascii String.
From S2P Require Import Prelude.
From S2P Require Import GoStrings.
From S2P Require Import BlockContent.
From S2P Require Import BlockDevices.
From S2P Require Import VolStack.
From S2P Require Import Programs.
From S2P Require Import HostCalls.
From S2P Require Import Lvm.
From S2P Require Import Layers.
From S2P Require Import Plans.

#[local] Open Scope string_scope.
#[local] Open Scope Z_scope.
#[local] Set Default Proof Using "Type".

Module StackSafety.

Import Lvm Layers Plans.

(** ** Evidence *)

(** What was called, and answered, so far. *)
Definition trace : Type := list (event HostCall).

(** What a method is for: [Live] is every method but [Ensure] and [Destroy]. *)
Inductive mode := Live | Raise | Delete.

Section Evidence.

Context `{!Text, !Json}.

Definition tags_query (group : string) : list string :=
  ["vgs"; "--noheadings"; "-o"; "vg_tags"; group].
Definition device_query (pv : string) : list string :=
  ["pvs"; "--devices"; pv; "--noheadings"; "-o"; "vg_name,vg_tags"; pv].
Definition group_query (pv : string) : list string :=
  ["pvs"; "--devices"; pv; "--reportformat"; "json"; "-o"; "vg_name"; pv].
Definition volumes_query (devices : list string) (group : string) : list string :=
  ("lvs" :: deviceScope devices ++ ["--reportformat"; "json"; "-o"; "lv_name"; group])%list.

(** A tag put on a group or taken off it. *)
Definition retags (group : string) (e : event HostCall) : Prop :=
  exists flag tag answer, e = Ev (RunLVM ["vgchange"; flag; tag; group]) answer.

(** The group was seen to carry the driver's tag, and since then only tags were changed. *)
Definition tagged (h : trace) (group : string) : Prop :=
  exists pre out mid, h = (pre ++ Ev (RunLVM (tags_query group)) (Ok out) :: mid)%list /\
    OwnerTag ∈ tags_of out /\ Forall (retags group) mid.

(** The device was just asked what it is a part of: of nothing, or of a group that carries the
    tag. *)
Definition device_ours (answer : res string string) : Prop :=
  match answer with
  | Err e => isNoPVSignature (plain e) = true
  | Ok out => Paths.Fields (firstRealLine out) = [] \/ owned_row (Paths.Fields (firstRealLine out)) = true
  end.
Definition device_free (h : trace) (pv : string) : Prop :=
  exists pre answer, h = (pre ++ [Ev (RunLVM (device_query pv)) answer])%list /\ device_ours answer.

(** What [Manager.VolumeGroup] makes of the answer to its question: a group, no group, or
    nothing it may rely on. *)
Definition group_said (pv : string) (answer : res string string) : option string :=
  let read := match answer with
    | Err e => Err (plain e)
    | Ok out =>
        match pvs_report out with
        | Err e => Err (wrapped ("parse pvs report for " ++ pv ++ ": ") (plain e))
        | Ok ((name :: _) :: _) => Ok name
        | Ok _ => Ok ""
        end
    end in
  match read with
  | Ok name => Some name
  | Err e => if isNoPVSignature e then Some "" else None
  end.

Definition is_group_query (e : event HostCall) : Prop :=
  exists pv answer, e = Ev (RunLVM (group_query pv)) answer.

(** The device was asked for its group and named none, and since then only others were
    asked. *)
Definition groupless (h : trace) (pv : string) : Prop :=
  exists pre answer mid, h = (pre ++ Ev (RunLVM (group_query pv)) answer :: mid)%list /\
    group_said pv answer = Some "" /\ Forall is_group_query mid.

(** The volumes of a group, as they were listed. *)
Definition listed (devices : list string) (group : string) (names : list string)
    (e : event HostCall) : Prop :=
  exists out report, e = Ev (RunLVM (volumes_query devices group)) (Ok out) /\
    lvs_report out = Ok report /\ names = match report with ns :: _ => ns | [] => [] end.

Context (v : Volume) (o : LogicalVolumeOptions) (kept : bool).

(** The group just listed is a stack from before the tag, of this volume or, on a clone's
    device, of the volume its own name says. *)
Definition ours_untagged (devices : list string) (group : string) (names : list string) : Prop :=
  match devices with
  | [] => group = VolumeGroup v /\ exact_stack (LogicalVolume v) (preserved o) names = true
  | _ => RecognizeStack (preserved o) group names = true
  end.
Definition adopt_volumes (devices : list string) (group : string) : list string :=
  ("lvchange" :: deviceScope devices ++ ["--addtag"; OwnerTag; group])%list.
Definition adopt_group (devices : list string) (group : string) : list string :=
  ("vgchange" :: deviceScope devices ++ ["--addtag"; OwnerTag; group])%list.
Definition adoptable (h : trace) (devices : list string) (group : string) : Prop :=
  exists pre names e, h = (pre ++ [e])%list /\ listed devices group names e /\
    ours_untagged devices group names.
Definition adopting (h : trace) (devices : list string) (group : string) : Prop :=
  exists h' out, adoptable h' devices group /\
    h = (h' ++ [Ev (RunLVM (adopt_volumes devices group)) (Ok out)])%list.

(** The group on a clone's device is the driver's: by its tag, or adopted just now. *)
Definition claimed (h : trace) (pv : string) : Prop :=
  device_free h pv \/
  exists h' group out, adopting h' [pv] group /\
    h = (h' ++ [Ev (RunLVM (adopt_group [pv] group)) (Ok out)])%list.

(** The group holds this volume's pool and nothing else, under the marker of an interrupted
    create, and carries the tag. *)
Definition orphaned_pool (h : trace) : Prop :=
  exists pre e marked owned,
    h = (pre ++ [e; Ev (RunLVM (tags_query (VolumeGroup v))) (Ok marked);
                    Ev (RunLVM (tags_query (VolumeGroup v))) (Ok owned)])%list /\
    listed [] (VolumeGroup v) [lo_PoolName o] e /\
    CreatingMarker ∈ tags_of marked /\ OwnerTag ∈ tags_of owned.

(** The group could not be unmapped: LVM did not say which tags it carries, or it carries the
    driver's and the unmapping failed.  A group that was said to carry none of the driver's is
    not among these. *)
Inductive unmap_failed (group : string) : trace -> Prop :=
| unmap_unread pre e : unmap_failed group (pre ++ [Ev (RunLVM (tags_query group)) (Err e)])%list
| unmap_refused pre out e : OwnerTag ∈ tags_of out ->
    unmap_failed group (pre ++ [Ev (RunLVM (tags_query group)) (Ok out);
                                Ev (RunLVM ["vgchange"; "-an"; group]) (Err e)])%list.

(** What the cleanup after it runs. *)
Definition cleans (e : event HostCall) : Prop :=
  exists command args answer, e = Ev (RunLVM (command :: args)) answer /\
    command ∈ ["dmsetup"; "lvmdevices"].

(** The group could not be unmapped, and since then only the cleanup ran. *)
Definition given_up (h : trace) (group : string) : Prop :=
  exists pre mid, h = (pre ++ mid)%list /\ unmap_failed group pre /\ Forall cleans mid.

(** The nodes were listed since, and this is one of them under the name of the group. *)
Definition group_node (group name out : string) : Prop :=
  HasPrefix name (escapeDMName group ++ "-") = true /\
  exists line, line ∈ Split out newline /\ name = default "" (head (Paths.Fields (TrimSpace line))).
Definition stranded (h : trace) (group name : string) : Prop :=
  exists pre out mid, h = (pre ++ Ev (RunLVM ["dmsetup"; "ls"]) (Ok out) :: mid)%list /\
    given_up pre group /\ Forall cleans mid /\ group_node group name out.

(** A command of the indirection: it asks a device's size, or names the mapping that is made
    for this volume. *)
Definition own_mapping (args : list string) : Prop :=
  let name := DMLinearName (v_UUID v) in
  (exists device, args = ["blockdev"; "--getsz"; device]) \/
  args = ["dmsetup"; "remove"; "--retry"; name] \/
  exists verb rest, verb ∈ ["table"; "create"; "suspend"; "reload"; "resume"] /\
    args = "dmsetup" :: verb :: name :: rest.

(** What runs between the readings of a set of devices and the labeling of one of them. *)
Definition surveys (e : event HostCall) : Prop :=
  match e with
  | Ev (ReadContent _) _ | Ev (RunLVM _) _ => True
  | _ => False
  end.

(** The device read blank. *)
Definition read_blank (h : trace) (path : string) : Prop :=
  exists pre dev r mid, h = (pre ++ Ev (ReadContent dev) (Ok r) :: mid)%list /\
    Content.Path dev = path /\ Content.rd_Content r = Content.ContentBlank /\ Forall surveys mid.

(** ** What each command needs *)

Inductive permitted (m : mode) (h : trace) : list string -> Prop :=
| p_read command args :
    command ∈ ["pvs"; "vgs"; "lvs"; "pvscan"] -> permitted m h (command :: args)
| p_nodes : permitted m h ["dmsetup"; "ls"]
| p_drop name : stranded h (VolumeGroup v) name -> permitted m h ["dmsetup"; "remove"; name]
| p_forget device : given_up h (VolumeGroup v) ->
    permitted m h ["lvmdevices"; "--devices"; device; "--deldev"; device]
| p_unmap group : tagged h group -> permitted m h ["vgchange"; "-an"; group]
| p_extend group pvs : tagged h group -> permitted m h ("vgextend" :: group :: pvs)
| p_enlarge arg w : tagged h (lv_VolumeGroup w) ->
    permitted m h ["lvextend"; arg; lv_path w]
| p_resize pv : device_free h pv -> permitted m h ["pvresize"; pv]
| p_label pv : m = Raise -> read_blank h pv -> permitted m h ["pvcreate"; "--devices"; pv; pv]
| p_group group pvs : m = Raise -> Forall (groupless h) pvs ->
    permitted m h ("vgcreate" :: deviceScope pvs ++ ["--addtag"; OwnerTag; group] ++ pvs)%list
| p_map group : m = Raise -> tagged h group -> permitted m h ["vgchange"; "-ay"; group]
| p_tag flag tag group : m = Raise -> tagged h group -> permitted m h ["vgchange"; flag; tag; group]
| p_create group pool name d : m = Raise -> tagged h group ->
    permitted m h ("lvcreate" :: createArgs group pool name d)
| p_rename group old new : m = Raise -> tagged h group -> permitted m h ["lvrename"; group; old; new]
| p_adopt_volumes devices group : m = Raise -> adoptable h devices group ->
    permitted m h (adopt_volumes devices group)
| p_adopt_group devices group : m = Raise -> adopting h devices group ->
    permitted m h (adopt_group devices group)
| p_import pv group : m = Raise -> claimed h pv ->
    permitted m h ["vgimportclone"; "--devices"; pv; "--basevgname"; group; pv]
| p_pool : m = Raise -> orphaned_pool h ->
    permitted m h ["lvremove"; "--yes"; lv_path (mkLogicalVolume (VolumeGroup v) (lo_PoolName o))]
| p_remove w : m = Delete -> tagged h (lv_VolumeGroup w) -> permitted m h ["lvremove"; "--yes"; lv_path w]
| p_remove_group group : m = Delete -> tagged h group -> permitted m h ["vgremove"; "-f"; group]
| p_unlabel pv : m = Delete -> device_free h pv ->
    permitted m h ["pvremove"; "--devices"; pv; "--yes"; pv].

(** ** What each call needs *)

(** Nothing is mounted, the device was read, and what is kept of the volume says that it was
    never formatted; where it is not encrypted, the reading said blank. *)
Definition unformatted (h : trace) (path : string) : Prop :=
  exists pre dev r,
    h = (pre ++ [Ev (IsMountPoint (v_StagingPath v)) (Ok false); Ev (ReadContent dev) (Ok r)] ++
         (if kept then [Ev (LookupFormat v) (Ok "")] else []))%list /\
    Content.Path dev = path /\
    (Content.rd_Content r = Content.ContentBlank \/
     v_Encrypted v = true /\ Content.rd_Content r ∈ [Content.ContentForeign; Content.ContentUnknown]).

(** The kernel was just asked for the device and showed its subsystem with one namespace, of
    identifier one at most, and a live controller of it answered that it holds one at most. *)
Definition unshared (h : trace) (nqn : string) : Prop :=
  exists pre sel found d c mnan,
    h = (pre ++ [Ev (ListWithSelector sel) (Ok found); Ev (Identify (Nvme.c_DevicePath c)) (Ok mnan)])%list /\
    d ∈ found /\ Nvme.s_NQN (Nvme.Subsystem_of d) = nqn /\ nqn <> "" /\
    (Nvme.n_ID (Nvme.Namespace_of d) <= 1) /\
    Forall (fun id => id <= 1) (Nvme.n_ID <$> Nvme.s_Namespaces (Nvme.Subsystem_of d)) /\
    (length (remove_dups (Nvme.n_ID <$> Nvme.s_Namespaces (Nvme.Subsystem_of d))) <= 1)%nat /\
    c ∈ Nvme.s_Controllers (Nvme.Subsystem_of d) /\ Nvme.IsLive c = true /\ mnan <= 1.

Definition allowed (m : mode) (X : Type) (c : HostCall X) (h : trace) : Prop :=
  match c with
  | RunLVM args => permitted m h args
  | Format device _ _ => m = Raise /\ unformatted h device
  | Disconnect nqn => unshared h nqn
  | RunDM args => own_mapping args
  | _ => True
  end.

End Evidence.

(** ** Judging a part *)

Create HintDb stack.

Section Judged.

Context {text : Text} {json : Json} (v : Volume) (o : LogicalVolumeOptions) (kept : bool).

Definition policy (m : mode) : Rule HostCall trace :=
  watched (allowed v o kept m) (fun X (c : HostCall X) x h => (h ++ [Ev c x])%list)
    (fun _ _ _ => True).

(** From a trace of which [P] holds, the part calls only what is allowed, and [Q] holds of
    what it answers and of the trace then. *)
Definition triple {A} (m : mode) (P : trace -> Prop) (p : op A) (Q : res herr A -> trace -> Prop)
    : Prop :=
  forall s h, P h -> @wp _ _ (policy m) _ (p s) (fun '(_, r) h => Q r h) h.

(** Where only a result that is no error is worth something. *)
Definition gives {A} (Q : A -> trace -> Prop) (r : res herr A) (h : trace) : Prop :=
  match r with Ok a => Q a h | Err _ => True end.

Definition anyhow {A} (_ : A) (_ : trace) : Prop := True.
Definition always (_ : trace) : Prop := True.

(** A part that needs nothing and is relied on for nothing. *)
Definition safe {A} (m : mode) (p : op A) : Prop := triple m always p anyhow.

Section Rules.

Context {m : mode}.

Lemma triple_conseq {A} (P P' : trace -> Prop) (p : op A) (Q Q' : res herr A -> trace -> Prop) :
  triple m P p Q -> (forall h, P' h -> P h) -> (forall r h, Q r h -> Q' r h) -> triple m P' p Q'.
Proof.
  intros H HP HQ s h Hh. eapply wp_mono; [|apply H, HP, Hh]. intros [s' r] h'. apply HQ.
Qed.

Lemma triple_bind {A B} P (p : op A) (k : A -> op B) Qa Q :
  triple m P p (fun r h => match r with Ok a => Qa a h | Err e => Q (Err e) h end) ->
  (forall a, triple m (Qa a) (k a) Q) -> triple m P (p ≫= k) Q.
Proof.
  intros Hp Hk s h Hh. apply (@wp_act _ _ _ _ (policy m)). eapply wp_mono; [|apply Hp, Hh].
  intros [s' [a|e]] h' H; [by apply Hk|done].
Qed.

Lemma triple_attempt_bind {A B} P (p : op A) (k : res herr A -> op B) Qa Q :
  triple m P p Qa -> (forall r, triple m (Qa r) (k r) Q) -> triple m P (attempt p ≫= k) Q.
Proof.
  intros Hp Hk s h Hh. apply (@wp_act _ _ _ _ (policy m)), (@wp_attempt _ _ _ _ (policy m)).
  eapply wp_mono; [|apply Hp, Hh]. intros [s' r] h' Hr. by apply Hk.
Qed.

Lemma triple_tell {A} (P : trace -> Prop) (c : HostCall A) (Q : res herr A -> trace -> Prop) :
  (forall h, P h -> allowed v o kept m A c h) ->
  (forall h x, P h -> Q (Ok x) (h ++ [Ev c x])%list) -> triple m P (tell c) Q.
Proof. intros Ha HQ s h Hh. split; [by apply Ha|]. intros x _. by apply HQ. Qed.

Lemma triple_ret {A} (P : trace -> Prop) (a : A) (Q : res herr A -> trace -> Prop) :
  (forall h, P h -> Q (Ok a) h) -> triple m P (mret a) Q.
Proof. intros H s h Hh. by apply H. Qed.

Lemma triple_raise {A} (P : trace -> Prop) e (Q : res herr A -> trace -> Prop) :
  (forall h, P h -> Q (Err e) h) -> triple m P (raise e) Q.
Proof. intros H s h Hh. by apply H. Qed.

Lemma triple_held {A} P (k : Objects -> op A) Q :
  (forall s, triple m P (k s) Q) -> triple m P (held ≫= k) Q.
Proof. intros H s h Hh. by apply (H s). Qed.

Lemma triple_hold P s' (Q : res herr unit -> trace -> Prop) :
  (forall h, P h -> Q (Ok ()) h) -> triple m P (hold s') Q.
Proof. intros H s h Hh. by apply H. Qed.

(** *** Parts that fail with what another failed with *)

Lemma triple_wrap {A} P pre (p : op A) Q : triple m P p (gives Q) -> triple m P (wrap pre p) (gives Q).
Proof.
  intros Hp. eapply triple_attempt_bind; [exact Hp|].
  intros [a|e]; [by apply triple_ret|by apply triple_raise].
Qed.

Lemma triple_ask {A} (P : trace -> Prop) (c : HostCall (res string A)) Q :
  (forall h, P h -> allowed v o kept m _ c h) ->
  (forall h a, P h -> Q a (h ++ [Ev c (Ok a)])%list) -> triple m P (ask c) (gives Q).
Proof.
  intros Ha HQ. eapply (triple_bind _ _ _ (fun x h => forall a, x = Ok a -> Q a h)).
  - apply triple_tell; [done|]. intros h x Hh a ->. by apply HQ.
  - intros [a|e]; [|by apply triple_raise]. apply triple_ret. intros h H. by apply H.
Qed.

(** *** Safe parts *)

Lemma safe_of {A} P (p : op A) : safe m p -> triple m P p anyhow.
Proof. intros H. by eapply triple_conseq. Qed.

Lemma safe_conseq {A} P (p : op A) (Q : res herr A -> trace -> Prop) :
  triple m P p Q -> (forall h, P h) -> safe m p.
Proof. intros H HP. by eapply triple_conseq. Qed.

Lemma safe_ret {A} (a : A) : safe m (mret a).
Proof. by apply triple_ret. Qed.
Lemma safe_raise {A} e : safe m (raise (A := A) e).
Proof. by apply triple_raise. Qed.
Lemma safe_tell {A} (c : HostCall A) : (forall h, allowed v o kept m A c h) -> safe m (tell c).
Proof. intros H. by apply triple_tell. Qed.
Lemma safe_hold s : safe m (hold s).
Proof. by apply triple_hold. Qed.
Lemma safe_held {A} (k : Objects -> op A) : (forall s, safe m (k s)) -> safe m (held ≫= k).
Proof. apply triple_held. Qed.

Lemma safe_bind {A B} (p : op A) (k : A -> op B) :
  safe m p -> (forall a, safe m (k a)) -> safe m (p ≫= k).
Proof.
  intros Hp Hk. eapply (triple_bind _ _ _ (fun _ => always)); [|exact Hk].
  eapply triple_conseq; [exact Hp|done|]. by intros [a|e] h.
Qed.

Lemma safe_attempt {A E'} (p : op A) (k : res herr A -> op E') :
  safe m p -> (forall r, safe m (k r)) -> safe m (attempt p ≫= k).
Proof. intros Hp Hk. by eapply triple_attempt_bind. Qed.

Lemma safe_wrap {A} pre (p : op A) : safe m p -> safe m (wrap pre p).
Proof.
  intros Hp. apply safe_attempt; [done|]. intros [a|e]; [apply safe_ret|apply safe_raise].
Qed.

Lemma safe_ask {A} (c : HostCall (res string A)) :
  (forall h, allowed v o kept m _ c h) -> safe m (ask c).
Proof. intros H. apply safe_bind; [by apply safe_tell|]. intros [a|e]; [apply safe_ret|apply safe_raise]. Qed.

Lemma safe_request (c : HostCall (error_of string)) :
  (forall h, allowed v o kept m _ c h) -> safe m (request c).
Proof. intros H. apply safe_bind; [by apply safe_tell|]. intros [e|]; [apply safe_raise|apply safe_ret]. Qed.

Lemma safe_each {A} (f : A -> op unit) xs : (forall x, safe m (f x)) -> safe m (each f xs).
Proof.
  intros H. induction xs as [|x xs IH]; simpl; [apply safe_ret|]. by apply safe_bind.
Qed.

Lemma safe_collect {A B} (f : A -> op B) xs : (forall x, safe m (f x)) -> safe m (collect f xs).
Proof.
  intros H. induction xs as [|x xs IH]; simpl; [apply safe_ret|].
  apply safe_bind; [done|]. intros b. apply safe_bind; [done|]. intros bs. apply safe_ret.
Qed.

End Rules.

(** Runs through one part after another. *)
Ltac safe :=
  repeat lazymatch goal with
  | |- safe _ (held ≫= _) => apply safe_held; intros ?
  | |- safe _ (attempt _ ≫= _) => apply safe_attempt; [|intros ?]
  | |- safe _ (_ ≫= _) => apply safe_bind; [|intros ?]
  | |- safe _ (match ?x with _ => _ end) => destruct x
  | |- safe _ (wrap _ _) => apply safe_wrap
  | |- safe _ (removal _ _) => apply safe_attempt; [|intros ?]
  | |- safe _ (each _ _) => apply safe_each; intros ?
  | |- safe _ (collect _ _) => apply safe_collect; intros ?
  | |- safe _ (mret _) => apply safe_ret
  | |- safe _ (raise _) => apply safe_raise
  | |- safe _ (fails _) => apply safe_raise
  | |- safe _ (tell _) => apply safe_tell; done
  | |- safe _ (ask _) => apply safe_ask; done
  | |- safe _ (request _) => apply safe_request; done
  | |- safe _ (hold _) => apply safe_hold
  | |- safe _ absent => apply safe_ret
  | |- safe _ (pair_of _ _) => apply safe_ret
  | |- safe _ (nothing _) => apply safe_ret
  | |- safe _ _ => solve [eauto with stack]
  end.

(** *** Parts that call LVM and read devices *)

Fixpoint within (P : forall X, HostCall X -> Prop) {R} (p : prog HostCall R) : Prop :=
  match p with
  | Ret _ => True
  | Vis c k => P _ c /\ forall x, within P (k x)
  end.

Lemma within_bind P {A B} (p : prog HostCall A) (k : A -> prog HostCall B) :
  within P p -> (forall a, within P (k a)) -> within P (bind p k).
Proof.
  intros Hp Hk. induction p as [a|X c k' IH]; simpl in *; [apply Hk|].
  destruct Hp as [Hc Hp]. split; [done|]. intros x. apply IH, Hp.
Qed.

Definition is_survey (X : Type) (c : HostCall X) : Prop :=
  match c with RunLVM _ | ReadContent _ => True | _ => False end.

Definition lvm_only {A} (p : op A) : Prop := forall s, within is_survey (p s).

Lemma lvm_bind {A B} (p : op A) (k : A -> op B) :
  lvm_only p -> (forall a, lvm_only (k a)) -> lvm_only (p ≫= k).
Proof. intros Hp Hk s. apply within_bind; [done|]. intros [s' [a|e]]; [apply Hk|done]. Qed.
Lemma lvm_attempt {A B} (p : op A) (k : res herr A -> op B) :
  lvm_only p -> (forall r, lvm_only (k r)) -> lvm_only (attempt p ≫= k).
Proof.
  intros Hp Hk s. apply within_bind; [apply within_bind; [done|]; by intros [s' r]|].
  intros [s' [a|e]]; [apply Hk|done].
Qed.
Lemma lvm_ret {A} (a : A) : lvm_only (mret a).
Proof. done. Qed.
Lemma lvm_raise {A} e : lvm_only (raise (A := A) e).
Proof. done. Qed.
Lemma lvm_wrap {A} pre (p : op A) : lvm_only p -> lvm_only (wrap pre p).
Proof. intros Hp. apply lvm_attempt; [done|]. by intros [a|e]. Qed.
Lemma lvm_exec ds c args : lvm_only (exec ds c args).
Proof. intros s. split; [done|]. by intros [out|e]. Qed.
Lemma lvm_exec_ ds c args : lvm_only (exec_ ds c args).
Proof. apply lvm_bind; [apply lvm_exec|done]. Qed.

Ltac lvm_only :=
  repeat lazymatch goal with
  | |- lvm_only (attempt _ ≫= _) => apply lvm_attempt; [|intros ?]
  | |- lvm_only (_ ≫= _) => apply lvm_bind; [|intros ?]
  | |- lvm_only (match ?x with _ => _ end) => destruct x
  | |- lvm_only (wrap _ _) => apply lvm_wrap
  | |- lvm_only (exec _ _ _) => apply lvm_exec
  | |- lvm_only (exec_ _ _ _) => apply lvm_exec_
  | |- lvm_only _ => first [assumption | apply lvm_ret | apply lvm_raise]
  end.

Lemma lvm_VolumeGroup pv : lvm_only (Lvm.VolumeGroup pv).
Proof. unfold Lvm.VolumeGroup, pvsVGName, decode. lvm_only. Qed.
Lemma lvm_ListLogicalVolumes g : lvm_only (ListLogicalVolumes g).
Proof. unfold ListLogicalVolumes, lvsLVNames, decode. lvm_only. Qed.
Lemma lvm_claimClone pv g r : lvm_only (claimClone pv g r).
Proof.
  unfold claimClone, requireOwnedDevice, listLogicalVolumesOn, lvsLVNames, decode, adoptOnDevice, adopt.
  lvm_only.
Qed.
Lemma lvm_Resolve pv g name r ps : lvm_only (ResolveClonedVolumeGroup pv g name r ps).
Proof.
  assert (Hv := lvm_VolumeGroup pv). assert (Hl := lvm_ListLogicalVolumes g).
  unfold ResolveClonedVolumeGroup, Rescan, importClone, renameForeign, RenameLogicalVolume,
    requireOwned, VolumeGroupTags. lvm_only. apply lvm_claimClone.
Qed.
Lemma lvm_Create pv : lvm_only (CreatePhysicalVolume pv).
Proof. unfold CreatePhysicalVolume. lvm_only. Qed.

(** ** LVM *)

Section Manager.

Context {m : mode}.

Lemma triple_each {A} (P : trace -> Prop) (f : A -> op unit) xs :
  (forall x, triple m P (f x) (gives (fun _ => P))) -> triple m P (each f xs) (gives (fun _ => P)).
Proof.
  intros H. induction xs as [|x xs IH]; simpl; [by apply triple_ret|].
  eapply (triple_bind _ _ _ (fun _ => P)); [|intros _; exact IH].
  eapply triple_conseq; [apply H|done|]. by intros [u|e] h.
Qed.

(** One command, with what is known after it. *)
Lemma triple_exec (P : trace -> Prop) devices command args (Q : string -> trace -> Prop) :
  let full := (command :: deviceScope devices ++ args)%list in
  (forall h, P h -> permitted v o m h full) ->
  (forall h out, P h -> Q out (h ++ [Ev (RunLVM full) (Ok out)])%list) ->
  triple m P (exec devices command args) (gives Q).
Proof. intros full Ha HQ. by apply triple_ask. Qed.

Lemma triple_exec_ (P : trace -> Prop) devices command args (Q : unit -> trace -> Prop) :
  let full := (command :: deviceScope devices ++ args)%list in
  (forall h, P h -> permitted v o m h full) ->
  (forall h out, P h -> Q () (h ++ [Ev (RunLVM full) (Ok out)])%list) ->
  triple m P (exec_ devices command args) (gives Q).
Proof.
  intros full Ha HQ. eapply (triple_bind _ _ _ (fun _ h => Q () h)).
  - eapply triple_conseq; [by apply (triple_exec P _ _ _ (fun _ => Q ()))|done|]. by intros [a|e] h.
  - intros a. by apply triple_ret.
Qed.

(** A command its evidence is there for. *)
Lemma triple_run (P : trace -> Prop) devices command args :
  (forall h, P h -> permitted v o m h (command :: deviceScope devices ++ args)%list) ->
  triple m P (exec_ devices command args) anyhow.
Proof.
  intros Ha. eapply triple_conseq; [by apply (triple_exec_ P _ _ _ (fun _ => always))|done|done].
Qed.

Definition reading : list string := ["pvs"; "vgs"; "lvs"; "pvscan"].

Lemma safe_read devices command args : command ∈ reading -> safe m (exec devices command args).
Proof. intros H. apply safe_ask. intros h. by apply p_read. Qed.
Lemma safe_read_ devices command args : command ∈ reading -> safe m (exec_ devices command args).
Proof. intros H. apply safe_bind; [by apply safe_read|]. intros ?. apply safe_ret. Qed.

Lemma triple_read (P : trace -> Prop) devices command args : command ∈ reading ->
  triple m P (exec devices command args)
    (gives (fun out h => exists h0, P h0 /\
       h = (h0 ++ [Ev (RunLVM (command :: deviceScope devices ++ args)%list) (Ok out)])%list)).
Proof. intros H. apply triple_exec; [intros; by apply p_read|]. intros h out Hh. by exists h. Qed.

Lemma triple_decode {A} (P : trace -> Prop) pre (r : res string A) :
  triple m P (decode pre r) (gives (fun a h => P h /\ r = Ok a)).
Proof. destruct r; [by apply triple_ret|by apply triple_raise]. Qed.

(** *** Parts that only read *)

Ltac reads := first [apply safe_read|apply safe_read_]; unfold reading; set_solver.

Lemma safe_VolumeGroupTags g : safe m (VolumeGroupTags g).
Proof. unfold VolumeGroupTags. safe. reads. Qed.
Lemma safe_decode {A} pre (r : res string A) : safe m (decode pre r).
Proof. unfold decode. safe. Qed.
Lemma safe_VolumeGroup pv : safe m (Lvm.VolumeGroup pv).
Proof.
  unfold Lvm.VolumeGroup, pvsVGName. apply safe_attempt; [|intros ?; safe].
  apply safe_bind; [reads|]. intros out. apply safe_bind; [apply safe_decode|]. intros ?. safe.
Qed.
Lemma safe_lvsLVNames ds g : safe m (lvsLVNames ds g).
Proof.
  apply safe_bind; [reads|]. intros out. apply safe_bind; [apply safe_decode|]. intros ?. safe.
Qed.
Lemma safe_ListLogicalVolumes g : safe m (ListLogicalVolumes g).
Proof. apply safe_bind; [apply safe_lvsLVNames|]. intros ?. safe. Qed.
Lemma safe_HasLogicalVolume w : safe m (HasLogicalVolume w).
Proof. apply safe_bind; [apply safe_ListLogicalVolumes|]. intros ?. safe. Qed.
Lemma safe_LogicalVolumeActive w : safe m (LogicalVolumeActive w).
Proof. unfold LogicalVolumeActive. safe. reads. Qed.
Lemma safe_LogicalVolumeSize w : safe m (LogicalVolumeSize w).
Proof. unfold LogicalVolumeSize. safe. reads. Qed.
Lemma safe_Rescan pvs : safe m (Rescan pvs).
Proof. unfold Rescan. reads. Qed.
(** The parts of the cleanup leave what is known of the group and of its nodes. *)
Lemma given_up_cleans h g e : given_up h g -> cleans e -> given_up (h ++ [e])%list g.
Proof.
  intros (pre & mid & -> & Hf & Hmid) He. exists pre, (mid ++ [e])%list. rewrite app_assoc.
  split; [done|]. split; [done|]. by apply Forall_app; split; [|apply Forall_singleton].
Qed.
Lemma stranded_cleans h g name e : stranded h g name -> cleans e -> stranded (h ++ [e])%list g name.
Proof.
  intros (pre & out & mid & -> & Hg & Hmid & Hn) He. exists pre, out, (mid ++ [e])%list.
  rewrite <- app_assoc. split; [done|]. split; [done|]. split; [|done].
  by apply Forall_app; split; [|apply Forall_singleton].
Qed.
Lemma stranded_given_up h g name : stranded h g name -> given_up h g.
Proof.
  intros (pre & out & mid & -> & (p & m1 & -> & Hf & Hm1) & Hmid & _).
  exists p, (m1 ++ Ev (RunLVM ["dmsetup"; "ls"]) (Ok out) :: mid)%list. rewrite app_assoc.
  split; [done|]. split; [done|]. apply Forall_app. split; [done|]. apply Forall_cons. split; [|done].
  exists "dmsetup", ["ls"], (Ok out). split; [done|]. set_solver.
Qed.

Lemma safe_HasOrphanedDMNodes g : safe m (HasOrphanedDMNodes g).
Proof.
  unfold HasOrphanedDMNodes, matchingDMNodes. safe. apply safe_ask. intros h. apply p_nodes.
Qed.

#[local] Hint Resolve safe_VolumeGroupTags safe_VolumeGroup safe_ListLogicalVolumes
  safe_HasLogicalVolume safe_LogicalVolumeActive safe_LogicalVolumeSize safe_Rescan
  safe_HasOrphanedDMNodes : stack.

(** *** Parts that establish something *)

Lemma triple_VolumeGroupTags (P : trace -> Prop) g :
  triple m P (VolumeGroupTags g) (gives (fun tags h => exists h0 out, P h0 /\
    h = (h0 ++ [Ev (RunLVM (tags_query g)) (Ok out)])%list /\ tags = tags_of out)).
Proof.
  eapply (triple_bind _ _ _ (fun out h => exists h0, P h0 /\
    h = (h0 ++ [Ev (RunLVM (tags_query g)) (Ok out)])%list)).
  - eapply triple_conseq; [apply triple_wrap, (triple_read P [] "vgs"); unfold reading; set_solver|done|].
    by intros [a|e] h.
  - intros out. apply triple_ret. intros h (h0 & Hh & ->). by exists h0, out.
Qed.

Lemma triple_requireOwned (P : trace -> Prop) g :
  triple m P (requireOwned g) (gives (fun _ h => exists h0 out, P h0 /\
    h = (h0 ++ [Ev (RunLVM (tags_query g)) (Ok out)])%list /\ OwnerTag ∈ tags_of out)).
Proof.
  eapply triple_attempt_bind; [apply triple_VolumeGroupTags|]. intros [tags|e]; cbn [gives].
  - unfold has. case_bool_decide as Ht; [|by apply triple_raise]. apply triple_ret.
    intros h (h0 & out & Hh & -> & ->). by exists h0, out.
  - destruct (isAlreadyGone e); by apply triple_raise.
Qed.

Lemma triple_owned g : triple m always (requireOwned g) (gives (fun _ h => tagged h g)).
Proof.
  eapply triple_conseq; [apply (triple_requireOwned always)|done|]. intros [[]|e] h; [|done].
  intros (h0 & out & _ & -> & Ht). by exists h0, out, [].
Qed.

Lemma owned_then {A} g (k : unit -> op A) (Q : res herr A -> trace -> Prop) :
  (forall e h, Q (Err e) h) -> triple m (fun h => tagged h g) (k ()) Q ->
  triple m always (requireOwned g ≫= k) Q.
Proof.
  intros He Hk. eapply (triple_bind _ _ _ (fun _ h => tagged h g)); [|by intros []].
  eapply triple_conseq; [apply triple_owned|done|]. by intros [a|e] h.
Qed.

Lemma safe_owned g : safe m (requireOwned g).
Proof. eapply triple_conseq; [apply triple_owned|done|done]. Qed.

Lemma triple_requireOwnedDevice pv :
  triple m always (requireOwnedDevice pv) (gives (fun _ h => device_free h pv)).
Proof.
  eapply (triple_attempt_bind _ _ _ (fun r h => exists pre answer,
    h = (pre ++ [Ev (RunLVM (device_query pv)) answer])%list /\
    r = match answer with Ok out => Ok out | Err e => Err (plain e) end)).
  - eapply (triple_bind _ _ _ (fun answer h => exists pre,
      h = (pre ++ [Ev (RunLVM (device_query pv)) answer])%list)).
    + apply triple_tell; [|intros h x _; by exists h].
      intros h _. apply (p_read _ _ _ _ "pvs"). set_solver.
    + intros [out|e]; [apply triple_ret|apply triple_raise]; intros h [pre ->]; by eexists _, _.
  - intros [out|e].
    + destruct (Paths.Fields (firstRealLine out)) as [|g fs] eqn:Ef.
      * apply triple_ret. intros h (pre & [out'|e'] & -> & E); [|done]. injection E as <-.
        exists pre, (Ok out). split; [done|]. by left.
      * destruct (owned_row (g :: fs)) eqn:Eo; [|by apply triple_raise].
        apply triple_ret. intros h (pre & [out'|e'] & -> & E); [|done]. injection E as <-.
        exists pre, (Ok out). split; [done|]. right. by rewrite Ef.
    + destruct (isNoPVSignature e) eqn:En; [|by apply triple_raise].
      apply triple_ret. intros h (pre & [out'|e'] & -> & E); [done|]. injection E as ->.
      by exists pre, (Err e').
Qed.

Lemma device_then {A} pv (k : unit -> op A) :
  triple m (fun h => device_free h pv) (k ()) anyhow -> safe m (requireOwnedDevice pv ≫= k).
Proof.
  intros Hk. eapply (triple_bind _ _ _ (fun _ h => device_free h pv)); [|by intros []].
  eapply triple_conseq; [apply triple_requireOwnedDevice|done|]. by intros [a|e] h.
Qed.

Lemma safe_device pv : safe m (requireOwnedDevice pv).
Proof. eapply triple_conseq; [apply triple_requireOwnedDevice|done|done]. Qed.

(** What a device was said to be a part of, with what was known before. *)
Lemma triple_VolumeGroup (P : trace -> Prop) pv :
  triple m P (Lvm.VolumeGroup pv) (gives (fun name h => exists h0 answer, P h0 /\
    h = (h0 ++ [Ev (RunLVM (group_query pv)) answer])%list /\ group_said pv answer = Some name)).
Proof.
  eapply (triple_attempt_bind _ _ _ (fun r h => exists h0 answer, P h0 /\
    h = (h0 ++ [Ev (RunLVM (group_query pv)) answer])%list /\
    group_said pv answer = match r with
      | Ok name => Some name
      | Err e => if isNoPVSignature e then Some "" else None end)).
  - eapply (triple_bind _ _ _ (fun out h => exists h0, P h0 /\
      h = (h0 ++ [Ev (RunLVM (group_query pv)) (Ok out)])%list)).
    + eapply (triple_bind _ _ _ (fun answer h => exists h0, P h0 /\
        h = (h0 ++ [Ev (RunLVM (group_query pv)) answer])%list)).
      * apply triple_tell; [|intros h x Hh; by exists h].
        intros h _. apply (p_read _ _ _ _ "pvs"). set_solver.
      * intros [out|e]; [apply triple_ret|apply triple_raise]; intros h (h0 & Hh & ->).
        -- by exists h0.
        -- by exists h0, (Err e).
    + intros out. destruct (pvs_report out) as [report|e] eqn:Er; unfold decode.
      * eapply (triple_bind _ _ _ (fun r h => r = report /\ exists h0, P h0 /\
          h = (h0 ++ [Ev (RunLVM (group_query pv)) (Ok out)])%list)).
        -- apply triple_ret. intros h Hh. by split.
        -- intros r. apply triple_ret. intros h (-> & h0 & Hh & ->). exists h0, (Ok out).
           split; [done|]. split; [done|]. unfold group_said. rewrite Er. by destruct report as [|[|? ?] ?].
      * eapply (triple_bind _ _ _ (fun _ _ => False)); [|by intros a s h ?].
        apply triple_raise. intros h (h0 & Hh & ->). exists h0, (Ok out).
        split; [done|]. split; [done|]. unfold group_said. by rewrite Er.
  - intros [name|e].
    + apply triple_ret. intros h (h0 & answer & Hh & -> & E). by exists h0, answer.
    + destruct (isNoPVSignature e); [|by apply triple_raise].
      apply triple_ret. intros h (h0 & answer & Hh & -> & E). by exists h0, answer.
Qed.

(** The names of a listing, with what was known before. *)
Lemma triple_lvsLVNames (P : trace -> Prop) ds g :
  triple m P (lvsLVNames ds g) (gives (fun names h => exists h0 e, P h0 /\
    h = (h0 ++ [e])%list /\ listed ds g names e)).
Proof.
  eapply (triple_bind _ _ _ (fun out h => exists h0, P h0 /\
    h = (h0 ++ [Ev (RunLVM (volumes_query ds g)) (Ok out)])%list)).
  - eapply triple_conseq; [apply (triple_read P ds "lvs"); unfold reading; set_solver|done|].
    by intros [a|e] h.
  - intros out. eapply (triple_bind _ _ _ (fun report h => (exists h0, P h0 /\
      h = (h0 ++ [Ev (RunLVM (volumes_query ds g)) (Ok out)])%list) /\ lvs_report out = Ok report)).
    + eapply triple_conseq; [apply triple_decode|intros h Hh; exact Hh|]. by intros [a|e] h.
    + intros report. apply triple_ret. intros h ((h0 & Hh & ->) & Er).
      exists h0, (Ev (RunLVM (volumes_query ds g)) (Ok out)).
      split; [done|]. split; [done|]. by exists out, report.
Qed.

Lemma listed_names g (names : list string) : lv_Name <$> (mkLogicalVolume g <$> names) = names.
Proof. induction names as [|n ns IH]; [done|]. cbn. by f_equal. Qed.

Lemma triple_ListLogicalVolumes (P : trace -> Prop) g :
  triple m P (ListLogicalVolumes g) (gives (fun lvs h => exists h0 e, P h0 /\
    h = (h0 ++ [e])%list /\ listed [] g (lv_Name <$> lvs) e)).
Proof.
  eapply (triple_bind _ _ _ (fun names h => exists h0 e, P h0 /\ h = (h0 ++ [e])%list /\
    listed [] g names e)).
  - eapply triple_conseq; [apply triple_lvsLVNames|done|]. by intros [a|e] h.
  - intros names. apply triple_ret. intros h (h0 & e & Hh & -> & Hl). exists h0, e.
    split; [done|]. split; [done|]. by rewrite listed_names.
Qed.

(** What LVM's commands leave true. *)
Definition stable (P : trace -> Prop) : Prop := forall h e, P h -> surveys e -> P (h ++ [e])%list.

Lemma triple_stable {A} (P Q : trace -> Prop) (p : op A) :
  stable P -> lvm_only p -> triple m Q p anyhow ->
  triple m (fun h => P h /\ Q h) p (fun _ => P).
Proof.
  intros HP Hl Ht s h [Hp Hq]. specialize (Ht s h Hq). specialize (Hl s). clear Hq. revert h Hp Ht.
  induction (p s) as [[s' r]|X c k IH]; intros h Hp Ht; simpl in *; [done|].
  destruct Ht as [Ha Ht]. split; [done|]. intros x _. destruct Hl as [Hc Hl].
  apply IH; [done| |by apply Ht]. apply HP; [done|]. by destruct c.
Qed.

(** *** Parts that clean up *)

(** One command, with whatever it answered. *)
Lemma triple_said (P : trace -> Prop) devices command args :
  let full := (command :: deviceScope devices ++ args)%list in
  (forall h, P h -> permitted v o m h full) ->
  triple m P (exec devices command args) (fun r h => exists h0 answer, P h0 /\
    h = (h0 ++ [Ev (RunLVM full) answer])%list /\
    r = match answer with Ok out => Ok out | Err e => Err (plain e) end).
Proof.
  intros full Ha. eapply (triple_bind _ _ _ (fun answer h => exists h0, P h0 /\
    h = (h0 ++ [Ev (RunLVM full) answer])%list)).
  - apply triple_tell; [done|]. intros h x Hh. by exists h.
  - intros [out|e]; [apply triple_ret|apply triple_raise]; intros h (h0 & Hh & ->).
    + by exists h0, (Ok out).
    + by exists h0, (Err e).
Qed.

(** Where a group is not unmapped, it was said not to be the driver's, or is given up. *)
Lemma triple_requireOwned_said g :
  triple m always (requireOwned g) (fun r h => exists h0 answer,
    h = (h0 ++ [Ev (RunLVM (tags_query g)) answer])%list /\
    match r, answer with
    | Ok _, Ok out => OwnerTag ∈ tags_of out
    | Err e, Ok _ => e_is e = NotOwned
    | Err _, Err _ => True
    | Ok _, Err _ => False
    end).
Proof.
  eapply (triple_attempt_bind _ _ _ (fun r h => exists h0 answer,
    h = (h0 ++ [Ev (RunLVM (tags_query g)) answer])%list /\
    match r, answer with
    | Ok tags, Ok out => tags = tags_of out
    | Err _, Err _ => True
    | _, _ => False
    end)).
  - unfold VolumeGroupTags. eapply (triple_bind _ _ _ (fun out h => exists h0,
      h = (h0 ++ [Ev (RunLVM (tags_query g)) (Ok out)])%list)).
    + eapply triple_attempt_bind.
      * apply (triple_said always [] "vgs" ["--noheadings"; "-o"; "vg_tags"; g]).
        intros h _. apply p_read. set_solver.
      * intros [out|e]; [apply triple_ret|apply triple_raise]; intros h (h0 & [out'|e'] & _ & -> & E);
          try done.
        -- injection E as ->. by exists h0.
        -- by exists h0, (Err e').
    + intros out. apply triple_ret. intros h [h0 ->]. by exists h0, (Ok out).
  - intros [tags|e].
    + unfold has. case_bool_decide as Ht; [apply triple_ret|apply triple_raise];
        intros h (h0 & [out|?] & -> & H); try done; exists h0, (Ok out); by subst.
    + destruct (isAlreadyGone e); apply triple_raise; intros h (h0 & [out|e'] & -> & H); try done;
        by exists h0, (Err e').
Qed.

Lemma triple_Deactivate g :
  triple m always (DeactivateVolumeGroup g) (fun r h =>
    match r with Ok _ => True | Err e => e_is e = NotOwned \/ given_up h g end).
Proof.
  assert (Hgive : forall h, unmap_failed g h -> given_up h g).
  { intros h H. exists h, []. rewrite app_nil_r. split; [done|]. split; [done|]. by apply Forall_nil. }
  eapply (triple_bind _ _ _ (fun _ h => exists h0 out, OwnerTag ∈ tags_of out /\
    h = (h0 ++ [Ev (RunLVM (tags_query g)) (Ok out)])%list)).
  - eapply triple_conseq; [apply triple_requireOwned_said|done|].
    intros [[]|e] h (h0 & [out|e'] & -> & H); try done.
    + by exists h0, out.
    + by left.
    + right. apply Hgive. by apply unmap_unread.
  - intros _. eapply (triple_attempt_bind _ _ _ (fun r h =>
      match r with Ok _ => True | Err _ => given_up h g end)).
    + eapply (triple_bind _ _ _ (fun _ => always)); [|intros ?; by apply triple_ret].
      eapply triple_conseq; [apply (triple_said (fun h => exists h0 out, OwnerTag ∈ tags_of out /\
        h = (h0 ++ [Ev (RunLVM (tags_query g)) (Ok out)])%list) [] "vgchange" ["-an"; g])
        |intros h Hh; exact Hh|].
      * intros h (h0 & out & Ht & ->). apply p_unmap. exists h0, out, []. split; [done|].
        split; [done|]. by apply Forall_nil.
      * intros [a|e] h (h0 & [out'|e'] & (h1 & out & Ht & ->) & -> & E); try done. apply Hgive.
        rewrite <- app_assoc. by apply unmap_refused.
    + intros [a|e]; [by apply triple_ret|]. apply triple_raise. intros h H. by right.
Qed.

Let group : string := Plans.VolumeGroup v.
Let cleanup (h : trace) : Prop := given_up h group.

Lemma cleanup_said (P : trace -> Prop) h command args answer :
  (forall e, P h -> cleans e -> P (h ++ [e])%list) -> command ∈ ["dmsetup"; "lvmdevices"] ->
  P h -> P (h ++ [Ev (RunLVM (command :: args)) answer])%list.
Proof. intros HP Hc Hh. apply HP; [done|]. by exists command, args, answer. Qed.

Lemma triple_matchingDMNodes :
  triple m cleanup (matchingDMNodes group)
    (gives (fun names h => cleanup h /\ forall name, name ∈ names -> stranded h group name)).
Proof.
  eapply (triple_bind _ _ _ (fun out h => exists h0, cleanup h0 /\
    h = (h0 ++ [Ev (RunLVM ["dmsetup"; "ls"]) (Ok out)])%list)).
  - eapply triple_conseq; [apply triple_wrap, (triple_exec cleanup [] "dmsetup" ["ls"]
      (fun out h => exists h0, cleanup h0 /\ h = (h0 ++ [Ev (RunLVM ["dmsetup"; "ls"]) (Ok out)])%list))
      |intros h Hh; exact Hh|by intros [a|e] h].
    + intros h _. apply p_nodes.
    + intros h out Hh. by exists h.
  - intros out. apply triple_ret. intros h (h0 & Hg & ->). split.
    + apply cleanup_said; [intros e; apply given_up_cleans|set_solver|done].
    + intros name [Hp Hn]%list_elem_of_filter. exists h0, out, []. split; [done|]. split; [done|].
      split; [by apply Forall_nil|]. split; [done|].
      apply list_elem_of_fmap in Hn as (trimmed & -> & Hl). apply list_elem_of_filter in Hl as [_ Hl].
      apply list_elem_of_fmap in Hl as (line & -> & Hl). by exists line.
Qed.

Let nodes (names : list string) (h : trace) : Prop :=
  cleanup h /\ forall name, name ∈ names -> stranded h group name.

Lemma nodes_cleans names h e : nodes names h -> cleans e -> nodes names (h ++ [e])%list.
Proof.
  intros [Hg Hn] He. split; [by apply given_up_cleans|]. intros name H.
  apply stranded_cleans; [by apply Hn|done].
Qed.

(** One node, which goes or stays. *)
Lemma triple_drop name names : name ∈ names ->
  triple m (nodes names) (exec_ [] "dmsetup" ["remove"; name]) (fun _ => nodes names).
Proof.
  intros Hin. eapply (triple_bind _ _ _ (fun _ => nodes names)); [|intros ?; by apply triple_ret].
  eapply triple_conseq; [apply (triple_said (nodes names) [] "dmsetup")|done|].
  - intros h [_ H]. by apply p_drop, H.
  - intros [a|e] h (h0 & answer & Hh & -> & _); (apply cleanup_said; [|set_solver|done]);
      intros e'; apply nodes_cleans.
Qed.

Lemma triple_remove_pass all names last : names ⊆ all ->
  triple m (nodes all) (remove_pass names last)
    (gives (fun r h => nodes all h /\ r.1 ⊆ names)).
Proof.
  revert last. induction names as [|name names IH]; intros last Hsub; cbn [remove_pass].
  { by apply triple_ret. }
  eapply triple_attempt_bind; [apply (triple_drop name all); set_solver|].
  intros [u|e].
  - eapply triple_conseq; [apply IH; set_solver|done|]. intros [r|e'] h; [|done].
    intros [H1 H2]. split; [done|]. set_solver.
  - eapply (triple_bind _ _ _ (fun r h => nodes all h /\ r.1 ⊆ names)).
    + eapply triple_conseq; [apply IH; set_solver|done|]. by intros [r|e'] h.
    + intros r. apply triple_ret. intros h [H1 H2]. split; [done|]. cbn [fst]. set_solver.
Qed.

Lemma triple_remove_passes all k names last : names ⊆ all ->
  triple m (nodes all) (remove_passes k names last) (gives (fun _ => nodes all)).
Proof.
  revert names last. induction k as [|k IH]; intros [|name names] last Hsub; cbn [remove_passes];
    try by apply triple_ret.
  eapply (triple_bind _ _ _ (fun r h => nodes all h /\ r.1 ⊆ name :: names)).
  - eapply triple_conseq; [by apply (triple_remove_pass all)|done|]. by intros [r|e'] h.
  - intros r. destruct (decide (r.1 ⊆ all)) as [Hr|Hr].
    + eapply triple_conseq; [by apply (IH r.1 r.2)|by intros h []|done].
    + intros s h [_ H]. destruct Hr. set_solver.
Qed.

Lemma triple_RemoveOrphanedDMNodes :
  triple m cleanup (RemoveOrphanedDMNodes group) (gives (fun _ => cleanup)).
Proof.
  eapply (triple_bind _ _ _ (fun names => nodes names)).
  { eapply triple_conseq; [apply triple_matchingDMNodes|done|by intros [a|e] h]. }
  intros names. eapply (triple_bind _ _ _ (fun _ => nodes names)).
  { eapply triple_conseq; [by apply triple_remove_passes|done|by intros [a|e] h]. }
  intros [[|stuck more] last]; [apply triple_ret; by intros h []|by apply triple_raise].
Qed.

Lemma triple_ForgetDevice path :
  triple m cleanup (attempt (ForgetDevice path)) (gives (fun _ => cleanup)).
Proof.
  intros s h Hh. apply (@wp_attempt _ _ _ _ (policy m)).
  eapply wp_mono; [|eapply (triple_attempt_bind cleanup _ _ (fun _ => cleanup) (fun _ => cleanup)); [| |exact Hh]].
  - by intros [s' r] h' H.
  - eapply (triple_bind _ _ _ (fun _ => cleanup)); [|intros ?; by apply triple_ret].
    eapply triple_conseq; [apply (triple_said cleanup [path] "lvmdevices")|done|].
    + intros h' H. by apply p_forget.
    + intros [a|e] h' (h0 & answer & H & -> & _);
        (apply cleanup_said; [intros e'; apply given_up_cleans|set_solver|done]).
  - intros [a|e]; [by apply triple_ret|]. destruct (isAlreadyGone e); [by apply triple_ret|by apply triple_raise].
Qed.

(** *** Parts that change something *)

Lemma safe_wrapped {A} P pre (p : op A) : triple m P p anyhow -> triple m P (wrap pre p) anyhow.
Proof.
  intros Hp. eapply triple_attempt_bind; [exact Hp|].
  intros [a|e]; [by apply triple_ret|by apply triple_raise].
Qed.

Lemma triple_removal P pre (p : op unit) : triple m P p anyhow -> triple m P (removal pre p) anyhow.
Proof.
  intros Hp. eapply triple_attempt_bind; [exact Hp|].
  intros [a|e]; [by apply triple_ret|]. destruct (isAlreadyGone e); [by apply triple_ret|by apply triple_raise].
Qed.

Lemma safe_Deactivate g : safe m (DeactivateVolumeGroup g).
Proof. apply owned_then; [done|]. apply safe_wrapped, triple_run. intros h Hh. by apply p_unmap. Qed.

Lemma safe_ExpandPhysicalVolume pv : safe m (ExpandPhysicalVolume pv).
Proof. apply device_then. apply safe_wrapped, triple_run. intros h Hh. by apply p_resize. Qed.

Lemma safe_ExtendVolumeGroup g pvs : safe m (ExtendVolumeGroup g pvs).
Proof. apply owned_then; [done|]. apply safe_wrapped, triple_run. intros h Hh. by apply p_extend. Qed.

Lemma safe_lvextend arg pre w : safe m (lvextend arg pre w).
Proof.
  apply owned_then; [done|]. eapply triple_attempt_bind.
  - eapply triple_run. intros h Hh. by apply p_enlarge.
  - intros [a|e]; [by apply triple_ret|]. destruct (isAlreadyAtSize e); [by apply triple_ret|by apply triple_raise].
Qed.

Section Raises.

Context (Hm : m = Raise).
#[local] Set Default Proof Using "Type*".

(** A tag that is put on or taken off leaves what is known of the group. *)
Lemma triple_retag flag tag g :
  triple m (fun h => tagged h g) (retag flag tag g) (gives (fun _ h => tagged h g)).
Proof.
  apply triple_wrap, (triple_exec_ (fun h => tagged h g) [] "vgchange" _ (fun _ h => tagged h g)).
  - intros h Hh. by apply p_tag.
  - intros h out (pre & o' & mid & -> & Ht & Hmid). exists pre, o',
      (mid ++ [Ev (RunLVM ["vgchange"; flag; tag; g]) (Ok out)])%list.
    rewrite <- app_assoc. split; [done|]. split; [done|]. apply Forall_app. split; [done|].
    apply Forall_singleton. by eexists _, _, _.
Qed.

Lemma safe_ReconcileInformationalTags g want : safe m (ReconcileInformationalTags g want).
Proof.
  eapply (triple_bind _ _ _ (fun tags h => OwnerTag ∈ tags -> tagged h g)).
  - eapply triple_conseq; [apply (triple_VolumeGroupTags always)|done|]. intros [tags|e] h; [|done].
    intros (h0 & out & _ & -> & ->) Ht. by exists h0, out, [].
  - intros tags. unfold has. case_bool_decide as Ht; cbn [negb]; [|by apply triple_raise].
    assert (Htag : forall (b : bool) flag tag, triple m (fun h => tagged h g)
      (if b then retag flag tag g else mret ()) (gives (fun _ h => tagged h g))).
    { intros [] flag tag; [apply triple_retag|by apply triple_ret]. }
    eapply (triple_bind _ _ _ (fun _ h => tagged h g)).
    + eapply triple_conseq; [apply (triple_each (fun h => tagged h g)); intros tag; apply Htag|intros h Hh; by apply Hh|].
      by intros [a|e] h.
    + intros _. eapply triple_conseq; [apply (triple_each (fun h => tagged h g)); intros tag|done|done].
      case_bool_decide; [by apply triple_ret|apply triple_retag].
Qed.

Lemma safe_retag flag tag g : safe m (requireOwned g ≫= fun _ => retag flag tag g).
Proof. apply owned_then; [done|]. eapply triple_conseq; [apply triple_retag|done|done]. Qed.

Lemma safe_AddVolumeGroupTag g tag : safe m (AddVolumeGroupTag g tag).
Proof. apply safe_retag. Qed.
Lemma safe_RemoveVolumeGroupTag g tag : safe m (RemoveVolumeGroupTag g tag).
Proof. apply safe_retag. Qed.

Lemma safe_ActivateVolumeGroup g : safe m (ActivateVolumeGroup g).
Proof. apply owned_then; [done|]. apply safe_wrapped, triple_run. intros h Hh. by apply p_map. Qed.

Lemma safe_CreateLogicalVolume g pool name d : safe m (CreateLogicalVolume g pool name d).
Proof.
  apply owned_then; [done|]. eapply (triple_bind _ _ _ (fun _ => always)); [|by intros; apply triple_ret].
  eapply triple_conseq; [apply safe_wrapped, (triple_run (fun h => tagged h g))| done|by intros [a|e] h].
  intros h Hh. by apply p_create.
Qed.

Lemma safe_RenameLogicalVolume g old new : safe m (RenameLogicalVolume g old new).
Proof. apply owned_then; [done|]. apply safe_wrapped, triple_run. intros h Hh. by apply p_rename. Qed.

(** An adoption, of a group just listed. *)
Lemma triple_adopt devices g :
  triple m (fun h => adoptable v o h devices g) (adopt devices g)
    (gives (fun _ h => exists h' out, adopting v o h' devices g /\
       h = (h' ++ [Ev (RunLVM (adopt_group devices g)) (Ok out)])%list)).
Proof.
  eapply (triple_bind _ _ _ (fun _ h => adopting v o h devices g)).
  - eapply triple_conseq; [apply triple_wrap,
      (triple_exec_ (fun h => adoptable v o h devices g) devices "lvchange" _
        (fun _ h => adopting v o h devices g))|done|by intros [a|e] h].
    + intros h Hh. by apply p_adopt_volumes.
    + intros h out Hh. by exists h, out.
  - intros []. apply triple_wrap, (triple_exec_ _ devices "vgchange").
    + intros h Hh. by apply p_adopt_group.
    + intros h out Hh. by exists h, out.
Qed.

Lemma triple_claimClone pv current :
  triple m always (claimClone pv current (Some (RecognizeStack (preserved o))))
    (gives (fun _ h => claimed v o h pv)).
Proof.
  eapply triple_attempt_bind; [apply triple_requireOwnedDevice|]. intros [[]|e].
  - apply triple_ret. intros h Hh. by left.
  - case_bool_decide; cbn [negb]; [|by apply triple_raise].
    eapply (triple_bind _ _ _ (fun volumes h => exists h0 e', h = (h0 ++ [e'])%list /\
      listed [pv] current volumes e')).
    + eapply triple_conseq; [apply triple_wrap, (triple_lvsLVNames always)|done|].
      intros [volumes|e'] h; [|done]. intros (h0 & e' & _ & -> & Hl). by exists h0, e'.
    + intros volumes. destruct (RecognizeStack _ _ _) eqn:Er; [|by apply triple_raise].
      eapply triple_conseq; [apply (triple_adopt [pv])| |].
      * intros h (h0 & e' & -> & Hl). by exists h0, volumes, e'.
      * intros [a|e'] h; [|done]. intros (h' & out & Ha & ->). right. by exists h', current, out.
Qed.

Lemma safe_Resolve pv g name :
  safe m (ResolveClonedVolumeGroup pv g name (Some (RecognizeStack (preserved o))) (preserved o)).
Proof.
  unfold ResolveClonedVolumeGroup. apply safe_attempt; [eauto with stack|]. intros _.
  apply safe_bind; [apply safe_wrap; eauto with stack|]. intros current.
  destruct (_ || _); [apply safe_ret|].
  eapply (triple_bind _ _ _ (fun _ h => claimed v o h pv)).
  { eapply triple_conseq; [apply triple_claimClone|done|by intros [a|e] h]. }
  intros []. eapply (triple_bind _ _ _ (fun _ => always)).
  { eapply triple_conseq; [apply safe_wrapped, (triple_run (fun h => claimed v o h pv))|done|by intros [a|e] h].
    intros h Hh. by apply p_import. }
  intros []. apply safe_bind; [apply safe_wrap; eauto with stack|]. intros lvs.
  apply safe_bind; [|intros; apply safe_ret]. unfold renameForeign.
  destruct (find _ lvs); [apply safe_RenameLogicalVolume|apply safe_ret].
Qed.

Lemma triple_CreateVolumeGroup g pvs :
  triple m (fun h => Forall (groupless h) pvs) (CreateVolumeGroup g pvs) anyhow.
Proof.
  eapply (triple_bind _ _ _ (fun _ => always)); [|by intros; apply triple_ret].
  eapply triple_conseq; [apply safe_wrapped, (triple_run (fun h => Forall (groupless h) pvs))|done|by intros [a|e] h].
  intros h Hh. by apply p_group.
Qed.

Lemma triple_CreatePhysicalVolume pv :
  triple m (fun h => read_blank h pv) (CreatePhysicalVolume pv) anyhow.
Proof.
  eapply (triple_bind _ _ _ (fun _ => always)); [|by intros; apply triple_ret].
  eapply triple_conseq; [apply safe_wrapped, (triple_run (fun h => read_blank h pv))|done|by intros [a|e] h].
  intros h Hh. by apply p_label.
Qed.

End Raises.

Section Deletes.

Context (Hm : m = Delete).
#[local] Set Default Proof Using "Type*".

Lemma safe_ifOwned g (p : op unit) : triple m (fun h => tagged h g) p anyhow -> safe m (ifOwned g p).
Proof.
  intros Hp. eapply triple_attempt_bind; [apply triple_owned|]. intros [[]|e]; [exact Hp|].
  case_bool_decide; [by apply triple_ret|by apply triple_raise].
Qed.

Lemma safe_RemoveVolumeGroup g : safe m (RemoveVolumeGroup g).
Proof. apply safe_ifOwned, triple_removal, triple_run. intros h Hh. by apply p_remove_group. Qed.

Lemma safe_RemoveLogicalVolume w : safe m (RemoveLogicalVolume w).
Proof. apply safe_ifOwned, triple_removal, triple_run. intros h Hh. by apply p_remove. Qed.

Lemma safe_RemovePhysicalVolume pv : safe m (RemovePhysicalVolume pv).
Proof. apply device_then, triple_removal, triple_run. intros h Hh. by apply p_unlabel. Qed.

End Deletes.

End Manager.

#[local] Hint Resolve safe_VolumeGroupTags safe_VolumeGroup safe_ListLogicalVolumes
  safe_HasLogicalVolume safe_LogicalVolumeActive safe_LogicalVolumeSize safe_Rescan
  safe_HasOrphanedDMNodes
  safe_ExpandPhysicalVolume safe_ExtendVolumeGroup safe_lvextend : stack.

(** ** The layers *)

Context {enc : Encoding}.

Definition live (l : HostLayer) : Prop :=
  forall m, (forall below, safe m (hl_Observe l below)) /\ (forall below, safe m (hl_Release l below)) /\
    (forall hh own below, hl_healer l = Some hh -> safe m (hh_Healthy hh own) /\ safe m (hh_Heal hh below own)) /\
    (forall g below, hl_Grow l = Some g -> safe m (g below)).

(** What a plan's layers are shown to be. *)
Definition sound (l : HostLayer) : Prop :=
  live l /\ (forall below, safe Raise (hl_Ensure l below)) /\ (forall below, safe Delete (hl_Destroy l below)).

(** *** The fabric *)

Section Fabric.

Context {m : mode} (cfg : FabricConfig).

Lemma better_in d ds : foldl better d ds ∈ d :: ds.
Proof.
  revert d. induction ds as [|x ds IH]; intros d; simpl; [set_solver|].
  unfold better at 2. destruct (_ && _); [specialize (IH x)|specialize (IH d)]; set_solver.
Qed.

Definition just_shown (h : trace) (d : Nvme.Device) : Prop :=
  exists pre sel found, h = (pre ++ [Ev (ListWithSelector sel) (Ok found)])%list /\ d ∈ found.

Lemma triple_lookup pre sels :
  triple m always (lookup_by pre sels) (gives (fun ds h => forall d, d ∈ ds -> just_shown h d)).
Proof.
  induction sels as [|sel sels IH]; simpl.
  { apply triple_ret. intros h _ d Hd. set_solver. }
  eapply (triple_bind _ _ _ (fun ds h => forall d, d ∈ ds -> just_shown h d)).
  - eapply triple_conseq; [apply triple_wrap, (triple_ask always _
      (fun ds h => forall d, d ∈ ds -> just_shown h d))|done|by intros [a|e] h]; [done|].
    intros h found _ d Hd. by exists h, sel, found.
  - intros [|d ds]; [by eapply triple_conseq|]. by apply triple_ret.
Qed.

Lemma triple_fabric_device :
  triple m always (fabric_device cfg) (gives (fun found h => forall d, found = Some d -> just_shown h d)).
Proof.
  eapply (triple_bind _ _ _ (fun ds h => forall d, d ∈ ds -> just_shown h d)).
  - eapply triple_conseq; [apply triple_lookup|done|by intros [a|e] h].
  - intros ds. apply triple_ret. intros h H d. destruct ds as [|d0 ds]; [done|].
    intros [= <-]. apply H, better_in.
Qed.

Lemma safe_fabric_device : safe m (fabric_device cfg).
Proof. by eapply triple_conseq; [apply triple_fabric_device| |]. Qed.
#[local] Hint Resolve safe_fabric_device : stack.

Lemma safe_fabric_Observe below : safe m (fabric_Observe cfg below).
Proof. unfold fabric_Observe. safe. Qed.
Lemma safe_fabric_Ensure below : safe m (fabric_Ensure cfg below).
Proof. unfold fabric_Ensure. safe. Qed.
Lemma safe_fabric_Healthy own : safe m (fabric_Healthy cfg own).
Proof. unfold fabric_Healthy. safe. Qed.
Lemma safe_fabric_Heal below own : safe m (fabric_Heal cfg below own).
Proof. apply safe_bind; [apply safe_fabric_Ensure|]. intros ?. apply safe_ret. Qed.

(** A subsystem that is said to be one volume's was asked. *)
Lemma triple_IsMultiNamespace d :
  triple m (fun h => just_shown h d) (IsMultiNamespace d) (gives (fun shared h => shared = false ->
    Nvme.s_NQN (Nvme.Subsystem_of d) <> "" -> unshared h (Nvme.s_NQN (Nvme.Subsystem_of d)))).
Proof.
  unfold IsMultiNamespace, subsystem_IsMultiNamespace.
  destruct (Z.ltb_spec 1 (Nvme.n_ID (Nvme.Namespace_of d))) as [|Hid]; [by apply triple_ret|].
  destruct (existsb _ _) eqn:Ex; [by apply triple_ret|].
  destruct (Nat.ltb_spec 1 (length (remove_dups (Nvme.n_ID <$> Nvme.s_Namespaces (Nvme.Subsystem_of d)))))
    as [|Hl]; [by apply triple_ret|].
  destruct (Nvme.liveController _) as [c|] eqn:Ec; [|by apply triple_raise].
  eapply (triple_bind _ _ _ (fun mnan h => exists h0, just_shown h0 d /\
    h = (h0 ++ [Ev (Identify (Nvme.c_DevicePath c)) (Ok mnan)])%list)).
  - eapply triple_conseq; [apply triple_wrap, (triple_ask (fun h => just_shown h d) _
      (fun mnan h => exists h0, just_shown h0 d /\
        h = (h0 ++ [Ev (Identify (Nvme.c_DevicePath c)) (Ok mnan)])%list))|done|by intros [a|e] h]; [done|].
    intros h mnan Hh. by exists h.
  - intros mnan. apply triple_ret. intros h (h0 & (pre & sel & found & -> & Hd) & ->) Hm Hn.
    apply Z.ltb_ge in Hm. apply find_some in Ec as [Hc Hlive]. apply andb_true_iff in Hlive as [Hlive _].
    exists pre, sel, found, d, c, mnan. rewrite <- app_assoc. split_and!; try done.
    + apply Forall_forall. intros id Hin. apply Z.le_ngt. intros Hgt.
      enough (existsb (fun id => 1 <? id) (Nvme.n_ID <$> Nvme.s_Namespaces (Nvme.Subsystem_of d)) = true)
        by congruence.
      apply existsb_exists. exists id. split; [by apply list_elem_of_In|]. by apply Z.ltb_lt.
    + by apply list_elem_of_In.
Qed.

Lemma safe_fabric_Release below : safe m (fabric_Release cfg below).
Proof.
  eapply (triple_bind _ _ _ (fun found h => forall d, found = Some d -> just_shown h d)).
  { eapply triple_conseq; [apply triple_fabric_device|done|by intros [a|e] h]. }
  intros [d|]; [|by apply triple_ret]. apply safe_wrapped. unfold DetachDevice.
  destruct (String.eqb_spec (Nvme.s_NQN (Nvme.Subsystem_of d)) "") as [|Hn]; [by apply triple_raise|].
  eapply (triple_bind _ _ _ (fun shared h => shared = false ->
    unshared h (Nvme.s_NQN (Nvme.Subsystem_of d)))).
  - eapply triple_conseq; [apply triple_wrap, triple_IsMultiNamespace|intros h H; by apply H|].
    intros [a|e] h H; [|done]. intros Ha. by apply H.
  - intros []; [by apply triple_ret|]. apply safe_wrapped.
    eapply (triple_bind _ _ _ (fun _ => always)); [apply triple_tell; [|done]|by intros [e|]; [apply triple_raise|apply triple_ret]].
    intros h H. by apply H.
Qed.

End Fabric.

Lemma fabric_sound cfg : sound (Fabric cfg).
Proof.
  split; [|split; [apply safe_fabric_Ensure|intros ?; apply safe_ret]]. intros m.
  split; [apply safe_fabric_Observe|]. split; [apply safe_fabric_Release|]. split; [|done].
  intros hh own below [= <-]. split; [apply safe_fabric_Healthy|apply safe_fabric_Heal].
Qed.

(** *** The fan-in, and the indirection *)

Lemma safe_stateOf {m} l below : live l -> safe m (stateOf l below).
Proof. intros H. unfold stateOf. destruct (H m) as [Ho _]. safe. Qed.

Lemma safe_release_members {m} ls below first :
  Forall live ls -> safe m (release_members ls below first).
Proof.
  intros Hl. revert first. induction Hl as [|l ls H _ IH]; intros first; simpl; [apply safe_ret|].
  apply safe_bind; [by apply safe_stateOf|]. intros state. destruct (alreadyDown state); [apply IH|].
  apply safe_attempt; [apply H|]. intros r. apply IH.
Qed.

Lemma safe_survey_members {m} ls below : Forall live ls -> safe m (survey_members ls below).
Proof.
  intros Hl. induction Hl as [|l ls H _ IH]; simpl; [apply safe_ret|].
  apply safe_bind; [apply safe_wrap, H|]. intros r. apply safe_bind; [exact IH|].
  intros [[present ready] devices]. apply safe_ret.
Qed.

Lemma safe_members_Healthy {m} ls own : Forall live ls -> safe m (members_Healthy ls own).
Proof.
  intros Hl. induction Hl as [|l ls H _ IH]; simpl; [apply safe_ret|].
  destruct (hl_healer l) as [h|] eqn:Eh; [|exact IH].
  apply safe_bind; [apply safe_wrap; by apply (H m)|]. intros []; [exact IH|apply safe_ret].
Qed.

Lemma safe_each_in {m A} (f : A -> op unit) xs : Forall (fun x => safe m (f x)) xs -> safe m (each f xs).
Proof. intros H. induction H; simpl; [apply safe_ret|]. by apply safe_bind. Qed.

Lemma safe_collect_in {m A B} (f : A -> op B) xs :
  Forall (fun x => safe m (f x)) xs -> safe m (collect f xs).
Proof.
  intros H. induction H; simpl; [apply safe_ret|]. apply safe_bind; [done|]. intros b.
  apply safe_bind; [done|]. intros bs. apply safe_ret.
Qed.

Lemma members_sound ls : Forall sound ls -> sound (Members ls).
Proof.
  intros Hs. assert (Hl : Forall live ls) by (eapply Forall_impl; [exact Hs|]; by intros l []).
  split; [|split].
  - intros m. split_and!; [intros below|intros below| |done].
    + apply safe_bind; [by apply safe_survey_members|]. intros [[[|n] ready] devices]; apply safe_ret.
    + apply safe_bind; [by apply safe_release_members, Forall_rev|]. intros [e|]; [apply safe_raise|apply safe_ret].
    + intros hh own below [= <-]. split; [by apply safe_members_Healthy|]. apply safe_each_in.
      eapply Forall_impl; [exact Hl|]. intros l H. destruct (hl_healer l) as [h|] eqn:Eh; [|apply safe_ret].
      apply safe_bind; [apply safe_wrap; by apply (H m)|]. intros []; [apply safe_ret|].
      apply safe_wrap. by apply (H m).
  - intros below. apply safe_bind; [|intros ?; apply safe_ret]. apply safe_collect_in.
    eapply Forall_impl; [exact Hs|]. intros l (_ & H & _). apply safe_bind; [by apply safe_wrap|].
    intros ?. apply safe_ret.
  - intros below. apply safe_each_in, Forall_rev. eapply Forall_impl; [exact Hs|]. intros l (H1 & _ & H).
    apply safe_bind; [by apply safe_stateOf|]. intros state. destruct (alreadyGone state); [apply safe_ret|].
    by apply safe_wrap.
Qed.

Section Indirection.

Context {m : mode}.

Let name : string := DMLinearName (v_UUID v).

Lemma safe_mapping args : own_mapping v args -> safe m (tell (RunDM args)).
Proof. intros H. by apply safe_tell. Qed.
Lemma own_verb verb rest :
  verb ∈ ["table"; "create"; "suspend"; "reload"; "resume"] -> own_mapping v ("dmsetup" :: verb :: name :: rest).
Proof. intros H. right. right. by exists verb, rest. Qed.
Lemma safe_Table : safe m (Dm.Table name).
Proof. apply safe_bind; [apply safe_mapping, own_verb; set_solver|]. intros ?. safe. Qed.
Lemma safe_dm_run pre args : own_mapping v args -> safe m (Dm.run pre args).
Proof. intros H. apply safe_bind; [by apply safe_mapping|]. intros ?. safe. Qed.
Lemma safe_verb pre verb rest :
  verb ∈ ["table"; "create"; "suspend"; "reload"; "resume"] ->
  safe m (Dm.run pre ("dmsetup" :: verb :: name :: rest)).
Proof. intros H. by apply safe_dm_run, own_verb. Qed.
Lemma safe_Sectors device : safe m (Dm.Sectors device).
Proof. apply safe_bind; [apply safe_mapping; left; by exists device|]. intros ?. safe. Qed.
Lemma safe_dm_Remove : safe m (Dm.Remove name).
Proof. apply safe_bind; [apply safe_mapping; right; by left|]. intros ?. safe. Qed.
#[local] Hint Resolve safe_Table safe_Sectors safe_dm_Remove : stack.
#[local] Hint Extern 1 (safe _ (Dm.run _ _)) => apply safe_verb; set_solver : stack.

Lemma safe_Swap device sectors : safe m (Dm.Swap name device sectors).
Proof. unfold Dm.Swap, Dm.resume. safe. Qed.
Lemma safe_dm_own : safe m (dm_own name).
Proof. unfold dm_own. safe. Qed.
Lemma safe_set_stale stale : safe m (set_stale stale).
Proof. unfold set_stale. safe. Qed.
#[local] Hint Resolve safe_Swap safe_dm_own safe_set_stale : stack.

Lemma safe_dm_Observe below : safe m (dm_Observe name below).
Proof. unfold dm_Observe. safe. Qed.
Lemma safe_dm_swap below : safe m (dm_swap name below).
Proof. unfold dm_swap. safe. Qed.
#[local] Hint Resolve safe_dm_Observe safe_dm_swap : stack.
Lemma safe_dm_Ensure below : safe m (dm_Ensure name below).
Proof. unfold dm_Ensure, Dm.Create. safe. Qed.
#[local] Hint Resolve safe_dm_Ensure : stack.
Lemma safe_dm_Heal below own : safe m (dm_Heal name below own).
Proof. unfold dm_Heal. safe. Qed.
Lemma safe_dm_Healthy own : safe m (dm_Healthy own).
Proof. unfold dm_Healthy. safe. Qed.

End Indirection.

Lemma dm_sound : sound (dmLinear v).
Proof.
  split; [|split; [apply safe_dm_Ensure|intros ?; apply safe_ret]]. intros m.
  split; [apply safe_dm_Observe|]. split; [intros ?; apply safe_dm_Remove|]. split; [|done].
  intros hh own below [= <-]. split; [apply safe_dm_Healthy|apply safe_dm_Heal].
Qed.

(** *** Physical volumes *)

Section PhysicalVolumes.

Let pv_cfg : LVMPhysicalVolumeConfig := mkPhysicalVolumeConfig (Plans.VolumeGroup v)
  (Plans.LogicalVolume v) (preserved o) (Some (RecognizeStack (preserved o))).

Lemma safe_identify {m} cfg pv : safe m (identify cfg pv).
Proof. unfold identify. safe. Qed.
#[local] Hint Resolve safe_identify : stack.

Lemma safe_survey {m} cfg below : safe m (pv_survey cfg below).
Proof. unfold pv_survey, survey_one. safe. Qed.
#[local] Hint Resolve safe_survey : stack.

Lemma safe_pv_Observe {m} cfg below : safe m (pv_Observe cfg below).
Proof. unfold pv_Observe. safe. Qed.

(** What a survey found absent was read blank. *)
Definition surveyed_blank (d : string * State) (h : trace) : Prop :=
  d.2 = StateAbsent -> read_blank h d.1.

Lemma read_blank_stable pv : stable (fun h => read_blank h pv).
Proof.
  intros h e (pre & dev & r & mid & -> & Hp & Hc & Hmid) He. exists pre, dev, r, (mid ++ [e])%list.
  rewrite <- app_assoc. split_and!; [done..|]. apply Forall_app. split; [done|]. by apply Forall_singleton.
Qed.

Lemma surveyed_stable ds : stable (fun h => Forall (fun d => surveyed_blank d h) ds).
Proof.
  intros h e H He. eapply Forall_impl; [exact H|]. intros d Hd Ha. apply read_blank_stable; [|done]. by apply Hd.
Qed.

Lemma triple_identify {m} (P : trace -> Prop) cfg pv : stable P ->
  triple m P (identify cfg pv) (gives (fun state h => P h /\ state <> StateAbsent)).
Proof.
  intros HP. eapply (triple_bind _ _ _ (fun _ => P)).
  - eapply (triple_conseq (fun h => P h /\ always h)).
    + apply (triple_stable P always); [done|apply lvm_wrap, lvm_VolumeGroup|]. apply safe_wrap. eauto with stack.
    + done.
    + by intros [a|e] h.
  - intros g. apply triple_ret. intros h Hh. split; [done|]. by destruct (_ || _).
Qed.

Lemma triple_survey_one {m} (P : trace -> Prop) cfg dev : stable P ->
  triple m P (survey_one cfg dev) (gives (fun d h => P h /\ surveyed_blank d h)).
Proof.
  intros HP. eapply (triple_bind _ _ _ (fun r h => P h /\
    (Content.rd_Content r = Content.ContentBlank -> read_blank h (Content.Path dev)))).
  - eapply triple_conseq; [apply triple_wrap, (triple_ask P _ (fun r h => P h /\
      (Content.rd_Content r = Content.ContentBlank -> read_blank h (Content.Path dev))))|done|by intros [a|e] h].
    + done.
    + intros h r Hh. split; [by apply HP|]. intros Hr. by exists h, dev, r, [].
  - intros r. destruct (Content.rd_Content r) eqn:Er; cbn zeta.
    2: { apply triple_ret. intros h [Hh Hb]. split; [done|]. intros _. by apply Hb. }
    all: destruct (_ && _); [|by apply triple_raise].
    all: eapply (triple_bind _ _ _ (fun st h => P h /\ st <> StateAbsent));
      [eapply triple_conseq; [by apply (triple_identify P)|by intros h []|by intros [a|e] h]|].
    all: intros st; apply triple_ret; intros h [Hh Hs]; split; [done|]; by intros Ha.
Qed.

Lemma triple_collect_survey {m} (P : trace -> Prop) cfg devices : stable P ->
  triple m P (collect (survey_one cfg) devices)
    (gives (fun ds h => P h /\ Forall (fun d => surveyed_blank d h) ds)).
Proof.
  revert P. induction devices as [|dev devices IH]; intros P HP; simpl; [by apply triple_ret|].
  eapply (triple_bind _ _ _ (fun d h => P h /\ surveyed_blank d h)).
  { eapply triple_conseq; [by apply (triple_survey_one P)|done|by intros [a|e] h]. }
  intros d. eapply (triple_bind _ _ _ (fun ds h => (P h /\ surveyed_blank d h) /\
    Forall (fun d => surveyed_blank d h) ds)).
  { eapply triple_conseq; [apply (IH (fun h => P h /\ surveyed_blank d h))|done|by intros [a|e] h].
    intros h e [Hp Hd] He. split; [by apply HP|]. intros Ha. apply read_blank_stable; [|done]. by apply Hd. }
  intros ds. apply triple_ret. intros h [[Hp Hd] Hds]. split; [done|]. by constructor.
Qed.

Lemma lvm_label_one cfg d : lvm_only (label_one cfg d).
Proof.
  destruct d as [pv []]; unfold label_one; cbn [fst snd]; lvm_only; first [apply lvm_Create|apply lvm_Resolve].
Qed.

Lemma triple_label_one d : triple Raise (surveyed_blank d) (label_one pv_cfg d) anyhow.
Proof.
  destruct d as [pv []]; unfold label_one; cbn [fst snd]; try (by apply triple_ret); try (by apply triple_raise).
  - eapply (triple_bind _ _ _ (fun _ => always)); [|by intros; apply triple_ret].
    eapply triple_conseq; [apply safe_wrapped, (triple_CreatePhysicalVolume eq_refl)| |by intros [a|e] h].
    intros h Hh. by apply Hh.
  - apply (safe_of _ _). apply safe_bind; [apply safe_wrap, safe_Resolve; done|]. intros ?. apply safe_ret.
Qed.

Lemma triple_labels ds :
  triple Raise (fun h => Forall (fun d => surveyed_blank d h) ds) (each (label_one pv_cfg) ds) anyhow.
Proof.
  induction ds as [|d ds IH]; simpl; [by apply triple_ret|].
  eapply (triple_bind _ _ _ (fun _ h => Forall (fun d => surveyed_blank d h) ds)); [|intros _; exact IH].
  eapply triple_conseq; [apply (triple_stable _ (surveyed_blank d) _ (surveyed_stable ds))| |by intros [a|e] h].
  - apply lvm_label_one.
  - apply triple_label_one.
  - intros h H. by apply Forall_cons in H as [H1 H2].
Qed.

Lemma pv_sound : sound (LVMPhysicalVolume pv_cfg).
Proof.
  split; [|split].
  - intros m. split; [apply safe_pv_Observe|]. split; [intros ?; apply safe_ret|]. done.
  - intros below. cbn [hl_Ensure LVMPhysicalVolume].
    eapply (triple_bind _ _ _ (fun ds h => Forall (fun d => surveyed_blank d h) ds)).
    + unfold pv_survey. destruct (Devices below) as [|dev devices]; [by apply triple_raise|].
      eapply triple_conseq; [by apply (triple_collect_survey always)|done|]. intros [ds|e] h; [|done]. by intros [_ H].
    + intros ds. eapply (triple_bind _ _ _ (fun _ => always)); [|by intros; apply triple_ret].
      eapply triple_conseq; [apply triple_labels|done|by intros [a|e] h].
  - intros below. apply safe_each. intros dev. apply safe_wrap. by apply safe_RemovePhysicalVolume.
Qed.

End PhysicalVolumes.

(** *** The volume group *)

Section VolumeGroups.

Let vg_cfg : LVMVolumeGroupConfig := mkVolumeGroupConfig (Plans.VolumeGroup v)
  (Plans.LogicalVolume v) (preserved o) (Plans.InformationalTags v).

Definition asks_stable (P : trace -> Prop) : Prop :=
  forall h e, P h -> is_group_query e -> P (h ++ [e])%list.

Lemma groupless_stable pv : asks_stable (fun h => groupless h pv).
Proof.
  intros h e (pre & answer & mid & -> & Hs & Hmid) He. exists pre, answer, (mid ++ [e])%list.
  rewrite <- app_assoc. split_and!; [done..|]. apply Forall_app. split; [done|]. by apply Forall_singleton.
Qed.

(** The members of no group are known to be of none. *)
Lemma triple_membership_of {m} (P : trace -> Prop) g devices : asks_stable P ->
  triple m P (membership_of g devices) (gives (fun ms h => P h /\ Forall (groupless h) ms.2)).
Proof.
  revert P. induction devices as [|dev devices IH]; intros P HP; simpl; [by apply triple_ret|].
  eapply (triple_bind _ _ _ (fun name h => P h /\ (name = "" -> groupless h (Content.Path dev)))).
  - eapply triple_conseq; [apply triple_wrap, (triple_VolumeGroup P)|done|].
    intros [name|e] h; [|done]. intros (h0 & answer & Hh & -> & Hs).
    split; [apply HP; [done|by eexists _, _]|]. intros ->. exists h0, answer, []. done.
  - intros name. destruct (negb _) eqn:En; [by apply triple_raise|].
    eapply (triple_bind _ _ _ (fun ms h => (P h /\ (name = "" -> groupless h (Content.Path dev))) /\
      Forall (groupless h) ms.2)).
    + eapply triple_conseq; [apply (IH (fun h => P h /\ (name = "" -> groupless h (Content.Path dev))))
        |done|by intros [a|e] h].
      intros h e [Hp Hn] He. split; [by apply HP|]. intros ->. by apply groupless_stable; [apply Hn|].
    + intros ms. destruct (String.eqb name g) eqn:Eg; apply triple_ret; intros h [[Hp Hn] Hms];
        (split; [done|]); cbn [snd]; [done|]. constructor; [|done]. apply Hn. apply negb_false_iff, orb_true_iff in En.
      destruct En as [En|En]; [congruence|]. by apply String.eqb_eq in En.
Qed.

Lemma safe_membership {m} cfg below : safe m (membership cfg below).
Proof.
  unfold membership. destruct (Devices below) as [|dev devices]; [apply safe_raise|].
  eapply triple_conseq; [by apply (triple_membership_of always)|done|done].
Qed.
#[local] Hint Resolve safe_membership : stack.

Lemma safe_vg_Observe {m} cfg below : safe m (vg_Observe cfg below).
Proof. unfold vg_Observe. safe. Qed.

(** The cleanup follows an unmapping that failed, of a group that was not said to be another's. *)
Lemma safe_vg_Release {m} below : safe m (vg_Release vg_cfg below).
Proof.
  eapply triple_attempt_bind; [apply triple_Deactivate|]. intros [u|e]; [by apply triple_ret|].
  case_bool_decide as Hn; [by apply triple_raise|].
  eapply (triple_bind _ _ _ (fun _ h => given_up h (Plans.VolumeGroup v))).
  - eapply triple_conseq; [apply triple_wrap, triple_RemoveOrphanedDMNodes| |by intros [a|e'] h].
    intros h [H|H]; [done|exact H].
  - intros _. eapply triple_conseq; [apply (triple_each (fun h => given_up h (Plans.VolumeGroup v)))
      |intros h H; exact H|done].
    intros dev. eapply (triple_bind _ _ _ (fun _ h => given_up h (Plans.VolumeGroup v)));
      [|intros ?; by apply triple_ret].
    eapply triple_conseq; [apply triple_ForgetDevice|done|by intros [a|e'] h].
Qed.

Lemma safe_vg_Grow {m} cfg below : safe m (vg_Grow cfg below).
Proof. unfold vg_Grow. safe. Qed.

(** A group without the tag is adopted only where what it holds says that it is this
    volume's. *)
Lemma safe_ensureOwned : safe Raise (ensureOwned vg_cfg).
Proof.
  apply safe_bind; [apply safe_wrap; eauto with stack|]. intros tags.
  destruct (has OwnerTag tags); [apply safe_ret|].
  eapply (triple_bind _ _ _ (fun (vs : list Lvm.LogicalVolume) (h : trace) => exists h0 e, h = (h0 ++ [e])%list /\
    listed [] (Plans.VolumeGroup v) (lv_Name <$> vs) e)).
  - eapply triple_conseq; [apply triple_wrap, (triple_ListLogicalVolumes always)|done|].
    intros [vs|e] h; [|done]. intros (h0 & e & _ & -> & Hl). by exists h0, e.
  - intros vs. cbv zeta. destruct (exact_stack _ _ _) eqn:Ex; cbn [negb]; [|by apply triple_raise].
    apply safe_wrapped. eapply triple_conseq; [apply (triple_adopt eq_refl [])| |done].
    intros h (h0 & e & -> & Hl). by exists h0, (lv_Name <$> vs), e.
Qed.

Lemma safe_vg_Ensure below : safe Raise (vg_Ensure vg_cfg below).
Proof.
  eapply (triple_bind _ _ _ (fun ms h => Forall (groupless h) ms.2)).
  { unfold membership. destruct (Devices below) as [|dev devices]; [by apply triple_raise|].
    eapply triple_conseq; [by apply (triple_membership_of always)|done|].
    intros [ms|e] h; [|done]. by intros [_ H]. }
  intros ms. eapply (triple_bind _ _ _ (fun _ => always)).
  - destruct ms as [[|pv joined] unknown].
    + eapply (triple_bind _ _ _ (fun _ => always)); [|by intros; apply triple_ret].
      eapply triple_conseq; [apply safe_wrapped, (triple_CreateVolumeGroup eq_refl)|done|by intros [a|e] h].
    + eapply (triple_conseq always); [|done|by intros [a|e] h].
      apply safe_bind; [apply safe_ensureOwned|]. intros _. destruct unknown; safe.
  - intros _. apply safe_bind; [by apply safe_wrap, safe_ActivateVolumeGroup|]. intros _.
    apply safe_bind; [by apply safe_wrap, safe_ReconcileInformationalTags|]. intros _. apply safe_ret.
Qed.

Lemma vg_sound : sound (LVMVolumeGroup vg_cfg).
Proof.
  split; [|split; [apply safe_vg_Ensure|]].
  - intros m. split; [apply safe_vg_Observe|]. split; [apply safe_vg_Release|]. split; [done|].
    intros g below [= <-]. apply safe_vg_Grow.
  - intros below. by apply safe_wrap, safe_RemoveVolumeGroup.
Qed.

End VolumeGroups.

(** *** The logical volume *)

Section LogicalVolumes.

Let lv_cfg : LVMLogicalVolumeConfig := mkLogicalVolumeConfig (Plans.VolumeGroup v)
  (Plans.LogicalVolume v) (lo_PoolName o) (lo_Definition o).

Lemma safe_lv_artifact {m} cfg : safe m (lv_artifact cfg).
Proof. unfold lv_artifact. safe. Qed.
#[local] Hint Resolve safe_lv_artifact : stack.

Lemma safe_lv_Observe {m} cfg below : safe m (lv_Observe cfg below).
Proof. unfold lv_Observe, lv_inspect. safe. Qed.
#[local] Hint Resolve safe_lv_Observe : stack.

Lemma safe_lv_Grow {m} cfg below : safe m (lv_Grow cfg below).
Proof. unfold lv_Grow, ExpandLogicalVolume, ExtendLogicalVolumeToSize. safe. Qed.

Lemma safe_lv_create cfg : safe Raise (lv_create cfg).
Proof.
  apply safe_bind; [by apply safe_wrap, safe_AddVolumeGroupTag|]. intros _.
  apply safe_bind; [by apply safe_wrap, safe_CreateLogicalVolume|]. intros _.
  by apply safe_wrap, safe_RemoveVolumeGroupTag.
Qed.

Lemma safe_clearStaleMarker cfg : safe Raise (clearStaleMarker cfg).
Proof.
  unfold clearStaleMarker. apply safe_bind; [apply safe_wrap; eauto with stack|]. intros tags.
  destruct (negb _); [apply safe_ret|]. by apply safe_wrap, safe_RemoveVolumeGroupTag.
Qed.
#[local] Hint Resolve safe_lv_create safe_clearStaleMarker : stack.

(** The pool an interrupted create left, listed alone and seen under the marker. *)
Definition marked_pool (h : trace) : Prop :=
  exists pre e marked,
    h = (pre ++ [e; Ev (RunLVM (tags_query (Plans.VolumeGroup v))) (Ok marked)])%list /\
    listed [] (Plans.VolumeGroup v) [lo_PoolName o] e /\ CreatingMarker ∈ tags_of marked.

Lemma triple_remove_pool :
  triple Raise marked_pool (RemoveLogicalVolume (lv_pool lv_cfg)) anyhow.
Proof.
  eapply triple_attempt_bind; [apply (triple_requireOwned marked_pool)|]. intros [[]|e].
  - apply triple_removal, triple_run.
    intros h (h0 & owned & (pre & e & marked & -> & Hl & Hm) & -> & Ho). apply p_pool; [done|].
    exists pre, e, marked, owned. by rewrite <- app_assoc.
  - case_bool_decide; [by apply triple_ret|by apply triple_raise].
Qed.

Lemma safe_completeInterruptedCreate : safe Raise (completeInterruptedCreate lv_cfg).
Proof.
  eapply (triple_bind _ _ _ (fun (vs : list Lvm.LogicalVolume) (h : trace) => exists h0 e, h = (h0 ++ [e])%list /\
    listed [] (Plans.VolumeGroup v) (lv_Name <$> vs) e)).
  { eapply triple_conseq; [apply triple_wrap, (triple_ListLogicalVolumes always)|done|].
    intros [vs|e] h; [|done]. intros (h0 & e & _ & -> & Hl). by exists h0, e. }
  intros [|w ws]; [apply (safe_of _ _), safe_lv_create|]. cbv zeta.
  destruct (only_the_pool _ _) eqn:Ep; cbn [negb]; [|by apply triple_raise].
  apply andb_true_iff in Ep as [_ Ep]. apply bool_decide_eq_true in Ep. rewrite Ep.
  eapply (triple_bind _ _ _ (fun tags h => CreatingMarker ∈ tags -> marked_pool h)).
  - eapply triple_conseq; [apply triple_wrap, (triple_VolumeGroupTags (fun h => exists h0 e,
      h = (h0 ++ [e])%list /\ listed [] (Plans.VolumeGroup v) [lo_PoolName o] e))|done|].
    intros [tags|e] h; [|done]. intros (h0 & marked & (h1 & e & -> & Hl) & -> & ->) Hm.
    exists h1, e, marked. by rewrite <- app_assoc.
  - intros tags. unfold has. case_bool_decide as Ht; cbn [negb]; [|by apply triple_raise].
    eapply (triple_bind _ _ _ (fun _ => always)); [|intros _; apply safe_lv_create].
    eapply triple_conseq; [apply safe_wrapped, triple_remove_pool|intros h H; by apply H|by intros [a|e] h].
Qed.
#[local] Hint Resolve safe_completeInterruptedCreate : stack.

Lemma lv_sound : sound (LVMLogicalVolume lv_cfg).
Proof.
  split; [|split].
  - intros m. split; [apply safe_lv_Observe|]. split; [intros ?; apply safe_ret|]. split; [done|].
    intros g below [= <-]. apply safe_lv_Grow.
  - intros below. cbn [hl_Ensure LVMLogicalVolume]. unfold lv_Ensure.
    assert (Hc := safe_completeInterruptedCreate). safe. by apply safe_ActivateVolumeGroup.
  - intros below. by apply safe_wrap, safe_RemoveLogicalVolume.
Qed.

End LogicalVolumes.

(** *** The filesystem *)

(** Parts that make no call. *)
Definition quiet {A} (p : op A) : Prop := forall s, exists r, p s = Ret r.

Lemma triple_quiet {m A} (P : trace -> Prop) (p : op A) : quiet p -> triple m P p (fun _ => P).
Proof. intros Hq s h Hh. by destruct (Hq s) as [[s' r] ->]. Qed.

Lemma triple_quietly {m A B} (P : trace -> Prop) (p : op A) (k : A -> op B) :
  quiet p -> (forall a, triple m P (k a) anyhow) -> triple m P (p ≫= k) anyhow.
Proof.
  intros Hq Hk. eapply (triple_bind _ _ _ (fun _ => P)); [|exact Hk].
  eapply triple_conseq; [by apply triple_quiet|done|by intros [a|e] h].
Qed.

Lemma quiet_safe {m A} (p : op A) : quiet p -> safe m p.
Proof. intros Hq. eapply triple_conseq; [by apply triple_quiet|done|done]. Qed.

Section Filesystems.

Context (n : NodeConfig) (Hkept : nc_PriorFormat n = kept).
#[local] Set Default Proof Using "Type*".

Let fs_cfg : FilesystemConfig := filesystem_config n v.

Lemma quiet_effective cfg reading : quiet (effective cfg reading).
Proof.
  intros s. unfold effective. destruct (negb _); [by eexists|]. destruct (_ && _); by eexists.
Qed.
Lemma quiet_formatOptions cfg below : quiet (formatOptions cfg below).
Proof. intros s. by eexists. Qed.
Lemma quiet_mountFlags cfg : quiet (mountFlags cfg).
Proof. intros s. by eexists. Qed.
Lemma quiet_strategy cfg : quiet (strategy cfg).
Proof. intros s. by eexists. Qed.
Lemma quiet_set_detected fsType : quiet (set_detected fsType).
Proof. intros s. by eexists. Qed.

Lemma safe_fs_Mount {m} cfg pre source fsType : safe m (fs_Mount cfg pre source fsType).
Proof. unfold fs_Mount. safe. apply quiet_safe, quiet_mountFlags. Qed.
Lemma safe_agrees {m} cfg reading : safe m (agrees cfg reading).
Proof. unfold agrees. safe. Qed.
Lemma safe_read_below {m} below : safe m (read_below below).
Proof. unfold read_below. safe. Qed.
Lemma safe_clear {m} cfg : safe m (clear cfg).
Proof. unfold clear. cbv zeta. safe. Qed.
#[local] Hint Resolve safe_fs_Mount safe_agrees safe_read_below safe_clear : stack.

(** Without its last step: the device that reads as nothing this stage may mount, or as
    anything at all under encryption. *)
Definition read_unmounted (h : trace) (path : string) : Prop :=
  exists pre dev r,
    h = (pre ++ [Ev (IsMountPoint (v_StagingPath v)) (Ok false); Ev (ReadContent dev) (Ok r)])%list /\
    Content.Path dev = path /\
    (Content.rd_Content r = Content.ContentBlank \/
     v_Encrypted v = true /\ Content.rd_Content r ∈ [Content.ContentForeign; Content.ContentUnknown]).

Definition absent_unformatted (below : Art) (found : Observed) (h : trace) : Prop :=
  found.1.1 = StateAbsent -> forall dev, artifact_Device below = Some dev ->
  unformatted v kept h (Content.Path dev).

Lemma triple_blank {m} reading below :
  triple m (fun h => forall dev, artifact_Device below = Some dev -> read_unmounted h (Content.Path dev))
    (blank fs_cfg reading below) (gives (absent_unformatted below)).
Proof.
  unfold blank. cbn [fs_PriorFormat fs_cfg filesystem_config]. unfold priorFormat.
  destruct (nc_PriorFormat n).
  - eapply (triple_bind _ _ _ (fun prior h => prior = "" -> forall dev,
      artifact_Device below = Some dev -> unformatted v kept h (Content.Path dev))).
    + eapply triple_conseq; [apply triple_wrap, (triple_ask _ _ (fun prior h => prior = "" ->
        forall dev, artifact_Device below = Some dev -> unformatted v kept h (Content.Path dev)))
        |intros h Hh; exact Hh|by intros [a|e] h].
      * done.
      * intros h prior Hh -> dev Hd. destruct (Hh dev Hd) as (pre & d & r & -> & Hp & Hr).
        exists pre, d, r. by rewrite <- Hkept, <- !app_assoc.
    + intros prior. destruct (String.eqb_spec prior "") as [->|Hn].
      * apply triple_ret. intros h Hh _. by apply Hh.
      * destruct (_ && _); [by apply triple_raise|].
        eapply (triple_bind _ _ _ (fun _ => always)); [|by intros; apply triple_ret].
        destruct (String.eqb _ _); [|by apply triple_ret].
        eapply triple_conseq; [apply (triple_quiet always), quiet_set_detected|done|by intros [a|e] h].
  - apply triple_ret. intros h Hh _ dev Hd. destruct (Hh dev Hd) as (pre & d & r & -> & Hp & Hr).
    exists pre, d, r. by rewrite <- Hkept, app_nil_r.
Qed.

Lemma triple_read_below {m} (P : trace -> Prop) below :
  triple m P (read_below below) (gives (fun r h => exists h0 dev, P h0 /\
    artifact_Device below = Some dev /\ h = (h0 ++ [Ev (ReadContent dev) (Ok r)])%list)).
Proof.
  unfold read_below. destruct (artifact_Device below) as [dev|] eqn:Ed; [|by apply triple_raise].
  apply triple_wrap, triple_ask; [done|]. intros h r Hh. by exists h, dev.
Qed.

Lemma triple_observed {m} below :
  triple m always (observed fs_cfg below) (gives (absent_unformatted below)).
Proof.
  unfold observed. cbv zeta.
  eapply (triple_bind _ _ _ (fun (mounted : bool) h => mounted = false -> exists h0,
    h = (h0 ++ [Ev (IsMountPoint (v_StagingPath v)) (Ok false)])%list)).
  { eapply triple_conseq; [apply triple_wrap, (triple_ask always _ (fun (mounted : bool) h =>
      mounted = false -> exists h0, h = (h0 ++ [Ev (IsMountPoint (v_StagingPath v)) (Ok false)])%list))
      |done|by intros [a|e] h]; [done|]. intros h mounted _ ->. by exists h. }
  intros []; [by apply triple_ret|].
  destruct (Devices below) as [|d0 ds] eqn:Ed.
  { apply triple_ret. intros h _ _ dev. unfold artifact_Device. by rewrite Ed. }
  eapply (triple_bind _ _ _ (fun r h => exists h0 dev, artifact_Device below = Some dev /\
    h = (h0 ++ [Ev (IsMountPoint (v_StagingPath v)) (Ok false); Ev (ReadContent dev) (Ok r)])%list)).
  { eapply triple_conseq; [apply triple_read_below|intros h H; by apply H|]. intros [r|e] h; [|done].
    intros (h0 & dev & [h1 ->] & Hd & ->). exists h1, dev. by rewrite <- app_assoc. }
  intros r.
  assert (Hb : Content.rd_Content r = Content.ContentBlank \/
      v_Encrypted v = true /\ Content.rd_Content r ∈ [Content.ContentForeign; Content.ContentUnknown] ->
    triple m (fun h => exists h0 dev, artifact_Device below = Some dev /\
      h = (h0 ++ [Ev (IsMountPoint (v_StagingPath v)) (Ok false); Ev (ReadContent dev) (Ok r)])%list)
      (blank fs_cfg r below) (gives (absent_unformatted below))).
  { intros Hr. eapply triple_conseq; [apply triple_blank| |done].
    intros h (h0 & dev & Hd & ->) dev' Hd'. rewrite Hd in Hd'. injection Hd' as <-. by exists h0, dev, r. }
  destruct (Content.rd_Content r) eqn:Er; try by apply triple_raise.
  - destruct (fs_Encrypted fs_cfg) eqn:Ee; [|by apply triple_raise]. apply Hb. right. set_solver.
  - apply Hb. by left.
  - eapply (triple_bind _ _ _ (fun _ => always)); [|by intros; apply triple_ret].
    eapply triple_conseq; [apply safe_agrees|done|by intros [a|e] h].
  - destruct (fs_Encrypted fs_cfg) eqn:Ee; [|by apply triple_raise]. apply Hb. right. set_solver.
Qed.

Lemma safe_observed {m} below : safe m (observed fs_cfg below).
Proof. eapply triple_conseq; [apply triple_observed|done|done]. Qed.
#[local] Hint Resolve safe_observed : stack.

Lemma safe_fs_Observe {m} below : safe m (fs_Observe fs_cfg below).
Proof. unfold fs_Observe. safe. Qed.

Lemma safe_fs_Ensure below : safe Raise (fs_Ensure fs_cfg below).
Proof.
  unfold fs_Ensure. destruct (artifact_Device below) as [dev|] eqn:Ed; [|apply safe_raise].
  eapply (triple_bind _ _ _ (fun found h => found.1.1 = StateAbsent ->
    unformatted v kept h (Content.Path dev))).
  { eapply triple_conseq; [apply triple_observed|done|]. intros [found|e] h; [|done].
    intros H Ha. by apply H. }
  intros [[state reading] own]. apply triple_quietly; [apply quiet_effective|]. intros fsType.
  case_bool_decide; [by apply triple_ret|].
  eapply (triple_bind _ _ _ (fun _ => always)); [|intros _; apply (safe_of always); safe].
  case_bool_decide as Ha; [|by apply triple_ret].
  eapply (triple_conseq (fun h => unformatted v kept h (Content.Path dev)));
    [|intros h Hh; by apply Hh|by intros [a|e] h].
  apply triple_quietly; [apply quiet_formatOptions|]. intros options. apply safe_wrapped.
  eapply (triple_bind _ _ _ (fun _ => always)); [by apply triple_tell|].
  intros [e|]; [apply safe_raise|apply safe_ret].
Qed.

Lemma safe_fs_Heal {m} below own : safe m (fs_Heal fs_cfg below own).
Proof. unfold fs_Heal. safe. apply quiet_safe, quiet_effective. Qed.

Lemma safe_fs_Grow {m} below : safe m (fs_Grow fs_cfg below).
Proof. unfold fs_Grow. cbv zeta. safe. apply quiet_safe, quiet_strategy. Qed.

Lemma filesystem_sound : sound (filesystem n v).
Proof.
  split; [|split; [apply safe_fs_Ensure|intros ?; apply safe_ret]]. intros m.
  split; [apply safe_fs_Observe|]. split; [intros ?; apply safe_clear|]. split.
  - intros hh own below [= <-]. split; [|apply safe_fs_Heal]. cbn [hh_Healthy]. unfold fs_Healthy. safe.
  - intros g below [= <-]. apply safe_fs_Grow.
Qed.

End Filesystems.

(** *** Every plan of the catalog *)

Lemma catalog_sound n plan :
  nc_PriorFormat n = kept -> catalog n v o plan -> Forall sound plan.
Proof.
  intros Hn Hp. pose proof (filesystem_sound n Hn) as Hf.
  assert (Hc : forall c, sound (fabric n c)) by (intros c; apply fabric_sound).
  assert (Hl : Forall sound (lvmStackRaw v o)).
  { apply Forall_cons. split; [apply pv_sound|]. apply Forall_cons. split; [apply vg_sound|].
    apply Forall_singleton, lv_sound. }
  assert (Hd : sound (dmLinear v)) by apply dm_sound.
  destruct Hp as [c []|cs]; unfold planFor, RawBlock, Plain, LVM, LVMRawBlock, IndirectRawBlock,
    IndirectPlain, Striped, lvmStack;
    repeat first [done | apply Forall_nil_2 | apply Forall_app; split | apply Forall_cons_2].
  apply members_sound, Forall_fmap, Forall_true. intros c. apply Hc.
Qed.

End Judged.

End StackSafety.
