(* ===== verification/StackVerbs.v ===== *)
(** What the runner's verbs do to a host, over any plan of the catalog and any host, and how
    the record of a stack names its shape.

    [perform] is a verb of [volstack.Runner] over the layers as a host serves their calls; the
    theorems are about what it called, in order, and about the host's states at the calls. *)

From Stdlib Require Import Ascii String.
From S2P Require Import Prelude.
From S2P Require Import GoStrings.
From S2P Require Import BlockContent.
From S2P Require Import BlockDevices.
From S2P Require Import VolStack.
From S2P Require Import Programs.
From S2P Require Import Kube.
From S2P Require Import HostCalls.
From S2P Require Import Lvm.
From S2P Require Import Layers.
From S2P Require Import Plans.
From S2P Require Import StackSafety.

#[local] Open Scope string_scope.
#[local] Open Scope Z_scope.
#[local] Set Default Proof Using "Type".

Module StackVerbs.

Import Lvm Layers Plans StackSafety.

(** ** The verbs, over a host *)

Inductive verb := DoUp | DoDown | DoHeal | DoGrow | DoObserve | DoDestroy.

Definition mode_of (b : verb) : mode :=
  match b with DoUp => Raise | DoDestroy => Delete | _ => Live end.

Section Verbs.

Context {text : Text} {json : Json} {enc : Encoding}.
Context {St : Type} (serve : forall X, HostCall X -> St -> St * X).

Definition perform (b : verb) (handle : string) (plan : list HostLayer) (s : RState (World (St := St)))
    : RState World :=
  let plan := map (install serve) plan in
  match b with
  | DoUp => (Up handle plan s).1
  | DoDown => (Down handle plan s).1
  | DoHeal => (Heal handle plan s).1
  | DoGrow => (Grow plan s).1
  | DoObserve => (ObserveStack plan s).1
  | DoDestroy => (DestroyStack handle plan s).1
  end.

(** The host went from a state to another over these calls. *)
Fixpoint replays (st : St) (log : list moment) (st' : St) : Prop :=
  match log with
  | [] => st = st'
  | (at_, Ev c x) :: log => at_ = st /\ exists st1, serve _ c st = (st1, x) /\ replays st1 log st'
  end.

Definition calls (log : list (moment (St := St))) : trace := snd <$> log.

Lemma replays_app st log1 log2 st' :
  replays st (log1 ++ log2) st' <-> exists mid, replays st log1 mid /\ replays mid log2 st'.
Proof.
  revert st. induction log1 as [|[at_ [X c x]] log1 IH]; intros st; simpl.
  - split; [intros H; by exists st|by intros (mid & -> & H)].
  - setoid_rewrite IH. naive_solver.
Qed.

Context (v : Volume) (o : LogicalVolumeOptions) (kept : bool).

Definition allow (m : mode) : forall X, HostCall X -> trace -> Prop := allowed v o kept m.
Definition learn X (c : HostCall X) (x : X) (h : trace) : trace := (h ++ [Ev c x])%list.

(** From one world to another: what was called was allowed when it was, and the host answered
    it. *)
Definition obeys (m : mode) (w w' : World (St := St)) : Prop :=
  exists log, w_log w' = (w_log w ++ log)%list /\ replays (w_state w) log (w_state w') /\
    heeded (allow m) learn (calls log) (calls (w_log w)).

Lemma learned_calls (tr h : trace) : learned learn tr h = (h ++ tr)%list.
Proof.
  revert h. induction tr as [|[X c x] tr IH]; intros h; simpl; [by rewrite app_nil_r|].
  rewrite IH. unfold learn. by rewrite <- app_assoc.
Qed.

#[local] Instance obeys_preorder m : PreOrder (obeys m).
Proof.
  split.
  - intros w. exists []. by rewrite app_nil_r.
  - intros w1 w2 w3 (l1 & E1 & R1 & H1) (l2 & E2 & R2 & H2). exists (l1 ++ l2)%list.
    split; [by rewrite E2, E1, app_assoc|]. split; [rewrite replays_app; by exists (w_state w2)|].
    unfold calls in *. rewrite fmap_app, heeded_app, learned_calls. split; [done|].
    by rewrite E1, fmap_app in H2.
Qed.

Lemma recorded_does {R} (p : prog HostCall R) st st' log r :
  recorded serve p st = (st', log, r) -> does p (calls log) r /\ replays st log st'.
Proof.
  revert st log. induction p as [r'|X c k IH]; intros st log; simpl.
  - by intros [= -> <- ->].
  - destruct (serve X c st) as [st1 x] eqn:Es. destruct (recorded serve (k x) st1) as [[st2 log2] r2] eqn:Er.
    intros [= -> <- ->]. destruct (IH x _ _ Er) as [Hd Hr]. split; [by exists x|]. split; [done|]. by exists st1.
Qed.

Lemma turn_obeys {A} m (p : op A) w : safe v o kept m p -> obeys m w (turn serve p w).1.
Proof.
  intros Hp. unfold turn. destruct (recorded serve (p (w_objects w)) (w_state w)) as [[st log] [os r]] eqn:E.
  apply recorded_does in E as [Hd Hr]. exists log. split; [done|]. split; [done|].
  destruct (watched_sound _ _ _ _ _ _ _ _ (Hp (w_objects w) (calls (w_log w)) I) Hd) as [H _]; [|exact H].
  apply Forall_true. by intros [X c x].
Qed.

Lemma answered_obeys {A} m (p : op A) w : safe v o kept m p -> obeys m w (answered serve p w).1.
Proof. intros Hp. unfold answered. apply (turn_obeys _ _ w) in Hp. by destruct (turn serve p w). Qed.
Lemma finished_obeys m (p : op unit) w : safe v o kept m p -> obeys m w (finished serve p w).1.
Proof. intros Hp. unfold finished. apply (turn_obeys _ _ w) in Hp. by destruct (turn serve p w). Qed.

Lemma installed_along m l : live v o kept l -> along (obeys m) (install serve l).
Proof.
  intros Hl. destruct (Hl m) as (Ho & Hr & Hh & Hg). destruct l as [name ob en re de he gr pa me].
  split; cbn [install l_Observe l_Release l_healer l_Grow hl_Observe hl_Release hl_healer hl_Grow] in *.
  - intros below w. apply answered_obeys, Ho.
  - intros below w. apply finished_obeys, Hr.
  - intros h own below w Eh. destruct he as [hh|]; [|done]. injection Eh as <-.
    destruct (Hh hh own below eq_refl) as [H1 H2]. split; [by apply answered_obeys|by apply finished_obeys].
  - intros g below w Eg. destruct gr as [gg|]; [|done]. injection Eg as <-. by apply answered_obeys, Hg.
Qed.

Lemma installed_raises l : sound v o kept l -> raises (obeys Raise) (install serve l).
Proof. intros (_ & H & _) below w. destruct l. apply answered_obeys, H. Qed.
Lemma installed_removes l : sound v o kept l -> removes (obeys Delete) (install serve l).
Proof. intros (_ & _ & H) below w. destruct l. apply finished_obeys, H. Qed.

(** Whatever the verb, the handle, the plan of the catalog and what is recorded of it. *)
Lemma perform_obeys n plan b handle s :
  nc_PriorFormat n = kept -> catalog n v o plan ->
  obeys (mode_of b) (rs_world s) (rs_world (perform b handle plan s)).
Proof.
  intros Hn Hp. apply (catalog_sound v o kept n plan Hn) in Hp.
  assert (Ha : forall m, Forall (along (obeys m)) (map (install serve) plan)).
  { intros m. apply Forall_fmap. eapply Forall_impl; [exact Hp|]. intros l [H _]. by apply installed_along. }
  destruct b; unfold perform; cbn [mode_of].
  - apply (Up_moved (obeys Raise)); [done|]. apply Forall_fmap. eapply Forall_impl; [exact Hp|]. apply installed_raises.
  - by apply (Down_moved (obeys Live)).
  - by apply (heal_from_moved (obeys Live)).
  - by apply (grow_from_moved (obeys Live)).
  - by apply (observe_from_moved (obeys Live)).
  - apply (DestroyStack_moved (obeys Delete)); [done|]. apply Forall_fmap. eapply Forall_impl; [exact Hp|].
    apply installed_removes.
Qed.

(** *** What a verb's log shows *)

(** Where a call of a log stands in it. *)
Lemma heeded_at (log1 log2 : list moment) st X (c : HostCall X) x m (h : trace) :
  heeded (allow m) learn (calls (log1 ++ (st, Ev c x) :: log2)) h ->
  allow m X c (h ++ calls log1)%list.
Proof.
  unfold calls. rewrite fmap_app, heeded_app, learned_calls. intros [_ H]. by destruct H.
Qed.

Lemma calls_app (log1 log2 : list (moment (St := St))) : calls (log1 ++ log2) = (calls log1 ++ calls log2)%list.
Proof. apply fmap_app. Qed.

(** A stretch of calls, and the states they were made in. *)
Lemma calls_split (log : list (moment (St := St))) (tr1 tr2 : trace) : calls log = (tr1 ++ tr2)%list ->
  exists log1 log2, log = (log1 ++ log2)%list /\ calls log1 = tr1 /\ calls log2 = tr2.
Proof. intros H. apply fmap_app_inv in H as (l1 & l2 & H1 & H2 & ->). by exists l1, l2. Qed.

End Verbs.

(** ** What a command does to the host *)

Inductive effect := Reads | Unmaps | Maps | Grows | Tags | Creates | Removes | Clears.

#[global] Instance effect_eq_dec : EqDecision effect.
Proof. solve_decision. Defined.

(** The effect of a command of LVM's runner, by its name and, of [vgchange] and [dmsetup], by
    its first argument.  [Clears]: a device-mapper node is taken away, or a device is taken off
    the list of those LVM looks at. *)
Definition effect_of (args : list string) : effect :=
  match args with
  | command :: args =>
      if bool_decide (command ∈ reading) then Reads
      else if String.eqb command "vgchange" then
        match args with
        | flag :: _ => if String.eqb flag "-an" then Unmaps else if String.eqb flag "-ay" then Maps else Tags
        | [] => Tags
        end
      else if String.eqb command "dmsetup" then
        match args with
        | ["ls"] => Reads
        | _ => Clears
        end
      else if String.eqb command "lvmdevices" then Clears
      else if bool_decide (command ∈ ["vgextend"; "lvextend"; "pvresize"]) then Grows
      else if String.eqb command "lvchange" then Tags
      else if bool_decide (command ∈ ["pvcreate"; "vgcreate"; "lvcreate"; "lvrename"; "vgimportclone"]) then Creates
      else Removes
  | [] => Removes
  end.

Definition effects_of (m : mode) : list effect :=
  match m with
  | Live => [Reads; Unmaps; Grows; Clears]
  | Raise => [Reads; Unmaps; Grows; Clears; Maps; Tags; Creates]
  | Delete => [Reads; Unmaps; Grows; Clears; Removes]
  end.

Lemma flag_effect (flag : string) (args : list string) :
  effect_of ("vgchange" :: flag :: args) ∈ [Unmaps; Maps; Tags].
Proof.
  unfold effect_of. rewrite bool_decide_eq_false_2 by (unfold reading; set_solver).
  cbn [String.eqb Ascii.eqb Bool.eqb]. repeat case_match; set_solver.
Qed.

Lemma has_effect args e m :
  effect_of args = e -> bool_decide (e ∈ effects_of m) = true -> effect_of args ∈ effects_of m.
Proof. intros ->. apply bool_decide_eq_true. Qed.

Lemma permitted_effect `{!Text, !Json} v o m h args : permitted v o m h args ->
  effect_of args ∈ effects_of m \/
  m = Raise /\ args = ["lvremove"; "--yes"; lv_path (mkLogicalVolume (Plans.VolumeGroup v) (lo_PoolName o))].
Proof.
  destruct 1 as [command args Hc| | | | | | | | |group pvs| |flag tag group| | | | devices group| | | | |];
    subst; try (by right); left;
    try (by destruct m; refine (has_effect _ _ _ eq_refl _)); try (by refine (has_effect _ _ _ eq_refl _)).
  - apply (has_effect _ Reads); [|by destruct m]. unfold effect_of. by rewrite bool_decide_eq_true_2.
  - pose proof (flag_effect flag [tag; group]). set_solver.
  - by destruct devices; refine (has_effect _ _ _ eq_refl _).
Qed.

(** What clears a node or a device follows an unmapping of the volume's group that failed. *)
Lemma permitted_clears `{!Text, !Json} v o m h args : permitted v o m h args ->
  effect_of args = Clears ->
  given_up h (Plans.VolumeGroup v) /\
  forall name, args = ["dmsetup"; "remove"; name] -> stranded h (Plans.VolumeGroup v) name.
Proof.
  destruct 1 as [command args Hc| |name Hs|device Hg| | | | | |group pvs| |flag tag group| | | | devices group| | | | |];
    intros E; try (by exfalso; revert E; vm_compute).
  - exfalso. revert E. unfold effect_of. by rewrite bool_decide_eq_true_2.
  - split; [by eapply stranded_given_up|]. by intros ? [= <-].
  - done.
  - pose proof (flag_effect flag [tag; group]) as Hf. rewrite E in Hf. set_solver.
  - by destruct devices.
Qed.

Section Host.

Context {text : Text} {json : Json} {enc : Encoding}.
Context {St : Type} (serve : forall X, HostCall X -> St -> St * X).

(** The calls a verb made, each with the state of the host it was made in. *)
Definition made (b : verb) (handle : string) (plan : list HostLayer) (s : RState (World (St := St)))
    : list (moment (St := St)) :=
  drop (length (w_log (rs_world s))) (w_log (rs_world (perform serve b handle plan s))).

(** [m] was made at a place of the log, after these. *)
Definition after (log : list (moment (St := St))) (before : list (moment (St := St))) (m : moment (St := St)) : Prop :=
  exists rest, log = (before ++ m :: rest)%list.

Context (n : NodeConfig) (v : Volume) (o : LogicalVolumeOptions).

Lemma made_obeys b handle plan s : catalog n v o plan ->
  let w := rs_world s in
  let w' := rs_world (perform serve b handle plan s) in
  w_log w' = (w_log w ++ made b handle plan s)%list /\
  replays serve (w_state w) (made b handle plan s) (w_state w') /\
  heeded (allow v o (nc_PriorFormat n) (mode_of b)) learn (calls (made b handle plan s)) (calls (w_log w)).
Proof.
  intros Hp. destruct (perform_obeys serve v o _ n plan b handle s eq_refl Hp) as (log & E & Hr & Hh).
  unfold made. rewrite E, drop_app_length. done.
Qed.

(** C3. Whatever the host answers and whatever is recorded, no verb of the runner over a plan of
    the catalog makes a call without the evidence it needs: at each call, what was called and
    answered before it allows it.  A group is changed only where it was just seen to carry the
    driver's tag, a device is labeled only where it read blank, a filesystem is made only where
    nothing is mounted, the device was read and what is kept of the volume says that it was
    never formatted, a group without the tag is adopted only where its volumes were just listed
    and are this stack's, and a subsystem is disconnected only where it and its controller say
    that it holds one namespace at most. *)
Theorem verbs_ask_first b handle plan s before st X (c : HostCall X) x
    (Hp : catalog n v o plan) (Hc : after (made b handle plan s) before (st, Ev c x)) :
  allowed v o (nc_PriorFormat n) (mode_of b) X c (calls (w_log (rs_world s)) ++ calls before)%list.
Proof.
  destruct (made_obeys b handle plan s Hp) as (_ & _ & H). destruct Hc as [rest E]. rewrite E in H.
  by apply heeded_at in H.
Qed.

(** C15. Every command of LVM's runner that a verb over a plan of the catalog makes has an
    effect the verb may have, and only a bring-up makes a filesystem.  With those commands a
    release, a healing, a growth and an observation create, map and retag nothing and remove no
    volume, group or label; a bring-up removes nothing but this volume's own pool; a destruction
    creates, maps and retags nothing.  A device-mapper node is taken away, and a device is taken off LVM's list, only
    after an unmapping of this volume's group that failed: LVM did not say what tags the group
    carries, or it carries the driver's and would not be unmapped; it was not said to be
    another's; and the node was listed since, under the group's name.  The commands of the linear
    indirection name this volume's mapping and no other. *)
Theorem verbs_keep_to_their_effects b handle plan s before st
    (Hp : catalog n v o plan) :
  let seen := (calls (w_log (rs_world s)) ++ calls before)%list in
  (forall args x, after (made b handle plan s) before (st, Ev (RunLVM args) x) ->
     (effect_of args ∈ effects_of (mode_of b) \/
      b = DoUp /\ args = ["lvremove"; "--yes"; lv_path (mkLogicalVolume (Plans.VolumeGroup v) (lo_PoolName o))]) /\
     (effect_of args = Clears ->
      given_up seen (Plans.VolumeGroup v) /\
      forall name, args = ["dmsetup"; "remove"; name] -> stranded seen (Plans.VolumeGroup v) name)) /\
  (forall args x, after (made b handle plan s) before (st, Ev (RunDM args) x) -> own_mapping v args) /\
  (forall device fsType options x, after (made b handle plan s) before (st, Ev (Format device fsType options) x) ->
     b = DoUp).
Proof.
  intros seen. assert (Hup : mode_of b = Raise -> b = DoUp) by by destruct b.
  destruct (made_obeys b handle plan s Hp) as (_ & _ & H). split; [|split].
  - intros args x [rest E]. rewrite E in H. apply heeded_at in H. split; [|by eapply permitted_clears].
    apply permitted_effect in H. naive_solver.
  - intros args x [rest E]. rewrite E in H. by apply heeded_at in H.
  - intros device fsType options x [rest E]. rewrite E in H. apply heeded_at in H as [H _]. by apply Hup.
Qed.

End Host.

(** ** Only a blank device is formatted *)

Section Bytes.

Context {text : Text} {json : Json} {enc : Encoding}.
Context {St : Type} (serve : forall X, HostCall X -> St -> St * X).

(** The bytes behind a device, how this host opens devices, and the options of its prober, with
    the size of the regions it reads. *)
Context (image : St -> string -> bytes) (open_ : St -> Content.Opener)
  (opts : list (Content.Prober -> Content.Prober)) (R : Z).

Definition prober (st : St) : Content.Prober := Content.NewProberWithOpener (open_ st) opts.

(** A reading is what the prober makes of the device's bytes. *)
Definition reads_bytes : Prop :=
  forall st dev st' r, serve _ (ReadContent dev) st = (st', Ok r) ->
    exists rd, Content.probed (prober st) dev rd (image st (Content.Path dev)) /\
      Content.Read (prober st) dev = Ok r /\ Content.p_regionSize (prober st) = R.

(** Neither a reading nor a look at what is kept of the volume writes to a device. *)
Definition looks_only : Prop :=
  (forall st dev, image (serve _ (ReadContent dev) st).1 = image st) /\
  (forall st v, image (serve _ (LookupFormat v) st).1 = image st).

Context (n : NodeConfig) (v : Volume) (o : LogicalVolumeOptions).

Lemma unformatted_blank log st st' device :
  replays serve st log st' -> reads_bytes -> looks_only ->
  R < 2 ^ 62 -> v_Encrypted v = false -> unformatted v (nc_PriorFormat n) (calls log) device ->
  exists block, Content.shows_nothing R block (image st' device).
Proof.
  intros Hlog Hread [Hq Hl] HR He (pre & dev & r & E & Hp & Hr).
  apply calls_split in E as (log1 & log2 & -> & _ & E2). apply replays_app in Hlog as (st0 & _ & Hlog).
  destruct log2 as [|[st1 e1] [|[st2 e2] log3]]; [done|by destruct (nc_PriorFormat n)|].
  injection E2 as -> -> E3. destruct Hlog as (<- & st3 & _ & <- & st4 & Es & Hlog).
  assert (Himg : image st' = image st2).
  { assert (H4 := Hq st2 dev). rewrite Es in H4. cbn [fst] in H4. rewrite <- H4. clear Es H4.
    destruct (nc_PriorFormat n).
    - destruct log3 as [|[st5 e5] [|]]; [done| |done]. injection E3 as ->.
      destruct Hlog as (<- & st6 & Es & <-). specialize (Hl st5 v). by rewrite Es in Hl.
    - destruct log3; [simpl in Hlog; by subst|done]. }
  rewrite Himg, <- Hp. destruct (Hread _ _ _ _ Es) as (rd & Hprobed & HRead & <-).
  exists (Content.lbs_of dev).
  destruct Hr as [Hb|[Hb _]]; [|congruence].
  exact (Content.blank_shows_nothing (open_ st2) opts dev rd _ r HR Hprobed HRead Hb).
Qed.

(** C2. A filesystem is made only on a device that is blank there and then: where the host's
    readings are of the bytes of its devices and the volume is not one whose bytes are
    encrypted, then at every format a verb makes from an empty log, in the state of the host it is made in, the
    device's first block is zero, every byte is where the device was read whole, and no format
    of the catalog, erased or not, sits at its fixed place on it. *)
Theorem only_a_blank_device_is_formatted b handle plan s before st device fsType options x
    (Hreads : reads_bytes) (Hlooks : looks_only)
    (HR : R < 2 ^ 62)
    (Hv : v_Encrypted v = false) (Hp : catalog n v o plan) (Hnew : w_log (rs_world s) = [])
    (Hc : after (made serve b handle plan s) before (st, Ev (Format device fsType options) x)) :
  exists block, Content.shows_nothing R block (image st device).
Proof.
  destruct (made_obeys serve n v o b handle plan s Hp) as (_ & Hr & H). destruct Hc as [rest E].
  rewrite E, ?Hnew in *. apply heeded_at in H as [_ H].
  apply replays_app in Hr as (st0 & Hr & <- & _).
  by apply (unformatted_blank before (w_state (rs_world s))).
Qed.

End Bytes.

(** ** Shapes *)

Section Shapes.

Context {text : Text} {json : Json} {enc : Encoding}.
Context {St : Type} (serve : forall X, HostCall X -> St -> St * X) (n : NodeConfig).

Definition layers_of (shape : stackShape) : list string :=
  match shape with
  | shapeRawBlock => [layerFabric]
  | shapePlain => [layerFabric; layerFilesystem]
  | shapeIndirectRawBlock => [layerFabric; layerDMLinear]
  | shapeIndirectPlain => [layerFabric; layerDMLinear; layerFilesystem]
  | shapeLVMRawBlock => [layerFabric; layerLVMPhysicalVolume; layerLVMVolumeGroup; layerLVMLogicalVolume]
  | shapeLVM => [layerFabric; layerLVMPhysicalVolume; layerLVMVolumeGroup; layerLVMLogicalVolume; layerFilesystem]
  end.

Lemma planned_names c v o shape : Names (map (install serve) (planFor n c v o shape)) = layers_of shape.
Proof. by destruct shape. Qed.

Lemma shape_of_layers shape : shapeFromRecord (layers_of shape) = Ok shape.
Proof. by destruct shape. Qed.

Lemma layers_of_shape layers shape : shapeFromRecord layers = Ok shape -> layers = layers_of shape.
Proof.
  unfold shapeFromRecord. destruct (find _ recordedShapes) as [p|] eqn:E; [|by destruct (find _ layers)].
  intros [= <-]. apply find_some in E as [Hin Hp]. apply bool_decide_eq_true in Hp. subst layers.
  repeat (destruct Hin as [<-|Hin]; [done|]). done.
Qed.

Lemma Up_marks {W Device} handle (plan : list (Layer W Device)) s s' a :
  Up handle plan s = (s', Ok a) -> marked_to (rs_store s') handle plan (length plan).
Proof.
  unfold Up. intros E. destruct (recordFor handle plan) as [rec|err] eqn:Er; [|done].
  destruct (on_store EvRecord _ s) as [s1 [err|]] eqn:Ew; [done|].
  apply on_store_logged in Ew as (_ & Hw & _). apply recordFor_marked in Er as Hm.
  apply up_from_spec in E as (evs & _ & [(a' & _ & _ & H)|[(k & l & cause & ? & oks & _ & H & _)|(k & err & _ & H & _)]]);
    [exact H|done..| |]; [done|].
  exists rec. split; [|done]. apply Write_spec in Hw as [Hw _]. unfold VolStack.recorded.
  rewrite Hw by done. destruct Hm as (Hv & Hh & _). by rewrite Hh, lookup_insert_eq, versioned_id.
Qed.

(** C23. What a volume was staged as is what it is restaged and taken down as: once a bring-up of
    the shape its class and capability ask for, indirect or not by the setting of that day,
    succeeded, the record it left names that shape, and a later attachment takes it again
    whatever the setting is by then; and a record names a shape only where it is that shape's
    layers, bottom to top, a plan over several namespaces naming none. *)
Theorem staged_shape_is_kept handle c v o vdo block setting setting' s s' a st' rec
    (Hup : Up handle (map (install serve)
       (planFor n c v o (attachShape (Err ErrNoRecord) setting (shapeFor vdo block)))) s = (s', Ok a))
    (Hload : Load (rs_store s') handle = (st', Ok rec)) :
  let shape := attachShape (Err ErrNoRecord) setting (shapeFor vdo block) in
  attachShape (Ok rec) setting' (shapeFor vdo block) = shape /\
  shapeFromRecord (recordedLayers rec) = Ok shape /\
  (forall layers shape', shapeFromRecord layers = Ok shape' <->
     layers = Names (map (install serve) (planFor n c v o shape'))) /\
  (forall cs, is_Ok (shapeFromRecord (Names (map (install serve) (Striped n cs v o)))) = false).
Proof.
  cbn zeta. apply Up_marks in Hup as (rec' & Hrec & _ & _ & Hn & _).
  apply Load_spec in Hload as [_ H]. destruct (H rec eq_refl) as [H' _]. rewrite Hrec in H'.
  injection H' as ->. clear H. rewrite planned_names in Hn.
  assert (Hl : recordedLayers rec = layers_of (attachShape (Err ErrNoRecord) setting (shapeFor vdo block)))
    by exact Hn.
  split_and!.
  - unfold attachShape at 1. rewrite Hl. by destruct vdo, block, setting.
  - rewrite Hl. apply shape_of_layers.
  - intros layers shape'. rewrite planned_names. split; [apply layers_of_shape|intros ->; apply shape_of_layers].
  - done.
Qed.

End Shapes.

(** ** What a staging decides *)

Section Staging.

Context {text : Text} {json : Json} {enc : Encoding}.
Context {St : Type} (serve : forall X, HostCall X -> St -> St * X) (n : NodeConfig) (v : Volume).

(** What a part, run from a state, calls and is answered, and its result. *)
Definition ends {R} (p : prog HostCall R) (st : St) (Q : trace -> R -> Prop) : Prop :=
  exists st' log r, recorded serve p st = (st', log, r) /\ Q (calls log) r.

Lemma ends_ret {R} (r : R) st (Q : trace -> R -> Prop) : Q [] r -> ends (Ret r) st Q.
Proof. intros H. by exists st, [], r. Qed.

Lemma ends_call {R X} (c : HostCall X) (k : X -> prog HostCall R) st x Q :
  (serve X c st).2 = x -> ends (k x) (serve X c st).1 (fun tr r => Q (Ev c x :: tr) r) ->
  ends (Vis c k) st Q.
Proof.
  intros Hx (st' & log & r & E & H). exists st', ((st, Ev c x) :: log), r. cbn [recorded].
  destruct (serve X c st) as [st1 x1]. cbn [fst snd] in *. subst x1. by rewrite E.
Qed.

Lemma ends_then {A B} (p : prog HostCall A) (k : A -> prog HostCall B) st Q :
  ends p st (fun tr r => forall st', ends (k r) st' (fun tr' r' => Q (tr ++ tr')%list r')) ->
  ends (bind p k) st Q.
Proof.
  intros (st' & log & r & E & H). destruct (H st') as (st2 & log2 & r2 & E2 & HQ). clear H.
  exists st2, (log ++ log2)%list, r2. unfold calls in *. rewrite fmap_app. split; [|done].
  clear HQ. revert st log E. induction p as [a|X c k' IH]; intros st log; simpl.
  - by intros [= -> <- ->].
  - destruct (serve X c st) as [st1 x]. destruct (recorded serve (k' x) st1) as [[st3 log3] r3] eqn:E3.
    intros [= -> <- ->]. by rewrite (IH x st1 log3 E3).
Qed.

Definition acts {A} (m : op A) (s : Objects) (st : St) (Q : trace -> Objects -> res herr A -> Prop) : Prop :=
  ends (m s) st (fun tr r => Q tr r.1 r.2).

Lemma acts_ret {A} (a : A) s st (Q : trace -> Objects -> res herr A -> Prop) : Q [] s (Ok a) -> acts (mret a) s st Q.
Proof. intros H. by apply (ends_ret (s, Ok a)). Qed.
Lemma acts_raise {A} e s st (Q : trace -> Objects -> res herr A -> Prop) : Q [] s (Err e) -> acts (raise e) s st Q.
Proof. intros H. by apply (ends_ret (s, Err e)). Qed.
Lemma acts_held s st Q : Q [] s (Ok s) -> acts held s st Q.
Proof. intros H. by apply (ends_ret (s, Ok s)). Qed.
Lemma acts_hold s' s st Q : Q [] s' (Ok ()) -> acts (hold s') s st Q.
Proof. intros H. by apply (ends_ret (s', Ok ())). Qed.

Lemma acts_bind {A B} (p : op A) (k : A -> op B) s st Q :
  acts p s st (fun tr s' r => match r with
    | Ok a => forall st', acts (k a) s' st' (fun tr' => Q (tr ++ tr')%list)
    | Err e => Q tr s' (Err e) end) -> acts (p ≫= k) s st Q.
Proof.
  intros (st' & log & [s' r] & E & H). apply ends_then. exists st', log, (s', r). split; [done|].
  destruct r as [a|e]; [exact H|]. intros st2. apply ends_ret. by rewrite app_nil_r.
Qed.

Lemma acts_wrap {A} pre (p : op A) s st (Q : trace -> Objects -> res herr A -> Prop) :
  acts p s st (fun tr s' r => Q tr s' (match r with Ok a => Ok a | Err e => Err (wrapped pre e) end)) ->
  acts (wrap pre p) s st Q.
Proof.
  intros (st' & log & [s' r] & E & H). apply ends_then, ends_then. exists st', log, (s', r).
  split; [done|]. intros st2. apply ends_ret. intros st3. rewrite app_nil_r.
  destruct r; apply ends_ret; by rewrite app_nil_r.
Qed.

Lemma acts_tell {A} (c : HostCall A) s st x (Q : trace -> Objects -> res herr A -> Prop) :
  (serve A c st).2 = x -> Q [Ev c x] s (Ok x) -> acts (tell c) s st Q.
Proof. intros Hx H. eapply ends_call; [exact Hx|]. by apply (ends_ret (s, Ok x)). Qed.

Lemma acts_ask {A} (c : HostCall (res string A)) s st a (Q : trace -> Objects -> res herr A -> Prop) :
  (serve _ c st).2 = Ok a -> Q [Ev c (Ok a)] s (Ok a) -> acts (ask c) s st Q.
Proof. intros Hx H. eapply acts_bind, acts_tell; [exact Hx|]. intros st'. by apply acts_ret. Qed.

Lemma acts_request (c : HostCall (error_of string)) s st (Q : trace -> Objects -> res herr unit -> Prop) :
  (serve _ c st).2 = None -> Q [Ev c None] s (Ok ()) -> acts (request c) s st Q.
Proof. intros Hx H. eapply acts_bind, acts_tell; [exact Hx|]. intros st'. by apply acts_ret. Qed.

(** What the staging of a device is to do: make a filesystem or not, and mount the device as
    what; or nothing.  [detected] is the filesystem the layer knows from before. *)
Definition fresh_or_again (prior detected : string) : option (bool * string) :=
  if negb (nc_PriorFormat n) || String.eqb prior "" then
    Some (true, known_from (filesystem_config n v) detected)
  else if String.eqb (v_FsType v) "" then Some (false, prior)
  else if String.eqb prior (v_FsType v) then Some (false, v_FsType v) else None.

Definition staging (reading : Content.Reading) (prior detected : string) : option (bool * string) :=
  let carried := Content.rd_Type reading in
  match Content.rd_Content reading with
  | Content.ContentBlank => fresh_or_again prior detected
  | Content.ContentFilesystem =>
      if String.eqb (v_FsType v) "" then
        Some (false, if String.eqb carried "" then known_from (filesystem_config n v) detected else carried)
      else if String.eqb carried (v_FsType v) then Some (false, v_FsType v) else None
  | Content.ContentForeign | Content.ContentUnknown =>
      if v_Encrypted v then fresh_or_again prior detected else None
  | _ => None
  end.

(** Whether what is kept of the volume is looked up. *)
Definition looks_up (reading : Content.Reading) : bool :=
  nc_PriorFormat n &&
  match Content.rd_Content reading with
  | Content.ContentBlank => true
  | Content.ContentForeign | Content.ContentUnknown => v_Encrypted v
  | _ => false
  end.

Definition staging_calls (below : Art) (dev : Content.Device) (reading : Content.Reading)
    (prior detected : string) : trace :=
  ([Ev (IsMountPoint (v_StagingPath v)) (Ok false); Ev (ReadContent dev) (Ok reading)] ++
   (if looks_up reading then [Ev (LookupFormat v) (Ok prior)] else []) ++
   match staging reading prior detected with
   | None => []
   | Some (fresh, fsType) =>
       let s := FilesystemStrategyFor fsType in
       (if fresh : bool then
          [Ev (Format (Content.Path dev) fsType (st_FormatOptions s (v_FormatOptions v)
                 (mkFormatParameters (a_Geometry below) (v_ReservedBlocksPercent v)))) None]
        else []) ++
       [Ev (Mount (Content.Path dev) (v_StagingPath v) fsType (st_MountFlags s (v_MountFlags v))) None]
   end)%list.

(** Runs a part whose calls are answered as is known. *)
Ltac acts :=
  repeat lazymatch goal with
  | |- acts (_ ≫= _) _ _ _ => apply acts_bind
  | |- acts (wrap _ _) _ _ _ => apply acts_wrap
  | |- acts (ask _) _ _ _ => eapply acts_ask; [solve [auto]|]; cbv beta iota
  | |- acts (request _) _ _ _ => apply acts_request; [solve [auto]|]; cbv beta iota
  | |- acts (mret _) _ _ _ => apply acts_ret; cbv beta iota
  | |- acts (raise _) _ _ _ => apply acts_raise; cbv beta iota
  | |- acts (fails _) _ _ _ => apply acts_raise; cbv beta iota
  | |- acts held _ _ _ => apply acts_held; cbv beta iota
  | |- acts (hold _) _ _ _ => apply acts_hold; cbv beta iota
  | |- acts (if ?b then _ else _) _ _ _ =>
      lazymatch type of b with bool => let E := fresh "E" in destruct b eqn:E; try discriminate E end
  | |- forall _ : St, _ => intros ?
  end.

(** The cases left are told apart by the names compared. *)
Ltac settle_cases prior reading :=
  unfold known_from; cbn [filesystem_config fs_FsType o_detected];
  repeat match goal with H : @eq bool _ _ |- _ => revert H end;
  repeat match goal with H : Content.rd_Content reading = _ |- _ => rewrite ?H; clear H end;
  try (by intros; discriminate);
  destruct (String.eqb (v_FsType v) ""); try done;
  destruct (String.eqb prior ""); try done;
  destruct (String.eqb prior (v_FsType v)); try done;
  destruct (String.eqb (Content.rd_Type reading) ""); try done;
  destruct (String.eqb (Content.rd_Type reading) (v_FsType v)); try done;
  destruct (v_Encrypted v); done.

(** C14. What a staging does with a device nothing is mounted on, where the host does what it is
    asked: it formats exactly where the decision says so, mounts the device as the filesystem
    decided on with that filesystem's own options, and calls neither where it refuses. *)
Theorem staging_follows_its_decision below dev reading prior objects st
    (Hmounted : forall st, (serve _ (IsMountPoint (v_StagingPath v)) st).2 = Ok false)
    (Hread : forall st, (serve _ (ReadContent dev) st).2 = Ok reading)
    (Hprior : forall st, (serve _ (LookupFormat v) st).2 = Ok prior)
    (Hformat : forall device fsType options st, (serve _ (Format device fsType options) st).2 = None)
    (Hmount : forall source fsType options st, (serve _ (Mount source (v_StagingPath v) fsType options) st).2 = None)
    (Hdev : artifact_Device below = Some dev) :
  acts (fs_Ensure (filesystem_config n v) below) objects st (fun tr _ r =>
    tr = staging_calls below dev reading prior (o_detected objects) /\
    match staging reading prior (o_detected objects) with
    | Some _ => r = Ok (mkArtifact (Devices below) (v_StagingPath v) (mkGeometry 0 0))
    | None => is_Ok r = false
    end).
Proof.
  destruct below as [devices path geometry]. destruct devices as [|d0 [|]]; [done| |done].
  injection Hdev as ->. apply acts_bind. unfold observed. cbv zeta.
  acts. cbn [Devices]. acts. unfold read_below. cbn [artifact_Device Devices]. acts.
  unfold staging_calls, staging, looks_up, fresh_or_again, agrees, blank, effective, known, set_detected.
  cbn [filesystem_config fs_FsType fs_Encrypted fs_PriorFormat a_Geometry]. unfold priorFormat.
  unfold formatOptions, fs_Mount, mountFlags, strategy, known.
  destruct (nc_PriorFormat n), (Content.rd_Content reading) eqn:Er.
  all: acts.
  all: settle_cases prior reading.
Qed.

End Staging.

(** ** What modelling showed *)

(** A device read as a member of a RAID array, or as anything else the catalog calls foreign, is
    formatted under encryption where nothing is kept of the volume, although the comment says
    that a RAID label is still refused: the probe calls it foreign and not a layer of a stack. *)
Lemma foreign_is_formatted_under_encryption n v reading detected :
  Content.rd_Content reading = Content.ContentForeign -> v_Encrypted v = true ->
  staging n v reading "" detected = Some (true, known_from (filesystem_config n v) detected).
Proof.
  intros Hr He. unfold staging, fresh_or_again. rewrite Hr, He. by rewrite orb_true_r.
Qed.

(** The annotation of a claim is passed on as what is recorded of its volume, so that of a blank
    device it is never the request it is documented to be: whatever a claim asks for, no filesystem
    is made, and where the class names another the device is refused; what an encrypted volume's
    device reads as foreign or unknown is treated alike. *)
Lemma a_requested_filesystem_is_never_made n v reading requested detected :
  Content.rd_Content reading = Content.ContentBlank \/
    (v_Encrypted v = true /\ (Content.rd_Content reading = Content.ContentForeign \/
       Content.rd_Content reading = Content.ContentUnknown)) ->
  nc_PriorFormat n = true -> requested <> "" ->
  staging n v reading requested detected =
    (if String.eqb (v_FsType v) "" then Some (false, requested)
     else if String.eqb requested (v_FsType v) then Some (false, v_FsType v) else None).
Proof.
  intros Hr Hn Hq. apply String.eqb_neq in Hq.
  assert (staging n v reading requested detected = fresh_or_again n v requested detected) as ->.
  { unfold staging. by destruct Hr as [->|[-> [->| ->]]]. }
  unfold fresh_or_again. by rewrite Hn, Hq.
Qed.

Lemma raid_members_are_foreign r f :
  Content.detectMDRaid r = Some f -> Content.f_content f = Content.ContentForeign.
Proof.
  unfold Content.detectMDRaid. induction (Content.md_candidates r) as [|c cs IH]; [done|].
  cbn [Content.first_of]. destruct (Content.eq _ _ _); [by intros [= <-]|exact IH].
Qed.

(** A host without the command answers in words that are taken for a device without a label. *)
Lemma no_command_reads_as_no_label `{!Text} :
  let e := plain "exec: pvs: executable file not found in $PATH" in
  isNoPVSignature e = true /\ isAlreadyGone e = true.
Proof. by split. Qed.

(** The record of a bring-up names the default filesystem where the class names none, whatever
    the device carries, and so does a growth in a new process. *)
Lemma unnamed_filesystem_is_the_default `{!Encoding} n v :
  v_FsType v = "" ->
  hl_Params (filesystem n v) = Some (encode (FilesystemParams (defaultFsType (filesystem_config n v)))) /\
  strategy (filesystem_config n v) no_objects =
    Ret (no_objects, Ok (FilesystemStrategyFor (defaultFsType (filesystem_config n v)))).
Proof.
  intros Hv. unfold filesystem, Filesystem, strategy, known, known_from, filesystem_config. cbn.
  by rewrite Hv.
Qed.

(** ** A host to run on *)

#[local] Existing Instance Kube.Names.ascii_only.
#[local] Instance no_json : Json :=
  {| pvs_report := fun _ => Ok []; lvs_report := fun _ => Ok [] |}.
#[local] Instance any_encoding : Encoding := fun _ => Ok "".

(** One blank device, of one sector, behind one controller; formatted, it begins as XFS does. *)
Definition disk_bytes (formatted : bool) : bytes :=
  if formatted then Content.xfs_image else Content.zeros 512.

Definition disk_prober (formatted : bool) : Content.Prober :=
  Content.NewProberWithOpener (Content.local (disk_bytes formatted)) [].

Definition disk : Nvme.Device :=
  Nvme.mkDevice (Nvme.mkNamespace 1 "nvme0n1" "/dev/nvme0n1" "259:0" "u" 512 1 false [] "")
    (Nvme.mkSubsystem "s" "nqn.s" [Nvme.mkController "nvme0" "/dev/nvme0" "live"] []).

Definition on_disk (X : Type) (c : HostCall X) (formatted : bool) : bool * X :=
  match c with
  | IsMountPoint _ => (formatted, Ok false)
  | ReadContent dev =>
      (formatted,
       if bool_decide (Content.SizeBytes dev = 512 /\ Content.LogicalBlockSize dev = 512) then
         match Content.Read (disk_prober formatted) dev with Ok r => Ok r | Err _ => Err "" end
       else Err "")
  | LookupFormat _ => (formatted, Ok "")
  | Format _ _ _ => (true, None)
  | Mount _ _ _ _ => (formatted, None)
  | ListWithSelector _ => (formatted, Ok [disk])
  | WaitForDevice _ => (formatted, Ok disk)
  | RunLVM _ => (formatted, Err "")
  | RunDM _ => (formatted, ("", Some ""))
  | Resolve _ => (formatted, Err "")
  | Unmount _ | ForceUnmount _ | GrowFs _ => (formatted, None)
  | ConnectPaths _ => (formatted, None)
  | Identify _ => (formatted, Ok 1)
  | Disconnect _ => (formatted, None)
  end.

Definition node : NodeConfig := mkNodeConfig "" "" true.
Definition conn : Fabrics.Connection :=
  Fabrics.mkConnection "nqn.s" 1 "u" [Fabrics.mkEndpoint "tcp" "10.0.0.1" 4420 0 0 0 None None "" false "" ""].
Definition vol : Volume := mkVolume "u" "/staging" "" "ext4" [] [] "" "" "" "" false.
Definition vdo : LogicalVolumeOptions := vdoOptions (fun _ => "").

Definition start : RState (World (St := bool)) :=
  mkRState (mkStore (mkDisk ∅ ∅ None) []) (mkWorld false no_objects []) [].
Definition plain_plan : list HostLayer := planFor node conn vol vdo shapePlain.

Definition plain_log : list (moment (St := bool)) := made on_disk DoUp "vol" plain_plan start.

Lemma plain_in_catalog : catalog node vol vdo plain_plan.
Proof. apply (one_namespace node vol vdo conn shapePlain). Defined.

(** The bring-up's sixth call makes the filesystem. *)
Lemma plain_formats :
  after plain_log (take 5 plain_log) (false, Ev (Format "/dev/nvme0n1" "ext4" []) None).
Proof. exists (drop 6 plain_log). vm_compute. reflexivity. Defined.

Lemma verbs_ask_first_witness :
  unformatted vol (nc_PriorFormat node) (calls (take 5 plain_log)) "/dev/nvme0n1".
Proof.
  refine (proj2 (verbs_ask_first on_disk node vol vdo DoUp "vol" plain_plan start (take 5 plain_log) false
    _ (Format "/dev/nvme0n1" "ext4" []) None _ _)).
  - exact plain_in_catalog.
  - exact plain_formats.
Defined.

(** On the same host, a bring-up over LVM labels the device. *)
Definition lvm_plan : list HostLayer := planFor node conn vol vdo shapeLVM.
Definition lvm_log : list (moment (St := bool)) := made on_disk DoUp "vol" lvm_plan start.
Definition label_disk : list string := ["pvcreate"; "--devices"; "/dev/nvme0n1"; "/dev/nvme0n1"].

Lemma lvm_in_catalog : catalog node vol vdo lvm_plan.
Proof. apply (one_namespace node vol vdo conn shapeLVM). Defined.

Lemma lvm_labels : after lvm_log (take 3 lvm_log) (false, Ev (RunLVM label_disk) (Err "")).
Proof. exists (drop 4 lvm_log). vm_compute. reflexivity. Defined.

(** The same host with a node of the group left: a release whose unmapping fails takes it
    away. *)
Definition stranding (X : Type) (c : HostCall X) (formatted : bool) : bool * X :=
  match c in HostCall X return bool * X -> bool * X with
  | RunLVM args => fun otherwise =>
      if bool_decide (args = ["dmsetup"; "ls"]) then (formatted, Ok "vol--u-data	(252:0)")
      else if bool_decide (args = ["dmsetup"; "remove"; "vol--u-data"]) then (formatted, Ok "")
      else otherwise
  | _ => fun otherwise => otherwise
  end (on_disk X c formatted).
Definition down_log : list (moment (St := bool)) := made stranding DoDown "vol" lvm_plan start.
Definition drop_node : list string := ["dmsetup"; "remove"; "vol--u-data"].
Definition is_drop (e : moment (St := bool)) : bool :=
  match e with
  | (_, Ev (RunLVM args) _) => bool_decide (args = drop_node)
  | _ => false
  end.
Definition drop_at : nat := default O (fst <$> list_find (fun e => is_drop e = true) down_log).

Lemma down_drops : after down_log (take drop_at down_log) (false, Ev (RunLVM drop_node) (Ok "")).
Proof. exists (drop (S drop_at) down_log). vm_compute. reflexivity. Defined.

Lemma verbs_keep_to_their_effects_witness :
  (effect_of label_disk ∈ [Reads; Unmaps; Grows; Clears; Maps; Tags; Creates] \/
   DoUp = DoUp /\ label_disk = ["lvremove"; "--yes"; "vol-u/vdopool"]) /\
  given_up (calls (take drop_at down_log)) "vol-u".
Proof.
  split.
  - refine (proj1 (proj1 (verbs_keep_to_their_effects on_disk node vol vdo DoUp "vol" lvm_plan start
      (take 3 lvm_log) false _) label_disk (Err "") lvm_labels)).
    exact lvm_in_catalog.
  - refine (proj1 (proj2 (proj1 (verbs_keep_to_their_effects stranding node vol vdo DoDown "vol" lvm_plan
      start (take drop_at down_log) false _) drop_node (Ok "") down_drops) eq_refl)).
    exact lvm_in_catalog.
Defined.

Lemma on_disk_reads_bytes :
  reads_bytes on_disk (fun formatted _ => disk_bytes formatted)
    (fun formatted => Content.local (disk_bytes formatted)) [] Content.DefaultRegionSize.
Proof.
  intros formatted dev st' r H. cbn [on_disk] in H. injection H as <- H.
  case_bool_decide as Hd; [|done]. destruct Hd as [Hs Hb]. unfold prober, disk_prober in *.
  destruct (Content.Read _ dev) as [x|e] eqn:E; [|done]. injection H as ->.
  assert (Hl : Content.len (disk_bytes formatted) = 512) by (by destruct formatted; vm_compute).
  exists (fun off k => (k, Content.slice (disk_bytes formatted) off k, None)). split; [|by split].
  constructor; [done| | | |].
  - apply Content.reads_all_reads. intros off k _ _ _. done.
  - by rewrite Hl.
  - by rewrite Hl.
  - by rewrite Hb.
Defined.

Lemma only_a_blank_device_is_formatted_witness :
  exists block, Content.shows_nothing Content.DefaultRegionSize block (Content.zeros 512).
Proof.
  refine (only_a_blank_device_is_formatted on_disk (fun formatted _ => disk_bytes formatted)
    (fun formatted => Content.local (disk_bytes formatted)) [] Content.DefaultRegionSize node vol vdo
    DoUp "vol" plain_plan start (take 5 plain_log) false "/dev/nvme0n1" "ext4" [] None _ _ _ _ _ _ _).
  - exact on_disk_reads_bytes.
  - split; reflexivity.
  - reflexivity.
  - reflexivity.
  - exact plain_in_catalog.
  - reflexivity.
  - exact plain_formats.
Defined.

Definition brought : RState World * res verr Art := Up "vol" (map (install on_disk) plain_plan) start.

Lemma staged_shape_is_kept_witness :
  shapeFromRecord ["fabric"; "filesystem"] = Ok shapePlain.
Proof.
  refine (proj1 (proj2 (staged_shape_is_kept on_disk node "vol" conn vol vdo false false false true start
    brought.1 (mkArtifact [Nvme.BlockDevice (Nvme.Namespace_of disk)] "/staging" (mkGeometry 0 0))
    (rs_store brought.1)
    (mkRecord RecordVersion "vol"
       [mkEntry "fabric" (Some "") [] true; mkEntry "filesystem" (Some "") [] true]) _ _))).
  - vm_compute. reflexivity.
  - vm_compute. reflexivity.
Defined.

(** The same host, as if nothing it does changed it. *)
Definition steady (X : Type) (c : HostCall X) (st : unit) : unit * X := (st, (on_disk X c false).2).

Definition blank_reading : Content.Reading :=
  Content.mkReading Content.ContentBlank ""
    "the first 512 bytes are zero, and no signature matched anywhere in the 512 bytes read".

Definition disk_device : Content.Device := Nvme.BlockDevice (Nvme.Namespace_of disk).

Lemma staging_follows_its_decision_witness :
  acts steady (fs_Ensure (filesystem_config node vol) (mkArtifact [disk_device] "" (mkGeometry 0 0))) no_objects ()
    (fun tr _ r =>
       tr = [Ev (IsMountPoint "/staging") (Ok false); Ev (ReadContent disk_device) (Ok blank_reading);
             Ev (LookupFormat vol) (Ok ""); Ev (Format "/dev/nvme0n1" "ext4" []) None;
             Ev (Mount "/dev/nvme0n1" "/staging" "ext4" []) None] /\
       r = Ok (mkArtifact [disk_device] "/staging" (mkGeometry 0 0))).
Proof.
  refine (staging_follows_its_decision steady node vol
    (mkArtifact [disk_device] "" (mkGeometry 0 0))
    disk_device blank_reading "" no_objects () _ _ _ _ _ _).
  - reflexivity.
  - vm_compute. reflexivity.
  - reflexivity.
  - reflexivity.
  - reflexivity.
  - reflexivity.
Defined.

End StackVerbs.
